(* ===== verification/_CoqProject ===== *)
-Q . S2P
Prelude.v
PyVal.v
Json.v
Execution.v
SessionStore.v
Leases.v
Revision.v
Durability.v
Retry.v
Interaction.v
Versions.v
Optimizers.v
Models.v
Diagnostics.v
RequestLease.v
RequestCoordinator.v
RequestSafety.v
JournalPayload.v
ResourceLimits.v
JournalRecords.v
JournalVocabulary.v
JournalSnapshot.v
JournalRuntime.v
JournalReplay.v
JournalRecovery.v
JournalDemo.v
JsonParse.v
JsonDefault.v
SqliteStore.v
SqliteJournal.v
SqliteCodec.v
SqliteInvariant.v
SqliteRefinement.v
SqliteLeases.v
SqliteSafety.v
SqlitePort.v
SqliteIntegrity.v
SqliteLeaseRefinement.v
SqliteWorkers.v
SqliteDemo.v
JournalCache.v
JournalCacheSafety.v
CacheDemo.v
Utf8Stream.v
JobStore.v
JobLogs.v
JobCodec.v
JobSafety.v
JobWorkers.v
JobSupervisor.v
JobDemo.v
SupervisorDemo.v
ToolResults.v
ToolBudget.v
ToolDemo.v
HumanInput.v
Checkpoint.v
CheckpointCodec.v
CheckpointRuntime.v
InteractionRuntime.v
InteractionRequests.v
DurableSafety.v
DurableMemory.v
InteractionSafety.v
InteractionWorkers.v
InteractionProgress.v
SessionBootstrap.v
InteractionDemo.v
