(* ===== verification/Prelude.v ===== *)
(** * unchain: a verification development

    unchain is an agent runtime: a kernel loop sends messages to a model
    provider, runs the tools the model asks for, stops for human decisions and
    keeps everything it needs to resume in a session store.  This library
    models the part that must be right for a run to survive crashes,
    concurrent workers, flaky providers and hostile exceptions, and proves what
    each component promises to the others.  Paths below are relative to
    src/unchain.

    ** How the parts interact

    A worker acquires a lease on an execution and holds it through a guard;
    the guard's fencing token authorises writes to the session store, which
    refuses every token that is not current.  Session snapshots are written by
    compare-and-swap, with the fence when there is one.  Model calls are
    repeated by the retry executor unless the failure is durable or output has
    been shown.  Human decisions are requests and receipts in a journal that is
    part of the session snapshot.  A run that stops for a decision leaves a
    checkpoint in the same document, bound to its request and to the attempt
    that owns it; whoever brings the answer records it there by
    compare-and-swap, and a cancelled attempt is closed there, so that the run
    is resumed with one answer or not at all.  The messages of a run are versions in a
    graph; harnesses, among them the context optimizers, change them by deltas.
    A provider request is claimed in a durable lease of its own before it is
    sent, and its end is recorded there.  Everything a run does is written to
    the journal of its execution through a durable event sink, which replays it
    after a crash and decides what may be done again.  Journal and request
    leases live in one SQLite database, whose repository and lease port are
    proved to keep the contracts that sink and coordinator rely on.  Long
    commands are jobs: a supervisor reserves a job in a store of files and
    starts a detached worker, which claims the job, runs its command once,
    beats while it lives and records the outcome; supervisors, workers and
    readers meet only in the store.

    ** Files

    - [Prelude]: Python strings, results, the state-and-exception monad [M],
      insertion-ordered dictionaries, tactics ([run_in], [bsimpl]), the hint
      database [py] and the rewrite database [py_rw].
    - [PyVal]: dynamically typed values, dictionaries, truth values, doubles,
      equality as [==] sees it.
    - [Json]: UTF-8, [json.dumps], [float.__repr__] and SHA-256, executable.
    - [Execution] (execution.py): leases, fences, errors, the lease-store
      protocol as the class [ExecutionLeaseStore] with its laws
      [LeaseStoreLaws], the guard state machine with heartbeat, borrowed
      guards, scopes, guarded model calls.  Methods of the guard are
      computations on a world of a store and a guard; threads are
      interleavings of lock-protected steps ([guard_step]).
    - [SessionStore] (memory/manager.py, InMemorySessionStore): sessions,
      revisions, lease records and cancellation tombstones as finite maps, the
      clock as a stream of readings; every public method, and all of them
      together as the step relation [store_step].
    - [Leases]: the store meets the lease laws; guard and store together.
    - [Revision] (memory/revision.py): snapshots over any store object, given
      as the record [session_store] of the methods it has.
    - [Durability] (durability.py): exceptions as a graph on a heap; the search
      of that graph, and marking.
    - [Retry] (retry/types.py, backoff.py, classifier.py, executor.py,
      wrapper.py): callbacks are computations over an arbitrary world, a
      provider call is an interaction tree of emitted events.
    - [Interaction] (interaction/durable.py): requests, receipts and the
      journal over raw values; validation, building and the three journal
      operations ([journal_step]).
    - [Versions] (kernel/versioning.py, kernel/delta.py, kernel/state.py): the
      version graph ([graph_step]), deltas, and the message state of a run
      ([run_step]).
    - [Optimizers] (optimizers/common.py, base.py, last_n.py,
      sliding_window.py, tool_pair_safety.py): turns, token estimates and the
      three optimizers.
    - [Models] (journal/models.py): field validation and the seven reference
      records with their wire shapes.
    - [Diagnostics] (providers/failure_diagnostic.py,
      uncertainty_diagnostic.py): the closed diagnostics of a lease.
    - [RequestLease] (providers/request_lease.py, records): subjects, result
      bindings and leases, their constructors and wire shapes.
    - [RequestCoordinator] (providers/request_lease.py, port and coordinator):
      every method as a program of port calls [prog]; [run] runs one alone,
      [pool_step] interleaves any number of them with port failures, crashes
      and lost answers; the rules each method keeps ([legal]).
    - [RequestSafety]: the invariant of such a pool and its consequences.
    - [JournalPayload] (journal/models.py, freezing): payloads are copied into
      an immutable form; fields with sensitive names must be opaque metadata.
    - [ResourceLimits] (journal/resource_limits.py): depth, nodes and encoded
      bytes of a record, counted in one walk.
    - [JournalRecords] (journal/models.py, events): append requests, events,
      pages, append results and receipt lookups; the class [WireRecord].
    - [JournalVocabulary] (journal/graph_attempt_quiescence.py,
      interaction_cycles.py): terminal events and interaction families.
    - [JournalSnapshot] (journal/snapshot.py): snapshots, digests, capture.
    - [JournalRuntime] (journal/runtime.py, ports.py): drafts, the journal port
      [BoundExecutionJournal] as a record of operations over a state of its
      own, and the sink with append, replay and recovery.
    - [JournalReplay], [JournalRecovery]: what the sink guarantees.
    - [JournalDemo]: a journal in memory that keeps the promises of the port,
      and the journal theorems applied to one tool call.
    - [JsonParse]: [bytes.decode] and [json.loads]; what [json.dumps] writes is
      read back.
    - [JsonDefault]: the same for [json.dumps] with its default separators.
    - [SqliteStore] (persistence/sqlite_v2.py, schema and store): tables with
      their constraints and triggers, transactions that may fail, the object
      directory.
    - [SqliteJournal], [SqliteLeases] (persistence/sqlite_v2.py): the
      repository of one execution and the lease port.
    - [SqliteCodec], [SqliteInvariant], [SqliteRefinement]: stored records are
      read back; the tables hold one journal; appending implements an abstract
      log.  [SqliteSafety]: any history of the store ([store_step]).
      [SqlitePort], [SqliteIntegrity]: the promises of the journal port and of
      cached snapshots.  [SqliteLeaseRefinement], [SqliteWorkers]: workers on
      the database are workers of [RequestCoordinator].  [SqliteDemo]:
      concrete histories.
    - [JournalCache], [JournalCacheSafety] (context/journal_view_cache.py): the
      view of a journal that a run keeps in memory, over the SQLite repository,
      with other writers between its transactions ([World], [cache_step]), and
      the registry of such caches.  [CacheDemo]: a cache at work.
    - [Utf8Stream]: the incremental UTF-8 decoder of the standard library.
    - [JobStore] (jobs/store.py, jobs/models.py): the files of a store as
      finite maps of bytes; every method of [JsonFileJobStore], where a crash
      may strike before any change of a file.
    - [JobLogs] (jobs/_worker.py, [_LogPump]): the pump that bounds a log, and
      the reader that follows it.  [JobCodec]: what was written is read back.
    - [JobSafety]: any history of a store ([store_step]): [sound] stores and
      how they may evolve ([evolves]).
    - [JobWorkers] (jobs/_worker.py): [run_worker] as a machine with one step
      per call of the store or answer of the operating system, and any number
      of workers with everything else ([world_step]).
    - [JobSupervisor] (jobs/process.py): [ProcessJobSupervisor] over a store
      that others change before each of its calls; clocks, liveness and
      [Popen] are answers of a [Host].
    - [JobDemo], [SupervisorDemo]: concrete jobs.
    - [ToolResults], [ToolBudget] (tools/result_budget.py): results in messages
      of every provider, their canonical size, the description that replaces a
      long one, and the budget of a batch.  [ToolDemo]: a long result.
    - [HumanInput] (input/human_input.py): questions, options and answers.
    - [Checkpoint] (memory/checkpoint_state.py, memory/ownership.py): the
      checkpoint of a stopped run as a document with an identity and a digest;
      building, validating, registering its request, applying its receipt,
      restoring.  [CheckpointCodec]: what is built is accepted.
    - [CheckpointRuntime] (memory/runtime.py): the session document over any
      store object, as programs of store calls ([prog]) that [run] runs alone;
      fences, owners, reconciliation, saving and clearing checkpoints.
    - [InteractionRuntime] (interaction/runtime.py): response contracts, normal
      forms of answers, and the operations of [DurableInteractionRuntime] on
      top of [CheckpointRuntime].
    - [InteractionRequests] (interaction/requests.py): the requests that a run
      builds when it stops, bound to what the model saw, and their comparison
      when it is resumed.
    - [DurableSafety]: the class [DocumentStore] says what a store promises of
      its documents; [safe] is what a program may do and what it may rely on
      while others act between its calls.  [DurableMemory]: the process-local
      store keeps these promises.  [InteractionSafety]: what each operation of
      [InteractionRuntime] guarantees.
    - [InteractionWorkers]: any number of workers, interleaved at every store
      call ([pool_step]).  [InteractionProgress]: a worker alone.
    - [SessionBootstrap] (memory/runtime.py, [bootstrap_session]): the messages
      a turn starts from.  [InteractionDemo]: a question, two answers that race
      and a cancellation.

    ** What the theorems show

    - Store: every reachable state is well formed; a token that was released,
      superseded or cancelled is dead for ever; cancellation is permanent; at
      most one holder; tokens increase; acquiring implements its contract on
      every branch; compare-and-swap loses no update; an unfenced write cannot
      bypass a lease.
    - Guards: identity and monotonicity under any interleaving, for every
      store; a failed heartbeat poisons the guard; renewal never shortens;
      scopes release; two guards exclude each other by the laws alone; a
      guarded call returns only to the owner; a borrowed guard never releases
      its parent.
    - Snapshots: what is saved is what is loaded; revisions advance with any
      store; a fenced save never degrades.
    - Durability: the search ends within its budgets on every graph, is exact
      or fails closed, and never misses a durable failure; a marked one is
      recognised through any wrapper.
    - Retry: the number of retries after the first attempt, what may be retried
      and what exhaustion means; visible output is never replayed; delays are bounded.
    - Interactions: the journal is append-only and has one pending entry; a
      request can be carried through to its application; a second answer is
      refused; validation is a normal form and built records survive it.
    - Messages: graph and run keep their history; lineage terminates; a delta
      creates one child; the span operations are clamped replacements.
    - Optimizers: the sliding window keeps a suffix of whole turns within the
      budget; remaining tool uses are paired; a delta takes effect.
    - Provider requests: one worker sends a request; a lease only moves
      forward and a swap never replaces what its caller did not read; retries
      and fallbacks have a durable justification; recovery allows a resend
      exactly when nobody claimed; recording a result can be repeated; leases
      survive all their wire shapes.
    - Journal: a field with a sensitive name holds the opaque form its name asks
      for, at any depth; freezing is a normal form and every record survives
      its wire shape; the resource check measures the
      encoding without building it; a snapshot is a complete prefix, capturing
      it is exact and it survives its wire shape; the terminal of an attempt is
      characterised; only projected events of the attempt are written; replay
      is ordered with any journal and determined by the log of an honest one; a
      tool that may have started is never run again on its own, recovery is determined at
      every crash point and a reused result is the recorded one.
    - SQLite, for histories of the modelled operations ([command]): appending
      implements the abstract log and happens once however often it is
      repeated; every reachable database is sound; a command that
      fails changes nothing; the lease tables simulate the abstract lease
      store, so at most one worker sends a request and recovery frees no
      claim; replay returns the events of the attempt or raises, by the
      generations and the length of the journal alone, and recovery never runs a
      tool that may have started; a snapshot
      that is reported current is the journal.
    - Journal view cache: what the cache returns is the journal as it stood at
      a moment of the call, whoever writes to the database meanwhile; while
      nobody does, the cache and the reader without a cache return the same.
    - Jobs: whatever runs, crashes or interleaves, a launch specification never
      changes, statuses move forward with growing revisions, claims freeze when
      a job leaves the queue, logs only grow and a request to cancel stays; a
      reservation is idempotent; the command of a job runs at most once, and
      never when the job was cancelled in the queue; a reader gets what the
      pump kept.
    - Supervisors: looking at a job changes its state at most once, to an unknown
      outcome, when the loss of its worker is confirmed in the store that the
      transition finds or its claim is another worker's; cancelling never races with its own
      launch; waiting ends.
    - Tool results: the loop that makes a description state its own size ends
      with the right number; budgeting a batch ends, only ever shortens, and
      the batch fits unless nothing in it can be described more briefly.
    - Durable answers: two workers that are both told that their answer counts
      hold the same receipt, and it is what each of them said; a wait that was
      cancelled is not resumed; answers, requests and applications in a session
      document are never lost or replaced, whatever workers and other writers
      do; an answer is recorded when nobody interferes; the normal form of an
      answer is its own normal form; a checkpoint that was built is accepted
      unchanged; a fresh turn loses no message of the stored conversation; the
      request of a run is accepted by its checkpoint exactly when the names of
      session and run have no surrounding space, and an approval that is built
      again on resumption is the stored one.

    Each theorem with hypotheses has a witness that applies it to concrete
    data.  Examples at the ends of [Interaction], [Versions], [Optimizers] and
    [ResourceLimits] show where the code departs from what it documents.

    ** Bounds and fuel

    Replay has one turn per page and stops after 100000 as the code does.
    Three loops are not structural.  The exception search runs with one turn
    more than its own limit of 1024 nodes and is proved never to run out of
    it.  [lineage] has one turn per version, which is proved enough for graphs
    built with unused identifiers, and shown not to be for one with a cycle.
    The JSON parser has one unit per character, which is enough for every text.
    The loop that settles the size of a description has four turns, which are
    proved enough for sizes below [10^4000]; bisection has one per character of
    the preview, and the rounds over a batch one per character of its results.
    [wait_loop] of a supervisor has one turn per look at the job, and as many as
    there are readings of the clock before the deadline are proved enough.
    Failing transactions are a script of a [SqliteStore]; a job store has an
    optional number of changes it still makes before it crashes.
    Reconciliation of a cancelled execution has the sixteen attempts of the
    code, after which it raises.
    The loops of [Json] (decimal digits, SHA-256 blocks) have a bound from the
    size of their input.  Integers are unbounded as in Python; doubles are
    IEEE 754 with 53 bits.  Lengths above [2^53] characters, recursion limits
    and memory exhaustion are not modelled.

    ** What is not modelled

    The remainder of [RunState.apply_delta] (the state-update dictionary,
    component buckets and the suspend signal), the kernel loop, the run ledger
    and provider replay, the provider and catalogue records of the journal, the
    context compiler, memory assembly, subagents and skills are left for later,
    and so are the provider turn results, the run-bundle ledger, the upgrade of
    the schema at start-up, receipt lookup by iteration and the read-only
    journal of sqlite_v2.py.  Of memory/runtime.py, long-term memory, recall,
    [commit_transcript] and the summary that [bootstrap_session] reports are
    not modelled, and neither are the hosts that wait for answers
    (interaction/adapters.py, resume.py, effects.py).  Of jobs, temporary files, permissions and [fsync],
    signals to a child process, the capture of the environment and command
    lines are not modelled.  Provider adapters, tools and front ends are input
    and output.  Unicode normalisation and case folding are parameters ([nfc],
    [nfkc], [casefold]), [nfc] with the laws of the standard; the port of the
    request leases and the journal port are their documented contracts.  Error
    messages are kept where the code builds them from its arguments in
    [Execution], [SessionStore] and [Revision]; elsewhere an error is its
    class. *)

From stdpp Require Export base list strings gmap sorting.
From Stdlib Require Export ZArith Lia.

(** ** Python strings

    A Python [str] is a sequence of Unicode code points (surrogates
    included), so it is modelled as a list of code points.  Literals of the
    source are written [u "..."]. *)

Abbreviation pystr := (list N).

Definition u (s : string) : pystr :=
  Ascii.N_of_ascii <$> String.list_ascii_of_string s.
#[global] Arguments u : simpl never.

(** [str.isspace] on one code point: the characters that [str.strip] removes. *)
Definition is_space (c : N) : bool :=
  ((9 <=? c) && (c <=? 13) || (28 <=? c) && (c <=? 32) || (c =? 133)
   || (c =? 160) || (c =? 5760) || (8192 <=? c) && (c <=? 8202)
   || (c =? 8232) || (c =? 8233) || (c =? 8239) || (c =? 8287)
   || (c =? 12288))%N.

Fixpoint lstrip (s : pystr) : pystr :=
  match s with
  | [] => []
  | c :: s' => if is_space c then lstrip s' else s
  end.

Definition rstrip (s : pystr) : pystr := reverse (lstrip (reverse s)).

(** [str.strip()]. *)
Definition strip (s : pystr) : pystr := rstrip (lstrip s).

(** [s.startswith(p)]. *)
Definition startswith (s p : pystr) : bool := bool_decide (p `prefix_of` s).

(** Python's truth value of a string. *)
Definition nonempty (s : pystr) : bool := match s with [] => false | _ => true end.

(** ** Results and the state-and-exception monad

    A fallible function returns [result E A]; a method of a mutable object
    is a function of type [M S E A]: the state it leaves behind is returned
    also when it raises, as in Python. *)

Inductive result (E A : Type) : Type :=
| Ok (a : A)
| Err (e : E).
Arguments Ok {E A} a.
Arguments Err {E A} e.

#[export] Instance result_ret E : MRet (result E) := λ A a, Ok a.
#[export] Instance result_bind E : MBind (result E) :=
  λ A B f m, match m with Ok a => f a | Err e => Err e end.

#[export] Instance result_eq_dec {E A} `{EqDecision E, EqDecision A} :
  EqDecision (result E A).
Proof. solve_decision. Defined.

Definition is_ok {E A} (r : result E A) : bool :=
  match r with Ok _ => true | Err _ => false end.

(** [if not b: raise e]. *)
Definition ensure {E} (b : bool) (e : E) : result E unit :=
  if b then Ok tt else Err e.

Definition M (S E A : Type) : Type := S → result E A * S.

#[export] Instance M_ret S E : MRet (M S E) := λ A a s, (Ok a, s).
#[export] Instance M_bind S E : MBind (M S E) :=
  λ A B f m s,
    match m s with
    | (Ok a, s') => f a s'
    | (Err e, s') => (Err e, s')
    end.

Definition raise {S E A} (e : E) : M S E A := λ s, (Err e, s).
Definition gets {S E A} (f : S → A) : M S E A := λ s, (Ok (f s), s).
Definition modify {S E} (f : S → S) : M S E unit := λ s, (Ok tt, f s).
Definition lift {S E A} (r : result E A) : M S E A := λ s, (r, s).

(** [try: m  except Exception as e: h e]. *)
Definition try_except {S E A} (m : M S E A) (h : E → M S E A) : M S E A :=
  λ s, match m s with
       | (Ok a, s') => (Ok a, s')
       | (Err e, s') => h e s'
       end.

(** Run [m] on a component of a larger state, as a method call on an object
    held in a field. *)
Definition zoom {S T E A} (get : S → T) (set : T → S → S) (m : M T E A) : M S E A :=
  λ s, let '(r, t) := m (get s) in (r, set t s).

Arguments raise {S E A} e _ /.
Arguments gets {S E A} f _ /.
Arguments modify {S E} f _ /.
Arguments lift {S E A} r _ /.

(** ** Tactics *)

Create HintDb py discriminated.
Create Rewrite HintDb py_rw.

(** Split a hypothesis on its innermost [match] and simplify. *)
Ltac step_in H :=
  match type of H with
  | context [match ?x with _ => _ end] =>
      lazymatch x with
      | context [match _ with _ => _ end] => fail
      | _ => let E := fresh "E" in destruct x eqn:E
      end
  end; simplify_eq/=.

Ltac unfold_monad_in H :=
  cbv [mret mbind result_ret result_bind M_ret M_bind raise gets modify lift
       ensure try_except zoom] in H; simpl in H.

Ltac unfold_monad :=
  cbv [mret mbind result_ret result_bind M_ret M_bind raise gets modify lift
       ensure try_except zoom]; simpl.

(** Follow a monadic computation that is known to have returned. *)
Ltac run_in H := unfold_monad_in H; repeat (step_in H; try done).

(** Turn the boolean tests of the code into propositions. *)
Ltac bsimpl :=
  repeat match goal with
  | H : negb _ = false |- _ => apply negb_false_iff in H
  | H : negb _ = true |- _ => apply negb_true_iff in H
  | H : _ && _ = true |- _ => apply andb_true_iff in H as [? ?]
  | H : _ || _ = false |- _ => apply orb_false_iff in H as [? ?]
  | H : _ && _ = false |- _ => apply andb_false_iff in H
  | H : _ || _ = true |- _ => apply orb_true_iff in H
  | H : bool_decide _ = true |- _ => apply bool_decide_eq_true in H
  | H : bool_decide _ = false |- _ => apply bool_decide_eq_false in H
  | H : (_ =? _)%Z = true |- _ => apply Z.eqb_eq in H
  | H : (_ =? _)%Z = false |- _ => apply Z.eqb_neq in H
  | H : (_ <=? _)%Z = true |- _ => apply Z.leb_le in H
  | H : (_ <=? _)%Z = false |- _ => apply Z.leb_gt in H
  | H : (_ <? _)%Z = true |- _ => apply Z.ltb_lt in H
  | H : (_ <? _)%Z = false |- _ => apply Z.ltb_ge in H
  end.

(** ** Generic lemmas *)

Section result_lemmas.
Context {S E : Type}.

Lemma result_bind_ok {A B} (m : result E A) (f : A → result E B) b :
  m ≫= f = Ok b ↔ ∃ a, m = Ok a ∧ f a = Ok b.
Proof. destruct m; naive_solver. Qed.

Lemma M_bind_ok {A B} (m : M S E A) (f : A → M S E B) s b s' :
  (m ≫= f) s = (Ok b, s') ↔ ∃ a s1, m s = (Ok a, s1) ∧ f a s1 = (Ok b, s').
Proof.
  cbv [mbind M_bind]. destruct (m s) as [[a|e] s1]; naive_solver.
Qed.

Lemma M_bind_err {A B} (m : M S E A) (f : A → M S E B) s e s' :
  (m ≫= f) s = (Err e, s') ↔
  m s = (Err e, s') ∨ ∃ a s1, m s = (Ok a, s1) ∧ f a s1 = (Err e, s').
Proof.
  cbv [mbind M_bind]. destruct (m s) as [[a|e'] s1]; naive_solver.
Qed.

Lemma ensure_ok (b : bool) (e : E) x : ensure b e = Ok x ↔ b = true.
Proof. unfold ensure. destruct b, x; naive_solver. Qed.

End result_lemmas.

(** *** Stripping *)

Lemma lstrip_head s c s' : lstrip s = c :: s' → is_space c = false.
Proof.
  induction s as [|d s IH]; simpl; [done|].
  destruct (is_space d) eqn:Ed; [done|]. by intros [= -> ->].
Qed.

Lemma lstrip_idemp s : lstrip (lstrip s) = lstrip s.
Proof.
  destruct (lstrip s) as [|c s'] eqn:E; [done|].
  simpl. by rewrite (lstrip_head _ _ _ E).
Qed.

Lemma lstrip_snoc s c : is_space c = false → lstrip (s ++ [c]) = lstrip s ++ [c].
Proof.
  intros Hc. induction s as [|d s IH]; simpl; [by rewrite Hc|].
  by destruct (is_space d).
Qed.

(** Stripping the right end of a string that does not start with a space
    leaves it that way. *)
Lemma lstrip_rstrip s : lstrip s = s → lstrip (rstrip s) = rstrip s.
Proof.
  intros Hs. unfold rstrip. destruct s as [|c s]; [done|].
  assert (is_space c = false) as Hc by by apply (lstrip_head (c :: s) c s).
  rewrite reverse_cons, lstrip_snoc by done.
  rewrite reverse_app. simpl. by rewrite Hc.
Qed.

Lemma rstrip_idemp s : rstrip (rstrip s) = rstrip s.
Proof. unfold rstrip. by rewrite reverse_involutive, lstrip_idemp. Qed.

Lemma strip_idemp s : strip (strip s) = strip s.
Proof.
  unfold strip. rewrite lstrip_rstrip by apply lstrip_idemp. apply rstrip_idemp.
Qed.

Lemma lstrip_no_space s : Forall (λ c, is_space c = false) s → lstrip s = s.
Proof. intros [|c s' Hc _]; simpl; [done|]. by rewrite Hc. Qed.

Lemma strip_no_space s : Forall (λ c, is_space c = false) s → strip s = s.
Proof.
  intros Hs. unfold strip, rstrip. rewrite (lstrip_no_space s) by done.
  rewrite lstrip_no_space; [apply reverse_involutive|]. by apply Forall_reverse.
Qed.

Lemma startswith_spec s p : startswith s p = true ↔ ∃ t, s = p ++ t.
Proof. unfold startswith. rewrite bool_decide_eq_true. reflexivity. Qed.

#[export] Hint Rewrite strip_idemp lstrip_idemp rstrip_idemp : py_rw.
#[export] Hint Resolve strip_idemp lstrip_no_space strip_no_space : py.

(** ** Insertion-ordered dictionaries

    A Python [dict] with typed values: an association list, assigned in place
    or at the end. *)

Section assoc.
Context {K V : Type} `{!EqDecision K}.
Implicit Types (d : list (K * V)) (k : K) (v : V).

Fixpoint assoc_get d k : option V :=
  match d with
  | [] => None
  | (k', v) :: d => if decide (k' = k) then Some v else assoc_get d k
  end.

Fixpoint assoc_set d k v : list (K * V) :=
  match d with
  | [] => [(k, v)]
  | (k', v') :: d => if decide (k' = k) then (k', v) :: d else (k', v') :: assoc_set d k v
  end.

Lemma assoc_get_None d k : assoc_get d k = None ↔ k ∉ d.*1.
Proof.
  induction d as [|[k' v] d IH]; cbn [assoc_get]; [set_solver|].
  rewrite fmap_cons, not_elem_of_cons. cbn. case_decide; [naive_solver|]. rewrite IH. naive_solver.
Qed.

Lemma assoc_set_new d k v : k ∉ d.*1 → assoc_set d k v = d ++ [(k, v)].
Proof.
  induction d as [|[k' v'] d IH]; cbn [assoc_set]; [done|].
  rewrite fmap_cons, not_elem_of_cons. cbn. intros [Hne Hd].
  rewrite decide_False by done. by rewrite IH.
Qed.

Lemma assoc_get_set_eq d k v : assoc_get (assoc_set d k v) k = Some v.
Proof.
  induction d as [|[k' v'] d IH]; cbn [assoc_set assoc_get]; [by rewrite decide_True|].
  case_decide as Hk; cbn [assoc_get]; [by rewrite decide_True|by rewrite decide_False].
Qed.

Lemma assoc_get_app d d' k :
  assoc_get (d ++ d') k = match assoc_get d k with Some v => Some v | None => assoc_get d' k end.
Proof. induction d as [|[k' v] d IH]; cbn; [done|]. by case_decide. Qed.

Lemma assoc_get_lookup d i k v :
  NoDup d.*1 → d !! i = Some (k, v) → assoc_get d k = Some v.
Proof.
  revert i. induction d as [|[k' v'] d IH]; intros i; [done|].
  rewrite fmap_cons, NoDup_cons. cbn. intros [Hk Hd]. destruct i as [|i]; cbn.
  - intros [= -> ->]. by rewrite decide_True.
  - intros Hi. rewrite decide_False; [by eapply IH|]. intros ->. apply Hk.
    apply (list_elem_of_fmap_2 fst _ (k, v)), list_elem_of_lookup. eauto.
Qed.

Lemma assoc_get_Some_lookup d k v : assoc_get d k = Some v → ∃ i, d !! i = Some (k, v).
Proof.
  induction d as [|[k' v'] d IH]; cbn; [done|]. case_decide.
  - intros [= ->]. subst. by exists 0.
  - intros [i Hi]%IH. by exists (S i).
Qed.

Lemma assoc_get_elem d k v : assoc_get d k = Some v → k ∈ d.*1.
Proof.
  intros [i Hi]%assoc_get_Some_lookup.
  apply (list_elem_of_fmap_2 fst _ (k, v)), list_elem_of_lookup. eauto.
Qed.
End assoc.
