(* ===== verification/PyVal.v ===== *)
(** * Python values

    The dynamically typed values the runtime passes around: messages, tool
    payloads, journal records.  A [dict] keeps its insertion order, so it is
    an association list whose keys are unique; [dict_get], [dict_set] and
    [dict_del] are the subscript operations.  [VObj] stands for an instance of
    any other class and is named by its class. *)

From S2P Require Import Prelude.
From Corelib Require Export SpecFloat.

(** A dict key: a string, or an object of another hashable class. *)
Inductive pykey : Type :=
| KStr (s : pystr)
| KObj (cls : pystr) (id : N).

#[warnings="-register-all"]
Inductive pyval : Type :=
| VNone
| VBool (b : bool)
| VInt (z : Z)
| VFloat (f : spec_float)
| VStr (s : pystr)
| VList (l : list pyval)
| VDict (d : list (pykey * pyval))
| VObj (cls : pystr) (id : N).

Abbreviation pydict := (list (pykey * pyval)).

#[export] Instance spec_float_eq_dec : EqDecision spec_float.
Proof. solve_decision. Defined.

#[export] Instance pykey_eq_dec : EqDecision pykey.
Proof. solve_decision. Defined.

(** ** Induction and decidable equality *)

Section pyval_ind.
Variable P : pyval → Prop.
Hypothesis HNone : P VNone.
Hypothesis HBool : ∀ b, P (VBool b).
Hypothesis HInt : ∀ z, P (VInt z).
Hypothesis HFloat : ∀ f, P (VFloat f).
Hypothesis HStr : ∀ s, P (VStr s).
Hypothesis HList : ∀ l, Forall P l → P (VList l).
Hypothesis HDict : ∀ d, Forall (λ kv, P kv.2) d → P (VDict d).
Hypothesis HObj : ∀ c i, P (VObj c i).

Fixpoint pyval_nested_ind (v : pyval) : P v :=
  match v with
  | VNone => HNone
  | VBool b => HBool b
  | VInt z => HInt z
  | VFloat f => HFloat f
  | VStr s => HStr s
  | VList l =>
      HList l ((fix go l : Forall P l :=
        match l with
        | [] => Forall_nil_2 P
        | x :: l' => Forall_cons_2 P x l' (pyval_nested_ind x) (go l')
        end) l)
  | VDict d =>
      HDict d ((fix go d : Forall (λ kv, P kv.2) d :=
        match d with
        | [] => Forall_nil_2 _
        | kv :: d' => Forall_cons_2 _ kv d' (pyval_nested_ind kv.2) (go d')
        end) d)
  | VObj c i => HObj c i
  end.

End pyval_ind.

#[export] Instance pyval_eq_dec : EqDecision pyval.
Proof.
  refine (fix go (v w : pyval) {struct v} : {v = w} + {v ≠ w} :=
    let Hgo : EqDecision pyval := go in
    match v, w with
    | VNone, VNone => left eq_refl
    | VBool a, VBool b => cast_if (decide (a = b))
    | VInt a, VInt b => cast_if (decide (a = b))
    | VFloat a, VFloat b => cast_if (decide (a = b))
    | VStr a, VStr b => cast_if (decide (a = b))
    | VList a, VList b => cast_if (decide (a = b))
    | VDict a, VDict b => cast_if (decide (a = b))
    | VObj a i, VObj b j => cast_if_and (decide (a = b)) (decide (i = j))
    | _, _ => right _
    end); clear Hgo go; abstract congruence.
Defined.

(** ** Dictionaries *)

Fixpoint dict_get (d : pydict) (k : pykey) : option pyval :=
  match d with
  | [] => None
  | (k', v) :: d' => if decide (k' = k) then Some v else dict_get d' k
  end.

(** [d[k] = v]: an existing key keeps its position, a new one goes last. *)
Fixpoint dict_set (d : pydict) (k : pykey) (v : pyval) : pydict :=
  match d with
  | [] => [(k, v)]
  | (k', v') :: d' =>
      if decide (k' = k) then (k', v) :: d' else (k', v') :: dict_set d' k v
  end.

Definition dict_del (d : pydict) (k : pykey) : pydict :=
  filter (λ kv, kv.1 ≠ k) d.

Definition keys (d : pydict) : list pykey := d.*1.

(** [d.get("k")] and [d.get("k", default)] *)
Definition get (d : pydict) (k : string) : pyval :=
  default VNone (dict_get d (KStr (u k))).

(** ["k" in d] *)
Definition has_key (d : pydict) (k : string) : bool :=
  match dict_get d (KStr (u k)) with Some _ => true | None => false end.

(** ** Type tests and truth *)

Definition is_dict (v : pyval) : bool := match v with VDict _ => true | _ => false end.
Definition is_str (v : pyval) : bool := match v with VStr _ => true | _ => false end.
Definition is_list (v : pyval) : bool := match v with VList _ => true | _ => false end.
Definition is_none (v : pyval) : bool := match v with VNone => true | _ => false end.

(** [bool(v)]: an instance of another class is taken to be true, Python's
    default. *)
Definition truthy (v : pyval) : bool :=
  match v with
  | VNone => false
  | VBool b => b
  | VInt z => negb (z =? 0)%Z
  | VFloat (S754_zero _) => false
  | VFloat _ => true
  | VStr s => nonempty s
  | VList l => match l with [] => false | _ => true end
  | VDict d => match d with [] => false | _ => true end
  | VObj _ _ => true
  end.

(** The integer behind a value that passes [isinstance(v, int)] and not
    [isinstance(v, bool)]. *)
Definition exact_int (v : pyval) : option Z :=
  match v with VInt z => Some z | _ => None end.

Definition as_str (v : pyval) : option pystr :=
  match v with VStr s => Some s | _ => None end.

(** ** Floats

    Doubles are the IEEE 754 values of [SpecFloat] at 53 bits of precision. *)

Definition prec : Z := 53.
Definition emax : Z := 1024.

(** [float(z)]; the overflow that Python raises is the infinity here. *)
Definition float_of_Z (z : Z) : spec_float := binary_normalize prec emax z 0 false.

(** [int(f)] truncates towards zero; [None] for a NaN or an infinity. *)
Definition Z_of_float (f : spec_float) : option Z :=
  match f with
  | S754_zero _ => Some 0%Z
  | S754_finite s m e =>
      let mag := if (0 <=? e)%Z then (Zpos m * 2 ^ e)%Z else (Zpos m / 2 ^ (- e))%Z in
      Some (if s then (- mag)%Z else mag)
  | _ => None
  end.

(** ** Equality as [==] sees it

    Numbers are compared by value across [bool], [int] and [float], and
    dictionaries irrespective of order. *)

(** [f == z] *)
Definition float_eq_Z (f : spec_float) (z : Z) : bool :=
  match f with
  | S754_zero _ => (z =? 0)%Z
  | S754_finite s m e =>
      let v := if s then Zneg m else Zpos m in
      if (0 <=? e)%Z then (v * 2 ^ e =? z)%Z else (v =? z * 2 ^ (- e))%Z
  | _ => false
  end.

Definition num_eq (v w : pyval) : bool :=
  let int_of v := match v with
                  | VBool b => Some (if b then 1 else 0)%Z
                  | VInt z => Some z
                  | _ => None
                  end in
  match int_of v, int_of w with
  | Some x, Some y => (x =? y)%Z
  | Some x, None => match w with VFloat f => float_eq_Z f x | _ => false end
  | None, Some y => match v with VFloat f => float_eq_Z f y | _ => false end
  | None, None => match v, w with VFloat f, VFloat g => SFeqb f g | _, _ => false end
  end.

Fixpoint py_eq (v w : pyval) : bool :=
  match v, w with
  | VNone, VNone => true
  | VStr s, VStr t => bool_decide (s = t)
  | VList l, VList l' =>
      (fix go l l' := match l, l' with
                      | [], [] => true
                      | x :: l, y :: l' => py_eq x y && go l l'
                      | _, _ => false
                      end) l l'
  | VDict d, VDict d' =>
      (length d =? length d') &&
      (fix go d := match d with
                   | [] => true
                   | (k, x) :: d =>
                       match dict_get d' k with Some y => py_eq x y | None => false end && go d
                   end) d
  | VObj c i, VObj c' i' => bool_decide (c = c') && (i =? i')%N
  | _, _ => num_eq v w
  end.

(** ** Lemmas on dictionaries *)

Section dict_lemmas.
Implicit Types (d : pydict) (k : pykey) (v : pyval).

Lemma dict_get_set_eq d k v : dict_get (dict_set d k v) k = Some v.
Proof.
  induction d as [|[k' v'] d IH]; simpl; [by rewrite decide_True|].
  case_decide; simpl; case_decide; by subst.
Qed.

Lemma dict_get_set_ne d k k' v :
  k ≠ k' → dict_get (dict_set d k v) k' = dict_get d k'.
Proof.
  intros Hne. induction d as [|[j w] d IH]; simpl; [by rewrite decide_False|].
  destruct (decide (j = k)) as [->|]; simpl; [by rewrite !decide_False|].
  by case_decide.
Qed.

Lemma dict_get_None d k : dict_get d k = None ↔ k ∉ keys d.
Proof.
  induction d as [|[k' v'] d IH]; simpl; [set_solver|].
  case_decide; set_solver.
Qed.

Lemma dict_get_Some_elem d k v : dict_get d k = Some v → (k, v) ∈ d.
Proof.
  induction d as [|[k' v'] d IH]; simpl; [done|].
  case_decide; [|set_solver]. intros [= ->]. subst. set_solver.
Qed.

Lemma elem_dict_get d k v : NoDup (keys d) → (k, v) ∈ d → dict_get d k = Some v.
Proof.
  induction d as [|[k' v'] d IH]; simpl; [set_solver|].
  rewrite NoDup_cons. intros [Hni Hnd] [[= -> ->]|Hin]%elem_of_cons.
  - by rewrite decide_True.
  - rewrite decide_False; [by apply IH|]. intros ->. apply Hni.
    by apply (list_elem_of_fmap_2 fst) in Hin.
Qed.

Lemma keys_dict_set_old d k v : k ∈ keys d → keys (dict_set d k v) = keys d.
Proof.
  induction d as [|[k' v'] d IH]; simpl; [set_solver|].
  intros Hk. case_decide; simpl; [done|]. f_equal. apply IH. set_solver.
Qed.

Lemma dict_set_new d k v : k ∉ keys d → dict_set d k v = d ++ [(k, v)].
Proof.
  induction d as [|[k' v'] d IH]; simpl; [done|].
  intros Hk. rewrite decide_False by set_solver. rewrite IH; set_solver.
Qed.

Lemma keys_dict_set_NoDup d k v : NoDup (keys d) → NoDup (keys (dict_set d k v)).
Proof.
  intros Hd. destruct (decide (k ∈ keys d)).
  - by rewrite keys_dict_set_old.
  - rewrite dict_set_new by done. unfold keys. rewrite fmap_app. apply NoDup_app.
    split_and!; [done| |apply NoDup_singleton]. set_solver.
Qed.

Lemma keys_dict_del d k : keys (dict_del d k) = filter (λ k', k' ≠ k) (keys d).
Proof.
  induction d as [|[k' v] d IH]; [done|].
  unfold dict_del, keys in *. rewrite fmap_cons, !filter_cons. simpl.
  case_decide; [by rewrite fmap_cons, IH|done].
Qed.

Lemma dict_get_del_eq d k : dict_get (dict_del d k) k = None.
Proof.
  apply dict_get_None. rewrite keys_dict_del, list_elem_of_filter. naive_solver.
Qed.

Lemma dict_get_del_ne d k k' : k ≠ k' → dict_get (dict_del d k) k' = dict_get d k'.
Proof.
  intros Hne. unfold dict_del. induction d as [|[j w] d IH]; [done|].
  rewrite filter_cons. simpl. destruct (decide (j ≠ k)) as [Hj|Hj].
  - simpl. by case_decide.
  - rewrite (decide_False (P:=j = k')); [done|]. apply dec_stable in Hj. congruence.
Qed.

Lemma dict_set_same d k v : dict_get d k = Some v → dict_set d k v = d.
Proof.
  induction d as [|[k' v'] d IH]; simpl; [done|].
  case_decide; [by intros [= ->]|]. intros. f_equal. auto.
Qed.

End dict_lemmas.

#[export] Hint Rewrite dict_get_set_eq dict_get_del_eq : py_rw.
#[export] Hint Resolve keys_dict_set_NoDup : py.
