(* ===== verification/Json.v ===== *)
(** * Canonical JSON, UTF-8 and SHA-256

    The parts of Python's standard library that the content digests of the
    runtime are built from: [str.encode("utf-8")], [json.dumps] with
    [ensure_ascii=False, allow_nan=False, sort_keys=True,
    separators=(",", ":")], [float.__repr__] (which [json] uses) and
    [hashlib.sha256(...).hexdigest()].  All of them are executable. *)

From S2P Require Import Prelude PyVal.

(** ** UTF-8 *)

Definition is_surrogate (c : N) : bool := ((55296 <=? c) && (c <=? 57343))%N.

Definition utf8_char (c : N) : list N :=
  (if c <? 128 then [c]
   else if c <? 2048 then [192 + c / 64; 128 + c mod 64]
   else if c <? 65536 then [224 + c / 4096; 128 + c / 64 mod 64; 128 + c mod 64]
   else [240 + c / 262144; 128 + c / 4096 mod 64; 128 + c / 64 mod 64; 128 + c mod 64])%N.

(** A string that [encode("utf-8")] accepts. *)
Definition encodable (s : pystr) : bool := forallb (λ c, negb (is_surrogate c)) s.

(** [s.encode("utf-8")]; [None] when it raises [UnicodeEncodeError]. *)
Definition utf8 (s : pystr) : option (list N) :=
  if encodable s then Some (s ≫= utf8_char) else None.

(** ** Numbers *)

Definition digit (n : N) : N := (48 + n)%N.

Fixpoint decimal_loop (fuel : nat) (n : N) (acc : pystr) : pystr :=
  match fuel with
  | 0 => acc
  | S fuel =>
      let acc := digit (n mod 10)%N :: acc in
      if (n <? 10)%N then acc else decimal_loop fuel (n / 10)%N acc
  end.

(** Decimal digits; a number has at most as many as it has bits. *)
Definition decimal (n : N) : pystr := decimal_loop (S (N.to_nat (N.size n))) n [].

(** [int.__repr__]; [None] beyond the 4300 digits Python is willing to print. *)
Definition int_repr (z : Z) : option pystr :=
  let s := decimal (Z.to_N (Z.abs z)) in
  if 4300 <? length s then None
  else Some (if (z <? 0)%Z then u "-" ++ s else s).

(** [10 ^ k] as a fraction *)
Definition pow10 (k : Z) : Z * Z := (if 0 <=? k then (10 ^ k, 1) else (1, 10 ^ (- k)))%Z.
Definition pow2 (k : Z) : Z * Z := (if 0 <=? k then (2 ^ k, 1) else (1, 2 ^ (- k)))%Z.

(** [x * 10^j <= y * 2^e] *)
Definition le_dec_bin (x j y e : Z) : bool :=
  let '(a, b) := pow10 j in
  let '(c, d) := pow2 e in (x * a * d <=? y * c * b)%Z.
Definition lt_dec_bin (x j y e : Z) : bool :=
  let '(a, b) := pow10 j in
  let '(c, d) := pow2 e in (x * a * d <? y * c * b)%Z.

(** The [k] with [10^(k-1) <= m * 2^e < 10^k], from an estimate that is at
    most two too small. *)
Definition decimal_point (m e : Z) : Z :=
  let est := ((Z.log2 m + e) * 30103 / 100000 - 1)%Z in
  let up k := if le_dec_bin 1 k m e then (k + 1)%Z else k in
  up (up (up (up est))).

(** Does [c * 10^j] round to the double [m * 2^e]?  Half-way cases go to the
    even mantissa; below a power of two the gap is half as wide. *)
Definition rounds_to (c j m e : Z) : bool :=
  let low := if (m =? 2 ^ 52)%Z && negb (e =? -1074)%Z then (4 * m - 1)%Z else (4 * m - 2)%Z in
  let high := (4 * m + 2)%Z in
  if Z.even m then negb (lt_dec_bin c j low (e - 2)) && le_dec_bin c j high (e - 2)
  else negb (le_dec_bin c j low (e - 2)) && lt_dec_bin c j high (e - 2).

(** The candidate with [n] significant digits, the closest first. *)
Definition digits_candidate (m e k : Z) (n : nat) : option Z :=
  let j := (k - Z.of_nat n)%Z in
  let '(a, b) := pow10 j in
  let '(c, d) := pow2 e in
  let num := (m * c * b)%Z in
  let den := (d * a)%Z in
  let f := (num / den)%Z in
  let r := (num mod den)%Z in
  let near_up := ((den <? 2 * r) || ((2 * r =? den) && Z.odd f))%Z in
  let first := if near_up then (f + 1)%Z else f in
  let second := if near_up then f else (f + 1)%Z in
  if rounds_to first j m e then Some first
  else if rounds_to second j m e then Some second
  else None.

(** Shortest digits that read back as the double; 17 always do. *)
Fixpoint shortest (todo n : nat) (m e k : Z) : Z * nat :=
  match todo with
  | 0 => (0%Z, n)
  | S todo => match digits_candidate m e k n with
              | Some c => (c, n)
              | None => shortest todo (S n) m e k
              end
  end.

Fixpoint strip_zeros (s : pystr) : pystr :=
  match s with
  | [] => []
  | c :: s' => match strip_zeros s' with
               | [] => if (c =? 48)%N then [] else [c]
               | t => c :: t
               end
  end.

(** [ds] without trailing zeros, standing for [0.ds * 10^k] *)
Definition format_repr (ds : pystr) (k : Z) : pystr :=
  let n := length ds in
  if (((-4) <? k) && (k <=? 16))%Z then
    if (k <=? 0)%Z then u "0." ++ replicate (Z.to_nat (- k)) 48%N ++ ds
    else if n <=? Z.to_nat k then ds ++ replicate (Z.to_nat k - n) 48%N ++ u ".0"
    else take (Z.to_nat k) ds ++ u "." ++ drop (Z.to_nat k) ds
  else
    let x := (k - 1)%Z in
    let xs := decimal (Z.to_N (Z.abs x)) in
    take 1 ds ++ (if n <=? 1 then [] else u "." ++ drop 1 ds) ++ u "e"
      ++ (if (x <? 0)%Z then u "-" else u "+")
      ++ (if length xs <? 2 then u "0" ++ xs else xs).

(** [float.__repr__] of a finite double *)
Definition float_repr (f : spec_float) : pystr :=
  match f with
  | S754_zero s => if s then u "-0.0" else u "0.0"
  | S754_infinity s => if s then u "-inf" else u "inf"
  | S754_nan => u "nan"
  | S754_finite s m e =>
      let k := decimal_point (Zpos m) e in
      let '(c, n) := shortest 17 1 (Zpos m) e k in
      let ds := decimal (Z.to_N c) in
      (if s then u "-" else []) ++
        format_repr (strip_zeros ds) (k + Z.of_nat (length ds) - Z.of_nat n)%Z
  end.

Definition is_finite (f : spec_float) : bool :=
  match f with S754_zero _ | S754_finite _ _ _ => true | _ => false end.

(** ** [json.dumps] *)

Definition hex_digit (n : N) : N := (if n <? 10 then 48 + n else 87 + n)%N.

Definition json_char (c : N) : pystr :=
  (if c =? 34 then [92; 34]
   else if c =? 92 then [92; 92]
   else if c =? 10 then [92; 110]
   else if c =? 13 then [92; 114]
   else if c =? 9 then [92; 116]
   else if c =? 12 then [92; 102]
   else if c =? 8 then [92; 98]
   else if c <? 32 then [92; 117; 48; 48; hex_digit (c / 16); hex_digit (c mod 16)]
   else [c])%N.

Definition json_str (s : pystr) : pystr := [34%N] ++ (s ≫= json_char) ++ [34%N].

(** Order of strings by code points *)
Fixpoint str_leb (s t : pystr) : bool :=
  match s, t with
  | [], _ => true
  | _ :: _, [] => false
  | c :: s', d :: t' => if (c =? d)%N then str_leb s' t' else (c <? d)%N
  end.

Definition key_le (p q : pystr * pystr) : Prop := str_leb p.1 q.1 = true.
#[export] Instance key_le_dec p q : Decision (key_le p q).
Proof. unfold key_le. apply _. Defined.

Fixpoint join (sep : pystr) (l : list pystr) : pystr :=
  match l with
  | [] => []
  | [x] => x
  | x :: l' => x ++ sep ++ join sep l'
  end.

Definition key_str (k : pykey) : pystr := match k with KStr s => s | KObj _ _ => [] end.

(** [json.dumps(v, ensure_ascii=False, allow_nan=False, sort_keys=True,
    separators=(",", ":"))] of a value whose dictionaries have string keys;
    [None] when it raises. *)
Fixpoint dumps (v : pyval) : option pystr :=
  match v with
  | VNone => Some (u "null")
  | VBool b => Some (if b then u "true" else u "false")
  | VInt z => int_repr z
  | VFloat f => if is_finite f then Some (float_repr f) else None
  | VStr s => Some (json_str s)
  | VList l =>
      items ← (fix go l :=
         match l with
         | [] => Some []
         | x :: l' => r ← dumps x; rs ← go l'; Some (r :: rs)
         end) l;
      Some (u "[" ++ join (u ",") items ++ u "]")
  | VDict d =>
      items ← (fix go d :=
         match d with
         | [] => Some []
         | (k, x) :: d' => r ← dumps x; rs ← go d'; Some ((key_str k, r) :: rs)
         end) d;
      Some (u "{" ++ join (u ",") ((λ p, json_str p.1 ++ u ":" ++ p.2) <$> merge_sort key_le items)
            ++ u "}")
  | VObj _ _ => None
  end.

(** [json.dumps(v, default=str, ensure_ascii=False)]: insertion order, spaces
    after the separators, non-finite floats by name.  [py_str] is [str] of an
    object of another class and [other_key] what becomes of a key that is not a
    string; [None] when the call raises. *)
Section dumps_default.
Variable py_str : pyval → pystr.
Variable other_key : pykey → option pystr.

Definition float_text (f : spec_float) : pystr :=
  match f with
  | S754_nan => u "NaN"
  | S754_infinity s => if s then u "-Infinity" else u "Infinity"
  | _ => float_repr f
  end.

Definition key_text (k : pykey) : option pystr :=
  match k with KStr s => Some s | _ => other_key k end.

Fixpoint dumps_default (v : pyval) : option pystr :=
  match v with
  | VNone => Some (u "null")
  | VBool b => Some (if b then u "true" else u "false")
  | VInt z => int_repr z
  | VFloat f => Some (float_text f)
  | VStr s => Some (json_str s)
  | VList l =>
      items ← (fix go l :=
         match l with
         | [] => Some []
         | x :: l' => r ← dumps_default x; rs ← go l'; Some (r :: rs)
         end) l;
      Some (u "[" ++ join (u ", ") items ++ u "]")
  | VDict d =>
      items ← (fix go d :=
         match d with
         | [] => Some []
         | (k, x) :: d' =>
             ks ← key_text k; r ← dumps_default x; rs ← go d';
             Some ((json_str ks ++ u ": " ++ r) :: rs)
         end) d;
      Some (u "{" ++ join (u ", ") items ++ u "}")
  | VObj _ _ => Some (json_str (py_str v))
  end.
End dumps_default.

(** ** SHA-256 *)

(** The low 32 bits. *)
Definition word (n : N) : N := N.land n 4294967295.
Definition rotr (n k : N) : N :=
  N.lor (N.shiftr n k) (word (N.shiftl n (32 - k))).

Definition sha_k : list N :=
  [1116352408; 1899447441; 3049323471; 3921009573; 961987163; 1508970993; 2453635748;
   2870763221; 3624381080; 310598401; 607225278; 1426881987; 1925078388; 2162078206;
   2614888103; 3248222580; 3835390401; 4022224774; 264347078; 604807628; 770255983;
   1249150122; 1555081692; 1996064986; 2554220882; 2821834349; 2952996808; 3210313671;
   3336571891; 3584528711; 113926993; 338241895; 666307205; 773529912; 1294757372;
   1396182291; 1695183700; 1986661051; 2177026350; 2456956037; 2730485921; 2820302411;
   3259730800; 3345764771; 3516065817; 3600352804; 4094571909; 275423344; 430227734;
   506948616; 659060556; 883997877; 958139571; 1322822218; 1537002063; 1747873779;
   1955562222; 2024104815; 2227730452; 2361852424; 2428436474; 2756734187; 3204031479;
   3329325298]%N.

Definition sha_h0 : list N :=
  [1779033703; 3144134277; 1013904242; 2773480762; 1359893119; 2600822924; 528734635;
   1541459225]%N.

(** Message padding: 0x80, zeros, and the bit length in eight bytes. *)
Definition sha_pad (bs : list N) : list N :=
  let n := length bs in
  let zeros := (64 - (n + 9) mod 64) mod 64 in
  let bits := (8 * N.of_nat n)%N in
  bs ++ [128%N] ++ replicate zeros 0%N ++
  ((λ i, (N.shiftr bits (8 * i)) mod 256)%N <$> [7; 6; 5; 4; 3; 2; 1; 0]%N).

Fixpoint be_words (bs : list N) : list N :=
  match bs with
  | a :: b :: c :: d :: bs' => (a * 16777216 + b * 65536 + c * 256 + d)%N :: be_words bs'
  | _ => []
  end.

(** The message schedule, latest word first. *)
Fixpoint sha_extend (todo : nat) (w : list N) : list N :=
  match todo with
  | 0 => w
  | S todo =>
      let at_ i := nth i w 0%N in
      let s0 := let x := at_ 14 in N.lxor (N.lxor (rotr x 7) (rotr x 18)) (N.shiftr x 3) in
      let s1 := let x := at_ 1 in N.lxor (N.lxor (rotr x 17) (rotr x 19)) (N.shiftr x 10) in
      sha_extend todo (word (at_ 15%nat + s0 + at_ 6%nat + s1)%N :: w)
  end.

Definition sha_round (st : list N) (kw : N) : list N :=
  match st with
  | [a; b; c; d; e; f; g; h] =>
      let s1 := N.lxor (N.lxor (rotr e 6) (rotr e 11)) (rotr e 25) in
      let ch := N.lxor (N.land e f) (N.land (4294967295 - e)%N g) in
      let t1 := (h + s1 + ch + kw)%N in
      let s0 := N.lxor (N.lxor (rotr a 2) (rotr a 13)) (rotr a 22) in
      let maj := N.lxor (N.lxor (N.land a b) (N.land a c)) (N.land b c) in
      [word (t1 + s0 + maj)%N; a; b; c; word (d + t1)%N; e; f; g]
  | _ => st
  end.

Definition sha_block (h : list N) (block : list N) : list N :=
  let w := reverse (sha_extend 48 (reverse (be_words block))) in
  let st := fold_left sha_round (zip_with N.add sha_k w) h in
  zip_with (λ x y, word (x + y)%N) h st.

Fixpoint sha_blocks (fuel : nat) (h bs : list N) : list N :=
  match fuel with
  | 0 => h
  | S fuel => match bs with
              | [] => h
              | _ => sha_blocks fuel (sha_block h (take 64 bs)) (drop 64 bs)
              end
  end.

Definition hex_word (n : N) : pystr :=
  (λ i, hex_digit (N.shiftr n (4 * i) mod 16)%N) <$> [7; 6; 5; 4; 3; 2; 1; 0]%N.

(** [hashlib.sha256(bs).hexdigest()]; one turn per block of 64 bytes. *)
Definition sha256_hex (bs : list N) : pystr :=
  let p := sha_pad bs in sha_blocks (S (length p)) sha_h0 p ≫= hex_word.

Example sha256_abc :
  sha256_hex (u "abc") = u "ba7816bf8f01cfea414140de5dae2223b00361a396177a9cb410ff61f20015ad".
Proof. vm_compute. reflexivity. Qed.

Example sha256_two_blocks :
  sha256_hex (u "abcdbcdecdefdefgefghfghighijhijkijkljklmklmnlmnomnopnopq")
  = u "248d6a61d20638b8e5c026930c3e6039a33ce45964ff2167f6ecedd419db06c1".
Proof. vm_compute. reflexivity. Qed.

Example float_reprs :
  float_repr <$> [S754_finite false 7205759403792794 (-56);
    S754_finite false 4768371582031250 (21);
    S754_finite false 5000000000000000 (1);
    S754_finite false 8483885939586761 (-36);
    S754_finite false 1 (-1074);
    S754_finite false 4503599627370496 (-96);
    S754_finite true 5629499534213120 (-51);
    S754_finite false 5902958103587057 (-69);
    S754_finite false 7378697629483821 (-66);
    S754_finite false 5960464477539062 (24)]
  = [u "0.1"; u "1e+22"; u "1e+16"; u "123456.789"; u "5e-324"; u "5.684341886080802e-14"; u "-2.5"; u "1e-05"; u "0.0001"; u "1e+23"].
Proof. vm_compute. reflexivity. Qed.

(** Keys are sorted, nested values and escapes included (quotes are written
    ['] on the right). *)
Example dumps_sorted :
  dumps (VDict [(KStr (u "b"), VList [VInt 1; VNone; VBool true; VInt (-3)]);
                (KStr (u "a"), VDict [(KStr (u "z"), VFloat (S754_finite false 4503599627370496 (-53)))]);
                (KStr (u "aa"), VStr [31%N; 233%N])])
  = Some ((λ c : N, if (c =? 39)%N then 34%N else c) <$>
          (u "{'a':{'z':0.5},'aa':'\u001f" ++ [233%N] ++ u "','b':[1,null,true,-3]}")).
Proof. vm_compute. reflexivity. Qed.
