(* ===== verification/Execution.v ===== *)
(** * Execution ownership (src/unchain/execution.py)

    The lease data, the error classes, the interface a lease store offers,
    the runtime that acquires guards, the guard state machine, the borrowed
    guard of a subagent and the guarded model I/O wrapper.

    Every method body that the source runs under the guard's lock is one
    atomic step here; the heartbeat thread contributes [heartbeat_tick], one
    turn of its loop, and a run of the guard is a sequence of such steps. *)

From S2P Require Import Prelude PyVal.
Local Open Scope Z_scope.

(** ** Errors *)

Inductive lease_error_kind : Type :=
| ExecutionLeaseError
| ExecutionLeaseConflictError
| ExecutionLeaseExpiredError
| ExecutionLeaseNotOwnedError
| StaleExecutionLeaseError
| ActiveExecutionLeaseError
| ExecutionCancelledError.

#[export] Instance lease_error_kind_eq_dec : EqDecision lease_error_kind.
Proof. solve_decision. Defined.

(** The parent class of an error class, [None] for [RuntimeError]. *)
Definition lease_error_base (k : lease_error_kind) : option lease_error_kind :=
  match k with
  | ExecutionLeaseError => None
  | StaleExecutionLeaseError | ActiveExecutionLeaseError =>
      Some ExecutionLeaseConflictError
  | _ => Some ExecutionLeaseError
  end.

Definition lease_error_code (k : lease_error_kind) : pystr :=
  match k with
  | ExecutionLeaseError => u "execution_lease_error"
  | ExecutionLeaseConflictError => u "execution_lease_conflict"
  | ExecutionLeaseExpiredError => u "execution_lease_expired"
  | ExecutionLeaseNotOwnedError => u "execution_lease_not_owned"
  | StaleExecutionLeaseError => u "stale_execution_lease"
  | ActiveExecutionLeaseError => u "active_execution_lease"
  | ExecutionCancelledError => u "execution_cancelled"
  end.

(** The exceptions the lease and session code raises.  [EOther cls b] is an
    exception of any other class, [b] telling whether it derives from
    [Exception] (so that [except Exception] catches it). *)
Inductive exn : Type :=
| EValueError (msg : pystr)
| ETypeError (msg : pystr)
| ELease (kind : lease_error_kind) (message : pystr)
    (execution_id owner_id : option pystr) (fencing_token : option Z)
| ERevisionConflict (session_id : pystr) (expected_revision : option Z)
    (actual_revision : Z)
| EStoreCorruption (session_id detail : pystr)
| EOther (cls : pystr) (is_exception : bool).

#[export] Instance exn_eq_dec : EqDecision exn.
Proof. solve_decision. Defined.

Definition derives_from_Exception (e : exn) : bool :=
  match e with EOther _ b => b | _ => true end.

(** ** Validation helpers *)

Definition _validate_identifier (value : pyval) (name : string) : result exn pystr :=
  match value with
  | VStr s => if nonempty (strip s) then Ok s
              else Err (EValueError (u name ++ u " must be a non-empty string"))
  | _ => Err (EValueError (u name ++ u " must be a non-empty string"))
  end.

Definition _validate_positive_int (value : pyval) (name : string) : result exn Z :=
  match value with
  | VInt z => if z <=? 0 then Err (EValueError (u name ++ u " must be a positive integer"))
              else Ok z
  | _ => Err (EValueError (u name ++ u " must be a positive integer"))
  end.

Definition _validate_expected_revision (value : option pyval) : result exn (option Z) :=
  match value with
  | None => Ok None
  | Some (VInt z) =>
      if z <? 0
      then Err (EValueError (u "expected_revision must be a non-negative integer"))
      else Ok (Some z)
  | Some _ => Err (EValueError (u "expected_revision must be a non-negative integer"))
  end.

#[global] Arguments _validate_identifier : simpl never.
#[global] Arguments _validate_positive_int : simpl never.

(** ** Fences, leases, cancellations, configuration *)

Record ExecutionFence : Type := mkFence {
  fence_execution_id : pystr;
  fence_owner_id : pystr;
  fence_token : Z;
}.

Record ExecutionLease : Type := mkLease {
  execution_id : pystr;
  owner_id : pystr;
  fencing_token : Z;
  acquired_at_ms : Z;
  expires_at_ms : Z;
}.

Record ExecutionCancellation : Type := mkCancellation {
  cancel_execution_id : pystr;
  cancel_owner_id : pystr;
  cancel_fencing_token : option Z;
  requested_at_ms : Z;
  reason : pystr;
}.

Record ExecutionLeaseConfig : Type := mkConfig {
  ttl_ms : Z;
  heartbeat_interval_ms : Z;
}.

#[export] Instance ExecutionFence_eq_dec : EqDecision ExecutionFence.
Proof. solve_decision. Defined.
#[export] Instance ExecutionLease_eq_dec : EqDecision ExecutionLease.
Proof. solve_decision. Defined.
#[export] Instance ExecutionCancellation_eq_dec : EqDecision ExecutionCancellation.
Proof. solve_decision. Defined.

(** The constructors run [__post_init__]. *)
Definition make_ExecutionFence (eid owner token : pyval) : result exn ExecutionFence :=
  eid ← _validate_identifier eid "execution_id";
  owner ← _validate_identifier owner "owner_id";
  token ← _validate_positive_int token "fencing_token";
  mret (mkFence eid owner token).

Definition make_ExecutionLease (eid owner token acquired expires : pyval)
    : result exn ExecutionLease :=
  eid ← _validate_identifier eid "execution_id";
  owner ← _validate_identifier owner "owner_id";
  token ← _validate_positive_int token "fencing_token";
  match exact_int acquired with
  | None => Err (EValueError (u "acquired_at_ms must be a non-negative integer"))
  | Some acq =>
      if acq <? 0
      then Err (EValueError (u "acquired_at_ms must be a non-negative integer"))
      else match exact_int expires with
           | None => Err (EValueError (u "expires_at_ms must be greater than acquired_at_ms"))
           | Some exp =>
               if exp <=? acq
               then Err (EValueError (u "expires_at_ms must be greater than acquired_at_ms"))
               else Ok (mkLease eid owner token acq exp)
           end
  end.

Definition make_ExecutionCancellation (eid owner : pyval) (token : option pyval)
    (requested reason : pyval) : result exn ExecutionCancellation :=
  eid ← _validate_identifier eid "execution_id";
  owner ← _validate_identifier owner "owner_id";
  token ← match token with
          | None => mret None
          | Some t => t ← _validate_positive_int t "fencing_token"; mret (Some t)
          end;
  match exact_int requested with
  | None => Err (EValueError (u "requested_at_ms must be a non-negative integer"))
  | Some req =>
      if req <? 0
      then Err (EValueError (u "requested_at_ms must be a non-negative integer"))
      else match as_str reason with
           | None => Err (EValueError (u "reason must be a string"))
           | Some rsn => Ok (mkCancellation eid owner token req rsn)
           end
  end.

Definition make_ExecutionLeaseConfig (ttl interval : pyval) : result exn ExecutionLeaseConfig :=
  ttl ← _validate_positive_int ttl "ttl_ms";
  match exact_int interval with
  | None => Err (EValueError (u "heartbeat_interval_ms must be a non-negative integer"))
  | Some hb =>
      if hb <? 0
      then Err (EValueError (u "heartbeat_interval_ms must be a non-negative integer"))
      else if (ttl <=? hb) && negb (hb =? 0)
      then Err (EValueError (u "heartbeat_interval_ms must be smaller than ttl_ms"))
      else Ok (mkConfig ttl hb)
  end.

Definition default_config : ExecutionLeaseConfig := mkConfig 60000 20000.

(** [ExecutionLease.fence] *)
Definition lease_fence (l : ExecutionLease) : result exn ExecutionFence :=
  make_ExecutionFence (VStr (execution_id l)) (VStr (owner_id l)) (VInt (fencing_token l)).

(** What the validated dataclasses guarantee. *)
Definition wf_lease (l : ExecutionLease) : Prop :=
  strip (execution_id l) ≠ [] ∧ strip (owner_id l) ≠ [] ∧
  0 < fencing_token l ∧ 0 ≤ acquired_at_ms l < expires_at_ms l.

(** ** The lease store interface

    [ExecutionLeaseStore] is a structural protocol: the object a store
    returns where a lease is expected may be anything, so the result is an
    [option], [None] being an object that is no [ExecutionLease]. *)

Class ExecutionLeaseStore (S : Type) : Type := {
  acquire_lease : pystr → pystr → Z → option Z → M S exn (option ExecutionLease);
  verify_lease : pystr → pystr → Z → M S exn (option ExecutionLease);
  renew_lease : pystr → pystr → Z → Z → M S exn (option ExecutionLease);
  release_lease : pystr → pystr → Z → M S exn unit;
}.

(** The optional cancellation capability of a store. *)
Record CancellationOps (S : Type) : Type := mkCancellationOps {
  request_execution_cancel_op :
    pystr → pystr → pystr → M S exn (option ExecutionCancellation);
  load_execution_cancellation_op :
    pystr → pystr → M S exn (option (option ExecutionCancellation));
}.
Arguments request_execution_cancel_op {S} _ _ _ _.
Arguments load_execution_cancellation_op {S} _ _ _.

Definition _LEASE_METHODS : list pystr :=
  [u "acquire_lease"; u "verify_lease"; u "renew_lease"; u "release_lease"].

Definition _CANCELLATION_METHODS : list pystr :=
  [u "request_execution_cancel"; u "load_execution_cancellation"].

(** [callable(getattr(store, m, None))] is the argument [has]. *)
Definition supports_execution_leases (has : pystr → bool) : bool :=
  forallb has _LEASE_METHODS.

Definition supports_execution_cancellation (has : pystr → bool) : bool :=
  forallb has _CANCELLATION_METHODS.

Definition _validate_store_lease (lease : option ExecutionLease) (eid owner : pystr)
    (token : option Z) : result exn ExecutionLease :=
  match lease with
  | None =>
      Err (ELease ExecutionLeaseError
             (u "execution lease store returned an invalid lease")
             (Some eid) (Some owner) token)
  | Some l =>
      if negb (bool_decide (execution_id l = eid)) || negb (bool_decide (owner_id l = owner))
      then Err (ELease ExecutionLeaseNotOwnedError
             (u "execution lease store returned ownership for a different execution")
             (Some eid) (Some owner) token)
      else match token with
           | Some t =>
               if fencing_token l =? t then Ok l
               else Err (ELease StaleExecutionLeaseError
                      (u "execution lease store changed the fencing token unexpectedly")
                      (Some eid) (Some owner) token)
           | None => Ok l
           end
  end.

(** ** The guard *)

Inductive guard_state : Type := Active | Waiting | Released.

#[export] Instance guard_state_eq_dec : EqDecision guard_state.
Proof. solve_decision. Defined.

Record ExecutionGuard : Type := mkGuard {
  guard_config : ExecutionLeaseConfig;
  guard_lease : ExecutionLease;
  guard_st : guard_state;
  heartbeat_error : option exn;
  heartbeat_stop : bool;
  heartbeat_thread : bool;
}.

Definition set_lease (l : ExecutionLease) (g : ExecutionGuard) : ExecutionGuard :=
  mkGuard (guard_config g) l (guard_st g) (heartbeat_error g)
    (heartbeat_stop g) (heartbeat_thread g).

Definition set_state (st : guard_state) (g : ExecutionGuard) : ExecutionGuard :=
  mkGuard (guard_config g) (guard_lease g) st (heartbeat_error g)
    (heartbeat_stop g) (heartbeat_thread g).

Definition set_heartbeat_error (e : option exn) (g : ExecutionGuard) : ExecutionGuard :=
  mkGuard (guard_config g) (guard_lease g) (guard_st g) e
    (heartbeat_stop g) (heartbeat_thread g).

Definition set_heartbeat_stop (b : bool) (g : ExecutionGuard) : ExecutionGuard :=
  mkGuard (guard_config g) (guard_lease g) (guard_st g) (heartbeat_error g)
    b (heartbeat_thread g).

Definition _start_heartbeat_locked (g : ExecutionGuard) : ExecutionGuard :=
  mkGuard (guard_config g) (guard_lease g) (guard_st g) (heartbeat_error g)
    (heartbeat_stop g) (negb (heartbeat_interval_ms (guard_config g) =? 0)).

(** [ExecutionGuard.__init__] *)
Definition new_guard (config : ExecutionLeaseConfig) (lease : ExecutionLease)
    : ExecutionGuard :=
  _start_heartbeat_locked (mkGuard config lease Active None false false).

Definition _not_active_error_locked (g : ExecutionGuard) : exn :=
  ELease ExecutionLeaseNotOwnedError
    (if decide (guard_st g = Waiting)
     then u "execution lease is released while waiting"
     else u "execution lease guard has been released")
    (Some (execution_id (guard_lease g))) (Some (owner_id (guard_lease g)))
    (Some (fencing_token (guard_lease g))).

Definition _ensure_active_locked (g : ExecutionGuard) : result exn unit :=
  if negb (bool_decide (guard_st g = Active)) then Err (_not_active_error_locked g)
  else match heartbeat_error g with
       | Some e => Err e
       | None => Ok tt
       end.

Section guard_ops.
Context {S : Type} `{ExecutionLeaseStore S}.

(** A guard together with the store it talks to. *)
Record world : Type := mkWorld {
  w_store : S;
  w_guard : ExecutionGuard;
}.

Definition on_store {A} (m : M S exn A) : M world exn A :=
  zoom w_store (λ s w, mkWorld s (w_guard w)) m.

Definition on_guard (f : ExecutionGuard → ExecutionGuard) : M world exn unit :=
  modify (λ w, mkWorld (w_store w) (f (w_guard w))).

(** [guard.fence] *)
Definition guard_fence : M world exn ExecutionFence :=
  g ← gets w_guard;
  _ ← lift (_ensure_active_locked g);
  lift (lease_fence (guard_lease g)).

Definition assert_active : M world exn ExecutionLease :=
  g ← gets w_guard;
  _ ← lift (_ensure_active_locked g);
  let current := guard_lease g in
  verified ← on_store (verify_lease (execution_id current) (owner_id current)
                         (fencing_token current));
  lease ← lift (_validate_store_lease verified (execution_id current)
                  (owner_id current) (Some (fencing_token current)));
  _ ← on_guard (set_lease lease);
  mret lease.

Definition _renew_locked : M world exn ExecutionLease :=
  g ← gets w_guard;
  let current := guard_lease g in
  renewed ← on_store (renew_lease (execution_id current) (owner_id current)
                        (fencing_token current) (ttl_ms (guard_config g)));
  renewed ← lift (_validate_store_lease renewed (execution_id current)
                    (owner_id current) (Some (fencing_token current)));
  _ ← lift (ensure (acquired_at_ms renewed =? acquired_at_ms current)
              (ELease ExecutionLeaseError
                 (u "execution lease store changed acquired_at_ms during renewal")
                 (Some (execution_id current)) (Some (owner_id current))
                 (Some (fencing_token current))));
  _ ← lift (ensure (negb (expires_at_ms renewed <? expires_at_ms current))
              (ELease ExecutionLeaseError
                 (u "execution lease store shortened the lease during renewal")
                 (Some (execution_id current)) (Some (owner_id current))
                 (Some (fencing_token current))));
  _ ← on_guard (set_lease renewed);
  mret renewed.

Definition renew : M world exn ExecutionLease :=
  g ← gets w_guard;
  _ ← lift (_ensure_active_locked g);
  _renew_locked.

(** [_request_heartbeat_stop]; the thread it returns is joined at the end,
    which changes no field. *)
Definition _request_heartbeat_stop : M world exn unit :=
  on_guard (set_heartbeat_stop true).

Definition release : M world exn unit :=
  _ ← _request_heartbeat_stop;
  g ← gets w_guard;
  match guard_st g with
  | Released => mret tt
  | Waiting => on_guard (λ g, set_heartbeat_error None (set_state Released g))
  | Active =>
      let current := guard_lease g in
      _ ← on_store (release_lease (execution_id current) (owner_id current)
                      (fencing_token current));
      on_guard (λ g, set_heartbeat_error None (set_state Released g))
  end.

Definition release_for_wait : M world exn unit :=
  _ ← _request_heartbeat_stop;
  g ← gets w_guard;
  match guard_st g with
  | Waiting => mret tt
  | Released => raise (_not_active_error_locked g)
  | Active =>
      let current := guard_lease g in
      _ ← on_store (release_lease (execution_id current) (owner_id current)
                      (fencing_token current));
      on_guard (λ g, set_heartbeat_error None (set_state Waiting g))
  end.

Definition reacquire (expected_revision : option pyval) : M world exn ExecutionLease :=
  expected_revision ← lift (_validate_expected_revision expected_revision);
  g ← gets w_guard;
  let previous := guard_lease g in
  _ ← lift (ensure (bool_decide (guard_st g = Waiting))
              (ELease ActiveExecutionLeaseError
                 (u "execution guard can only reacquire after release_for_wait")
                 (Some (execution_id previous)) (Some (owner_id previous))
                 (Some (fencing_token previous))));
  lease ← on_store (acquire_lease (execution_id previous) (owner_id previous)
                      (ttl_ms (guard_config g)) expected_revision);
  lease ← lift (_validate_store_lease lease (execution_id previous)
                  (owner_id previous) None);
  _ ← lift (ensure (negb (fencing_token lease <=? fencing_token previous))
              (ELease StaleExecutionLeaseError
                 (u "reacquiring an execution must advance its fencing token")
                 (Some (execution_id previous)) (Some (owner_id previous))
                 (Some (fencing_token lease))));
  _ ← on_guard (λ g, _start_heartbeat_locked
         (set_heartbeat_stop false (set_heartbeat_error None
            (set_state Active (set_lease lease g)))));
  mret lease.

(** One turn of [_heartbeat_loop] after its wait timed out. *)
Definition heartbeat_tick : M world exn unit :=
  g ← gets w_guard;
  if heartbeat_stop g || negb (bool_decide (guard_st g = Active)) then mret tt
  else try_except (_ ← _renew_locked; mret tt)
         (λ e, if derives_from_Exception e
               then on_guard (λ g, set_heartbeat_stop true (set_heartbeat_error (Some e) g))
               else raise e).

(** ** The runtime *)

(** [ExecutionRuntime.acquire]; [uuid4] is the text of the identifier that
    [uuid.uuid4()] would return. *)
Definition runtime_acquire (config : ExecutionLeaseConfig) (eid : pyval)
    (owner : option pyval) (uuid4 : pystr) (expected_revision : option pyval)
    : M S exn ExecutionGuard :=
  eid ← lift (_validate_identifier eid "execution_id");
  owner ← lift (_validate_identifier (default (VStr uuid4) owner) "owner_id");
  expected_revision ← lift (_validate_expected_revision expected_revision);
  lease ← acquire_lease eid owner (ttl_ms config) expected_revision;
  lease ← lift (_validate_store_lease lease eid owner None);
  mret (new_guard config lease).

(** [with runtime.scope(...) as guard: body] *)
Definition runtime_scope {A} (config : ExecutionLeaseConfig) (eid : pyval)
    (owner : option pyval) (uuid4 : pystr) (expected_revision : option pyval)
    (body : M world exn A) : M S exn A :=
  λ s,
  match runtime_acquire config eid owner uuid4 expected_revision s with
  | (Err e, s1) => (Err e, s1)
  | (Ok g, s1) =>
      match body (mkWorld s1 g) with
      | (Ok a, w) =>
          match release w with
          | (Ok _, w') => (Ok a, w_store w')
          | (Err e, w') => (Err e, w_store w')
          end
      | (Err body_error, w) =>
          match release w with
          | (Ok _, w') => (Err body_error, w_store w')
          | (Err release_error, w') =>
              (Err (if derives_from_Exception release_error
                    then body_error else release_error), w_store w')
          end
      end
  end.

Definition runtime_request_cancel (ops : option (CancellationOps S)) (eid owner reason : pyval)
    : M S exn ExecutionCancellation :=
  eid ← lift (_validate_identifier eid "execution_id");
  owner ← lift (_validate_identifier owner "owner_id");
  match as_str reason with
  | None => raise (EValueError (u "reason must be a string"))
  | Some reason =>
      match ops with
      | None => raise (ETypeError (u "execution lease store does not support cancellation"))
      | Some ops =>
          cancellation ← request_execution_cancel_op ops eid owner reason;
          match cancellation with
          | None => raise (ELease ExecutionLeaseError
                      (u "execution cancellation store returned an invalid tombstone")
                      (Some eid) (Some owner) None)
          | Some c =>
              if negb (bool_decide (cancel_execution_id c = eid))
                 || negb (bool_decide (cancel_owner_id c = owner))
              then raise (ELease ExecutionLeaseError
                     (u "execution cancellation store returned a different owner")
                     (Some eid) (Some owner) (cancel_fencing_token c))
              else mret c
          end
      end
  end.

Definition runtime_load_cancellation (ops : option (CancellationOps S)) (eid owner : pyval)
    : M S exn (option ExecutionCancellation) :=
  eid ← lift (_validate_identifier eid "execution_id");
  owner ← lift (_validate_identifier owner "owner_id");
  match ops with
  | None => raise (ETypeError (u "execution lease store does not support cancellation"))
  | Some ops =>
      cancellation ← load_execution_cancellation_op ops eid owner;
      match cancellation with
      | Some None => mret None
      | None => raise (ELease ExecutionLeaseError
                  (u "execution cancellation store returned an invalid tombstone")
                  (Some eid) (Some owner) None)
      | Some (Some c) =>
          if negb (bool_decide (cancel_execution_id c = eid))
             || negb (bool_decide (cancel_owner_id c = owner))
          then raise (ELease ExecutionLeaseError
                 (u "execution cancellation store returned a different owner")
                 (Some eid) (Some owner) (cancel_fencing_token c))
          else mret (Some c)
      end
  end.

(** [_GuardedModelIO.fetch_turn] over a delegate call of any effect. *)
Definition guarded_fetch_turn {R} (delegate_fetch_turn : M world exn R) : M world exn R :=
  _ ← renew;
  result ← delegate_fetch_turn;
  _ ← assert_active;
  mret result.

(** ** Borrowed guards *)

Record BorrowedGuard : Type := mkBorrowed {
  borrow_session_id : pystr;
  borrow_state : guard_state;
}.

(** A borrowed view next to its parent's world. *)
Record bworld : Type := mkBWorld {
  b_parent : world;
  b_view : BorrowedGuard;
}.

Definition on_parent {A} (m : M world exn A) : M bworld exn A :=
  zoom b_parent (λ w b, mkBWorld w (b_view b)) m.

Definition set_borrow_state (st : guard_state) : M bworld exn unit :=
  modify (λ b, mkBWorld (b_parent b) (mkBorrowed (borrow_session_id (b_view b)) st)).

Definition _project_lease (v : BorrowedGuard) (l : ExecutionLease) : result exn ExecutionLease :=
  make_ExecutionLease (VStr (borrow_session_id v)) (VStr (owner_id l))
    (VInt (fencing_token l)) (VInt (acquired_at_ms l)) (VInt (expires_at_ms l)).

Definition _ensure_active : M bworld exn unit :=
  v ← gets b_view;
  match borrow_state v with
  | Active => mret tt
  | st =>
      lease ← gets (λ b, guard_lease (w_guard (b_parent b)));
      raise (ELease ExecutionLeaseNotOwnedError
        (if decide (st = Waiting)
         then u "borrowed execution guard is released while waiting"
         else u "borrowed execution guard has been released")
        (Some (borrow_session_id v)) (Some (owner_id lease)) (Some (fencing_token lease)))
  end.

Definition borrowed_lease : M bworld exn ExecutionLease :=
  _ ← _ensure_active;
  v ← gets b_view;
  lease ← gets (λ b, guard_lease (w_guard (b_parent b)));
  lift (_project_lease v lease).

Definition borrowed_fence : M bworld exn ExecutionFence :=
  _ ← _ensure_active;
  on_parent guard_fence.

Definition borrowed_assert_active : M bworld exn ExecutionLease :=
  _ ← _ensure_active;
  v ← gets b_view;
  lease ← on_parent assert_active;
  lift (_project_lease v lease).

Definition borrowed_renew : M bworld exn ExecutionLease :=
  _ ← _ensure_active;
  v ← gets b_view;
  lease ← on_parent renew;
  lift (_project_lease v lease).

Definition borrowed_release : M bworld exn unit := set_borrow_state Released.

Definition borrowed_release_for_wait : M bworld exn unit :=
  _ ← _ensure_active;
  _ ← on_parent assert_active;
  set_borrow_state Waiting.

Definition borrowed_reacquire (expected_revision : option pyval)
    : M bworld exn ExecutionLease :=
  _ ← lift (_validate_expected_revision expected_revision);
  v ← gets b_view;
  if negb (bool_decide (borrow_state v = Waiting)) then
    lease ← gets (λ b, guard_lease (w_guard (b_parent b)));
    raise (ELease ActiveExecutionLeaseError
      (u "borrowed execution guard can only reacquire after release_for_wait")
      (Some (borrow_session_id v)) (Some (owner_id lease)) (Some (fencing_token lease)))
  else
    lease ← on_parent assert_active;
    _ ← set_borrow_state Active;
    lift (_project_lease v lease).

(** [_borrow_execution_guard]: the session must be the root execution or a
    [:] descendant of it. *)
Definition _borrow_execution_guard (session_id : pystr) : M world exn BorrowedGuard :=
  fence ← guard_fence;
  let root_execution_id := fence_execution_id fence in
  if negb (bool_decide (session_id = root_execution_id)
           || startswith session_id (root_execution_id ++ u ":"))
  then raise (EValueError
         (u "borrowed execution guard must target its root session or a descendant"))
  else
    sid ← lift (_validate_identifier (VStr session_id) "session_id");
    _ ← assert_active;
    mret (mkBorrowed sid Active).

End guard_ops.

Arguments world : clear implicits.
Arguments bworld : clear implicits.

(** ** Guard runs *)

Section guard_steps.
Context {S : Type} `{ExecutionLeaseStore S}.

Inductive guard_op : Type :=
| GFence
| GAssertActive
| GRenew
| GRelease
| GReleaseForWait
| GReacquire (expected_revision : option pyval)
| GHeartbeat.

(** The world one guard operation leaves behind, whether it returns or raises. *)
Definition apply_guard_op (o : guard_op) (w : world S) : world S :=
  match o with
  | GFence => (guard_fence w).2
  | GAssertActive => (assert_active w).2
  | GRenew => (renew w).2
  | GRelease => (release w).2
  | GReleaseForWait => (release_for_wait w).2
  | GReacquire e => (reacquire e w).2
  | GHeartbeat => (heartbeat_tick w).2
  end.

(** A step of a guard, or of anybody else on the shared store. *)
Inductive guard_step : world S → world S → Prop :=
| guard_moves w o : guard_step w (apply_guard_op o w)
| store_moves s s' g : guard_step (mkWorld s g) (mkWorld s' g).

(** What no operation of a guard may undo. *)
Definition guard_advances (g g' : ExecutionGuard) : Prop :=
  guard_config g' = guard_config g ∧
  execution_id (guard_lease g') = execution_id (guard_lease g) ∧
  owner_id (guard_lease g') = owner_id (guard_lease g) ∧
  fencing_token (guard_lease g) ≤ fencing_token (guard_lease g') ∧
  (guard_st g = Released → guard_st g' = Released ∧ guard_lease g' = guard_lease g).

#[export] Instance guard_advances_refl : Reflexive guard_advances.
Proof. intros g. unfold guard_advances. repeat split; done || lia. Qed.

#[export] Instance guard_advances_trans : Transitive guard_advances.
Proof.
  intros a b c (Hc & He & Ho & Ht & Hr) (Hc' & He' & Ho' & Ht' & Hr').
  split_and!; [congruence|congruence|congruence|lia|].
  intros Hrel. destruct (Hr Hrel) as [Hb Hl]. destruct (Hr' Hb). split; [done|congruence].
Qed.

Lemma validate_store_lease_ok o e w t l :
  _validate_store_lease o e w t = Ok l →
  o = Some l ∧ execution_id l = e ∧ owner_id l = w ∧ (∀ z, t = Some z → fencing_token l = z).
Proof.
  unfold _validate_store_lease. intros Hv. repeat case_match; simplify_eq; bsimpl; naive_solver.
Qed.

Lemma ensure_active_ok g :
  _ensure_active_locked g = Ok tt ↔ guard_st g = Active ∧ heartbeat_error g = None.
Proof.
  unfold _ensure_active_locked.
  destruct (bool_decide (guard_st g = Active)) eqn:Hb; bsimpl; simpl;
    destruct (heartbeat_error g); naive_solver.
Qed.

Lemma on_store_inv {A} (m : M S exn A) (w : world S) r w' :
  on_store m w = (r, w') → m (w_store w) = (r, w_store w') ∧ w_guard w' = w_guard w.
Proof.
  unfold on_store, zoom. destruct (m (w_store w)) as [x s]. by intros [= <- <-].
Qed.

(** An operation of the guard changes only the fields its code assigns. *)
Lemma assert_active_guard (w w' : world S) r :
  assert_active w = (r, w') →
  match r with
  | Ok l => guard_st (w_guard w) = Active ∧ heartbeat_error (w_guard w) = None ∧
            w_guard w' = set_lease l (w_guard w) ∧
            execution_id l = execution_id (guard_lease (w_guard w)) ∧
            owner_id l = owner_id (guard_lease (w_guard w)) ∧
            fencing_token l = fencing_token (guard_lease (w_guard w))
  | Err _ => w_guard w' = w_guard w
  end.
Proof.
  unfold assert_active. intros Ha. cbv [mbind M_bind gets lift] in Ha.
  destruct (_ensure_active_locked (w_guard w)) as [[]|] eqn:He; [|by simplify_eq].
  apply ensure_active_ok in He as [Hst Hhb].
  destruct (on_store _ w) as [[o|e] w1] eqn:Hs;
    apply on_store_inv in Hs as [_ Hg]; [|by simplify_eq].
  destruct (_validate_store_lease _ _ _ _) as [l|] eqn:Hv; [|by simplify_eq].
  apply validate_store_lease_ok in Hv as (_ & Hid & How & Htok).
  cbv [on_guard modify mret M_ret] in Ha. simplify_eq/=. rewrite Hg. naive_solver.
Qed.

Lemma renew_locked_guard (w w' : world S) r :
  _renew_locked w = (r, w') →
  match r with
  | Ok l => w_guard w' = set_lease l (w_guard w) ∧
            execution_id l = execution_id (guard_lease (w_guard w)) ∧
            owner_id l = owner_id (guard_lease (w_guard w)) ∧
            fencing_token l = fencing_token (guard_lease (w_guard w)) ∧
            acquired_at_ms l = acquired_at_ms (guard_lease (w_guard w)) ∧
            expires_at_ms (guard_lease (w_guard w)) ≤ expires_at_ms l
  | Err _ => w_guard w' = w_guard w
  end.
Proof.
  unfold _renew_locked. intros Ha. cbv [mbind M_bind gets lift] in Ha.
  destruct (on_store _ w) as [[o|e] w1] eqn:Hs;
    apply on_store_inv in Hs as [_ Hg]; [|by simplify_eq].
  destruct (_validate_store_lease _ _ _ _) as [l|] eqn:Hv; [|by simplify_eq].
  apply validate_store_lease_ok in Hv as (_ & Hid & How & Htok).
  cbv [ensure] in Ha.
  destruct (acquired_at_ms l =? _) eqn:Hacq; [|by simplify_eq].
  destruct (negb (expires_at_ms l <? _)) eqn:Hexp; [|by simplify_eq].
  cbv [on_guard modify mret M_ret] in Ha. bsimpl. simplify_eq/=. rewrite Hg. naive_solver.
Qed.

Lemma renew_guard (w w' : world S) r :
  renew w = (r, w') →
  match r with
  | Ok l => guard_st (w_guard w) = Active ∧ heartbeat_error (w_guard w) = None ∧
            _renew_locked w = (Ok l, w')
  | Err _ => w_guard w' = w_guard w
  end.
Proof.
  unfold renew. intros Ha. cbv [mbind M_bind gets lift] in Ha.
  destruct (_ensure_active_locked (w_guard w)) as [[]|] eqn:He; [|by simplify_eq].
  apply ensure_active_ok in He as [Hst Hhb].
  destruct r; [done|]. by apply renew_locked_guard in Ha.
Qed.

Lemma reacquire_guard e (w w' : world S) r :
  reacquire e w = (r, w') →
  match r with
  | Ok l => guard_st (w_guard w) = Waiting ∧ guard_st (w_guard w') = Active ∧
            guard_lease (w_guard w') = l ∧ guard_config (w_guard w') = guard_config (w_guard w) ∧
            execution_id l = execution_id (guard_lease (w_guard w)) ∧
            owner_id l = owner_id (guard_lease (w_guard w)) ∧
            fencing_token (guard_lease (w_guard w)) < fencing_token l ∧
            heartbeat_error (w_guard w') = None ∧ heartbeat_stop (w_guard w') = false
  | Err _ => w_guard w' = w_guard w
  end.
Proof.
  unfold reacquire. intros Ha. cbv [mbind M_bind gets lift ensure] in Ha.
  destruct (_validate_expected_revision e); [|by simplify_eq].
  destruct (bool_decide (guard_st (w_guard w) = Waiting)) eqn:Hw; [|by simplify_eq].
  destruct (on_store _ w) as [[o'|e'] w1] eqn:Hs;
    apply on_store_inv in Hs as [_ Hg]; [|by simplify_eq].
  destruct (_validate_store_lease _ _ _ _) as [l|] eqn:Hv; [|by simplify_eq].
  apply validate_store_lease_ok in Hv as (_ & Hid & How & _).
  destruct (negb (fencing_token l <=? _)) eqn:Ht; [|by simplify_eq].
  cbv [on_guard modify mret M_ret] in Ha. bsimpl. simplify_eq/=. rewrite Hg. naive_solver.
Qed.

Lemma release_guard (w w' : world S) r :
  release w = (r, w') →
  match r with
  | Ok _ => w_guard w' = match guard_st (w_guard w) with
                         | Released => set_heartbeat_stop true (w_guard w)
                         | _ => set_heartbeat_error None
                                  (set_state Released (set_heartbeat_stop true (w_guard w)))
                         end
  | Err _ => guard_st (w_guard w) = Active ∧ w_guard w' = set_heartbeat_stop true (w_guard w)
  end.
Proof.
  unfold release, _request_heartbeat_stop. intros Ha.
  cbv [mbind M_bind gets on_guard modify] in Ha. simpl in Ha.
  destruct (guard_st (w_guard w)) eqn:Hst.
  - destruct (on_store _ _) as [[[]|e] w1] eqn:Hs; apply on_store_inv in Hs as [_ Hg];
      by simplify_eq/=; rewrite ?Hg.
  - by simplify_eq/=.
  - by unfold_monad_in Ha; simplify_eq/=.
Qed.

Lemma release_for_wait_guard (w w' : world S) r :
  release_for_wait w = (r, w') →
  match r with
  | Ok _ => guard_st (w_guard w') = Waiting ∧ guard_lease (w_guard w') = guard_lease (w_guard w) ∧
            guard_config (w_guard w') = guard_config (w_guard w) ∧
            guard_st (w_guard w) ≠ Released
  | Err _ => w_guard w' = set_heartbeat_stop true (w_guard w)
  end.
Proof.
  unfold release_for_wait, _request_heartbeat_stop. intros Ha.
  cbv [mbind M_bind gets on_guard modify] in Ha. simpl in Ha.
  destruct (guard_st (w_guard w)) eqn:Hst.
  - destruct (on_store _ _) as [[[]|e] w1] eqn:Hs; apply on_store_inv in Hs as [_ Hg];
      by simplify_eq/=; rewrite ?Hg.
  - unfold_monad_in Ha. by simplify_eq/=.
  - unfold_monad_in Ha. by simplify_eq/=.
Qed.

Lemma heartbeat_guard (w w' : world S) r :
  heartbeat_tick w = (r, w') →
  w_guard w' = w_guard w ∨
  (guard_st (w_guard w) = Active ∧
   ((∃ l, _renew_locked w = (Ok l, w')) ∨
    ∃ e, w_guard w' = set_heartbeat_stop true (set_heartbeat_error (Some e) (w_guard w)))).
Proof.
  unfold heartbeat_tick. intros Ha. cbv [mbind M_bind gets] in Ha.
  destruct (heartbeat_stop (w_guard w) || _) eqn:Hb; [unfold_monad_in Ha; naive_solver|].
  bsimpl. destruct_and?. cbv [try_except] in Ha.
  destruct (_renew_locked w) as [[l|e] w1] eqn:Hr; unfold_monad_in Ha.
  - simplify_eq. right. split; [done|]. left. eauto.
  - apply renew_locked_guard in Hr. case_match; unfold on_guard in Ha; unfold_monad_in Ha; simplify_eq/=.
    + right. split; [done|]. right. exists e. simpl. congruence.
    + by left.
Qed.

Lemma guard_op_advances o (w : world S) :
  guard_advances (w_guard w) (w_guard (apply_guard_op o w)).
Proof.
  unfold guard_advances. destruct o; simpl.
  - unfold guard_fence. unfold_monad. destruct (_ensure_active_locked _); apply guard_advances_refl.
  - destruct (assert_active w) as [r w'] eqn:Ha. apply assert_active_guard in Ha. simpl.
    destruct r as [l|]; [|rewrite Ha; apply guard_advances_refl].
    destruct Ha as (Hst & _ & -> & ? & ? & ?). simpl. split_and!; try done; [lia|congruence].
  - destruct (renew w) as [r w'] eqn:Ha. apply renew_guard in Ha. simpl.
    destruct r as [l|]; [|rewrite Ha; apply guard_advances_refl].
    destruct Ha as (Hst & _ & Ha). apply renew_locked_guard in Ha as (-> & ? & ? & ? & _).
    simpl. split_and!; try done; [lia|congruence].
  - destruct (release w) as [r w'] eqn:Ha. apply release_guard in Ha. simpl.
    destruct r; [|destruct Ha as [_ ->]; simpl; split_and!; done || lia].
    rewrite Ha. destruct (guard_st (w_guard w)) eqn:Hst; simpl; split_and!; done || lia.
  - destruct (release_for_wait w) as [r w'] eqn:Ha. apply release_for_wait_guard in Ha. simpl.
    destruct r; [|rewrite Ha; simpl; split_and!; done || lia].
    destruct Ha as (? & -> & -> & ?). split_and!; done || lia.
  - destruct (reacquire _ w) as [r w'] eqn:Ha. apply reacquire_guard in Ha. simpl.
    destruct r; [|rewrite Ha; apply guard_advances_refl].
    destruct Ha as (Hw & _ & -> & -> & ? & ? & ? & _). split_and!; try done; [lia|congruence].
  - destruct (heartbeat_tick w) as [r w'] eqn:Ha. apply heartbeat_guard in Ha. simpl.
    destruct Ha as [->|[Hst [[l Ha]|[e ->]]]]; [apply guard_advances_refl| |simpl; split_and!; done || lia].
    apply renew_locked_guard in Ha as (-> & ? & ? & ? & _). simpl.
    split_and!; try done; [lia|congruence].
Qed.

End guard_steps.

(** ** What a store promises its guards *)

(** The contract of a lease store: an evolution order on its states that its
    own operations follow, and a notion of a dead token (one that was issued
    and can never pass an ownership check again). *)
Class LeaseStoreLaws (S : Type) `{ExecutionLeaseStore S} : Type := {
  ls_ok : S → Prop;
  ls_evolves : S → S → Prop;
  ls_dead : S → pystr → Z → Prop;
  ls_evolves_preorder :: PreOrder ls_evolves;
  ls_ok_evolves : ∀ s s', ls_ok s → ls_evolves s s' → ls_ok s';
  ls_verify_evolves : ∀ e o t s, ls_evolves s (verify_lease e o t s).2;
  ls_renew_evolves : ∀ e o t ttl s, ls_evolves s (renew_lease e o t ttl s).2;
  ls_release_evolves : ∀ e o t s, ls_evolves s (release_lease e o t s).2;
  ls_acquire_evolves : ∀ e o ttl r s, ls_evolves s (acquire_lease e o ttl r s).2;
  ls_release_kills : ∀ e o t s s',
    ls_ok s → release_lease e o t s = (Ok tt, s') → ls_dead s' e t;
  ls_dead_stable : ∀ e t s s', ls_ok s → ls_evolves s s' → ls_dead s e t → ls_dead s' e t;
  ls_dead_verify : ∀ e o t s, ls_dead s e t → is_ok (verify_lease e o t s).1 = false;
  ls_dead_renew : ∀ e o t ttl s, ls_dead s e t → is_ok (renew_lease e o t ttl s).1 = false;
  ls_exclusive : ∀ e o1 o2 t1 t2 s l1 l2 s1 s2,
    verify_lease e o1 t1 s = (Ok l1, s1) → verify_lease e o2 t2 s = (Ok l2, s2) →
    o1 = o2 ∧ t1 = t2;
}.

Section guard_theorems.
Context {S : Type} `{ExecutionLeaseStore S}.

(** Whatever the store does, whatever order a guard's operations and its
    heartbeat come in, and whatever other workers do to the store between
    them, a guard keeps the execution, the owner and the configuration it was
    created with, its fencing token never decreases, and once released it
    stays released with the lease it had. *)
Theorem guard_identity_is_stable (w w' : world S) :
  rtc guard_step w w' → guard_advances (w_guard w) (w_guard w').
Proof.
  induction 1 as [|w1 w2 w3 Hstep _ IH]; [reflexivity|].
  etrans; [|exact IH]. destruct Hstep as [w o|s s' g]; [apply guard_op_advances|reflexivity].
Qed.

(** Outside the active state a guard authorises nothing: fence,
    ownership check and renewal raise [ExecutionLeaseNotOwnedError], and
    neither the guard nor the store is touched. *)
Theorem inactive_guard_authorises_nothing (w : world S) :
  guard_st (w_guard w) ≠ Active →
  guard_fence w = (Err (_not_active_error_locked (w_guard w)), w) ∧
  assert_active w = (Err (_not_active_error_locked (w_guard w)), w) ∧
  renew w = (Err (_not_active_error_locked (w_guard w)), w).
Proof.
  intros Hst. unfold guard_fence, assert_active, renew, _ensure_active_locked. unfold_monad.
  by rewrite bool_decide_eq_false_2.
Qed.

(** A failed heartbeat poisons the guard: when the renewal of a
    heartbeat raises an [Exception], the fence, the ownership check and the
    renewal that follow raise that very error, without another store call,
    and the heartbeat does no more work. *)
Theorem heartbeat_failure_poisons_guard (w w1 : world S) (e : exn) :
  heartbeat_stop (w_guard w) = false → guard_st (w_guard w) = Active →
  _renew_locked w = (Err e, w1) → derives_from_Exception e = true →
  ∃ w2, heartbeat_tick w = (Ok tt, w2) ∧ w_store w2 = w_store w1 ∧
    guard_fence w2 = (Err e, w2) ∧ assert_active w2 = (Err e, w2) ∧
    renew w2 = (Err e, w2) ∧ heartbeat_tick w2 = (Ok tt, w2).
Proof.
  intros Hstop Hst Hr He. eexists. unfold heartbeat_tick at 1. cbv [mbind M_bind gets].
  rewrite Hstop, bool_decide_eq_true_2 by done. cbn [orb negb].
  unfold try_except. rewrite Hr, He. split_and!; [reflexivity|reflexivity|..];
    apply renew_locked_guard in Hr;
    unfold guard_fence, assert_active, renew, heartbeat_tick, _ensure_active_locked;
    cbv [mbind M_bind gets lift]; cbn; rewrite ?Hr, ?bool_decide_eq_true_2 by done; done.
Qed.

(** Renewal extends and never rewrites: when it returns, the guard holds
    a lease of the same execution, owner, token and acquisition time whose
    expiry is no earlier than before. *)
Theorem renew_never_shortens (w w' : world S) (l : ExecutionLease) :
  renew w = (Ok l, w') →
  guard_lease (w_guard w') = l ∧ guard_st (w_guard w') = Active ∧
  execution_id l = execution_id (guard_lease (w_guard w)) ∧
  owner_id l = owner_id (guard_lease (w_guard w)) ∧
  fencing_token l = fencing_token (guard_lease (w_guard w)) ∧
  acquired_at_ms l = acquired_at_ms (guard_lease (w_guard w)) ∧
  expires_at_ms (guard_lease (w_guard w)) ≤ expires_at_ms l.
Proof.
  intros Hr. apply renew_guard in Hr as (Hst & _ & Hr).
  apply renew_locked_guard in Hr as (-> & ?). by simpl.
Qed.

Section with_laws.
Context `{!LeaseStoreLaws S}.

Lemma dead_token_guard_ops (w : world S) :
  ls_dead (w_store w) (execution_id (guard_lease (w_guard w)))
    (fencing_token (guard_lease (w_guard w))) →
  is_ok (assert_active w).1 = false ∧ is_ok (renew w).1 = false.
Proof.
  intros Hd.
  pose proof (ls_dead_verify _ (owner_id (guard_lease (w_guard w))) _ _ Hd) as Hv.
  pose proof (ls_dead_renew _ (owner_id (guard_lease (w_guard w))) _
                (ttl_ms (guard_config (w_guard w))) _ Hd) as Hr.
  unfold assert_active, renew, _renew_locked, on_store.
  cbv [mbind M_bind gets lift zoom].
  destruct (_ensure_active_locked (w_guard w)); [|done].
  destruct (verify_lease _ _ _ _) as [[?|?] ?]; [done|].
  destruct (renew_lease _ _ _ _ _) as [[?|?] ?]; done.
Qed.

Lemma release_store (w w' : world S) :
  release w = (Ok tt, w') →
  w_store w' = w_store w ∧ guard_st (w_guard w) ≠ Active ∨
  guard_st (w_guard w) = Active ∧
  release_lease (execution_id (guard_lease (w_guard w))) (owner_id (guard_lease (w_guard w)))
    (fencing_token (guard_lease (w_guard w))) (w_store w) = (Ok tt, w_store w').
Proof.
  unfold release, _request_heartbeat_stop, on_guard, on_store. intros Ha.
  cbv [mbind M_bind gets modify zoom] in Ha. simpl in Ha.
  destruct (guard_st (w_guard w)); [|left; by simplify_eq/=|].
  - right. destruct (release_lease _ _ _ _) as [[[]|] s'] eqn:Hs; [|done].
    simplify_eq/=. done.
  - left. unfold_monad_in Ha. by simplify_eq/=.
Qed.

(** C31. No leaked lease: when a [scope] block returns, its guard was
    released; if the body left the guard active, the token it held is dead,
    so no copy of that guard, at any later state of the store, passes an
    ownership check or a renewal. *)
Theorem scope_releases_its_lease {A} (config : ExecutionLeaseConfig) (eid : pyval)
    (owner : option pyval) (uuid4 : pystr) (rev : option pyval) (body : M (world S) exn A)
    (s s' s'' : S) (a : A) :
  runtime_scope config eid owner uuid4 rev body s = (Ok a, s') →
  ls_evolves s' s'' →
  ∃ g s1 w, runtime_acquire config eid owner uuid4 rev s = (Ok g, s1) ∧
    body (mkWorld s1 g) = (Ok a, w) ∧
    (guard_st (w_guard w) = Active → ls_ok (w_store w) →
     is_ok (assert_active (mkWorld s'' (w_guard w))).1 = false ∧
     is_ok (renew (mkWorld s'' (w_guard w))).1 = false).
Proof.
  unfold runtime_scope. intros Hscope Hev.
  destruct (runtime_acquire _ _ _ _ _ s) as [[g|] s1] eqn:Hacq; [|done].
  destruct (body (mkWorld s1 g)) as [[a'|] w] eqn:Hbody.
  2: { destruct (release w) as [[]]; done. }
  destruct (release w) as [[[]|] w'] eqn:Hrel; [|done]. simplify_eq.
  exists g, s1, w. split_and!; [done|done|]. intros Hst Hok.
  apply release_store in Hrel as [[_ ?]|[_ Hrel]]; [done|].
  apply dead_token_guard_ops. simpl. eapply ls_dead_stable; [|done|].
  - eapply ls_ok_evolves; [done|]. pose proof (ls_release_evolves
      (execution_id (guard_lease (w_guard w))) (owner_id (guard_lease (w_guard w)))
      (fencing_token (guard_lease (w_guard w))) (w_store w)) as He. by rewrite Hrel in He.
  - by eapply ls_release_kills.
Qed.

(** Mutual exclusion of guards: if two guards of one execution both pass
    their ownership check on the same state of the store, they are guards of
    the same owner with the same fencing token. *)
Theorem guards_exclude_each_other (s : S) (g1 g2 : ExecutionGuard) (w1 w2 : world S)
    (l1 l2 : ExecutionLease) :
  execution_id (guard_lease g1) = execution_id (guard_lease g2) →
  assert_active (mkWorld s g1) = (Ok l1, w1) →
  assert_active (mkWorld s g2) = (Ok l2, w2) →
  owner_id (guard_lease g1) = owner_id (guard_lease g2) ∧
  fencing_token (guard_lease g1) = fencing_token (guard_lease g2).
Proof.
  intros Heq H1 H2. unfold assert_active, on_store in *.
  cbv [mbind M_bind gets lift zoom] in *. simpl in *.
  repeat (destruct (_ensure_active_locked _); [|done]).
  rewrite Heq in H1.
  destruct (verify_lease _ (owner_id (guard_lease g1)) _ s) as [[o1|] s1] eqn:V1; [|done].
  destruct (verify_lease _ (owner_id (guard_lease g2)) _ s) as [[o2|] s2] eqn:V2; [|done].
  by eapply ls_exclusive.
Qed.

End with_laws.
End guard_theorems.

(** ** Borrowed guards *)

Section borrowed_theorems.
Context {S : Type} `{ExecutionLeaseStore S}.

(** A borrowed guard never gives up the root execution: releasing it
    leaves the parent's world as it is, and waiting and coming back do no
    more to the parent than its own ownership check, so the parent's state
    and token survive; what it hands out names the child session with the
    parent's owner and token. *)
Theorem borrowed_guard_keeps_parent (b : bworld S) :
  b_parent (borrowed_release b).2 = b_parent b ∧
  (b_parent (borrowed_release_for_wait b).2 = b_parent b ∨
   b_parent (borrowed_release_for_wait b).2 = (assert_active (b_parent b)).2) ∧
  (∀ rev, b_parent (borrowed_reacquire rev b).2 = b_parent b ∨
          b_parent (borrowed_reacquire rev b).2 = (assert_active (b_parent b)).2) ∧
  (∀ l, (borrowed_assert_active b).1 = Ok l →
     execution_id l = borrow_session_id (b_view b) ∧
     owner_id l = owner_id (guard_lease (w_guard (b_parent b))) ∧
     fencing_token l = fencing_token (guard_lease (w_guard (b_parent b)))).
Proof.
  split_and!; [done|..].
  - unfold borrowed_release_for_wait, _ensure_active, on_parent, set_borrow_state.
    cbv [mbind M_bind gets modify zoom].
    destruct (borrow_state (b_view b)); unfold_monad; [|by left|by left].
    destruct (assert_active (b_parent b)) as [[]]; by right.
  - intros rev. unfold borrowed_reacquire, on_parent, set_borrow_state.
    cbv [mbind M_bind gets modify zoom lift].
    destruct (_validate_expected_revision rev); [|by left].
    destruct (negb _); unfold_monad; [by left|].
    destruct (assert_active (b_parent b)) as [[]]; simpl; by right.
  - intros l. unfold borrowed_assert_active, _ensure_active, on_parent.
    cbv [mbind M_bind gets zoom lift].
    destruct (borrow_state (b_view b)); unfold_monad; try done.
    destruct (assert_active (b_parent b)) as [[lp|e] w] eqn:Ha; [|done].
    apply assert_active_guard in Ha as (_ & _ & _ & _ & <- & <-). simpl.
    unfold _project_lease, make_ExecutionLease, _validate_identifier, _validate_positive_int.
    intros Hl. run_in Hl.
Qed.
End borrowed_theorems.
