(* ===== verification/SessionStore.v ===== *)
(** * The process-local session store (src/unchain/memory/manager.py,
      src/unchain/memory/revision.py)

    [InMemorySessionStore] keeps session snapshots with their revisions, the
    lease record of every execution and the cancellation tombstones.  Its
    clock is a callable the caller supplies: the [n]-th reading of it is
    [clock n], and the store state counts the readings taken, so that a
    method that reads the clock twice may see two different times. *)

From S2P Require Import Prelude PyVal Execution.
Local Open Scope Z_scope.

(** ** State *)

Record lease_record : Type := mkRecord {
  last_fencing_token : Z;
  last_owner_id : pystr;
  active : option ExecutionLease;
}.

Record store : Type := mkStore {
  sessions : gmap pystr pydict;
  revisions : gmap pystr Z;
  execution_leases : gmap pystr lease_record;
  execution_cancellations : gmap pystr (gmap pystr ExecutionCancellation);
  clock_readings : nat;
}.

Definition empty_store : store := mkStore ∅ ∅ ∅ ∅ 0.

Definition set_sessions (x : gmap pystr pydict) (s : store) : store :=
  mkStore x (revisions s) (execution_leases s) (execution_cancellations s) (clock_readings s).
Definition set_revisions (x : gmap pystr Z) (s : store) : store :=
  mkStore (sessions s) x (execution_leases s) (execution_cancellations s) (clock_readings s).
Definition set_leases (x : gmap pystr lease_record) (s : store) : store :=
  mkStore (sessions s) (revisions s) x (execution_cancellations s) (clock_readings s).
Definition set_cancellations (x : gmap pystr (gmap pystr ExecutionCancellation)) (s : store)
    : store :=
  mkStore (sessions s) (revisions s) (execution_leases s) x (clock_readings s).
Definition tick (s : store) : store :=
  mkStore (sessions s) (revisions s) (execution_leases s) (execution_cancellations s)
    (S (clock_readings s)).

(** [self._revisions.get(session_id, 0)] *)
Definition revision_of (s : store) (session_id : pystr) : Z :=
  default 0 (revisions s !! session_id).

(** [self._execution_cancellations.get(execution_id, {}).get(owner_id)] *)
Definition cancellation_of (s : store) (eid owner : pystr) : option ExecutionCancellation :=
  default ∅ (execution_cancellations s !! eid) !! owner.

(** [record.get("active")] of the execution's record, if it has one *)
Definition active_of (s : store) (eid : pystr) : option ExecutionLease :=
  execution_leases s !! eid ≫= active.

Definition last_token_of (s : store) (eid : pystr) : Z :=
  default 0 (last_fencing_token <$> execution_leases s !! eid).

(** [x or y] on a token *)
Definition token_or (x : option Z) (y : option Z) : option Z :=
  match x with
  | Some t => if t =? 0 then y else Some t
  | None => y
  end.

(** ** Validation *)

Definition _validate_lease_request (eid owner : pyval) (ttl token : option pyval)
    : result exn unit :=
  _ ← _validate_identifier eid "execution_id";
  _ ← _validate_identifier owner "owner_id";
  _ ← match ttl with
      | None => mret tt
      | Some t => _ ← _validate_positive_int t "ttl_ms"; mret tt
      end;
  match token with
  | None => mret tt
  | Some t => _ ← _validate_positive_int t "fencing_token"; mret tt
  end.

Definition _validate_execution_fence_target (session_id eid : pystr) : result exn unit :=
  ensure (bool_decide (session_id = eid) || startswith session_id (eid ++ u ":"))
    (EValueError (u "execution fence must target its own session_id or a descendant session")).

Section store_ops.
Variable clock : nat → pyval.

Definition _now_ms : M store exn Z :=
  λ s, match exact_int (clock (clock_readings s)) with
       | Some z => (Ok z, tick s)
       | None => (Err (ETypeError (u "clock_ms must return an integer epoch timestamp")), tick s)
       end.

(** [setdefault] of the lease record *)
Definition _lease_record_unlocked (eid : pystr) : M store exn lease_record :=
  λ s, match execution_leases s !! eid with
       | Some r => (Ok r, s)
       | None => let r := mkRecord 0 [] None in
                 (Ok r, set_leases (<[eid := r]> (execution_leases s)) s)
       end.

Definition put_record (eid : pystr) (r : lease_record) : M store exn unit :=
  modify (λ s, set_leases (<[eid := r]> (execution_leases s)) s).

Definition cancelled_error (c : ExecutionCancellation) (eid owner : pystr) (token : option Z)
    : exn :=
  ELease ExecutionCancelledError
    (if nonempty (reason c) then reason c else u "execution was cancelled")
    (Some eid) (Some owner) token.

Definition _assert_active_lease_unlocked (eid owner : pystr) (token : Z)
    : M store exn ExecutionLease :=
  cancellation ← gets (λ s, cancellation_of s eid owner);
  match cancellation with
  | Some c => raise (cancelled_error c eid owner (token_or (cancel_fencing_token c) (Some token)))
  | None =>
      last_token ← gets (λ s, last_token_of s eid);
      act ← gets (λ s, active_of s eid);
      match act with
      | None =>
          if token <=? last_token
          then raise (ELease StaleExecutionLeaseError
                 (u "execution lease has already been released or superseded")
                 (Some eid) (Some owner) (Some token))
          else raise (ELease ExecutionLeaseNotOwnedError
                 (u "execution lease is not owned")
                 (Some eid) (Some owner) (Some token))
      | Some l =>
          if negb (token =? fencing_token l)
          then raise (ELease (if token <? fencing_token l then StaleExecutionLeaseError
                              else ExecutionLeaseNotOwnedError)
                 (u "execution fencing token is not current")
                 (Some eid) (Some owner) (Some token))
          else if negb (bool_decide (owner = owner_id l))
          then raise (ELease ExecutionLeaseNotOwnedError
                 (u "execution lease belongs to a different owner")
                 (Some eid) (Some owner) (Some token))
          else
            now ← _now_ms;
            if expires_at_ms l <=? now
            then raise (ELease ExecutionLeaseExpiredError
                   (u "execution lease has expired")
                   (Some eid) (Some owner) (Some token))
            else mret l
      end
  end.

Definition _ensure_unfenced_write_allowed_unlocked (session_id : pystr) : M store exn unit :=
  act ← gets (λ s, active_of s session_id);
  match act with
  | None => mret tt
  | Some l =>
      now ← _now_ms;
      if now <? expires_at_ms l
      then raise (ELease ActiveExecutionLeaseError
             (u "unfenced session write is forbidden while an execution lease is active")
             (Some session_id) (Some (owner_id l)) (Some (fencing_token l)))
      else mret tt
  end.

(** ** Sessions *)

Record SessionSnapshot : Type := mkSnapshot {
  snap_state : pydict;
  snap_revision : option Z;
}.

Definition revision_supported (s : SessionSnapshot) : bool :=
  match snap_revision s with Some _ => true | None => false end.

Definition load (session_id : pystr) : M store exn pydict :=
  gets (λ s, default [] (sessions s !! session_id)).

Definition write_session (session_id : pystr) (state : pydict) (revision : Z)
    : M store exn unit :=
  modify (λ s, set_revisions (<[session_id := revision]> (revisions s))
                 (set_sessions (<[session_id := state]> (sessions s)) s)).

Definition save (session_id : pystr) (state : pydict) : M store exn unit :=
  _ ← _ensure_unfenced_write_allowed_unlocked session_id;
  revision ← gets (λ s, revision_of s session_id);
  write_session session_id state (revision + 1).

Definition load_with_revision (session_id : pystr) : M store exn SessionSnapshot :=
  gets (λ s, mkSnapshot (default [] (sessions s !! session_id))
               (Some (revision_of s session_id))).

(** The compare-and-swap tail the four conditional saves share. *)
Definition cas_session (session_id : pystr) (state : pydict) (expected_revision : option Z)
    : M store exn Z :=
  actual_revision ← gets (λ s, revision_of s session_id);
  if bool_decide (Some actual_revision = expected_revision) then
    _ ← write_session session_id state (actual_revision + 1);
    mret (actual_revision + 1)
  else raise (ERevisionConflict session_id expected_revision actual_revision).

Definition save_if_revision (session_id : pystr) (state : pydict) (expected_revision : pyval)
    : M store exn Z :=
  match exact_int expected_revision with
  | None => raise (EValueError (u "expected_revision must be a non-negative integer"))
  | Some r =>
      if r <? 0
      then raise (EValueError (u "expected_revision must be a non-negative integer"))
      else
        _ ← _ensure_unfenced_write_allowed_unlocked session_id;
        cas_session session_id state (Some r)
  end.

Definition save_if_revision_and_execution_not_cancelled (session_id : pystr) (state : pydict)
    (expected_revision : option pyval) (eid owner : pystr) : M store exn Z :=
  _ ← lift (_validate_execution_fence_target session_id eid);
  expected ← lift (_validate_expected_revision expected_revision);
  _ ← lift (_validate_lease_request (VStr eid) (VStr owner) None None);
  cancellation ← gets (λ s, cancellation_of s eid owner);
  match cancellation with
  | Some c => raise (cancelled_error c eid owner (cancel_fencing_token c))
  | None => cas_session session_id state expected
  end.

Definition save_if_revision_and_execution_cancelled (session_id : pystr) (state : pydict)
    (expected_revision : option pyval) (eid owner : pystr) : M store exn Z :=
  _ ← lift (_validate_execution_fence_target session_id eid);
  expected ← lift (_validate_expected_revision expected_revision);
  _ ← lift (_validate_lease_request (VStr eid) (VStr owner) None None);
  cancellation ← gets (λ s, cancellation_of s eid owner);
  match cancellation with
  | None => raise (ELease ExecutionLeaseError
              (u "execution cancellation is required for terminal cleanup")
              (Some eid) (Some owner) None)
  | Some _ => cas_session session_id state expected
  end.

Definition save_if_revision_and_fence (session_id : pystr) (state : pydict)
    (expected_revision : option pyval) (eid owner : pystr) (token : pyval) : M store exn Z :=
  _ ← lift (_validate_execution_fence_target session_id eid);
  expected ← lift (_validate_expected_revision expected_revision);
  _ ← lift (_validate_lease_request (VStr eid) (VStr owner) None (Some token));
  _ ← _assert_active_lease_unlocked eid owner (default 0 (exact_int token));
  cas_session session_id state expected.

(** ** Leases *)

(** The tail of [acquire_lease] that issues the next fencing token. *)
Definition grant_lease (eid owner : pystr) (ttl now : Z) (record : lease_record)
    : M store exn ExecutionLease :=
  let token := last_fencing_token record + 1 in
  lease ← lift (make_ExecutionLease (VStr eid) (VStr owner) (VInt token)
                  (VInt now) (VInt (now + ttl)));
  _ ← put_record eid (mkRecord token owner (Some lease));
  mret lease.

Definition mem_acquire_lease (eid owner : pystr) (ttl : Z) (expected_revision : option pyval)
    : M store exn ExecutionLease :=
  _ ← lift (_validate_lease_request (VStr eid) (VStr owner) (Some (VInt ttl)) None);
  expected ← lift (_validate_expected_revision expected_revision);
  cancellation ← gets (λ s, cancellation_of s eid owner);
  match cancellation with
  | Some c => raise (cancelled_error c eid owner (cancel_fencing_token c))
  | None =>
      actual_revision ← gets (λ s, revision_of s eid);
      _ ← match expected with
          | Some e => if actual_revision =? e then mret tt
                      else raise (ERevisionConflict eid expected actual_revision)
          | None => mret tt
          end;
      now ← _now_ms;
      record ← _lease_record_unlocked eid;
      match active record with
      | Some l =>
          if now <? expires_at_ms l then
            if bool_decide (owner_id l = owner) then mret l
            else raise (ELease ExecutionLeaseConflictError
                   (u "execution is already leased by another owner")
                   (Some eid) (Some owner) (Some (fencing_token l)))
          else grant_lease eid owner ttl now record
      | None => grant_lease eid owner ttl now record
      end
  end.

Definition mem_verify_lease (eid owner : pystr) (token : Z) : M store exn ExecutionLease :=
  _ ← lift (_validate_lease_request (VStr eid) (VStr owner) None (Some (VInt token)));
  _assert_active_lease_unlocked eid owner token.

Definition mem_renew_lease (eid owner : pystr) (token ttl : Z) : M store exn ExecutionLease :=
  _ ← lift (_validate_lease_request (VStr eid) (VStr owner) (Some (VInt ttl))
              (Some (VInt token)));
  act ← _assert_active_lease_unlocked eid owner token;
  now ← _now_ms;
  renewed ← lift (make_ExecutionLease (VStr (execution_id act)) (VStr (owner_id act))
                    (VInt (fencing_token act)) (VInt (acquired_at_ms act))
                    (VInt (Z.max (expires_at_ms act) (now + ttl))));
  record ← _lease_record_unlocked eid;
  _ ← put_record eid (mkRecord (last_fencing_token record) (last_owner_id record)
                        (Some renewed));
  mret renewed.

Definition mem_release_lease (eid owner : pystr) (token : Z) : M store exn unit :=
  _ ← lift (_validate_lease_request (VStr eid) (VStr owner) None (Some (VInt token)));
  record ← gets (λ s, execution_leases s !! eid);
  match record with
  | Some (mkRecord last_token last_owner None) =>
      if (last_token =? token) && bool_decide (last_owner = owner) then mret tt
      else _ ← _assert_active_lease_unlocked eid owner token; mret tt
  | None => _ ← _assert_active_lease_unlocked eid owner token; mret tt
  | Some (mkRecord last_token last_owner (Some _)) =>
      _ ← _assert_active_lease_unlocked eid owner token;
      put_record eid (mkRecord last_token last_owner None)
  end.

(** ** Cancellation *)

Definition mem_request_execution_cancel (eid owner reason : pystr)
    : M store exn ExecutionCancellation :=
  _ ← lift (_validate_lease_request (VStr eid) (VStr owner) None None);
  _ ← modify (λ s, set_cancellations
         (<[eid := default ∅ (execution_cancellations s !! eid)]> (execution_cancellations s)) s);
  existing ← gets (λ s, cancellation_of s eid owner);
  match existing with
  | Some c => mret c
  | None =>
      record ← _lease_record_unlocked eid;
      let owned := match active record with
                   | Some l => bool_decide (owner_id l = owner)
                   | None => false
                   end in
      token ← (if owned then
                 _ ← put_record eid (mkRecord (last_fencing_token record)
                                       (last_owner_id record) None);
                 mret (fencing_token <$> active record)
               else if bool_decide (last_owner_id record = owner) then
                 mret (token_or (Some (last_fencing_token record)) None)
               else mret None);
      now ← _now_ms;
      cancellation ← lift (make_ExecutionCancellation (VStr eid) (VStr owner)
                             (VInt <$> token) (VInt now) (VStr reason));
      _ ← modify (λ s, set_cancellations
             (<[eid := <[owner := cancellation]>
                  (default ∅ (execution_cancellations s !! eid))]>
                (execution_cancellations s)) s);
      mret cancellation
  end.

Definition mem_load_execution_cancellation (eid owner : pystr)
    : M store exn (option ExecutionCancellation) :=
  _ ← lift (_validate_lease_request (VStr eid) (VStr owner) None None);
  gets (λ s, cancellation_of s eid owner).

(** The store as an implementation of the lease-store interface. *)
#[export] Instance InMemorySessionStore : ExecutionLeaseStore store := {|
  acquire_lease eid owner ttl expected :=
    l ← mem_acquire_lease eid owner ttl (VInt <$> expected); mret (Some l);
  verify_lease eid owner token := l ← mem_verify_lease eid owner token; mret (Some l);
  renew_lease eid owner token ttl := l ← mem_renew_lease eid owner token ttl; mret (Some l);
  release_lease := mem_release_lease;
|}.

Definition InMemoryCancellation : CancellationOps store :=
  mkCancellationOps store
    (λ eid owner reason, c ← mem_request_execution_cancel eid owner reason; mret (Some c))
    (λ eid owner, c ← mem_load_execution_cancellation eid owner; mret (Some c)).

End store_ops.

(** ** Operations as steps *)

(** Every public operation of the store, with its arguments. *)
Inductive store_op : Type :=
| OpLoad (sid : pystr)
| OpLoadWithRevision (sid : pystr)
| OpSave (sid : pystr) (state : pydict)
| OpSaveIfRevision (sid : pystr) (state : pydict) (expected : pyval)
| OpSaveNotCancelled (sid : pystr) (state : pydict) (expected : option pyval)
    (eid owner : pystr)
| OpSaveCancelled (sid : pystr) (state : pydict) (expected : option pyval)
    (eid owner : pystr)
| OpSaveFenced (sid : pystr) (state : pydict) (expected : option pyval)
    (eid owner : pystr) (token : pyval)
| OpAcquire (eid owner : pystr) (ttl : Z) (expected : option pyval)
| OpVerify (eid owner : pystr) (token : Z)
| OpRenew (eid owner : pystr) (token ttl : Z)
| OpRelease (eid owner : pystr) (token : Z)
| OpCancel (eid owner reason : pystr)
| OpLoadCancellation (eid owner : pystr).

(** The state one operation leaves behind, whether it returns or raises. *)
Definition apply_op (clock : nat → pyval) (o : store_op) (s : store) : store :=
  match o with
  | OpLoad sid => (load sid s).2
  | OpLoadWithRevision sid => (load_with_revision sid s).2
  | OpSave sid st => (save clock sid st s).2
  | OpSaveIfRevision sid st e => (save_if_revision clock sid st e s).2
  | OpSaveNotCancelled sid st e eid o =>
      (save_if_revision_and_execution_not_cancelled sid st e eid o s).2
  | OpSaveCancelled sid st e eid o =>
      (save_if_revision_and_execution_cancelled sid st e eid o s).2
  | OpSaveFenced sid st e eid o t => (save_if_revision_and_fence clock sid st e eid o t s).2
  | OpAcquire eid o ttl e => (mem_acquire_lease clock eid o ttl e s).2
  | OpVerify eid o t => (mem_verify_lease clock eid o t s).2
  | OpRenew eid o t ttl => (mem_renew_lease clock eid o t ttl s).2
  | OpRelease eid o t => (mem_release_lease clock eid o t s).2
  | OpCancel eid o r => (mem_request_execution_cancel clock eid o r s).2
  | OpLoadCancellation eid o => (mem_load_execution_cancellation eid o s).2
  end.

Inductive store_step (clock : nat → pyval) : store → store → Prop :=
| do_op s o : store_step clock s (apply_op clock o s).

(** ** The invariant and the evolution order *)

Definition record_ok (eid : pystr) (r : lease_record) : Prop :=
  0 ≤ last_fencing_token r ∧
  ∀ l, active r = Some l →
    wf_lease l ∧ execution_id l = eid ∧ fencing_token l = last_fencing_token r ∧
    owner_id l = last_owner_id r.

Record store_ok (s : store) : Prop := {
  ok_records : ∀ eid r, execution_leases s !! eid = Some r → record_ok eid r;
  ok_cancelled : ∀ eid owner c, cancellation_of s eid owner = Some c →
    cancel_execution_id c = eid ∧ cancel_owner_id c = owner;
  ok_active_not_cancelled : ∀ eid l, active_of s eid = Some l →
    cancellation_of s eid (owner_id l) = None;
  ok_revisions : ∀ sid, 0 ≤ revision_of s sid;
}.

(** [l'] is [l] with its expiry possibly extended. *)
Definition extends (l l' : ExecutionLease) : Prop :=
  execution_id l' = execution_id l ∧ owner_id l' = owner_id l ∧
  fencing_token l' = fencing_token l ∧ acquired_at_ms l' = acquired_at_ms l ∧
  expires_at_ms l ≤ expires_at_ms l'.

Record advances (s s' : store) : Prop := {
  adv_token : ∀ eid, last_token_of s eid ≤ last_token_of s' eid;
  adv_active : ∀ eid l', active_of s' eid = Some l' →
    (∃ l, active_of s eid = Some l ∧ extends l l') ∨ last_token_of s eid < fencing_token l';
  adv_cancelled : ∀ eid owner c, cancellation_of s eid owner = Some c →
    cancellation_of s' eid owner = Some c;
  adv_revision : ∀ sid, revision_of s sid ≤ revision_of s' sid;
}.

#[export] Instance extends_refl : Reflexive extends.
Proof. intros l. unfold extends. repeat split; lia. Qed.
#[export] Instance extends_trans : Transitive extends.
Proof. intros a b c. unfold extends. intros. destruct_and!. split_and!; congruence || lia. Qed.

#[export] Instance advances_refl : Reflexive advances.
Proof.
  intros s. split; intros; [lia| |done|lia]. left. eexists. split; [done|reflexivity].
Qed.

Lemma advances_trans_ok s1 s2 s3 :
  advances s1 s2 → advances s2 s3 → advances s1 s3.
Proof.
  intros H12 H23. split.
  - intros eid. etrans; [apply H12|apply H23].
  - intros eid l3 H3. destruct (adv_active _ _ H23 eid l3 H3) as [(l2 & H2 & He)|Hlt].
    + destruct (adv_active _ _ H12 eid l2 H2) as [(l1 & H1 & He')|Hlt].
      * left. exists l1. split; [done|]. by etrans.
      * right. destruct He as (_ & _ & -> & _). done.
    + right. pose proof (adv_token _ _ H12 eid). lia.
  - intros eid owner c Hc. by apply (adv_cancelled _ _ H23), (adv_cancelled _ _ H12).
  - intros sid. etrans; [apply H12|apply H23].
Qed.
#[export] Instance advances_trans : Transitive advances.
Proof. intros s1 s2 s3. apply advances_trans_ok. Qed.

(** A state transformer that keeps the invariant and only moves forward. *)
Definition good_move (s s' : store) : Prop := store_ok s → store_ok s' ∧ advances s s'.

#[export] Instance good_move_refl : Reflexive good_move.
Proof. intros s Hs. by split. Qed.
#[export] Instance good_move_trans : Transitive good_move.
Proof.
  intros s1 s2 s3 H12 H23 H1. destruct (H12 H1) as [H2 A12].
  destruct (H23 H2) as [H3 A23]. split; [done|]. by etrans.
Qed.

(** ** Primitive moves *)

Lemma good_tick s : good_move s (tick s).
Proof.
  intros [H1 H2 H3 H4]. split; [by split|]. destruct (advances_refl s) as [A1 A2 A3 A4].
  by split.
Qed.

Lemma active_of_put s eid eid' r :
  active_of (set_leases (<[eid := r]> (execution_leases s)) s) eid' =
  if decide (eid = eid') then active r else active_of s eid'.
Proof.
  unfold active_of. simpl. rewrite lookup_insert. by case_decide.
Qed.

Lemma last_token_of_put s eid eid' r :
  last_token_of (set_leases (<[eid := r]> (execution_leases s)) s) eid' =
  if decide (eid = eid') then last_fencing_token r else last_token_of s eid'.
Proof.
  unfold last_token_of. simpl. rewrite lookup_insert. by case_decide.
Qed.

Lemma good_put s eid r :
  (store_ok s → record_ok eid r ∧ last_token_of s eid ≤ last_fencing_token r ∧
    (∀ l', active r = Some l' →
       cancellation_of s eid (owner_id l') = None ∧
       ((∃ l, active_of s eid = Some l ∧ extends l l') ∨
        last_token_of s eid < fencing_token l'))) →
  good_move s (set_leases (<[eid := r]> (execution_leases s)) s).
Proof.
  intros Hput Hs. destruct (Hput Hs) as (Hr & Hlast & Hact). split; [split|split].
  - intros eid' r'. simpl. rewrite lookup_insert. case_decide; subst.
    + by intros [= <-].
    + apply Hs.
  - apply Hs.
  - intros eid' l. rewrite active_of_put. case_decide; subst.
    + intros Hl. apply (Hact l Hl).
    + apply Hs.
  - apply Hs.
  - intros eid'. rewrite last_token_of_put. case_decide; subst; [done|lia].
  - intros eid' l'. rewrite active_of_put. case_decide; subst.
    + intros Hl. apply (Hact l' Hl).
    + intros Hl. left. exists l'. by split.
  - done.
  - intros sid. reflexivity.
Qed.

Lemma good_clear s eid lt lo a :
  execution_leases s !! eid = Some (mkRecord lt lo a) →
  good_move s (set_leases (<[eid := mkRecord lt lo None]> (execution_leases s)) s).
Proof.
  intros He. apply good_put. intros Hs. pose proof (ok_records _ Hs _ _ He) as [Hr _].
  split_and!; [by split| |done]. unfold last_token_of. by rewrite He.
Qed.

Lemma good_write s sid st r :
  revision_of s sid ≤ r →
  good_move s (set_revisions (<[sid := r]> (revisions s))
                 (set_sessions (<[sid := st]> (sessions s)) s)).
Proof.
  intros Hr [H1 H2 H3 H4].
  assert (∀ sid', revision_of s sid' ≤
    revision_of (set_revisions (<[sid := r]> (revisions s))
      (set_sessions (<[sid := st]> (sessions s)) s)) sid') as Hrev.
  { intros sid'. unfold revision_of in *. simpl. rewrite lookup_insert.
    case_decide; subst; [done|lia]. }
  split; split; simpl; try done.
  - intros sid'. etrans; [apply H4|apply Hrev].
  - intros eid l' Hl. left. by exists l'.
Qed.

Lemma cancellation_of_put s eid owner c eid' owner' :
  cancellation_of (set_cancellations
     (<[eid := <[owner := c]> (default ∅ (execution_cancellations s !! eid))]>
        (execution_cancellations s)) s) eid' owner' =
  if decide (eid = eid' ∧ owner = owner') then Some c else cancellation_of s eid' owner'.
Proof.
  unfold cancellation_of. simpl. rewrite lookup_insert.
  case_decide as He; simpl.
  - subst eid'. rewrite lookup_insert.
    case_decide as Ho; case_decide as Hb; naive_solver.
  - rewrite decide_False; [done|]. naive_solver.
Qed.

Lemma cancellation_of_touch s eid eid' owner' :
  cancellation_of (set_cancellations
     (<[eid := default ∅ (execution_cancellations s !! eid)]> (execution_cancellations s)) s)
     eid' owner' = cancellation_of s eid' owner'.
Proof.
  unfold cancellation_of. simpl. rewrite lookup_insert. by case_decide; subst.
Qed.

Lemma good_touch s eid :
  good_move s (set_cancellations
     (<[eid := default ∅ (execution_cancellations s !! eid)]> (execution_cancellations s)) s).
Proof.
  intros Hs. split; split; simpl; try apply Hs; try done.
  - intros eid' owner c. rewrite cancellation_of_touch. apply Hs.
  - intros eid' l Hl. rewrite cancellation_of_touch. by apply Hs.
  - intros eid' l Hl. left. by exists l.
  - intros eid' owner c. by rewrite cancellation_of_touch.
Qed.

Lemma good_cancel s eid owner c :
  cancel_execution_id c = eid → cancel_owner_id c = owner →
  cancellation_of s eid owner = None →
  (∀ l, active_of s eid = Some l → owner_id l ≠ owner) →
  good_move s (set_cancellations
     (<[eid := <[owner := c]> (default ∅ (execution_cancellations s !! eid))]>
        (execution_cancellations s)) s).
Proof.
  intros Hce Hco Hnone Hact Hs. split; split; simpl; try apply Hs; try done.
  - intros eid' owner' c'. rewrite cancellation_of_put. case_decide; [naive_solver|apply Hs].
  - intros eid' l Hl. rewrite cancellation_of_put. rewrite decide_False; [by apply Hs|].
    intros [-> Ho]. by apply (Hact l Hl).
  - intros eid' l Hl. left. by exists l.
  - intros eid' owner' c' Hc'. rewrite cancellation_of_put. case_decide; naive_solver.
Qed.

#[export] Hint Resolve good_tick good_clear good_touch : py.

(** ** Every operation is a good move *)

Definition good {A} (m : M store exn A) : Prop := ∀ s, good_move s (m s).2.

Section good.
Variable clock : nat → pyval.

Lemma good_bind {A B} (m : M store exn A) (f : A → M store exn B) :
  good m → (∀ a, good (f a)) → good (m ≫= f).
Proof.
  intros Hm Hf s. cbv [mbind M_bind]. specialize (Hm s).
  destruct (m s) as [[a|e] s1]; simpl in *; [|done].
  etrans; [done|]. apply Hf.
Qed.

Lemma good_const {A} (r : store → result exn A) : good (λ s, (r s, s)).
Proof. intros s. reflexivity. Qed.
Lemma good_ret {A} (a : A) : good (mret a).
Proof. apply (good_const (λ _, Ok a)). Qed.
Lemma good_raise {A} (e : exn) : good (A:=A) (raise e).
Proof. apply (good_const (λ _, Err e)). Qed.
Lemma good_lift {A} (r : result exn A) : good (lift r).
Proof. apply (good_const (λ _, r)). Qed.
Lemma good_gets {A} (f : store → A) : good (gets f).
Proof. apply (good_const (λ s, Ok (f s))). Qed.

Lemma good_now : good (_now_ms clock).
Proof. intros s. unfold _now_ms. case_match; apply good_tick. Qed.

Lemma record_ok_fresh eid : record_ok eid (mkRecord 0 [] None).
Proof. by split. Qed.

Lemma good_lease_record eid : good (_lease_record_unlocked eid).
Proof.
  intros s. unfold _lease_record_unlocked. case_match eqn:He; [reflexivity|].
  apply good_put. intros _. split_and!; [apply record_ok_fresh| |done].
  unfold last_token_of. by rewrite He.
Qed.

Ltac good_auto :=
  repeat first
    [ match goal with |- ∀ _, _ => intros ? end
    | simple apply good_bind | simple apply good_ret | simple apply good_raise
    | simple apply good_lift | simple apply good_gets | simple apply good_now
    | simple apply good_lease_record | case_match ].

Lemma good_assert_active eid owner token :
  good (_assert_active_lease_unlocked clock eid owner token).
Proof. unfold _assert_active_lease_unlocked. good_auto. Qed.

Lemma good_unfenced sid : good (_ensure_unfenced_write_allowed_unlocked clock sid).
Proof. unfold _ensure_unfenced_write_allowed_unlocked. good_auto. Qed.

Lemma good_cas sid st expected : good (cas_session sid st expected).
Proof.
  intros s. unfold cas_session. unfold_monad. case_match; [|reflexivity].
  apply good_write. lia.
Qed.

Lemma good_save sid st : good (save clock sid st).
Proof.
  unfold save. apply good_bind; [apply good_unfenced|]. intros [] s. unfold_monad.
  apply good_write. lia.
Qed.

Lemma good_verify eid owner token : good (mem_verify_lease clock eid owner token).
Proof. unfold mem_verify_lease. apply good_bind; [apply good_lift|]. intros _. apply good_assert_active. Qed.

(** What a successful ownership check has established; only the clock moved. *)
Lemma assert_active_inv eid owner token s l s' :
  _assert_active_lease_unlocked clock eid owner token s = (Ok l, s') →
  s' = tick s ∧ active_of s eid = Some l ∧ cancellation_of s eid owner = None ∧
  fencing_token l = token ∧ owner_id l = owner ∧
  ∃ now, exact_int (clock (clock_readings s)) = Some now ∧ now < expires_at_ms l.
Proof.
  unfold _assert_active_lease_unlocked, _now_ms. intros H. run_in H.
  bsimpl. subst. naive_solver.
Qed.

Lemma make_lease_inv e o t a x l :
  make_ExecutionLease (VStr e) (VStr o) (VInt t) (VInt a) (VInt x) = Ok l →
  l = mkLease e o t a x ∧ wf_lease l.
Proof.
  unfold make_ExecutionLease, _validate_identifier, _validate_positive_int. intros H.
  run_in H. split; [done|]. unfold wf_lease; simpl.
  destruct (strip e), (strip o); simplify_eq/=. split_and!; try done; lia.
Qed.

(** The state-dependent form of [good_bind]. *)
Lemma good_from_bind {A B} (m : M store exn A) (f : A → M store exn B) s :
  good_move s (m s).2 → (∀ a s1, m s = (Ok a, s1) → good_move s1 (f a s1).2) →
  good_move s ((m ≫= f) s).2.
Proof.
  intros Hm Hf. cbv [mbind M_bind]. destruct (m s) as [[a|e] s1] eqn:E; simpl in *; [|done].
  etrans; [done|]. by apply Hf.
Qed.

Lemma lease_record_inv eid s r s' :
  _lease_record_unlocked eid s = (Ok r, s') →
  execution_leases s' !! eid = Some r ∧
  (∀ e o, cancellation_of s' e o = cancellation_of s e o) ∧
  (∀ e, active_of s' e = active_of s e) ∧ (∀ e, last_token_of s' e = last_token_of s e) ∧
  active_of s eid = active r ∧ last_token_of s eid = last_fencing_token r.
Proof.
  unfold _lease_record_unlocked, active_of, last_token_of.
  destruct (execution_leases s !! eid) as [r'|] eqn:E; intros [= <- <-]; simpl.
  - by rewrite E.
  - rewrite lookup_insert_eq. split_and!; try done.
    + intros e. rewrite lookup_insert. case_decide; subst; [by rewrite E|done].
    + intros e. rewrite lookup_insert. case_decide; subst; [by rewrite E|done].
Qed.

Lemma lease_record_total eid s : ∃ r s', _lease_record_unlocked eid s = (Ok r, s').
Proof. unfold _lease_record_unlocked. destruct (_ !! _); eauto. Qed.

Lemma now_inv s z s' :
  _now_ms clock s = (Ok z, s') → s' = tick s ∧ exact_int (clock (clock_readings s)) = Some z.
Proof. unfold _now_ms. case_match; naive_solver. Qed.

Lemma good_grant eid owner ttl now r s :
  execution_leases s !! eid = Some r → cancellation_of s eid owner = None →
  good_move s (grant_lease eid owner ttl now r s).2.
Proof.
  intros Hr Hc. apply good_from_bind; [apply good_lift|]. intros l s1 [= Hl <-].
  apply make_lease_inv in Hl as [-> Hwf]. apply good_put. intros Hs.
  destruct (ok_records _ Hs _ _ Hr) as [Hnn _].
  unfold last_token_of. rewrite Hr. simpl. split_and!; [|lia|].
  - split; simpl; [lia|]. intros ? [= <-]. done.
  - intros ? [= <-]. simpl. split; [done|]. right. lia.
Qed.

Lemma good_acquire eid owner ttl expected :
  good (mem_acquire_lease clock eid owner ttl expected).
Proof.
  unfold mem_acquire_lease. apply good_bind; [apply good_lift|]. intros _.
  apply good_bind; [apply good_lift|]. intros exp s.
  apply good_from_bind; [apply good_gets|]. intros c s1 [= <- <-].
  destruct (cancellation_of s eid owner) eqn:Hc; [apply good_raise|].
  apply good_from_bind; [apply good_gets|]. intros rev s1 [= <- <-].
  apply good_from_bind; [repeat case_match; reflexivity|]. intros [] s1 Hs1.
  assert (s1 = s) as -> by (unfold_monad_in Hs1; repeat case_match; simplify_eq; done).
  apply good_from_bind; [apply good_now|]. intros now s1 [-> _]%now_inv.
  apply good_from_bind; [apply good_lease_record|]. intros r s2 Hr.
  apply lease_record_inv in Hr as (Hr & Hcs & _).
  assert (cancellation_of s2 eid owner = None) as Hc2 by by rewrite Hcs.
  repeat case_match; try reflexivity; by apply good_grant.
Qed.

Lemma good_renew eid owner token ttl : good (mem_renew_lease clock eid owner token ttl).
Proof.
  unfold mem_renew_lease. apply good_bind; [apply good_lift|]. intros _ s.
  apply good_from_bind; [apply good_assert_active|]. intros l s1 Hl.
  apply assert_active_inv in Hl as (-> & Hact & Hc & Htok & Ho & _).
  apply good_from_bind; [apply good_now|]. intros now s1 [-> _]%now_inv.
  apply good_from_bind; [apply good_lift|]. intros l' s1 [= Hl' <-].
  apply make_lease_inv in Hl' as [-> Hwf].
  apply good_from_bind; [apply good_lease_record|]. intros r s2 Hr.
  apply lease_record_inv in Hr as (Hr & Hcs & Has & Hls & Har & Hlr).
  apply good_put. intros Hs2. destruct (ok_records _ Hs2 _ _ Hr) as [Hnn Hl].
  assert (active r = Some l) as Hrl by (by rewrite <- Har).
  destruct (Hl _ Hrl) as (_ & He & Ht & How). rewrite Hls, Hlr. split_and!; [|simpl; lia|].
  - split; simpl; [done|]. intros ? [= <-]. simpl. done.
  - intros ? [= <-]. simpl. rewrite Hcs, Ho. split; [done|]. left. exists l.
    rewrite Has. split; [done|]. unfold extends; simpl. split_and!; try done; lia.
Qed.

Lemma good_release eid owner token : good (mem_release_lease clock eid owner token).
Proof.
  unfold mem_release_lease. apply good_bind; [apply good_lift|]. intros _ s.
  apply good_from_bind; [apply good_gets|]. intros r s1 [= <- <-].
  assert (good (_assert_active_lease_unlocked clock eid owner token ≫= λ _, mret tt)).
  { apply good_bind; [apply good_assert_active|]. intros _. apply good_ret. }
  destruct (execution_leases s !! eid) as [[lt lo [a|]]|] eqn:Hr; [|by case_match|done].
  apply good_from_bind; [apply good_assert_active|]. intros l s1 Hl.
  apply assert_active_inv in Hl as (-> & _). by eapply good_clear.
Qed.

Lemma make_cancellation_inv e o t q r c :
  make_ExecutionCancellation (VStr e) (VStr o) t (VInt q) (VStr r) = Ok c →
  cancel_execution_id c = e ∧ cancel_owner_id c = o ∧ reason c = r ∧ requested_at_ms c = q.
Proof.
  unfold make_ExecutionCancellation, _validate_identifier, _validate_positive_int.
  intros H. run_in H.
Qed.

Lemma good_request_cancel eid owner rsn :
  good (mem_request_execution_cancel clock eid owner rsn).
Proof.
  unfold mem_request_execution_cancel. apply good_bind; [apply good_lift|]. intros _.
  apply good_bind; [intros s; apply good_touch|]. intros _ s.
  apply good_from_bind; [apply good_gets|]. intros c s1 [= <- <-].
  destruct (cancellation_of s eid owner) eqn:Hc; [apply good_ret|].
  apply good_from_bind; [apply good_lease_record|]. intros r s1 Hr.
  apply lease_record_inv in Hr as (Hr & Hcs & Has & _ & Har & _).
  assert (cancellation_of s1 eid owner = None) as Hc1 by by rewrite Hcs.
  clear Hc Hcs. apply good_from_bind.
  { destruct r as [lt lo [a|]]; simpl; [|case_match; reflexivity].
    case_match; [by eapply good_clear|case_match; reflexivity]. }
  intros tok s2 Htok.
  assert (cancellation_of s2 eid owner = None ∧
    ∀ l, active_of s2 eid = Some l → owner_id l ≠ owner) as [Hc2 Hact2].
  { destruct r as [lt lo [a|]]; simpl in Htok; unfold_monad_in Htok.
    - case_match; bsimpl.
      + simplify_eq. split; [done|]. intros l. rewrite active_of_put, decide_True; done.
      + assert (s2 = s1) as -> by (case_match; naive_solver). split; [done|].
        intros l. rewrite Has, Har. naive_solver.
    - assert (s2 = s1) as -> by (case_match; naive_solver). split; [done|].
      intros l. rewrite Has, Har. naive_solver. }
  apply good_from_bind; [apply good_now|]. intros now s3 [-> _]%now_inv.
  apply good_from_bind; [apply good_lift|]. intros c s3 [= Hcc <-].
  apply make_cancellation_inv in Hcc as (<- & <- & _). by apply (good_cancel (tick s2)).
Qed.

Lemma good_save_if sid st e : good (save_if_revision clock sid st e).
Proof.
  unfold save_if_revision. do 2 (case_match; try apply good_raise).
  apply good_bind; [apply good_unfenced|]. intros _. apply good_cas.
Qed.

Lemma good_save_not_cancelled sid st e eid o :
  good (save_if_revision_and_execution_not_cancelled sid st e eid o).
Proof.
  unfold save_if_revision_and_execution_not_cancelled. good_auto; apply good_cas.
Qed.

Lemma good_save_cancelled sid st e eid o :
  good (save_if_revision_and_execution_cancelled sid st e eid o).
Proof.
  unfold save_if_revision_and_execution_cancelled. good_auto; apply good_cas.
Qed.

Lemma good_save_fenced sid st e eid o t : good (save_if_revision_and_fence clock sid st e eid o t).
Proof.
  unfold save_if_revision_and_fence. do 3 (apply good_bind; [apply good_lift|intros ?]).
  apply good_bind; [apply good_assert_active|]. intros _. apply good_cas.
Qed.

Lemma good_load_cancellation eid o : good (mem_load_execution_cancellation eid o).
Proof. unfold mem_load_execution_cancellation. good_auto. Qed.

Lemma good_apply_op o s : good_move s (apply_op clock o s).
Proof.
  destruct o; simpl; try reflexivity.
  - apply good_save.
  - apply good_save_if.
  - apply good_save_not_cancelled.
  - apply good_save_cancelled.
  - apply good_save_fenced.
  - apply good_acquire.
  - apply good_verify.
  - apply good_renew.
  - apply good_release.
  - apply good_request_cancel.
  - apply good_load_cancellation.
Qed.

Lemma good_steps s s' : rtc (store_step clock) s s' → good_move s s'.
Proof.
  induction 1 as [|s1 s2 s3 [s o] _ IH]; [reflexivity|].
  etrans; [apply good_apply_op|done].
Qed.

End good.

(** ** Theorems *)

Section store_theorems.
Variable clock : nat → pyval.

(** A fencing token that was issued and no longer belongs to the active lease. *)
Definition token_dead (s : store) (eid : pystr) (t : Z) : Prop :=
  t ≤ last_token_of s eid ∧ ∀ l, active_of s eid = Some l → fencing_token l ≠ t.

Lemma token_dead_advances s s' eid t :
  advances s s' → token_dead s eid t → token_dead s' eid t.
Proof.
  intros Hadv [Hle Hne]. split; [etrans; [done|apply Hadv]|].
  intros l' Hl' Ht. destruct (adv_active _ _ Hadv eid l' Hl') as [(l & Hl & He)|Hlt]; [|lia].
  destruct He as (_ & _ & He & _). apply (Hne l Hl). congruence.
Qed.

(** No session write and no ownership proof passes with a dead token. *)
Lemma token_dead_rejected s eid owner t :
  token_dead s eid t → is_ok (_assert_active_lease_unlocked clock eid owner t s).1 = false.
Proof.
  intros [Hle Hne]. destruct (_assert_active_lease_unlocked clock eid owner t s) as [[l|e] s'] eqn:E;
    [|done].
  apply assert_active_inv in E as (_ & Hl & _ & Ht & _). exfalso. by apply (Hne l Hl).
Qed.

Lemma bind_rejected {A B} (m : M store exn A) (f : A → M store exn B) s :
  is_ok (m s).1 = false → ((m ≫= f) s).2 = (m s).2 ∧ is_ok ((m ≫= f) s).1 = false.
Proof. cbv [mbind M_bind]. by destruct (m s) as [[a|e] s1]. Qed.

Lemma verify_dead s eid owner t :
  token_dead s eid t → is_ok (mem_verify_lease clock eid owner t s).1 = false.
Proof.
  intros Hd. unfold mem_verify_lease. cbv [mbind M_bind lift].
  destruct (_validate_lease_request _ _ _ _); [|done]. by apply token_dead_rejected.
Qed.

Lemma renew_dead s eid owner t ttl :
  token_dead s eid t → is_ok (mem_renew_lease clock eid owner t ttl s).1 = false.
Proof.
  intros Hd. unfold mem_renew_lease. cbv [mbind M_bind lift].
  destruct (_validate_lease_request _ _ _ _); [|done].
  apply (token_dead_rejected s eid owner t) in Hd.
  by destruct (_assert_active_lease_unlocked clock eid owner t s) as [[]].
Qed.

Lemma assert_active_frame eid owner t s :
  sessions (_assert_active_lease_unlocked clock eid owner t s).2 = sessions s ∧
  revisions (_assert_active_lease_unlocked clock eid owner t s).2 = revisions s.
Proof.
  unfold _assert_active_lease_unlocked, _now_ms. unfold_monad.
  repeat case_match; simplify_eq/=; done.
Qed.

Lemma lift_bind {A B} (r : result exn A) (f : A → M store exn B) s :
  (lift r ≫= f) s = match r with Ok a => f a s | Err e => (Err e, s) end.
Proof. by destruct r. Qed.

Lemma dead_token_cannot_save s eid owner t sid st e :
  token_dead s eid t →
  let '(r, s') := save_if_revision_and_fence clock sid st e eid owner (VInt t) s in
  is_ok r = false ∧ sessions s' = sessions s ∧ revisions s' = revisions s.
Proof.
  intros Hd. unfold save_if_revision_and_fence.
  rewrite lift_bind. destruct (_validate_execution_fence_target _ _) as [_|]; [|done].
  rewrite lift_bind. destruct (_validate_expected_revision _) as [a0|]; [|done].
  rewrite lift_bind. destruct (_validate_lease_request _ _ _ _) as [_|]; [|done]. simpl.
  pose proof (token_dead_rejected s eid owner t Hd) as Hrej.
  pose proof (assert_active_frame eid owner t s) as [Hs Hr].
  apply (bind_rejected _ (λ _, cas_session sid st a0)) in Hrej as [H2 H3].
  destruct ((_assert_active_lease_unlocked clock eid owner t ≫= _) s) as [r s']. simpl in *.
  by rewrite H2.
Qed.
End store_theorems.

Lemma store_ok_empty : store_ok empty_store.
Proof.
  split.
  - done.
  - intros eid owner c. unfold cancellation_of. simpl. rewrite lookup_empty. simpl.
    by rewrite lookup_empty.
  - intros eid l. unfold active_of. simpl. by rewrite lookup_empty.
  - intros sid. unfold revision_of. simpl. by rewrite lookup_empty.
Qed.

Lemma store_ok_apply clock o s : store_ok s → store_ok (apply_op clock o s).
Proof. intros Hs. by destruct (good_apply_op clock o s Hs). Qed.

#[export] Hint Resolve store_ok_empty store_ok_apply : py.

(** Every state the store can reach from the empty one, by any sequence
    of public operations with any arguments and any clock, is well formed:
    an active lease is a valid lease of its own execution, carries the last
    token issued and the last owner recorded, its owner has no cancellation
    tombstone, and no revision is negative. *)
Theorem reachable_store_ok (clock : nat → pyval) (s : store) :
  rtc (store_step clock) empty_store s → store_ok s.
Proof.
  intros H. apply good_steps in H. apply H, store_ok_empty.
Qed.

(** C1. Fencing safety.  Once a token is superseded, released or cancelled,
    no later sequence of operations revives it: verifying or renewing with it
    raises, and a fenced session write with it raises and leaves every
    session and every revision as it was. *)
Theorem superseded_token_is_fenced_off (clock : nat → pyval) (s s' : store)
    (eid owner : pystr) (t ttl : Z) (sid : pystr) (st : pydict) (e : option pyval) :
  store_ok s → token_dead s eid t → rtc (store_step clock) s s' →
  is_ok (mem_verify_lease clock eid owner t s').1 = false ∧
  is_ok (mem_renew_lease clock eid owner t ttl s').1 = false ∧
  let '(r, s'') := save_if_revision_and_fence clock sid st e eid owner (VInt t) s' in
  is_ok r = false ∧ sessions s'' = sessions s' ∧ revisions s'' = revisions s'.
Proof.
  intros Hs Hd Hsteps. destruct (good_steps _ _ _ Hsteps Hs) as [_ Hadv].
  assert (token_dead s' eid t) as Hd' by by eapply token_dead_advances.
  split_and!; [by apply verify_dead|by apply renew_dead|by apply dead_token_cannot_save].
Qed.

(** What a successful release, a successful cancellation and a granted lease
    make of the tokens before them. *)
Lemma validate_request_ok eid owner ttl t :
  _validate_lease_request (VStr eid) (VStr owner) ttl t = Ok tt →
  strip eid ≠ [] ∧ strip owner ≠ [] ∧ (∀ v, ttl = Some v → ∃ z, v = VInt z ∧ 0 < z) ∧
  (∀ v, t = Some v → ∃ z, v = VInt z ∧ 0 < z).
Proof.
  unfold _validate_lease_request, _validate_identifier, _validate_positive_int. intros H.
  run_in H; bsimpl; destruct (strip eid), (strip owner); naive_solver.
Qed.

Lemma validate_positive_ok z name : 0 < z → _validate_positive_int (VInt z) name = Ok z.
Proof. intros Hz. unfold _validate_positive_int. by rewrite (proj2 (Z.leb_gt _ _)). Qed.

Lemma validate_identifier_ok s name : strip s ≠ [] → _validate_identifier (VStr s) name = Ok s.
Proof. intros Hs. unfold _validate_identifier. by destruct (strip s). Qed.

Lemma validate_request_intro eid owner ttl t :
  strip eid ≠ [] → strip owner ≠ [] → (∀ z, ttl = Some z → 0 < z) → (∀ z, t = Some z → 0 < z) →
  _validate_lease_request (VStr eid) (VStr owner) (VInt <$> ttl) (VInt <$> t) = Ok tt.
Proof.
  intros He Ho Httl Ht. unfold _validate_lease_request.
  rewrite !validate_identifier_ok by done. cbn [mbind result_bind mret result_ret].
  destruct ttl as [z|], t as [z'|]; simpl; rewrite ?validate_positive_ok by auto; done.
Qed.

Lemma release_dead (clock : nat → pyval) (s s' : store) (eid owner : pystr) (t : Z) :
  store_ok s → mem_release_lease clock eid owner t s = (Ok tt, s') → token_dead s' eid t.
Proof.
  intros Hs H. unfold mem_release_lease in H. rewrite lift_bind in H.
  destruct (_validate_lease_request _ _ _ _) as [[]|] eqn:Hv; [|done].
  unfold mbind, M_bind in H. simpl in H.
  destruct (execution_leases s !! eid) as [[lt lo [a|]]|] eqn:Hr.
  - destruct (_assert_active_lease_unlocked clock eid owner t s) as [[l|] s1] eqn:Ha; [|done].
    apply assert_active_inv in Ha as (-> & Hl & _ & Ht & _). injection H as <-.
    destruct (ok_records _ Hs _ _ Hr) as [_ Hact].
    assert (a = l) as -> by (unfold active_of in Hl; rewrite Hr in Hl; naive_solver).
    destruct (Hact l eq_refl) as (_ & _ & Hlt & _). simpl in Hlt.
    split; [|intros l']; simpl.
    + unfold last_token_of. simpl. rewrite lookup_insert_eq. simpl. lia.
    + unfold active_of. simpl. by rewrite lookup_insert_eq.
  - case_match; bsimpl; destruct_and?.
    + injection H as <-. subst. split.
      * unfold last_token_of. rewrite Hr. simpl. lia.
      * intros l. unfold active_of. by rewrite Hr.
    + destruct (_assert_active_lease_unlocked clock eid owner t s) as [[l|] s1] eqn:Ha; [|done].
      apply assert_active_inv in Ha as (_ & Hl & _). unfold active_of in Hl.
      by rewrite Hr in Hl.
  - destruct (_assert_active_lease_unlocked clock eid owner t s) as [[l|] s1] eqn:Ha; [|done].
    apply assert_active_inv in Ha as (_ & Hl & _). unfold active_of in Hl.
    by rewrite Hr in Hl.
Qed.

(** A release that returns ends the lease: its token is dead in the
    state it leaves, whether the lease was still active or had been released
    or cancelled before. *)
Theorem release_kills_token (clock : nat → pyval) (s s' : store) (eid owner : pystr) (t : Z) :
  store_ok s → mem_release_lease clock eid owner t s = (Ok tt, s') → token_dead s' eid t.
Proof. apply release_dead. Qed.

Lemma verify_exclusive (clock : nat → pyval) (s s1 s2 : store)
    (eid o1 o2 : pystr) (t1 t2 : Z) (l1 l2 : ExecutionLease) :
  mem_verify_lease clock eid o1 t1 s = (Ok l1, s1) →
  mem_verify_lease clock eid o2 t2 s = (Ok l2, s2) →
  o1 = o2 ∧ t1 = t2 ∧ l1 = l2.
Proof.
  unfold mem_verify_lease. rewrite !lift_bind. intros H1 H2.
  repeat case_match; simplify_eq.
  apply assert_active_inv in H1 as (_ & Hl1 & _ & <- & <- & _).
  apply assert_active_inv in H2 as (_ & Hl2 & _ & <- & <- & _). naive_solver.
Qed.

(** At most one holder: in any single state of the store, two ownership
    checks that both succeed for one execution present the same owner and the
    same token, and see the same lease. *)
Theorem at_most_one_holder (clock : nat → pyval) (s s1 s2 : store)
    (eid o1 o2 : pystr) (t1 t2 : Z) (l1 l2 : ExecutionLease) :
  mem_verify_lease clock eid o1 t1 s = (Ok l1, s1) →
  mem_verify_lease clock eid o2 t2 s = (Ok l2, s2) →
  o1 = o2 ∧ t1 = t2 ∧ l1 = l2.
Proof. apply verify_exclusive. Qed.

Definition is_cancelled_error (e : exn) : bool :=
  match e with ELease ExecutionCancelledError _ _ _ _ => true | _ => false end.

Lemma cancelled_assert clock eid owner t s c :
  cancellation_of s eid owner = Some c →
  ∃ e, _assert_active_lease_unlocked clock eid owner t s = (Err e, s) ∧
       is_cancelled_error e = true.
Proof. intros Hc. unfold _assert_active_lease_unlocked. unfold_monad. rewrite Hc. eauto. Qed.

(** C3. Cancellation is permanent and exact: after a cancellation request for
    an owner returns, in every later state that owner's well-formed acquire,
    verify and renew requests raise [ExecutionCancelledError] and change
    nothing. *)
Theorem cancellation_is_permanent (clock : nat → pyval) (s s1 s' : store)
    (eid owner rsn : pystr) (c : ExecutionCancellation) (t ttl : Z) :
  store_ok s → mem_request_execution_cancel clock eid owner rsn s = (Ok c, s1) →
  rtc (store_step clock) s1 s' → 0 < t → 0 < ttl →
  ∃ e1 e2 e3,
    mem_acquire_lease clock eid owner ttl None s' = (Err e1, s') ∧
    mem_verify_lease clock eid owner t s' = (Err e2, s') ∧
    mem_renew_lease clock eid owner t ttl s' = (Err e3, s') ∧
    is_cancelled_error e1 = true ∧ is_cancelled_error e2 = true ∧
    is_cancelled_error e3 = true.
Proof.
  intros Hs Hreq Hsteps Ht Httl.
  assert (cancellation_of s1 eid owner = Some c ∧ strip eid ≠ [] ∧ strip owner ≠ [])
    as (Hc1 & He & Ho).
  { unfold mem_request_execution_cancel in Hreq. rewrite lift_bind in Hreq.
    destruct (_validate_lease_request _ _ _ _) as [[]|] eqn:Hv; [|done].
    apply validate_request_ok in Hv as (? & ? & _). split; [|done].
    apply M_bind_ok in Hreq as ([] & s2 & [= <-] & Hreq).
    apply M_bind_ok in Hreq as (ex & s3 & [= <- <-] & Hreq).
    case_match eqn:Hex; [unfold_monad_in Hreq; by simplify_eq|].
    apply M_bind_ok in Hreq as (r & s4 & _ & Hreq).
    apply M_bind_ok in Hreq as (tok & s5 & _ & Hreq).
    apply M_bind_ok in Hreq as (now & s6 & _ & Hreq).
    apply M_bind_ok in Hreq as (c' & s7 & [= _ <-] & Hreq).
    apply M_bind_ok in Hreq as ([] & s8 & [= <-] & [= <- <-]).
    rewrite cancellation_of_put. by rewrite decide_True. }
  assert (good_move s s1) as Hg1.
  { pose proof (good_request_cancel clock eid owner rsn s) as Hg. by rewrite Hreq in Hg. }
  destruct (Hg1 Hs) as [Hs1 _].
  destruct (good_steps _ _ _ Hsteps Hs1) as [_ Hadv].
  pose proof (adv_cancelled _ _ Hadv _ _ _ Hc1) as Hc.
  destruct (cancelled_assert clock eid owner t s' c Hc) as (e & Hass & Hce).
  pose proof (validate_request_intro eid owner (Some ttl) None He Ho) as Hv1.
  pose proof (validate_request_intro eid owner None (Some t) He Ho) as Hv2.
  pose proof (validate_request_intro eid owner (Some ttl) (Some t) He Ho) as Hv3.
  simpl in Hv1, Hv2, Hv3.
  eexists (cancelled_error c eid owner (cancel_fencing_token c)), e, e.
  unfold mem_acquire_lease, mem_verify_lease, mem_renew_lease. rewrite !lift_bind.
  rewrite Hv1, Hv2, Hv3 by naive_solver.
  split_and!; try done.
  - cbv [_validate_expected_revision mbind M_bind gets]. by rewrite Hc.
  - cbv [mbind M_bind]. rewrite Hass. reflexivity.
Qed.

(** The abstract contract of [acquire_lease]: what the caller gets, as a
    function of the lease and revision tables and one clock reading. *)
Definition acquire_outcome (s : store) (eid owner : pystr) (ttl now : Z)
    (expected : option Z) : result exn (ExecutionLease * bool) :=
  match cancellation_of s eid owner with
  | Some c => Err (cancelled_error c eid owner (cancel_fencing_token c))
  | None =>
      if match expected with Some e => negb (revision_of s eid =? e) | None => false end
      then Err (ERevisionConflict eid expected (revision_of s eid))
      else
        let next := mkLease eid owner (last_token_of s eid + 1) now (now + ttl) in
        match active_of s eid with
        | Some l =>
            if expires_at_ms l <=? now then Ok (next, true)
            else if bool_decide (owner_id l = owner) then Ok (l, false)
            else Err (ELease ExecutionLeaseConflictError
                        (u "execution is already leased by another owner")
                        (Some eid) (Some owner) (Some (fencing_token l)))
        | None => Ok (next, true)
        end
  end.

Lemma make_lease_ok e o t a x :
  strip e ≠ [] → strip o ≠ [] → 0 < t → 0 ≤ a < x →
  make_ExecutionLease (VStr e) (VStr o) (VInt t) (VInt a) (VInt x) = Ok (mkLease e o t a x).
Proof.
  intros He Ho Ht [Ha Hx].
  unfold make_ExecutionLease.
  rewrite !validate_identifier_ok, validate_positive_ok by done. cbn [mbind result_bind mret result_ret].
  unfold exact_int. rewrite (proj2 (Z.ltb_ge _ _)), (proj2 (Z.leb_gt _ _)) by done. done.
Qed.

Lemma grant_ok s eid owner ttl now r :
  strip eid ≠ [] → strip owner ≠ [] → 0 ≤ last_fencing_token r → 0 ≤ now → 0 < ttl →
  grant_lease eid owner ttl now r s =
  let l := mkLease eid owner (last_fencing_token r + 1) now (now + ttl) in
  (Ok l, set_leases (<[eid := mkRecord (last_fencing_token r + 1) owner (Some l)]>
                       (execution_leases s)) s).
Proof.
  intros. unfold grant_lease. rewrite lift_bind, make_lease_ok by (done || lia). done.
Qed.

(** The part of the store that a lease operation on [eid] leaves alone. *)
Definition same_elsewhere (eid : pystr) (s s' : store) : Prop :=
  sessions s' = sessions s ∧ revisions s' = revisions s ∧
  execution_cancellations s' = execution_cancellations s ∧
  ∀ eid', eid' ≠ eid → active_of s' eid' = active_of s eid' ∧
                       last_token_of s' eid' = last_token_of s eid'.

(** The record a grant starts from, and the store it is read in. *)
Lemma lease_record_fresh eid s :
  store_ok s → ∃ r s2, _lease_record_unlocked eid (tick s) = (Ok r, s2) ∧
    0 ≤ last_fencing_token r ∧ active r = active_of s eid ∧
    last_fencing_token r = last_token_of s eid ∧ active_of s2 eid = active_of s eid ∧
    same_elsewhere eid s s2.
Proof.
  intros Hs. destruct (lease_record_total eid (tick s)) as (r & s2 & Hrec).
  pose proof (good_lease_record eid (tick s)) as Hg. rewrite Hrec in Hg.
  destruct (good_tick s Hs) as [Ht _]. destruct (Hg Ht) as [Hok _].
  pose proof (lease_record_inv _ _ _ _ Hrec) as (Hr2 & _ & Has & Hls & Har & Hlr).
  change (active_of (tick s)) with (active_of s) in *.
  change (last_token_of (tick s)) with (last_token_of s) in *.
  exists r, s2. split_and!; [done|by apply (ok_records _ Hok eid)|done|done|by rewrite Has|].
  unfold _lease_record_unlocked in Hrec.
  split_and!; [destruct (_ !! eid); by simplify_eq..|]. intros eid' _. by rewrite Has, Hls.
Qed.

Lemma grant_effect eid owner ttl now r s s2 :
  strip eid ≠ [] → strip owner ≠ [] → 0 ≤ last_fencing_token r → 0 ≤ now → 0 < ttl →
  same_elsewhere eid s s2 → last_fencing_token r = last_token_of s eid →
  let '(res, s') := grant_lease eid owner ttl now r s2 in
  let l := mkLease eid owner (last_token_of s eid + 1) now (now + ttl) in
  (res = Ok l ∧ active_of s' eid = Some l) ∧ same_elsewhere eid s s'.
Proof.
  intros He Ho Hnn Hnow Httl (Hse & Hre & Hca & Hel) Hlr. rewrite grant_ok by (done || lia).
  rewrite Hlr. cbv beta iota zeta. unfold same_elsewhere.
  rewrite active_of_put, decide_True by done. split_and!; try done.
  intros eid' Hne. rewrite active_of_put, last_token_of_put, !decide_False by done. by apply Hel.
Qed.

(** C2. [acquire_lease] implements its contract on every branch: cancelled
    owner, stale revision, lease held by another owner, lease already held by
    the caller (returned unchanged, its expiry not extended) and a fresh grant
    of the next token; the lease table afterwards shows exactly the lease it
    returned, and nothing else of the store but the clock changed. *)
Theorem acquire_lease_refines_contract (clock : nat → pyval) (s : store)
    (eid owner : pystr) (ttl now : Z) (expected : option Z) :
  store_ok s → strip eid ≠ [] → strip owner ≠ [] → 0 < ttl →
  (∀ e, expected = Some e → 0 ≤ e) →
  exact_int (clock (clock_readings s)) = Some now → 0 ≤ now →
  let '(r, s') := mem_acquire_lease clock eid owner ttl (VInt <$> expected) s in
  match acquire_outcome s eid owner ttl now expected with
  | Err e => r = Err e
  | Ok (l, _) => r = Ok l ∧ active_of s' eid = Some l
  end ∧
  sessions s' = sessions s ∧ revisions s' = revisions s ∧
  execution_cancellations s' = execution_cancellations s ∧
  ∀ eid', eid' ≠ eid → active_of s' eid' = active_of s eid' ∧
                       last_token_of s' eid' = last_token_of s eid'.
Proof.
  intros Hs He Ho Httl Hexp Hclock Hnow.
  assert (_validate_lease_request (VStr eid) (VStr owner) (Some (VInt ttl)) None = Ok tt) as Hv.
  { apply (validate_request_intro eid owner (Some ttl) None); naive_solver. }
  assert (_validate_expected_revision (VInt <$> expected) = Ok expected) as Hve.
  { destruct expected as [e|]; [|done]. simpl. specialize (Hexp e eq_refl).
    case_match; bsimpl; [lia|done]. }
  unfold mem_acquire_lease. rewrite lift_bind, Hv. rewrite lift_bind, Hve.
  unfold acquire_outcome. cbv [mbind M_bind gets].
  destruct (cancellation_of s eid owner) as [c|] eqn:Hc; [by simpl|].
  destruct (match expected with Some e => negb _ | None => false end) eqn:Hr.
  { destruct expected as [e|]; [|done]. bsimpl. rewrite (proj2 (Z.eqb_neq _ _)) by done. by simpl. }
  assert ((match expected with
    | Some e => if revision_of s eid =? e then mret tt
                else raise (ERevisionConflict eid expected (revision_of s eid))
    | None => mret tt end : M store exn unit) s = (Ok tt, s)) as ->.
  { destruct expected as [e|]; [|done]. bsimpl. by rewrite (proj2 (Z.eqb_eq _ _)). }
  unfold _now_ms at 1. rewrite Hclock.
  destruct (lease_record_fresh eid s Hs) as (r & s2 & Hrec & Hnn & Har & Hlr & Has & Hel).
  rewrite Hrec.
  pose proof (grant_effect eid owner ttl now r s s2 He Ho Hnn Hnow Httl Hel Hlr) as Hgrant.
  rewrite <-Har. destruct (active r) as [l|] eqn:Hal; [|exact Hgrant].
  rewrite Z.leb_antisym. destruct (now <? expires_at_ms l) eqn:Hx; [|exact Hgrant].
  destruct Hel as (? & ? & ? & ?). cbn [negb].
  destruct (bool_decide (owner_id l = owner)); cbn; split_and!; try done; congruence.
Qed.

(** A lease that [acquire_lease] returned is the active one afterwards, and
    its token is the last one issued. *)
Lemma acquire_active clock eid owner ttl e s l s' :
  store_ok s → mem_acquire_lease clock eid owner ttl e s = (Ok l, s') →
  active_of s' eid = Some l ∧ owner_id l = owner ∧ last_token_of s' eid = fencing_token l ∧
  store_ok s' ∧ advances s s'.
Proof.
  intros Hs H. pose proof (good_acquire clock eid owner ttl e s Hs) as [Hs' Hadv].
  rewrite H in Hs', Hadv. simpl in *.
  assert (active_of s' eid = Some l ∧ owner_id l = owner) as [Ha Ho].
  { unfold mem_acquire_lease in H.
    apply M_bind_ok in H as ([] & s1 & [= _ <-] & H).
    apply M_bind_ok in H as (exp & s1 & [= _ <-] & H).
    apply M_bind_ok in H as (c & s1 & [= <- <-] & H).
    destruct (cancellation_of s eid owner); [discriminate H|].
    apply M_bind_ok in H as (rev & s1 & [= <- <-] & H).
    apply M_bind_ok in H as ([] & s1 & _ & H).
    apply M_bind_ok in H as (now & s2 & _ & H).
    apply M_bind_ok in H as (r & s3 & Hr & H).
    apply lease_record_inv in Hr as (Hr & _ & Has & _ & Har & _).
    assert (grant_lease eid owner ttl now r s3 = (Ok l, s') →
      active_of s' eid = Some l ∧ owner_id l = owner) as Hg.
    { intros Hg. apply M_bind_ok in Hg as (l' & s4 & [= Hl <-] & Hg).
      apply make_lease_inv in Hl as [-> _].
      apply M_bind_ok in Hg as ([] & s5 & [= <-] & [= <- <-]).
      by rewrite active_of_put, decide_True. }
    destruct (active r) as [l0|] eqn:Hl0; [|by apply Hg].
    case_match; [|by apply Hg]. case_match eqn:Hown; [|discriminate H].
    injection H as <- <-. bsimpl. split; [|done]. congruence. }
  split_and!; try done. unfold active_of, last_token_of in *.
  destruct (execution_leases s' !! eid) as [r|] eqn:Hr; [|done]. simpl in *.
  destruct (ok_records _ Hs' _ _ Hr) as [_ Hact]. by destruct (Hact l Ha) as (_ & _ & -> & _).
Qed.

(** Fencing tokens never go backwards: of two leases granted for one
    execution at different points of a run, the later one has the larger
    token, unless it is the same lease of the same owner, at most extended. *)
Theorem fencing_tokens_increase (clock : nat → pyval) (s0 s1 s2 s3 : store)
    (eid o1 o2 : pystr) (ttl1 ttl2 : Z) (e1 e2 : option pyval) (l1 l2 : ExecutionLease) :
  store_ok s0 →
  mem_acquire_lease clock eid o1 ttl1 e1 s0 = (Ok l1, s1) →
  rtc (store_step clock) s1 s2 →
  mem_acquire_lease clock eid o2 ttl2 e2 s2 = (Ok l2, s3) →
  fencing_token l1 < fencing_token l2 ∨ (o1 = o2 ∧ extends l1 l2).
Proof.
  intros Hs0 H1 Hsteps H2.
  destruct (acquire_active _ _ _ _ _ _ _ _ Hs0 H1) as (Ha1 & Ho1 & Hl1 & Hs1 & _).
  destruct (good_steps _ _ _ Hsteps Hs1) as [Hs2 Hadv2].
  destruct (acquire_active _ _ _ _ _ _ _ _ Hs2 H2) as (Ha2 & Ho2 & _ & _ & Hadv3).
  assert (advances s1 s3) as Hadv by (by etrans).
  destruct (adv_active _ _ Hadv _ _ Ha2) as [(l & Hl & Hext)|Hlt]; [|left; lia].
  right. rewrite Ha1 in Hl. injection Hl as <-. split; [|done].
  destruct Hext as (_ & Hown & _). congruence.
Qed.

Lemma cas_session_ok sid st e s r s' :
  cas_session sid st e s = (Ok r, s') →
  e = Some (revision_of s sid) ∧ r = revision_of s sid + 1 ∧ revision_of s' sid = r ∧
  sessions s' !! sid = Some st.
Proof.
  unfold cas_session. intros H. unfold_monad_in H. case_match; [|done].
  injection H as <- <-. bsimpl. split_and!; [done|done| |].
  - unfold revision_of at 1. simpl. by rewrite lookup_insert_eq.
  - simpl. by rewrite lookup_insert_eq.
Qed.

Lemma unfenced_inv clock sid s s' :
  _ensure_unfenced_write_allowed_unlocked clock sid s = (Ok tt, s') →
  (s' = s ∨ s' = tick s) ∧
  ∀ l, active_of s sid = Some l →
    ∃ now, exact_int (clock (clock_readings s)) = Some now ∧ expires_at_ms l ≤ now.
Proof.
  unfold _ensure_unfenced_write_allowed_unlocked. intros H.
  apply M_bind_ok in H as (a & s1 & [= <- <-] & H).
  destruct (active_of s sid) as [l|]; [|unfold_monad_in H; naive_solver].
  apply M_bind_ok in H as (now & s1 & [-> Hnow]%now_inv & H).
  case_match; [done|]. unfold_monad_in H. bsimpl. split; [right; congruence|]. naive_solver.
Qed.

(** No lost update: when a compare-and-swap save returns, the session
    holds the new state at the successor of the expected revision, and from
    then on, through any further operations, every other writer that still
    expects the old revision is refused without touching the session. *)
Theorem cas_prevents_lost_update (clock : nat → pyval) (s s1 s2 : store)
    (sid : pystr) (st st' : pydict) (e r : Z) :
  store_ok s → save_if_revision clock sid st (VInt e) s = (Ok r, s1) →
  rtc (store_step clock) s1 s2 →
  r = e + 1 ∧ revision_of s1 sid = r ∧ sessions s1 !! sid = Some st ∧
  let '(res, s3) := save_if_revision clock sid st' (VInt e) s2 in
  is_ok res = false ∧ sessions s3 = sessions s2 ∧ revisions s3 = revisions s2.
Proof.
  intros Hs H Hsteps.
  pose proof (good_save_if clock sid st (VInt e) s Hs) as [Hs1 _]. rewrite H in Hs1.
  destruct (good_steps _ _ _ Hsteps Hs1) as [_ Hadv].
  unfold save_if_revision in *. simpl in *.
  case_match; [discriminate H|].
  apply M_bind_ok in H as ([] & s0 & [Hs0 _]%unfenced_inv & H).
  apply cas_session_ok in H as ([= ->] & -> & Hrev & Hst).
  split_and!; [|done|done|].
  { destruct Hs0 as [->| ->]; reflexivity. }
  pose proof (adv_revision _ _ Hadv sid) as Hle.
  assert (∀ sx, revisions sx = revisions s2 → sessions sx = sessions s2 →
    let '(res, s3) := cas_session sid st' (Some (revision_of s0 sid)) sx in
    is_ok res = false ∧ sessions s3 = sessions s2 ∧ revisions s3 = revisions s2) as Hcas.
  { intros sx Hr Hss. unfold cas_session. unfold_monad.
    assert (revision_of sx sid = revision_of s2 sid) as Hrx by (unfold revision_of; by rewrite Hr).
    rewrite bool_decide_eq_false_2; [done|]. rewrite Hrx. intros [=]. lia. }
  cbv [mbind M_bind].
  destruct (_ensure_unfenced_write_allowed_unlocked clock sid s2) as [[[]|] sx] eqn:Hu.
  - apply unfenced_inv in Hu as [[->| ->] _]; by apply Hcas.
  - unfold _ensure_unfenced_write_allowed_unlocked, _now_ms in Hu. unfold_monad_in Hu.
    repeat case_match; simplify_eq; done.
Qed.

(** While an execution lease is unexpired, an unfenced write to its
    session raises [ActiveExecutionLeaseError] and writes nothing: the
    lease holder is the only writer. *)
Theorem unfenced_write_blocked_by_lease (clock : nat → pyval) (s : store) (sid : pystr)
    (l : ExecutionLease) (now : Z) (st : pydict) :
  active_of s sid = Some l → exact_int (clock (clock_readings s)) = Some now →
  now < expires_at_ms l →
  save clock sid st s =
    (Err (ELease ActiveExecutionLeaseError
            (u "unfenced session write is forbidden while an execution lease is active")
            (Some sid) (Some (owner_id l)) (Some (fencing_token l))), tick s).
Proof.
  intros Ha Hc Hlt. unfold save, _ensure_unfenced_write_allowed_unlocked, _now_ms.
  unfold_monad. rewrite Ha, Hc. by rewrite (proj2 (Z.ltb_lt _ _)).
Qed.

(** ** Witnesses: one small run of the store *)

Definition demo_clock (n : nat) : pyval := VInt (1000 + Z.of_nat n).
Definition demo_acquired : store :=
  apply_op demo_clock (OpAcquire (u "run") (u "a") 500 None) empty_store.
Definition demo_released : store :=
  apply_op demo_clock (OpRelease (u "run") (u "a") 1) demo_acquired.
Definition demo_lease : ExecutionLease := mkLease (u "run") (u "a") 1 1000 1500.

Lemma demo_acquired_ok : store_ok demo_acquired.
Proof. unfold demo_acquired. auto with py. Qed.
Lemma demo_released_ok : store_ok demo_released.
Proof. unfold demo_released. auto using demo_acquired_ok with py. Qed.
Lemma demo_dead : token_dead demo_released (u "run") 1.
Proof. split; [by vm_compute|]. intros l. vm_compute. discriminate. Qed.

Lemma reachable_store_ok_witness : store_ok demo_acquired.
Proof.
  apply (reachable_store_ok demo_clock). eapply rtc_l; [|reflexivity].
  apply (do_op demo_clock).
Defined.

Lemma superseded_token_is_fenced_off_witness :
  is_ok (mem_verify_lease demo_clock (u "run") (u "a") 1
           (apply_op demo_clock (OpAcquire (u "run") (u "b") 500 None) demo_released)).1 = false.
Proof.
  refine (proj1 (superseded_token_is_fenced_off demo_clock demo_released _ (u "run") (u "a") 1 5
           (u "run") [] None demo_released_ok demo_dead _)).
  eapply rtc_l; [apply (do_op demo_clock)|reflexivity].
Defined.

Lemma release_kills_token_witness : token_dead demo_released (u "run") 1.
Proof.
  apply (release_kills_token demo_clock demo_acquired _ _ (u "a") 1 demo_acquired_ok).
  vm_compute. reflexivity.
Defined.

Lemma at_most_one_holder_witness : u "a" = u "a" ∧ 1 = 1 ∧ demo_lease = demo_lease.
Proof.
  apply (at_most_one_holder demo_clock demo_acquired (tick demo_acquired) (tick demo_acquired)
           (u "run")); vm_compute; reflexivity.
Defined.

Definition demo_cancellation : ExecutionCancellation :=
  mkCancellation (u "run") (u "a") (Some 1) 1001 (u "stop").

Lemma cancellation_is_permanent_witness : ∃ e1 e2 e3 : exn,
  let s' := apply_op demo_clock (OpCancel (u "run") (u "a") (u "stop")) demo_acquired in
  mem_acquire_lease demo_clock (u "run") (u "a") 5 None s' = (Err e1, s') ∧
  mem_verify_lease demo_clock (u "run") (u "a") 1 s' = (Err e2, s') ∧
  mem_renew_lease demo_clock (u "run") (u "a") 1 5 s' = (Err e3, s') ∧
  is_cancelled_error e1 = true ∧ is_cancelled_error e2 = true ∧ is_cancelled_error e3 = true.
Proof.
  eapply (cancellation_is_permanent demo_clock demo_acquired _ _ (u "run") (u "a") (u "stop")
            demo_cancellation 1 5 demo_acquired_ok); [|reflexivity|lia|lia].
  vm_compute. reflexivity.
Defined.

Lemma acquire_lease_refines_contract_witness :
  let '(r, s') := mem_acquire_lease demo_clock (u "run") (u "b") 7 None demo_released in
  (r = Ok (mkLease (u "run") (u "b") 2 1002 1009) ∧
   active_of s' (u "run") = Some (mkLease (u "run") (u "b") 2 1002 1009)) ∧
  sessions s' = sessions demo_released ∧ revisions s' = revisions demo_released ∧
  execution_cancellations s' = execution_cancellations demo_released ∧
  ∀ eid', eid' ≠ u "run" → active_of s' eid' = active_of demo_released eid' ∧
                           last_token_of s' eid' = last_token_of demo_released eid'.
Proof.
  apply (acquire_lease_refines_contract demo_clock demo_released (u "run") (u "b") 7 1002 None);
    [apply demo_released_ok|by vm_compute|by vm_compute|lia|done|by vm_compute|lia].
Defined.

Lemma fencing_tokens_increase_witness :
  1 < 2 ∨ (u "a" = u "b" ∧ extends demo_lease (mkLease (u "run") (u "b") 2 1002 1502)).
Proof.
  apply (fencing_tokens_increase demo_clock empty_store demo_acquired demo_released
           (apply_op demo_clock (OpAcquire (u "run") (u "b") 500 None) demo_released)
           (u "run") (u "a") (u "b") 500 500 None None demo_lease
           (mkLease (u "run") (u "b") 2 1002 1502)).
  - apply store_ok_empty.
  - vm_compute. reflexivity.
  - eapply rtc_l; [|reflexivity]. unfold demo_released. apply (do_op demo_clock).
  - vm_compute. reflexivity.
Defined.

Lemma cas_prevents_lost_update_witness :
  1 = 0 + 1 ∧
  revision_of (apply_op demo_clock (OpSaveIfRevision (u "s") [] (VInt 0)) empty_store) (u "s") = 1 ∧
  sessions (apply_op demo_clock (OpSaveIfRevision (u "s") [] (VInt 0)) empty_store)
    !! (u "s") = Some [] ∧
  let s2 := apply_op demo_clock (OpSaveIfRevision (u "s") [] (VInt 0)) empty_store in
  let '(res, s3) := save_if_revision demo_clock (u "s") [] (VInt 0) s2 in
  is_ok res = false ∧ sessions s3 = sessions s2 ∧ revisions s3 = revisions s2.
Proof.
  apply (cas_prevents_lost_update demo_clock empty_store _ _ (u "s") [] [] 0 1);
    [apply store_ok_empty| |reflexivity].
  vm_compute. reflexivity.
Defined.

Lemma unfenced_write_blocked_by_lease_witness :
  save demo_clock (u "run") [] demo_acquired =
    (Err (ELease ActiveExecutionLeaseError
            (u "unfenced session write is forbidden while an execution lease is active")
            (Some (u "run")) (Some (u "a")) (Some 1)), tick demo_acquired).
Proof.
  apply (unfenced_write_blocked_by_lease demo_clock demo_acquired (u "run") demo_lease 1001);
    [by vm_compute|by vm_compute|simpl; lia].
Defined.
