(* ===== verification/Leases.v ===== *)
(** * Guards over the process-local store

    The session store discharges the contract [LeaseStoreLaws] that the guard
    theorems of [Execution] are proved against, and the two together give the
    end-to-end statements about waiting, taking over and guarded model calls. *)

From S2P Require Import Prelude PyVal Execution SessionStore.
Local Open Scope Z_scope.

Section in_memory.
Variable clock : nat → pyval.

#[local] Instance session_store : ExecutionLeaseStore store := InMemorySessionStore clock.

Lemma wrap_snd {A B} (m : M store exn A) (f : A → B) s :
  ((x ← m; mret (f x)) s).2 = (m s).2.
Proof. cbv [mbind M_bind]. by destruct (m s) as [[]]. Qed.

Lemma wrap_ok {A B} (m : M store exn A) (f : A → B) s :
  is_ok ((x ← m; mret (f x)) s).1 = is_ok (m s).1.
Proof. cbv [mbind M_bind]. by destruct (m s) as [[]]. Qed.

#[export] Instance InMemoryLaws : LeaseStoreLaws store.
Proof.
  refine (Build_LeaseStoreLaws store _ store_ok good_move token_dead _ _ _ _ _ _ _ _ _ _ _).
  - split; apply _.
  - intros s s' Hs Hm. by destruct (Hm Hs).
  - intros e o t s. cbn [verify_lease session_store InMemorySessionStore]. rewrite wrap_snd. apply good_verify.
  - intros e o t ttl s. cbn [renew_lease session_store InMemorySessionStore]. rewrite wrap_snd. apply good_renew.
  - intros e o t s. apply good_release.
  - intros e o ttl r s. cbn [acquire_lease session_store InMemorySessionStore]. rewrite wrap_snd.
    apply good_acquire.
  - intros e o t s s'. apply release_dead.
  - intros e t s s' Hs Hm. apply token_dead_advances, Hm, Hs.
  - intros e o t s Hd. cbn [verify_lease session_store InMemorySessionStore]. rewrite wrap_ok.
    by apply verify_dead.
  - intros e o t ttl s Hd. cbn [renew_lease session_store InMemorySessionStore]. rewrite wrap_ok.
    by apply renew_dead.
  - intros e o1 o2 t1 t2 s l1 l2 s1 s2 H1 H2.
    cbn [verify_lease session_store InMemorySessionStore] in H1, H2.
    apply M_bind_ok in H1 as (x1 & y1 & H1 & _). apply M_bind_ok in H2 as (x2 & y2 & H2 & _).
    by destruct (verify_exclusive clock s y1 y2 e o1 o2 t1 t2 x1 x2 H1 H2) as (? & ? & _).
Defined.

(** What a successful ownership check of a guard says about the store. *)
Lemma assert_active_mem (w w' : world store) l :
  assert_active w = (Ok l, w') →
  active_of (w_store w') (execution_id l) = Some l ∧ guard_lease (w_guard w') = l ∧
  ∃ now, exact_int (clock (clock_readings (w_store w))) = Some now ∧ now < expires_at_ms l.
Proof.
  intros Ha. pose proof (assert_active_guard _ _ _ Ha) as (_ & _ & Hg & He & _ & _).
  rewrite Hg, He. simpl. unfold assert_active, on_store in Ha.
  cbv [mbind M_bind gets lift zoom] in Ha.
  destruct (_ensure_active_locked _); [|done].
  cbn [verify_lease session_store InMemorySessionStore] in Ha. cbv [mbind M_bind] in Ha.
  destruct (mem_verify_lease clock _ _ _ _) as [[l'|] s1] eqn:Hv; [|done].
  cbv [mret M_ret] in Ha.
  destruct (_validate_store_lease _ _ _ _) as [l''|] eqn:Hval; [|done].
  apply validate_store_lease_ok in Hval as ([= ->] & _).
  unfold on_guard in Ha. unfold_monad_in Ha. simplify_eq/=.
  unfold mem_verify_lease in Hv. rewrite lift_bind in Hv.
  destruct (_validate_lease_request _ _ _ _); [|done].
  apply assert_active_inv in Hv as (-> & Hact & _ & _ & _ & Hnow). done.
Qed.

(** A guarded model call returns its result only to the current owner:
    when [fetch_turn] returns through the guard, the renewal before it
    succeeded, and at the ownership check after the response the guard's
    lease is the active lease of its execution in the store, unexpired at
    the clock reading of that check; if the renewal raises, the delegate is
    never called. *)
Theorem guarded_call_returns_to_owner {R}
    (delegate : M (world store) exn R) (w w' : world store) (res : result exn R) :
  guarded_fetch_turn delegate w = (res, w') →
  match res with
  | Ok r => ∃ l w1 w2, renew w = (Ok l, w1) ∧ delegate w1 = (Ok r, w2) ∧
      active_of (w_store w') (execution_id (guard_lease (w_guard w'))) =
        Some (guard_lease (w_guard w')) ∧
      ∃ now, exact_int (clock (clock_readings (w_store w2))) = Some now ∧
             now < expires_at_ms (guard_lease (w_guard w'))
  | Err e => renew w = (Err e, w') ∨ ∃ l w1, renew w = (Ok l, w1) ∧
      (delegate w1 = (Err e, w') ∨
       ∃ r w2, delegate w1 = (Ok r, w2) ∧ assert_active w2 = (Err e, w'))
  end.
Proof.
  intros H. unfold guarded_fetch_turn in H. cbv [mbind M_bind] in H.
  destruct (renew w) as [[l|e] w1] eqn:Hr; [|simplify_eq; by left].
  destruct (delegate w1) as [[r|e] w2] eqn:Hd; [|simplify_eq; naive_solver].
  destruct (assert_active w2) as [[l'|e] w3] eqn:Ha; unfold_monad_in H; simplify_eq;
    [|naive_solver].
  apply assert_active_mem in Ha as (Hact & <- & Hnow). naive_solver.
Qed.

(** Waiting hands the execution over safely: after [release_for_wait]
    returns on an active guard, the old token is dead; whatever then happens
    to the store, a [reacquire] that returns gives the guard a strictly
    larger token, and the old token stays dead. *)
Theorem wait_then_reacquire_renumbers (w w1 w2 w3 : world store)
    (rev : option pyval) (l : ExecutionLease) :
  store_ok (w_store w) → guard_st (w_guard w) = Active →
  release_for_wait w = (Ok tt, w1) →
  rtc (store_step clock) (w_store w1) (w_store w2) → w_guard w2 = w_guard w1 →
  reacquire rev w2 = (Ok l, w3) →
  let old := guard_lease (w_guard w) in
  fencing_token old < fencing_token l ∧
  token_dead (w_store w1) (execution_id old) (fencing_token old) ∧
  token_dead (w_store w3) (execution_id old) (fencing_token old).
Proof.
  intros Hok Hst Hrel Hsteps Hg Hreq old.
  pose proof (release_for_wait_guard _ _ _ Hrel) as (_ & Hl1 & _ & _).
  pose proof (reacquire_guard _ _ _ _ Hreq) as (_ & _ & _ & _ & _ & _ & Hlt & _).
  rewrite Hg, Hl1 in Hlt.
  assert (mem_release_lease clock (execution_id old) (owner_id old) (fencing_token old)
            (w_store w) = (Ok tt, w_store w1)) as Hrs.
  { unfold release_for_wait, _request_heartbeat_stop, on_guard, on_store in Hrel.
    cbv [mbind M_bind gets modify zoom] in Hrel. simpl in Hrel. rewrite Hst in Hrel.
    destruct (mem_release_lease _ _ _ _ _) as [[[]|] s'] eqn:E; [|done]. by simplify_eq/=. }
  pose proof (good_release clock (execution_id old) (owner_id old) (fencing_token old)
    (w_store w) Hok) as [Hok1 _]. rewrite Hrs in Hok1.
  pose proof (release_dead _ _ _ _ _ _ Hok Hrs) as Hd.
  destruct (good_steps _ _ _ Hsteps Hok1) as [Hok2 Hadv].
  split_and!; [done|done|]. eapply token_dead_advances; [|by eapply token_dead_advances].
  unfold reacquire, on_store in Hreq. cbv [mbind M_bind gets lift zoom ensure] in Hreq.
  destruct (_validate_expected_revision rev) as [er|]; [|done].
  destruct (bool_decide _); [|done].
  match type of Hreq with context [acquire_lease ?e ?o ?t ?r ?s] =>
    pose proof (ls_acquire_evolves e o t r s Hok2) as [_ Ha];
    destruct (acquire_lease e o t r s) as [[lo|] s3]
  end; [|done]. simpl in *.
  destruct (_validate_store_lease _ _ _ _) as [l'|]; [|done].
  destruct (negb _); [|done]. unfold on_guard in Hreq. unfold_monad_in Hreq. by simplify_eq/=.
Qed.

End in_memory.

(** ** Witnesses: a guard on the demonstration store *)

#[local] Instance demo_store : ExecutionLeaseStore store := InMemorySessionStore demo_clock.
#[local] Instance demo_laws : LeaseStoreLaws store := InMemoryLaws demo_clock.

Definition demo_guard : ExecutionGuard := new_guard default_config demo_lease.
Definition demo_world : world store := mkWorld demo_acquired demo_guard.

Lemma guard_identity_is_stable_witness :
  guard_advances demo_guard (w_guard (apply_guard_op GReleaseForWait demo_world)).
Proof.
  apply (guard_identity_is_stable demo_world). eapply rtc_l; [|reflexivity].
  apply (guard_moves demo_world GReleaseForWait).
Defined.

Lemma inactive_guard_authorises_nothing_witness :
  let w := mkWorld demo_released (set_state Released demo_guard) in
  guard_fence w = (Err (_not_active_error_locked (w_guard w)), w) ∧
  assert_active w = (Err (_not_active_error_locked (w_guard w)), w) ∧
  renew w = (Err (_not_active_error_locked (w_guard w)), w).
Proof. apply inactive_guard_authorises_nothing. discriminate. Defined.

Lemma heartbeat_failure_poisons_guard_witness :
  let e := ELease StaleExecutionLeaseError
             (u "execution lease has already been released or superseded")
             (Some (u "run")) (Some (u "a")) (Some 1) in
  ∃ w2, heartbeat_tick (mkWorld demo_released demo_guard) = (Ok tt, w2) ∧
    w_store w2 = demo_released ∧
    guard_fence w2 = (Err e, w2) ∧ assert_active w2 = (Err e, w2) ∧
    renew w2 = (Err e, w2) ∧ heartbeat_tick w2 = (Ok tt, w2).
Proof.
  apply (heartbeat_failure_poisons_guard (mkWorld demo_released demo_guard)
           (mkWorld demo_released demo_guard)); vm_compute; reflexivity.
Defined.

Definition demo_renewed : ExecutionLease := mkLease (u "run") (u "a") 1 1000 61002.

Lemma renew_never_shortens_witness :
  ∃ w', renew demo_world = (Ok demo_renewed, w') ∧ guard_lease (w_guard w') = demo_renewed.
Proof.
  exists (renew demo_world).2.
  assert (renew demo_world = (Ok demo_renewed, (renew demo_world).2)) as Hr
    by (vm_compute; reflexivity).
  split; [exact Hr|]. exact (proj1 (renew_never_shortens demo_world _ _ Hr)).
Defined.

Definition demo_scope_end : store :=
  (runtime_scope default_config (VStr (u "run")) (Some (VStr (u "a"))) [] None
     (mret 7) empty_store).2.

Lemma scope_releases_its_lease_witness :
  ∃ g s1 w, runtime_acquire default_config (VStr (u "run")) (Some (VStr (u "a"))) [] None
      empty_store = (Ok g, s1) ∧ mret (M:=M (world store) exn) 7 (mkWorld s1 g) = (Ok 7, w) ∧
    (guard_st (w_guard w) = Active → ls_ok (w_store w) →
     is_ok (assert_active (mkWorld demo_scope_end (w_guard w))).1 = false ∧
     is_ok (renew (mkWorld demo_scope_end (w_guard w))).1 = false).
Proof.
  eapply (scope_releases_its_lease default_config (VStr (u "run")) (Some (VStr (u "a"))) [] None
            (mret 7) empty_store demo_scope_end); [vm_compute; reflexivity|reflexivity].
Defined.

Lemma guards_exclude_each_other_witness : u "a" = u "a" ∧ 1 = 1.
Proof.
  apply (guards_exclude_each_other demo_acquired demo_guard demo_guard
           (assert_active demo_world).2 (assert_active demo_world).2 demo_lease demo_lease);
    vm_compute; reflexivity.
Defined.

Definition demo_call : world store := (guarded_fetch_turn (mret 3) demo_world).2.

Lemma guarded_call_returns_to_owner_witness :
  active_of (w_store demo_call) (u "run") = Some demo_renewed.
Proof.
  destruct (guarded_call_returns_to_owner demo_clock (mret 3) demo_world demo_call (Ok 3))
    as (l & w1 & w2 & _ & _ & Hact & _); [vm_compute; reflexivity|].
  exact Hact.
Defined.

Definition demo_waiting : world store := (release_for_wait demo_world).2.

Lemma wait_then_reacquire_renumbers_witness :
  1 < 2 ∧ token_dead (w_store demo_waiting) (u "run") 1 ∧
  token_dead (w_store (reacquire None demo_waiting).2) (u "run") 1.
Proof.
  apply (wait_then_reacquire_renumbers demo_clock demo_world demo_waiting demo_waiting
           (reacquire None demo_waiting).2 None (mkLease (u "run") (u "a") 2 1002 61002)
           demo_acquired_ok); try reflexivity; vm_compute; reflexivity.
Defined.
