(* ===== verification/Revision.v ===== *)
(** * Session snapshots over any store (src/unchain/memory/revision.py)

    [load_session_snapshot] and [save_session_snapshot] work with any store
    object: what they find on it is a [session_store], a record of the methods
    it has, each with the answers a faulty store might give.  They validate
    what they get back, refuse a fenced write to a store that cannot check the
    fence atomically, and fall back to a best-effort store otherwise. *)

From S2P Require Import Prelude PyVal Execution SessionStore.
Local Open Scope Z_scope.

(** What [load_with_revision] answers: something else than a snapshot, or a
    snapshot with unchecked fields. *)
Inductive raw_snapshot : Type :=
| NotASnapshot
| RawSnapshot (state revision : pyval).

(** The methods a store object has; [None] when [getattr] finds nothing
    callable. *)
Record session_store (S : Type) : Type := mkSessionStore {
  st_load : option (pystr → M S exn pyval);
  st_save : option (pystr → pydict → M S exn unit);
  st_load_with_revision : option (pystr → M S exn raw_snapshot);
  st_save_if_revision : option (pystr → pydict → Z → M S exn pyval);
  st_save_if_revision_and_fence :
    option (pystr → pydict → Z → pystr → pystr → Z → M S exn pyval);
  has_acquire_lease : bool;
  has_verify_lease : bool;
  has_renew_lease : bool;
  has_release_lease : bool;
}.
Arguments mkSessionStore {S}.
Arguments st_load {S}.
Arguments st_save {S}.
Arguments st_load_with_revision {S}.
Arguments st_save_if_revision {S}.
Arguments st_save_if_revision_and_fence {S}.
Arguments has_acquire_lease {S}.
Arguments has_verify_lease {S}.
Arguments has_renew_lease {S}.
Arguments has_release_lease {S}.

Definition callable {A} (m : option A) : bool := match m with Some _ => true | None => false end.

(** [SessionSnapshot.consistency] *)
Definition consistency (s : SessionSnapshot) : pystr :=
  if revision_supported s then u "compare_and_swap" else u "best_effort".

Definition _validate_revision (revision : pyval) (session_id : pystr) : result exn Z :=
  match exact_int revision with
  | Some r => if r <? 0
              then Err (EStoreCorruption session_id (u "revision must be a non-negative integer"))
              else Ok r
  | None => Err (EStoreCorruption session_id (u "revision must be a non-negative integer"))
  end.

Definition _validate_snapshot (snapshot : raw_snapshot) (session_id : pystr)
    : result exn SessionSnapshot :=
  match snapshot with
  | NotASnapshot =>
      Err (EStoreCorruption session_id (u "load_with_revision() returned an invalid snapshot"))
  | RawSnapshot (VDict state) revision =>
      r ← _validate_revision revision session_id;
      Ok (mkSnapshot state (Some r))
  | RawSnapshot _ _ =>
      Err (EStoreCorruption session_id (u "session state must be a JSON object"))
  end.

Section snapshots.
Context {S : Type}.
Variable store : session_store S.

Definition _has_revision_capability : result exn bool :=
  let has_revision_load := callable (st_load_with_revision store) in
  let has_revision_save := callable (st_save_if_revision store) in
  if bool_decide (has_revision_load = has_revision_save) then Ok has_revision_load
  else Err (ETypeError (u "revisioned session store capability is incomplete: load_with_revision and save_if_revision must be implemented together")).

(** The methods of the fenced capability, with their names. *)
Definition fenced_methods : list (pystr * bool) :=
  [(u "acquire_lease", has_acquire_lease store);
   (u "verify_lease", has_verify_lease store);
   (u "renew_lease", has_renew_lease store);
   (u "release_lease", has_release_lease store);
   (u "save_if_revision_and_fence", callable (st_save_if_revision_and_fence store))].

(** [", ".join(l)] *)
Fixpoint comma_join (l : list pystr) : pystr :=
  match l with
  | [] => []
  | [x] => x
  | x :: l' => x ++ u ", " ++ comma_join l'
  end.

Definition _has_fenced_revision_capability : result exn bool :=
  let supported := fenced_methods in
  if existsb snd supported && negb (forallb snd supported) then
    Err (ETypeError (u "execution lease store capability is incomplete; these methods must be implemented together: "
           ++ comma_join (filter (λ p, p.2 = false) supported).*1))
  else Ok (forallb snd supported).

Definition load_session_snapshot (session_id : pystr) : M S exn SessionSnapshot :=
  revisioned ← lift _has_revision_capability;
  if (revisioned : bool) then
    match st_load_with_revision store with
    | Some load_with_revision =>
        raw ← load_with_revision session_id; lift (_validate_snapshot raw session_id)
    | None => raise (ETypeError [])
    end
  else
    match st_load store with
    | None => raise (ETypeError (u "session store must define load(session_id)"))
    | Some load =>
        state ← load session_id;
        match state with
        | VDict d => mret (mkSnapshot d None)
        | _ => raise (EStoreCorruption session_id (u "session state must be a JSON object"))
        end
    end.

Definition fence_unsupported : exn :=
  ETypeError (u "execution_fence requires an atomic fenced revisioned session store").

(** The call of the store's conditional save: fenced when a fence is given. *)
Definition conditional_save (session_id : pystr) (state : pydict) (expected : Z)
    (execution_fence : option ExecutionFence) : M S exn pyval :=
  match execution_fence with
  | None =>
      match st_save_if_revision store with
      | Some save_if_revision => save_if_revision session_id state expected
      | None => raise (ETypeError [])
      end
  | Some f =>
      fenced ← lift _has_fenced_revision_capability;
      if negb fenced then raise fence_unsupported
      else match st_save_if_revision_and_fence store with
           | None => raise fence_unsupported
           | Some save_if_revision_and_fence =>
               save_if_revision_and_fence session_id state expected
                 (fence_execution_id f) (fence_owner_id f) (fence_token f)
           end
  end.

Definition save_session_snapshot (session_id : pystr) (state : pyval)
    (expected_revision : option pyval) (execution_fence : option ExecutionFence)
    : M S exn SessionSnapshot :=
  match state with
  | VDict saved_state =>
      _ ← match execution_fence with
          | Some f => lift (_validate_execution_fence_target session_id (fence_execution_id f))
          | None => mret tt
          end;
      revisioned ← lift _has_revision_capability;
      if (revisioned : bool) then
        match expected_revision with
        | None => raise (EValueError (u "expected_revision is required for a revisioned session store"))
        | Some e =>
            expected ← lift (_validate_revision e session_id);
            next_revision ← conditional_save session_id saved_state expected execution_fence;
            revision ← lift (_validate_revision next_revision session_id);
            if revision <=? expected
            then raise (EStoreCorruption session_id (u "save_if_revision() did not advance the revision"))
            else mret (mkSnapshot saved_state (Some revision))
        end
      else
        match execution_fence with
        | Some _ => raise fence_unsupported
        | None =>
            match st_save store with
            | None => raise (ETypeError (u "session store must define save(session_id, state)"))
            | Some save => _ ← save session_id saved_state; mret (mkSnapshot saved_state None)
            end
        end
  | _ => raise (ETypeError (u "session state must be a dict"))
  end.
End snapshots.

(** ** Theorems *)

(** A store stripped of its writes that do not check a fence. *)
Definition replace_unfenced {S} (store : session_store S)
    (save : option (pystr → pydict → M S exn unit))
    (save_if_revision : pystr → pydict → Z → M S exn pyval) : session_store S :=
  mkSessionStore (st_load store) save (st_load_with_revision store)
    (match st_save_if_revision store with Some _ => Some save_if_revision | None => None end)
    (st_save_if_revision_and_fence store) (has_acquire_lease store) (has_verify_lease store)
    (has_renew_lease store) (has_release_lease store).

Lemma fenced_capability_replace {S} (store : session_store S) sv si :
  _has_fenced_revision_capability (replace_unfenced store sv si)
  = _has_fenced_revision_capability store.
Proof. done. Qed.

Lemma revision_capability_replace {S} (store : session_store S) sv si :
  _has_revision_capability (replace_unfenced store sv si) = _has_revision_capability store.
Proof.
  unfold _has_revision_capability. simpl. by destruct (st_save_if_revision store).
Qed.

Lemma validate_revision_ok v sid r : _validate_revision v sid = Ok r ↔ v = VInt r ∧ 0 ≤ r.
Proof.
  unfold _validate_revision. destruct v as [| |z| | | | |]; simpl; try naive_solver.
  destruct (z <? 0) eqn:Hz; bsimpl; naive_solver lia.
Qed.

(** A save with an execution fence never degrades to a write that does not
    check the fence, whatever the store offers: its outcome is the same when
    [save] and [save_if_revision] are replaced by anything. *)
Theorem fenced_save_never_falls_back {S} (store : session_store S)
    (save : option (pystr → pydict → M S exn unit))
    (save_if_revision : pystr → pydict → Z → M S exn pyval)
    (session_id : pystr) (state : pyval) (expected : option pyval) (f : ExecutionFence) (s : S) :
  save_session_snapshot (replace_unfenced store save save_if_revision)
    session_id state expected (Some f) s
  = save_session_snapshot store session_id state expected (Some f) s.
Proof.
  unfold save_session_snapshot. rewrite revision_capability_replace.
  by destruct state.
Qed.

(** The snapshot a save returns is trustworthy for any store, honest or
    not: with a revisioned store its revision is an integer strictly above the
    expected one, with a legacy store it is marked best-effort, and the state
    is the one passed in; a fence always names the session it writes. *)
Theorem saved_snapshot_advances {S} (store : session_store S) (session_id : pystr) (state : pyval)
    (expected : option pyval) (fence : option ExecutionFence) (s s' : S) (snap : SessionSnapshot) :
  save_session_snapshot store session_id state expected fence s = (Ok snap, s') →
  state = VDict (snap_state snap) ∧
  (∀ f, fence = Some f → session_id = fence_execution_id f ∨
     ∃ t, session_id = fence_execution_id f ++ u ":" ++ t) ∧
  match snap_revision snap with
  | Some r => ∃ e, expected = Some (VInt e) ∧ 0 ≤ e < r ∧ consistency snap = u "compare_and_swap"
  | None => fence = None ∧ st_load_with_revision store = None ∧ consistency snap = u "best_effort"
  end.
Proof.
  unfold save_session_snapshot. destruct state as [| | | | | |d|]; try done.
  intros [[] (s1 & Hf & Hrun)]%M_bind_ok. apply M_bind_ok in Hrun as (rev & s2 & Hrev & Hrun).
  assert (∀ f, fence = Some f → session_id = fence_execution_id f ∨
     ∃ t, session_id = fence_execution_id f ++ u ":" ++ t) as Htarget.
  { intros f ->. unfold lift, _validate_execution_fence_target in Hf.
    injection Hf as Hf _. apply ensure_ok in Hf. apply orb_true_iff in Hf as [Hf|Hf].
    - left. by apply bool_decide_eq_true in Hf.
    - right. apply startswith_spec in Hf as [t ->]. exists t. by rewrite <-app_assoc. }
  destruct rev.
  - destruct expected as [e|]; [|done].
    apply M_bind_ok in Hrun as (e' & s3 & [= He <-] & Hrun).
    apply M_bind_ok in Hrun as (next & s4 & _ & Hrun).
    apply M_bind_ok in Hrun as (r & s5 & [= Hr <-] & Hrun).
    apply validate_revision_ok in He as [-> He]. apply validate_revision_ok in Hr as [-> Hr].
    destruct (r <=? e') eqn:Hle; [done|]. bsimpl. injection Hrun as <- <-.
    split_and!; [done|done|]. simpl. exists e'. split_and!; [done|done|lia|done].
  - destruct fence; [done|]. destruct (st_save store); [|done].
    apply M_bind_ok in Hrun as (? & s3 & _ & Hrun). injection Hrun as <- <-.
    split_and!; [done|done|]. simpl. split_and!; [done| |done].
    injection Hrev as Hrev _. unfold _has_revision_capability in Hrev.
    destruct (bool_decide _); [|done]. by destruct (st_load_with_revision store).
Qed.

(** ** The process-local store behind this interface *)

Definition in_memory (clock : nat → pyval) : session_store store :=
  mkSessionStore
    (Some (λ sid, d ← load sid; mret (VDict d)))
    (Some (save clock))
    (Some (λ sid, snap ← load_with_revision sid;
                  mret (RawSnapshot (VDict (snap_state snap))
                          (from_option VInt VNone (snap_revision snap)))))
    (Some (λ sid st e, r ← save_if_revision clock sid st (VInt e); mret (VInt r)))
    (Some (λ sid st e eid owner token,
             r ← save_if_revision_and_fence clock sid st (Some (VInt e)) eid owner (VInt token);
             mret (VInt r)))
    true true true true.

Lemma cas_stored sid st e s r s' :
  cas_session sid st e s = (Ok r, s') →
  e = Some (revision_of s sid) ∧ r = revision_of s sid + 1 ∧
  sessions s' !! sid = Some st ∧ revision_of s' sid = r.
Proof.
  unfold cas_session. intros Hrun. run_in Hrun. bsimpl. split_and!; [done|done| |].
  - apply lookup_insert_eq.
  - unfold revision_of. simpl. by rewrite lookup_insert_eq.
Qed.

(** Reading or advancing the clock and materialising a lease record leave
    sessions and revisions alone. *)
Lemma save_if_ok clock sid st e s r s' :
  save_if_revision clock sid st (VInt e) s = (Ok r, s') →
  ∃ s1, cas_session sid st (Some e) s1 = (Ok r, s').
Proof.
  unfold save_if_revision. simpl. destruct (e <? 0); [done|].
  intros (? & s1 & _ & Hc)%M_bind_ok. eauto.
Qed.

Lemma save_fenced_ok clock sid st e eid owner token s r s' :
  save_if_revision_and_fence clock sid st (Some (VInt e)) eid owner token s = (Ok r, s') →
  ∃ s1, cas_session sid st (Some e) s1 = (Ok r, s').
Proof.
  unfold save_if_revision_and_fence.
  intros (? & s1 & _ & Hc)%M_bind_ok. apply M_bind_ok in Hc as (exp & s2 & [= Hx <-] & Hc).
  apply M_bind_ok in Hc as (? & s3 & _ & Hc). apply M_bind_ok in Hc as (? & s4 & _ & Hc).
  unfold _validate_expected_revision in Hx. destruct (e <? 0); [done|].
  injection Hx as <-. eauto.
Qed.

Lemma conditional_save_ok clock sid st e fence s v s' :
  conditional_save (in_memory clock) sid st e fence s = (Ok v, s') →
  ∃ s1 r, v = VInt r ∧ cas_session sid st (Some e) s1 = (Ok r, s').
Proof.
  destruct fence as [f|]; simpl.
  - intros (b & s0 & [= <- <-] & (r & s1 & Hs & Hv)%M_bind_ok)%M_bind_ok.
    cbv [mret M_ret] in Hv. simplify_eq. apply save_fenced_ok in Hs as [s2 Hs]. eauto.
  - intros (r & s1 & Hs & Hv)%M_bind_ok. cbv [mret M_ret] in Hv. simplify_eq. apply save_if_ok in Hs as [s2 Hs]. eauto.
Qed.

(** Round trip through the process-local store: after a successful
    [save_session_snapshot], fenced or not, [load_session_snapshot] returns
    exactly the saved snapshot, whose revision is the expected one plus one. *)
Theorem session_snapshot_roundtrip (clock : nat → pyval) (sid : pystr) (state : pyval)
    (expected : option pyval) (fence : option ExecutionFence) (s s' : store)
    (snap : SessionSnapshot) :
  save_session_snapshot (in_memory clock) sid state expected fence s = (Ok snap, s') →
  load_session_snapshot (in_memory clock) sid s' = (Ok snap, s') ∧
  ∃ e, expected = Some (VInt e) ∧ snap_revision snap = Some (e + 1).
Proof.
  unfold save_session_snapshot. destruct state as [| | | | | |d|]; try done.
  intros [[] (s1 & _ & Hrun)]%M_bind_ok. apply M_bind_ok in Hrun as (b & s0 & [= <- <-] & Hrun).
  destruct expected as [e|]; [|done].
  apply M_bind_ok in Hrun as (e' & s3 & [= He <-] & Hrun).
  apply M_bind_ok in Hrun as (next & s4 & Hcond & Hrun).
  apply conditional_save_ok in Hcond as (s2 & r & -> & (Hrev & Hr & Hst & Hrev')%cas_stored).
  apply M_bind_ok in Hrun as (r' & s5 & [= Hv <-] & Hrun).
  apply validate_revision_ok in He as [-> He]. apply validate_revision_ok in Hv as [[= ->] Hv].
  destruct (r' <=? e'); [done|]. injection Hrun as <- <-. injection Hrev as ->.
  split; [|exists (revision_of s2 sid); simpl; split; [done|congruence]].
  unfold load_session_snapshot, in_memory. unfold_monad. rewrite Hst, Hrev'. simpl.
  unfold _validate_revision. simpl. rewrite (proj2 (Z.ltb_ge r' 0)) by done. done.
Qed.

(** ** Concrete inputs *)

Definition demo_state : pydict := [(KStr (u "k"), VInt 1)].
Definition demo_fence : ExecutionFence := mkFence (u "run") (u "a") 1.
Definition demo_saved : store :=
  (save_session_snapshot (in_memory demo_clock) (u "run:child") (VDict demo_state)
     (Some (VInt 0)) (Some demo_fence) demo_acquired).2.

Lemma session_snapshot_roundtrip_witness :
  load_session_snapshot (in_memory demo_clock) (u "run:child") demo_saved
  = (Ok (mkSnapshot demo_state (Some 1)), demo_saved).
Proof.
  refine (proj1 (session_snapshot_roundtrip demo_clock (u "run:child") (VDict demo_state)
    (Some (VInt 0)) (Some demo_fence) demo_acquired demo_saved _ _)).
  vm_compute. reflexivity.
Defined.

Lemma saved_snapshot_advances_witness :
  ∃ e, Some (VInt 0) = Some (VInt e) ∧ 0 ≤ e < 1 ∧
    consistency (mkSnapshot demo_state (Some 1)) = u "compare_and_swap".
Proof.
  refine (proj2 (proj2 (saved_snapshot_advances (in_memory demo_clock) (u "run:child")
    (VDict demo_state) (Some (VInt 0)) (Some demo_fence) demo_acquired demo_saved
    (mkSnapshot demo_state (Some 1)) _))).
  vm_compute. reflexivity.
Defined.
