(* ===== verification/Durability.v ===== *)
(** * Durable-failure classification (src/unchain/durability.py)

    An exception and everything it refers to is a graph of Python objects.
    [heap] gives, for an object identity, what the classifier may read of
    that object; reading an attribute may itself raise, which is
    [AUnreadable]. *)

From S2P Require Import Prelude.

(** [id(obj)] *)
Abbreviation exc_id := nat.

(** What reading a single attribute of an exception yields. *)
Inductive attr : Type :=
| AUnreadable
| ANotException
| AException (e : exc_id).

Inductive marker_attr : Type :=
| MUnreadable
| MTrue
| MOther.

(** The [exceptions] attribute of an exception group; [GBroken] is a tuple
    whose inspection raises, and an item that is no exception is [None]. *)
Inductive group_attr : Type :=
| GUnreadable
| GNotTuple
| GBroken
| GTuple (items : list (option exc_id)).

Record exc_node : Type := mkNode {
  (** instance of [DurablePersistenceBoundaryError] *)
  is_boundary : bool;
  (** instance of [DurablePersistenceTraversalExhaustedError] *)
  is_exhausted : bool;
  marker : marker_attr;
  (** setting the marker and reading it back gives a true value *)
  accepts_marker : bool;
  original : attr;
  real : attr;
  last_error : attr;
  cause : attr;
  context : attr;
  is_group : bool;
  exceptions : group_attr;
}.

Definition MAX_DURABLE_FAILURE_TRAVERSAL_NODES : nat := 1024.
Definition MAX_DURABLE_FAILURE_TRAVERSAL_DEPTH : nat := 32.
#[global] Opaque MAX_DURABLE_FAILURE_TRAVERSAL_NODES MAX_DURABLE_FAILURE_TRAVERSAL_DEPTH.

(** The five attributes, in the order the code reads them. *)
Definition link_attrs (n : exc_node) : list attr :=
  [original n; real n; last_error n; cause n; context n].

Definition attr_exceptions (l : list attr) : list exc_id :=
  omap (λ a, match a with AException e => Some e | _ => None end) l.

#[global] Arguments attr_exceptions : simpl never.

Definition attr_unreadable (l : list attr) : bool :=
  existsb (λ a, match a with AUnreadable => true | _ => false end) l.

(** The prefix of the tuple and whether it was cut; [limit] is non-negative. *)
Definition _safe_tuple_prefix (g : list (option exc_id)) (limit : nat)
    : list (option exc_id) * bool :=
  (take limit g, limit <? length g).

(** [durable n]: the test that ends the search. *)
Definition durable_node (n : exc_node) : bool :=
  is_boundary n || is_exhausted n ||
  (match marker n with MTrue => true | _ => false end).

(** Candidates the code appends for an exception group, with the truncation flag. *)
Definition group_candidates (n : exc_node) (limit : nat) : list exc_id * bool :=
  if is_group n then
    match exceptions n with
    | GUnreadable => ([], true)
    | GNotTuple => ([], false)
    | GBroken => ([], true)
    | GTuple items =>
        let '(prefix, cut) := _safe_tuple_prefix items limit in (omap id prefix, cut)
    end
  else ([], false).

(** [unique_candidates]: in order, without the visited, the queued and the
    repeated ones. *)
Fixpoint unique_from (seen : gset exc_id) (l : list exc_id) : list exc_id :=
  match l with
  | [] => []
  | c :: l' => if decide (c ∈ seen) then unique_from seen l'
               else c :: unique_from ({[c]} ∪ seen) l'
  end.

Definition nonempty_list {A} (l : list A) : bool := match l with [] => false | _ => true end.

(** The loop's variables.  [pending] is a stack whose top is its head: the
    code appends the reversed candidates and pops from the end. *)
Record search : Type := mkSearch {
  pending : list (exc_id * nat);
  queued : gset exc_id;
  visited : gset exc_id;
  visited_nodes : nat;
  truncated : bool;
}.

Inductive finding : Type :=
| Found (e : exc_id)
| TraversalExhausted
| NotFound.

Section search.
Variable heap : exc_id → exc_node.

(** One turn of the [while] loop on the popped entry. *)
Definition search_step (current : exc_id) (depth : nat) (rest : list (exc_id * nat))
    (st : search) : exc_id + search :=
  let queued := queued st ∖ {[current]} in
  if decide (current ∈ visited st) then
    inr (mkSearch rest queued (visited st) (visited_nodes st) (truncated st))
  else
    let visited := {[current]} ∪ visited st in
    let visited_nodes := S (visited_nodes st) in
    let n := heap current in
    if durable_node n then inl current
    else
      let t1 := truncated st || (match marker n with MUnreadable => true | _ => false end) in
      let t2 := t1 || attr_unreadable (link_attrs n) in
      let slots := MAX_DURABLE_FAILURE_TRAVERSAL_NODES - visited_nodes - length rest in
      let '(group, cut) := group_candidates n slots in
      let t3 := t2 || cut in
      let candidates := attr_exceptions (link_attrs n) ++ group in
      let unique := unique_from (visited ∪ queued) candidates in
      if MAX_DURABLE_FAILURE_TRAVERSAL_DEPTH <=? depth then
        inr (mkSearch rest queued visited visited_nodes
               (t3 || nonempty_list unique))
      else
        let valid := take slots unique in
        inr (mkSearch (((λ c, (c, S depth)) <$> valid) ++ rest)
               (queued ∪ list_to_set valid) visited visited_nodes
               (t3 || (slots <? length unique))).

(** The loop, for at most [fuel] turns; [None] when the fuel runs out. *)
Fixpoint search_loop (fuel : nat) (st : search) : option finding :=
  match fuel with
  | 0 => None
  | S fuel =>
      match pending st with
      | [] => Some (if truncated st then TraversalExhausted else NotFound)
      | (current, depth) :: rest =>
          if visited_nodes st <? MAX_DURABLE_FAILURE_TRAVERSAL_NODES then
            match search_step current depth rest st with
            | inl e => Some (Found e)
            | inr st' => search_loop fuel st'
            end
          else Some TraversalExhausted
      end
  end.

Definition initial_search (e : exc_id) : search := mkSearch [(e, 0)] {[e]} ∅ 0 false.

(** One turn per visited node, and one more to see the empty stack. *)
Definition find_durable_persistence_failure (e : exc_id) : option finding :=
  search_loop (S MAX_DURABLE_FAILURE_TRAVERSAL_NODES) (initial_search e).

Definition is_durable_persistence_failure (e : exc_id) : bool :=
  match find_durable_persistence_failure e with
  | Some NotFound => false
  | _ => true
  end.

(** ** The reference notion: reachability in the exception graph *)

Definition full_group (n : exc_node) : list exc_id :=
  if is_group n then match exceptions n with GTuple items => omap id items | _ => [] end else [].

Definition links (e : exc_id) : list exc_id :=
  attr_exceptions (link_attrs (heap e)) ++ full_group (heap e).

Definition refers (e e' : exc_id) : Prop := e' ∈ links e.

(** ** The loop invariant *)

Record search_ok (root : exc_id) (st : search) : Prop := {
  so_nodup : NoDup (pending st).*1;
  so_queued : ∀ e, e ∈ queued st ↔ e ∈ (pending st).*1;
  so_disjoint : ∀ e, e ∈ (pending st).*1 → e ∉ visited st;
  so_count : visited_nodes st = size (visited st);
  so_bound : visited_nodes st + length (pending st) ≤ MAX_DURABLE_FAILURE_TRAVERSAL_NODES;
  so_reach : ∀ e, e ∈ visited st ∨ e ∈ (pending st).*1 → rtc refers root e;
  so_complete : truncated st = false →
    (root ∈ visited st ∨ root ∈ (pending st).*1) ∧
    ∀ e, e ∈ visited st → durable_node (heap e) = false ∧
      ∀ e', refers e e' → e' ∈ visited st ∨ e' ∈ (pending st).*1;
}.

Lemma elem_of_unique_from seen l c :
  c ∈ unique_from seen l ↔ c ∈ l ∧ c ∉ seen.
Proof.
  revert seen. induction l as [|d l IH]; intros seen; simpl; [set_solver|].
  case_decide as Hd.
  - rewrite IH. set_solver.
  - rewrite !elem_of_cons, IH, elem_of_union, elem_of_singleton.
    destruct (decide (c = d)); naive_solver.
Qed.

Lemma unique_from_NoDup seen l : NoDup (unique_from seen l).
Proof.
  revert seen. induction l as [|d l IH]; intros seen; simpl; [constructor|].
  case_decide; [apply IH|]. constructor; [|apply IH].
  rewrite elem_of_unique_from. set_solver.
Qed.

Lemma omap_id_take (l : list (option exc_id)) n e :
  e ∈ omap id (take n l) → e ∈ omap id l.
Proof.
  rewrite !list_elem_of_omap. intros (x & (i & Hi & _)%elem_of_take & ?).
  exists x. split; [|done]. apply list_elem_of_lookup. eauto.
Qed.

Lemma group_candidates_sound n limit e :
  e ∈ (group_candidates n limit).1 → e ∈ full_group n.
Proof.
  unfold group_candidates, full_group. destruct (is_group n); [|done].
  destruct (exceptions n); simpl; try set_solver. apply omap_id_take.
Qed.

Lemma group_candidates_complete n limit e :
  (group_candidates n limit).2 = false → e ∈ full_group n → e ∈ (group_candidates n limit).1.
Proof.
  unfold group_candidates, full_group. destruct (is_group n); [|done].
  destruct (exceptions n) as [| | |items]; simpl; try done.
  intros Hcut%Nat.ltb_ge. by rewrite take_ge.
Qed.

(** What one turn on a node that is not durable adds to the stack, and what
    it knows about it. *)
Lemma step_candidates root current depth rest st :
  search_ok root st → pending st = (current, depth) :: rest →
  durable_node (heap current) = false →
  let slots := MAX_DURABLE_FAILURE_TRAVERSAL_NODES - S (visited_nodes st) - length rest in
  let vis := {[current]} ∪ visited st in
  let uniq := unique_from (vis ∪ queued st ∖ {[current]})
    (attr_exceptions (link_attrs (heap current)) ++ (group_candidates (heap current) slots).1) in
  (∀ e, e ∈ uniq → (e ∉ vis) ∧ (e ∉ rest.*1) ∧ rtc refers root e) ∧
  (truncated st = false → (group_candidates (heap current) slots).2 = false →
   (root ∈ vis ∨ root ∈ rest.*1) ∧
   ∀ e, e ∈ vis → durable_node (heap e) = false ∧
     ∀ e', refers e e' → e' ∈ vis ∨ e' ∈ rest.*1 ∨ e' ∈ uniq).
Proof.
  intros Hok Hp Hdur slots vis uniq. destruct Hok as [Hnd Hq Hdis _ _ Hre Hco].
  rewrite Hp, fmap_cons in *. apply NoDup_cons in Hnd as [Hcur Hnd]. cbn [fst] in *.
  assert (∀ e, e ∈ queued st ∖ {[current]} ↔ e ∈ rest.*1) as Hq'.
  { intros e. rewrite elem_of_difference, Hq, elem_of_cons, elem_of_singleton.
    destruct (decide (e = current)); naive_solver. }
  split.
  - intros e [He Hn]%elem_of_unique_from. rewrite elem_of_union, Hq' in Hn.
    split_and!; [tauto|tauto|]. apply (rtc_r _ current); [apply Hre; right; set_solver|].
    unfold refers, links. rewrite elem_of_app in He |- *. destruct He as [|He]; [by left|right].
    by eapply group_candidates_sound.
  - intros Htr Hcut. destruct (Hco Htr) as [Hroot Hcl]. split; [set_solver|].
    intros e [->%elem_of_singleton|He]%elem_of_union.
    + split; [done|]. intros e' Href.
      destruct (decide (e' ∈ vis)); [by left|]. destruct (decide (e' ∈ rest.*1)); [auto|].
      right. right. apply elem_of_unique_from. rewrite elem_of_union, Hq'. split; [|tauto].
      unfold refers, links in Href. rewrite elem_of_app in Href |- *.
      destruct Href as [|Hfg]; [by left|right]. by apply group_candidates_complete.
    + destruct (Hcl e He) as [? Hx]. split; [done|]. intros e' Href.
      specialize (Hx e' Href). set_solver.
Qed.

(** The state after a turn on [current]: [valid] of the new candidates are
    pushed, and either all of them or the truncation is recorded. *)
Lemma push_ok root current depth rest st valid vis q tr :
  search_ok root st → pending st = (current, depth) :: rest →
  vis = {[current]} ∪ visited st →
  NoDup valid → length valid + S (visited_nodes st) + length rest
    ≤ MAX_DURABLE_FAILURE_TRAVERSAL_NODES →
  (∀ e, e ∈ valid → (e ∉ vis) ∧ (e ∉ rest.*1) ∧ rtc refers root e) →
  (∀ e, e ∈ q ↔ e ∈ queued st ∖ {[current]} ∨ e ∈ valid) →
  (tr = false → (root ∈ vis ∨ root ∈ rest.*1) ∧
     ∀ e, e ∈ vis → durable_node (heap e) = false ∧
       ∀ e', refers e e' → e' ∈ vis ∨ e' ∈ rest.*1 ∨ e' ∈ valid) →
  search_ok root (mkSearch (((λ c, (c, S depth)) <$> valid) ++ rest) q vis
                    (S (visited_nodes st)) tr).
Proof.
  intros [Hnd Hq Hdis Hcnt Hbd Hre Hco] Hp -> Hv Hlen Hval Hqq Htr.
  rewrite Hp, fmap_cons in *. apply NoDup_cons in Hnd as [Hcur Hnd]. cbn [fst] in *.
  assert (current ∉ visited st) as Hnew by (apply Hdis; set_solver).
  assert ((((λ c, (c, S depth)) <$> valid) ++ rest).*1 = valid ++ rest.*1) as Hf.
  { rewrite fmap_app, <-list_fmap_compose. f_equal. apply list_fmap_id. }
  split; cbn [pending queued visited visited_nodes truncated]; rewrite ?Hf.
  - apply NoDup_app. split_and!; [done|intros e He; by apply Hval|done].
  - intros e. rewrite Hqq, elem_of_difference, Hq, elem_of_cons, elem_of_singleton, elem_of_app.
    destruct (decide (e = current)); naive_solver.
  - intros e [He|He]%elem_of_app; [by apply Hval|].
    intros [->%elem_of_singleton|Hx]%elem_of_union; [done|].
    apply (Hdis e); [set_solver|done].
  - rewrite size_union, size_singleton; [by rewrite Hcnt|]. set_solver.
  - rewrite length_app, length_fmap. lia.
  - intros e. rewrite elem_of_app. intros [He|[(_ & _ & ?)%Hval|He]]; [|done|];
      apply Hre; set_solver.
  - intros Ht. destruct (Htr Ht) as [Hroot Hcl]. rewrite elem_of_app. split; [tauto|].
    intros e He. destruct (Hcl e He) as [? Hx]. split; [done|].
    intros e' He'. specialize (Hx e' He'). rewrite elem_of_app. tauto.
Qed.

(** One turn keeps the invariant and visits a node that was not visited. *)
Lemma search_step_ok root current depth rest st st' :
  search_ok root st → pending st = (current, depth) :: rest →
  visited_nodes st < MAX_DURABLE_FAILURE_TRAVERSAL_NODES →
  search_step current depth rest st = inr st' →
  search_ok root st' ∧ visited_nodes st' = S (visited_nodes st).
Proof.
  intros Hok Hp Hlt Hstep. pose proof (step_candidates _ _ _ _ _ Hok Hp) as Hc.
  pose proof (so_bound _ _ Hok) as Hbd. rewrite Hp in Hbd. cbn [length] in Hbd.
  assert (current ∉ visited st) as Hnew
    by (apply (so_disjoint _ _ Hok); rewrite Hp; apply list_elem_of_here).
  unfold search_step in Hstep. rewrite decide_False in Hstep by done.
  destruct (durable_node (heap current)) eqn:Hdur; [done|]. specialize (Hc eq_refl). cbv zeta in Hc.
  set (slots := MAX_DURABLE_FAILURE_TRAVERSAL_NODES - S (visited_nodes st) - length rest) in *.
  destruct (group_candidates (heap current) slots) as [group cut] eqn:Hg. cbn [fst snd] in Hc.
  set (vis := {[current]} ∪ visited st) in *.
  set (uniq := unique_from (vis ∪ queued st ∖ {[current]}) _) in *.
  destruct Hc as [Huniq Hclosed].
  case_match; injection Hstep as <-; (split; [|done]).
  - apply (push_ok root current depth rest st []); try done; try (cbn; lia);
      [constructor|set_solver|set_solver|].
    intros Htr. bsimpl. destruct (Hclosed ltac:(done) ltac:(done)) as [? Hcl].
    split; [done|]. by destruct uniq.
  - apply (push_ok root current depth rest st (take slots uniq)); try done.
    + eapply sublist_NoDup; [apply unique_from_NoDup|apply sublist_take].
    + rewrite length_take. lia.
    + intros e He. apply Huniq. rewrite <-(take_drop slots uniq). set_solver.
    + intros e. rewrite elem_of_union, elem_of_list_to_set. done.
    + intros Htr. bsimpl.
      match goal with H : (_ <? _) = false |- _ => apply Nat.ltb_ge in H end.
      rewrite take_ge by done. by apply Hclosed.
Qed.

Lemma initial_search_ok e : search_ok e (initial_search e).
Proof.
  split; cbn [initial_search pending queued visited visited_nodes truncated fst fmap list_fmap].
  - apply NoDup_singleton.
  - intros e'. rewrite elem_of_singleton. cbn. by rewrite list_elem_of_singleton.
  - set_solver.
  - done.
  - by apply Nat.leb_le.
  - cbn. intros e' [?| ->%list_elem_of_singleton]; [set_solver|reflexivity].
  - cbn. rewrite list_elem_of_singleton. split; [auto|]. intros e' He'. set_solver.
Qed.

(** What a finished search means. *)
Definition finding_ok (root : exc_id) (f : finding) : Prop :=
  match f with
  | Found e => rtc refers root e ∧ durable_node (heap e) = true
  | TraversalExhausted => True
  | NotFound => ∀ e, rtc refers root e → durable_node (heap e) = false
  end.

Lemma closed_covers root st :
  search_ok root st → pending st = [] → truncated st = false →
  ∀ e, rtc refers root e → durable_node (heap e) = false.
Proof.
  intros Hok Hp Htr e Hre. destruct (so_complete _ _ Hok Htr) as [Hroot Hcl].
  rewrite Hp in *. apply rtc_ind_r with (P := λ e, e ∈ visited st) in Hre.
  - by apply Hcl.
  - destruct Hroot as [|H]; [done|by apply elem_of_nil in H].
  - intros x y _ Hxy Hx. destruct (Hcl x Hx) as [_ Hn].
    destruct (Hn y Hxy) as [|H]; [done|by apply elem_of_nil in H].
Qed.

Lemma search_loop_ok root fuel st :
  search_ok root st → MAX_DURABLE_FAILURE_TRAVERSAL_NODES < fuel + visited_nodes st →
  ∃ f, search_loop fuel st = Some f ∧ finding_ok root f.
Proof.
  revert st. induction fuel as [|fuel IH]; intros st Hok Hf.
  { destruct Hok; lia. }
  simpl. destruct (pending st) as [|[current depth] rest] eqn:Hp.
  { eexists. split; [done|]. destruct (truncated st) eqn:Htr; [done|].
    simpl. by eapply closed_covers. }
  destruct (_ <? _) eqn:Hlt; [apply Nat.ltb_lt in Hlt|by eexists].
  destruct (search_step current depth rest st) as [e|st'] eqn:Hs.
  - eexists. split; [done|]. unfold search_step in Hs.
    rewrite decide_False in Hs
      by (apply (so_disjoint _ _ Hok); rewrite Hp; apply list_elem_of_here).
    repeat case_match; simplify_eq. split; [|done].
    apply (so_reach _ _ Hok). right. rewrite Hp. apply list_elem_of_here.
  - destruct (search_step_ok _ _ _ _ _ _ Hok Hp Hlt Hs) as [Hok' Hv].
    apply IH; [done|lia].
Qed.

Lemma find_ok e : ∃ f, find_durable_persistence_failure e = Some f ∧ finding_ok e f.
Proof.
  apply search_loop_ok; [apply initial_search_ok|]. simpl.
  rewrite Nat.add_0_r. apply Nat.lt_succ_diag_r.
Qed.

(** C39. The classifier is total on every exception graph, cyclic or hostile
    ones included, and visits at most 1024 nodes: it returns a durable
    failure the error really refers to, or gives up fail-closed, or reports
    that nothing is durable, and then no exception reachable through
    [original], [real], [last_error], [__cause__], [__context__] or a group
    is one. *)
Theorem durable_search_total_and_exact (e : exc_id) :
  match find_durable_persistence_failure e with
  | Some (Found f) => rtc refers e f ∧ durable_node (heap f) = true
  | Some TraversalExhausted => is_durable_persistence_failure e = true
  | Some NotFound => ∀ f, rtc refers e f → durable_node (heap f) = false
  | None => False
  end.
Proof.
  unfold is_durable_persistence_failure.
  destruct (find_ok e) as (f & -> & Hf). by destruct f.
Qed.

Lemma reaches_durable e f :
  durable_node (heap f) = true → rtc refers e f → is_durable_persistence_failure e = true.
Proof.
  intros Hd Hr. unfold is_durable_persistence_failure.
  destruct (find_ok e) as (r & -> & Hf). destruct r; try done.
  specialize (Hf f Hr). congruence.
Qed.

(** The classifier fails closed: whenever a durable persistence failure
    is reachable from the error, however deep or wide the graph, the error
    is classified as one (callers then never retry it or turn it into a
    result). *)
Theorem durable_failure_is_never_missed (e f : exc_id) :
  rtc refers e f → durable_node (heap f) = true →
  is_durable_persistence_failure e = true.
Proof.
  intros Hr Hd. by apply reaches_durable with f.
Qed.
End search.

(** ** Marking *)

Definition set_marker (n : exc_node) : exc_node :=
  mkNode (is_boundary n) (is_exhausted n) MTrue (accepts_marker n)
    (original n) (real n) (last_error n) (cause n) (context n) (is_group n) (exceptions n).

(** [DurablePersistenceBoundaryError(original)], raised nowhere yet. *)
Definition DurablePersistenceBoundaryError (e : exc_id) : exc_node :=
  mkNode true false MOther true (AException e) ANotException ANotException
    ANotException ANotException false GNotTuple.

Definition upd (heap : exc_id → exc_node) (e : exc_id) (n : exc_node) : exc_id → exc_node :=
  λ e', if decide (e' = e) then n else heap e'.

(** [fresh] is the identity of the wrapper, should one be allocated. *)
Definition mark_durable_persistence_failure (heap : exc_id → exc_node) (fresh e : exc_id)
    : exc_id * (exc_id → exc_node) :=
  if is_boundary (heap e) then (e, heap)
  else if accepts_marker (heap e) then (e, upd heap e (set_marker (heap e)))
  else (fresh, upd heap fresh (DurablePersistenceBoundaryError e)).

(** A marked failure is recognised: what [mark_durable_persistence_failure]
    returns is classified as durable, it is the error itself or a wrapper whose
    [original] is the error, and every exception that refers to it is
    classified as durable as well. *)
Theorem marked_failure_is_recognised (heap : exc_id → exc_node) (fresh e : exc_id) :
  let '(e', heap') := mark_durable_persistence_failure heap fresh e in
  (e' = e ∨ original (heap' e') = AException e) ∧
  ∀ outer, rtc (refers heap') outer e' → is_durable_persistence_failure heap' outer = true.
Proof.
  unfold mark_durable_persistence_failure.
  destruct (is_boundary (heap e)) eqn:Hb.
  { split; [auto|]. intros outer. apply reaches_durable. unfold durable_node. by rewrite Hb. }
  destruct (accepts_marker (heap e)).
  - split; [auto|]. intros outer. apply reaches_durable. unfold upd. rewrite decide_True by done.
    unfold durable_node. simpl. apply orb_true_r.
  - split; [right; unfold upd; by rewrite decide_True|]. intros outer. apply reaches_durable.
    unfold upd. by rewrite decide_True.
Qed.

(** ** Concrete inputs *)

Definition plain_node : exc_node :=
  mkNode false false MOther true ANotException ANotException ANotException
    ANotException ANotException false GNotTuple.

(** A cyclic graph: 0 is a group of 1 and 2; 1's cause is 0; 2's
    [last_error] is 3, which is marked. *)
Definition demo_heap (e : exc_id) : exc_node :=
  match e with
  | 0 => mkNode false false MOther true ANotException ANotException ANotException
           ANotException ANotException true (GTuple [Some 1; None; Some 2])
  | 1 => mkNode false false MOther true ANotException ANotException ANotException
           (AException 0) ANotException false GNotTuple
  | 2 => mkNode false false MOther false ANotException ANotException (AException 3)
           ANotException ANotException false GNotTuple
  | 3 => set_marker plain_node
  | _ => plain_node
  end.

Example demo_found : find_durable_persistence_failure demo_heap 0 = Some (Found 3).
Proof. vm_compute. reflexivity. Qed.

Example demo_unreadable :
  find_durable_persistence_failure
    (λ e, mkNode false false MUnreadable true ANotException ANotException ANotException
            ANotException ANotException false GNotTuple) 0 = Some TraversalExhausted.
Proof. vm_compute. reflexivity. Qed.

Example demo_depth :
  find_durable_persistence_failure
    (λ e, mkNode false false MOther true ANotException ANotException ANotException
            (AException (S e)) ANotException false GNotTuple) 0 = Some TraversalExhausted.
Proof. vm_compute. reflexivity. Qed.

Lemma durable_failure_is_never_missed_witness :
  is_durable_persistence_failure demo_heap 0 = true.
Proof.
  apply (durable_failure_is_never_missed demo_heap 0 3); [|reflexivity].
  apply (rtc_l _ 0 2); [unfold refers; apply (bool_decide_unpack _); vm_compute; exact I|].
  apply (rtc_l _ 2 3); [unfold refers; apply (bool_decide_unpack _); vm_compute; exact I|].
  reflexivity.
Defined.
