(* ===== verification/Retry.v ===== *)
(** * Retry of provider calls (src/unchain/retry)

    The classifier, the back-off, the attempt loop and the wrapper that
    refuses to replay an attempt whose output the user has already seen.

    A caught exception is a [pyexc]: its identity, under which the durability
    classifier finds the exception graph in [heap], its class as far as the
    classifier tells classes apart, and its [response].  The operation and
    the callbacks are computations over an arbitrary world [S] that may raise
    any [pyexc]; the executor is a function of them. *)

From S2P Require Import Prelude PyVal Durability.

(** ** [int(str)] *)

(** The code points of the digit zero in every script (Unicode 15, Python 3.12);
    the nine that follow each are the other digits. *)
Definition decimal_zeros : list N :=
  [48; 1632; 1776; 1984; 2406; 2534; 2662; 2790; 2918; 3046; 3174; 3302; 3430;
   3558; 3664; 3792; 3872; 4160; 4240; 6112; 6160; 6470; 6608; 6784; 6800; 6992;
   7088; 7232; 7248; 42528; 43216; 43264; 43472; 43504; 43600; 44016; 65296;
   66720; 68912; 69734; 69872; 69942; 70096; 70384; 70736; 70864; 71248; 71360;
   71472; 71904; 72016; 72784; 73040; 73120; 73552; 92768; 92864; 93008; 120782;
   120792; 120802; 120812; 120822; 123200; 123632; 124144; 125264; 130032]%N.

Definition digit_value (c : N) : option Z :=
  match list_find (λ z, (z ≤ c < z + 10)%N) decimal_zeros with
  | Some (_, z) => Some (Z.of_N (c - z))
  | None => None
  end.

(** Digits with single underscores between them; [acc] is the value of the
    [n] digits read so far. *)
Fixpoint digits_from (s : pystr) (acc : Z) (n : nat) : option (Z * nat) :=
  match s with
  | [] => Some (acc, n)
  | c :: s' =>
      match digit_value c with
      | Some d => digits_from s' (10 * acc + d) (S n)
      | None =>
          match s' with
          | c' :: s'' =>
              if (c =? 95)%N && (0 <? n) then
                match digit_value c' with
                | Some d => digits_from s'' (10 * acc + d) (S n)
                | None => None
                end
              else None
          | [] => None
          end
      end
  end.

Definition unsigned_int (s : pystr) : option Z :=
  match digits_from s 0 0 with
  | Some (z, n) => if (0 <? n) && (n <=? 4300) then Some z else None
  | None => None
  end.

(** [int(s)] in base ten; [None] when it raises [ValueError] (more than 4300
    digits included). *)
Definition int_of_str (s : pystr) : option Z :=
  match strip s with
  | c :: s' =>
      if (c =? 43)%N then unsigned_int s'
      else if (c =? 45)%N then Z.opp <$> unsigned_int s'
      else unsigned_int (c :: s')
  | [] => None
  end.

(** ** Exceptions as the classifier sees them *)

(** [response.headers]: absent, an object without [get], or what
    [headers.get("retry-after")] returns. *)
Inductive headers : Type :=
| NoHeaders
| HeadersWithoutGet
| Headers (retry_after : option pystr).

Record response : Type := mkResponse {
  (** the integer [status_code], if there is one *)
  status_code : option Z;
  response_headers : headers;
}.

Inductive exc_class : Type :=
(** [ConnectError], [ConnectTimeout], [ReadTimeout], [WriteTimeout],
    [PoolTimeout], [RemoteProtocolError] of httpx *)
| HttpxTransport
(** [httpx.HTTPStatusError], whose constructor requires a response *)
| HttpxStatus (status : Z)
(** [APIConnectionError], [APITimeoutError], [APIStatusError] of an SDK *)
| AnthropicConnection
| AnthropicStatus (status : option Z)
| OpenaiConnection
| OpenaiStatus (status : option Z)
| OtherException.

Record pyexc : Type := mkExc {
  exc_ref : exc_id;
  exc_kind : exc_class;
  exc_response : option response;
}.

Definition in_retryable_status_codes (s : Z) : bool :=
  (s =? 408)%Z || (s =? 409)%Z || (s =? 429)%Z || (s =? 529)%Z
  || ((500 <=? s)%Z && (s <? 600)%Z).

Record RetryConfig : Type := mkRetryConfig {
  max_retries : Z;
  base_delay_ms : Z;
  max_delay_ms : Z;
  jitter_ratio : spec_float;
}.

(** The defaults: 10, 500, 32000 and 0.25. *)
Definition default_retry_config : RetryConfig :=
  mkRetryConfig 10 500 32000 (S754_finite false 4503599627370496 (-54)).

Record RetryAttempt : Type := mkRetryAttempt {
  attempt : Z;
  attempt_error : pyexc;
  delay_ms : Z;
  attempt_max_retries : Z;
}.

(** What a call of the executor may raise. *)
Inductive retry_exn : Type :=
| Raised (e : pyexc)
| RetriesExhaustedError (last_error : pyexc) (attempts : Z)
| AssertionError
| ValueError
| OverflowError.

Definition map_err {S E E' A} (f : E → E') (m : M S E A) : M S E' A :=
  λ s, match m s with (Ok a, s') => (Ok a, s') | (Err e, s') => (Err (f e), s') end.

(** An optional callback. *)
Definition optional {S E A} (cb : option A) (call : A → M S E unit) : M S E unit :=
  match cb with None => mret tt | Some f => call f end.

Section classifier.
Variable heap : exc_id → exc_node.
(** whether [import anthropic] and [import openai] succeed *)
Variables anthropic_installed openai_installed : bool.

Definition is_retryable (error : pyexc) : bool :=
  if is_durable_persistence_failure heap (exc_ref error) then false
  else match exc_kind error with
       | HttpxTransport => true
       | HttpxStatus s => in_retryable_status_codes s
       | AnthropicConnection => anthropic_installed
       | AnthropicStatus s =>
           anthropic_installed && from_option in_retryable_status_codes false s
       | OpenaiConnection => openai_installed
       | OpenaiStatus s =>
           openai_installed && from_option in_retryable_status_codes false s
       | OtherException => false
       end.

Definition extract_retry_after_ms (error : pyexc) : option Z :=
  match exc_response error with
  | None => None
  | Some r =>
      match response_headers r with
      | NoHeaders | HeadersWithoutGet => None
      | Headers value =>
          match value with
          | None => None
          | Some v =>
              if nonempty v then
                match int_of_str v with
                | None => None
                | Some seconds => if (seconds <? 0)%Z then None else Some (seconds * 1000)%Z
                end
              else None
          end
      end
  end.

Definition _failure_outcome (error : pyexc) : pystr :=
  match exc_response error with
  | Some (mkResponse (Some _) _) => u "failed"
  | _ => u "uncertain"
  end.

(** ** Back-off *)

Definition backoff_base (n : Z) (config : RetryConfig) : Z :=
  Z.min (base_delay_ms config * 2 ^ (n - 1)) (max_delay_ms config).

(** [random] is what [random.random()] returned; it is called only when there
    is no [retry_after_ms]. *)
Definition compute_delay_ms (random : spec_float) (n : Z) (config : RetryConfig)
    (retry_after_ms : option Z) : result retry_exn Z :=
  if (n <? 1)%Z then Err ValueError
  else match retry_after_ms with
  | Some ms => Ok (Z.max 0 (Z.min ms (max_delay_ms config)))
  | None =>
      let base := float_of_Z (backoff_base n config) in
      match base with
      | S754_infinity _ => Err OverflowError
      | _ =>
          let jitter := SFmul prec emax (SFmul prec emax random (jitter_ratio config)) base in
          match SFadd prec emax base jitter with
          | S754_nan => Err ValueError
          | S754_infinity _ => Err OverflowError
          | f => Ok (from_option id 0%Z (Z_of_float f))
          end
      end
  end.

(** ** The attempt loop *)

Section executor.
Context {S T : Type}.
Variable operation : M S pyexc T.
Variable config : RetryConfig.
Variable on_retry : option (RetryAttempt → M S pyexc unit).
Variable sleep : spec_float → M S pyexc unit.
Variable should_stop : option (M S pyexc bool).
Variable before_attempt : option (Z → M S pyexc unit).
(** attempt number, completion time, outcome, disposition *)
Variable after_attempt : option (Z → pystr → pystr → pystr → M S pyexc unit).
(** the readings of the clock and of the random generator *)
Variable _completed_at : M S pyexc pystr.
Variable random : M S pyexc spec_float.

Definition report (n : Z) (outcome disposition : pystr) : M S retry_exn unit :=
  match after_attempt with
  | None => mret tt
  | Some f => map_err Raised (at_ ← _completed_at; f n at_ outcome disposition)
  end.

(** The body of the [except] clause after a retryable failure, up to the next
    attempt: [Ok tt] goes on with the loop. *)
Definition wait_for_retry (n : Z) (exc : pyexc) : M S retry_exn unit :=
  stop ← match should_stop with None => mret false | Some f => map_err Raised f end;
  if (stop : bool) then raise (Raised exc)
  else
    rnd ← match extract_retry_after_ms exc with
          | Some _ => mret (S754_zero false)
          | None => map_err Raised random
          end;
    delay ← lift (compute_delay_ms rnd (n + 1) config (extract_retry_after_ms exc));
    optional on_retry (λ f, map_err Raised (f (mkRetryAttempt (n + 1) exc delay (max_retries config))));;
    map_err Raised (sleep (SFdiv prec emax (float_of_Z delay) (float_of_Z 1000))).

(** [for attempt_number in range(config.max_retries + 1)]: [todo] turns are
    left and [n] is the attempt number. *)
Fixpoint attempts_from (todo : nat) (n : Z) (last_error : option pyexc) : M S retry_exn T :=
  match todo with
  | 0 =>
      match last_error with
      | None => raise AssertionError
      | Some e => raise (RetriesExhaustedError e (max_retries config))
      end
  | Datatypes.S todo =>
      optional before_attempt (λ f, map_err Raised (f n));;
      (λ s,
        match operation s with
        | (Ok r, s') => (report n (u "completed") (u "success");; mret r) s'
        | (Err exc, s') =>
            let retryable := is_retryable exc in
            (report n (_failure_outcome exc) (if retryable then u "retryable" else u "terminal");;
             if negb retryable then raise (Raised exc)
             else if (max_retries config <=? n)%Z then
               raise (RetriesExhaustedError exc (max_retries config))
             else wait_for_retry n exc;; attempts_from todo (n + 1) (Some exc)) s'
        end) : M S retry_exn T
  end.

Definition execute_with_retry : M S retry_exn T :=
  attempts_from (Z.to_nat (max_retries config + 1)) 0 None.
End executor.
End classifier.

(** ** The first-visible-event gate *)

(** Replaying could duplicate visible output.  The [str] of a [type] that is
    not a string is neither of the two names. *)
Definition _event_commits_user_visible_output (event : pyval) : bool :=
  match event with
  | VDict d =>
      match dict_get d (KStr (u "type")) with
      | Some (VStr s) =>
          negb (bool_decide (s ∈ [u "previous_response_id_fallback"; u "request_messages"]))
      | _ => true
      end
  | _ => true
  end.

(** A call of [model_io.fetch_turn], as an interaction: the provider hands
    over events, sees whether the callback raised, and finally returns or
    raises.  It reaches the callback in no other way. *)
#[universes(template)]
Inductive turn (W T : Type) : Type :=
| TReturn (r : result pyexc T) (w : W)
| TEmit (w : W) (event : pyval) (resume : result pyexc unit → W → turn W T).
Arguments TReturn {W T} r w.
Arguments TEmit {W T} w event resume.

(** The provider's call with a callback that also has a state [C] of its own. *)
Fixpoint run_turn {W T C} (callback : pyval → M (W * C) pyexc unit) (t : turn W T) (c : C)
    : result pyexc T * (W * C) :=
  match t with
  | TReturn r w => (r, (w, c))
  | TEmit w event resume =>
      let '(r, (w', c')) := callback event (w, c) in run_turn callback (resume r w') c'
  end.

(** The events the callback received. *)
Fixpoint turn_events {W T C} (callback : pyval → M (W * C) pyexc unit) (t : turn W T) (c : C)
    : list pyval :=
  match t with
  | TReturn _ _ => []
  | TEmit w event resume =>
      let '(r, (w', c')) := callback event (w, c) in
      event :: turn_events callback (resume r w') c'
  end.

(** A callback of the outer world, called from a world with one more cell. *)
Definition outer {W C E A} (m : M W E A) : M (W * C) E A := zoom fst (λ w s, (w, s.2)) m.

Section wrapper.
Variable heap : exc_id → exc_node.
Variables anthropic_installed openai_installed : bool.
Context {W T : Type}.
(** [model_io.fetch_turn(request)]; the flag says whether the request carries
    a callback. *)
Variable fetch_turn : bool → W → turn W T.
Variable original_callback : option (pyval → M W pyexc unit).
Variable config : RetryConfig.
Variable on_retry : option (RetryAttempt → M W pyexc unit).
Variable sleep : spec_float → M W pyexc unit.
Variable before_attempt : option (Z → M W pyexc unit).
Variable after_attempt : option (Z → pystr → pystr → pystr → M W pyexc unit).
Variable _completed_at : M W pyexc pystr.
Variable random : M W pyexc spec_float.

(** [committed] is the second component of the state. *)
Definition proxy_callback (callback : pyval → M W pyexc unit) (event : pyval)
    : M (W * bool) pyexc unit :=
  (if _event_commits_user_visible_output event then modify (λ s, (s.1, true)) else mret tt);;
  outer (callback event).

Definition gated_operation (callback : pyval → M W pyexc unit) : M (W * bool) pyexc T :=
  λ s, run_turn (proxy_callback callback) (fetch_turn true s.1) s.2.

(** The executor on the world with the [committed] cell. *)
Definition execute_gated (operation : M (W * bool) pyexc T) : M (W * bool) retry_exn T :=
  execute_with_retry heap anthropic_installed openai_installed operation config
    ((λ f a, outer (f a)) <$> on_retry) (λ d, outer (sleep d)) (Some (gets snd))
    ((λ f n, outer (f n)) <$> before_attempt)
    ((λ f n at_ o d, outer (f n at_ o d)) <$> after_attempt)
    (outer _completed_at) (outer random).

Definition fetch_turn_with_retry : M W retry_exn T :=
  match original_callback with
  | None =>
      execute_with_retry heap anthropic_installed openai_installed
        (λ w, let '(r, (w', _)) := run_turn (λ _, mret tt) (fetch_turn false w) tt in (r, w'))
        config on_retry sleep None before_attempt after_attempt _completed_at random
  | Some callback =>
      λ w, let '(r, (w', _)) := execute_gated (gated_operation callback) (w, false) in (r, w')
  end.
End wrapper.

(** ** What the callbacks leave alone *)

Section preserved.
Context {S O : Type}.
Variable obs : S → O.

Definition preserves {E A} (m : M S E A) : Prop := ∀ s, obs (m s).2 = obs s.

Lemma preserves_bind {E A B} (m : M S E A) (f : A → M S E B) :
  preserves m → (∀ a, preserves (f a)) → preserves (m ≫= f).
Proof.
  intros Hm Hf s. specialize (Hm s). cbv [mbind M_bind].
  destruct (m s) as [[a|e] s1]; simpl in *; [|done]. by rewrite (Hf a s1).
Qed.

Lemma preserves_map_err {E E' A} (f : E → E') (m : M S E A) :
  preserves m → preserves (map_err f m).
Proof. intros Hm s. specialize (Hm s). unfold map_err. by destruct (m s) as [[a|e] s1]. Qed.

Variable config : RetryConfig.
Variable on_retry : option (RetryAttempt → M S pyexc unit).
Variable sleep : spec_float → M S pyexc unit.
Variable should_stop : option (M S pyexc bool).
Variable before_attempt : option (Z → M S pyexc unit).
Variable after_attempt : option (Z → pystr → pystr → pystr → M S pyexc unit).
Variable _completed_at : M S pyexc pystr.
Variable random : M S pyexc spec_float.

Definition callbacks_preserve : Prop :=
  (∀ f a, on_retry = Some f → preserves (f a)) ∧ (∀ d, preserves (sleep d)) ∧
  (∀ f, should_stop = Some f → preserves f) ∧
  (∀ f n, before_attempt = Some f → preserves (f n)) ∧
  (∀ f n at_ o d, after_attempt = Some f → preserves (f n at_ o d)) ∧
  preserves _completed_at ∧ preserves random.

Hypothesis Hcb : callbacks_preserve.

Lemma report_preserves n o d : preserves (report after_attempt _completed_at n o d).
Proof.
  destruct Hcb as (_ & _ & _ & _ & ? & ? & _). unfold report.
  destruct after_attempt; [|done]. apply preserves_map_err, preserves_bind; auto.
Qed.

Lemma wait_preserves n e :
  preserves (wait_for_retry config on_retry sleep should_stop random n e).
Proof.
  destruct Hcb as (? & ? & ? & _ & _ & _ & ?). unfold wait_for_retry.
  apply preserves_bind; [destruct should_stop; [by apply preserves_map_err; auto|done]|].
  intros []; [done|]. apply preserves_bind.
  { destruct (extract_retry_after_ms e); [done|by apply preserves_map_err]. }
  intros rnd. apply preserves_bind; [done|]. intros d. apply preserves_bind.
  { unfold optional. destruct on_retry; [apply preserves_map_err; auto|done]. }
  intros _. apply preserves_map_err; auto.
Qed.

Lemma before_preserves n :
  preserves (optional before_attempt (λ f, map_err Raised (f n))).
Proof.
  destruct Hcb as (_ & _ & _ & ? & _). unfold optional.
  destruct before_attempt; [apply preserves_map_err; auto|done].
Qed.

End preserved.

(** ** Theorems *)

Section history.
Variable heap : exc_id → exc_node.
Variables anthropic_installed openai_installed : bool.
Context {S T : Type}.
Variable operation : M S pyexc T.
Variable config : RetryConfig.
Variable on_retry : option (RetryAttempt → M S pyexc unit).
Variable sleep : spec_float → M S pyexc unit.
Variable should_stop : option (M S pyexc bool).
Variable before_attempt : option (Z → M S pyexc unit).
Variable after_attempt : option (Z → pystr → pystr → pystr → M S pyexc unit).
Variable _completed_at : M S pyexc pystr.
Variable random : M S pyexc spec_float.

(** A record of the calls of [operation], kept by the world: each call adds
    its result and nothing else touches it. *)
Variable log : S → list (result pyexc T).

Hypothesis Hop : ∀ s, log (operation s).2 = log s ++ [(operation s).1].
Hypothesis Hcb : callbacks_preserve log on_retry sleep should_stop before_attempt after_attempt
  _completed_at random.

Abbreviation retryable := (is_retryable heap anthropic_installed openai_installed).

(** What the recorded calls [rs] say about the outcome [r] of a call of the
    executor that had [todo] attempts left. *)
Record justified (todo : nat) (rs : list (result pyexc T)) (r : result retry_exn T) : Prop := {
  just_bound : length rs ≤ todo;
  just_retried : ∀ i x, rs !! i = Some x → Datatypes.S i < length rs →
    ∃ e, x = Err e ∧ retryable e = true;
  just_ok : ∀ t, r = Ok t → last rs = Some (Ok t);
  just_exhausted : ∀ e k, r = Err (RetriesExhaustedError e k) →
    length rs = todo ∧ k = max_retries config ∧
    (rs ≠ [] → last rs = Some (Err e) ∧ retryable e = true);
}.

Definition never_exhausts {A} (m : M S retry_exn A) : Prop :=
  ∀ s e k, (m s).1 ≠ Err (RetriesExhaustedError e k).

Lemma never_exhausts_bind {A B} (m : M S retry_exn A) (f : A → M S retry_exn B) :
  never_exhausts m → (∀ a, never_exhausts (f a)) → never_exhausts (m ≫= f).
Proof.
  intros Hm Hf s e k. specialize (Hm s e k). cbv [mbind M_bind].
  destruct (m s) as [[a|e'] s1]; simpl in *; [apply Hf|congruence].
Qed.

Lemma never_exhausts_map_err {A} (m : M S pyexc A) : never_exhausts (map_err Raised m).
Proof. intros s e k. unfold map_err. by destruct (m s) as [[a|e'] s1]. Qed.

Lemma report_never_exhausts n o d : never_exhausts (report after_attempt _completed_at n o d).
Proof. unfold report. destruct after_attempt; [apply never_exhausts_map_err|done]. Qed.

Lemma before_never_exhausts n :
  never_exhausts (optional before_attempt (λ f, map_err Raised (f n))).
Proof. unfold optional. destruct before_attempt; [apply never_exhausts_map_err|done]. Qed.

Lemma wait_never_exhausts n e :
  never_exhausts (wait_for_retry config on_retry sleep should_stop random n e).
Proof.
  unfold wait_for_retry. repeat apply never_exhausts_bind.
  - destruct should_stop; [apply never_exhausts_map_err|done].
  - intros []; [done|]. apply never_exhausts_bind.
    { destruct (extract_retry_after_ms e); [done|apply never_exhausts_map_err]. }
    intros rnd. apply never_exhausts_bind.
    { intros s e' k. unfold compute_delay_ms; simpl. by repeat case_match. }
    intros d. apply never_exhausts_bind; [|intros _; apply never_exhausts_map_err].
    unfold optional. destruct on_retry; [apply never_exhausts_map_err|done].
Qed.

(** A bind whose first part keeps the record and does not exhaust: it raised
    there, or the second part ran from a world with the same record. *)
Lemma bind_cases {A B} (m : M S retry_exn A) (f : A → M S retry_exn B) s r s' :
  preserves log m → never_exhausts m → (m ≫= f) s = (r, s') →
  (log s' = log s ∧ ∃ x, r = Err x ∧ ∀ e k, x ≠ RetriesExhaustedError e k) ∨
  (∃ a s1, m s = (Ok a, s1) ∧ log s1 = log s ∧ f a s1 = (r, s')).
Proof.
  intros Hp Hn Hb. specialize (Hp s). specialize (Hn s). revert Hb. cbv [mbind M_bind].
  destruct (m s) as [[a|x] s1]; simpl in *; [eauto 10|].
  intros [= <- <-]. left. split; [done|]. exists x. split; [done|].
  intros e k ->. by destruct (Hn e k).
Qed.

Lemma justified_raise todo rs x :
  length rs ≤ todo →
  (∀ i y, rs !! i = Some y → Datatypes.S i < length rs → ∃ e, y = Err e ∧ retryable e = true) →
  (∀ e k, x ≠ RetriesExhaustedError e k) → justified todo rs (Err x).
Proof. intros ? ? Hx. split; [done|done|done|]. intros e k [= ->]. by destruct (Hx e k). Qed.

Lemma singleton_not_retried (x : result pyexc T) i y :
  [x] !! i = Some y → Datatypes.S i < length [x] → ∃ e, y = Err e ∧ retryable e = true.
Proof. simpl. lia. Qed.

Lemma justified_cons todo e rs r :
  retryable e = true → rs ≠ [] ∨ todo ≠ 0 → justified todo rs r →
  justified (Datatypes.S todo) (Err e :: rs) r.
Proof.
  intros He Hne [Hb Hr Hok Hex]. split.
  - simpl. lia.
  - intros [|i] y Hy Hi; simpl in *; [naive_solver|]. eapply Hr; [done|lia].
  - intros t Ht. specialize (Hok t Ht). destruct rs; [done|]. by rewrite last_cons_cons.
  - intros x k Hx. destruct (Hex x k Hx) as (Hl & ? & Hlast).
    split_and!; [simpl; lia|done|]. intros _.
    destruct rs; [destruct Hne; simpl in *; [done|lia]|]. rewrite last_cons_cons. by apply Hlast.
Qed.

Lemma attempts_from_justified todo n le s r s' :
  (Z.of_nat todo = max_retries config + 1 - n)%Z →
  attempts_from heap anthropic_installed openai_installed operation config on_retry sleep
    should_stop before_attempt after_attempt _completed_at random todo n le s = (r, s') →
  ∃ rs, log s' = log s ++ rs ∧ justified todo rs r.
Proof.
  revert n le s. induction todo as [|todo IH]; intros n le s Hn Hrun; simpl in Hrun.
  { exists []. rewrite app_nil_r. destruct le; simplify_eq/=; (split; [done|]); split; naive_solver. }
  apply bind_cases in Hrun as [(Hl & x & -> & Hx)|([] & s1 & _ & <- & Hrun)];
    [| |by eapply before_preserves|apply before_never_exhausts].
  { exists []. rewrite app_nil_r. split; [done|]. apply justified_raise; simpl; [lia|done|done]. }
  specialize (Hop s1). destruct (operation s1) as [[t|e] s2]; simpl in Hop.
  - apply bind_cases in Hrun as [(Hl & x & -> & Hx)|([] & s3 & _ & Hl & Hrun)];
      [| |by eapply report_preserves|apply report_never_exhausts].
    + exists [Ok t]. rewrite Hl. split; [done|].
      apply justified_raise; [simpl; lia|apply singleton_not_retried|done].
    + injection Hrun as <- <-. exists [Ok t]. rewrite Hl. split; [done|].
      split; [simpl; lia|apply singleton_not_retried|naive_solver|naive_solver].
  - apply bind_cases in Hrun as [(Hl & x & -> & Hx)|([] & s3 & _ & Hl & Hrun)];
      [| |by eapply report_preserves|apply report_never_exhausts].
    { exists [Err e]. rewrite Hl. split; [done|].
      apply justified_raise; [simpl; lia|apply singleton_not_retried|done]. }
    destruct (retryable e) eqn:He; simpl in Hrun.
    2:{ injection Hrun as <- <-. exists [Err e]. rewrite Hl. split; [done|].
        apply justified_raise; [simpl; lia|apply singleton_not_retried|done]. }
    case_match; bsimpl.
    { injection Hrun as <- <-. exists [Err e]. rewrite Hl. split; [done|].
      split; [simpl; lia|apply singleton_not_retried|done|].
      intros e' k [= <- <-]. split_and!; [simpl; lia|done|done]. }
    apply bind_cases in Hrun as [(Hl' & x & -> & Hx)|([] & s4 & _ & Hl' & Hrun)];
      [| |by eapply wait_preserves|apply wait_never_exhausts].
    { exists [Err e]. rewrite Hl', Hl. split; [done|].
      apply justified_raise; [simpl; lia|apply singleton_not_retried|done]. }
    apply IH in Hrun as (rs & Hrs & Hj); [|lia]. exists (Err e :: rs).
    rewrite Hrs, Hl', Hl, Hop, <-app_assoc. split; [done|].
    apply justified_cons; [done|right; lia|done].
Qed.

End history.

Section gate.
Variable heap : exc_id → exc_node.
Variables anthropic_installed openai_installed : bool.

(** Two operations that agree while [committed] is unset are the same to an
    executor that stops once it is set. *)
Lemma attempts_from_gate {S T} (op op' : M S pyexc T) (committed : S → bool)
    config on_retry sleep before_attempt after_attempt _completed_at random todo n le s :
  callbacks_preserve committed on_retry sleep (Some (gets committed)) before_attempt
    after_attempt _completed_at random →
  (∀ s, committed s = false → op s = op' s) → committed s = false →
  let run op := attempts_from heap anthropic_installed openai_installed op config on_retry sleep
    (Some (gets committed)) before_attempt after_attempt _completed_at random todo n le s in
  run op = run op'.
Proof.
  intros Hcb Hag. revert n le s.
  induction todo as [|todo IH]; intros n le s Hs; simpl; [done|].
  pose proof (before_preserves _ _ _ _ _ _ _ _ Hcb n s) as Hb. revert Hb. cbv [mbind M_bind].
  destruct (optional before_attempt _ s) as [[[]|x] s1]; simpl; [|done]. intros Hs1.
  rewrite <-(Hag s1) by congruence. destruct (op s1) as [[t|e] s2]; [done|].
  set (rep := report _ _ _ _ _).
  pose proof (report_preserves _ _ _ _ _ _ _ _ Hcb) as Hr.
  destruct (rep s2) as [[[]|x] s3] eqn:Hrep; [|done].
  destruct (negb _); [done|]. destruct (_ <=? _)%Z; [done|].
  destruct (committed s3) eqn:Hc.
  { unfold wait_for_retry. cbv [mbind M_bind gets map_err]. by rewrite Hc. }
  pose proof (wait_preserves _ config _ _ _ _ _ _ _ Hcb n e s3) as Hw. revert Hw.
  destruct (wait_for_retry _ _ _ _ _ _ _ s3) as [[[]|x] s4]; simpl; [|done].
  intros Hs4. apply IH. congruence.
Qed.

Lemma run_turn_committed {W T} (callback : pyval → M W pyexc unit) (t : turn W T) c :
  (run_turn (proxy_callback callback) t c).2.2 =
  c || existsb _event_commits_user_visible_output (turn_events (proxy_callback callback) t c).
Proof.
  revert c. induction t as [r w|w event resume IH]; intros c; simpl; [by rewrite orb_false_r|].
  assert (∀ r w' c', proxy_callback callback event (w, c) = (r, (w', c')) →
    c' = c || _event_commits_user_visible_output event) as Hc.
  { intros r w' c'. unfold proxy_callback, outer, zoom. cbv [mbind M_bind modify mret M_ret].
    destruct (_event_commits_user_visible_output event); simpl;
      destruct (callback event w); intros [= <- <- <-]; by rewrite ?orb_true_r, ?orb_false_r. }
  destruct (proxy_callback callback event (w, c)) as [r [w' c']] eqn:Hp.
  rewrite IH, (Hc _ _ _ eq_refl). simpl. by rewrite orb_assoc.
Qed.

(** The first-visible-event gate: once an attempt has delivered a
    user-visible event to the caller, no further attempt is started.  The
    [committed] cell records exactly whether one was delivered, and the
    result of the call is the same if [fetch_turn], whenever it were called
    after such an event, did anything else at all. *)
Theorem visible_output_is_never_replayed {W T} (fetch_turn : bool → W → turn W T)
    (callback : pyval → M W pyexc unit) config on_retry sleep before_attempt after_attempt
    _completed_at random (anything : M (W * bool) pyexc T) (w : W) :
  (∀ s, (gated_operation fetch_turn callback s).2.2 =
     s.2 || existsb _event_commits_user_visible_output
              (turn_events (proxy_callback callback) (fetch_turn true s.1) s.2)) ∧
  fetch_turn_with_retry heap anthropic_installed openai_installed fetch_turn (Some callback)
    config on_retry sleep before_attempt after_attempt _completed_at random w =
  let '(r, (w', _)) :=
    execute_gated heap anthropic_installed openai_installed config on_retry sleep before_attempt
      after_attempt _completed_at random
      (λ s, if s.2 then anything s else gated_operation fetch_turn callback s) (w, false) in
  (r, w').
Proof.
  split; [intros s; apply run_turn_committed|].
  unfold fetch_turn_with_retry, execute_gated, execute_with_retry.
  erewrite (attempts_from_gate _ _ snd); [reflexivity| | |done].
  - assert (∀ E A (m : M W E A), preserves (snd : W * bool → bool) (outer m)) as Ho.
    { intros E A m [w0 c]. unfold outer, zoom. simpl. by destruct (m w0). }
    split_and!; try (intros; apply Ho).
    + intros f a. destruct on_retry; simpl; intros [= <-]; apply Ho.
    + by intros f [= <-].
    + intros f a. destruct before_attempt; simpl; intros [= <-]; apply Ho.
    + intros f a at_ o d. destruct after_attempt; simpl; intros [= <-]; apply Ho.
  - intros s Hs. simpl. by rewrite Hs.
Qed.
End gate.

(** ** Delays *)

Lemma extract_retry_after_nonneg exc ms : extract_retry_after_ms exc = Some ms → (0 ≤ ms)%Z.
Proof.
  unfold extract_retry_after_ms. repeat case_match; try done. intros [= <-].
  bsimpl. lia.
Qed.

(** Delays: a server's [Retry-After] always yields a delay, never negative,
    never longer than the server asked for nor than [max_delay_ms]; without
    one, the exponential part doubles with every retry until it reaches
    [max_delay_ms] and never exceeds it. *)
Theorem retry_delay_is_bounded (rnd : spec_float) (n : Z) (config : RetryConfig) (exc : pyexc) :
  (1 ≤ n)%Z → (0 ≤ base_delay_ms config)%Z → (0 ≤ max_delay_ms config)%Z →
  (∀ ms, extract_retry_after_ms exc = Some ms →
     ∃ d, compute_delay_ms rnd n config (extract_retry_after_ms exc) = Ok d ∧
       (0 ≤ d ≤ ms)%Z ∧ (d ≤ max_delay_ms config)%Z) ∧
  (0 ≤ backoff_base n config ≤ max_delay_ms config)%Z ∧
  backoff_base (n + 1) config = Z.min (2 * backoff_base n config) (max_delay_ms config).
Proof.
  intros Hn Hb Hm. split.
  - intros ms Hms. pose proof (extract_retry_after_nonneg _ _ Hms). rewrite Hms.
    unfold compute_delay_ms. rewrite (proj2 (Z.ltb_ge n 1)) by lia.
    eexists. split; [done|]. lia.
  - unfold backoff_base. replace (n + 1 - 1)%Z with (Z.succ (n - 1)) by lia.
    rewrite Z.pow_succ_r by lia.
    assert (0 ≤ base_delay_ms config * 2 ^ (n - 1))%Z by (apply Z.mul_nonneg_nonneg; lia).
    lia.
Qed.

(** ** Concrete inputs *)

Definition flaky : pyexc := mkExc 7 HttpxTransport None.
Definition throttled : pyexc :=
  mkExc 8 (HttpxStatus 429) (Some (mkResponse (Some 429%Z) (Headers (Some (u " 1_2 "))))).

Example throttled_delay : extract_retry_after_ms throttled = Some 12000%Z.
Proof. vm_compute. reflexivity. Qed.

(** [random.random() = 0.5]: the first delay is 500 + 62.5, truncated. *)
Example first_delay :
  compute_delay_ms (S754_finite false 4503599627370496 (-53)) 1 default_retry_config None = Ok 562%Z.
Proof. vm_compute. reflexivity. Qed.

Definition calm_heap : exc_id → exc_node := λ _, plain_node.

(** Fails twice, then returns. *)
Definition flaky_op : M (list (result pyexc nat)) pyexc nat :=
  λ s, let r := if length s <? 2 then Err flaky else Ok 5 in (r, s ++ [r]).

Definition run_flaky (config : RetryConfig) :=
  execute_with_retry calm_heap true true flaky_op config None (λ _, mret tt) None None None
    (mret []) (mret (S754_zero false)) [].

Example flaky_succeeds :
  run_flaky default_retry_config = (Ok 5, [Err flaky; Err flaky; Ok 5]).
Proof. vm_compute. reflexivity. Qed.


Lemma retry_delay_is_bounded_witness :
  backoff_base 8 default_retry_config = 32000%Z ∧
  (0 ≤ backoff_base 3 default_retry_config ≤ 32000)%Z.
Proof.
  split; [reflexivity|].
  apply (retry_delay_is_bounded (S754_zero false) 3 default_retry_config throttled);
    [lia|simpl; lia|simpl; lia].
Defined.
