(* ===== verification/Interaction.v ===== *)
(** * Durable interactions (src/unchain/interaction/durable.py)

    Requests for a human decision, the receipts that answer them and the
    journal that ties both to the checkpoints of a session.  Every record is
    content-addressed: its identity is the SHA-256 of its canonical JSON.

    Raw persisted data is a [pyval]; a validated request, receipt or journal is
    a record of the fields the Python object keeps, and a function [..._dict] is what the
    code serialises it to.  Errors are told apart by their class. *)

From S2P Require Import Prelude PyVal Json.

Inductive ierror : Type :=
| InteractionIntegrityError
| InteractionNotPendingError
| InteractionReceiptConflictError
| InteractionAlreadyAppliedError
(** [TypeError: unhashable type], from a membership test on a frozenset *)
| UnhashableTypeError.

#[export] Instance ierror_eq_dec : EqDecision ierror.
Proof. solve_decision. Defined.

Abbreviation R := (result ierror).

(** ** Canonical identities *)

Fixpoint _strict_json_copy (value : pyval) : R pyval :=
  match value with
  | VNone | VBool _ | VInt _ => Ok value
  | VStr s => if encodable s then Ok value else Err InteractionIntegrityError
  | VFloat f => if is_finite f then Ok value else Err InteractionIntegrityError
  | VList l =>
      l' ← (fix go l :=
        match l with
        | [] => Ok []
        | item :: l => c ← _strict_json_copy item; cs ← go l; Ok (c :: cs)
        end) l;
      Ok (VList l')
  | VDict d =>
      d' ← (fix go d :=
        match d with
        | [] => Ok []
        | (KStr key, item) :: d => c ← _strict_json_copy item; cs ← go d; Ok ((KStr key, c) :: cs)
        | (KObj _ _, _) :: _ => Err InteractionIntegrityError
        end) d;
      Ok (VDict d')
  | VObj _ _ => Err InteractionIntegrityError
  end.

Definition _canonical_json (value : pyval) : R pystr :=
  v ← _strict_json_copy value;
  match dumps v with
  | Some s => Ok s
  | None => Err InteractionIntegrityError
  end.

Definition _digest (value : pyval) : R pystr :=
  text ← _canonical_json value;
  match utf8 text with
  | Some encoded => Ok (sha256_hex encoded)
  | None => Err InteractionIntegrityError
  end.
#[global] Arguments _digest : simpl never.

(** ** Field validation *)

Definition _required_text (value : pyval) : R pystr :=
  match value with
  | VStr s =>
      let normalized := strip s in
      if nonempty normalized then
        if encodable normalized then Ok normalized else Err InteractionIntegrityError
      else Err InteractionIntegrityError
  | _ => Err InteractionIntegrityError
  end.
#[global] Arguments _required_text : simpl never.

Definition _non_negative_int (value : pyval) : R Z :=
  match exact_int value with
  | Some z => if (z <? 0)%Z then Err InteractionIntegrityError else Ok z
  | None => Err InteractionIntegrityError
  end.
#[global] Arguments _non_negative_int : simpl never.

Definition _require_exact_fields (raw : pydict) (expected : list string) : R unit :=
  let expected := (λ s, KStr (u s)) <$> expected in
  ensure (forallb (λ k, bool_decide (k ∈ expected)) (keys raw) &&
          forallb (λ k, bool_decide (k ∈ keys raw)) expected) InteractionIntegrityError.
#[global] Arguments _require_exact_fields : simpl never.

(** [value == 1] and not a boolean; [1.0] passes. *)
Definition is_schema_version (value : pyval) : bool :=
  match value with VBool _ => false | _ => num_eq value (VInt 1) end.

Definition _validate_schema_version (value : pyval) : R unit :=
  ensure (is_schema_version value) InteractionIntegrityError.
#[global] Arguments _validate_schema_version : simpl never.

Definition INTERACTION_KINDS : list pystr :=
  [u "human_input"; u "tool_approval"; u "max_budget"].

(** [kind not in INTERACTION_KINDS]: a list or a dict has no hash. *)
Definition check_kind (kind : pyval) : R pystr :=
  match kind with
  | VStr k => if bool_decide (k ∈ INTERACTION_KINDS) then Ok k else Err InteractionIntegrityError
  | VList _ | VDict _ => Err UnhashableTypeError
  | _ => Err InteractionIntegrityError
  end.
#[global] Arguments check_kind : simpl never.

(** The raw text of a field that [_required_text] accepted. *)
Definition text_of (value : pyval) : pystr := match value with VStr s => s | _ => [] end.

(** ** Requests *)

Record InteractionRequest : Type := mkRequest {
  req_schema_version : pyval;
  interaction_id : pystr;
  session_id : pystr;
  kind : pystr;
  source_run_id : pystr;
  occurrence : pystr;
  payload : pyval;
  response_contract : pyval;
  schema_digest : pystr;
  request_digest : pystr;
  created_revision : Z;
  subject : pyval;
}.

Definition field (name : string) (v : pyval) : pykey * pyval := (KStr (u name), v).

Definition _request_core (session_id kind source_run_id occurrence : pystr)
    (payload response_contract : pyval) (schema_digest : pystr) (created_revision : Z)
    (subject : pyval) : R pyval :=
  payload ← _strict_json_copy payload;
  response_contract ← _strict_json_copy response_contract;
  subject ← _strict_json_copy subject;
  Ok (VDict [field "schema_version" (VInt 1); field "session_id" (VStr session_id);
    field "kind" (VStr kind); field "source_run_id" (VStr source_run_id);
    field "occurrence" (VStr occurrence); field "payload" payload;
    field "response_contract" response_contract; field "schema_digest" (VStr schema_digest);
    field "created_revision" (VInt created_revision); field "subject" subject]).

(** [InteractionRequest(...)]: the digests are compared in stripped form and
    kept as they were passed. *)
Definition make_InteractionRequest (schema_version interaction_id session_id kind source_run_id
    occurrence payload response_contract schema_digest request_digest created_revision
    subject : pyval) : R InteractionRequest :=
  _validate_schema_version schema_version;;
  session_id ← _required_text session_id;
  source_run_id ← _required_text source_run_id;
  occurrence ← _required_text occurrence;
  interaction_id ← _required_text interaction_id;
  kind ← check_kind kind;
  created_revision ← _non_negative_int created_revision;
  payload ← _strict_json_copy payload;
  response_contract ← _strict_json_copy response_contract;
  subject ← _strict_json_copy subject;
  schema_digest' ← _required_text schema_digest;
  request_digest' ← _required_text request_digest;
  expected_schema_digest ← _digest response_contract;
  ensure (bool_decide (schema_digest' = expected_schema_digest)) InteractionIntegrityError;;
  core ← _request_core session_id kind source_run_id occurrence payload response_contract
           schema_digest' created_revision subject;
  expected_request_digest ← _digest core;
  ensure (bool_decide (request_digest' = expected_request_digest)) InteractionIntegrityError;;
  ensure (bool_decide (interaction_id = u "interaction_" ++ take 32 expected_request_digest))
    InteractionIntegrityError;;
  Ok (mkRequest schema_version interaction_id session_id kind source_run_id occurrence payload
        response_contract (text_of schema_digest) (text_of request_digest) created_revision
        subject).
#[global] Arguments make_InteractionRequest : simpl never.

(** [InteractionRequest.to_dict] *)
Definition request_dict (r : InteractionRequest) : pydict :=
  [field "schema_version" (req_schema_version r); field "interaction_id" (VStr (interaction_id r));
   field "session_id" (VStr (session_id r)); field "kind" (VStr (kind r));
   field "source_run_id" (VStr (source_run_id r)); field "occurrence" (VStr (occurrence r));
   field "payload" (payload r); field "response_contract" (response_contract r);
   field "schema_digest" (VStr (schema_digest r)); field "request_digest" (VStr (request_digest r));
   field "created_revision" (VInt (created_revision r)); field "subject" (subject r)].

Definition request_fields : list string :=
  ["schema_version"; "interaction_id"; "session_id"; "kind"; "source_run_id"; "occurrence";
   "payload"; "response_contract"; "schema_digest"; "request_digest"; "created_revision";
   "subject"]%string.

(** The class applied to the fields of a dict as keyword arguments. *)
Definition request_of_dict (d : pydict) : R InteractionRequest :=
  make_InteractionRequest (get d "schema_version") (get d "interaction_id") (get d "session_id")
    (get d "kind") (get d "source_run_id") (get d "occurrence") (get d "payload")
    (get d "response_contract") (get d "schema_digest") (get d "request_digest")
    (get d "created_revision") (get d "subject").

(** An argument that is either an object of the class or raw data. *)
Inductive bound (A : Type) : Type :=
| BObject (a : A)
| BRaw (raw : pyval).
Arguments BObject {A} a.
Arguments BRaw {A} raw.

(** [InteractionRequest.from_dict] *)
Definition request_from_dict (raw : bound InteractionRequest) : R InteractionRequest :=
  match raw with
  | BObject r => request_of_dict (request_dict r)
  | BRaw (VDict d) =>
      copied ← _strict_json_copy (VDict d);
      match copied with
      | VDict c => _require_exact_fields c request_fields;; request_of_dict c
      | _ => Err InteractionIntegrityError
      end
  | BRaw _ => Err InteractionIntegrityError
  end.

Definition build_interaction_request (session_id kind source_run_id occurrence payload
    response_contract created_revision subject : pyval) : R InteractionRequest :=
  session_id ← _required_text session_id;
  source_run_id ← _required_text source_run_id;
  occurrence ← _required_text occurrence;
  kind ← check_kind kind;
  created_revision ← _non_negative_int created_revision;
  payload ← _strict_json_copy payload;
  response_contract ← _strict_json_copy response_contract;
  subject ← _strict_json_copy subject;
  schema_digest ← _digest response_contract;
  core ← _request_core session_id kind source_run_id occurrence payload response_contract
           schema_digest created_revision subject;
  request_digest ← _digest core;
  match core with
  | VDict c =>
      make_InteractionRequest (get c "schema_version")
        (VStr (u "interaction_" ++ take 32 request_digest)) (get c "session_id") (get c "kind")
        (get c "source_run_id") (get c "occurrence") (get c "payload") (get c "response_contract")
        (get c "schema_digest") (VStr request_digest) (get c "created_revision") (get c "subject")
  | _ => Err InteractionIntegrityError
  end.

(** ** Receipts *)

Record InteractionReceipt : Type := mkReceipt {
  rcp_schema_version : pyval;
  receipt_id : pystr;
  rcp_interaction_id : pystr;
  rcp_request_digest : pystr;
  response : pyval;
  response_digest : pystr;
  submitted_by : pystr;
  receipt_digest : pystr;
  submitted_at_ms : Z;
}.

Definition _receipt_core (interaction_id request_digest : pystr) (response : pyval)
    (response_digest submitted_by : pystr) : R pyval :=
  response ← _strict_json_copy response;
  Ok (VDict [field "schema_version" (VInt 1); field "interaction_id" (VStr interaction_id);
    field "request_digest" (VStr request_digest); field "response" response;
    field "response_digest" (VStr response_digest); field "submitted_by" (VStr submitted_by)]).

(** [InteractionReceipt(...)]: [response_digest], [receipt_digest] and
    [receipt_id] are kept as they were passed. *)
Definition make_InteractionReceipt (schema_version receipt_id interaction_id request_digest
    response response_digest submitted_by receipt_digest submitted_at_ms : pyval)
    : R InteractionReceipt :=
  _validate_schema_version schema_version;;
  interaction_id ← _required_text interaction_id;
  request_digest ← _required_text request_digest;
  response ← _strict_json_copy response;
  response_digest' ← _required_text response_digest;
  submitted_by ← _required_text submitted_by;
  receipt_digest' ← _required_text receipt_digest;
  receipt_id' ← _required_text receipt_id;
  submitted_at_ms ← _non_negative_int submitted_at_ms;
  expected_response_digest ← _digest response;
  ensure (bool_decide (response_digest' = expected_response_digest)) InteractionIntegrityError;;
  core ← _receipt_core interaction_id request_digest response response_digest' submitted_by;
  expected_receipt_digest ← _digest core;
  ensure (bool_decide (receipt_digest' = expected_receipt_digest)) InteractionIntegrityError;;
  ensure (bool_decide (receipt_id' = u "receipt_" ++ take 32 expected_receipt_digest))
    InteractionIntegrityError;;
  Ok (mkReceipt schema_version (text_of receipt_id) interaction_id request_digest response
        (text_of response_digest) submitted_by (text_of receipt_digest) submitted_at_ms).
#[global] Arguments make_InteractionReceipt : simpl never.

(** [InteractionReceipt.to_dict] *)
Definition receipt_dict (r : InteractionReceipt) : pydict :=
  [field "schema_version" (rcp_schema_version r); field "receipt_id" (VStr (receipt_id r));
   field "interaction_id" (VStr (rcp_interaction_id r));
   field "request_digest" (VStr (rcp_request_digest r)); field "response" (response r);
   field "response_digest" (VStr (response_digest r));
   field "submitted_by" (VStr (submitted_by r));
   field "receipt_digest" (VStr (receipt_digest r));
   field "submitted_at_ms" (VInt (submitted_at_ms r))].

Definition receipt_fields : list string :=
  ["schema_version"; "receipt_id"; "interaction_id"; "request_digest"; "response";
   "response_digest"; "submitted_by"; "receipt_digest"; "submitted_at_ms"]%string.

Definition receipt_of_dict (d : pydict) : R InteractionReceipt :=
  make_InteractionReceipt (get d "schema_version") (get d "receipt_id") (get d "interaction_id")
    (get d "request_digest") (get d "response") (get d "response_digest") (get d "submitted_by")
    (get d "receipt_digest") (get d "submitted_at_ms").

(** [InteractionReceipt.from_dict] *)
Definition receipt_from_dict (raw : bound InteractionReceipt)
    (request : option (bound InteractionRequest)) : R InteractionReceipt :=
  receipt ← match raw with
            | BObject r => receipt_of_dict (receipt_dict r)
            | BRaw (VDict d) =>
                copied ← _strict_json_copy (VDict d);
                match copied with
                | VDict c => _require_exact_fields c receipt_fields;; receipt_of_dict c
                | _ => Err InteractionIntegrityError
                end
            | BRaw _ => Err InteractionIntegrityError
            end;
  match request with
  | None => Ok receipt
  | Some request =>
      bound_request ← request_from_dict request;
      ensure (bool_decide (rcp_interaction_id receipt = interaction_id bound_request) &&
              bool_decide (rcp_request_digest receipt = request_digest bound_request))
        InteractionIntegrityError;;
      Ok receipt
  end.

Definition build_interaction_receipt (request : bound InteractionRequest)
    (response submitted_by submitted_at_ms : pyval) : R InteractionReceipt :=
  bound_request ← request_from_dict request;
  response ← _strict_json_copy response;
  submitted_at_ms ← _non_negative_int submitted_at_ms;
  submitted_by ← _required_text submitted_by;
  response_digest ← _digest response;
  core ← _receipt_core (interaction_id bound_request) (request_digest bound_request) response
           response_digest submitted_by;
  receipt_digest ← _digest core;
  match core with
  | VDict c =>
      make_InteractionReceipt (get c "schema_version")
        (VStr (u "receipt_" ++ take 32 receipt_digest)) (get c "interaction_id")
        (get c "request_digest") (get c "response") (get c "response_digest")
        (get c "submitted_by") (VStr receipt_digest) (VInt submitted_at_ms)
  | _ => Err InteractionIntegrityError
  end.

(** ** The journal *)

Record application : Type := mkApplication {
  app_receipt_id : pystr;
  applied_checkpoint_id : pystr;
}.
#[export] Instance application_eq_dec : EqDecision application.
Proof. solve_decision. Defined.

Record entry : Type := mkEntry {
  e_request : InteractionRequest;
  e_checkpoint_id : pystr;
  e_receipt : option InteractionReceipt;
  e_application : option application;
}.

(** [entries] in the order of the dict *)
Record journal : Type := mkJournal {
  active_id : option pystr;
  entries : list (pystr * entry);
  order : list pystr;
}.

Definition opt {A} (f : A → pyval) (x : option A) : pyval :=
  match x with Some a => f a | None => VNone end.

Definition application_dict (a : application) : pydict :=
  [field "schema_version" (VInt 1); field "receipt_id" (VStr (app_receipt_id a));
   field "applied_checkpoint_id" (VStr (applied_checkpoint_id a))].

Definition entry_dict (e : entry) : pydict :=
  [field "request" (VDict (request_dict (e_request e)));
   field "checkpoint_id" (VStr (e_checkpoint_id e));
   field "receipt" (opt (λ r, VDict (receipt_dict r)) (e_receipt e));
   field "application" (opt (λ a, VDict (application_dict a)) (e_application e))].

Definition journal_dict (j : journal) : pydict :=
  [field "schema_version" (VInt 1); field "active_id" (opt VStr (active_id j));
   field "entries" (VDict ((λ p, (KStr p.1, VDict (entry_dict p.2))) <$> entries j));
   field "order" (VList (VStr <$> order j))].

Definition new_interaction_journal : journal := mkJournal None [] [].

(** [receipt] is only looked at when [raw] is not [None]. *)
Definition _validate_application (raw : pyval) (receipt : InteractionReceipt)
    : R (option application) :=
  match raw with
  | VNone => Ok None
  | VDict d =>
      copied ← _strict_json_copy (VDict d);
      match copied with
      | VDict c =>
          _require_exact_fields c ["schema_version"; "receipt_id"; "applied_checkpoint_id"]%string;;
          _validate_schema_version (get c "schema_version");;
          rid ← _required_text (get c "receipt_id");
          ensure (bool_decide (rid = receipt_id receipt)) InteractionIntegrityError;;
          ckpt ← _required_text (get c "applied_checkpoint_id");
          Ok (Some (mkApplication rid ckpt))
      | _ => Err InteractionIntegrityError
      end
  | _ => Err InteractionIntegrityError
  end.

(** One turn of the loop over [entries_raw.items()]. *)
Definition validate_entry (key : pykey) (raw_entry : pyval) : R (pystr * entry) :=
  match key, raw_entry with
  | KStr iid, VDict d =>
      ensure (nonempty iid) InteractionIntegrityError;;
      copied ← _strict_json_copy (VDict d);
      match copied with
      | VDict c =>
          _require_exact_fields c ["request"; "checkpoint_id"; "receipt"; "application"]%string;;
          request ← request_from_dict (BRaw (get c "request"));
          ensure (bool_decide (interaction_id request = iid)) InteractionIntegrityError;;
          checkpoint_id ← _required_text (get c "checkpoint_id");
          receipt ← match get c "receipt" with
                    | VNone => Ok None
                    | raw => r ← receipt_from_dict (BRaw raw) (Some (BObject request)); Ok (Some r)
                    end;
          app ← match receipt with
                | None => match get c "application" with
                          | VNone => Ok None
                          | _ => Err InteractionIntegrityError
                          end
                | Some r => _validate_application (get c "application") r
                end;
          Ok (iid, mkEntry request checkpoint_id receipt app)
      | _ => Err InteractionIntegrityError
      end
  | _, _ => Err InteractionIntegrityError
  end.

Fixpoint validate_entries (raw : pydict) : R (list (pystr * entry)) :=
  match raw with
  | [] => Ok []
  | (k, e) :: raw => p ← validate_entry k e; ps ← validate_entries raw; Ok (p :: ps)
  end.

(** The keys of the entries that are not applied, in order. *)
Definition pending_ids (es : list (pystr * entry)) : list pystr :=
  (filter (λ p : pystr * entry, e_application p.2 = None) es).*1.

Fixpoint order_ids (l : list pyval) : R (list pystr) :=
  match l with
  | [] => Ok []
  | VStr s :: l =>
      ensure (nonempty s) InteractionIntegrityError;; ids ← order_ids l; Ok (s :: ids)
  | _ :: _ => Err InteractionIntegrityError
  end.

(** [order]: non-empty strings without repetition *)
Definition validate_order (raw : pyval) : R (list pystr) :=
  match raw with
  | VList l =>
      ids ← order_ids l;
      ensure (bool_decide (NoDup ids)) InteractionIntegrityError;;
      Ok ids
  | _ => Err InteractionIntegrityError
  end.

Definition validate_active_id (raw : pyval) : R (option pystr) :=
  match raw with
  | VNone => Ok None
  | VStr s => ensure (nonempty s) InteractionIntegrityError;; Ok (Some s)
  | _ => Err InteractionIntegrityError
  end.

(** The set of [order] is the set of keys, and the one pending entry, if any,
    is the active one. *)
Definition journal_consistent (j : journal) : bool :=
  forallb (λ i, bool_decide (i ∈ (entries j).*1)) (order j) &&
  forallb (λ i, bool_decide (i ∈ order j)) (entries j).*1 &&
  (match active_id j with Some a => bool_decide (a ∈ (entries j).*1) | None => true end) &&
  bool_decide (pending_ids (entries j) = option_list (active_id j)).

Definition validate_interaction_journal (raw : pyval) : R journal :=
  match raw with
  | VNone => Ok new_interaction_journal
  | VDict d =>
      copied ← _strict_json_copy (VDict d);
      match copied with
      | VDict c =>
          _require_exact_fields c ["schema_version"; "active_id"; "entries"; "order"]%string;;
          _validate_schema_version (get c "schema_version");;
          match get c "entries" with
          | VDict entries_raw =>
              order ← validate_order (get c "order");
              active ← validate_active_id (get c "active_id");
              es ← validate_entries entries_raw;
              ensure (journal_consistent (mkJournal active es order)) InteractionIntegrityError;;
              Ok (mkJournal active es order)
          | _ => Err InteractionIntegrityError
          end
      | _ => Err InteractionIntegrityError
      end
  | _ => Err InteractionIntegrityError
  end.

Fixpoint find_entry (es : list (pystr * entry)) (iid : pystr) : option entry :=
  match es with
  | [] => None
  | (k, e) :: es => if decide (k = iid) then Some e else find_entry es iid
  end.

(** Assignment to the entry under an existing key *)
Fixpoint update_entry (es : list (pystr * entry)) (iid : pystr) (e : entry)
    : list (pystr * entry) :=
  match es with
  | [] => []
  | (k, e') :: es => if decide (k = iid) then (k, e) :: es else (k, e') :: update_entry es iid e
  end.

(** The value returned is the dict [journal_dict] of the result. *)
Definition register_interaction_request (raw : pyval) (request : bound InteractionRequest)
    (checkpoint_id : pyval) : R journal :=
  validated ← validate_interaction_journal raw;
  bound_request ← request_from_dict request;
  checkpoint_id ← _required_text checkpoint_id;
  let iid := interaction_id bound_request in
  match find_entry (entries validated) iid with
  | Some existing =>
      if py_eq (VDict (request_dict (e_request existing))) (VDict (request_dict bound_request))
         && bool_decide (e_checkpoint_id existing = checkpoint_id)
      then Ok validated
      else Err InteractionIntegrityError
  | None =>
      if match active_id validated with Some a => negb (bool_decide (a = iid)) | None => false end
      then Err InteractionNotPendingError
      else validate_interaction_journal (VDict (journal_dict
             (mkJournal (Some iid)
                (entries validated ++ [(iid, mkEntry bound_request checkpoint_id None None)])
                (order validated ++ [iid]))))
  end.

Definition get_active_interaction (raw : pyval) : R (option entry) :=
  validated ← validate_interaction_journal raw;
  match active_id validated with
  | None => Ok None
  | Some a => Ok (find_entry (entries validated) a)
  end.

Definition record_interaction_receipt (raw : pyval) (receipt : bound InteractionReceipt)
    : R journal :=
  validated ← validate_interaction_journal raw;
  bound_receipt ← receipt_from_dict receipt None;
  let iid := rcp_interaction_id bound_receipt in
  match find_entry (entries validated) iid with
  | None => Err InteractionNotPendingError
  | Some e =>
      request ← request_from_dict (BRaw (VDict (request_dict (e_request e))));
      receipt_from_dict (BObject bound_receipt) (Some (BObject request));;
      match e_receipt e with
      | Some existing =>
          existing_receipt ← receipt_from_dict (BRaw (VDict (receipt_dict existing)))
                               (Some (BObject request));
          if bool_decide (receipt_digest existing_receipt = receipt_digest bound_receipt)
          then Ok validated
          else match e_application e with
               | Some _ => Err InteractionAlreadyAppliedError
               | None => Err InteractionReceiptConflictError
               end
      | None =>
          match e_application e with
          | Some _ => Err InteractionIntegrityError
          | None =>
              if bool_decide (active_id validated = Some iid)
              then validate_interaction_journal (VDict (journal_dict
                     (mkJournal (active_id validated)
                        (update_entry (entries validated) iid
                           (mkEntry (e_request e) (e_checkpoint_id e) (Some bound_receipt) None))
                        (order validated))))
              else Err InteractionNotPendingError
          end
      end
  end.

Definition mark_interaction_applied (raw interaction_id receipt_id_ applied_checkpoint_id : pyval)
    : R journal :=
  validated ← validate_interaction_journal raw;
  iid ← _required_text interaction_id;
  rid ← _required_text receipt_id_;
  ckpt ← _required_text applied_checkpoint_id;
  match find_entry (entries validated) iid with
  | None => Err InteractionNotPendingError
  | Some e =>
      let application := mkApplication rid ckpt in
      match e_application e with
      | Some existing =>
          if decide (existing = application) then Ok validated
          else Err InteractionAlreadyAppliedError
      | None =>
          if bool_decide (active_id validated = Some iid) then
            match e_receipt e with
            | None => Err InteractionNotPendingError
            | Some raw_receipt =>
                receipt ← receipt_from_dict (BRaw (VDict (receipt_dict raw_receipt)))
                            (Some (BRaw (VDict (request_dict (e_request e)))));
                ensure (bool_decide (receipt_id receipt = rid))
                  InteractionIntegrityError;;
                validate_interaction_journal (VDict (journal_dict
                  (mkJournal None
                     (update_entry (entries validated) iid
                        (mkEntry (e_request e) (e_checkpoint_id e) (e_receipt e)
                           (Some application)))
                     (order validated))))
            end
          else Err InteractionNotPendingError
      end
  end.

(** ** Validated data validates again *)

(** Follow a computation that is known to have returned, bind by bind. *)
Ltac binds H :=
  repeat match type of H with
  | (_ ≫= _) = Ok _ =>
      let x := fresh "x" in let E := fresh "E" in
      apply result_bind_ok in H as (x & E & H)
  end.

(** Replay a computation whose steps are known. *)
Ltac replay :=
  repeat first
    [ progress cbn [mbind result_bind]
    | match goal with
      | H : ?m = Ok _ |- context [?m] => rewrite H
      end ].

Definition json_ok (v : pyval) : Prop := _strict_json_copy v = Ok v.

Lemma strict_copy_id v v' : _strict_json_copy v = Ok v' → v' = v.
Proof.
  revert v'. induction v as [|b|z|f|s|l IH|d IH|c i] using pyval_nested_ind; intros v' Hv; simpl in Hv;
    try naive_solver; try (case_match; naive_solver).
  - apply result_bind_ok in Hv as (l' & Hl & [= <-]). f_equal. revert l' Hl.
    induction IH as [|x l Hx _ IHl]; intros l' Hl; [naive_solver|].
    binds Hl. injection Hl as <-. f_equal; auto.
  - apply result_bind_ok in Hv as (d' & Hd & [= <-]). f_equal. revert d' Hd.
    induction IH as [|[k x] d Hx _ IHd]; intros d' Hd; [naive_solver|].
    destruct k as [k|]; [|done]. binds Hd. injection Hd as <-. f_equal; [|auto]. f_equal. auto.
Qed.

Lemma strict_copy_ok v v' : _strict_json_copy v = Ok v' → json_ok v.
Proof. intros H. by rewrite (strict_copy_id _ _ H) in H. Qed.

Definition item_ok (p : pykey * pyval) : Prop :=
  match p.1 with KStr _ => json_ok p.2 | KObj _ _ => False end.

Lemma json_ok_dict d : json_ok (VDict d) ↔ Forall item_ok d.
Proof.
  unfold json_ok. simpl. split.
  - intros H. apply result_bind_ok in H as (d' & Hd & _). revert d' Hd.
    induction d as [|[k x] d IH]; intros d' Hd; [constructor|].
    destruct k as [k|]; [|done]. binds Hd. constructor; [|eauto]. by eapply strict_copy_ok.
  - intros H. match goal with |- ?m ≫= _ = _ => assert (m = Ok d) as -> end; [|done].
    induction H as [|[k x] d Hx _ IH]; [done|]. destruct k as [k|]; [|done].
    unfold item_ok, json_ok in Hx. simpl in Hx. by rewrite Hx; simpl; rewrite IH.
Qed.

Lemma json_ok_list l : json_ok (VList l) ↔ Forall json_ok l.
Proof.
  unfold json_ok. simpl. split.
  - intros H. apply result_bind_ok in H as (l' & Hl & _). revert l' Hl.
    induction l as [|x l IH]; intros l' Hl; [constructor|].
    binds Hl. constructor; [|eauto]. by eapply strict_copy_ok.
  - intros H. match goal with |- ?m ≫= _ = _ => assert (m = Ok l) as -> end; [|done].
    induction H as [|x l Hx _ IH]; [done|]. by rewrite Hx; simpl; rewrite IH.
Qed.

Lemma json_ok_str s : json_ok (VStr s) ↔ encodable s = true.
Proof. unfold json_ok. simpl. by destruct (encodable s). Qed.

(** *** Text *)

Lemma space_not_surrogate c : is_space c = true → is_surrogate c = false.
Proof.
  unfold is_space, is_surrogate. intros H. apply andb_false_iff.
  rewrite !orb_true_iff, !andb_true_iff, !N.leb_le, !N.eqb_eq in H. rewrite !N.leb_gt. lia.
Qed.

Lemma encodable_lstrip s : encodable (lstrip s) = encodable s.
Proof.
  induction s as [|c s IH]; [done|]. simpl. destruct (is_space c) eqn:E; [|done].
  by rewrite (space_not_surrogate _ E).
Qed.

Lemma encodable_reverse s : encodable (reverse s) = encodable s.
Proof.
  apply eq_true_iff_eq. unfold encodable. rewrite !forallb_forall.
  setoid_rewrite <-list_elem_of_In. setoid_rewrite elem_of_reverse. done.
Qed.

Lemma encodable_strip s : encodable (strip s) = encodable s.
Proof.
  unfold strip, rstrip.
  by rewrite encodable_reverse, encodable_lstrip, encodable_reverse, encodable_lstrip.
Qed.

Lemma required_text_inv v t :
  _required_text v = Ok t → ∃ s, v = VStr s ∧ t = strip s ∧ encodable s = true ∧
    _required_text (VStr t) = Ok t.
Proof.
  destruct v as [| | | |s| | |]; try done. unfold _required_text.
  destruct (nonempty (strip s)) eqn:Hn; [|done].
  destruct (encodable (strip s)) eqn:He; [|done]. intros [= <-].
  exists s. rewrite strip_idemp, Hn, He. rewrite encodable_strip in He. done.
Qed.

Lemma required_text_fix v t : _required_text v = Ok t → _required_text (VStr t) = Ok t.
Proof. intros (s & _ & _ & _ & ?)%required_text_inv. done. Qed.

Lemma required_text_json v t : _required_text v = Ok t → json_ok (VStr t).
Proof.
  intros (s & _ & -> & He & _)%required_text_inv. apply json_ok_str. by rewrite encodable_strip.
Qed.

(** A field kept in raw form: its text passes again and gives the same. *)
Lemma required_text_raw v t :
  _required_text v = Ok t → v = VStr (text_of v) ∧ json_ok (VStr (text_of v)).
Proof. intros (s & -> & _ & He & _)%required_text_inv. by rewrite json_ok_str. Qed.

Lemma non_negative_inv v z : _non_negative_int v = Ok z → v = VInt z.
Proof.
  destruct v as [| |y| | | | |]; try done. unfold _non_negative_int. simpl.
  case_match; [done|]. by intros [= ->].
Qed.

Lemma check_kind_inv v k : check_kind v = Ok k → v = VStr k ∧ json_ok (VStr k).
Proof.
  destruct v as [| | | |s| | |]; try done. unfold check_kind.
  case_bool_decide as Hk; [|done]. intros [= <-]. split; [done|].
  apply json_ok_str. unfold INTERACTION_KINDS in Hk.
  repeat (apply elem_of_cons in Hk as [->|Hk]; [vm_compute; reflexivity|]).
  by apply elem_of_nil in Hk.
Qed.

Lemma schema_version_json v : _validate_schema_version v = Ok tt → json_ok v.
Proof.
  unfold _validate_schema_version. rewrite ensure_ok.
  destruct v as [| | |f| | | |]; try done. unfold json_ok. simpl. by destruct f.
Qed.

(** *** Requests and receipts *)

(** An object that the constructor returned: building it again from its own
    fields returns it. *)
Definition wf_request (r : InteractionRequest) : Prop :=
  request_of_dict (request_dict r) = Ok r ∧ json_ok (VDict (request_dict r)).
Definition wf_receipt (r : InteractionReceipt) : Prop :=
  receipt_of_dict (receipt_dict r) = Ok r ∧ json_ok (VDict (receipt_dict r)).

(** The fields of a [*_dict] are read back; the names are literals. *)
Lemma request_of_request_dict r :
  request_of_dict (request_dict r) =
  make_InteractionRequest (req_schema_version r) (VStr (interaction_id r)) (VStr (session_id r))
    (VStr (kind r)) (VStr (source_run_id r)) (VStr (occurrence r)) (payload r)
    (response_contract r) (VStr (schema_digest r)) (VStr (request_digest r))
    (VInt (created_revision r)) (subject r).
Proof. reflexivity. Qed.

Lemma receipt_of_receipt_dict r :
  receipt_of_dict (receipt_dict r) =
  make_InteractionReceipt (rcp_schema_version r) (VStr (receipt_id r))
    (VStr (rcp_interaction_id r)) (VStr (rcp_request_digest r)) (response r)
    (VStr (response_digest r)) (VStr (submitted_by r)) (VStr (receipt_digest r))
    (VInt (submitted_at_ms r)).
Proof. reflexivity. Qed.

(** Turn what a constructor checked into facts about the fields it keeps. *)
Ltac field_facts :=
  repeat match goal with
  | H : _strict_json_copy ?v = Ok ?v' |- _ =>
      lazymatch v' with
      | v => fail
      | _ => let E := fresh in pose proof (strict_copy_id _ _ H) as E; subst v'
      end
  | H : _non_negative_int ?v = Ok _ |- _ =>
      lazymatch v with VInt _ => fail | _ => pose proof (non_negative_inv _ _ H); subst v end
  | H : check_kind ?v = Ok _ |- _ =>
      lazymatch v with
      | VStr _ => fail
      | _ => let E := fresh in pose proof (check_kind_inv _ _ H) as [E ?]; subst v
      end
  | x : () |- _ => destruct x
  end.

(** Every text that passed passes again in its normal form. *)
Ltac fix_texts :=
  repeat match goal with
  | H : _required_text ?v = Ok ?t |- _ =>
      lazymatch goal with
      | _ : _required_text (VStr t) = Ok t |- _ => fail
      | _ => pose proof (required_text_fix _ _ H)
      end
  end.

Lemma json_ok_int z : json_ok (VInt z).
Proof. reflexivity. Qed.

Ltac json_fields :=
  apply json_ok_dict; unfold request_dict, receipt_dict; rewrite !Forall_cons, Forall_nil;
  split_and!; first [exact I | unfold item_ok, field; cbn [fst snd];
    eauto using strict_copy_ok, required_text_json, schema_version_json, json_ok_int].

Lemma make_request_wf sv iid sid k srid occ p rc sd rd cr sub r :
  make_InteractionRequest sv iid sid k srid occ p rc sd rd cr sub = Ok r → wf_request r.
Proof.
  intros H. unfold make_InteractionRequest in H. binds H.
  injection H as <-. field_facts.
  assert (sd = VStr (text_of sd) ∧ json_ok (VStr (text_of sd))) as [Hsd ?]
    by by eapply required_text_raw.
  assert (rd = VStr (text_of rd) ∧ json_ok (VStr (text_of rd))) as [Hrd ?]
    by by eapply required_text_raw.
  split; [|json_fields].
  rewrite request_of_request_dict. cbn [req_schema_version interaction_id session_id kind
    source_run_id occurrence payload response_contract schema_digest request_digest
    created_revision subject]. rewrite <-Hsd, <-Hrd.
  unfold make_InteractionRequest. fix_texts. replay. done.
Qed.

Lemma make_receipt_wf sv rid iid rd rsp rspd sb rcd at_ r :
  make_InteractionReceipt sv rid iid rd rsp rspd sb rcd at_ = Ok r → wf_receipt r.
Proof.
  intros H. unfold make_InteractionReceipt in H. binds H.
  injection H as <-. field_facts.
  assert (rid = VStr (text_of rid) ∧ json_ok (VStr (text_of rid))) as [Hrid ?]
    by by eapply required_text_raw.
  assert (rspd = VStr (text_of rspd) ∧ json_ok (VStr (text_of rspd))) as [Hrspd ?]
    by by eapply required_text_raw.
  assert (rcd = VStr (text_of rcd) ∧ json_ok (VStr (text_of rcd))) as [Hrcd ?]
    by by eapply required_text_raw.
  split; [|json_fields].
  rewrite receipt_of_receipt_dict. cbn [rcp_schema_version receipt_id rcp_interaction_id
    rcp_request_digest response response_digest submitted_by receipt_digest submitted_at_ms].
  rewrite <-Hrid, <-Hrspd, <-Hrcd. unfold make_InteractionReceipt.
  fix_texts. replay. done.
Qed.

Lemma request_fields_of r : _require_exact_fields (request_dict r) request_fields = Ok tt.
Proof. vm_compute. reflexivity. Qed.

Lemma receipt_fields_of r : _require_exact_fields (receipt_dict r) receipt_fields = Ok tt.
Proof. vm_compute. reflexivity. Qed.

Lemma request_from_dict_wf raw r : request_from_dict raw = Ok r → wf_request r.
Proof.
  destruct raw as [r'|v]; simpl.
  - apply make_request_wf.
  - destruct v; try done. intros H. apply result_bind_ok in H as (c & Hc & H).
    destruct c; try done. apply result_bind_ok in H as (? & _ & H). by eapply make_request_wf.
Qed.

Lemma request_from_dict_raw r :
  wf_request r → request_from_dict (BRaw (VDict (request_dict r))) = Ok r.
Proof.
  intros [Hr Hj]. cbn [request_from_dict]. rewrite Hj. cbn [mbind result_bind].
  rewrite request_fields_of. done.
Qed.

Lemma request_from_dict_object r : wf_request r → request_from_dict (BObject r) = Ok r.
Proof. by intros [Hr _]. Qed.

(** A receipt that answers the request. *)
Definition answers (c : InteractionReceipt) (r : InteractionRequest) : Prop :=
  rcp_interaction_id c = interaction_id r ∧ rcp_request_digest c = request_digest r.

Lemma receipt_from_dict_wf raw request c :
  receipt_from_dict raw request = Ok c →
  wf_receipt c ∧ ∀ b r, request = Some b → request_from_dict b = Ok r → answers c r.
Proof.
  unfold receipt_from_dict. intros H. apply result_bind_ok in H as (c' & Hc & H).
  assert (wf_receipt c') as Hwf.
  { destruct raw as [r'|v]; [by eapply make_receipt_wf|]. destruct v; try done.
    apply result_bind_ok in Hc as (w & _ & Hc). destruct w; try done.
    apply result_bind_ok in Hc as (? & _ & Hc). by eapply make_receipt_wf. }
  destruct request as [b|]; [|naive_solver].
  apply result_bind_ok in H as (r & Hr & H). apply result_bind_ok in H as (? & Hb & [= <-]).
  apply ensure_ok in Hb. bsimpl. split; [done|]. intros b' r' [= <-] Hr'.
  rewrite Hr in Hr'. injection Hr' as <-. done.
Qed.

Lemma receipt_from_dict_again (as_object : bool) c request :
  wf_receipt c →
  (∀ b, request = Some b → ∃ r, request_from_dict b = Ok r ∧ answers c r) →
  receipt_from_dict (if as_object then BObject c else BRaw (VDict (receipt_dict c))) request = Ok c.
Proof.
  intros [Hc Hj] Hb. unfold receipt_from_dict.
  match goal with |- ?m ≫= _ = _ => assert (m = Ok c) as -> end.
  { destruct as_object; [done|]. rewrite Hj. cbn [mbind result_bind].
    by rewrite receipt_fields_of. }
  cbn [mbind result_bind]. destruct request as [b|]; [|done].
  destruct (Hb b eq_refl) as (r & Hr & H1 & H2). rewrite Hr. cbn [mbind result_bind].
  unfold ensure. rewrite !bool_decide_true by done. done.
Qed.

(** *** Entries and journals *)

Definition wf_application (a : application) (c : InteractionReceipt) : Prop :=
  app_receipt_id a = receipt_id c ∧ _required_text (VStr (app_receipt_id a)) = Ok (app_receipt_id a) ∧
  _required_text (VStr (applied_checkpoint_id a)) = Ok (applied_checkpoint_id a).

(** What a validated entry satisfies: valid request under its own identity, a
    receipt that answers it, an application that names the receipt. *)
Record wf_entry (iid : pystr) (e : entry) : Prop := {
  we_id : interaction_id (e_request e) = iid;
  we_nonempty : nonempty iid = true;
  we_request : wf_request (e_request e);
  we_checkpoint : _required_text (VStr (e_checkpoint_id e)) = Ok (e_checkpoint_id e);
  we_receipt : ∀ c, e_receipt e = Some c → wf_receipt c ∧ answers c (e_request e);
  we_application : ∀ a, e_application e = Some a →
    ∃ c, e_receipt e = Some c ∧ wf_application a c;
}.

Lemma validate_application_wf raw c a :
  _validate_application raw c = Ok (Some a) → wf_application a c.
Proof.
  destruct raw as [| | | | | |d|]; try done. unfold _validate_application. intros H. binds H.
  destruct x; try done. binds H. injection H as <-.
  repeat match goal with x : () |- _ => destruct x end.
  match goal with H : ensure (bool_decide _) _ = _ |- _ => apply ensure_ok in H; bsimpl end.
  unfold wf_application. cbn. eauto using required_text_fix.
Qed.

Lemma validate_application_again a c :
  wf_application a c → _validate_application (VDict (application_dict a)) c = Ok (Some a).
Proof.
  intros (H1 & H2 & H3). cbn [_validate_application].
  assert (json_ok (VDict (application_dict a))) as ->.
  { apply json_ok_dict. unfold application_dict. rewrite !Forall_cons, Forall_nil.
    split_and!; first [exact I | unfold item_ok, field; cbn [fst snd];
      eauto using required_text_json, json_ok_int]. }
  cbn [mbind result_bind].
  assert (_require_exact_fields (application_dict a)
    ["schema_version"; "receipt_id"; "applied_checkpoint_id"]%string = Ok tt) as ->
    by (vm_compute; reflexivity).
  assert (_validate_schema_version (get (application_dict a) "schema_version") = Ok tt) as ->
    by (vm_compute; reflexivity).
  change (get (application_dict a) "receipt_id") with (VStr (app_receipt_id a)).
  change (get (application_dict a) "applied_checkpoint_id") with (VStr (applied_checkpoint_id a)).
  cbn [mbind result_bind]. rewrite H2. cbn [mbind result_bind]. unfold ensure.
  rewrite bool_decide_true by done. cbn [mbind result_bind]. rewrite H3. by destruct a.
Qed.

Ltac units := repeat match goal with x : () |- _ => destruct x end.

Lemma validate_entry_wf k raw iid e : validate_entry k raw = Ok (iid, e) → wf_entry iid e.
Proof.
  destruct k as [k|]; [|done]. destruct raw as [| | | | | |d|]; try done. cbn [validate_entry].
  intros H. binds H. destruct x0; try done. binds H. injection H as <- <-. units.
  apply ensure_ok in E. match goal with H : ensure (bool_decide _) _ = _ |- _ =>
    apply ensure_ok in H; bsimpl end.
  match goal with H : request_from_dict _ = Ok _ |- _ => apply request_from_dict_wf in H as Hreq end.
  assert (∀ c, x4 = Some c → wf_receipt c ∧ answers c x1) as Hrc.
  { intros c ->. destruct (get _ "receipt"); try done;
      (match goal with H : _ ≫= _ = Ok (Some c) |- _ =>
         apply result_bind_ok in H as (c' & (Hw & Ha)%receipt_from_dict_wf & [= <-]) end;
       split; [done|]; apply (Ha _ _ eq_refl); by apply request_from_dict_object). }
  split; cbn; eauto using required_text_fix.
  intros a ->. destruct x4 as [c|]; [|by destruct (get _ "application")].
  eexists. split; [done|]. by eapply validate_application_wf.
Qed.

Lemma wf_entry_json iid e : wf_entry iid e → json_ok (VDict (entry_dict e)).
Proof.
  intros [Hid Hne [_ Hreq] Hck Hrc Happ]. apply json_ok_dict.
  unfold entry_dict. rewrite !Forall_cons, Forall_nil.
  split_and!; [exact Hreq|by eapply required_text_json| | |exact I];
    unfold item_ok, field; cbn [fst snd].
  - destruct (e_receipt e) as [c|]; [|done]. by apply Hrc.
  - destruct (e_application e) as [a|]; [|done].
    destruct (Happ a eq_refl) as (c & _ & _ & H1 & H2). apply json_ok_dict.
    unfold application_dict. rewrite !Forall_cons, Forall_nil.
    split_and!; first [exact I | unfold item_ok, field; cbn [fst snd];
      eauto using required_text_json, json_ok_int].
Qed.

Lemma validate_entry_again iid e :
  wf_entry iid e → validate_entry (KStr iid) (VDict (entry_dict e)) = Ok (iid, e).
Proof.
  intros Hwf. pose proof (wf_entry_json _ _ Hwf) as Hj. destruct Hwf as [Hid Hne Hreq Hck Hrc Happ].
  cbn [validate_entry]. unfold ensure at 1. rewrite Hne. cbn [mbind result_bind]. rewrite Hj.
  cbn [mbind result_bind].
  assert (_require_exact_fields (entry_dict e)
    ["request"; "checkpoint_id"; "receipt"; "application"]%string = Ok tt) as ->
    by (vm_compute; reflexivity).
  change (get (entry_dict e) "request") with (VDict (request_dict (e_request e))).
  change (get (entry_dict e) "checkpoint_id") with (VStr (e_checkpoint_id e)).
  change (get (entry_dict e) "receipt") with (opt (λ r, VDict (receipt_dict r)) (e_receipt e)).
  change (get (entry_dict e) "application")
    with (opt (λ a, VDict (application_dict a)) (e_application e)).
  cbn [mbind result_bind]. rewrite request_from_dict_raw by done. cbn [mbind result_bind].
  unfold ensure. rewrite bool_decide_true by done. cbn [mbind result_bind]. rewrite Hck.
  cbn [mbind result_bind]. destruct e as [r ck rc ap]. cbn [e_request e_receipt e_application
    e_checkpoint_id] in *. destruct rc as [c|]; cbn [opt].
  - destruct (Hrc c eq_refl) as [Hc Ha].
    rewrite (receipt_from_dict_again false c);
      [|done|intros b [= <-]; exists r; split; [by apply request_from_dict_object|done]].
    cbn [mbind result_bind]. destruct ap as [a|]; [|done].
    destruct (Happ a eq_refl) as (c' & [= <-] & Hap). cbn [opt].
    by rewrite validate_application_again.
  - cbn [mbind result_bind]. destruct ap as [a|]; [|done]. by destruct (Happ a eq_refl) as (? & ? & _).
Qed.

Definition entries_dict (es : list (pystr * entry)) : pydict :=
  (λ p, (KStr p.1, VDict (entry_dict p.2))) <$> es.

Definition wf_entries (es : list (pystr * entry)) : Prop := Forall (λ p, wf_entry p.1 p.2) es.

Lemma validate_entries_wf raw es : validate_entries raw = Ok es → wf_entries es.
Proof.
  revert es. induction raw as [|[k v] raw IH]; intros es H; cbn in H; [naive_solver constructor|].
  binds H. injection H as <-. constructor; [|by apply IH].
  destruct x. by eapply validate_entry_wf.
Qed.

Lemma validate_entries_again es : wf_entries es → validate_entries (entries_dict es) = Ok es.
Proof.
  induction 1 as [|[iid e] es He _ IH]; [done|]. unfold entries_dict. rewrite fmap_cons.
  cbn [validate_entries fst snd]. rewrite validate_entry_again by done. cbn [mbind result_bind].
  unfold entries_dict in IH. by rewrite IH.
Qed.

Record wf_journal (j : journal) : Prop := {
  wj_entries : wf_entries (entries j);
  wj_order : NoDup (order j);
  wj_consistent : journal_consistent j = true;
}.

(** The propositional reading of [journal_consistent]. *)
Lemma journal_consistent_spec j :
  journal_consistent j = true ↔
  (∀ i, i ∈ order j ↔ i ∈ (entries j).*1) ∧ pending_ids (entries j) = option_list (active_id j).
Proof.
  unfold journal_consistent. rewrite !andb_true_iff, !forallb_forall, bool_decide_eq_true.
  setoid_rewrite <-list_elem_of_In. setoid_rewrite bool_decide_eq_true. split.
  - intros [[[H1 H2] _] H4]. split; [|done]. intros i. split; auto.
  - intros [H1 H2]. split_and!; [naive_solver|naive_solver| |done].
    destruct (active_id j) as [a|]; [|done]. apply bool_decide_eq_true.
    assert (a ∈ pending_ids (entries j)) as Ha by (rewrite H2; apply list_elem_of_here).
    unfold pending_ids in Ha. apply list_elem_of_fmap in Ha as ([k e] & -> & Hp).
    apply list_elem_of_filter in Hp as [_ Hp]. by apply (list_elem_of_fmap_2 fst) in Hp.
Qed.

Lemma wf_journal_key j i :
  wf_journal j → i ∈ (entries j).*1 → nonempty i = true ∧ json_ok (VStr i).
Proof.
  intros [He _ _] ([k e] & -> & Hin)%list_elem_of_fmap. cbn.
  unfold wf_entries in He. rewrite Forall_forall in He.
  destruct (He _ Hin) as [Hid Hne [_ Hj] _ _ _]. cbn in *. split; [done|].
  apply json_ok_dict in Hj. unfold request_dict in Hj. rewrite !Forall_cons in Hj.
  destruct Hj as (_ & Hi & _). unfold item_ok in Hi. cbn in Hi. by rewrite Hid in Hi.
Qed.

Lemma wf_journal_active j a :
  wf_journal j → active_id j = Some a → a ∈ (entries j).*1.
Proof.
  intros [_ _ Hc] Ha. apply journal_consistent_spec in Hc as [_ Hp]. rewrite Ha in Hp.
  assert (a ∈ pending_ids (entries j)) as Hin by (rewrite Hp; apply list_elem_of_here).
  unfold pending_ids in Hin. apply list_elem_of_fmap in Hin as ([k e] & -> & Hin).
  apply list_elem_of_filter in Hin as [_ Hin]. by apply (list_elem_of_fmap_2 fst) in Hin.
Qed.

Lemma validate_order_again l :
  NoDup l → Forall (λ i, nonempty i = true) l → validate_order (VList (VStr <$> l)) = Ok l.
Proof.
  intros Hnd Hne. unfold validate_order.
  assert (order_ids (VStr <$> l) = Ok l) as ->.
  { clear Hnd. induction Hne as [|i l Hi _ IH]; [done|]. rewrite fmap_cons.
    cbn [order_ids]. unfold ensure. rewrite Hi. cbn [mbind result_bind]. by rewrite IH. }
  cbn [mbind result_bind]. unfold ensure. by rewrite bool_decide_true.
Qed.

Lemma validate_order_NoDup v l : validate_order v = Ok l → NoDup l.
Proof.
  destruct v; try done. unfold validate_order. intros H. binds H. injection H as <-.
  apply ensure_ok in E0. by bsimpl.
Qed.

Lemma validate_journal_wf raw j : validate_interaction_journal raw = Ok j → wf_journal j.
Proof.
  destruct raw as [| | | | | |d|]; try done; cbn [validate_interaction_journal].
  - intros [= <-]. split; [constructor|constructor|done].
  - intros H. binds H. destruct x; try done. binds H. destruct (get _ "entries"); try done.
    binds H. injection H as <-. units. split; cbn.
    + by eapply validate_entries_wf.
    + by eapply validate_order_NoDup.
    + by match goal with H : ensure _ _ = _ |- _ => apply ensure_ok in H end.
Qed.

Lemma validate_journal_again j :
  wf_journal j → validate_interaction_journal (VDict (journal_dict j)) = Ok j.
Proof.
  intros Hwf. destruct (Hwf) as [He Ho Hc].
  pose proof Hc as [Hset Hpend]%journal_consistent_spec.
  assert (Forall (λ i, nonempty i = true ∧ json_ok (VStr i)) (order j)) as Hids.
  { apply Forall_forall. intros i Hi%Hset. by eapply wf_journal_key. }
  assert (json_ok (VDict (journal_dict j))) as Hj.
  { apply json_ok_dict. unfold journal_dict. rewrite !Forall_cons, Forall_nil.
    split_and!; unfold item_ok, field; cbn [fst snd]; [done| | | |exact I].
    - destruct (active_id j) eqn:Ha; [|done]. cbn [opt].
      by eapply wf_journal_key, wf_journal_active.
    - apply json_ok_dict, Forall_fmap. eapply Forall_impl; [exact He|].
      intros [k e] Hwe. cbn. by eapply wf_entry_json.
    - apply json_ok_list, Forall_fmap. eapply Forall_impl; [exact Hids|]. naive_solver. }
  cbn [validate_interaction_journal]. rewrite Hj. cbn [mbind result_bind].
  assert (_require_exact_fields (journal_dict j)
    ["schema_version"; "active_id"; "entries"; "order"]%string = Ok tt) as ->
    by (vm_compute; reflexivity).
  assert (_validate_schema_version (get (journal_dict j) "schema_version") = Ok tt) as ->
    by (vm_compute; reflexivity).
  change (get (journal_dict j) "entries") with (VDict (entries_dict (entries j))).
  change (get (journal_dict j) "order") with (VList (VStr <$> order j)).
  change (get (journal_dict j) "active_id") with (opt VStr (active_id j)).
  cbn [mbind result_bind]. rewrite validate_order_again;
    [|done|by eapply Forall_impl; [exact Hids|intros i [? _]]]. cbn [mbind result_bind].
  assert (validate_active_id (opt VStr (active_id j)) = Ok (active_id j)) as ->.
  { destruct (active_id j) eqn:Ha; [|done]. cbn. unfold ensure.
    by rewrite (proj1 (wf_journal_key _ _ Hwf (wf_journal_active _ _ Hwf Ha))). }
  cbn [mbind result_bind]. rewrite validate_entries_again by done. cbn [mbind result_bind].
  destruct j as [a es o]. cbn [active_id entries order] in *. unfold ensure. rewrite Hc. done.
Qed.

(** ** The journal as a state machine *)

Definition registered (j : journal) (r : InteractionRequest) (ckpt : pystr) : journal :=
  mkJournal (Some (interaction_id r))
    (entries j ++ [(interaction_id r, mkEntry r ckpt None None)]) (order j ++ [interaction_id r]).

Definition recorded (j : journal) (iid : pystr) (e : entry) (c : InteractionReceipt) : journal :=
  mkJournal (active_id j)
    (update_entry (entries j) iid (mkEntry (e_request e) (e_checkpoint_id e) (Some c) None))
    (order j).

Definition applied (j : journal) (iid : pystr) (e : entry) (a : application) : journal :=
  mkJournal None
    (update_entry (entries j) iid
       (mkEntry (e_request e) (e_checkpoint_id e) (e_receipt e) (Some a))) (order j).

Section entry_lemmas.
Implicit Types (es : list (pystr * entry)) (iid : pystr) (e : entry).

Lemma find_entry_None es iid : find_entry es iid = None ↔ iid ∉ es.*1.
Proof.
  induction es as [|[k e] es IH]; cbn [find_entry]; [set_solver|].
  rewrite fmap_cons, not_elem_of_cons. cbn. case_decide; [naive_solver|]. rewrite IH. naive_solver.
Qed.

Lemma find_entry_elem es iid e : find_entry es iid = Some e → (iid, e) ∈ es.
Proof.
  induction es as [|[k e'] es IH]; cbn [find_entry]; [done|]. case_decide; [|set_solver].
  intros [= ->]. subst. apply list_elem_of_here.
Qed.

Lemma find_entry_wf es iid e : wf_entries es → find_entry es iid = Some e → wf_entry iid e.
Proof.
  unfold wf_entries. rewrite Forall_forall. intros H Hf%find_entry_elem. by apply (H _ Hf).
Qed.

Lemma find_entry_app es es' iid :
  find_entry (es ++ es') iid =
  match find_entry es iid with Some e => Some e | None => find_entry es' iid end.
Proof. induction es as [|[k e] es IH]; cbn; [done|]. by case_decide. Qed.

Lemma keys_update es iid e : (update_entry es iid e).*1 = es.*1.
Proof.
  induction es as [|[k e'] es IH]; cbn [update_entry]; [done|].
  case_decide; rewrite !fmap_cons; [done|]. by rewrite IH.
Qed.

Lemma find_update_eq es iid e e0 :
  find_entry es iid = Some e0 → find_entry (update_entry es iid e) iid = Some e.
Proof.
  induction es as [|[k e'] es IH]; cbn [find_entry update_entry]; [done|].
  case_decide as Hk; intros H; cbn [find_entry]; [by rewrite decide_True|].
  rewrite decide_False by done. by apply IH.
Qed.

Lemma find_update_ne es iid iid' e :
  iid ≠ iid' → find_entry (update_entry es iid e) iid' = find_entry es iid'.
Proof.
  intros Hne. induction es as [|[k e'] es IH]; cbn [find_entry update_entry]; [done|].
  destruct (decide (k = iid)) as [->|]; cbn [find_entry]; [by rewrite !decide_False|].
  by case_decide.
Qed.

Lemma wf_update es iid e : wf_entries es → wf_entry iid e → wf_entries (update_entry es iid e).
Proof.
  intros H He. induction H as [|[k e'] es Hk Hes IH]; cbn [update_entry]; [constructor|].
  case_decide as Hd; [subst k|]; by constructor.
Qed.

Lemma pending_cons k e es :
  pending_ids ((k, e) :: es) =
  match e_application e with None => k :: pending_ids es | Some _ => pending_ids es end.
Proof.
  unfold pending_ids. rewrite filter_cons. cbn.
  destruct (e_application e); [by rewrite decide_False|by rewrite decide_True].
Qed.

Lemma pending_app es es' : pending_ids (es ++ es') = pending_ids es ++ pending_ids es'.
Proof. unfold pending_ids. by rewrite filter_app, fmap_app. Qed.

Lemma pending_update_same es iid e e0 :
  find_entry es iid = Some e0 → e_application e = e_application e0 →
  pending_ids (update_entry es iid e) = pending_ids es.
Proof.
  induction es as [|[k e'] es IH]; cbn [find_entry update_entry]; [done|].
  case_decide as Hk; intros H Ha.
  - injection H as ->. by rewrite !pending_cons, Ha.
  - by rewrite !pending_cons, IH.
Qed.

Lemma pending_update_applied es iid e e0 a :
  find_entry es iid = Some e0 → e_application e0 = None → e_application e = Some a →
  length (pending_ids es) = S (length (pending_ids (update_entry es iid e))).
Proof.
  induction es as [|[k e'] es IH]; cbn [find_entry update_entry]; [done|].
  case_decide as Hk; intros H H0 Ha.
  - injection H as ->. by rewrite !pending_cons, H0, Ha.
  - rewrite !pending_cons. destruct (e_application e'); cbn; by rewrite IH.
Qed.
End entry_lemmas.

Lemma registered_wf j r ckpt :
  wf_journal j → wf_request r → _required_text (VStr ckpt) = Ok ckpt →
  nonempty (interaction_id r) = true →
  find_entry (entries j) (interaction_id r) = None → active_id j = None →
  wf_journal (registered j r ckpt).
Proof.
  intros [He Ho Hc] Hr Hck Hne Hf%find_entry_None Ha.
  apply journal_consistent_spec in Hc as [Hset Hp]. split.
  - apply Forall_app. split; [done|]. constructor; [|constructor]. by split; cbn.
  - apply NoDup_app. split_and!; [done| |apply NoDup_singleton].
    intros i Hi ->%list_elem_of_singleton. apply Hf, Hset, Hi.
  - apply journal_consistent_spec.
    cbn [registered recorded applied active_id entries order]. split.
    + intros i. rewrite fmap_app, !elem_of_app, Hset. done.
    + rewrite pending_app, Hp, Ha. done.
Qed.

Lemma recorded_wf j iid e c :
  wf_journal j → find_entry (entries j) iid = Some e → e_application e = None →
  wf_receipt c → answers c (e_request e) → wf_journal (recorded j iid e c).
Proof.
  intros [He Ho Hc] Hf Happ Hwc Ha. apply journal_consistent_spec in Hc as [Hset Hp].
  destruct (find_entry_wf _ _ _ He Hf) as [Hid Hne Hreq Hck _ _]. split; cbn.
  - apply wf_update; [done|]. split; cbn; try done. by intros c' [= <-].
  - done.
  - apply journal_consistent_spec.
    cbn [registered recorded applied active_id entries order]. rewrite keys_update. split; [done|].
    by erewrite pending_update_same.
Qed.

Lemma applied_wf j iid e a c :
  wf_journal j → find_entry (entries j) iid = Some e → e_application e = None →
  e_receipt e = Some c → wf_application a c → active_id j = Some iid →
  wf_journal (applied j iid e a).
Proof.
  intros [He Ho Hc] Hf Happ Hrc Ha Hact. apply journal_consistent_spec in Hc as [Hset Hp].
  destruct (find_entry_wf _ _ _ He Hf) as [Hid Hne Hreq Hck Hre _]. split; cbn.
  - apply wf_update; [done|]. split; cbn; try done. intros a' [= <-]. eauto.
  - done.
  - apply journal_consistent_spec.
    cbn [registered recorded applied active_id entries order]. rewrite keys_update. split; [done|].
    apply nil_length_inv. rewrite Hact in Hp.
    pose proof (pending_update_applied _ _ (mkEntry (e_request e) (e_checkpoint_id e) (e_receipt e)
      (Some a)) _ a Hf Happ eq_refl) as Hl. rewrite Hp in Hl. cbn in Hl. lia.
Qed.

(** What each operation does to a validated journal. *)
Lemma wf_request_nonempty r : wf_request r → nonempty (interaction_id r) = true.
Proof.
  intros [H _]. rewrite request_of_request_dict in H. unfold make_InteractionRequest in H.
  binds H. units.
  match goal with H : _required_text (VStr (interaction_id r)) = Ok _ |- _ => rename H into Ht end.
  unfold _required_text in Ht. destruct (interaction_id r); [|done]. by vm_compute in Ht.
Qed.

Lemma register_cases j req ck j' :
  wf_journal j → register_interaction_request (VDict (journal_dict j)) req ck = Ok j' →
  j' = j ∨ ∃ r ckpt, request_from_dict req = Ok r ∧ _required_text ck = Ok ckpt ∧
    find_entry (entries j) (interaction_id r) = None ∧ active_id j = None ∧
    j' = registered j r ckpt ∧ wf_journal j'.
Proof.
  intros Hwf. unfold register_interaction_request. rewrite validate_journal_again by done.
  cbn [mbind result_bind]. intros H.
  apply result_bind_ok in H as (r & Hr & H). apply result_bind_ok in H as (ckpt & Hck & H).
  destruct (find_entry _ _) eqn:Hf; [case_match; naive_solver|]. right. exists r, ckpt.
  assert (active_id j = None) as Hact.
  { destruct (active_id j) as [a|] eqn:Ha; [|done]. case_bool_decide; [|done]. subst a.
    by apply find_entry_None in Hf as []; apply wf_journal_active. }
  rewrite Hact in H. pose proof (request_from_dict_wf _ _ Hr) as Hwr.
  assert (wf_journal (registered j r ckpt)) as Hnew
    by eauto using registered_wf, required_text_fix, wf_request_nonempty.
  fold (registered j r ckpt) in H. rewrite validate_journal_again in H by done.
  injection H as <-. done.
Qed.

Lemma record_cases j rc j' :
  wf_journal j → record_interaction_receipt (VDict (journal_dict j)) rc = Ok j' →
  j' = j ∨ ∃ c e, receipt_from_dict rc None = Ok c ∧
    find_entry (entries j) (rcp_interaction_id c) = Some e ∧ e_receipt e = None ∧
    e_application e = None ∧ active_id j = Some (rcp_interaction_id c) ∧
    answers c (e_request e) ∧ j' = recorded j (rcp_interaction_id c) e c ∧ wf_journal j'.
Proof.
  intros Hwf. unfold record_interaction_receipt. rewrite validate_journal_again by done.
  cbn [mbind result_bind]. intros H. apply result_bind_ok in H as (c & Hc & H).
  destruct (find_entry _ _) as [e|] eqn:Hf; [|done].
  pose proof (find_entry_wf _ _ _ (wj_entries _ Hwf) Hf) as He.
  rewrite request_from_dict_raw in H by apply He. cbn [mbind result_bind] in H.
  apply result_bind_ok in H as (c' & Hans & H).
  destruct (e_receipt e) as [c0|] eqn:Hrc.
  { apply result_bind_ok in H as (? & _ & H). case_bool_decide; [naive_solver|]. by case_match. }
  destruct (e_application e) eqn:Happ; [done|]. case_bool_decide as Hact; [|done].
  right. exists c, e. apply receipt_from_dict_wf in Hc as Hwc. destruct Hwc as [Hwc _].
  assert (answers c (e_request e)) as Ha.
  { pose proof (receipt_from_dict_wf _ _ _ Hans) as [_ Hx].
    assert (c' = c) as ->.
    { unfold receipt_from_dict in Hans. destruct Hwc as [Hwc _]. rewrite Hwc in Hans.
      cbn [mbind result_bind] in Hans. by binds Hans; injection Hans. }
    eapply Hx; [done|]. apply request_from_dict_object, He. }
  assert (wf_journal (recorded j (rcp_interaction_id c) e c)) as Hnew by eauto using recorded_wf.
  fold (recorded j (rcp_interaction_id c) e c) in H. rewrite validate_journal_again in H by done.
  injection H as <-. done.
Qed.

Lemma mark_cases j iid0 rid0 ck0 j' :
  wf_journal j → mark_interaction_applied (VDict (journal_dict j)) iid0 rid0 ck0 = Ok j' →
  j' = j ∨ ∃ iid e c a, find_entry (entries j) iid = Some e ∧ e_application e = None ∧
    e_receipt e = Some c ∧ wf_application a c ∧ active_id j = Some iid ∧
    j' = applied j iid e a ∧ wf_journal j'.
Proof.
  intros Hwf. unfold mark_interaction_applied. rewrite validate_journal_again by done.
  cbn [mbind result_bind]. intros H.
  apply result_bind_ok in H as (iid & Hi & H). apply result_bind_ok in H as (rid & Hrid & H).
  apply result_bind_ok in H as (ckpt & Hck & H).
  destruct (find_entry _ _) as [e|] eqn:Hf; [|done].
  destruct (e_application e) eqn:Happ; [case_decide; naive_solver|].
  case_bool_decide as Hact; [|done]. destruct (e_receipt e) as [c|] eqn:Hrc; [|done].
  pose proof (find_entry_wf _ _ _ (wj_entries _ Hwf) Hf) as He.
  destruct (we_receipt _ _ He c Hrc) as [Hwc Ha].
  rewrite (receipt_from_dict_again false) in H;
    [|done|intros b [= <-]; exists (e_request e); split; [apply request_from_dict_raw, He|done]].
  cbn [mbind result_bind] in H. apply result_bind_ok in H as (? & Heq & H).
  apply ensure_ok in Heq. apply bool_decide_eq_true in Heq.
  right. exists iid, e, c, (mkApplication rid ckpt).
  assert (wf_application (mkApplication rid ckpt) c) as Hwa.
  { split_and!; [done|by eapply required_text_fix..]. }
  assert (wf_journal (applied j iid e (mkApplication rid ckpt))) as Hnew by eauto using applied_wf.
  assert (mkJournal None (update_entry (entries j) iid (mkEntry (e_request e) (e_checkpoint_id e)
    (Some c) (Some (mkApplication rid ckpt)))) (order j) = applied j iid e (mkApplication rid ckpt))
    as Heq' by (unfold applied; by rewrite Hrc).
  rewrite Heq', validate_journal_again in H by done.
  injection H as <-. done.
Qed.

(** One successful journal operation, on the dict the previous one returned. *)
Inductive journal_step : journal → journal → Prop :=
| step_register j req ck j' :
    register_interaction_request (VDict (journal_dict j)) req ck = Ok j' → journal_step j j'
| step_record j rc j' :
    record_interaction_receipt (VDict (journal_dict j)) rc = Ok j' → journal_step j j'
| step_mark j iid rid ck j' :
    mark_interaction_applied (VDict (journal_dict j)) iid rid ck = Ok j' → journal_step j j'.

(** What may change between two journals: entries are added at the end, a
    receipt and then an application are filled in once. *)
Definition entry_evolves (e e' : entry) : Prop :=
  e_request e' = e_request e ∧ e_checkpoint_id e' = e_checkpoint_id e ∧
  (∀ c, e_receipt e = Some c → e_receipt e' = Some c) ∧
  (∀ a, e_application e = Some a → e_application e' = Some a).

Definition journal_evolves (j j' : journal) : Prop :=
  order j `prefix_of` order j' ∧
  ∀ iid e, find_entry (entries j) iid = Some e →
    ∃ e', find_entry (entries j') iid = Some e' ∧ entry_evolves e e'.

#[export] Instance entry_evolves_preorder : PreOrder entry_evolves.
Proof.
  split; [done|]. intros e1 e2 e3 (? & ? & ? & ?) (? & ? & ? & ?).
  split_and!; [congruence|congruence|auto|auto].
Qed.

#[export] Instance journal_evolves_preorder : PreOrder journal_evolves.
Proof.
  split.
  - intros j. split; [done|]. intros iid e He. exists e. split; [done|reflexivity].
  - intros j1 j2 j3 [Ho1 H1] [Ho2 H2]. split; [by etrans|]. intros iid e He.
    destruct (H1 _ _ He) as (e2 & He2 & ?). destruct (H2 _ _ He2) as (e3 & He3 & ?).
    exists e3. split; [done|by etrans].
Qed.

Lemma update_evolves j iid e e' a :
  find_entry (entries j) iid = Some e → entry_evolves e e' →
  journal_evolves j (mkJournal a (update_entry (entries j) iid e') (order j)).
Proof.
  intros Hf Hev. split; [done|]. intros i ei Hi. cbn. destruct (decide (iid = i)) as [<-|Hne].
  - exists e'. split; [by eapply find_update_eq|]. by simplify_eq.
  - exists ei. rewrite find_update_ne by done. split; [done|reflexivity].
Qed.

Lemma journal_step_evolves j j' :
  wf_journal j → journal_step j j' → wf_journal j' ∧ journal_evolves j j'.
Proof.
  intros Hwf Hs. assert (wf_journal j ∧ journal_evolves j j) as Hsame by (split; [done|reflexivity]).
  destruct Hs as [j req ck j' H|j rc j' H|j iid rid ck j' H].
  - apply register_cases in H as [->|(r & ckpt & _ & _ & _ & _ & -> & ?)]; [done| |done].
    split; [done|]. split; [by exists [interaction_id r]|]. intros iid e He. exists e.
    cbn. rewrite find_entry_app, He. split; [done|reflexivity].
  - apply record_cases in H as [->|(c & e & _ & Hf & Hr & Ha & _ & _ & -> & ?)]; [done| |done].
    split; [done|]. eapply update_evolves; [done|]. split_and!; cbn; congruence.
  - apply mark_cases in H as [->|(i & e & c & a & Hf & Ha & _ & _ & _ & -> & ?)]; [done| |done].
    split; [done|]. eapply update_evolves; [done|]. split_and!; cbn; congruence.
Qed.

(** The journal is an append-only record of decisions.  Through any
    sequence of successful registrations, receipts and applications, started
    from anything that validates: requests and their checkpoints never change
    or disappear, an answer once recorded is never replaced, an application
    once marked is never undone; at every point at most one interaction is
    unapplied, it is the active one, and every application names the recorded
    receipt, which answers exactly its request. *)
Theorem journal_is_append_only (raw : pyval) (j j' : journal) :
  validate_interaction_journal raw = Ok j → rtc journal_step j j' →
  journal_evolves j j' ∧ pending_ids (entries j') = option_list (active_id j') ∧
  ∀ iid e, find_entry (entries j') iid = Some e → interaction_id (e_request e) = iid ∧
    ∀ a, e_application e = Some a → ∃ c, e_receipt e = Some c ∧
      app_receipt_id a = receipt_id c ∧ rcp_request_digest c = request_digest (e_request e).
Proof.
  intros Hv%validate_journal_wf Hsteps.
  assert (wf_journal j' ∧ journal_evolves j j') as [Hwf Hev].
  { induction Hsteps as [j|j1 j2 j3 Hs _ IH]; [split; [done|reflexivity]|].
    destruct (journal_step_evolves _ _ Hv Hs) as [Hv2 He]. destruct (IH Hv2) as [? ?].
    split; [done|by etrans]. }
  split_and!; [done|by apply journal_consistent_spec, Hwf|]. intros iid e Hf.
  pose proof (find_entry_wf _ _ _ (wj_entries _ Hwf) Hf) as He. split; [apply He|].
  intros a Ha. destruct (we_application _ _ He a Ha) as (c & Hc & Hac & _).
  exists c. split_and!; [done|done|]. by apply (we_receipt _ _ He c Hc).
Qed.

(** Validation is a normal form: what a validated journal is serialised
    to validates again, to the same journal. *)
Theorem validated_journal_roundtrip (raw : pyval) (j : journal) :
  validate_interaction_journal raw = Ok j →
  validate_interaction_journal (VDict (journal_dict j)) = Ok j.
Proof. intros Hv%validate_journal_wf. by apply validate_journal_again. Qed.

(** *** Built requests and receipts *)

Lemma hex_digit_no_space n : (n < 16)%N → is_space (hex_digit n) = false.
Proof.
  intros H.
  assert (Forall (λ n, is_space (hex_digit n) = false) (N.of_nat <$> seq 0 16)) as Hall
    by repeat constructor.
  rewrite Forall_forall in Hall. apply Hall, list_elem_of_fmap. exists (N.to_nat n).
  rewrite N2Nat.id. split; [done|]. apply elem_of_seq. lia.
Qed.

Lemma digest_stripped v d : _digest v = Ok d → strip d = d.
Proof.
  unfold _digest. intros H. binds H. case_match; [|done]. injection H as <-.
  apply strip_no_space. unfold sha256_hex. apply Forall_bind, Forall_true. intros n.
  unfold hex_word. apply Forall_fmap, Forall_true. intros i. cbn.
  apply hex_digit_no_space. apply N.mod_lt. done.
Qed.

Lemma text_stripped v t : _required_text v = Ok t → t = strip (text_of v).
Proof. by intros (s & -> & -> & _)%required_text_inv. Qed.

(** What a built request satisfies beyond a validated one: its digest carries
    no surrounding space. *)
Lemma build_request_facts sid k srid occ p rc cr sub r :
  build_interaction_request sid k srid occ p rc cr sub = Ok r →
  wf_request r ∧ strip (request_digest r) = request_digest r ∧
  interaction_id r = u "interaction_" ++ take 32 (request_digest r).
Proof.
  unfold build_interaction_request. intros H.
  do 11 (let x := fresh "x" in let E := fresh "E" in apply result_bind_ok in H as (x & E & H)).
  apply digest_stripped in E9. destruct x8; try done.
  pose proof (make_request_wf _ _ _ _ _ _ _ _ _ _ _ _ _ H) as Hwf. split; [done|].
  unfold make_InteractionRequest in H. binds H. injection H as <-. units.
  cbn [request_digest interaction_id text_of]. split; [done|].
  repeat match goal with H : ensure (bool_decide _) _ = _ |- _ =>
    apply ensure_ok in H; apply bool_decide_eq_true in H end.
  repeat match goal with H : _required_text (VStr x9) = Ok ?t |- _ =>
    apply text_stripped in H; cbn [text_of] in H; rewrite E9 in H end. congruence.
Qed.

Lemma make_request_id sv iid sid k srid occ p rc sd rd cr sub r :
  make_InteractionRequest sv iid sid k srid occ p rc sd rd cr sub = Ok r →
  interaction_id r = strip (text_of iid).
Proof.
  intros H. unfold make_InteractionRequest in H. binds H. injection H as <-.
  cbn [interaction_id]. by apply text_stripped.
Qed.

Lemma wf_request_id r : wf_request r → strip (interaction_id r) = interaction_id r.
Proof. intros [H _]. rewrite request_of_request_dict in H. by apply make_request_id in H. Qed.

Lemma wf_request_id_text r :
  wf_request r → _required_text (VStr (interaction_id r)) = Ok (interaction_id r).
Proof.
  intros Hwr. unfold _required_text. rewrite (wf_request_id r), (wf_request_nonempty r) by done.
  destruct Hwr as [_ Hjson]. apply json_ok_dict in Hjson. unfold request_dict in Hjson.
  rewrite !Forall_cons in Hjson. destruct Hjson as (_ & Hi & _). apply json_ok_str in Hi.
  by rewrite Hi.
Qed.

Lemma make_receipt_ids sv rid iid rd rsp rspd sb rcd at_ c :
  make_InteractionReceipt sv rid iid rd rsp rspd sb rcd at_ = Ok c →
  rcp_interaction_id c = strip (text_of iid) ∧ rcp_request_digest c = strip (text_of rd) ∧
  receipt_id c = text_of rid ∧
  _required_text rid = Ok (u "receipt_" ++ take 32 (strip (text_of rcd))).
Proof.
  intros H. unfold make_InteractionReceipt in H. binds H. injection H as <-. units.
  cbn [rcp_interaction_id rcp_request_digest receipt_id].
  split_and!; [by apply text_stripped..|done|].
  repeat match goal with H : ensure (bool_decide _) _ = _ |- _ =>
    apply ensure_ok in H; apply bool_decide_eq_true in H end.
  match goal with H : _required_text rcd = _ |- _ => apply text_stripped in H end. congruence.
Qed.

Lemma build_receipt_facts r rsp sb at_ c :
  wf_request r → strip (request_digest r) = request_digest r →
  build_interaction_receipt (BObject r) rsp sb at_ = Ok c →
  wf_receipt c ∧ answers c r ∧ _required_text (VStr (receipt_id c)) = Ok (receipt_id c).
Proof.
  intros Hwr Hsd H. unfold build_interaction_receipt in H.
  rewrite request_from_dict_object in H by done. cbn [mbind result_bind] in H.
  do 6 (let x := fresh "x" in let E := fresh "E" in apply result_bind_ok in H as (x & E & H)).
  unfold _receipt_core in E3. apply result_bind_ok in E3 as (rsp' & _ & [= <-]).
  pose proof (make_receipt_wf _ _ _ _ _ _ _ _ _ _ H) as Hwc.
  apply make_receipt_ids in H as (H1 & H2 & H3 & H4). apply digest_stripped in E4.
  cbn [text_of] in H3, H4. rewrite E4 in H4. unfold answers. rewrite H1, H2, H3.
  split_and!; [done|by apply wf_request_id|exact Hsd|exact H4].
Qed.

(** Content-addressed records survive persistence: a built request and
    every receipt built for it validate again from their serialised form, the
    receipt against its request, and the request's identity is the prefix of
    its digest. *)
Theorem built_records_roundtrip (sid k srid occ p rc cr sub : pyval) (r : InteractionRequest) :
  build_interaction_request sid k srid occ p rc cr sub = Ok r →
  request_from_dict (BRaw (VDict (request_dict r))) = Ok r ∧
  interaction_id r = u "interaction_" ++ take 32 (request_digest r) ∧
  ∀ rsp sb at_ c, build_interaction_receipt (BObject r) rsp sb at_ = Ok c →
    receipt_from_dict (BRaw (VDict (receipt_dict c))) (Some (BRaw (VDict (request_dict r)))) = Ok c.
Proof.
  intros (Hwr & Hsd & Hid)%build_request_facts.
  split_and!; [by apply request_from_dict_raw|done|].
  intros rsp sb at_ c (Hwc & Ha & _)%build_receipt_facts; [|done|done].
  apply (receipt_from_dict_again false); [done|]. intros b [= <-].
  exists r. split; [by apply request_from_dict_raw|done].
Qed.

(** *** The life of one interaction *)

Lemma register_new j r ck ckpt :
  wf_journal j → active_id j = None → wf_request r → _required_text ck = Ok ckpt →
  find_entry (entries j) (interaction_id r) = None →
  register_interaction_request (VDict (journal_dict j)) (BObject r) ck = Ok (registered j r ckpt) ∧
  wf_journal (registered j r ckpt).
Proof.
  intros Hwf Hact Hr Hck Hf.
  assert (wf_journal (registered j r ckpt)) as Hnew
    by eauto using registered_wf, required_text_fix, wf_request_nonempty.
  split; [|done]. unfold register_interaction_request. rewrite validate_journal_again by done.
  cbn [mbind result_bind]. rewrite request_from_dict_object by done. cbn [mbind result_bind].
  rewrite Hck. cbn [mbind result_bind]. rewrite Hf, Hact. by apply validate_journal_again.
Qed.

(** The checks of [record_interaction_receipt] on a valid receipt that answers
    the entry's request all pass. *)
Lemma record_on_entry j iid e rc c :
  wf_journal j → receipt_from_dict rc None = Ok c → rcp_interaction_id c = iid →
  find_entry (entries j) iid = Some e → answers c (e_request e) →
  record_interaction_receipt (VDict (journal_dict j)) rc =
  match e_receipt e with
  | Some c0 =>
      if bool_decide (receipt_digest c0 = receipt_digest c) then Ok j
      else match e_application e with
           | Some _ => Err InteractionAlreadyAppliedError
           | None => Err InteractionReceiptConflictError
           end
  | None =>
      if bool_decide (active_id j = Some iid) then Ok (recorded j iid e c)
      else Err InteractionNotPendingError
  end.
Proof.
  intros Hwf Hc <- Hf Ha. pose proof (find_entry_wf _ _ _ (wj_entries _ Hwf) Hf) as He.
  pose proof (receipt_from_dict_wf _ _ _ Hc) as [Hwc _].
  assert (∀ b, Some (BObject (e_request e)) = Some b →
    ∃ r, request_from_dict b = Ok r ∧ r = e_request e) as Hreq.
  { intros b [= <-]. eexists. split; [apply request_from_dict_object, He|done]. }
  unfold record_interaction_receipt. rewrite validate_journal_again by done.
  cbn [mbind result_bind]. rewrite Hc. cbn [mbind result_bind]. rewrite Hf.
  rewrite request_from_dict_raw by apply He. cbn [mbind result_bind].
  rewrite (receipt_from_dict_again true c); [|done|by intros b (r & ? & ->)%Hreq; eauto].
  cbn [mbind result_bind]. destruct (e_receipt e) as [c0|] eqn:Hrc.
  - destruct (we_receipt _ _ He c0 Hrc) as [Hwc0 Ha0].
    rewrite (receipt_from_dict_again false c0); [done|done|by intros b (r & ? & ->)%Hreq; eauto].
  - assert (e_application e = None) as Happ.
    { destruct (e_application e) eqn:Hap; [|done].
      destruct (we_application _ _ He _ Hap) as (? & ? & _). congruence. }
    rewrite Happ. case_bool_decide; [|done]. apply validate_journal_again. by apply recorded_wf.
Qed.

Lemma mark_on_entry j iid e rid ckpt iid0 rid0 ck0 :
  wf_journal j → _required_text iid0 = Ok iid → _required_text rid0 = Ok rid →
  _required_text ck0 = Ok ckpt → find_entry (entries j) iid = Some e →
  mark_interaction_applied (VDict (journal_dict j)) iid0 rid0 ck0 =
  match e_application e with
  | Some a => if decide (a = mkApplication rid ckpt) then Ok j
              else Err InteractionAlreadyAppliedError
  | None =>
      if bool_decide (active_id j = Some iid) then
        match e_receipt e with
        | None => Err InteractionNotPendingError
        | Some c => if bool_decide (receipt_id c = rid)
                    then Ok (applied j iid e (mkApplication rid ckpt))
                    else Err InteractionIntegrityError
        end
      else Err InteractionNotPendingError
  end.
Proof.
  intros Hwf Hi Hr Hck Hf. pose proof (find_entry_wf _ _ _ (wj_entries _ Hwf) Hf) as He.
  unfold mark_interaction_applied. rewrite validate_journal_again by done.
  cbn [mbind result_bind]. rewrite Hi. cbn [mbind result_bind]. rewrite Hr.
  cbn [mbind result_bind]. rewrite Hck. cbn [mbind result_bind]. rewrite Hf.
  destruct (e_application e) eqn:Happ; [done|]. case_bool_decide as Hact; [|done].
  destruct (e_receipt e) as [c|] eqn:Hrc; [|done].
  destruct (we_receipt _ _ He c Hrc) as [Hwc Ha].
  rewrite (receipt_from_dict_again false c);
    [|done|intros b [= <-]; exists (e_request e); split; [apply request_from_dict_raw, He|done]].
  cbn [mbind result_bind]. unfold ensure. case_bool_decide; [|done]. cbn [mbind result_bind].
  rewrite <-Hrc at 1. apply validate_journal_again. eapply applied_wf; try done.
  split_and!; [done|by eapply required_text_fix..].
Qed.

(** An interaction can always be carried through: on a valid journal with
    nothing pending, a freshly built request can be registered, the receipt
    built for it recorded, and its application marked; each step yields
    exactly the journal with that one fact added, the journal ends with
    nothing pending, and repeating the receipt or the application afterwards
    returns the journal unchanged. *)
Theorem interaction_lifecycle (raw sid k srid occ p rc cr sub ck rsp sb at_ ck' : pyval)
    (j : journal) (r : InteractionRequest) (c : InteractionReceipt) (ckpt ckpt' : pystr) :
  validate_interaction_journal raw = Ok j → active_id j = None →
  build_interaction_request sid k srid occ p rc cr sub = Ok r →
  find_entry (entries j) (interaction_id r) = None →
  build_interaction_receipt (BObject r) rsp sb at_ = Ok c →
  _required_text ck = Ok ckpt → _required_text ck' = Ok ckpt' →
  let iid := interaction_id r in
  let j1 := registered j r ckpt in
  let j2 := recorded j1 iid (mkEntry r ckpt None None) c in
  let j3 := applied j2 iid (mkEntry r ckpt (Some c) None) (mkApplication (receipt_id c) ckpt') in
  register_interaction_request (VDict (journal_dict j)) (BObject r) ck = Ok j1 ∧
  record_interaction_receipt (VDict (journal_dict j1)) (BObject c) = Ok j2 ∧
  record_interaction_receipt (VDict (journal_dict j2)) (BObject c) = Ok j2 ∧
  mark_interaction_applied (VDict (journal_dict j2)) (VStr iid) (VStr (receipt_id c)) ck' = Ok j3 ∧
  mark_interaction_applied (VDict (journal_dict j3)) (VStr iid) (VStr (receipt_id c)) ck' = Ok j3 ∧
  active_id j3 = None.
Proof.
  intros Hj%validate_journal_wf Hact (Hwr & Hsd & _)%build_request_facts Hf Hc Hck Hck'
    iid j1 j2 j3.
  destruct (build_receipt_facts _ _ _ _ _ Hwr Hsd Hc) as (Hwc & Ha & Hrid).
  destruct (register_new _ _ _ _ Hj Hact Hwr Hck Hf) as [Hreg Hj1].
  assert (find_entry (entries j1) iid = Some (mkEntry r ckpt None None)) as Hf1.
  { unfold iid, j1, registered. cbn [entries]. rewrite find_entry_app, Hf. cbn. by rewrite decide_True. }
  assert (receipt_from_dict (BObject c) None = Ok c) as Hcc
    by by apply (receipt_from_dict_again true).
  assert (find_entry (entries j2) iid = Some (mkEntry r ckpt (Some c) None)) as Hf2
    by by eapply find_update_eq.
  assert (find_entry (entries j3) iid = Some (mkEntry r ckpt (Some c)
    (Some (mkApplication (receipt_id c) ckpt')))) as Hf3 by by eapply find_update_eq.
  assert (wf_journal j2) as Hj2 by by apply recorded_wf.
  assert (wf_journal j3) as Hj3.
  { eapply applied_wf; try done. split_and!; [done|done|by eapply required_text_fix]. }
  pose proof (wf_request_id_text r Hwr : _required_text (VStr iid) = Ok iid) as Hiid.
  split_and!; [exact Hreg| | | | |done].
  - rewrite (record_on_entry j1 iid _ _ c Hj1 Hcc (proj1 Ha) Hf1 Ha). cbn [e_receipt].
    by rewrite bool_decide_true.
  - rewrite (record_on_entry j2 iid _ _ c Hj2 Hcc (proj1 Ha) Hf2 Ha). cbn [e_receipt].
    by rewrite bool_decide_true.
  - rewrite (mark_on_entry j2 iid _ _ _ _ _ _ Hj2 Hiid Hrid Hck' Hf2).
    cbn [e_application e_receipt]. by rewrite !bool_decide_true.
  - rewrite (mark_on_entry j3 iid _ _ _ _ _ _ Hj3 Hiid Hrid Hck' Hf3).
    cbn [e_application]. by rewrite decide_True.
Qed.

(** Two different answers never both count: a valid receipt for an
    interaction that already has one with another digest is refused, as a
    conflict or, once applied, as already applied; the one that is recorded is
    accepted again and changes nothing. *)
Theorem second_answer_is_refused (raw : pyval) (j : journal) (iid : pystr) (e : entry)
    (c0 c : InteractionReceipt) (rc : bound InteractionReceipt) :
  validate_interaction_journal raw = Ok j → find_entry (entries j) iid = Some e →
  e_receipt e = Some c0 → receipt_from_dict rc (Some (BObject (e_request e))) = Ok c →
  record_interaction_receipt (VDict (journal_dict j)) rc =
  if bool_decide (receipt_digest c0 = receipt_digest c) then Ok j
  else match e_application e with
       | Some _ => Err InteractionAlreadyAppliedError
       | None => Err InteractionReceiptConflictError
       end.
Proof.
  intros Hj%validate_journal_wf Hf Hc0 Hc.
  pose proof (find_entry_wf _ _ _ (wj_entries _ Hj) Hf) as He.
  pose proof (receipt_from_dict_wf _ _ _ Hc) as [Hwc Hans].
  specialize (Hans _ _ eq_refl (request_from_dict_object _ (we_request _ _ He))).
  assert (receipt_from_dict rc None = Ok c) as Hc'.
  { unfold receipt_from_dict in Hc |- *. apply result_bind_ok in Hc as (c' & -> & Hc).
    cbn [mbind result_bind]. binds Hc. done. }
  rewrite (record_on_entry j iid e rc c); [by rewrite Hc0|done|done| |done|done].
  destruct Hans as [-> _]. apply He.
Qed.

(** ** Concrete inputs *)

Definition empty_request : InteractionRequest :=
  mkRequest VNone [] [] [] [] [] VNone VNone [] [] 0 VNone.
Definition empty_receipt : InteractionReceipt := mkReceipt VNone [] [] [] VNone [] [] [] 0.
Definition from_ok {A} (d : A) (r : R A) : A := match r with Ok a => a | Err _ => d end.

Definition demo_build : R InteractionRequest :=
  build_interaction_request (VStr (u " s1 ")) (VStr (u "tool_approval")) (VStr (u "run"))
    (VStr (u "1")) (VDict [(KStr (u "tool"), VStr (u "rm"))])
    (VDict [(KStr (u "type"), VStr (u "boolean"))]) (VInt 3) VNone.
Definition demo_request : InteractionRequest := Eval vm_compute in from_ok empty_request demo_build.

Example demo_build_ok : demo_build = Ok demo_request.
Proof. vm_compute. reflexivity. Qed.

(** The digest Python computes for the same request. *)
Example demo_request_id : interaction_id demo_request = u "interaction_d745a90297752f1e3236a2a3ad56cbc9".
Proof. vm_compute. reflexivity. Qed.

Definition demo_answer (b : bool) : R InteractionReceipt :=
  build_interaction_receipt (BObject demo_request) (VBool b) (VStr (u "user")) (VInt 7).
Definition demo_receipt : InteractionReceipt :=
  Eval vm_compute in from_ok empty_receipt (demo_answer true).
Definition demo_other_receipt : InteractionReceipt :=
  Eval vm_compute in from_ok empty_receipt (demo_answer false).

Definition demo_registered : journal :=
  registered new_interaction_journal demo_request (u "cp1").
Definition demo_recorded : journal :=
  recorded demo_registered (interaction_id demo_request)
    (mkEntry demo_request (u "cp1") None None) demo_receipt.

Lemma built_records_roundtrip_witness :
  request_from_dict (BRaw (VDict (request_dict demo_request))) = Ok demo_request.
Proof.
  refine (proj1 (built_records_roundtrip (VStr (u " s1 ")) (VStr (u "tool_approval"))
    (VStr (u "run")) (VStr (u "1")) (VDict [(KStr (u "tool"), VStr (u "rm"))])
    (VDict [(KStr (u "type"), VStr (u "boolean"))]) (VInt 3) VNone demo_request _)).
  vm_compute. reflexivity.
Defined.

Lemma validated_journal_roundtrip_witness :
  validate_interaction_journal (VDict (journal_dict demo_recorded)) = Ok demo_recorded.
Proof.
  apply (validated_journal_roundtrip (VDict (journal_dict demo_recorded))).
  vm_compute. reflexivity.
Defined.

Lemma journal_is_append_only_witness :
  journal_evolves new_interaction_journal demo_recorded.
Proof.
  refine (proj1 (journal_is_append_only VNone new_interaction_journal demo_recorded eq_refl _)).
  apply (rtc_l _ _ demo_registered).
  { apply (step_register _ (BObject demo_request) (VStr (u "cp1"))). vm_compute. reflexivity. }
  apply rtc_once. apply (step_record _ (BObject demo_receipt)). vm_compute. reflexivity.
Defined.

Lemma interaction_lifecycle_witness :
  register_interaction_request (VDict (journal_dict new_interaction_journal))
    (BObject demo_request) (VStr (u "cp1")) = Ok demo_registered.
Proof.
  refine (proj1 (interaction_lifecycle VNone (VStr (u " s1 ")) (VStr (u "tool_approval"))
    (VStr (u "run")) (VStr (u "1")) (VDict [(KStr (u "tool"), VStr (u "rm"))])
    (VDict [(KStr (u "type"), VStr (u "boolean"))]) (VInt 3) VNone (VStr (u "cp1"))
    (VBool true) (VStr (u "user")) (VInt 7) (VStr (u "cp2")) new_interaction_journal demo_request
    demo_receipt (u "cp1") (u "cp2") eq_refl eq_refl _ eq_refl _ _ _)); vm_compute; reflexivity.
Defined.

Lemma second_answer_is_refused_witness :
  record_interaction_receipt (VDict (journal_dict demo_recorded)) (BObject demo_other_receipt)
  = Err InteractionReceiptConflictError.
Proof.
  refine (second_answer_is_refused (VDict (journal_dict demo_recorded)) demo_recorded
    (interaction_id demo_request) (mkEntry demo_request (u "cp1") (Some demo_receipt) None)
    demo_receipt demo_other_receipt (BObject demo_other_receipt) _ _ eq_refl _);
    vm_compute; reflexivity.
Defined.

(** ** Where validation and construction disagree *)

(** A request whose stored digest has a leading space. *)
Definition padded_request : pydict :=
  dict_set (request_dict demo_request) (KStr (u "request_digest"))
    (VStr (u " " ++ request_digest demo_request)).

(** The digests are compared in stripped form but kept as they came: a request
    with a padded digest validates, and then no receipt can be built for it. *)
Example padded_request_cannot_be_answered :
  is_ok (request_from_dict (BRaw (VDict padded_request))) = true ∧
  build_interaction_receipt (BRaw (VDict padded_request)) (VBool true) (VStr (u "user")) (VInt 7)
  = Err InteractionIntegrityError.
Proof. split; vm_compute; reflexivity. Qed.

(** A malformed [kind] is not always an integrity error: a list has no hash. *)
Example malformed_kind_is_a_type_error :
  request_from_dict (BRaw (VDict (dict_set (request_dict demo_request) (KStr (u "kind"))
    (VList [])))) = Err UnhashableTypeError.
Proof. vm_compute. reflexivity. Qed.
