(* ===== verification/Versions.v ===== *)
(** * Message versions (src/unchain/kernel/versioning.py, kernel/delta.py and
      the message half of kernel/state.py)

    A run keeps every message list it has shown to a model as a version in an
    append-only graph; harnesses change the messages by deltas, which create a
    child of the version they are applied to.  [uuid4] is an argument of the
    operations: the identifier it returned, [fresh]. *)

From S2P Require Import Prelude PyVal.

Abbreviation message := pydict.

(** Keep the dictionaries, in order. *)
Definition _deepcopy_messages (ms : list pyval) : list message :=
  omap (λ v, match v with VDict d => Some d | _ => None end) ms.

Record MessageVersion : Type := mkVersion {
  version_id : pystr;
  parent_version_id : option pystr;
  messages : list message;
  created_by : option pystr;
  metadata : pydict;
}.

Record MessageVersionGraph : Type := mkGraph {
  _versions : list (pystr * MessageVersion);
  _latest_version_id : option pystr;
}.

(** [KeyError] with the unknown identifier, [ValueError], [TypeError] *)
Inductive kexn : Type :=
| KeyError (id : pystr)
| KValueError
| KTypeError.

(** [a or b] on optional strings *)
Definition str_or (a b : option pystr) : option pystr :=
  match a with Some s => if nonempty s then Some s else b | None => b end.

(** [str(created_by).strip() or None]: [str(None)] is the text [None]. *)
Definition created_by_of (who : option pystr) : option pystr :=
  let s := strip (match who with Some s => s | None => u "None" end) in
  if nonempty s then Some s else None.

Abbreviation G := (M MessageVersionGraph kexn).

Definition has_version (vid : option pystr) (g : MessageVersionGraph) : bool :=
  match vid with
  | Some v => nonempty v && (match assoc_get (_versions g) v with Some _ => true | None => false end)
  | None => false
  end.

Definition version_ids (g : MessageVersionGraph) : list pystr := (_versions g).*1.

Definition get_version (vid : pystr) : G MessageVersion :=
  v ← gets (λ g, assoc_get (_versions g) vid);
  match v with Some v => mret v | None => raise (KeyError vid) end.

Definition get_messages (vid : pystr) : G (list message) :=
  v ← get_version vid; mret (_deepcopy_messages (VDict <$> messages v)).

Definition graph_latest_messages : G (list message) :=
  latest ← gets _latest_version_id;
  match latest with None => mret [] | Some l => get_messages l end.

Definition create_version (fresh : pystr) (ms : list pyval) (parent : option pystr)
    (who : option pystr) (meta : pyval) (vid : option pystr) : G MessageVersion :=
  latest ← gets _latest_version_id;
  let resolved_parent := match parent with Some p => Some p | None => latest end in
  _ ← match resolved_parent with
      | Some p =>
          known ← gets (λ g, assoc_get (_versions g) p);
          match known with Some _ => mret tt | None => raise (KeyError p) end
      | None => mret tt
      end;
  let version := mkVersion (default fresh (str_or vid None)) resolved_parent
    (_deepcopy_messages ms) (created_by_of who)
    (match meta with VDict d => d | _ => [] end) in
  _ ← modify (λ g, mkGraph (assoc_set (_versions g) (version_id version) version)
                     (Some (version_id version)));
  mret version.

Definition fork_latest (fresh : pystr) (who : option pystr) (meta : pyval) : G MessageVersion :=
  ms ← graph_latest_messages;
  create_version fresh (VDict <$> ms) None who meta None.

Definition activate (vid : pystr) : G MessageVersion :=
  version ← get_version vid;
  _ ← modify (λ g, mkGraph (_versions g) (Some (version_id version)));
  mret version.

(** The [while] loop of [lineage]; appending and the final reversal are a cons
    here.  [None] when the fuel runs out. *)
Fixpoint lineage_loop (fuel : nat) (g : MessageVersionGraph) (current : option pystr)
    (acc : list pystr) : option (result kexn (list pystr)) :=
  match current with
  | None => Some (Ok acc)
  | Some c =>
      match fuel with
      | 0 => None
      | S fuel =>
          match assoc_get (_versions g) c with
          | None => Some (Err (KeyError c))
          | Some v => lineage_loop fuel g (parent_version_id v) (version_id v :: acc)
          end
      end
  end.

(** One turn per version is enough for an acyclic graph. *)
Definition lineage (g : MessageVersionGraph) (vid : option pystr)
    : option (result kexn (list pystr)) :=
  match (match vid with Some v => Some v | None => _latest_version_id g end) with
  | None => Some (Ok [])
  | Some v => lineage_loop (length (_versions g)) g (Some v) []
  end.

Definition empty_graph : MessageVersionGraph := mkGraph [] None.

(** [MessageVersionGraph(seed_messages)] *)
Definition new_graph (fresh : pystr) (seed : list pyval) : result kexn unit * MessageVersionGraph :=
  match seed with
  | [] => (Ok tt, empty_graph)
  | _ => (_ ← create_version fresh seed None (Some (u "seed")) VNone None; mret tt) empty_graph
  end.

(** ** Deltas *)

Inductive MessageListOp : Type :=
| AppendMessagesOp (ms : list pyval)
| InsertMessagesOp (index : Z) (ms : list pyval)
| ReplaceSpanOp (start end_ : Z) (ms : list pyval)
| DeleteSpanOp (start end_ : Z)
| ActivateVersionOp (vid : pystr).

Record HarnessDelta : Type := mkDelta {
  delta_created_by : pystr;
  base_version_id : option pystr;
  rebase_to_latest : bool;
  ops : list MessageListOp;
  state_updates : pydict;
  delta_trace : pydict;
  (** kind and payload of a suspend signal *)
  suspend : option (pystr * pydict);
}.

(** [HarnessDelta.append] *)
Definition delta_append (who : pystr) (ms : list pyval) (base : option pystr) (rebase : bool)
    (updates trace : pyval) (signal : option (pystr * pydict)) : HarnessDelta :=
  mkDelta who base rebase [AppendMessagesOp (VDict <$> _deepcopy_messages ms)]
    (match updates with VDict d => d | _ => [] end)
    (match trace with VDict d => d | _ => [] end) signal.

(** [max(lo, min(i, hi))] *)
Definition clamp (lo hi i : Z) : Z := Z.max lo (Z.min i hi).

(** [l[start:end] = new] for indices within the list *)
Definition splice {A} (l : list A) (start end_ : Z) (new : list A) : list A :=
  take (Z.to_nat start) l ++ new ++ drop (Z.to_nat end_) l.

(** What an operation other than an activation does to the working list. *)
Definition apply_list_op (op : MessageListOp) (working : list message) : list message :=
  let len := Z.of_nat (length working) in
  match op with
  | AppendMessagesOp ms => working ++ _deepcopy_messages ms
  | InsertMessagesOp index ms =>
      let i := clamp 0 len index in splice working i i (_deepcopy_messages ms)
  | ReplaceSpanOp start end_ ms =>
      let s := clamp 0 len start in
      let e := clamp s len end_ in splice working s e (_deepcopy_messages ms)
  | DeleteSpanOp start end_ =>
      let s := clamp 0 len start in
      let e := clamp s len end_ in splice working s e []
  | ActivateVersionOp _ => working
  end.

Definition op_type (op : MessageListOp) : option pystr :=
  match op with
  | AppendMessagesOp _ => Some (u "AppendMessagesOp")
  | InsertMessagesOp _ _ => Some (u "InsertMessagesOp")
  | ReplaceSpanOp _ _ _ => Some (u "ReplaceSpanOp")
  | DeleteSpanOp _ _ => Some (u "DeleteSpanOp")
  | ActivateVersionOp _ => None
  end.

(** ** The message state of a run *)

Record run_messages : Type := mkRun {
  transcript : list message;
  versions : MessageVersionGraph;
  latest_version_id : option pystr;
}.

Abbreviation RM := (M run_messages kexn).

Definition on_versions {A} (m : G A) : RM A :=
  zoom versions (λ g s, mkRun (transcript s) g (latest_version_id s)) m.

Definition set_latest (vid : option pystr) : RM unit :=
  modify (λ s, mkRun (transcript s) (versions s) vid).

Definition seed_messages (fresh : pystr) (ms : list pyval) (who : option pystr) (meta : pyval)
    : RM pystr :=
  version ← on_versions (create_version fresh ms None who meta None);
  _ ← set_latest (Some (version_id version));
  _ ← modify (λ s, mkRun (_deepcopy_messages ms) (versions s) (latest_version_id s));
  mret (version_id version).

Definition latest_messages : RM (list message) :=
  latest ← gets latest_version_id;
  match latest with None => mret [] | Some l => on_versions (get_messages l) end.

Definition rebuild_working_version (fresh : pystr) (ms : list pyval) (who : option pystr)
    (meta : pyval) : RM pystr :=
  latest ← gets latest_version_id;
  version ← on_versions (create_version fresh ms latest who meta None);
  _ ← set_latest (Some (version_id version));
  mret (version_id version).

Definition rebuild_working_version_from_transcript (fresh : pystr) (who : option pystr)
    (meta : pyval) : RM pystr :=
  t ← gets transcript;
  rebuild_working_version fresh (VDict <$> t) who meta.

Definition view_messages (vid : option pystr) : RM (list message) :=
  latest ← gets latest_version_id;
  match str_or vid latest with
  | None => mret []
  | Some v => on_versions (get_messages v)
  end.

(** One turn of the loop over [delta.ops]. *)
Definition apply_op (op : MessageListOp) (working : list message) : RM (list message) :=
  match op with
  | ActivateVersionOp vid =>
      _ ← on_versions (activate vid);
      _ ← set_latest (Some vid);
      view_messages (Some vid)
  | _ => mret (apply_list_op op working)
  end.

Fixpoint apply_ops (l : list MessageListOp) (working : list message) : RM (list message) :=
  match l with
  | [] => mret working
  | op :: l => w ← apply_op op working; apply_ops l w
  end.

Definition opt_str (x : option pystr) : pyval := match x with Some s => VStr s | None => VNone end.

(** [apply_delta] up to the creation of the version; what follows in the code
    touches neither versions nor their identifiers. *)
Definition apply_message_delta (fresh : pystr) (delta : HarnessDelta) : RM (option pystr) :=
  latest ← gets latest_version_id;
  let requested := str_or (base_version_id delta) latest in
  _ ← lift (ensure (match requested with
                    | Some _ => true
                    | None => match ops delta with [] => true | _ => false end
                    end) KValueError);
  let applied := match latest with
                 | Some l => if rebase_to_latest delta then Some l else requested
                 | None => requested
                 end in
  working ← view_messages applied;
  working ← apply_ops (ops delta) working;
  match omap op_type (ops delta) with
  | [] => gets latest_version_id
  | op_types =>
      version ← on_versions (create_version fresh (VDict <$> working) applied
        (Some (delta_created_by delta))
        (VDict [(KStr (u "requested_base_version_id"), opt_str requested);
                (KStr (u "applied_base_version_id"), opt_str applied);
                (KStr (u "op_types"), VList (VStr <$> op_types));
                (KStr (u "trace"), VDict (delta_trace delta))]) None);
      _ ← set_latest (Some (version_id version));
      mret (Some (version_id version))
  end.

(** ** The version graph only grows *)

Record graph_ok (g : MessageVersionGraph) : Prop := {
  go_nodup : NoDup (version_ids g);
  go_entry : ∀ i k v, _versions g !! i = Some (k, v) →
    version_id v = k ∧ nonempty k = true ∧
    ∀ p, parent_version_id v = Some p → ∃ j w, j < i ∧ _versions g !! j = Some (p, w);
  go_latest : ∀ l, _latest_version_id g = Some l → l ∈ version_ids g;
}.

(** Every version stays, with its contents and its place. *)
Definition extends (g g' : MessageVersionGraph) : Prop :=
  _versions g `prefix_of` _versions g'.

#[export] Instance extends_preorder : PreOrder extends.
Proof.
  split; [intros g; unfold extends; reflexivity|].
  intros g1 g2 g3. unfold extends. apply transitivity.
Qed.

Lemma deepcopy_dicts (l : list message) : _deepcopy_messages (VDict <$> l) = l.
Proof. induction l as [|d l IH]; [done|]. unfold _deepcopy_messages in *. cbn. by rewrite IH. Qed.

Lemma empty_graph_ok : graph_ok empty_graph.
Proof. split; [constructor|done|done]. Qed.

Lemma extends_get g g' k v :
  extends g g' → assoc_get (_versions g) k = Some v → assoc_get (_versions g') k = Some v.
Proof. intros [l Hl] Hk. by rewrite Hl, assoc_get_app, Hk. Qed.

(** A new, non-empty identifier *)
Definition unused (g : MessageVersionGraph) (id : pystr) : Prop :=
  nonempty id = true ∧ id ∉ version_ids g.

Lemma create_inv fresh ms parent who meta vid g r g' :
  graph_ok g → unused g (default fresh (str_or vid None)) →
  create_version fresh ms parent who meta vid g = (r, g') →
  (g' = g ∧ ∃ p, r = Err (KeyError p)) ∨
  (∃ v, r = Ok v ∧ version_id v = default fresh (str_or vid None) ∧
    parent_version_id v = (match parent with Some p => Some p | None => _latest_version_id g end) ∧
    messages v = _deepcopy_messages ms ∧
    (∀ p, parent_version_id v = Some p → p ∈ version_ids g) ∧
    g' = mkGraph (_versions g ++ [(version_id v, v)]) (Some (version_id v))).
Proof.
  intros Hok [Hne Hnew] H. unfold create_version in H. unfold_monad_in H.
  set (rp := match parent with Some p => Some p | None => _latest_version_id g end) in *.
  assert (∀ d, assoc_set (_versions g) (default fresh (str_or vid None)) d
    = _versions g ++ [(default fresh (str_or vid None), d)]) as Hset
    by (intros d; by apply assoc_set_new).
  destruct rp as [p|].
  - destruct (assoc_get (_versions g) p) as [w|] eqn:Hp; simplify_eq/=; [|by left; eauto].
    right. eexists. rewrite Hset. split_and!; try done. intros p' [= <-].
    by eapply assoc_get_elem.
  - simplify_eq/=. right. eexists. rewrite Hset. done.
Qed.

Lemma graph_ok_snoc g v :
  graph_ok g → unused g (version_id v) →
  (∀ p, parent_version_id v = Some p → p ∈ version_ids g) →
  graph_ok (mkGraph (_versions g ++ [(version_id v, v)]) (Some (version_id v))).
Proof.
  intros [Hnd He Hl] [Hne Hnew] Hp. unfold version_ids in *. split; unfold version_ids; cbn.
  - rewrite fmap_app. apply NoDup_app. split_and!; [done| |apply NoDup_singleton].
    intros k Hk ->%list_elem_of_singleton. done.
  - intros i k w Hi. apply lookup_app_Some in Hi as [Hi|[Hlen Hi]].
    + destruct (He i k w Hi) as (? & ? & Hpar). split_and!; [done|done|].
      intros p Hpp. destruct (Hpar p Hpp) as (j & x & ? & Hj). exists j, x.
      split; [done|]. by apply lookup_app_l_Some.
    + apply list_lookup_singleton_Some in Hi as [Hi [= <- <-]].
      split_and!; [done|done|]. intros p Hpp. specialize (Hp p Hpp).
      apply list_elem_of_fmap in Hp as ([p' w'] & -> & [j Hj]%list_elem_of_lookup).
      exists j, w'. pose proof (lookup_lt_Some _ _ _ Hj). split; [cbn; lia|].
      by apply lookup_app_l_Some.
  - intros l [= <-]. rewrite fmap_app. apply elem_of_app. right. apply list_elem_of_here.
Qed.

Lemma create_ok fresh ms parent who meta vid g r g' :
  graph_ok g → unused g (default fresh (str_or vid None)) →
  create_version fresh ms parent who meta vid g = (r, g') → graph_ok g' ∧ extends g g'.
Proof.
  intros Hok Hun H. destruct (create_inv _ _ _ _ _ _ _ _ _ Hok Hun H)
    as [[-> _]|(v & -> & Hid & _ & _ & Hp & ->)]; [split; [done|reflexivity]|].
  rewrite <-Hid in Hun. split; [by apply graph_ok_snoc|]. by eexists.
Qed.

Lemma get_messages_frame vid g r g' : get_messages vid g = (r, g') → g' = g.
Proof.
  unfold get_messages, get_version. unfold_monad. destruct (assoc_get _ vid); naive_solver.
Qed.

Lemma graph_latest_frame g r g' : graph_latest_messages g = (r, g') → g' = g.
Proof.
  unfold graph_latest_messages. unfold_monad. destruct (_latest_version_id g); [|naive_solver].
  apply get_messages_frame.
Qed.

Lemma activate_ok vid g r g' :
  graph_ok g → activate vid g = (r, g') →
  graph_ok g' ∧ extends g g' ∧
  (∀ v, r = Ok v → g' = mkGraph (_versions g) (Some vid) ∧ vid ∈ version_ids g).
Proof.
  intros Hok. unfold activate, get_version. unfold_monad.
  destruct (assoc_get (_versions g) vid) as [v|] eqn:Hv; intros [= <- <-];
    [|split_and!; [done|reflexivity|done]].
  pose proof (assoc_get_Some_lookup _ _ _ Hv) as [i Hi].
  destruct (go_entry _ Hok _ _ _ Hi) as [-> _]. pose proof (assoc_get_elem _ _ _ Hv) as Hin.
  split_and!; [|unfold extends; done|naive_solver].
  destruct Hok as [Hnd He Hl]. split; cbn; [done|done|]. by intros l [= <-].
Qed.

(** The operations of the graph, with identifiers that are not in use. *)
Inductive graph_step : MessageVersionGraph → MessageVersionGraph → Prop :=
| step_create g fresh ms parent who meta vid :
    unused g (default fresh (str_or vid None)) →
    graph_step g (create_version fresh ms parent who meta vid g).2
| step_fork g fresh who meta :
    unused g fresh → graph_step g (fork_latest fresh who meta g).2
| step_activate g vid : graph_step g (activate vid g).2.

Lemma graph_step_ok g g' : graph_ok g → graph_step g g' → graph_ok g' ∧ extends g g'.
Proof.
  intros Hok Hs. destruct Hs as [g fresh ms parent who meta vid Hun|g fresh who meta Hun|g vid].
  - destruct (create_version _ _ _ _ _ _ g) as [r g'] eqn:H. by eapply create_ok.
  - unfold fork_latest. cbv [mbind M_bind].
    destruct (graph_latest_messages g) as [[ms|e] g1] eqn:H; apply graph_latest_frame in H as ->;
      [|split; [done|reflexivity]].
    destruct (create_version _ _ _ _ _ _ g) as [r g'] eqn:H. by eapply create_ok in H.
  - destruct (activate vid g) as [r g'] eqn:H. apply activate_ok in H; [|done]. tauto.
Qed.

Lemma graph_steps_ok g g' : graph_ok g → rtc graph_step g g' → graph_ok g' ∧ extends g g'.
Proof.
  intros Hok Hs. induction Hs as [g|g1 g2 g3 Hs _ IH]; [split; [done|reflexivity]|].
  destruct (graph_step_ok _ _ Hok Hs) as [Hok2 ?]. destruct (IH Hok2). split; [done|by etrans].
Qed.

(** The version graph is append-only: through any sequence of creations,
    forks and activations with unused identifiers, whether they return or
    raise, every version that once existed keeps its messages, parent and
    position, and the latest version is always one of the graph. *)
Theorem version_graph_is_append_only (g g' : MessageVersionGraph) :
  rtc graph_step empty_graph g → rtc graph_step g g' →
  _versions g `prefix_of` _versions g' ∧
  (∀ vid v, get_version vid g = (Ok v, g) → get_version vid g' = (Ok v, g')) ∧
  ∀ l, _latest_version_id g' = Some l → l ∈ version_ids g'.
Proof.
  intros Hg Hg'. destruct (graph_steps_ok _ _ empty_graph_ok Hg) as [Hok _].
  destruct (graph_steps_ok _ _ Hok Hg') as [Hok' Hext]. split_and!; [done| |apply Hok'].
  intros vid v. unfold get_version. unfold_monad.
  destruct (assoc_get (_versions g) vid) as [w|] eqn:Hv; intros [= ->].
  by rewrite (extends_get _ _ _ _ Hext Hv).
Qed.

(** ** Lineages *)

(** [l] is the path from a root to [k]. *)
Inductive is_lineage (g : MessageVersionGraph) : pystr → list pystr → Prop :=
| lineage_root k v : assoc_get (_versions g) k = Some v → parent_version_id v = None →
    is_lineage g k [k]
| lineage_child k v p l : assoc_get (_versions g) k = Some v → parent_version_id v = Some p →
    is_lineage g p l → is_lineage g k (l ++ [k]).

Lemma lineage_loop_ok g i k v acc fuel :
  graph_ok g → _versions g !! i = Some (k, v) → i < fuel →
  ∃ path, lineage_loop fuel g (Some k) acc = Some (Ok (path ++ acc)) ∧ is_lineage g k path ∧
    NoDup path ∧ ∀ x, x ∈ path → ∃ j w, j ≤ i ∧ _versions g !! j = Some (x, w).
Proof.
  intros Hok. revert k v acc fuel. induction (lt_wf i) as [i _ IH].
  intros k v acc fuel Hi Hf. destruct fuel as [|fuel]; [lia|]. cbn [lineage_loop].
  pose proof (assoc_get_lookup _ _ _ _ (go_nodup _ Hok) Hi) as Hk. rewrite Hk.
  destruct (go_entry _ Hok _ _ _ Hi) as (Hid & _ & Hpar). rewrite Hid.
  destruct (parent_version_id v) as [p|] eqn:Hp.
  - destruct (Hpar p eq_refl) as (j & w & Hj & Hjw).
    destruct (IH j Hj p w (k :: acc) fuel Hjw ltac:(lia)) as (path & -> & Hl & Hnd & Hin).
    exists (path ++ [k]). rewrite <-app_assoc. split_and!; [done|by econstructor| |].
    + apply NoDup_app. split_and!; [done| |apply NoDup_singleton].
      intros x Hx ->%list_elem_of_singleton. destruct (Hin k Hx) as (j' & w' & Hj' & Hk').
      assert (j' = i); [|lia]. eapply (NoDup_lookup _ _ _ k (go_nodup _ Hok));
        unfold version_ids; rewrite list_lookup_fmap; [by rewrite Hk'|by rewrite Hi].
    + intros x [Hx| ->%list_elem_of_singleton]%elem_of_app; [|by eauto].
      destruct (Hin x Hx) as (j' & w' & ? & ?). exists j', w'. split; [lia|done].
  - exists [k]. split_and!; [by destruct fuel|by econstructor|apply NoDup_singleton|].
    intros x ->%list_elem_of_singleton. eauto.
Qed.

(** [lineage] terminates: on every graph built with unused identifiers it
    returns, for a known version, the path from a root to that version along
    parent links, with no version twice. *)
Theorem lineage_is_total (g : MessageVersionGraph) (vid : pystr) (v : MessageVersion) :
  rtc graph_step empty_graph g → get_version vid g = (Ok v, g) →
  ∃ path, lineage g (Some vid) = Some (Ok path) ∧ is_lineage g vid path ∧ NoDup path.
Proof.
  intros Hg Hv. destruct (graph_steps_ok _ _ empty_graph_ok Hg) as [Hok _].
  unfold get_version in Hv. unfold_monad_in Hv.
  destruct (assoc_get (_versions g) vid) as [w|] eqn:Hw; [|done].
  apply assoc_get_Some_lookup in Hw as [i Hi].
  destruct (lineage_loop_ok g i vid w [] (length (_versions g)) Hok Hi)
    as (path & Hl & ? & ? & _); [by eapply lookup_lt_Some|].
  exists path. cbn. rewrite Hl, app_nil_r. done.
Qed.

(** The span operations on every integer index: all four are a
    replacement of one span inside the list, indices out of range are clamped
    and a reversed span is empty, so the messages before and after the span
    survive; within range the indices mean what they say, and a span that
    covers the list replaces it. *)
Theorem span_ops_are_replacements (l : list message) (start end_ : Z) (ms : list pyval) :
  let len := Z.of_nat (length l) in
  apply_list_op (InsertMessagesOp start ms) l = apply_list_op (ReplaceSpanOp start start ms) l ∧
  apply_list_op (DeleteSpanOp start end_) l = apply_list_op (ReplaceSpanOp start end_ []) l ∧
  apply_list_op (AppendMessagesOp ms) l = apply_list_op (InsertMessagesOp len ms) l ∧
  (∃ s e, s ≤ e ≤ length l ∧
     apply_list_op (ReplaceSpanOp start end_ ms) l
       = take s l ++ _deepcopy_messages ms ++ drop e l ∧
     ((0 ≤ start ≤ end_)%Z ∧ (end_ ≤ len)%Z → s = Z.to_nat start ∧ e = Z.to_nat end_) ∧
     ((end_ < start)%Z → e = s)) ∧
  (len ≤ end_ → apply_list_op (ReplaceSpanOp 0 end_ ms) l = _deepcopy_messages ms)%Z.
Proof.
  intros len. unfold apply_list_op, splice, clamp. fold len. split_and!.
  - by replace (Z.max (Z.max 0 (Z.min start len)) (Z.min start len))
      with (Z.max 0 (Z.min start len)) by lia.
  - done.
  - replace (Z.to_nat (Z.max 0 (Z.min len len))) with (length l) by lia.
    by rewrite firstn_all, drop_all, app_nil_r.
  - eexists _, _. split; [|split; [reflexivity|]]; lia.
  - intros Hlen. replace (Z.to_nat (Z.max 0 (Z.min 0 len))) with 0 by lia.
    replace (Z.to_nat (Z.max (Z.max 0 (Z.min 0 len)) (Z.min end_ len))) with (length l) by lia.
    by rewrite drop_all, app_nil_r.
Qed.

(** ** A run keeps its history *)

Record run_ok (s : run_messages) : Prop := {
  ro_graph : graph_ok (versions s);
  ro_latest : latest_version_id s = _latest_version_id (versions s);
}.

Definition initial_run : run_messages := mkRun [] empty_graph None.

Lemma on_versions_inv {A} (m : G A) s r s' :
  on_versions m s = (r, s') →
  ∃ g, m (versions s) = (r, g) ∧ s' = mkRun (transcript s) g (latest_version_id s).
Proof.
  unfold on_versions, zoom. destruct (m (versions s)) as [r0 g]. intros [= <- <-]. eauto.
Qed.

Lemma view_messages_frame vid s r s' : view_messages vid s = (r, s') → s' = s.
Proof.
  unfold view_messages. cbv [mbind M_bind gets]. destruct (str_or _ _); [|by intros [= _ <-]].
  intros (g & ->%get_messages_frame & ->)%on_versions_inv. by destruct s.
Qed.

Lemma apply_op_ok op w s r s' :
  run_ok s → apply_op op w s = (r, s') →
  run_ok s' ∧ _versions (versions s') = _versions (versions s) ∧ transcript s' = transcript s.
Proof.
  intros [Hg Hl] H. destruct op; try (cbn in H; injection H as <- <-; done).
  unfold apply_op in H. cbv [mbind M_bind] in H.
  destruct (on_versions _ s) as [[v|e] s1] eqn:Ha;
    apply on_versions_inv in Ha as (g & Ha & ->).
  - apply activate_ok in Ha as (Hg' & _ & Hv); [|done]. destruct (Hv v eq_refl) as [-> _].
    cbn in H. apply view_messages_frame in H as ->. done.
  - unfold activate, get_version in Ha. unfold_monad_in Ha.
    destruct (assoc_get _ vid); [done|]. simplify_eq. by destruct s.
Qed.

Lemma apply_ops_ok l w s r s' :
  run_ok s → apply_ops l w s = (r, s') →
  run_ok s' ∧ _versions (versions s') = _versions (versions s) ∧ transcript s' = transcript s.
Proof.
  revert w s. induction l as [|op l IH]; intros w s Hok H; cbn [apply_ops] in H;
    [by injection H as <- <-|].
  cbv [mbind M_bind] in H. destruct (apply_op op w s) as [[w1|e] s1] eqn:H1;
    apply apply_op_ok in H1 as (Hok1 & Hv & Ht); try done.
  - apply IH in H as (? & ? & ?); [|done]. split_and!; [done|congruence|congruence].
  - by injection H as <- <-.
Qed.

(** A version created for the run with an unused identifier. *)
Lemma run_create_ok fresh ms parent who meta s r s' :
  run_ok s → unused (versions s) fresh →
  (version ← on_versions (create_version fresh ms parent who meta None);
   _ ← set_latest (Some (version_id version)); mret (version_id version)) s = (r, s') →
  run_ok s' ∧ extends (versions s) (versions s') ∧ transcript s' = transcript s ∧
  ∀ vid, r = Ok vid → vid = fresh ∧ ∃ v, version_id v = fresh ∧ messages v = _deepcopy_messages ms ∧
    parent_version_id v = (match parent with Some p => Some p | None => latest_version_id s end) ∧
    versions s' = mkGraph (_versions (versions s) ++ [(fresh, v)]) (Some fresh).
Proof.
  intros [Hg Hl] Hun0 H. cbv [mbind M_bind] in H.
  assert (unused (versions s) (default fresh (str_or None None))) as Hun by exact Hun0.
  destruct (on_versions _ s) as [[v|e] s1] eqn:Hc; apply on_versions_inv in Hc as (g & Hc & ->);
    pose proof (create_ok _ _ _ _ _ _ _ _ _ Hg Hun Hc) as [Hg' Hext];
    apply create_inv in Hc as [[-> [p Hr]]|(w & Hr & Hid & Hp & Hm & _ & ->)]; try done.
  - injection Hr as <-. cbn in Hid. cbn in H. injection H as <- <-. rewrite Hid, <-Hl in *.
    split_and!; [done|done|done|]. intros vid [= <-]. split; [done|]. exists v. done.
  - injection H as <- <-. split_and!; [by split|reflexivity|done|done].
Qed.

(** What an operation may leave behind: a valid run whose versions extend the
    old ones. *)
Definition keeps_history (s s' : run_messages) : Prop :=
  run_ok s' ∧ extends (versions s) (versions s').

Lemma extends_same g g' : _versions g' = _versions g → extends g g'.
Proof. intros H. unfold extends. by rewrite H. Qed.

Definition applied_base (delta : HarnessDelta) (s : run_messages) : option pystr :=
  match latest_version_id s with
  | Some l => if rebase_to_latest delta then Some l else str_or (base_version_id delta) (Some l)
  | None => str_or (base_version_id delta) None
  end.

Lemma apply_message_delta_inv fresh delta s r s' :
  run_ok s → unused (versions s) fresh → apply_message_delta fresh delta s = (r, s') →
  keeps_history s s' ∧ transcript s' = transcript s ∧
  ∀ vid, r = Ok vid → vid = latest_version_id s' ∧
    if decide (omap op_type (ops delta) = []) then _versions (versions s') = _versions (versions s)
    else ∃ v, version_id v = fresh ∧ vid = Some fresh ∧
      (∀ p, applied_base delta s = Some p → parent_version_id v = Some p) ∧
      _versions (versions s') = _versions (versions s) ++ [(fresh, v)].
Proof.
  intros Hok Hun H. unfold apply_message_delta in H. cbv [mbind M_bind gets lift] in H.
  set (applied := match latest_version_id s with
    | Some l => if rebase_to_latest delta then Some l
                else str_or (base_version_id delta) (latest_version_id s)
    | None => str_or (base_version_id delta) (latest_version_id s) end) in *.
  assert (applied = applied_base delta s) as Happ.
  { unfold applied, applied_base. by destruct (latest_version_id s). }
  assert (keeps_history s s) as Hsame by (split; [done|reflexivity]).
  destruct (ensure _ _) as [[]|]; [|by injection H as <- <-].
  destruct (view_messages applied s) as [[w|e] s1] eqn:Hv; apply view_messages_frame in Hv as ->;
    [|by injection H as <- <-].
  destruct (apply_ops (ops delta) w s) as [[w2|e] s2] eqn:Hops;
    apply apply_ops_ok in Hops as (Hok2 & Hvs & Ht); try done; cycle 1.
  { injection H as <- <-. split_and!; [|done|done]. split; [done|by apply extends_same]. }
  destruct (omap op_type (ops delta)) as [|t ts].
  { injection H as <- <-. split_and!; [split; [done|by apply extends_same]|done|].
    by intros vid [= <-]. }
  assert (unused (versions s2) fresh) as Hun2 by (unfold unused, version_ids in *; by rewrite Hvs).
  match type of H with context [on_versions ?m s2] => set (m0 := m) in * end.
  assert (∃ r0, (version ← on_versions m0; _ ← set_latest (Some (version_id version));
    mret (version_id version)) s2 = (r0, s') ∧ r = match r0 with Ok i => Ok (Some i) | Err e => Err e end)
    as (r0 & Hc & ->).
  { cbv [mbind M_bind]. destruct (on_versions m0 s2) as [[v|e] s3]; cbn in H; injection H as <- <-; eauto. }
  apply run_create_ok in Hc as (Hok' & Hext & Ht' & Hr); [|done|done].
  split_and!; [split; [done|etrans; [by apply extends_same|done]]|congruence|].
  intros vid Hvid. destruct r0 as [i|]; [|done]. injection Hvid as <-.
  destruct (Hr i eq_refl) as (-> & v & Hid & _ & Hp & Hgr).
  split; [rewrite (ro_latest _ Hok'), Hgr; done|]. exists v.
  split_and!; [done|done| |by rewrite Hgr; cbn; rewrite Hvs].
  intros p Hpp. rewrite Hp, Happ, Hpp. done.
Qed.

(** The operations of a run on its messages, with unused identifiers; they may
    raise. *)
Inductive run_step : run_messages → run_messages → Prop :=
| step_seed s fresh ms who meta :
    unused (versions s) fresh → run_step s (seed_messages fresh ms who meta s).2
| step_rebuild s fresh ms who meta :
    unused (versions s) fresh → run_step s (rebuild_working_version fresh ms who meta s).2
| step_rebuild_transcript s fresh who meta :
    unused (versions s) fresh →
    run_step s (rebuild_working_version_from_transcript fresh who meta s).2
| step_delta s fresh delta :
    unused (versions s) fresh → run_step s (apply_message_delta fresh delta s).2.

Lemma rebuild_keeps fresh ms who meta s :
  run_ok s → unused (versions s) fresh →
  keeps_history s (rebuild_working_version fresh ms who meta s).2.
Proof.
  intros Hok Hun. destruct (rebuild_working_version fresh ms who meta s) as [r s'] eqn:H.
  unfold rebuild_working_version in H. cbv [mbind M_bind gets] in H.
  eapply run_create_ok in H as (? & ? & _); done.
Qed.

Lemma seed_keeps fresh ms who meta s :
  run_ok s → unused (versions s) fresh → keeps_history s (seed_messages fresh ms who meta s).2.
Proof.
  intros Hok Hun.
  destruct ((version ← on_versions (create_version fresh ms None who meta None);
    _ ← set_latest (Some (version_id version)); mret (version_id version)) s) as [r s'] eqn:H.
  pose proof (run_create_ok _ _ _ _ _ _ _ _ Hok Hun H) as (Hok' & Hext & _).
  revert H. unfold seed_messages. cbv [mbind M_bind].
  destruct (on_versions _ s) as [[v|e] s1]; cbn; intros [= <- <-]; [|done].
  split; [|done]. by destruct Hok'.
Qed.

Lemma run_step_keeps s s' : run_ok s → run_step s s' → keeps_history s s'.
Proof.
  intros Hok Hs. destruct Hs as [s fresh ms who meta Hun|s fresh ms who meta Hun
    |s fresh who meta Hun|s fresh delta Hun].
  - by apply seed_keeps.
  - by apply rebuild_keeps.
  - unfold rebuild_working_version_from_transcript. cbv [mbind M_bind gets]. by apply rebuild_keeps.
  - destruct (apply_message_delta fresh delta s) as [r s'] eqn:H.
    by apply apply_message_delta_inv in H as (? & _); [|done|done].
Qed.

Lemma run_steps_keep s s' : run_ok s → rtc run_step s s' → keeps_history s s'.
Proof.
  intros Hok Hs. induction Hs as [s|s1 s2 s3 Hs _ IH]; [split; [done|reflexivity]|].
  destruct (run_step_keeps _ _ Hok Hs) as [Hok2 ?]. destruct (IH Hok2). split; [done|by etrans].
Qed.

Lemma initial_run_ok : run_ok initial_run.
Proof. split; [apply empty_graph_ok|done]. Qed.

Lemma graph_ok_get g k : graph_ok g → k ∈ version_ids g → ∃ v, assoc_get (_versions g) k = Some v.
Proof.
  intros _ Hk. destruct (assoc_get (_versions g) k) eqn:E; [by eauto|].
  by apply assoc_get_None in E.
Qed.

(** A run never loses a version it has shown: whatever sequence of seeds,
    rebuilds and deltas it goes through, successful or not, every earlier
    version is kept as it was, the run and its graph agree on the latest
    version, and reading the latest messages succeeds. *)
Theorem run_history_is_kept (s s' : run_messages) :
  rtc run_step initial_run s → rtc run_step s s' →
  _versions (versions s) `prefix_of` _versions (versions s') ∧
  latest_version_id s' = _latest_version_id (versions s') ∧
  ∃ ms, latest_messages s' = (Ok ms, s').
Proof.
  intros Hs Hs'. destruct (run_steps_keep _ _ initial_run_ok Hs) as [Hok _].
  destruct (run_steps_keep _ _ Hok Hs') as [[Hg Hl] Hext]. split_and!; [done|done|].
  unfold latest_messages. cbv [mbind M_bind gets]. rewrite Hl.
  destruct (_latest_version_id (versions s')) as [l|] eqn:E; [|by eexists].
  destruct (graph_ok_get _ l Hg (go_latest _ Hg _ E)) as [v Hv]. eexists.
  unfold on_versions, zoom, get_messages, get_version. cbv [mbind M_bind gets]. cbn.
  rewrite Hv. cbn. by destruct s'.
Qed.

(** Applying a delta: a delta with message operations that returns has
    created exactly one version, under the new identifier, as a child of the
    version it was applied to, and made it the latest one; a delta without
    any leaves the versions alone.  Nothing else of the history changes. *)
Theorem delta_creates_one_child (s s' : run_messages) (fresh : pystr) (delta : HarnessDelta)
    (vid : option pystr) :
  rtc run_step initial_run s → unused (versions s) fresh →
  apply_message_delta fresh delta s = (Ok vid, s') →
  vid = latest_version_id s' ∧ transcript s' = transcript s ∧
  if decide (omap op_type (ops delta) = []) then _versions (versions s') = _versions (versions s)
  else ∃ v, version_id v = fresh ∧ vid = Some fresh ∧
    (∀ p, applied_base delta s = Some p → parent_version_id v = Some p) ∧
    _versions (versions s') = _versions (versions s) ++ [(fresh, v)].
Proof.
  intros Hs Hun H. destruct (run_steps_keep _ _ initial_run_ok Hs) as [Hok _].
  apply apply_message_delta_inv in H as (_ & Ht & Hr); [|done|done].
  destruct (Hr vid eq_refl). done.
Qed.

(** ** Concrete inputs *)

Definition hello : pyval := VDict [(KStr (u "role"), VStr (u "user"))].
Definition reply : pyval := VDict [(KStr (u "role"), VStr (u "assistant"))].

Definition demo_seeded : run_messages :=
  (seed_messages (u "v1") [hello] (Some (u "seed")) VNone initial_run).2.
Definition demo_delta : HarnessDelta :=
  mkDelta (u "h") None true [AppendMessagesOp [reply]; InsertMessagesOp (-5) [reply]] [] [] None.
Definition demo_applied : run_messages :=
  (apply_message_delta (u "v2") demo_delta demo_seeded).2.

Example demo_applied_messages :
  latest_messages demo_applied =
  (Ok [[(KStr (u "role"), VStr (u "assistant"))]; [(KStr (u "role"), VStr (u "user"))];
       [(KStr (u "role"), VStr (u "assistant"))]], demo_applied).
Proof. vm_compute. reflexivity. Qed.

Lemma demo_unused1 : unused (versions initial_run) (u "v1").
Proof. split; [reflexivity|]. apply (bool_decide_unpack _). vm_compute. exact I. Qed.
Lemma demo_unused2 : unused (versions demo_seeded) (u "v2").
Proof. split; [reflexivity|]. apply (bool_decide_unpack _). vm_compute. exact I. Qed.
Lemma demo_seeded_steps : rtc run_step initial_run demo_seeded.
Proof. apply rtc_once. apply (step_seed _ (u "v1")). exact demo_unused1. Qed.
Lemma demo_graph_steps : rtc graph_step empty_graph (versions demo_applied).
Proof.
  apply (rtc_l _ _ (versions demo_seeded)).
  - exact (step_create empty_graph (u "v1") [hello] None (Some (u "seed")) VNone None demo_unused1).
  - apply rtc_once.
    refine (eq_ind _ (graph_step (versions demo_seeded))
      (step_create (versions demo_seeded) (u "v2") [reply; hello; reply] (Some (u "v1"))
         (Some (u "h")) (VDict (match _versions (versions demo_applied) !! 1 with
                                | Some (_, v) => metadata v | None => [] end)) None
         demo_unused2) _ _).
    vm_compute. reflexivity.
Qed.

Lemma version_graph_is_append_only_witness :
  _versions (versions demo_applied) `prefix_of` _versions (versions demo_applied).
Proof.
  refine (proj1 (version_graph_is_append_only _ _ demo_graph_steps _)). reflexivity.
Defined.

Lemma lineage_is_total_witness :
  ∃ path, lineage (versions demo_applied) (Some (u "v2")) = Some (Ok path) ∧
    is_lineage (versions demo_applied) (u "v2") path ∧ NoDup path.
Proof.
  refine (lineage_is_total (versions demo_applied) (u "v2")
    (match _versions (versions demo_applied) !! 1 with
     | Some (_, v) => v | None => mkVersion [] None [] None [] end) demo_graph_steps _).
  vm_compute. reflexivity.
Defined.

Lemma run_history_is_kept_witness :
  latest_version_id demo_applied = _latest_version_id (versions demo_applied).
Proof.
  refine (proj1 (proj2 (run_history_is_kept demo_seeded demo_applied demo_seeded_steps _))).
  apply rtc_once. apply (step_delta _ (u "v2")). exact demo_unused2.
Defined.

Lemma delta_creates_one_child_witness : Some (u "v2") = latest_version_id demo_applied.
Proof.
  refine (proj1 (delta_creates_one_child demo_seeded demo_applied (u "v2") demo_delta _
    demo_seeded_steps demo_unused2 _)).
  vm_compute. reflexivity.
Defined.

(** ** Where the graph is not append-only

    Creating a version under an identifier in use replaces it; with its own
    identifier as parent the lineage never ends. *)

Definition self_parent : MessageVersionGraph :=
  (create_version (u "x") [reply] (Some (u "v1")) None VNone (Some (u "v1"))
     (versions demo_seeded)).2.

Example reused_identifier_overwrites :
  version_ids self_parent = [u "v1"] ∧
  (get_messages (u "v1") (versions demo_seeded)).1
    = Ok [[(KStr (u "role"), VStr (u "user"))]] ∧
  (get_messages (u "v1") self_parent).1 = Ok [[(KStr (u "role"), VStr (u "assistant"))]].
Proof. vm_compute. done. Qed.

Lemma reused_identifier_lineage_diverges fuel acc :
  lineage_loop fuel self_parent (Some (u "v1")) acc = None.
Proof.
  revert acc. induction fuel as [|fuel IH]; intros acc; [done|]. cbn [lineage_loop].
  assert (∃ v, assoc_get (_versions self_parent) (u "v1") = Some v ∧ version_id v = u "v1" ∧
    parent_version_id v = Some (u "v1")) as (v & -> & -> & ->) by (eexists; vm_compute; done).
  apply IH.
Qed.

(** [created_by=None] is recorded as the text [None]. *)
Example missing_author_is_recorded_as_text : created_by_of None = Some (u "None").
Proof. vm_compute. reflexivity. Qed.

(** After an activation in the same delta the new version holds the messages
    derived from the activated version but names the previous one as parent. *)
Example activation_does_not_change_the_parent :
  (let s := (apply_message_delta (u "v3")
      (mkDelta (u "h") None true [ActivateVersionOp (u "v1"); AppendMessagesOp [reply]] [] [] None)
      demo_applied).2 in
   match _versions (versions s) !! 2 with
   | Some (_, v) => (parent_version_id v, length (messages v))
   | None => (None, 0)
   end) = (Some (u "v2"), 2).
Proof. vm_compute. reflexivity. Qed.
