(* ===== verification/Optimizers.v ===== *)
(** * Context optimizers (src/unchain/optimizers)

    The harnesses that trim the messages before a model call: whole turns are
    dropped from the front ([last_n], [sliding_window]) and tool uses without
    a result are removed ([tool_pair_safety]).  Each one reads the latest
    version of the run and answers with a delta; [None] for the outer option
    is a Python exception.  [str] of a value that is not a string, and what
    [json] makes of a key that is not a string, are arguments. *)

From S2P Require Import Prelude PyVal Json Versions.

Definition is_text (v : pyval) (names : list string) : bool :=
  match v with VStr s => bool_decide (s ∈ u <$> names) | _ => false end.

(** ** Shared helpers (optimizers/common.py) *)

Section text.
Variable py_str : pyval → pystr.
Variable other_key : pykey → option pystr.

Abbreviation to_json := (dumps_default py_str other_key).

Definition as_text (v : pyval) : pystr := match v with VStr s => s | _ => py_str v end.

(** What one block of a content list adds to [parts]. *)
Definition block_text (block : pyval) : option pystr :=
  match block with
  | VDict b =>
      let block_type := get b "type" in
      if is_text block_type ["text"; "input_text"; "output_text"]%string then
        let text := default (VStr []) (dict_get b (KStr (u "text"))) in
        Some (if truthy text then as_text text else [])
      else if is_text block_type ["image"; "input_image"]%string then Some (u "[image]")
      else if is_text block_type ["pdf"; "document"; "input_file"]%string then Some (u "[pdf]")
      else to_json block
  | _ => Some []
  end.

Fixpoint blocks_text (l : list pyval) : option pystr :=
  match l with
  | [] => Some []
  | b :: l => t ← block_text b; ts ← blocks_text l; Some (t ++ ts)
  end.

Definition _content_to_text (content : pyval) : option pystr :=
  match content with
  | VStr s => Some s
  | VList l => blocks_text l
  | VDict _ => to_json content
  | VNone => Some []
  | _ => Some (py_str content)
  end.

(** The texts of the keys that are present, in the given order. *)
Fixpoint text_parts (m : message) (names : list string) : option (list pystr) :=
  match names with
  | [] => Some []
  | k :: names =>
      match dict_get m (KStr (u k)) with
      | None => text_parts m names
      | Some value =>
          t ← match value with VStr s => Some s | _ => to_json value end;
          ts ← text_parts m names;
          Some (t :: ts)
      end
  end.

Definition _message_to_text (m : message) : option pystr :=
  if has_key m "content" then _content_to_text (get m "content")
  else
    parts ← text_parts m ["arguments"; "output"; "result"; "text"]%string;
    match parts with
    | [] => to_json (VDict m)
    | _ => Some (join (u " ") parts)
    end.

Fixpoint total_chars (ms : list message) : option Z :=
  match ms with
  | [] => Some 0%Z
  | m :: ms =>
      text ← _message_to_text m;
      rest ← total_chars ms;
      Some ((match get m "role" with VStr r => Z.of_nat (length r) + 1 | _ => 0 end
             + Z.of_nat (length text) + rest)%Z)
  end.

(** [ceil(total / 4.0)], which is exact below [2^53] characters *)
Definition estimate_tokens (ms : list message) : option Z :=
  total ← total_chars ms;
  Some (if (total <=? 0)%Z then 0%Z else ((total + 3) / 4)%Z).
End text.

Definition is_system (m : message) : bool := is_text (get m "role") ["system"]%string.

Definition split_system_and_non_system (ms : list message) : list message * list message :=
  (List.filter is_system ms, List.filter (λ m, negb (is_system m)) ms).

Definition _is_tool_result_like_message (m : message) : bool :=
  (match get m "content" with
   | VList ((_ :: _) as l) =>
       forallb (λ b, match b with VDict d => is_text (get d "type") ["tool_result"]%string
                                | _ => false end) l
   | _ => false
   end) ||
  (match get m "parts" with
   | VList ((_ :: _) as l) =>
       forallb (λ p, match p with VDict d => has_key d "function_response" | _ => false end) l
   | _ => false
   end).

(** A user message that is no tool result starts a turn. *)
Definition starts_turn (m : message) : bool :=
  is_text (get m "role") ["user"]%string && negb (_is_tool_result_like_message m).

(** The loop of [split_turns]: the finished turns and the current one. *)
Fixpoint split_turns_loop (ms : list message) (turns : list (list message))
    (current : list message) : list (list message) :=
  match ms with
  | [] => match current with [] => turns | _ => turns ++ [current] end
  | m :: ms =>
      match current with
      | _ :: _ => if starts_turn m then split_turns_loop ms (turns ++ [current]) [m]
                  else split_turns_loop ms turns (current ++ [m])
      | [] => split_turns_loop ms turns (current ++ [m])
      end
  end.

Definition split_turns (ms : list message) : list (list message) := split_turns_loop ms [] [].

Definition replace_non_system_span (ms replacement injected : list message) : list message :=
  (split_system_and_non_system ms).1 ++ injected ++ replacement.

(** ** The optimizer base class (optimizers/base.py) *)

(** What an optimizer reads of the run. *)
Record OptimizerContext : Type := mkContext {
  ctx_messages : list message;
  ctx_latest_version_id : option pystr;
  (** [optimizer_state()]: this optimizer's own bucket *)
  ctx_bucket : pydict;
  (** [state.optimizer_state.get("llm_summary", {})] *)
  ctx_summary_state : pyval;
  max_context_window_tokens : Z;
}.

Definition build_state_updates (name : pystr) (bucket : option pydict) : pydict :=
  match bucket with
  | None => []
  | Some b => [(KStr (u "optimizer_state"), VDict [(KStr name, VDict b)])]
  end.

Definition created_by_optimizer (name : pystr) : pystr := u "optimizer." ++ name.

Definition state_only_delta (name : pystr) (bucket : option pydict) (trace : pydict)
    : option HarnessDelta :=
  match build_state_updates name bucket, trace with
  | [], [] => None
  | updates, _ => Some (mkDelta (created_by_optimizer name) None true [] updates trace None)
  end.

(** [current_messages == messages] *)
Definition messages_eq (a b : list message) : bool :=
  py_eq (VList (VDict <$> a)) (VList (VDict <$> b)).

Definition replace_messages_delta (name : pystr) (ctx : OptimizerContext) (ms : list message)
    (bucket : option pydict) (trace : pydict) : option HarnessDelta :=
  let current := ctx_messages ctx in
  if messages_eq current ms then state_only_delta name bucket trace
  else Some (mkDelta (created_by_optimizer name) (ctx_latest_version_id ctx) true
               [ReplaceSpanOp 0 (Z.of_nat (length current)) (VDict <$> ms)]
               (build_state_updates name bucket) trace None).

Definition set_int (d : pydict) (k : string) (z : Z) : pydict := dict_set d (KStr (u k)) (VInt z).
Definition set_bool (d : pydict) (k : string) (b : bool) : pydict :=
  dict_set d (KStr (u k)) (VBool b).
Definition count {A} (l : list A) : Z := Z.of_nat (length l).

(** ** The last [n] turns (optimizers/last_n.py) *)

(** [turns[-n:] if n > 0 else []] *)
Definition last_turns (n : Z) (turns : list (list message)) : list (list message) :=
  if (0 <? n)%Z then drop (length turns - Z.to_nat n) turns else [].

Definition last_n_delta (last_n_turns : Z) (ctx : OptimizerContext) : option HarnessDelta :=
  let turns := split_turns (split_system_and_non_system (ctx_messages ctx)).2 in
  let n := Z.max 0 last_n_turns in
  let bucket := set_int (ctx_bucket ctx) "last_n_turns" n in
  let skip := match ctx_summary_state ctx with
              | VDict d => bool_decide (get d "source_preservation_required" = VBool true)
              | _ => false
              end in
  if skip then
    let reason := VStr (u "upstream_summary_replacement_unavailable") in
    let bucket := dict_set (set_bool bucket "skipped" true) (KStr (u "skip_reason")) reason in
    let bucket := set_int (set_int bucket "kept_turn_count" (count turns))
                    "total_turn_count" (count turns) in
    state_only_delta (u "last_n") (Some bucket)
      [(KStr (u "skipped"), VBool true); (KStr (u "skip_reason"), reason);
       (KStr (u "total_turn_count"), VInt (count turns))]
  else
    let bucket := dict_del (set_bool bucket "skipped" false) (KStr (u "skip_reason")) in
    let kept := last_turns n turns in
    let bucket := set_int (set_int bucket "kept_turn_count" (count kept))
                    "total_turn_count" (count turns) in
    replace_messages_delta (u "last_n") ctx
      (replace_non_system_span (ctx_messages ctx) (concat kept) []) (Some bucket)
      [(KStr (u "kept_turn_count"), VInt (count kept));
       (KStr (u "total_turn_count"), VInt (count turns))].

(** ** The sliding window (optimizers/sliding_window.py) *)

Record SlidingWindowOptimizerConfig : Type := mkWindow {
  max_window_pct : spec_float;
  max_window_tokens : option Z;
}.

(** [x or y] on optional integers *)
Definition int_or (x y : option Z) : option Z :=
  match x with Some z => if (z =? 0)%Z then y else Some z | None => y end.

(** The outer option is the conversion of a non-finite product. *)
Definition _compute_effective_budget (config : SlidingWindowOptimizerConfig)
    (ctx : OptimizerContext) : option (option Z) :=
  let max_ctx := Z.max 0 (max_context_window_tokens ctx) in
  pct ← (if (0 <? max_ctx)%Z
         then Some <$> Z_of_float (SFmul prec emax (float_of_Z max_ctx) (max_window_pct config))
         else Some None);
  Some (match pct, max_window_tokens config with
        | Some p, Some a => Some (Z.min p a)
        | _, _ => int_or pct (max_window_tokens config)
        end).

Section window.
Variable py_str : pyval → pystr.
Variable other_key : pykey → option pystr.
Abbreviation tokens := (estimate_tokens py_str other_key).

(** The loop over [reversed(turns)]. *)
Fixpoint keep_turns (rev : list (list message)) (used budget : Z) (kept : list (list message))
    : option (list (list message)) :=
  match rev with
  | [] => Some kept
  | turn :: rev =>
      t ← tokens turn;
      if (budget <? used + t)%Z then Some kept
      else keep_turns rev (used + t) budget (turn :: kept)
  end.

(** The turns kept for a budget, and whether the latest was forced. *)
Definition window_turns (turns : list (list message)) (remaining : Z)
    : option (list (list message) * bool) :=
  kept ← (if (remaining <=? 0)%Z then Some []
          else keep_turns (reverse turns) 0 remaining []);
  Some (match kept, last turns with
        | [], Some t => ([t], true)
        | _, _ => (kept, false)
        end).

Definition sliding_window_delta (config : SlidingWindowOptimizerConfig) (ctx : OptimizerContext)
    : option (option HarnessDelta) :=
  budget ← _compute_effective_budget config ctx;
  match budget with
  | None => Some None
  | Some budget =>
      if (budget <=? 0)%Z then Some None
      else
        let ms := ctx_messages ctx in
        let '(system_msgs, non_system) := split_system_and_non_system ms in
        system_tokens ← tokens system_msgs;
        let turns := split_turns non_system in
        kf ← window_turns turns (budget - system_tokens)%Z;
        let '(kept, forced) := (kf : list (list message) * bool) in
        used ← tokens (concat kept);
        let dropped := (count turns - count kept)%Z in
        let bucket := set_int (set_int (set_int (set_int (set_int (set_int (ctx_bucket ctx)
          "effective_budget_tokens" budget) "system_tokens" system_tokens)
          "kept_turn_count" (count kept)) "total_turn_count" (count turns))
          "dropped_turn_count" dropped) "tokens_used" used in
        let bucket := set_bool bucket "forced_keep_latest_turn" forced in
        Some (replace_messages_delta (u "sliding_window") ctx
          (replace_non_system_span ms (concat kept) []) (Some bucket)
          [(KStr (u "kept_turn_count"), VInt (count kept));
           (KStr (u "total_turn_count"), VInt (count turns));
           (KStr (u "dropped_turn_count"), VInt dropped);
           (KStr (u "budget_tokens"), VInt budget); (KStr (u "used_tokens"), VInt used);
           (KStr (u "forced_keep_latest_turn"), VBool forced)])
  end.
End window.

(** ** Tool pairs (optimizers/tool_pair_safety.py) *)

(** The non-empty string under a key, as a set *)
Definition id_under (d : pydict) (k : string) : gset pystr :=
  match get d k with VStr ((_ :: _) as s) => {[s]} | _ => ∅ end.

Definition block_ids (type_ key : string) (b : pyval) : gset pystr :=
  match b with
  | VDict d => if is_text (get d "type") [type_] then id_under d key else ∅
  | _ => ∅
  end.

Definition list_under (m : message) (k : string) : list pyval :=
  match get m k with VList l => l | _ => [] end.

Definition _extract_tool_use_ids (m : message) : gset pystr :=
  ⋃ (block_ids "tool_use" "id" <$> list_under m "content") ∪
  ⋃ ((λ tc, match tc with VDict d => id_under d "id" | _ => ∅ end) <$> list_under m "tool_calls").

Definition _extract_tool_result_ids (m : message) : gset pystr :=
  ⋃ (block_ids "tool_result" "tool_use_id" <$> list_under m "content") ∪ id_under m "tool_call_id".

(** [v in orphaned_ids]; [None] for an unhashable value. *)
Definition in_ids (v : pyval) (ids : gset pystr) : option bool :=
  match v with
  | VStr s => Some (bool_decide (s ∈ ids))
  | VList _ | VDict _ => None
  | _ => Some false
  end.

(** The items a list comprehension keeps; [drop] may raise. *)
Fixpoint keep_unless (drop_ : pyval → option bool) (l : list pyval) : option (list pyval) :=
  match l with
  | [] => Some []
  | x :: l => d ← drop_ x; l' ← keep_unless drop_ l; Some (if (d : bool) then l' else x :: l')
  end.

Definition orphan_block (ids : gset pystr) (b : pyval) : option bool :=
  match b with
  | VDict d => if is_text (get d "type") ["tool_use"]%string then in_ids (get d "id") ids
               else Some false
  | _ => Some false
  end.

Definition orphan_call (ids : gset pystr) (tc : pyval) : option bool :=
  match tc with VDict d => in_ids (get d "id") ids | _ => Some false end.

(** Strip the orphaned uses of one message. *)
Definition strip_orphans (ids : gset pystr) (m : message) : option message :=
  m ← match get m "content" with
      | VList l =>
          l' ← keep_unless (orphan_block ids) l;
          Some (dict_set m (KStr (u "content")) (match l' with [] => VStr [] | _ => VList l' end))
      | _ => Some m
      end;
  match get m "tool_calls" with
  | VList l =>
      l' ← keep_unless (orphan_call ids) l;
      Some (match l' with
            | [] => dict_del m (KStr (u "tool_calls"))
            | _ => dict_set m (KStr (u "tool_calls")) (VList l')
            end)
  | _ => Some m
  end.

(** [content not in ("", [], None) or bool(tool_calls)] *)
Definition still_says_something (m : message) : bool :=
  negb (match get m "content" with VStr [] | VList [] | VNone => true | _ => false end)
  || truthy (get m "tool_calls").

Definition is_assistant (m : message) : bool := is_text (get m "role") ["assistant"]%string.

Definition clean_message (results : gset pystr) (m : message) : option (option message) :=
  if negb (is_assistant m) then Some (Some m)
  else
    let orphaned := _extract_tool_use_ids m ∖ results in
    if bool_decide (orphaned = ∅) then Some (Some m)
    else new_msg ← strip_orphans orphaned m;
         Some (if still_says_something new_msg then Some new_msg else None).

Fixpoint clean_all (results : gset pystr) (ms : list message) : option (list message) :=
  match ms with
  | [] => Some []
  | m :: ms =>
      c ← clean_message results m; cs ← clean_all results ms;
      Some (match c with Some m' => m' :: cs | None => cs end)
  end.

Definition all_result_ids (ms : list message) : gset pystr :=
  ⋃ (_extract_tool_result_ids <$> ms).

Definition _remove_orphaned_tool_uses (ms : list message) : option (list message) :=
  clean_all (all_result_ids ms) ms.

Definition tool_pair_safety_delta (ctx : OptimizerContext) : option (option HarnessDelta) :=
  let ms := ctx_messages ctx in
  let non_system := (split_system_and_non_system ms).2 in
  cleaned ← _remove_orphaned_tool_uses non_system;
  if length cleaned =? length non_system then Some None
  else Some (replace_messages_delta (u "tool_pair_safety") ctx
         (replace_non_system_span ms cleaned [])
         (Some [(KStr (u "removed_orphans"), VInt (count non_system - count cleaned))]) []).

(** ** Turns *)

Lemma split_turns_loop_spec ms turns current :
  concat (split_turns_loop ms turns current) = concat turns ++ current ++ ms ∧
  (Forall (λ t, t ≠ []) turns → Forall (λ t, t ≠ []) (split_turns_loop ms turns current)).
Proof.
  revert turns current. induction ms as [|m ms IH]; intros turns current; cbn [split_turns_loop].
  - destruct current as [|c cs]; [by rewrite !app_nil_r|].
    rewrite concat_app. cbn. rewrite !app_nil_r. split; [done|].
    intros H. apply Forall_app. split; [done|]. by constructor.
  - destruct current as [|c cs]; [|destruct (starts_turn m)].
    + by destruct (IH turns ([] ++ [m])) as [-> ?].
    + destruct (IH (turns ++ [c :: cs]) [m]) as [-> Hne]. split.
      * rewrite concat_app. cbn. by rewrite app_nil_r, <-app_assoc.
      * intros H. apply Hne, Forall_app. split; [done|]. by constructor.
    + destruct (IH turns ((c :: cs) ++ [m])) as [-> ?]. split; [|done]. by rewrite <-app_assoc.
Qed.

Lemma split_turns_concat ms : concat (split_turns ms) = ms.
Proof. unfold split_turns. by rewrite (proj1 (split_turns_loop_spec ms [] [])). Qed.

Lemma split_turns_nonempty ms : Forall (λ t, t ≠ []) (split_turns ms).
Proof. by apply split_turns_loop_spec. Qed.

(** ** Token estimates *)

Section estimates.
Variable py_str : pyval → pystr.
Variable other_key : pykey → option pystr.
Abbreviation tokens := (estimate_tokens py_str other_key).
Abbreviation chars := (total_chars py_str other_key).

Lemma chars_nonneg ms n : chars ms = Some n → (0 ≤ n)%Z.
Proof.
  revert n. induction ms as [|m ms IH]; intros n H; cbn in H; [by simplify_eq|].
  apply bind_Some in H as (t & _ & H). apply bind_Some in H as (r & Hr & H).
  specialize (IH r Hr). injection H as <-. destruct (get m "role"); lia.
Qed.

Lemma chars_app ms ms' n n' :
  chars ms = Some n → chars ms' = Some n' → chars (ms ++ ms') = Some (n + n')%Z.
Proof.
  revert n. induction ms as [|m ms IH]; intros n H H'; cbn in H |- *; [by simplify_eq|].
  apply bind_Some in H as (t & Ht & H). apply bind_Some in H as (r & Hr & H).
  rewrite Ht. cbn. rewrite (IH r Hr H'). cbn. injection H as <-. f_equal. lia.
Qed.

Lemma tokens_inv ms n :
  tokens ms = Some n ↔ ∃ c, chars ms = Some c ∧ (0 ≤ c)%Z ∧ n = ((c + 3) / 4)%Z.
Proof.
  unfold estimate_tokens. rewrite bind_Some. split.
  - intros (c & Hc & H). exists c. pose proof (chars_nonneg _ _ Hc). split_and!; [done|done|].
    destruct (c <=? 0)%Z eqn:E; bsimpl; injection H as <-; [|done].
    assert (c = 0%Z) as -> by lia. done.
  - intros (c & Hc & Hnn & ->). exists c. split; [done|].
    destruct (c <=? 0)%Z eqn:E; bsimpl; [|done]. assert (c = 0%Z) as -> by lia. done.
Qed.

Lemma tokens_app ms ms' n n' :
  tokens ms = Some n → tokens ms' = Some n' →
  ∃ k, tokens (ms ++ ms') = Some k ∧ (k ≤ n + n')%Z.
Proof.
  intros (c & Hc & ? & ->)%tokens_inv (c' & Hc' & ? & ->)%tokens_inv.
  exists ((c + c' + 3) / 4)%Z. split.
  - apply tokens_inv. exists (c + c')%Z. split_and!; [by apply chars_app|lia|done].
  - assert (∀ x, (x + 3) / 4 * 4 ≤ x + 3 ∧ x ≤ (x + 3) / 4 * 4)%Z as Hd.
    { intros x. pose proof (Z.div_mod (x + 3) 4). pose proof (Z.mod_pos_bound (x + 3) 4). lia. }
    pose proof (Hd c). pose proof (Hd c'). pose proof (Hd (c + c')%Z). lia.
Qed.

(** The kept turns and their total estimate. *)
Lemma keep_turns_spec rev used budget kept ktok result :
  keep_turns py_str other_key rev used budget kept = Some result →
  tokens (concat kept) = Some ktok → (ktok ≤ used ≤ budget)%Z →
  ∃ taken rest rtok, rev = taken ++ rest ∧ result = reverse taken ++ kept ∧
    tokens (concat result) = Some rtok ∧ (rtok ≤ budget)%Z ∧
    (taken = [] → kept = [] → ∀ t, head rest = Some t →
       ∃ n, tokens t = Some n ∧ (budget < used + n)%Z).
Proof.
  revert used kept ktok. induction rev as [|t rev IH]; intros used kept ktok H Hk Hle; cbn in H.
  - injection H as <-. exists [], [], ktok. split_and!; [done|done|done|lia|done].
  - apply bind_Some in H as (n & Hn & H). destruct (budget <? used + n)%Z eqn:Hb; bsimpl.
    + injection H as <-. exists [], (t :: rev), ktok. split_and!; [done|done|done|lia|].
      intros _ _ t' [= <-]. eauto.
    + destruct (tokens_app t (concat kept) n ktok Hn Hk) as (k & Hk' & Hkle).
      assert (0 ≤ n)%Z as Hn0.
      { apply tokens_inv in Hn as (c & _ & ? & ->). apply Z.div_pos; lia. }
      destruct (IH _ _ k H) as (taken & rest & rtok & -> & -> & Hr & Hrle & _);
        [by cbn|lia|].
      exists (t :: taken), rest, rtok. rewrite reverse_cons, <-app_assoc. done.
Qed.

Lemma window_turns_spec turns remaining kept forced :
  Forall (λ t, t ≠ []) turns →
  window_turns py_str other_key turns remaining = Some (kept, forced) →
  ∃ dropped, turns = dropped ++ kept ∧ (turns ≠ [] → kept ≠ []) ∧
    if forced then ∃ t, kept = [t] ∧
      ((remaining ≤ 0)%Z ∨ ∃ n, tokens t = Some n ∧ (remaining < n)%Z)
    else turns = [] ∨ ∃ k, tokens (concat kept) = Some k ∧ (k ≤ remaining)%Z.
Proof.
  intros Hne H. unfold window_turns in H. apply bind_Some in H as (k0 & Hk & H).
  assert (∃ dropped, turns = dropped ++ k0 ∧
    (k0 = [] → turns ≠ [] → (remaining ≤ 0)%Z ∨
       ∃ t n, last turns = Some t ∧ tokens t = Some n ∧ (remaining < n)%Z) ∧
    (k0 ≠ [] ∨ turns = [] → turns = [] ∨ ∃ k, tokens (concat k0) = Some k ∧ (k ≤ remaining)%Z))
    as (dropped & Hd & Hempty & Hfit).
  { destruct (remaining <=? 0)%Z eqn:Hr; bsimpl.
    - injection Hk as <-. exists turns. rewrite app_nil_r. naive_solver.
    - destruct (keep_turns_spec _ _ _ _ 0%Z _ Hk eq_refl ltac:(lia))
        as (taken & rest & rtok & Hrev & -> & Ht & Hle & Hforce).
      exists (reverse rest). rewrite app_nil_r in *.
      assert (turns = reverse rest ++ reverse taken) as Hts
        by (by rewrite <-reverse_app, <-Hrev, reverse_involutive).
      split_and!; [done| |eauto]. intros Hnil Hts0. right.
      assert (taken = []) as -> by (destruct taken; [done|]; rewrite reverse_cons in Hnil;
        by destruct (reverse taken)).
      rewrite app_nil_l in Hrev. destruct rest as [|t rest]; [by rewrite Hts in Hts0|].
      destruct (Hforce eq_refl eq_refl t eq_refl) as (n & Hn & Hlt). exists t, n.
      split_and!; [|done|lia]. rewrite Hts, app_nil_r, reverse_cons. apply last_snoc. }
  destruct k0 as [|t0 k0].
  - rewrite app_nil_r in Hd. subst dropped. destruct (last turns) as [t|] eqn:Hl.
    + injection H as <- <-. apply last_Some in Hl as [pre ->]. exists pre.
      split_and!; [done|done|]. exists t. split; [done|].
      assert (pre ++ [t] ≠ []) as Hpre by by destruct pre.
      destruct (Hempty eq_refl Hpre) as [|(t' & n & Ht' & ?)]; [by left|right].
      injection Ht' as <-. eauto.
    + injection H as <- <-. apply last_None in Hl as ->. exists []. split_and!; auto.
  - assert ((kept, forced) = (t0 :: k0, false)) as Heq by (destruct (last turns); congruence).
    injection Heq as -> ->. exists dropped. split_and!; [done|done|]. apply Hfit. by left.
Qed.
End estimates.

(** What a delta of [replace_messages_delta] asks for. *)
Definition asks_for (delta : HarnessDelta) (ctx : OptimizerContext) (ms : list message) : Prop :=
  (ops delta = [] ∧ messages_eq (ctx_messages ctx) ms = true) ∨
  ops delta = [ReplaceSpanOp 0 (Z.of_nat (length (ctx_messages ctx))) (VDict <$> ms)].

Lemma replace_asks_for name ctx ms bucket trace delta :
  replace_messages_delta name ctx ms bucket trace = Some delta → asks_for delta ctx ms.
Proof.
  unfold replace_messages_delta, state_only_delta, asks_for.
  destruct (messages_eq (ctx_messages ctx) ms) eqn:E; [|intros [= <-]; by right].
  intros H. left. split; [|done]. by repeat case_match; simplify_eq.
Qed.

(** The sliding window drops whole turns from the front only: the messages
    it asks for are the system messages followed by a suffix of the turns; it
    never leaves a conversation without a turn; and it stays within the token
    budget unless the latest turn alone does not fit, which is then kept
    alone. *)
Theorem sliding_window_fits_budget (py_str : pyval → pystr) (other_key : pykey → option pystr)
    (config : SlidingWindowOptimizerConfig) (ctx : OptimizerContext) (delta : HarnessDelta) :
  sliding_window_delta py_str other_key config ctx = Some (Some delta) →
  let '(systems, non_system) := split_system_and_non_system (ctx_messages ctx) in
  ∃ budget dropped kept forced,
    _compute_effective_budget config ctx = Some (Some budget) ∧ (0 < budget)%Z ∧
    split_turns non_system = dropped ++ kept ∧ non_system = concat dropped ++ concat kept ∧
    (non_system ≠ [] → kept ≠ []) ∧
    asks_for delta ctx (systems ++ concat kept) ∧
    if forced : bool then ∃ t, kept = [t]
    else non_system = [] ∨ ∃ total,
      estimate_tokens py_str other_key (systems ++ concat kept) = Some total ∧ (total ≤ budget)%Z.
Proof.
  unfold sliding_window_delta. intros H. apply bind_Some in H as (b & Hb & H).
  destruct b as [budget|]; [|done]. destruct (budget <=? 0)%Z eqn:Hpos; [done|]. bsimpl.
  destruct (split_system_and_non_system (ctx_messages ctx)) as [systems non_system] eqn:Hsplit.
  apply bind_Some in H as (st & Hst & H). apply bind_Some in H as ([kept forced] & Hw & H).
  apply bind_Some in H as (used & Hused & H). injection H as H.
  apply window_turns_spec in Hw as (dropped & Hd & Hkeep & Hf); [|apply split_turns_nonempty].
  pose proof (split_turns_concat non_system) as Hcat.
  assert (split_turns non_system = [] → non_system = []) as Hnil by (intros E; by rewrite <-Hcat, E).
  exists budget, dropped, kept, forced. split_and!; [done|done|done| | | |].
  - by rewrite <-Hcat, Hd, concat_app.
  - intros Hne. apply Hkeep. intros E. by apply Hne, Hnil.
  - apply replace_asks_for in H. unfold replace_non_system_span in H. by rewrite Hsplit in H.
  - destruct forced; [naive_solver|]. destruct Hf as [E|(k & Hk & Hle)]; [left; auto|right].
    destruct (tokens_app _ _ _ _ _ _ Hst Hk) as (total & Ht & ?). exists total.
    split; [done|lia].
Qed.

(** ** Tool pairs *)

Lemma keep_unless_spec f l l' :
  keep_unless f l = Some l' → ∀ x, x ∈ l' → x ∈ l ∧ f x = Some false.
Proof.
  revert l'. induction l as [|y l IH]; intros l' H x Hx; cbn in H.
  { injection H as <-. by apply elem_of_nil in Hx. }
  apply bind_Some in H as (d & Hd & H). apply bind_Some in H as (r & Hr & H).
  injection H as <-. destruct d.
  - destruct (IH _ Hr x Hx). split; [by right|done].
  - apply elem_of_cons in Hx as [->|Hx]; [split; [by left|done]|].
    destruct (IH _ Hr x Hx). split; [by right|done].
Qed.

Lemma in_ids_false d k s ids :
  s ∈ id_under d k → in_ids (get d k) ids = Some false → s ∉ ids.
Proof.
  unfold id_under. destruct (get d k) as [| | | |t| | |]; try set_solver.
  destruct t as [|c t]; [set_solver|]. intros ->%elem_of_singleton. cbn. intros [= H].
  by bsimpl.
Qed.

Lemma elem_union_list {A} (f : A → gset pystr) l s :
  s ∈ ⋃ (f <$> l) ↔ ∃ x, x ∈ l ∧ s ∈ f x.
Proof.
  rewrite elem_of_union_list. split.
  - intros (X & (x & -> & Hx)%list_elem_of_fmap & Hs). eauto.
  - intros (x & Hx & Hs). exists (f x). split; [by apply list_elem_of_fmap_2|done].
Qed.

Lemma get_set_eq m k v : get (dict_set m (KStr (u k)) v) k = v.
Proof. unfold get. by rewrite dict_get_set_eq. Qed.

Lemma get_set_ne m k k' v : u k ≠ u k' → get (dict_set m (KStr (u k)) v) k' = get m k'.
Proof. intros H. unfold get. rewrite dict_get_set_ne; [done|congruence]. Qed.

Lemma get_del_eq m k : get (dict_del m (KStr (u k))) k = VNone.
Proof. unfold get. by rewrite dict_get_del_eq. Qed.

Lemma get_del_ne m k k' : u k ≠ u k' → get (dict_del m (KStr (u k))) k' = get m k'.
Proof. intros H. unfold get. rewrite dict_get_del_ne; [done|congruence]. Qed.

(** What stripping leaves of the two lists of a message. *)
Lemma strip_orphans_lists ids m m' :
  strip_orphans ids m = Some m' →
  (∀ x, x ∈ list_under m' "content" → x ∈ list_under m "content" ∧ orphan_block ids x = Some false) ∧
  (∀ x, x ∈ list_under m' "tool_calls" →
     x ∈ list_under m "tool_calls" ∧ orphan_call ids x = Some false).
Proof.
  unfold strip_orphans. intros H. apply bind_Some in H as (m1 & H1 & H2).
  assert ((∀ x, x ∈ list_under m1 "content" →
      x ∈ list_under m "content" ∧ orphan_block ids x = Some false) ∧
    get m1 "tool_calls" = get m "tool_calls") as [Hc Ht].
  { unfold list_under at 2. destruct (get m "content") as [| | | | |l| |] eqn:Hcon.
    all: try (injection H1 as <-; unfold list_under; rewrite Hcon;
              split; [intros x Hx; by apply elem_of_nil in Hx|done]).
    apply bind_Some in H1 as (l' & Hl & H1). injection H1 as <-.
    split; [|by rewrite get_set_ne]. intros x. unfold list_under. rewrite get_set_eq.
    destruct l' as [|y l']; [by intros ?%elem_of_nil|]. by apply keep_unless_spec. }
  unfold list_under in Hc |- *. rewrite Ht in H2.
  destruct (get m "tool_calls") as [| | | | |l| |] eqn:Htc.
  all: try (injection H2 as <-; rewrite Ht; split; [done|intros x Hx; by apply elem_of_nil in Hx]).
  apply bind_Some in H2 as (l' & Hl & H2). injection H2 as <-.
  destruct l' as [|y l'].
  - rewrite get_del_eq, get_del_ne by done. split; [done|]. intros x Hx. by apply elem_of_nil in Hx.
  - rewrite get_set_eq, get_set_ne by done. split; [done|]. by apply keep_unless_spec.
Qed.

Lemma strip_orphans_uses ids m m' :
  strip_orphans ids m = Some m' → _extract_tool_use_ids m' ⊆ _extract_tool_use_ids m ∖ ids.
Proof.
  intros [Hc Ht]%strip_orphans_lists s Hs. unfold _extract_tool_use_ids in *.
  rewrite elem_of_union, !elem_union_list in Hs. rewrite elem_of_difference, elem_of_union, !elem_union_list.
  destruct Hs as [(b & Hb & Hs)|(tc & Htc & Hs)].
  - destruct (Hc b Hb) as [Hin Hf]. split; [left; eauto|].
    destruct b as [| | | | | |d|]; cbn in Hs; try set_solver. cbn in Hf.
    destruct (is_text (get d "type") _); [|set_solver]. by eapply in_ids_false.
  - destruct (Ht tc Htc) as [Hin Hf]. split; [right; eauto|].
    destruct tc as [| | | | | |d|]; try set_solver. by eapply in_ids_false.
Qed.

Lemma no_difference (A B : gset pystr) : A ∖ B = ∅ → A ⊆ B.
Proof. intros H s Hs. destruct (decide (s ∈ B)); [done|]. set_solver. Qed.

Lemma double_difference (A B C : gset pystr) : C ⊆ A ∖ (A ∖ B) → C ⊆ B.
Proof. intros H s Hs. destruct (decide (s ∈ B)); [done|]. set_solver. Qed.

Lemma clean_all_spec results ms cleaned :
  clean_all results ms = Some cleaned →
  List.filter (λ m, negb (is_assistant m)) ms `sublist_of` cleaned ∧
  ∀ m, m ∈ cleaned → is_assistant m = true → _extract_tool_use_ids m ⊆ results.
Proof.
  revert cleaned. induction ms as [|m ms IH]; intros cleaned H; cbn in H.
  { injection H as <-. split; [constructor|]. intros m Hm. by apply elem_of_nil in Hm. }
  apply bind_Some in H as (c & Hc & H). apply bind_Some in H as (cs & Hcs & H).
  injection H as <-. destruct (IH cs Hcs) as [Hsub Huse]. cbn [List.filter].
  unfold clean_message in Hc. destruct (is_assistant m) eqn:Ha; cbn in Hc |- *.
  - case_bool_decide as Horph.
    + injection Hc as <-. split; [by constructor|].
      intros m' [->|Hm']%elem_of_cons Ha'; [by apply no_difference|auto].
    + apply bind_Some in Hc as (m1 & Hm1 & Hc). injection Hc as <-.
      destruct (still_says_something m1); [|done]. split; [by constructor|].
      intros m' [->|Hm']%elem_of_cons Ha'; [|auto].
      eapply double_difference, strip_orphans_uses, Hm1.
  - injection Hc as <-. split; [by constructor|].
    intros m' [->|Hm']%elem_of_cons Ha'; [congruence|auto].
Qed.

Lemma all_results_mono ms ms' : (∀ m, m ∈ ms → m ∈ ms') → all_result_ids ms ⊆ all_result_ids ms'.
Proof. intros H s. unfold all_result_ids. rewrite !elem_union_list. naive_solver. Qed.

(** Removing orphaned tool uses pairs them up: in what remains every tool
    use of an assistant message has its result, given that results are not
    carried by assistant messages; no other message is dropped or changed. *)
Theorem remaining_tool_uses_are_paired (ms cleaned : list message) :
  _remove_orphaned_tool_uses ms = Some cleaned →
  Forall (λ m, is_assistant m = true → _extract_tool_result_ids m = ∅) ms →
  List.filter (λ m, negb (is_assistant m)) ms `sublist_of` cleaned ∧
  ∀ m, m ∈ cleaned → is_assistant m = true → _extract_tool_use_ids m ⊆ all_result_ids cleaned.
Proof.
  unfold _remove_orphaned_tool_uses. intros [Hsub Huse]%clean_all_spec Hres. split; [done|].
  intros m Hm Ha. etrans; [by apply Huse|].
  trans (all_result_ids (List.filter (λ m, negb (is_assistant m)) ms)).
  - intros s. unfold all_result_ids. rewrite !elem_union_list. intros (x & Hx & Hs).
    exists x. split; [|done]. apply list_elem_of_In, filter_In.
    split; [by apply list_elem_of_In|]. rewrite Forall_forall in Hres.
    destruct (is_assistant x) eqn:E; [|done]. rewrite (Hres x Hx E) in Hs. set_solver.
  - apply all_results_mono. intros x Hx. by eapply elem_of_sublist.
Qed.

(** ** A delta of an optimizer takes effect *)

Lemma replace_all_messages (current ms : list message) :
  apply_list_op (ReplaceSpanOp 0 (Z.of_nat (length current)) (VDict <$> ms)) current = ms.
Proof.
  unfold apply_list_op, splice, clamp.
  replace (Z.to_nat (Z.max 0 (Z.min 0 _))) with 0 by lia.
  replace (Z.to_nat (Z.max _ (Z.min (Z.of_nat (length current)) _))) with (length current) by lia.
  by rewrite drop_all, app_nil_r, deepcopy_dicts.
Qed.

Lemma create_child fresh ms p who meta g :
  (∃ v, assoc_get (_versions g) p = Some v) →
  ∃ v, create_version fresh ms (Some p) who meta None g =
      (Ok v, mkGraph (assoc_set (_versions g) (version_id v) v) (Some (version_id v))) ∧
    version_id v = fresh ∧ messages v = _deepcopy_messages ms.
Proof.
  intros [w Hw]. unfold create_version. unfold_monad. rewrite Hw. cbn.
  by exists (mkVersion fresh (Some p) (_deepcopy_messages ms) (created_by_of who)
    (match meta with VDict d => d | _ => [] end)).
Qed.

(** Optimizers and version graph together: when an optimizer that read the
    latest messages of a run asks for other messages, applying its delta makes
    exactly those the latest messages, in a new version. *)
Theorem optimizer_delta_takes_effect (s : run_messages) (fresh name l : pystr)
    (current ms : list message) (bucket : option pydict) (trace : pydict) (summary : pyval)
    (own : pydict) (max_tokens : Z) (delta : HarnessDelta) :
  rtc run_step initial_run s → unused (versions s) fresh → latest_version_id s = Some l →
  latest_messages s = (Ok current, s) →
  replace_messages_delta name (mkContext current (latest_version_id s) own summary max_tokens)
    ms bucket trace = Some delta → messages_eq current ms = false →
  ∃ s', apply_message_delta fresh delta s = (Ok (Some fresh), s') ∧
    latest_messages s' = (Ok ms, s').
Proof.
  intros Hs Hun Hl Hcur Hd Hne. destruct (run_steps_keep _ _ initial_run_ok Hs) as [Hok _].
  unfold replace_messages_delta in Hd. cbn [ctx_messages ctx_latest_version_id] in Hd.
  rewrite Hne in Hd. injection Hd as <-.
  assert (nonempty l = true) as Hlne.
  { destruct Hok as [Hg Hlat]. rewrite Hl in Hlat. symmetry in Hlat.
    destruct (graph_ok_get _ l Hg (go_latest _ Hg _ Hlat)) as [v [i Hi]%assoc_get_Some_lookup].
    by apply (go_entry _ Hg _ _ _ Hi). }
  assert (view_messages (Some l) s = (Ok current, s)) as Hview.
  { revert Hcur. unfold latest_messages, view_messages. cbv [mbind M_bind gets].
    cbn [str_or]. by rewrite Hl, Hlne. }
  unfold apply_message_delta. cbn [base_version_id rebase_to_latest ops].
  cbv [mbind M_bind gets lift]. rewrite Hl. cbn [str_or]. rewrite Hlne. cbn [ensure].
  rewrite Hview. cbn [apply_ops apply_op]. cbv [mbind M_bind mret M_ret].
  rewrite replace_all_messages. cbn [omap op_type list_omap].
  destruct (create_child fresh (VDict <$> ms) l (Some (created_by_optimizer name))
    (VDict [(KStr (u "requested_base_version_id"), opt_str (Some l));
            (KStr (u "applied_base_version_id"), opt_str (Some l));
            (KStr (u "op_types"), VList (VStr <$> [u "ReplaceSpanOp"]));
            (KStr (u "trace"), VDict trace)]) (versions s)) as (v & Hc & Hid & Hm).
  { destruct Hok as [Hg Hlat]. rewrite Hl in Hlat. symmetry in Hlat.
    exact (graph_ok_get _ l Hg (go_latest _ Hg _ Hlat)). }
  unfold on_versions at 1, zoom. cbn [delta_created_by delta_trace]. rewrite Hc. cbn.
  rewrite Hid. eexists. split; [done|].
  unfold latest_messages, on_versions, zoom, get_messages, get_version.
  cbv [mbind M_bind gets]. cbn. rewrite assoc_get_set_eq. cbn. by rewrite Hm, !deepcopy_dicts.
Qed.

(** ** Concrete inputs *)

Definition msg (role : string) (rest : pydict) : message :=
  (KStr (u "role"), VStr (u role)) :: rest.
Definition content (v : pyval) : pykey * pyval := (KStr (u "content"), v).
Definition tool_use (id : string) : pyval :=
  VDict [(KStr (u "type"), VStr (u "tool_use")); (KStr (u "id"), VStr (u id))].
Definition tool_result (id : string) : pyval :=
  VDict [(KStr (u "type"), VStr (u "tool_result")); (KStr (u "tool_use_id"), VStr (u id))].

Definition demo_messages : list message :=
  [msg "system" [content (VStr (u "be brief"))];
   msg "user" [content (VStr (u "first question, a long one"))];
   msg "assistant" [content (VList [tool_use "t1"])];
   msg "user" [content (VList [tool_result "t1"])];
   msg "user" [content (VStr (u "second"))];
   msg "assistant" [content (VList [tool_use "t2"])]].

Example demo_turns :
  length <$> split_turns (split_system_and_non_system demo_messages).2 = [3; 2].
Proof. vm_compute. reflexivity. Qed.

Definition demo_ctx (max_tokens : Z) : OptimizerContext :=
  mkContext demo_messages (Some (u "v1")) [] (VDict []) max_tokens.

(** 0.7 as a double *)
Definition demo_window : SlidingWindowOptimizerConfig :=
  mkWindow (S754_finite false 6305039478318694 (-53)) (Some 40%Z).
Definition no_str : pyval → pystr := λ _, [].
Definition no_key : pykey → option pystr := λ _, None.

Definition demo_window_delta : HarnessDelta :=
  Eval vm_compute in
    match sliding_window_delta no_str no_key demo_window (demo_ctx 100) with
    | Some (Some d) => d
    | _ => mkDelta [] None true [] [] [] None
    end.

Lemma sliding_window_fits_budget_witness :
  sliding_window_delta no_str no_key demo_window (demo_ctx 100) = Some (Some demo_window_delta) ∧
  let '(systems, non_system) := split_system_and_non_system demo_messages in
  ∃ budget dropped kept forced,
    _compute_effective_budget demo_window (demo_ctx 100) = Some (Some budget) ∧ (0 < budget)%Z ∧
    split_turns non_system = dropped ++ kept ∧ non_system = concat dropped ++ concat kept ∧
    (non_system ≠ [] → kept ≠ []) ∧
    asks_for demo_window_delta (demo_ctx 100) (systems ++ concat kept) ∧
    if forced : bool then ∃ t, kept = [t]
    else non_system = [] ∨ ∃ total,
      estimate_tokens no_str no_key (systems ++ concat kept) = Some total ∧ (total ≤ budget)%Z.
Proof.
  assert (sliding_window_delta no_str no_key demo_window (demo_ctx 100)
    = Some (Some demo_window_delta)) as H by (vm_compute; reflexivity).
  split; [exact H|]. exact (sliding_window_fits_budget no_str no_key demo_window (demo_ctx 100)
    demo_window_delta H).
Defined.

Lemma remaining_tool_uses_are_paired_witness :
  List.filter (λ m, negb (is_assistant m)) demo_messages `sublist_of` take 5 demo_messages.
Proof.
  refine (proj1 (remaining_tool_uses_are_paired demo_messages (take 5 demo_messages) _ _)).
  - vm_compute. reflexivity.
  - repeat apply Forall_cons_2; try apply Forall_nil_2; intros H;
      first [vm_compute; reflexivity|vm_compute in H; discriminate H].
Defined.

(** An assistant message with text and an orphaned tool use: the use is found
    and stripped, but as the message itself survives the optimizer compares
    lengths, sees no change and answers nothing; the orphan stays. *)
Definition half_orphaned : list message :=
  [msg "user" [content (VStr (u "go"))];
   msg "assistant" [content (VList [VDict [(KStr (u "type"), VStr (u "text"));
                                           (KStr (u "text"), VStr (u "on it"))];
                                    tool_use "t9"])]].

Example surviving_message_keeps_its_orphan :
  tool_pair_safety_delta (mkContext half_orphaned (Some (u "v1")) [] (VDict []) 0) = Some None ∧
  u "t9" ∈ ⋃ (_extract_tool_use_ids <$> half_orphaned) ∖ all_result_ids half_orphaned ∧
  (_remove_orphaned_tool_uses half_orphaned) ≠ Some half_orphaned.
Proof.
  split_and!; [vm_compute; reflexivity| |vm_compute; discriminate].
  apply (bool_decide_unpack _). vm_compute. exact I.
Qed.

Lemma optimizer_delta_takes_effect_witness :
  ∃ s', apply_message_delta (u "v2")
      (mkDelta (u "optimizer.x") (Some (u "v1")) true [ReplaceSpanOp 0 1 [reply]] [] [] None)
      demo_seeded = (Ok (Some (u "v2")), s') ∧
    latest_messages s' = (Ok [[(KStr (u "role"), VStr (u "assistant"))]], s').
Proof.
  apply (optimizer_delta_takes_effect demo_seeded (u "v2") (u "x") (u "v1")
    [[(KStr (u "role"), VStr (u "user"))]] [[(KStr (u "role"), VStr (u "assistant"))]]
    None [] VNone [] 0%Z
    (mkDelta (u "optimizer.x") (Some (u "v1")) true [ReplaceSpanOp 0 1 [reply]] [] [] None)
    demo_seeded_steps demo_unused2); vm_compute; reflexivity.
Defined.
