(* ===== verification/Models.v ===== *)
(** * References of the journal (src/unchain/journal/models.py)

    The small frozen records by which durable components point at executions,
    attempts, operations, events and artifacts.  A constructor validates and
    normalises every field, [to_dict] is the closed wire shape and [from_dict]
    reads it back.  A constructor argument that the code accepts both as an
    instance and as a dictionary is an [arg].  Errors are told apart by their
    class.

    [unicodedata.normalize("NFC", .)] depends on the tables of the Unicode
    character database, which are data outside the repository: it is the
    parameter [nfc], and [UnicodeLaws] holds what the Unicode standard says of it. *)

From S2P Require Import Prelude PyVal.

(** The exception classes of the journal models and of the provider request
    lease; [OtherError] is any exception of another class that a callback
    lets through. *)
Inductive pyexn : Type :=
| TypeError
| ValueError
| ModelValidationError
| ProviderRequestLeaseConflict
| ProviderRequestLeaseIntegrityError
| ProviderRequestTransitionError
| OtherError (cls : pystr).

#[export] Instance pyexn_eq_dec : EqDecision pyexn.
Proof. solve_decision. Defined.

Abbreviation R := (result pyexn).

(** A constructor argument: an instance of the record, or another value. *)
Inductive arg (A : Type) : Type :=
| Inst (a : A)
| Val (v : pyval).
Arguments Inst {A} a.
Arguments Val {A} v.

#[export] Instance arg_eq_dec {A} `{EqDecision A} : EqDecision (arg A).
Proof. solve_decision. Defined.

(** ** Normalisation *)

Class Unicode : Type := nfc : pystr → pystr.

Class UnicodeLaws (U : Unicode) : Prop := {
  (** ASCII text is in every normalisation form *)
  nfc_ascii s : Forall (λ c, (c < 128)%N) s → nfc s = s;
  nfc_idemp s : nfc (nfc s) = nfc s;
  (** no character that is not white space composes to white space *)
  nfc_strip s : strip (nfc (strip s)) = nfc (strip s);
}.

(** ** Field validation *)

Definition in_range (lo hi c : N) : bool := ((lo <=? c) && (c <=? hi))%N.
Definition is_upper (c : N) : bool := in_range 65 90 c.
Definition is_lower (c : N) : bool := in_range 97 122 c.
Definition is_digit (c : N) : bool := in_range 48 57 c.
Definition is_alnum (c : N) : bool := is_upper c || is_lower c || is_digit c.

(** [[A-Za-z0-9._:-]] *)
Definition identifier_char (c : N) : bool :=
  is_alnum c || bool_decide (c ∈ u "._:-").

Definition _IDENTIFIER_RE (s : pystr) : bool :=
  match s with
  | c :: r => is_alnum c && forallb identifier_char r && (length r <=? 255)
  | [] => false
  end.

Definition _SHA256_RE (s : pystr) : bool :=
  forallb (λ c, is_digit c || in_range 97 102 c) s && (length s =? 64).
#[global] Arguments _IDENTIFIER_RE : simpl never.
#[global] Arguments _SHA256_RE : simpl never.

(** [s.split(sep)] for a separator of one character. *)
Fixpoint split_on (sep : N) (s : pystr) : list pystr :=
  match s with
  | [] => [[]]
  | c :: s' =>
      if (c =? sep)%N then [] :: split_on sep s'
      else match split_on sep s' with
           | part :: parts => (c :: part) :: parts
           | [] => [[c]]
           end
  end.

Section models.
Context `{U : Unicode}.

Definition _required_text (value : pyval) (maximum : nat) (identifier : bool) : R pystr :=
  match value with
  | VStr s =>
      let normalized := nfc (strip s) in
      if negb (nonempty normalized) || (maximum <? length normalized)
         || bool_decide (0%N ∈ normalized)
      then Err ModelValidationError
      else if existsb (λ c, (c <? 32)%N) normalized then Err ModelValidationError
      else if identifier && negb (_IDENTIFIER_RE normalized) then Err ModelValidationError
      else Ok normalized
  | _ => Err TypeError
  end.

Definition _optional_text (value : pyval) (maximum : nat) : R pystr :=
  match value with
  | VNone | VStr [] => Ok []
  | _ => _required_text value maximum false
  end.

Definition _bounded_int (value : pyval) (minimum : Z) : R Z :=
  match value with
  | VInt z => if (z <? minimum)%Z then Err ModelValidationError else Ok z
  | _ => Err TypeError
  end.

Definition _positive_revision (value : pyval) : R Z := _bounded_int value 1.

Definition _sha256 (value : pyval) : R pystr :=
  match value with
  | VStr s => if _SHA256_RE s then Ok s else Err ModelValidationError
  | _ => Err ModelValidationError
  end.

(** The message of an unknown field joins the sorted names, which raises a
    [TypeError] of its own when one of them is not a string. *)
Definition _record_data (value : pyval) (schema : pystr) (required optional : list string)
    : R pydict :=
  match value with
  | VDict raw =>
      let names := (λ s, KStr (u s)) <$> required in
      let allowed := names ++ ((λ s, KStr (u s)) <$> optional) ++ [KStr (u "schema")] in
      let missing := filter (λ k, k ∉ keys raw) names in
      let unknown := filter (λ k, k ∉ allowed) (keys raw) in
      if negb (py_eq (get raw "schema") (VStr schema)) then Err ModelValidationError
      else match missing, unknown with
           | _ :: _, _ => Err ModelValidationError
           | [], [] => Ok raw
           | [], _ :: _ =>
               if forallb (λ k, match k with KStr _ => true | KObj _ _ => false end) unknown
               then Err ModelValidationError else Err TypeError
           end
  | _ => Err TypeError
  end.

Definition field (name : string) (v : pyval) : pykey * pyval := (KStr (u name), v).

(** [raw.get(name, "")] *)
Definition get_text (raw : pydict) (name : string) : pyval :=
  default (VStr []) (dict_get raw (KStr (u name))).

(** ** ResourceRef *)

Record ResourceRef : Type := mkResourceRef {
  rr_kind : pystr;
  rr_resource_id : pystr;
  rr_revision : Z;
  rr_fragment : pystr;
}.

Definition make_ResourceRef (kind resource_id revision fragment : pyval) : R ResourceRef :=
  kind ← _required_text kind 256 true;
  resource_id ← _required_text resource_id 256 true;
  revision ← _positive_revision revision;
  fragment ← _optional_text fragment 512;
  if startswith fragment (u "/") || bool_decide (92%N ∈ fragment)
     || existsb (λ segment, bool_decide (segment ∈ [u "."; u ".."])) (split_on 47 fragment)
  then Err ModelValidationError
  else Ok (mkResourceRef kind resource_id revision fragment).

Definition resource_ref_schema : pystr := u "unchain.resource_ref.v1".

Definition ResourceRef_to_dict (r : ResourceRef) : pyval :=
  VDict [field "schema" (VStr resource_ref_schema); field "kind" (VStr (rr_kind r));
         field "id" (VStr (rr_resource_id r)); field "revision" (VInt (rr_revision r));
         field "fragment" (VStr (rr_fragment r))].

Definition ResourceRef_from_dict (value : pyval) : R ResourceRef :=
  raw ← _record_data value resource_ref_schema ["kind"; "id"; "revision"] ["fragment"];
  make_ResourceRef (get raw "kind") (get raw "id") (get raw "revision") (get_text raw "fragment").

(** ** ArtifactRef *)

Record ArtifactRef : Type := mkArtifactRef {
  ar_ref : ResourceRef;
  ar_media_type : pystr;
  ar_byte_length : Z;
  ar_sha256 : pystr;
  ar_preview : pystr;
}.

Definition make_ArtifactRef (ref : arg ResourceRef) (media_type byte_length sha256 preview : pyval)
    : R ArtifactRef :=
  ref ← match ref with Inst r => Ok r | Val v => ResourceRef_from_dict v end;
  media_type ← _required_text media_type 255 false;
  _ ← ensure (bool_decide (47%N ∈ media_type)) ModelValidationError;
  byte_length ← _bounded_int byte_length 0;
  sha256 ← _sha256 sha256;
  preview ← _optional_text preview 4096;
  Ok (mkArtifactRef ref media_type byte_length sha256 preview).

Definition artifact_ref_schema : pystr := u "unchain.artifact_ref.v1".

Definition ArtifactRef_to_dict (a : ArtifactRef) : pyval :=
  VDict [field "schema" (VStr artifact_ref_schema); field "ref" (ResourceRef_to_dict (ar_ref a));
         field "media_type" (VStr (ar_media_type a));
         field "byte_length" (VInt (ar_byte_length a)); field "sha256" (VStr (ar_sha256 a));
         field "preview" (VStr (ar_preview a))].

Definition ArtifactRef_from_dict (value : pyval) : R ArtifactRef :=
  raw ← _record_data value artifact_ref_schema ["ref"; "media_type"; "byte_length"; "sha256"]
                     ["preview"];
  ref ← ResourceRef_from_dict (get raw "ref");
  make_ArtifactRef (Inst ref) (get raw "media_type") (get raw "byte_length") (get raw "sha256")
                   (get_text raw "preview").

(** ** EventCursor and EventRange *)

Record EventCursor : Type := mkEventCursor {
  ec_store_seq : Z;
  ec_event_id : pystr;
}.

Definition make_EventCursor (store_seq event_id : pyval) : R EventCursor :=
  store_seq ← _bounded_int store_seq 0;
  event_id ← _required_text event_id 256 true;
  Ok (mkEventCursor store_seq event_id).

Definition event_cursor_schema : pystr := u "unchain.event_cursor.v1".

Definition EventCursor_to_dict (c : EventCursor) : pyval :=
  VDict [field "schema" (VStr event_cursor_schema); field "store_seq" (VInt (ec_store_seq c));
         field "event_id" (VStr (ec_event_id c))].

Definition EventCursor_from_dict (value : pyval) : R EventCursor :=
  raw ← _record_data value event_cursor_schema ["store_seq"; "event_id"] [];
  make_EventCursor (get raw "store_seq") (get raw "event_id").

Record EventRange : Type := mkEventRange {
  er_start : EventCursor;
  er_end : EventCursor;
}.

Definition make_EventRange (start stop : arg EventCursor) : R EventRange :=
  start ← match start with Inst c => Ok c | Val v => EventCursor_from_dict v end;
  stop ← match stop with Inst c => Ok c | Val v => EventCursor_from_dict v end;
  if (ec_store_seq stop <? ec_store_seq start)%Z then Err ModelValidationError
  else Ok (mkEventRange start stop).

Definition event_range_schema : pystr := u "unchain.event_range.v1".

Definition EventRange_to_dict (r : EventRange) : pyval :=
  VDict [field "schema" (VStr event_range_schema);
         field "start" (EventCursor_to_dict (er_start r));
         field "end" (EventCursor_to_dict (er_end r))].

Definition EventRange_from_dict (value : pyval) : R EventRange :=
  raw ← _record_data value event_range_schema ["start"; "end"] [];
  start ← EventCursor_from_dict (get raw "start");
  stop ← EventCursor_from_dict (get raw "end");
  make_EventRange (Inst start) (Inst stop).

(** ** GenerationRef, AttemptRef, OperationRef *)

Record GenerationRef : Type := mkGenerationRef {
  gr_execution_id : pystr;
  gr_generation_id : pystr;
}.

Definition make_GenerationRef (execution_id generation_id : pyval) : R GenerationRef :=
  execution_id ← _required_text execution_id 256 true;
  generation_id ← _required_text generation_id 256 true;
  Ok (mkGenerationRef execution_id generation_id).

Definition generation_ref_schema : pystr := u "unchain.generation_ref.v1".

Definition GenerationRef_to_dict (g : GenerationRef) : pyval :=
  VDict [field "schema" (VStr generation_ref_schema);
         field "execution_id" (VStr (gr_execution_id g));
         field "generation_id" (VStr (gr_generation_id g))].

Definition GenerationRef_from_dict (value : pyval) : R GenerationRef :=
  raw ← _record_data value generation_ref_schema ["execution_id"; "generation_id"] [];
  make_GenerationRef (get raw "execution_id") (get raw "generation_id").

Record AttemptRef : Type := mkAttemptRef {
  at_generation : GenerationRef;
  at_attempt_id : pystr;
}.

Definition make_AttemptRef (generation : arg GenerationRef) (attempt_id : pyval) : R AttemptRef :=
  generation ← match generation with Inst g => Ok g | Val v => GenerationRef_from_dict v end;
  attempt_id ← _required_text attempt_id 256 true;
  Ok (mkAttemptRef generation attempt_id).

Definition attempt_ref_schema : pystr := u "unchain.attempt_ref.v1".

Definition AttemptRef_to_dict (a : AttemptRef) : pyval :=
  VDict [field "schema" (VStr attempt_ref_schema);
         field "generation" (GenerationRef_to_dict (at_generation a));
         field "attempt_id" (VStr (at_attempt_id a))].

Definition AttemptRef_from_dict (value : pyval) : R AttemptRef :=
  raw ← _record_data value attempt_ref_schema ["generation"; "attempt_id"] [];
  generation ← GenerationRef_from_dict (get raw "generation");
  make_AttemptRef (Inst generation) (get raw "attempt_id").

Record OperationRef : Type := mkOperationRef {
  op_operation_id : pystr;
  op_payload_sha256 : pystr;
}.

Definition make_OperationRef (operation_id payload_sha256 : pyval) : R OperationRef :=
  operation_id ← _required_text operation_id 256 true;
  payload_sha256 ← _sha256 payload_sha256;
  Ok (mkOperationRef operation_id payload_sha256).

Definition operation_ref_schema : pystr := u "unchain.operation_ref.v1".

Definition OperationRef_to_dict (o : OperationRef) : pyval :=
  VDict [field "schema" (VStr operation_ref_schema);
         field "operation_id" (VStr (op_operation_id o));
         field "payload_sha256" (VStr (op_payload_sha256 o))].

Definition OperationRef_from_dict (value : pyval) : R OperationRef :=
  raw ← _record_data value operation_ref_schema ["operation_id"; "payload_sha256"] [];
  make_OperationRef (get raw "operation_id") (get raw "payload_sha256").

End models.

#[global] Arguments _required_text : simpl never.
#[global] Arguments _optional_text : simpl never.
#[global] Arguments _bounded_int : simpl never.
#[global] Arguments _sha256 : simpl never.
#[global] Arguments _record_data : simpl never.

(** ** Equality *)

#[export] Instance ResourceRef_eq_dec : EqDecision ResourceRef.
Proof. solve_decision. Defined.
#[export] Instance ArtifactRef_eq_dec : EqDecision ArtifactRef.
Proof. solve_decision. Defined.
#[export] Instance EventCursor_eq_dec : EqDecision EventCursor.
Proof. solve_decision. Defined.
#[export] Instance EventRange_eq_dec : EqDecision EventRange.
Proof. solve_decision. Defined.
#[export] Instance GenerationRef_eq_dec : EqDecision GenerationRef.
Proof. solve_decision. Defined.
#[export] Instance AttemptRef_eq_dec : EqDecision AttemptRef.
Proof. solve_decision. Defined.
#[export] Instance OperationRef_eq_dec : EqDecision OperationRef.
Proof. solve_decision. Defined.

(** ** Every record survives its wire shape *)

Section roundtrip.
Context `{U : Unicode} `{!UnicodeLaws U}.

(** An accepted text is its own normal form. *)
Lemma required_text_stable v m i s :
  _required_text v m i = Ok s → _required_text (VStr s) m i = Ok s.
Proof.
  unfold _required_text. intros H. destruct v as [| | | |t| | |]; try done.
  assert (s = nfc (strip t)) as -> by (repeat case_match; congruence).
  by rewrite nfc_strip, nfc_idemp.
Qed.

Lemma optional_text_stable v m s :
  _optional_text v m = Ok s → _optional_text (VStr s) m = Ok s.
Proof.
  unfold _optional_text. intros H.
  destruct v as [| | | |[|c t]| | |]; simplify_eq; try done.
  all: apply required_text_stable in H; by destruct s.
Qed.

Lemma bounded_int_stable v m z : _bounded_int v m = Ok z → _bounded_int (VInt z) m = Ok z.
Proof. unfold _bounded_int. destruct v; try done. case_match eqn:E; [done|]. intros [= <-]. by rewrite E. Qed.

Lemma sha256_stable v s : _sha256 v = Ok s → _sha256 (VStr s) = Ok s.
Proof. unfold _sha256. destruct v; try done. case_match eqn:E; [|done]. intros [= <-]. by rewrite E. Qed.

(** Open a constructor that succeeded and rewrite with the normal forms. *)
Ltac open_make H :=
  repeat match type of H with
  | mbind _ _ = Ok _ => apply result_bind_ok in H as (? & ? & H)
  end.

Ltac stable :=
  repeat match goal with
  | H : _required_text _ _ _ = Ok _ |- _ => apply required_text_stable in H; rewrite H; clear H
  | H : _optional_text _ _ = Ok _ |- _ => apply optional_text_stable in H; rewrite H; clear H
  | H : _bounded_int _ _ = Ok _ |- _ => apply bounded_int_stable in H; rewrite H; clear H
  | H : _positive_revision _ = Ok _ |- _ => unfold _positive_revision in H
  | H : _sha256 _ = Ok _ |- _ => apply sha256_stable in H; rewrite H; clear H
  | H : ensure _ _ = Ok _ |- _ => apply ensure_ok in H; rewrite H; clear H
  | |- context [mbind ?f (Ok ?a)] => change (mbind f (Ok a)) with (f a); cbv beta
  end.

Definition wf_ResourceRef r := ResourceRef_from_dict (ResourceRef_to_dict r) = Ok r.
Definition wf_ArtifactRef a := ArtifactRef_from_dict (ArtifactRef_to_dict a) = Ok a.
Definition wf_EventCursor c := EventCursor_from_dict (EventCursor_to_dict c) = Ok c.
Definition wf_EventRange r := EventRange_from_dict (EventRange_to_dict r) = Ok r.
Definition wf_GenerationRef g := GenerationRef_from_dict (GenerationRef_to_dict g) = Ok g.
Definition wf_AttemptRef a := AttemptRef_from_dict (AttemptRef_to_dict a) = Ok a.
Definition wf_OperationRef o := OperationRef_from_dict (OperationRef_to_dict o) = Ok o.

Lemma ResourceRef_record r :
  ResourceRef_from_dict (ResourceRef_to_dict r) =
  make_ResourceRef (VStr (rr_kind r)) (VStr (rr_resource_id r)) (VInt (rr_revision r))
                   (VStr (rr_fragment r)).
Proof. reflexivity. Qed.

Lemma ArtifactRef_record a :
  ArtifactRef_from_dict (ArtifactRef_to_dict a) =
  (ref ← ResourceRef_from_dict (ResourceRef_to_dict (ar_ref a));
   make_ArtifactRef (Inst ref) (VStr (ar_media_type a)) (VInt (ar_byte_length a))
                    (VStr (ar_sha256 a)) (VStr (ar_preview a))).
Proof. reflexivity. Qed.

Lemma make_ResourceRef_wf k i n f r : make_ResourceRef k i n f = Ok r → wf_ResourceRef r.
Proof.
  unfold make_ResourceRef, wf_ResourceRef. intros H. open_make H.
  destruct (_ || _) eqn:Ef in H; [done|]. injection H as <-. rewrite ResourceRef_record.
  unfold make_ResourceRef, _positive_revision. simpl. stable.
  unfold_monad. by rewrite Ef.
Qed.

Lemma ResourceRef_from_dict_wf v r : ResourceRef_from_dict v = Ok r → wf_ResourceRef r.
Proof. unfold ResourceRef_from_dict. intros H. open_make H. eauto using make_ResourceRef_wf. Qed.

(** A record argument that is an instance must itself be well formed. *)
Definition arg_wf {A} (wf : A → Prop) (x : arg A) : Prop :=
  match x with Inst a => wf a | Val _ => True end.

Lemma make_ArtifactRef_wf ref m b h p a :
  arg_wf wf_ResourceRef ref → make_ArtifactRef ref m b h p = Ok a → wf_ArtifactRef a.
Proof.
  unfold make_ArtifactRef, wf_ArtifactRef. intros Hr H. open_make H. injection H as <-.
  rewrite ArtifactRef_record. simpl.
  assert (wf_ResourceRef x) as Hx
    by (destruct ref; simplify_eq/=; eauto using ResourceRef_from_dict_wf).
  unfold wf_ResourceRef in Hx. rewrite Hx. unfold make_ArtifactRef. simpl. by stable.
Qed.

Lemma ArtifactRef_from_dict_wf v a : ArtifactRef_from_dict v = Ok a → wf_ArtifactRef a.
Proof.
  unfold ArtifactRef_from_dict. intros H. open_make H.
  eapply make_ArtifactRef_wf, H. simpl. eauto using ResourceRef_from_dict_wf.
Qed.

Lemma make_EventCursor_wf n i c : make_EventCursor n i = Ok c → wf_EventCursor c.
Proof.
  unfold make_EventCursor, wf_EventCursor. intros H. open_make H. injection H as <-.
  change (make_EventCursor (VInt x) (VStr x0) = Ok (mkEventCursor x x0)).
  unfold make_EventCursor. by stable.
Qed.

Lemma EventCursor_from_dict_wf v c : EventCursor_from_dict v = Ok c → wf_EventCursor c.
Proof. unfold EventCursor_from_dict. intros H. open_make H. eauto using make_EventCursor_wf. Qed.

Lemma EventRange_record r :
  EventRange_from_dict (EventRange_to_dict r) =
  (start ← EventCursor_from_dict (EventCursor_to_dict (er_start r));
   stop ← EventCursor_from_dict (EventCursor_to_dict (er_end r));
   make_EventRange (Inst start) (Inst stop)).
Proof. reflexivity. Qed.

Lemma make_EventRange_wf s e r :
  arg_wf wf_EventCursor s → arg_wf wf_EventCursor e → make_EventRange s e = Ok r → wf_EventRange r.
Proof.
  unfold make_EventRange, wf_EventRange. intros Hs He H. open_make H.
  destruct (_ <? _)%Z eqn:El in H; [done|]. injection H as <-. rewrite EventRange_record. simpl.
  assert (wf_EventCursor x) as Hx
    by (destruct s; simplify_eq/=; eauto using EventCursor_from_dict_wf).
  assert (wf_EventCursor x0) as Hx0
    by (destruct e; simplify_eq/=; eauto using EventCursor_from_dict_wf).
  unfold wf_EventCursor in *. rewrite Hx, Hx0. unfold make_EventRange. simpl. by rewrite El.
Qed.

Lemma EventRange_from_dict_wf v r : EventRange_from_dict v = Ok r → wf_EventRange r.
Proof.
  unfold EventRange_from_dict. intros H. open_make H.
  eapply make_EventRange_wf, H; simpl; eauto using EventCursor_from_dict_wf.
Qed.

Lemma make_GenerationRef_wf e g r : make_GenerationRef e g = Ok r → wf_GenerationRef r.
Proof.
  unfold make_GenerationRef, wf_GenerationRef. intros H. open_make H. injection H as <-.
  change (make_GenerationRef (VStr x) (VStr x0) = Ok (mkGenerationRef x x0)).
  unfold make_GenerationRef. by stable.
Qed.

Lemma GenerationRef_from_dict_wf v r : GenerationRef_from_dict v = Ok r → wf_GenerationRef r.
Proof. unfold GenerationRef_from_dict. intros H. open_make H. eauto using make_GenerationRef_wf. Qed.

Lemma AttemptRef_record a :
  AttemptRef_from_dict (AttemptRef_to_dict a) =
  (generation ← GenerationRef_from_dict (GenerationRef_to_dict (at_generation a));
   make_AttemptRef (Inst generation) (VStr (at_attempt_id a))).
Proof. reflexivity. Qed.

Lemma make_AttemptRef_wf g i a :
  arg_wf wf_GenerationRef g → make_AttemptRef g i = Ok a → wf_AttemptRef a.
Proof.
  unfold make_AttemptRef, wf_AttemptRef. intros Hg H. open_make H. injection H as <-.
  rewrite AttemptRef_record. simpl.
  assert (wf_GenerationRef x) as Hx
    by (destruct g; simplify_eq/=; eauto using GenerationRef_from_dict_wf).
  unfold wf_GenerationRef in Hx. rewrite Hx. unfold make_AttemptRef. simpl. by stable.
Qed.

Lemma AttemptRef_from_dict_wf v a : AttemptRef_from_dict v = Ok a → wf_AttemptRef a.
Proof.
  unfold AttemptRef_from_dict. intros H. open_make H.
  eapply make_AttemptRef_wf, H. simpl. eauto using GenerationRef_from_dict_wf.
Qed.

Lemma make_OperationRef_wf i h o : make_OperationRef i h = Ok o → wf_OperationRef o.
Proof.
  unfold make_OperationRef, wf_OperationRef. intros H. open_make H. injection H as <-.
  change (make_OperationRef (VStr x) (VStr x0) = Ok (mkOperationRef x x0)).
  unfold make_OperationRef. by stable.
Qed.

Lemma OperationRef_from_dict_wf v o : OperationRef_from_dict v = Ok o → wf_OperationRef o.
Proof. unfold OperationRef_from_dict. intros H. open_make H. eauto using make_OperationRef_wf. Qed.

End roundtrip.
