(* ===== verification/Diagnostics.v ===== *)
(** * Provider diagnostics (src/unchain/providers/failure_diagnostic.py,
      uncertainty_diagnostic.py)

    What a durable request lease may say about a failed request or about one
    whose outcome is unknown: closed vocabularies and bounded shapes, so that
    nothing a provider sends is stored.  Two shipped wire shapes share one
    schema name and are told apart by their fields. *)

From S2P Require Import Prelude PyVal Models.

(** ** Vocabularies *)

Definition _CODES : list pystr := u <$>
  [""; "invalid_api_key"; "invalid_request_error"; "authentication_error";
   "permission_error"; "permission_denied"; "model_not_found";
   "invalid_function_parameters"; "invalid_tool"; "invalid_value";
   "unsupported_parameter"; "unsupported_value"; "missing_required_parameter";
   "unknown_parameter"; "context_length_exceeded"; "content_policy_violation";
   "insufficient_quota"; "rate_limit_exceeded"; "billing_hard_limit_reached";
   "INVALID_ARGUMENT"; "NOT_FOUND"; "PERMISSION_DENIED"; "UNAUTHENTICATED";
   "RESOURCE_EXHAUSTED"; "FAILED_PRECONDITION"; "OUT_OF_RANGE"; "UNAVAILABLE";
   "INTERNAL"; "DEADLINE_EXCEEDED"; "ABORTED"; "ALREADY_EXISTS"; "CANCELLED"]%string.

Definition _RESPONSE_CODES : list pystr := u <$>
  ["SAFETY"; "RECITATION"; "LANGUAGE"; "OTHER"; "BLOCKLIST";
   "PROHIBITED_CONTENT"; "SPII"; "MALFORMED_FUNCTION_CALL"; "IMAGE_SAFETY";
   "IMAGE_PROHIBITED_CONTENT"; "IMAGE_OTHER"; "NO_IMAGE"; "IMAGE_RECITATION";
   "UNEXPECTED_TOOL_CALL"; "TOO_MANY_TOOL_CALLS"; "MISSING_THOUGHT_SIGNATURE";
   "MALFORMED_RESPONSE"; "ESCALATION"; "PUP_LIMITED_DISABLED";
   "PROMPT_BLOCKED"; "EMPTY_RESPONSE"]%string.

Definition _PARAMETER_PARTS : list pystr := u <$>
  ["model"; "input"; "messages"; "content"; "type"; "role"; "text";
   "tools"; "function"; "name"; "parameters"; "properties"; "required";
   "additionalProperties"; "items"; "enum"; "strict"; "tool_choice";
   "reasoning"; "effort"; "summary"; "max_output_tokens"; "max_tokens";
   "temperature"; "top_p"; "include"; "store"; "stream"; "truncation";
   "previous_response_id"; "instructions"; "parallel_tool_calls"; "format";
   "response_format"; "service_tier"]%string.

Definition _PROVIDER_STATUSES : list pystr := u <$>
  ["UNAVAILABLE"; "NOT_FOUND"; "RESOURCE_EXHAUSTED"; "PERMISSION_DENIED";
   "INVALID_ARGUMENT"; "UNAUTHENTICATED"; "FAILED_PRECONDITION"; "INTERNAL";
   "DEADLINE_EXCEEDED"]%string.

(** [[a-z0-9][a-z0-9.-]{0,60}] *)
Definition _MODEL_ID (s : pystr) : bool :=
  match s with
  | c :: r =>
      (is_lower c || is_digit c)
      && forallb (λ c, is_lower c || is_digit c || bool_decide (c ∈ u ".-")) r
      && (length r <=? 60)
  | [] => false
  end.

(** ** Parameters *)

Definition is_word_char (c : N) : bool := is_upper c || is_lower c || (c =? 95)%N.

(** The longest prefix of letters and underscores, and the rest. *)
Fixpoint span_word (s : pystr) : pystr * pystr :=
  match s with
  | c :: s' => if is_word_char c then let '(w, r) := span_word s' in (c :: w, r) else ([], s)
  | [] => ([], [])
  end.

(** The optional index [[12345]] after a name: one to five digits. *)
Definition is_index (s : pystr) : bool :=
  match s with
  | [] => true
  | c :: r =>
      (c =? 91)%N &&
      match reverse r with
      | e :: ds => (e =? 93)%N && forallb is_digit ds && (1 <=? length ds) && (length ds <=? 5)
      | [] => false
      end
  end.

(** [re.fullmatch(...)] of one part; the name is the longest run of letters
    because an index starts with a bracket. *)
Definition safe_part (part : pystr) : bool :=
  let '(name, rest) := span_word part in
  nonempty name && is_index rest && bool_decide (name ∈ _PARAMETER_PARTS).

Definition _safe_parameter (value : pyval) : pystr :=
  match value with
  | VStr s =>
      if 160 <? length s then []
      else if forallb safe_part (split_on 46 s) then s else []
  | _ => []
  end.

(** ** Failure diagnostics *)

Record ProviderFailureDiagnostic : Type := mkFailure {
  fd_http_status : option Z;
  fd_provider_code : pystr;
  fd_parameter : pystr;
  fd_provider_status : pystr;
  fd_replacement_model : pystr;
}.

#[export] Instance failure_eq_dec : EqDecision ProviderFailureDiagnostic.
Proof. solve_decision. Defined.

Definition make_ProviderFailureDiagnostic
    (http_status provider_code parameter provider_status replacement_model : pyval)
    : R ProviderFailureDiagnostic :=
  match http_status with
  | VNone =>
      match provider_code, parameter, provider_status, replacement_model with
      | VStr code, VStr [], VStr [], VStr [] =>
          if bool_decide (code ∈ _RESPONSE_CODES) then Ok (mkFailure None code [] [] [])
          else Err ValueError
      | _, _, _, _ => Err ValueError
      end
  | VInt z =>
      if negb ((400 <=? z) && (z <=? 599))%Z then Err ValueError
      else match provider_code with
      | VStr code =>
          if negb (bool_decide (code ∈ _CODES)) then Err ValueError
          else match parameter with
          | VStr p =>
              if negb (bool_decide (_safe_parameter parameter = p)) then Err ValueError
              else match provider_status with
              | VStr st =>
                  if nonempty st && negb (bool_decide (st ∈ _PROVIDER_STATUSES)) then Err ValueError
                  else match replacement_model with
                  | VStr m =>
                      if nonempty m && negb (_MODEL_ID m) then Err ValueError
                      else Ok (mkFailure (Some z) code p st m)
                  | _ => Err ValueError
                  end
              | _ => Err ValueError
              end
          | _ => Err ValueError
          end
      | _ => Err ValueError
      end
  | _ => Err ValueError
  end.

Definition opt_int (z : option Z) : pyval :=
  match z with Some z => VInt z | None => VNone end.

Definition failure_schema : pystr := u "unchain.provider_failure_diagnostic.v1".
Definition failure_schema_v2 : pystr := u "unchain.provider_failure_diagnostic.v2".

(** The schema [to_dict] writes: two shapes share the second name. *)
Definition failure_schema_of (d : ProviderFailureDiagnostic) : pystr :=
  if nonempty (fd_provider_status d) || nonempty (fd_replacement_model d) then failure_schema_v2
  else match fd_http_status d with None => failure_schema_v2 | Some _ => failure_schema end.

Definition failure_to_dict (d : ProviderFailureDiagnostic) : pydict :=
  [field "schema" (VStr (failure_schema_of d)); field "http_status" (opt_int (fd_http_status d));
   field "provider_code" (VStr (fd_provider_code d)); field "parameter" (VStr (fd_parameter d))]
  ++ (if nonempty (fd_provider_status d) || nonempty (fd_replacement_model d)
      then [field "provider_status" (VStr (fd_provider_status d));
            field "replacement_model" (VStr (fd_replacement_model d))]
      else []).

(** [set(value) == {...}] *)
Definition has_exactly (raw : pydict) (names : list string) : bool :=
  let names := (λ s, KStr (u s)) <$> names in
  forallb (λ k, bool_decide (k ∈ names)) (keys raw) &&
  forallb (λ k, bool_decide (k ∈ keys raw)) names.

Definition base_fields : list string := ["schema"; "http_status"; "provider_code"; "parameter"].

Definition failure_from_dict (value : pyval) : R ProviderFailureDiagnostic :=
  match value with
  | VDict raw =>
      if has_exactly raw base_fields then
        let expected := if is_none (get raw "http_status") then failure_schema_v2 else failure_schema in
        if py_eq (get raw "schema") (VStr expected) then
          make_ProviderFailureDiagnostic (get raw "http_status") (get raw "provider_code")
                                         (get raw "parameter") (VStr []) (VStr [])
        else Err ValueError
      else if py_eq (get raw "schema") (VStr failure_schema_v2)
              && has_exactly raw (base_fields ++ ["provider_status"; "replacement_model"]) then
        if is_none (get raw "http_status") then Err ValueError
        else
          d ← make_ProviderFailureDiagnostic (get raw "http_status") (get raw "provider_code")
                (get raw "parameter") (get raw "provider_status") (get raw "replacement_model");
          if nonempty (fd_provider_status d) || nonempty (fd_replacement_model d) then Ok d
          else Err ValueError
      else Err ValueError
  | _ => Err ValueError
  end.

(** ** Uncertainty diagnostics *)

Definition _REASONS : list pystr := u <$>
  ["stream_incomplete"; "connection_interrupted"; "timeout";
   "response_parse_error"; "malformed_tool_call"; "conflicting_finish_reason";
   "unsupported_finish_reason"; "provider_stream_error"; "request_validation_failed";
   "local_processing_error"; "execution_interrupted"; "unrecorded_outcome";
   "invalid_result"; "before_send_failed"]%string.

Definition _PHASES : list pystr := u <$>
  ["request_preparation"; "requesting"; "reading_response"; "processing_response";
   "before_send"; "result_processing"; "recovery"]%string.

Record ProviderUncertaintyDiagnostic : Type := mkUncertainty {
  ud_reason : pystr;
  ud_phase : pystr;
  ud_http_status : option Z;
  ud_provider_code : pystr;
}.

#[export] Instance uncertainty_eq_dec : EqDecision ProviderUncertaintyDiagnostic.
Proof. solve_decision. Defined.

(** [ProviderFailureDiagnostic(status, code)], built only to validate. *)
Definition probe_failure (status code : pyval) : R ProviderFailureDiagnostic :=
  make_ProviderFailureDiagnostic status code (VStr []) (VStr []) (VStr []).

Definition make_ProviderUncertaintyDiagnostic (reason phase http_status provider_code : pyval)
    : R ProviderUncertaintyDiagnostic :=
  reason ← match reason with
           | VStr r => if bool_decide (r ∈ _REASONS) then Ok r else Err ValueError
           | _ => Err ValueError
           end;
  phase ← match phase with
          | VStr p => if bool_decide (p ∈ _PHASES) then Ok p else Err ValueError
          | _ => Err ValueError
          end;
  code ← match provider_code with VStr c => Ok c | _ => Err TypeError end;
  let stream_error := bool_decide (reason = u "provider_stream_error") in
  match http_status with
  | VNone =>
      if nonempty code && negb stream_error then Err ValueError
      else
        _ ← (if nonempty code then _ ← probe_failure (VInt 500) (VStr code); Ok tt else Ok tt);
        Ok (mkUncertainty reason phase None code)
  | VInt z =>
      if negb stream_error then Err ValueError
      else
        _ ← probe_failure (VInt (if (z =? 200)%Z then 500 else z)) (VStr code);
        Ok (mkUncertainty reason phase (Some z) code)
  | _ =>
      if negb stream_error then Err ValueError
      else
        _ ← probe_failure http_status (VStr code);
        (** not reached: the probe refuses every other status *)
        Err ValueError
  end.

Definition uncertainty_schema : pystr := u "unchain.provider_uncertainty_diagnostic.v1".

Definition uncertainty_to_dict (d : ProviderUncertaintyDiagnostic) : pydict :=
  [field "schema" (VStr uncertainty_schema); field "reason" (VStr (ud_reason d));
   field "phase" (VStr (ud_phase d)); field "http_status" (opt_int (ud_http_status d));
   field "provider_code" (VStr (ud_provider_code d))].

Definition uncertainty_from_dict (value : pyval) : R ProviderUncertaintyDiagnostic :=
  match value with
  | VDict raw =>
      if has_exactly raw ["schema"; "reason"; "phase"; "http_status"; "provider_code"] then
        if py_eq (get raw "schema") (VStr uncertainty_schema) then
          make_ProviderUncertaintyDiagnostic (get raw "reason") (get raw "phase")
                                             (get raw "http_status") (get raw "provider_code")
        else Err ValueError
      else Err ValueError
  | _ => Err ValueError
  end.
#[global] Arguments make_ProviderFailureDiagnostic : simpl never.
#[global] Arguments make_ProviderUncertaintyDiagnostic : simpl never.
#[global] Arguments failure_from_dict : simpl never.
#[global] Arguments uncertainty_from_dict : simpl never.

(** ** Lemmas: every diagnostic survives its wire shape *)

Definition wf_failure (d : ProviderFailureDiagnostic) : Prop :=
  make_ProviderFailureDiagnostic (opt_int (fd_http_status d)) (VStr (fd_provider_code d))
    (VStr (fd_parameter d)) (VStr (fd_provider_status d)) (VStr (fd_replacement_model d)) = Ok d.

Lemma make_failure_wf h c p s m d :
  make_ProviderFailureDiagnostic h c p s m = Ok d → wf_failure d.
Proof.
  unfold wf_failure, make_ProviderFailureDiagnostic. intros H.
  repeat (case_match; simplify_eq/=; try done); try congruence.
Qed.

Lemma failure_from_dict_wf v d : failure_from_dict v = Ok d → wf_failure d.
Proof.
  unfold failure_from_dict. intros H. destruct v as [| | | | | |raw|]; try done.
  repeat case_match; try done; eauto using make_failure_wf.
  all: apply result_bind_ok in H as (d' & Hd & H); case_match; simplify_eq; by eapply make_failure_wf.
Qed.

(** The wire shape with the two additional fields. *)
Lemma failure_extended_record h c p s m :
  nonempty s || nonempty m = true →
  failure_from_dict (VDict (failure_to_dict (mkFailure (Some h) c p s m))) =
  (d ← make_ProviderFailureDiagnostic (VInt h) (VStr c) (VStr p) (VStr s) (VStr m);
   if nonempty (fd_provider_status d) || nonempty (fd_replacement_model d) then Ok d
   else Err ValueError).
Proof. intros H. unfold failure_to_dict, failure_schema_of. simpl. by rewrite H. Qed.

Lemma failure_to_dict_roundtrip d :
  wf_failure d → failure_from_dict (VDict (failure_to_dict d)) = Ok d.
Proof.
  unfold wf_failure. destruct d as [[h|] c p s m]; simpl; intros H.
  - destruct (nonempty s || nonempty m) eqn:E.
    + rewrite failure_extended_record, H by done. unfold_monad. by rewrite E.
    + apply orb_false_iff in E as [??]. by destruct s, m.
  - assert (p = [] ∧ s = [] ∧ m = []) as (-> & -> & ->); [|exact H].
    unfold make_ProviderFailureDiagnostic in H. by repeat case_match; simplify_eq.
Qed.

Definition wf_uncertainty (d : ProviderUncertaintyDiagnostic) : Prop :=
  make_ProviderUncertaintyDiagnostic (VStr (ud_reason d)) (VStr (ud_phase d))
    (opt_int (ud_http_status d)) (VStr (ud_provider_code d)) = Ok d.

Lemma make_uncertainty_wf r p h c d :
  make_ProviderUncertaintyDiagnostic r p h c = Ok d → wf_uncertainty d.
Proof.
  unfold wf_uncertainty, make_ProviderUncertaintyDiagnostic. intros H.
  repeat match type of H with
  | mbind _ _ = Ok _ => let E := fresh "E" in apply result_bind_ok in H as (? & E & H)
  end.
  destruct r; try done. destruct p; try done. destruct c; try done.
  repeat (case_match; simplify_eq/=; try done);
  repeat match goal with
  | H : mbind _ _ = Ok _ |- _ => let E := fresh "E" in apply result_bind_ok in H as (? & E & H)
  end; simplify_eq/=; try done.
Qed.

Lemma uncertainty_to_dict_roundtrip d :
  wf_uncertainty d → uncertainty_from_dict (VDict (uncertainty_to_dict d)) = Ok d.
Proof. unfold wf_uncertainty. intros H. exact H. Qed.
