(* ===== verification/RequestLease.v ===== *)
(** * Provider request leases (src/unchain/providers/request_lease.py, records)

    One durable record per provider send: the subject that identifies it, the
    binding of its result and the revisioned lease, with the constructors that
    validate them and their wire shapes.  The state machine over the leases is
    in [RequestCoordinator]. *)

From S2P Require Import Prelude PyVal Json Models Diagnostics.

(** ** Field validation *)

Definition MAX_PROVIDER_REQUEST_ITERATION : Z := 2 ^ 31 - 1.
Definition MAX_PROVIDER_REQUEST_RETRY_ORDINAL : Z := 2 ^ 31 - 1.

Definition _ROUTES : list pystr := [u "primary"; u "openai_previous_response_fallback"].

Definition _FAILURE_CLASSIFICATIONS : list pystr :=
  [u "bad_request"; u "non_retryable"; u "previous_response_fallback"; u "transient"].

Inductive ProviderRequestStatus : Type := STARTED | FAILED | COMPLETED.

#[export] Instance status_eq_dec : EqDecision ProviderRequestStatus.
Proof. solve_decision. Defined.

Definition status_value (s : ProviderRequestStatus) : pystr :=
  match s with
  | STARTED => u "started"
  | FAILED => u "failed"
  | COMPLETED => u "completed"
  end.

(** [ProviderRequestStatus(value)]; [None] when it raises. *)
Definition status_of (value : arg ProviderRequestStatus) : option ProviderRequestStatus :=
  match value with
  | Inst s => Some s
  | Val (VStr t) =>
      if bool_decide (t = u "started") then Some STARTED
      else if bool_decide (t = u "failed") then Some FAILED
      else if bool_decide (t = u "completed") then Some COMPLETED
      else None
  | Val _ => None
  end.

Inductive ProviderRequestDisposition : Type :=
| NOT_STARTED | UNCERTAIN | RETRYABLE_FAILURE | TERMINAL.

#[export] Instance disposition_eq_dec : EqDecision ProviderRequestDisposition.
Proof. solve_decision. Defined.

Definition _bounded_int (value : pyval) (maximum : Z) : R Z :=
  match value with
  | VInt z => if ((0 <=? z) && (z <=? maximum))%Z then Ok z else Err ModelValidationError
  | _ => Err TypeError
  end.

Definition _positive_revision (value : pyval) : R Z :=
  match value with
  | VInt z => if (z <? 1)%Z then Err ModelValidationError else Ok z
  | _ => Err TypeError
  end.

Definition _canonical_sha256 (value : pyval) : R pystr :=
  match dumps value with
  | Some text =>
      match utf8 text with
      | Some content => Ok (sha256_hex content)
      | None => Err ModelValidationError
      end
  | None => Err ModelValidationError
  end.
#[global] Arguments _bounded_int : simpl never.
#[global] Arguments _positive_revision : simpl never.
#[global] Arguments _canonical_sha256 : simpl never.

Section leases.
Context `{U : Unicode}.

Definition _canonical_text (value : pyval) (maximum : nat) : R pystr :=
  match value with
  | VStr s =>
      if negb (bool_decide (nfc (strip s) = s)) || negb (nonempty s) || (maximum <? length s)
         || existsb (λ c, (c <? 32)%N) s
      then Err ModelValidationError else Ok s
  | _ => Err TypeError
  end.

Definition _attempt (value : arg AttemptRef) : R AttemptRef :=
  match value with
  | Val (VDict d) => AttemptRef_from_dict (VDict d)
  | Inst a => AttemptRef_from_dict (AttemptRef_to_dict a)
  | Val _ => Err TypeError
  end.

(** ** The subject: the uniqueness key of one send *)

Record ProviderRequestSubject : Type := mkSubject {
  attempt : AttemptRef;
  iteration : Z;
  envelope_sha256 : pystr;
  route : pystr;
  retry_ordinal : Z;
}.

Definition make_ProviderRequestSubject (attempt : arg AttemptRef)
    (iteration envelope_sha256 route retry_ordinal : pyval) : R ProviderRequestSubject :=
  attempt ← _attempt attempt;
  iteration ← _bounded_int iteration MAX_PROVIDER_REQUEST_ITERATION;
  envelope_sha256 ← _sha256 envelope_sha256;
  route ← _canonical_text route 128;
  _ ← ensure (bool_decide (route ∈ _ROUTES)) ModelValidationError;
  retry_ordinal ← _bounded_int retry_ordinal MAX_PROVIDER_REQUEST_RETRY_ORDINAL;
  Ok (mkSubject attempt iteration envelope_sha256 route retry_ordinal).

Definition subject_schema : pystr := u "unchain.provider_request_subject.v1".

Definition subject_to_dict (s : ProviderRequestSubject) : pydict :=
  [field "schema" (VStr subject_schema); field "attempt" (AttemptRef_to_dict (attempt s));
   field "iteration" (VInt (iteration s)); field "envelope_sha256" (VStr (envelope_sha256 s));
   field "route" (VStr (route s)); field "retry_ordinal" (VInt (retry_ordinal s))].

Definition subject_from_dict (value : pyval) : R ProviderRequestSubject :=
  raw ← _record_data value subject_schema
          ["attempt"; "iteration"; "envelope_sha256"; "route"; "retry_ordinal"] [];
  a ← AttemptRef_from_dict (get raw "attempt");
  make_ProviderRequestSubject (Inst a) (get raw "iteration") (get raw "envelope_sha256")
                              (get raw "route") (get raw "retry_ordinal").

(** ** The binding of a durable result *)

Record ProviderTurnResultBinding : Type := mkBinding {
  rb_route_sha256 : pystr;
  rb_result_sha256 : pystr;
  rb_artifact : ArtifactRef;
  rb_cursor : EventCursor;
}.

(** An argument given as a dictionary is parsed, an instance is re-validated
    through its dictionary, anything else is refused. *)
Definition exact_arg {A} (from_dict : pyval → R A) (to_dict : A → pyval) (x : arg A) : R A :=
  match x with
  | Val (VDict d) => from_dict (VDict d)
  | Inst a => from_dict (to_dict a)
  | Val _ => Err TypeError
  end.

Definition make_ProviderTurnResultBinding (route_sha256 result_sha256 : pyval)
    (artifact : arg ArtifactRef) (cursor : arg EventCursor) : R ProviderTurnResultBinding :=
  route_sha256 ← _sha256 route_sha256;
  result_sha256 ← _sha256 result_sha256;
  artifact ← exact_arg ArtifactRef_from_dict ArtifactRef_to_dict artifact;
  _ ← ensure (bool_decide (rr_kind (ar_ref artifact) = u "artifact")
              && negb (nonempty (rr_fragment (ar_ref artifact)))
              && bool_decide (ar_media_type artifact = u "application/json")
              && negb (nonempty (ar_preview artifact))) ModelValidationError;
  cursor ← exact_arg EventCursor_from_dict EventCursor_to_dict cursor;
  Ok (mkBinding route_sha256 result_sha256 artifact cursor).

Definition binding_schema : pystr := u "unchain.provider_turn_result_binding.v1".

Definition binding_to_dict (b : ProviderTurnResultBinding) : pydict :=
  [field "schema" (VStr binding_schema); field "route_sha256" (VStr (rb_route_sha256 b));
   field "result_sha256" (VStr (rb_result_sha256 b));
   field "artifact" (ArtifactRef_to_dict (rb_artifact b));
   field "cursor" (EventCursor_to_dict (rb_cursor b))].

Definition binding_from_dict (value : pyval) : R ProviderTurnResultBinding :=
  raw ← match value with
        | VDict _ => _record_data value binding_schema
                       ["route_sha256"; "result_sha256"; "artifact"; "cursor"] []
        | _ => Err TypeError
        end;
  a ← ArtifactRef_from_dict (get raw "artifact");
  c ← EventCursor_from_dict (get raw "cursor");
  make_ProviderTurnResultBinding (get raw "route_sha256") (get raw "result_sha256")
                                 (Inst a) (Inst c).

(** ** The lease *)

Record ProviderRequestLease : Type := mkLease {
  subject : ProviderRequestSubject;
  route_sha256 : pystr;
  status : ProviderRequestStatus;
  revision : Z;
  visible_output : bool;
  retryable : bool;
  classification : pystr;
  operation : OperationRef;
  result_binding : option ProviderTurnResultBinding;
  predecessor_sha256 : option pystr;
  failure_diagnostic : option ProviderFailureDiagnostic;
  uncertainty_diagnostic : option ProviderUncertaintyDiagnostic;
}.

(** The arguments of the constructor. *)
Record lease_args : Type := mkArgs {
  a_subject : arg ProviderRequestSubject;
  a_route_sha256 : pyval;
  a_status : arg ProviderRequestStatus;
  a_revision : pyval;
  a_visible_output : pyval;
  a_retryable : pyval;
  a_classification : pyval;
  a_operation : arg OperationRef;
  a_result_binding : arg ProviderTurnResultBinding;
  a_predecessor_sha256 : pyval;
  a_failure_diagnostic : arg ProviderFailureDiagnostic;
  a_uncertainty_diagnostic : arg ProviderUncertaintyDiagnostic;
}.

(** [None], a dictionary to parse, or an instance, for an optional record. *)
Definition optional_arg {A} (from_dict : pyval → R A) (x : arg A) : R (option A) :=
  match x with
  | Val VNone => Ok None
  | Val (VDict d) => a ← from_dict (VDict d); Ok (Some a)
  | Inst a => Ok (Some a)
  | Val _ => Err TypeError
  end.

Definition check_classification (classification : pyval) : R pystr :=
  if truthy classification then
    c ← _canonical_text classification 128;
    if bool_decide (c ∈ _FAILURE_CLASSIFICATIONS) then Ok c else Err ModelValidationError
  else match classification with VStr c => Ok c | _ => Err TypeError end.

Definition exact_bool (v : pyval) : R bool :=
  match v with VBool b => Ok b | _ => Err TypeError end.

(** The rules that tie the fields to the status. *)
Definition lease_consistent (l : ProviderRequestLease) : bool :=
  match status l with
  | STARTED =>
      bool_decide (result_binding l = None)
      && negb (visible_output l || retryable l || nonempty (classification l))
      && bool_decide (predecessor_sha256 l = None)
  | FAILED =>
      bool_decide (result_binding l = None) && bool_decide (predecessor_sha256 l = None)
      && nonempty (classification l)
      && negb (bool_decide (classification l = u "previous_response_fallback")
               && negb (retryable l))
  | COMPLETED =>
      negb (retryable l || nonempty (classification l))
      && match result_binding l with
         | Some b => bool_decide (rb_route_sha256 b = route_sha256 l)
         | None => false
         end
      && bool_decide (predecessor_sha256 l ≠ None)
  end.

(** A binding is validated once more through its dictionary. *)
Definition binding_revalidated (b : option ProviderTurnResultBinding)
    : R (option ProviderTurnResultBinding) :=
  match b with
  | Some b => b ← binding_from_dict (VDict (binding_to_dict b)); Ok (Some b)
  | None => Ok None
  end.

Definition parse_predecessor (v : pyval) : R (option pystr) :=
  match v with VNone => Ok None | v => p ← _sha256 v; Ok (Some p) end.

Definition make_ProviderRequestLease (a : lease_args) : R ProviderRequestLease :=
  diagnostic ← optional_arg failure_from_dict (a_failure_diagnostic a);
  uncertainty ← optional_arg uncertainty_from_dict (a_uncertainty_diagnostic a);
  subject ← exact_arg subject_from_dict (λ s, VDict (subject_to_dict s)) (a_subject a);
  route_sha256 ← _sha256 (a_route_sha256 a);
  status ← match status_of (a_status a) with Some s => Ok s | None => Err ModelValidationError end;
  _ ← ensure (bool_decide (diagnostic = None) || bool_decide (status = FAILED))
        ModelValidationError;
  _ ← ensure (bool_decide (uncertainty = None) || bool_decide (status = STARTED))
        ModelValidationError;
  revision ← _positive_revision (a_revision a);
  visible_output ← exact_bool (a_visible_output a);
  retryable ← exact_bool (a_retryable a);
  classification ← check_classification (a_classification a);
  operation ← exact_arg OperationRef_from_dict OperationRef_to_dict (a_operation a);
  result_binding ← optional_arg binding_from_dict (a_result_binding a);
  result_binding ← binding_revalidated result_binding;
  predecessor_sha256 ← parse_predecessor (a_predecessor_sha256 a);
  let l := mkLease subject route_sha256 status revision visible_output retryable classification
             operation result_binding predecessor_sha256 diagnostic uncertainty in
  if lease_consistent l then Ok l else Err ModelValidationError.

Definition lease_schema : pystr := u "unchain.provider_request_lease.v2".
Definition lease_diagnostic_schema : pystr := u "unchain.provider_request_lease.v3".
Definition lease_schema_v4 : pystr := u "unchain.provider_request_lease.v4".
Definition lease_legacy_schema : pystr := u "unchain.provider_request_lease.v1".

(** The schema of a lease with a failure diagnostic. *)
Definition diagnostic_schema_for (http_status : option Z) (schema : pyval) : pystr :=
  if bool_decide (http_status ≠ None) && py_eq schema (VStr failure_schema_v2)
  then lease_schema_v4 else lease_diagnostic_schema.

Definition opt {A} (f : A → pyval) (x : option A) : pyval :=
  match x with Some a => f a | None => VNone end.

Definition lease_schema_of (l : ProviderRequestLease) : pystr :=
  match uncertainty_diagnostic l, failure_diagnostic l with
  | Some _, _ => lease_schema_v4
  | None, Some d => diagnostic_schema_for (fd_http_status d) (VStr (failure_schema_of d))
  | None, None => lease_schema
  end.

Definition lease_to_dict (l : ProviderRequestLease) : pydict :=
  [field "schema" (VStr (lease_schema_of l)); field "subject" (VDict (subject_to_dict (subject l)));
   field "route_sha256" (VStr (route_sha256 l)); field "status" (VStr (status_value (status l)));
   field "revision" (VInt (revision l)); field "visible_output" (VBool (visible_output l));
   field "retryable" (VBool (retryable l)); field "classification" (VStr (classification l));
   field "operation" (OperationRef_to_dict (operation l));
   field "result_binding" (opt (λ b, VDict (binding_to_dict b)) (result_binding l));
   field "predecessor_sha256" (opt VStr (predecessor_sha256 l))]
  ++ match failure_diagnostic l with
     | Some d => [field "failure_diagnostic" (VDict (failure_to_dict d))]
     | None => []
     end
  ++ match uncertainty_diagnostic l with
     | Some d => [field "uncertainty_diagnostic" (VDict (uncertainty_to_dict d))]
     | None => []
     end.

Definition lease_sha256 (l : ProviderRequestLease) : R pystr :=
  _canonical_sha256 (VDict (lease_to_dict l)).

(** [value in {...}] for a set of strings: a list or a dict has no hash. *)
Definition in_set (value : pyval) (names : list pystr) : R bool :=
  match value with
  | VStr s => Ok (bool_decide (s ∈ names))
  | VList _ | VDict _ => Err TypeError
  | _ => Ok false
  end.

Definition legacy_fields : list string :=
  ["subject"; "route_sha256"; "status"; "revision"; "visible_output"; "retryable";
   "classification"; "operation"].

Definition lease_fields : list string :=
  legacy_fields ++ ["result_binding"; "predecessor_sha256"].

(** [cls( ** {name: raw[name] ...})]; a field the record does not have is [None]. *)
Definition lease_of_raw (raw : pydict) : R ProviderRequestLease :=
  make_ProviderRequestLease
    (mkArgs (Val (get raw "subject")) (get raw "route_sha256") (Val (get raw "status"))
            (get raw "revision") (get raw "visible_output") (get raw "retryable")
            (get raw "classification") (Val (get raw "operation"))
            (Val (get raw "result_binding")) (get raw "predecessor_sha256")
            (Val (get raw "failure_diagnostic")) (Val (get raw "uncertainty_diagnostic"))).

Definition lease_from_dict (value : pyval) : R ProviderRequestLease :=
  match value with
  | VDict d =>
      let schema := get d "schema" in
      if py_eq schema (VStr lease_schema_v4) && has_key d "uncertainty_diagnostic" then
        _ ← ensure (is_dict (get d "uncertainty_diagnostic")) ModelValidationError;
        _ ← ensure (py_eq (get d "status") (VStr (status_value STARTED))) ModelValidationError;
        raw ← _record_data value lease_schema_v4
                (lease_fields ++ ["uncertainty_diagnostic"]) [];
        lease_of_raw raw
      else
        diagnosed ← in_set schema [lease_diagnostic_schema; lease_schema_v4];
        if (diagnosed : bool) then
          let diagnostic := get d "failure_diagnostic" in
          _ ← ensure (is_dict diagnostic) ModelValidationError;
          parsed ← failure_from_dict diagnostic;
          let expected := diagnostic_schema_for (fd_http_status parsed)
                            (match diagnostic with VDict r => get r "schema" | _ => VNone end) in
          _ ← ensure (py_eq schema (VStr expected)) ModelValidationError;
          _ ← ensure (py_eq (get d "status") (VStr (status_value FAILED))) ModelValidationError;
          raw ← _record_data value expected (lease_fields ++ ["failure_diagnostic"]) [];
          lease_of_raw raw
        else
          raw ← _record_data value lease_schema lease_fields [];
          lease_of_raw raw
  | _ => Err TypeError
  end.

Definition lease_from_durable_dict (value : pyval) : R ProviderRequestLease :=
  match value with
  | VDict d =>
      current ← in_set (get d "schema") [lease_schema; lease_diagnostic_schema; lease_schema_v4];
      if (current : bool) then lease_from_dict value
      else
        raw ← _record_data value lease_legacy_schema legacy_fields [];
        match status_of (Val (get raw "status")) with
        | None => Err ModelValidationError
        | Some COMPLETED => Err ProviderRequestLeaseIntegrityError
        | Some _ => lease_of_raw raw
        end
  | _ => Err TypeError
  end.
End leases.
#[global] Arguments _canonical_text : simpl never.
#[global] Arguments check_classification : simpl never.
#[global] Arguments make_ProviderRequestLease : simpl never.
#[global] Arguments make_ProviderRequestSubject : simpl never.
#[global] Arguments lease_sha256 : simpl never.
#[global] Arguments binding_from_dict : simpl never.
#[global] Arguments subject_from_dict : simpl never.
#[global] Arguments binding_revalidated : simpl never.
#[global] Arguments parse_predecessor : simpl never.

#[export] Instance subject_eq_dec : EqDecision ProviderRequestSubject.
Proof. solve_decision. Defined.
#[export] Instance binding_eq_dec : EqDecision ProviderTurnResultBinding.
Proof. solve_decision. Defined.
#[export] Instance lease_eq_dec : EqDecision ProviderRequestLease.
Proof. solve_decision. Defined.

#[export] Instance GenerationRef_countable : Countable GenerationRef.
Proof.
  by refine (inj_countable' (λ g, (gr_execution_id g, gr_generation_id g))
    (λ t, mkGenerationRef t.1 t.2) _); intros [].
Defined.
#[export] Instance AttemptRef_countable : Countable AttemptRef.
Proof.
  by refine (inj_countable' (λ a, (at_generation a, at_attempt_id a))
    (λ t, mkAttemptRef t.1 t.2) _); intros [].
Defined.

(** The key under which the port files a subject. *)
Definition key (s : ProviderRequestSubject) : AttemptRef * Z * pystr * pystr * Z :=
  (attempt s, iteration s, envelope_sha256 s, route s, retry_ordinal s).

#[export] Instance subject_countable : Countable ProviderRequestSubject.
Proof.
  by refine (inj_countable' key (λ '(a, i, e, r, o), mkSubject a i e r o) _); intros [].
Defined.

(** ** Subjects and leases in normal form *)

Section normal_forms.
Context `{U : Unicode} `{!UnicodeLaws U}.

Lemma bounded_stable v m z : _bounded_int v m = Ok z → _bounded_int (VInt z) m = Ok z.
Proof. unfold _bounded_int. destruct v; try done. case_match eqn:E; [|done]. intros [= <-]. by rewrite E. Qed.

Lemma revision_stable v z : _positive_revision v = Ok z → _positive_revision (VInt z) = Ok z.
Proof. unfold _positive_revision. destruct v; try done. case_match eqn:E; [done|]. intros [= <-]. by rewrite E. Qed.

Lemma canonical_stable v m s : _canonical_text v m = Ok s → v = VStr s.
Proof. unfold _canonical_text. destruct v; try done. case_match; [done|]. by intros [= ->]. Qed.

Definition wf_subject (s : ProviderRequestSubject) : Prop :=
  subject_from_dict (VDict (subject_to_dict s)) = Ok s.

Lemma subject_record s :
  subject_from_dict (VDict (subject_to_dict s)) =
  (a ← AttemptRef_from_dict (AttemptRef_to_dict (attempt s));
   make_ProviderRequestSubject (Inst a) (VInt (iteration s)) (VStr (envelope_sha256 s))
     (VStr (route s)) (VInt (retry_ordinal s))).
Proof. reflexivity. Qed.

Lemma attempt_wf a a' : _attempt a = Ok a' → wf_AttemptRef a'.
Proof.
  unfold _attempt. destruct a as [a|v]; [apply AttemptRef_from_dict_wf|].
  destruct v; try done. apply AttemptRef_from_dict_wf.
Qed.

Lemma make_subject_wf a i e r o s : make_ProviderRequestSubject a i e r o = Ok s → wf_subject s.
Proof.
  unfold make_ProviderRequestSubject, wf_subject. intros H.
  apply result_bind_ok in H as (a' & Ha%attempt_wf & H).
  apply result_bind_ok in H as (i' & Hi%bounded_stable & H).
  apply result_bind_ok in H as (e' & He%sha256_stable & H).
  apply result_bind_ok in H as (r' & Hr & H).
  apply result_bind_ok in H as (x & Hx & H).
  apply result_bind_ok in H as (o' & Ho%bounded_stable & H). injection H as <-.
  rewrite subject_record. simpl. unfold wf_AttemptRef in Ha. rewrite Ha.
  unfold make_ProviderRequestSubject. simpl. rewrite Ha. simpl.
  assert (Hr' := canonical_stable _ _ _ Hr). subst r.
  rewrite Hi. simpl. rewrite He. simpl. rewrite Hr. simpl. rewrite Hx. simpl. by rewrite Ho.
Qed.

Lemma subject_from_dict_wf v s : subject_from_dict v = Ok s → wf_subject s.
Proof.
  unfold subject_from_dict. intros (raw & _ & H)%result_bind_ok.
  apply result_bind_ok in H as (a & _ & H). eauto using make_subject_wf.
Qed.

(** A constructor argument that is a subject comes out unchanged when it is one
    the constructor could have built. *)
Lemma exact_subject x s :
  exact_arg subject_from_dict (λ s, VDict (subject_to_dict s)) x = Ok s → wf_subject s.
Proof. destruct x as [s'|[]]; simpl; try done; eauto using subject_from_dict_wf. Qed.

(** What a successful construction says about the lease it returns. *)
Record made (a : lease_args) (l : ProviderRequestLease) : Prop := {
  made_failure : optional_arg failure_from_dict (a_failure_diagnostic a) = Ok (failure_diagnostic l);
  made_uncertainty :
    optional_arg uncertainty_from_dict (a_uncertainty_diagnostic a) = Ok (uncertainty_diagnostic l);
  made_subject :
    exact_arg subject_from_dict (λ s, VDict (subject_to_dict s)) (a_subject a) = Ok (subject l);
  made_route : _sha256 (a_route_sha256 a) = Ok (route_sha256 l);
  made_status : status_of (a_status a) = Some (status l);
  made_failed : failure_diagnostic l = None ∨ status l = FAILED;
  made_uncertain : uncertainty_diagnostic l = None ∨ status l = STARTED;
  made_revision : _positive_revision (a_revision a) = Ok (revision l);
  made_visible : exact_bool (a_visible_output a) = Ok (visible_output l);
  made_retryable : exact_bool (a_retryable a) = Ok (retryable l);
  made_classification : check_classification (a_classification a) = Ok (classification l);
  made_operation :
    exact_arg OperationRef_from_dict OperationRef_to_dict (a_operation a) = Ok (operation l);
  made_binding :
    (optional_arg binding_from_dict (a_result_binding a) ≫= binding_revalidated)
    = Ok (result_binding l);
  made_predecessor : parse_predecessor (a_predecessor_sha256 a) = Ok (predecessor_sha256 l);
  made_consistent : lease_consistent l = true;
}.

Lemma diagnostic_guard {A} (x : option A) (P : Prop) `{!Decision P} (e : pyexn) t
    `{!Decision (x = None)} :
  ensure (bool_decide (x = None) || bool_decide P) e = Ok t ↔ x = None ∨ P.
Proof. rewrite ensure_ok, orb_true_iff, !bool_decide_eq_true. done. Qed.

Lemma make_lease_made a l : make_ProviderRequestLease a = Ok l → made a l.
Proof.
  unfold make_ProviderRequestLease. intros H.
  do 15 (apply result_bind_ok in H as (? & ? & H)).
  destruct (lease_consistent _) eqn:Hc in H; [|done]. injection H as <-.
  match goal with H : context [status_of] |- _ => destruct (status_of _) eqn:Es in H; [|done] end.
  simplify_eq.
  constructor; simpl; try done.
  - by eapply diagnostic_guard.
  - by eapply diagnostic_guard.
  - by apply result_bind_ok; eauto.
Qed.

Lemma made_make_lease a l : made a l → make_ProviderRequestLease a = Ok l.
Proof.
  intros []. unfold make_ProviderRequestLease.
  rewrite made_failure0. simpl. rewrite made_uncertainty0. simpl. rewrite made_subject0. simpl.
  rewrite made_route0. simpl. rewrite made_status0. simpl.
  rewrite (proj2 (diagnostic_guard _ _ _ tt)) by done. simpl.
  rewrite (proj2 (diagnostic_guard _ _ _ tt)) by done. simpl.
  rewrite made_revision0. simpl. rewrite made_visible0. simpl. rewrite made_retryable0. simpl.
  rewrite made_classification0. simpl. rewrite made_operation0. simpl.
  apply result_bind_ok in made_binding0 as (b & Hb & Hr). rewrite Hb. simpl.
  rewrite Hr. simpl. rewrite made_predecessor0. simpl. destruct l. simpl in *. by rewrite made_consistent0.
Qed.

(** *** Wire shapes *)

Lemma binding_record b :
  binding_from_dict (VDict (binding_to_dict b)) =
  (a ← ArtifactRef_from_dict (ArtifactRef_to_dict (rb_artifact b));
   c ← EventCursor_from_dict (EventCursor_to_dict (rb_cursor b));
   make_ProviderTurnResultBinding (VStr (rb_route_sha256 b)) (VStr (rb_result_sha256 b))
     (Inst a) (Inst c)).
Proof. reflexivity. Qed.

Lemma exact_arg_ok {A} (fd : pyval → R A) td x a (wf : A → Prop) :
  (∀ v a, fd v = Ok a → wf a) → exact_arg fd td x = Ok a → wf a.
Proof. intros Hfd. destruct x as [a'|[]]; simpl; try done; apply Hfd. Qed.

Lemma make_binding_stable h r a c b :
  make_ProviderTurnResultBinding h r a c = Ok b →
  binding_from_dict (VDict (binding_to_dict b)) = Ok b.
Proof.
  unfold make_ProviderTurnResultBinding. intros H.
  apply result_bind_ok in H as (h' & Hh%sha256_stable & H).
  apply result_bind_ok in H as (r' & Hr%sha256_stable & H).
  apply result_bind_ok in H as (a' & Ha & H).
  apply result_bind_ok in H as (x & Hx & H).
  apply result_bind_ok in H as (c' & Hc & H). injection H as <-.
  apply (exact_arg_ok _ _ _ _ wf_ArtifactRef) in Ha; [|apply ArtifactRef_from_dict_wf].
  apply (exact_arg_ok _ _ _ _ wf_EventCursor) in Hc; [|apply EventCursor_from_dict_wf].
  rewrite binding_record. unfold wf_ArtifactRef, wf_EventCursor in *. cbn [rb_artifact rb_cursor rb_route_sha256 rb_result_sha256]. rewrite Ha.
  cbn [mbind result_bind]. rewrite Hc. cbn [mbind result_bind].
  unfold make_ProviderTurnResultBinding, exact_arg. rewrite Hh, Hr.
  cbn [mbind result_bind]. rewrite Ha. cbn [mbind result_bind]. rewrite Hx.
  cbn [mbind result_bind]. by rewrite Hc.
Qed.

Lemma binding_from_dict_stable v b :
  binding_from_dict v = Ok b → binding_from_dict (VDict (binding_to_dict b)) = Ok b.
Proof.
  unfold binding_from_dict at 1. intros (raw & _ & H)%result_bind_ok.
  apply result_bind_ok in H as (a & _ & H). apply result_bind_ok in H as (c & _ & H).
  eauto using make_binding_stable.
Qed.

Lemma classification_stable v c : check_classification v = Ok c → v = VStr c.
Proof.
  unfold check_classification. case_match.
  - intros (c' & Hc & H')%result_bind_ok. case_match; simplify_eq. by apply canonical_stable in Hc.
  - destruct v; try done. by intros [= ->].
Qed.

(** The arguments the constructor gets from the dictionary of a lease. *)
Definition wire_args (l : ProviderRequestLease) : lease_args :=
  mkArgs (Val (VDict (subject_to_dict (subject l)))) (VStr (route_sha256 l))
    (Val (VStr (status_value (status l)))) (VInt (revision l)) (VBool (visible_output l))
    (VBool (retryable l)) (VStr (classification l)) (Val (OperationRef_to_dict (operation l)))
    (Val (opt (λ b, VDict (binding_to_dict b)) (result_binding l)))
    (opt VStr (predecessor_sha256 l))
    (Val (opt (λ d, VDict (failure_to_dict d)) (failure_diagnostic l)))
    (Val (opt (λ d, VDict (uncertainty_to_dict d)) (uncertainty_diagnostic l))).

(** A diagnostic given as an instance was built by its constructor. *)
Definition args_wf (a : lease_args) : Prop :=
  arg_wf wf_failure (a_failure_diagnostic a) ∧ arg_wf wf_uncertainty (a_uncertainty_diagnostic a).

Lemma optional_arg_stable {A} (fd : pyval → R A) (td : A → pydict) (wf : A → Prop) x y :
  (∀ v a, fd v = Ok a → wf a) → (∀ a, wf a → fd (VDict (td a)) = Ok a) →
  arg_wf wf x → optional_arg fd x = Ok y → optional_arg fd (Val (opt (λ a, VDict (td a)) y)) = Ok y.
Proof.
  intros Hfd Htd Hx H. destruct x as [a|[]]; simplify_eq/=; try done.
  - by rewrite Htd.
  - apply result_bind_ok in H as (a & Ha & [= <-]). simpl. rewrite Htd; eauto.
Qed.

Lemma binding_arg_stable x y :
  (optional_arg binding_from_dict x ≫= binding_revalidated) = Ok y →
  (optional_arg binding_from_dict (Val (opt (λ b, VDict (binding_to_dict b)) y))
     ≫= binding_revalidated) = Ok y.
Proof.
  intros (z & _ & Hz)%result_bind_ok. destruct z as [b|]; [|by injection Hz as <-].
  apply result_bind_ok in Hz as (b' & Hb%binding_from_dict_stable & [= <-]). cbn.
  unfold binding_revalidated. rewrite Hb. cbn. by rewrite Hb.
Qed.

Lemma predecessor_stable v y :
  parse_predecessor v = Ok y → parse_predecessor (opt VStr y) = Ok y.
Proof.
  unfold parse_predecessor. intros H.
  destruct v; [by injection H as <-|..];
    apply result_bind_ok in H as (p & Hp%sha256_stable & [= <-]); cbn; by rewrite Hp.
Qed.

Lemma made_stable a l : args_wf a → made a l → made (wire_args l) l.
Proof.
  intros [Hf Hu] []. constructor; cbn [wire_args a_failure_diagnostic a_uncertainty_diagnostic
    a_subject a_route_sha256 a_status a_revision a_visible_output a_retryable a_classification
    a_operation a_result_binding a_predecessor_sha256]; try done.
  - eapply (optional_arg_stable _ _ wf_failure); eauto using failure_from_dict_wf, failure_to_dict_roundtrip.
  - eapply (optional_arg_stable _ _ wf_uncertainty); eauto using uncertainty_to_dict_roundtrip.
    intros v d. unfold uncertainty_from_dict. repeat case_match; try done. apply make_uncertainty_wf.
  - by apply exact_subject in made_subject0.
  - by apply sha256_stable in made_route0.
  - by destruct (status l).
  - by apply revision_stable in made_revision0.
  - by rewrite <-(classification_stable _ _ made_classification0).
  - by apply (exact_arg_ok _ _ _ _ wf_OperationRef) in made_operation0;
      [|apply OperationRef_from_dict_wf].
  - by eapply binding_arg_stable.
  - by eapply predecessor_stable.
Qed.

(** The three wire shapes. *)
Lemma plain_record l :
  failure_diagnostic l = None → uncertainty_diagnostic l = None →
  lease_from_dict (VDict (lease_to_dict l)) = make_ProviderRequestLease (wire_args l).
Proof. destruct l; simpl. intros -> ->. reflexivity. Qed.

Lemma uncertain_record l d :
  failure_diagnostic l = None → uncertainty_diagnostic l = Some d → status l = STARTED →
  lease_from_dict (VDict (lease_to_dict l)) = make_ProviderRequestLease (wire_args l).
Proof. destruct l; simpl. intros -> -> ->. reflexivity. Qed.

Lemma failed_record_unfold l d :
  failure_diagnostic l = Some d → uncertainty_diagnostic l = None → status l = FAILED →
  lease_from_dict (VDict (lease_to_dict l)) =
  (parsed ← failure_from_dict (VDict (failure_to_dict d));
   let expected := diagnostic_schema_for (fd_http_status parsed) (VStr (failure_schema_of d)) in
   _ ← ensure (py_eq (VStr (lease_schema_of l)) (VStr expected)) ModelValidationError;
   raw ← _record_data (VDict (lease_to_dict l)) expected
           (lease_fields ++ ["failure_diagnostic"]) [];
   lease_of_raw raw).
Proof.
  destruct l as [subj h st rev vis ret cls op rb pr fd ud]; simpl. intros -> -> ->.
  unfold lease_to_dict, lease_schema_of, failure_to_dict, failure_schema_of. cbn.
  destruct d as [[z|] code par stt m], (nonempty stt || nonempty m) eqn:E; cbn; rewrite ?E; reflexivity.
Qed.

Lemma failed_record l d :
  failure_diagnostic l = Some d → uncertainty_diagnostic l = None → status l = FAILED →
  wf_failure d →
  lease_from_dict (VDict (lease_to_dict l)) = make_ProviderRequestLease (wire_args l).
Proof.
  intros Hf Hu Hs Hd%failure_to_dict_roundtrip.
  rewrite (failed_record_unfold _ _ Hf Hu Hs), Hd.
  destruct l as [subj h st rev vis ret cls op rb pr fd ud]; simpl in *. subst.
  unfold lease_to_dict, lease_schema_of. simpl.
  assert (∀ a b, diagnostic_schema_for a b = lease_schema_v4
                 ∨ diagnostic_schema_for a b = lease_diagnostic_schema) as Hsc
    by (intros; unfold diagnostic_schema_for; case_match; auto).
  destruct (Hsc (fd_http_status d) (VStr (failure_schema_of d))) as [->| ->]; reflexivity.
Qed.

Lemma lease_wire_roundtrip a l :
  args_wf a → make_ProviderRequestLease a = Ok l →
  lease_from_dict (VDict (lease_to_dict l)) = Ok l.
Proof.
  intros Hwf Ha%make_lease_made. assert (Hl := made_stable _ _ Hwf Ha).
  rewrite <-(made_make_lease _ _ Hl). destruct Ha, Hl.
  destruct (failure_diagnostic l) as [d|] eqn:Hd, (uncertainty_diagnostic l) as [e|] eqn:He.
  - destruct made_failed0, made_uncertain0; congruence.
  - destruct made_failed0; [done|]. eapply failed_record; [done..|].
    cbn [wire_args a_failure_diagnostic] in made_failure1. rewrite Hd in made_failure1. cbn in made_failure1.
    apply result_bind_ok in made_failure1 as (d' & Hd' & [= ->]).
    by eapply failure_from_dict_wf.
  - destruct made_uncertain0; [done|]. by eapply uncertain_record.
  - by apply plain_record.
Qed.

Lemma lease_schema_current l :
  in_set (VStr (lease_schema_of l)) [lease_schema; lease_diagnostic_schema; lease_schema_v4]
  = Ok true.
Proof.
  unfold lease_schema_of, diagnostic_schema_for. repeat case_match; reflexivity.
Qed.

(** The record shape before results were bound. *)
Definition legacy_dict (l : ProviderRequestLease) : pydict :=
  [field "schema" (VStr lease_legacy_schema); field "subject" (VDict (subject_to_dict (subject l)));
   field "route_sha256" (VStr (route_sha256 l)); field "status" (VStr (status_value (status l)));
   field "revision" (VInt (revision l)); field "visible_output" (VBool (visible_output l));
   field "retryable" (VBool (retryable l)); field "classification" (VStr (classification l));
   field "operation" (OperationRef_to_dict (operation l))].

Lemma legacy_upgrade l :
  made (wire_args l) l → failure_diagnostic l = None → uncertainty_diagnostic l = None →
  lease_from_durable_dict (VDict (legacy_dict l)) =
  if decide (status l = COMPLETED) then Err ProviderRequestLeaseIntegrityError else Ok l.
Proof.
  intros Hm Hf Hu. assert (Hc := made_consistent _ _ Hm). apply made_make_lease in Hm.
  unfold wire_args in Hm. rewrite Hf, Hu in Hm. unfold lease_consistent in Hc.
  destruct l as [subj h [] rev vis ret cls op rb pr fd ud]; simpl in *; subst; bsimpl; subst;
    [exact Hm|exact Hm|reflexivity].
Qed.

Lemma durable_wire l :
  lease_from_durable_dict (VDict (lease_to_dict l)) = lease_from_dict (VDict (lease_to_dict l)).
Proof.
  assert (get (lease_to_dict l) "schema" = VStr (lease_schema_of l)) as Hs by reflexivity.
  unfold lease_from_durable_dict at 1. rewrite Hs, lease_schema_current. reflexivity.
Qed.

(** Every lease the constructor builds survives its durable dictionary:
    the current reader and the reader of durable rows give back the same
    lease, whichever of the three wire shapes it has; a row of the schema
    before results were bound is upgraded to the same lease, except that a
    completed one, which has no result, is refused. *)
Theorem request_lease_roundtrip (a : lease_args) (l : ProviderRequestLease) :
  args_wf a → make_ProviderRequestLease a = Ok l →
  lease_from_dict (VDict (lease_to_dict l)) = Ok l ∧
  lease_from_durable_dict (VDict (lease_to_dict l)) = Ok l ∧
  (failure_diagnostic l = None → uncertainty_diagnostic l = None →
   lease_from_durable_dict (VDict (legacy_dict l)) =
   if decide (status l = COMPLETED) then Err ProviderRequestLeaseIntegrityError else Ok l).
Proof.
  intros Hwf Hl. rewrite durable_wire. split_and!; [by eapply lease_wire_roundtrip..|].
  apply legacy_upgrade. eapply made_stable; [done|]. by apply make_lease_made.
Qed.
End normal_forms.
