(* ===== verification/RequestCoordinator.v ===== *)
(** * The provider request coordinator (src/unchain/providers/request_lease.py,
      port and coordinator)

    A worker claims the subject of a request before it sends, and records
    afterwards how the request ended; the leases live behind a port with an
    atomic compare-and-swap on the revision.  The coordinator is a state machine
    over the port.  Each of its methods is a program of port calls ([prog]), so
    that the same definition is run alone against a store ([run]) and
    interleaved with other workers, crashes and lost answers ([pool_step]). *)

From S2P Require Import Prelude PyVal Models Diagnostics RequestLease.

(** ** Programs of port calls

    [Load] and [Cas] are the two methods of [ProviderRequestLeasePort]; the
    continuation receives what the call returned or raised.  A port may return
    an object of another class, which is a [Val]. *)

Inductive prog (A : Type) : Type :=
| Done (r : R A)
| Load (s : ProviderRequestSubject) (k : R (option (arg ProviderRequestLease)) → prog A)
| Cas (s : ProviderRequestSubject) (expected_revision : Z) (replacement : ProviderRequestLease)
      (k : R (arg ProviderRequestLease) → prog A).
Arguments Done {A} r.
Arguments Load {A} s k.
Arguments Cas {A} s expected_revision replacement k.

Fixpoint prog_bind' {A B} (f : A → prog B) (m : prog A) : prog B :=
  match m with
  | Done (Ok a) => f a
  | Done (Err e) => Done (Err e)
  | Load s k => Load s (λ x, prog_bind' f (k x))
  | Cas s e r k => Cas s e r (λ x, prog_bind' f (k x))
  end.

#[export] Instance prog_ret : MRet prog := λ A a, Done (Ok a).
#[export] Instance prog_bind : MBind prog := λ A B f m, prog_bind' f m.

Definition fail {A} (e : pyexn) : prog A := Done (Err e).

(** [if not b: raise e] *)
Definition require (b : bool) (e : pyexn) : prog unit := Done (ensure b e).

(** ** The coordinator *)

Record ProviderRequestRecovery : Type := mkRecovery {
  rc_subject : ProviderRequestSubject;
  rc_disposition : ProviderRequestDisposition;
  rc_lease : option ProviderRequestLease;
}.

Definition auto_resend_allowed (r : ProviderRequestRecovery) : bool :=
  bool_decide (rc_disposition r = NOT_STARTED).

Section coordinator.
Context `{U : Unicode}.

Definition _load (s : ProviderRequestSubject) : prog (option ProviderRequestLease) :=
  record ← Load s Done;
  match record with
  | None => mret None
  | Some (Val _) => fail ProviderRequestLeaseIntegrityError
  | Some (Inst record) =>
      if decide (subject record = s) then mret (Some record)
      else fail ProviderRequestLeaseIntegrityError
  end.

Definition _current (expected : arg ProviderRequestLease) : prog ProviderRequestLease :=
  match expected with
  | Val _ => fail TypeError
  | Inst expected =>
      current ← _load (subject expected);
      match current with
      | Some current =>
          if decide (current = expected) then mret current
          else fail ProviderRequestLeaseIntegrityError
      | None => fail ProviderRequestLeaseIntegrityError
      end
  end.

Definition _cas (expected_revision : Z) (replacement : ProviderRequestLease)
    : prog ProviderRequestLease :=
  stored ← Cas (subject replacement) expected_revision replacement Done;
  match stored with
  | Inst stored =>
      if decide (stored = replacement) then mret stored
      else fail ProviderRequestLeaseIntegrityError
  | Val _ => fail ProviderRequestLeaseIntegrityError
  end.

Definition _claim (s : ProviderRequestSubject) (route_sha256 : pyval) (operation : arg OperationRef)
    : prog ProviderRequestLease :=
  current ← _load s;
  match current with
  | Some _ => fail ProviderRequestLeaseConflict
  | None =>
      replacement ← Done (make_ProviderRequestLease
        (mkArgs (Inst s) route_sha256 (Inst STARTED) (VInt 1) (VBool false) (VBool false)
                (VStr []) operation (Val VNone) VNone (Val VNone) (Val VNone)));
      _cas 0 replacement
  end.

Definition claim_initial (attempt : arg AttemptRef)
    (iteration envelope_sha256 route route_sha256 : pyval) (operation : arg OperationRef)
    : prog ProviderRequestLease :=
  _ ← require (py_eq route (VStr (u "primary"))) ProviderRequestTransitionError;
  s ← Done (make_ProviderRequestSubject attempt iteration envelope_sha256 route (VInt 0));
  _claim s route_sha256 operation.

Definition record_failure (lease : arg ProviderRequestLease)
    (classification retryable visible_output : pyval) (operation : arg OperationRef)
    (failure_diagnostic : arg ProviderFailureDiagnostic) : prog ProviderRequestLease :=
  current ← _current lease;
  _ ← require (bool_decide (status current = STARTED)) ProviderRequestTransitionError;
  _ ← require (negb (py_eq classification (VStr (u "previous_response_fallback"))
                     && (bool_decide (route (subject current) ≠ u "primary")
                         || negb (retry_ordinal (subject current) =? 0)%Z)))
        ProviderRequestTransitionError;
  replacement ← Done (make_ProviderRequestLease
    (mkArgs (Inst (subject current)) (VStr (route_sha256 current)) (Inst FAILED)
            (VInt (revision current + 1)) visible_output retryable classification operation
            (Val VNone) VNone failure_diagnostic (Val VNone)));
  _cas (revision current) replacement.

Definition record_uncertainty (lease : arg ProviderRequestLease)
    (diagnostic : arg ProviderUncertaintyDiagnostic) (operation : arg OperationRef)
    : prog ProviderRequestLease :=
  current ← _current lease;
  _ ← require (bool_decide (status current = STARTED)) ProviderRequestTransitionError;
  _ ← require (bool_decide (uncertainty_diagnostic current = None)) ProviderRequestTransitionError;
  replacement ← Done (make_ProviderRequestLease
    (mkArgs (Inst (subject current)) (VStr (route_sha256 current)) (Inst STARTED)
            (VInt (revision current + 1)) (VBool false) (VBool false) (VStr []) operation
            (Val VNone) VNone (Val VNone) diagnostic));
  _cas (revision current) replacement.

Definition record_completed (lease : arg ProviderRequestLease) (visible_output : pyval)
    (operation : arg OperationRef) : prog ProviderRequestLease :=
  fail ProviderRequestTransitionError.

Definition record_completed_result (lease : arg ProviderRequestLease)
    (binding : arg ProviderTurnResultBinding) (visible_output : pyval)
    (operation : arg OperationRef) : prog ProviderRequestLease :=
  match lease, binding with
  | Inst lease, Inst binding =>
      _ ← require (bool_decide (rb_route_sha256 binding = route_sha256 lease))
            ProviderRequestLeaseIntegrityError;
      current ← _load (subject lease);
      match current with
      | None => fail ProviderRequestLeaseIntegrityError
      | Some current =>
          predecessor ← Done (lease_sha256 lease);
          replacement ← Done (make_ProviderRequestLease
            (mkArgs (Inst (subject lease)) (VStr (route_sha256 lease)) (Inst COMPLETED)
                    (VInt (revision lease + 1)) visible_output (VBool false) (VStr []) operation
                    (Inst binding) (VStr predecessor) (Val VNone) (Val VNone)));
          if decide (current = replacement) then mret current
          else if decide (current ≠ lease) then fail ProviderRequestLeaseIntegrityError
          else
            _ ← require (bool_decide (status current = STARTED)) ProviderRequestTransitionError;
            _cas (revision current) replacement
      end
  | _, _ => fail TypeError
  end.

Definition claim_retry (previous : arg ProviderRequestLease) (operation : arg OperationRef)
    : prog ProviderRequestLease :=
  current ← _current previous;
  _ ← require (bool_decide (status current = FAILED)) ProviderRequestTransitionError;
  _ ← require (negb (visible_output current)) ProviderRequestTransitionError;
  _ ← require (retryable current) ProviderRequestTransitionError;
  _ ← require (bool_decide (classification current = u "transient")) ProviderRequestTransitionError;
  let s := subject current in
  _ ← require (retry_ordinal s <? MAX_PROVIDER_REQUEST_RETRY_ORDINAL)%Z
        ProviderRequestTransitionError;
  s' ← Done (make_ProviderRequestSubject (Inst (attempt s)) (VInt (iteration s))
               (VStr (envelope_sha256 s)) (VStr (route s)) (VInt (retry_ordinal s + 1)));
  _claim s' (VStr (route_sha256 current)) operation.

Definition claim_openai_fallback (primary : arg ProviderRequestLease)
    (fallback_route_sha256 : pyval) (operation : arg OperationRef) : prog ProviderRequestLease :=
  current ← _current primary;
  let s := subject current in
  _ ← require (bool_decide (route s = u "primary") && (retry_ordinal s =? 0)%Z
               && bool_decide (status current = FAILED) && retryable current
               && negb (visible_output current)
               && bool_decide (classification current = u "previous_response_fallback"))
        ProviderRequestTransitionError;
  s' ← Done (make_ProviderRequestSubject (Inst (attempt s)) (VInt (iteration s))
               (VStr (envelope_sha256 s)) (VStr (u "openai_previous_response_fallback")) (VInt 0));
  _claim s' fallback_route_sha256 operation.

(** The disposition of what the port holds. *)
Definition disposition_of (lease : option ProviderRequestLease) : ProviderRequestDisposition :=
  match lease with
  | None => NOT_STARTED
  | Some l =>
      match status l with
      | STARTED => UNCERTAIN
      | FAILED => if retryable l && negb (visible_output l) then RETRYABLE_FAILURE else TERMINAL
      | COMPLETED => TERMINAL
      end
  end.

Definition recover (s : arg ProviderRequestSubject) : prog ProviderRequestRecovery :=
  match s with
  | Val _ => fail TypeError
  | Inst s => lease ← _load s; mret (mkRecovery s (disposition_of lease) lease)
  end.
End coordinator.

(** ** Stores

    What a port is documented to do: [load] reads the state of the exact
    subject, [compare_and_swap] atomically replaces the expected revision (zero
    when there is none) and raises a conflict otherwise. *)

Abbreviation store := (gmap ProviderRequestSubject ProviderRequestLease).

Definition current_revision (d : store) (s : ProviderRequestSubject) : Z :=
  match d !! s with Some l => revision l | None => 0 end.

(** A program alone on a store. *)
Fixpoint run {A} (p : prog A) (d : store) : R A * store :=
  match p with
  | Done r => (r, d)
  | Load s k => run (k (Ok (Inst <$> d !! s))) d
  | Cas s e r k =>
      if (current_revision d s =? e)%Z then run (k (Ok (Inst r))) (<[s := r]> d)
      else run (k (Err ProviderRequestLeaseConflict)) d
  end.

(** ** Workers on one store *)

Inductive request_op : Type :=
| OpClaimInitial (attempt : arg AttemptRef) (iteration envelope_sha256 route route_sha256 : pyval)
    (operation : arg OperationRef)
| OpFailure (lease : arg ProviderRequestLease) (classification retryable visible_output : pyval)
    (operation : arg OperationRef) (failure_diagnostic : arg ProviderFailureDiagnostic)
| OpUncertainty (lease : arg ProviderRequestLease)
    (diagnostic : arg ProviderUncertaintyDiagnostic) (operation : arg OperationRef)
| OpCompleted (lease : arg ProviderRequestLease) (visible_output : pyval)
    (operation : arg OperationRef)
| OpCompletedResult (lease : arg ProviderRequestLease) (binding : arg ProviderTurnResultBinding)
    (visible_output : pyval) (operation : arg OperationRef)
| OpRetry (previous : arg ProviderRequestLease) (operation : arg OperationRef)
| OpFallback (primary : arg ProviderRequestLease) (fallback_route_sha256 : pyval)
    (operation : arg OperationRef).

Definition is_claim (op : request_op) : bool :=
  match op with
  | OpClaimInitial _ _ _ _ _ _ | OpRetry _ _ | OpFallback _ _ _ => true
  | _ => false
  end.

Section pool.
Context `{U : Unicode}.

Definition op_prog (op : request_op) : prog ProviderRequestLease :=
  match op with
  | OpClaimInitial a i e r h o => claim_initial a i e r h o
  | OpFailure l c r v o d => record_failure l c r v o d
  | OpUncertainty l d o => record_uncertainty l d o
  | OpCompleted l v o => record_completed l v o
  | OpCompletedResult l b v o => record_completed_result l b v o
  | OpRetry l o => claim_retry l o
  | OpFallback l h o => claim_openai_fallback l h o
  end.

Record thread : Type := mkThread {
  t_op : request_op;
  t_prog : prog ProviderRequestLease;
}.

(** The durable state, the calls in progress, and the ghost log of the swaps
    that took place, each with the call that made it. *)
Record pool : Type := mkPool {
  durable : store;
  threads : list thread;
  log : list (nat * ProviderRequestLease);
}.

Definition empty_pool : pool := mkPool ∅ [] [].

Definition advance (i : nat) (op : request_op) (p : prog ProviderRequestLease) (ts : list thread)
    : list thread := <[i := mkThread op p]> ts.

(** One step of some worker.  A port call may fail with any exception; a swap
    may take place although its caller sees an exception, as when the process
    dies between the commit and the answer.  A worker that stops simply takes
    no more steps. *)
Inductive pool_step : pool → pool → Prop :=
| step_start d ts g op :
    pool_step (mkPool d ts g) (mkPool d (ts ++ [mkThread op (op_prog op)]) g)
| step_load d ts g i op s k :
    ts !! i = Some (mkThread op (Load s k)) →
    pool_step (mkPool d ts g) (mkPool d (advance i op (k (Ok (Inst <$> d !! s))) ts) g)
| step_load_error d ts g i op s k e :
    ts !! i = Some (mkThread op (Load s k)) →
    pool_step (mkPool d ts g) (mkPool d (advance i op (k (Err e)) ts) g)
| step_cas d ts g i op s n r k :
    ts !! i = Some (mkThread op (Cas s n r k)) → current_revision d s = n →
    pool_step (mkPool d ts g)
      (mkPool (<[s := r]> d) (advance i op (k (Ok (Inst r))) ts) (g ++ [(i, r)]))
| step_cas_lost d ts g i op s n r k e :
    ts !! i = Some (mkThread op (Cas s n r k)) → current_revision d s = n →
    pool_step (mkPool d ts g)
      (mkPool (<[s := r]> d) (advance i op (k (Err e)) ts) (g ++ [(i, r)]))
| step_cas_error d ts g i op s n r k e :
    ts !! i = Some (mkThread op (Cas s n r k)) →
    pool_step (mkPool d ts g) (mkPool d (advance i op (k (Err e)) ts) g).

Definition pool_reachable (p : pool) : Prop := rtc pool_step empty_pool p.
End pool.


(** ** What a call may do

    [allowed seen n r]: a worker that has read the leases [seen] may swap
    revision [n] for [r]. *)

Section legality.
Context `{U : Unicode}.

Definition with_route (s : ProviderRequestSubject) (r : pystr) (o : Z) : ProviderRequestSubject :=
  mkSubject (attempt s) (iteration s) (envelope_sha256 s) r o.

(** A failure that may be retried: durable, retryable, transient, nothing shown. *)
Definition retry_ready (l : ProviderRequestLease) : Prop :=
  status l = FAILED ∧ retryable l = true ∧ visible_output l = false
  ∧ classification l = u "transient".

(** A failure that opens the fallback route. *)
Definition fallback_ready (l : ProviderRequestLease) : Prop :=
  status l = FAILED ∧ retryable l = true ∧ visible_output l = false
  ∧ classification l = u "previous_response_fallback".

(** Why a subject may be claimed. *)
Definition justified (seen : list ProviderRequestLease) (s : ProviderRequestSubject) : Prop :=
  (route s = u "primary" ∧ retry_ordinal s = 0%Z) ∨
  (∃ l, l ∈ seen ∧ retry_ready l ∧ (retry_ordinal (subject l) < MAX_PROVIDER_REQUEST_RETRY_ORDINAL)%Z
        ∧ s = with_route (subject l) (route (subject l)) (retry_ordinal (subject l) + 1)) ∨
  (∃ l, l ∈ seen ∧ fallback_ready l ∧ route (subject l) = u "primary"
        ∧ retry_ordinal (subject l) = 0%Z
        ∧ s = with_route (subject l) (u "openai_previous_response_fallback") 0).

Definition fresh (l : ProviderRequestLease) : Prop :=
  status l = STARTED ∧ revision l = 1%Z ∧ uncertainty_diagnostic l = None
  ∧ visible_output l = false ∧ retryable l = false ∧ classification l = []
  ∧ result_binding l = None.

(** The only successors of a lease: its request was started, and it becomes
    failed, or completed with the digest of the lease it replaces, or its
    uncertainty is recorded. *)
Definition evolves (l l' : ProviderRequestLease) : Prop :=
  subject l' = subject l ∧ route_sha256 l' = route_sha256 l ∧ status l = STARTED
  ∧ revision l' = (revision l + 1)%Z
  ∧ (status l' = STARTED → uncertainty_diagnostic l = None)
  ∧ (status l' = COMPLETED →
     ∃ h, lease_sha256 l = Ok h ∧ predecessor_sha256 l' = Some h ∧ result_binding l' ≠ None).

Definition allowed (seen : list ProviderRequestLease) (n : Z) (r : ProviderRequestLease) : Prop :=
  wf_subject (subject r) ∧ revision r = (n + 1)%Z ∧
  ((n = 0%Z ∧ fresh r ∧ justified seen (subject r)) ∨
   (∃ l, l ∈ seen ∧ revision l = n ∧ (1 ≤ revision l)%Z ∧ evolves l r)).

(** A program all of whose swaps are allowed, whatever the port answers, and
    whose result, when it returns one, satisfies [Q] of the leases it has read,
    the swaps it was told took place, and the result. *)
Fixpoint legal {A} (seen mine : list ProviderRequestLease) (p : prog A)
    (Q : list ProviderRequestLease → list ProviderRequestLease → A → Prop) : Prop :=
  match p with
  | Done (Ok a) => Q seen mine a
  | Done (Err _) => True
  | Load s k =>
      legal seen mine (k (Ok None)) Q ∧
      (∀ e, legal seen mine (k (Err e)) Q) ∧
      (∀ l, subject l = s → wf_subject s → (1 ≤ revision l)%Z →
            legal (l :: seen) mine (k (Ok (Some (Inst l)))) Q)
  | Cas s n r k =>
      s = subject r ∧ allowed seen n r ∧
      (∀ e, legal seen mine (k (Err e)) Q) ∧
      legal seen (r :: mine) (k (Ok (Inst r))) Q
  end.

Lemma legal_bind {A B} seen mine (p : prog A) (f : A → prog B) Q :
  legal seen mine p (λ seen mine a, legal seen mine (f a) Q) → legal seen mine (p ≫= f) Q.
Proof.
  revert seen mine. induction p as [[a|e]|s k IH|s n r k IH]; intros seen mine; simpl; try done.
  - intros (H0 & He & Hl). split_and!; [by apply IH|intros e; by apply IH|].
    intros l Hs Hwf Hr. apply IH. by apply Hl.
  - intros (Hs & Ha & He & Hr). split_and!; [done..|intros e; by apply IH|by apply IH].
Qed.

Lemma legal_mono {A} seen mine (p : prog A) (Q Q' : _ → _ → A → Prop) :
  (∀ seen mine a, Q seen mine a → Q' seen mine a) → legal seen mine p Q → legal seen mine p Q'.
Proof.
  intros HQ. revert seen mine.
  induction p as [[a|e]|s k IH|s n r k IH]; intros seen mine; simpl; try done; [by apply HQ|..].
  - intros (H0 & He & Hl). split_and!; [by apply IH|intros e; by apply IH|].
    intros l Hs Hwf Hr. apply IH. by apply Hl.
  - intros (Hs & Ha & He & Hr). split_and!; [done..|intros e; by apply IH|by apply IH].
Qed.

Lemma legal_require seen mine (b : bool) e Q :
  (b = true → Q seen mine tt) → legal seen mine (require b e) Q.
Proof. unfold require, ensure. destruct b; simpl; auto. Qed.

Lemma legal_done {A} seen mine (r : R A) (Q : _ → _ → A → Prop) :
  (∀ a, r = Ok a → Q seen mine a) → legal seen mine (Done r) Q.
Proof. destruct r; simpl; auto. Qed.

Lemma legal_load seen mine s (Q : _ → _ → option ProviderRequestLease → Prop) :
  Q seen mine None →
  (∀ l, subject l = s → wf_subject s → (1 ≤ revision l)%Z → Q (l :: seen) mine (Some l)) →
  legal seen mine (_load s) Q.
Proof.
  intros HN HS. unfold _load. apply legal_bind. simpl. split_and!; [done..|].
  intros l Hs Hwf Hr. rewrite decide_True by done. simpl. auto.
Qed.

Lemma legal_current seen mine x (Q : _ → _ → ProviderRequestLease → Prop) :
  (∀ l, wf_subject (subject l) → (1 ≤ revision l)%Z → Q (l :: seen) mine l) →
  legal seen mine (_current x) Q.
Proof.
  intros HQ. destruct x as [l|v]; [|done]. apply legal_bind, legal_load; [done|].
  intros l' Hs Hwf Hr. case_decide; [|done]. subst l'. simpl. auto.
Qed.

Lemma legal_cas seen mine n r (Q : _ → _ → ProviderRequestLease → Prop) :
  allowed seen n r → Q seen (r :: mine) r → legal seen mine (_cas n r) Q.
Proof.
  intros Ha HQ. apply legal_bind. simpl. split_and!; [done..|].
  rewrite decide_True by done. done.
Qed.
End legality.

(** Enter the next call of a coordinator method. *)
Ltac legal_step :=
  lazymatch goal with
  | |- legal _ _ (mbind _ (_current _)) _ =>
      apply legal_bind, legal_current; intros ???
  | |- legal _ _ (mbind _ (require _ _)) _ =>
      apply legal_bind, legal_require; intros ?; bsimpl
  | |- legal _ _ (mbind _ (Done _)) _ => apply legal_bind, legal_done; intros ??
  end.

Section operations.
Context `{U : Unicode} `{!UnicodeLaws U}.

(** A claim returns the lease it swapped in itself. *)
Definition claimed (seen mine : list ProviderRequestLease) (l : ProviderRequestLease) : Prop :=
  l ∈ mine ∧ revision l = 1%Z.

Lemma made_fresh s h op r :
  make_ProviderRequestLease
    (mkArgs (Inst s) h (Inst STARTED) (VInt 1) (VBool false) (VBool false) (VStr []) op
            (Val VNone) VNone (Val VNone) (Val VNone)) = Ok r →
  wf_subject s → fresh r ∧ subject r = s.
Proof.
  intros [_ Hu Hs _ Hst _ _ Hr Hv Hrt Hc _ Hb _ _]%make_lease_made Hwf. unfold wf_subject in Hwf.
  cbn in *. rewrite Hwf in Hs. 
  change (Ok (E:=pyexn) 1%Z = Ok (revision r)) in Hr.
  change (Ok (E:=pyexn) ([] : pystr) = Ok (classification r)) in Hc.
  change (Ok (E:=pyexn) None = Ok (result_binding r)) in Hb.
  unfold fresh. split_and!; congruence.
Qed.

Lemma legal_claim seen mine s h op :
  wf_subject s → justified seen s → legal seen mine (_claim s h op) claimed.
Proof.
  intros Hwf Hj. apply legal_bind, legal_load; [|done]. legal_step.
  apply made_fresh in H as [Hf Hs]; [|done].
  assert (revision a = 1%Z) as Hr by by destruct Hf as (_ & ? & _).
  apply legal_cas.
  - split_and!; [by rewrite Hs|lia|]. left. split_and!; [done..|by rewrite Hs].
  - split; [left|done].
Qed.

Lemma made_fields s h st n v rt c op b p fd ud r :
  make_ProviderRequestLease
    (mkArgs (Inst s) (VStr h) (Inst st) (VInt n) v rt c op b p fd ud) = Ok r →
  wf_subject s →
  subject r = s ∧ route_sha256 r = h ∧ status r = st ∧ revision r = n
  ∧ parse_predecessor p = Ok (predecessor_sha256 r) ∧ lease_consistent r = true.
Proof.
  intros [_ _ Hs Hh Hst _ _ Hr _ _ _ _ _ Hp Hc]%make_lease_made Hwf. unfold wf_subject in Hwf.
  cbn in *. rewrite Hwf in Hs. unfold _sha256, _positive_revision in *.
  repeat case_match; try done. split_and!; congruence.
Qed.

(** A replacement built from the lease that was read is an allowed successor. *)
Lemma allowed_successor seen l st v rt c op b p fd ud r :
  l ∈ seen → wf_subject (subject l) → (1 ≤ revision l)%Z → status l = STARTED →
  (st = STARTED → uncertainty_diagnostic l = None) →
  (st = COMPLETED → ∃ h, lease_sha256 l = Ok h ∧ p = VStr h) →
  make_ProviderRequestLease
    (mkArgs (Inst (subject l)) (VStr (route_sha256 l)) (Inst st) (VInt (revision l + 1))
            v rt c op b p fd ud) = Ok r →
  allowed seen (revision l) r.
Proof.
  intros Hin Hwf Hr Hst Hunc Hpre (Hs & Hh & Hst' & Hrev & Hp & Hc)%made_fields; [|done].
  split_and!; [by rewrite Hs|done|]. right. exists l. split_and!; [done..|].
  split_and!; [done..|by rewrite Hst'|]. rewrite Hst'. intros Hcomp.
  destruct (Hpre Hcomp) as (h & Hh' & ->). exists h. split; [done|].
  unfold parse_predecessor, _sha256 in Hp. cbn in Hp. split.
  - repeat case_match; simplify_eq/=; congruence.
  - unfold lease_consistent in Hc. rewrite Hst', Hcomp in Hc. bsimpl. by destruct (result_binding r).
Qed.

Definition any (seen mine : list ProviderRequestLease) (l : ProviderRequestLease) : Prop := True.

Lemma legal_record_failure l c r v o d : legal [] [] (record_failure l c r v o d) any.
Proof.
  unfold record_failure. repeat legal_step. apply legal_cas; [|done].
  eapply allowed_successor; try done; [by left|by intros..].
Qed.

Lemma legal_record_uncertainty l d o : legal [] [] (record_uncertainty l d o) any.
Proof.
  unfold record_uncertainty. repeat legal_step. apply legal_cas; [|done].
  eapply allowed_successor; try done; [by left|by intros..].
Qed.

Lemma legal_record_completed_result l b v o : legal [] [] (record_completed_result l b v o) any.
Proof.
  unfold record_completed_result. destruct l as [l|]; [|done]. destruct b as [b|]; [|done].
  legal_step. apply legal_bind, legal_load; [done|]. intros cur Hs Hwf Hr.
  do 2 legal_step. case_decide; [done|]. case_decide as Hne; [done|]. subst cur.
  legal_step. apply legal_cas; [|done]. eapply allowed_successor; try done; [by left|by intros|by eauto].
Qed.

Lemma make_subject_fields a i e r o s :
  make_ProviderRequestSubject a i e (VStr r) (VInt o) = Ok s → route s = r ∧ retry_ordinal s = o.
Proof.
  unfold make_ProviderRequestSubject. intros H.
  do 4 (apply result_bind_ok in H as (? & ? & H)). apply result_bind_ok in H as (? & ? & H).
  apply result_bind_ok in H as (o' & Ho & H). injection H as <-. simpl.
  match goal with H : _canonical_text _ _ = Ok _ |- _ => apply canonical_stable in H end.
  unfold RequestLease._bounded_int in Ho. simplify_eq. case_match; by simplify_eq.
Qed.

(** The subject of a follow-up request differs from its predecessor's only in
    the route and the ordinal. *)
Lemma follow_up_subject s r o s' :
  wf_subject s →
  make_ProviderRequestSubject (Inst (attempt s)) (VInt (iteration s)) (VStr (envelope_sha256 s))
    (VStr r) (VInt o) = Ok s' → s' = with_route s r o.
Proof.
  unfold wf_subject. rewrite subject_record. intros (a & Ha & Hs)%result_bind_ok H.
  destruct (make_subject_fields _ _ _ _ _ _ H) as [Hr Ho].
  unfold make_ProviderRequestSubject in *. simpl in *.
  apply result_bind_ok in H as (a1 & Ha1 & H). apply result_bind_ok in H as (i1 & Hi1 & H).
  apply result_bind_ok in H as (e1 & He1 & H). do 3 (apply result_bind_ok in H as (? & _ & H)).
  apply result_bind_ok in Hs as (a2 & Ha2 & Hs). apply result_bind_ok in Hs as (i2 & Hi2 & Hs).
  apply result_bind_ok in Hs as (e2 & He2 & Hs). do 3 (apply result_bind_ok in Hs as (? & _ & Hs)).
  injection H as <-. simpl in *. subst. unfold with_route.
  assert (attempt s = a2 ∧ iteration s = i2 ∧ envelope_sha256 s = e2) as (? & ? & ?)
    by (injection Hs as Hs; rewrite <-Hs; done).
  assert (a2 = a) by (apply AttemptRef_from_dict_wf in Ha; unfold wf_AttemptRef in Ha; congruence).
  congruence.
Qed.

Lemma legal_claim_initial a i e r h o : legal [] [] (claim_initial a i e r h o) claimed.
Proof.
  unfold claim_initial. do 2 legal_step. apply legal_claim; [by eapply make_subject_wf|]. left.
  destruct r; try done. simpl in *. bsimpl. subst. by eapply make_subject_fields.
Qed.

Lemma legal_claim_retry l o : legal [] [] (claim_retry l o) claimed.
Proof.
  unfold claim_retry. do 7 legal_step. apply legal_claim; [by eapply make_subject_wf|].
  right; left. exists l0. split_and!; [by left|done..|]. by eapply follow_up_subject.
Qed.

Lemma legal_claim_fallback l h o : legal [] [] (claim_openai_fallback l h o) claimed.
Proof.
  unfold claim_openai_fallback. do 3 legal_step. apply legal_claim; [by eapply make_subject_wf|].
  right; right. exists l0. split_and!; [by left|done..|]. by eapply follow_up_subject.
Qed.

(** Every method of the coordinator keeps to the rules. *)
Lemma legal_op op :
  legal [] [] (op_prog op) (λ seen mine l, is_claim op = true → claimed seen mine l).
Proof.
  destruct op; simpl.
  - eapply legal_mono, legal_claim_initial. done.
  - eapply legal_mono, legal_record_failure. done.
  - eapply legal_mono, legal_record_uncertainty. done.
  - done.
  - eapply legal_mono, legal_record_completed_result. done.
  - eapply legal_mono, legal_claim_retry. done.
  - eapply legal_mono, legal_claim_fallback. done.
Qed.
End operations.
