(* ===== verification/RequestSafety.v ===== *)
(** * Safety of provider requests under concurrency

    Any number of workers call the coordinator ([RequestCoordinator]) on one
    store, interleaved at every port call, with failing ports, crashed workers
    and swaps whose answer is lost.  The invariant of the store and of the
    calls in progress, and what follows: a request is sent by one worker, a
    lease only moves forward, a retry has a durable justification. *)

From S2P Require Import Prelude PyVal Models Diagnostics RequestLease RequestCoordinator.

Section pools.
Context `{U : Unicode} `{!UnicodeLaws U}.

(** The calls in progress keep to the rules, from what they have read and
    swapped so far. *)
Definition thread_ok (g : list (nat * ProviderRequestLease)) (i : nat) (t : thread) : Prop :=
  ∃ seen mine,
    legal seen mine (t_prog t) (λ seen mine l, is_claim (t_op t) = true → claimed seen mine l) ∧
    (∀ l, l ∈ seen → l ∈ g.*2) ∧ (∀ l, l ∈ mine → (i, l) ∈ g).

Record pool_inv (p : pool) : Prop := {
  (** the store holds leases that were swapped in *)
  inv_durable s l : durable p !! s = Some l → subject l = s ∧ l ∈ (log p).*2;
  (** and the newest of each subject *)
  inv_latest l : l ∈ (log p).*2 →
    ∃ l', durable p !! subject l = Some l' ∧ (revision l ≤ revision l')%Z;
  (** a revision of a subject is written once *)
  inv_unique i j x y : log p !! i = Some x → log p !! j = Some y →
    subject x.2 = subject y.2 → revision x.2 = revision y.2 → i = j;
  inv_wf l : l ∈ (log p).*2 → wf_subject (subject l) ∧ (1 ≤ revision l)%Z;
  (** a lease that is not started any more is the last of its subject *)
  inv_terminal l : l ∈ (log p).*2 → status l ≠ STARTED → durable p !! subject l = Some l;
  inv_justified l : l ∈ (log p).*2 → justified (log p).*2 (subject l);
  inv_threads i t : threads p !! i = Some t → thread_ok (log p) i t;
}.

Lemma inv_empty : pool_inv empty_pool.
Proof. split; simpl; try (intros; set_solver); done. Qed.

(** Two leases of the log with one subject and one revision are the same. *)
Lemma log_inj p l l' :
  pool_inv p → l ∈ (log p).*2 → l' ∈ (log p).*2 → subject l = subject l' →
  revision l = revision l' → l = l'.
Proof.
  intros Hi [x [-> Hx]]%list_elem_of_fmap [y [-> Hy]]%list_elem_of_fmap Hs Hr.
  apply list_elem_of_lookup in Hx as [i Hx], Hy as [j Hy].
  assert (i = j) as -> by by eapply (inv_unique _ Hi). congruence.
Qed.

Lemma justified_mono g g' s : g ⊆ g' → justified g s → justified g' s.
Proof. unfold justified. intros Hg [?|[(l & ? & ?)|(l & ? & ?)]]; [by left|right; left|right; right]; eauto. Qed.

(** No stale swap: what a successful compare-and-swap replaces is exactly the
    lease its caller had read, although only the revision is compared. *)
Lemma swap_spec p i op s r k :
  pool_inv p → threads p !! i = Some (mkThread op (Cas s (current_revision (durable p) s) r k)) →
  s = subject r ∧ wf_subject s ∧ revision r = (current_revision (durable p) s + 1)%Z ∧
  ((durable p !! s = None ∧ fresh r ∧ justified (log p).*2 s) ∨
   ∃ l, durable p !! s = Some l ∧ evolves l r).
Proof.
  intros Hi Ht. destruct (inv_threads _ Hi _ _ Ht) as (seen & mine & Hl & Hseen & Hmine).
  simpl in Hl. destruct Hl as (-> & (Hwf & Hrev & Hcase) & _). split_and!; [done..|].
  unfold current_revision in *.
  destruct Hcase as [(Hn & Hf & Hj)|(l & Hin & Hr & Hr1 & Hev)].
  - left. destruct (durable p !! subject r) as [l|] eqn:Hd.
    + apply (inv_durable _ Hi) in Hd as [_ Hd]. apply (inv_wf _ Hi) in Hd. lia.
    + split_and!; [done..|]. by eapply justified_mono.
  - right. apply Hseen in Hin. assert (subject r = subject l) as Hs by apply Hev. rewrite Hs in *.
    destruct (inv_latest _ Hi _ Hin) as (l' & Hd & _). rewrite Hd in Hr.
    destruct (inv_durable _ Hi _ _ Hd) as [Hs' Hin']. exists l. split; [|done].
    rewrite Hd. f_equal. by apply (log_inj p).
Qed.

(** ** The invariant is kept *)

Lemma thread_ok_log g g' i t : g ⊆ g' → thread_ok g i t → thread_ok g' i t.
Proof.
  intros Hg (seen & mine & Hl & Hs & Hm). exists seen, mine. split_and!; [done| |auto].
  intros l Hin. apply Hs, list_elem_of_fmap in Hin as (x & -> & Hx).
  apply list_elem_of_fmap_2. auto.
Qed.

Section swap.
Context (p : pool) (i : nat) (r : ProviderRequestLease).
Hypothesis Hi : pool_inv p.
Hypothesis Hwf : wf_subject (subject r).
Hypothesis Hrev : revision r = (current_revision (durable p) (subject r) + 1)%Z.
Hypothesis Hcase :
  (durable p !! subject r = None ∧ fresh r ∧ justified (log p).*2 (subject r)) ∨
  ∃ l, durable p !! subject r = Some l ∧ evolves l r.

Lemma swap_newer l :
  l ∈ (log p).*2 → subject l = subject r → (revision l < revision r)%Z.
Proof.
  intros (l' & Hd & Hle)%(inv_latest _ Hi) Hs. rewrite Hs in Hd.
  unfold current_revision in Hrev. rewrite Hd in Hrev. lia.
Qed.

Lemma swap_positive : (1 ≤ revision r)%Z.
Proof.
  rewrite Hrev. unfold current_revision. destruct (durable p !! subject r) as [l|] eqn:Hd; [|lia].
  apply (inv_durable _ Hi) in Hd as [_ [_ ?]%(inv_wf _ Hi)]. lia.
Qed.

Lemma swap_log l : l ∈ (log p ++ [(i, r)]).*2 ↔ l ∈ (log p).*2 ∨ l = r.
Proof. rewrite fmap_app, elem_of_app. simpl. by rewrite list_elem_of_singleton. Qed.

Lemma swap_unique a b x y :
  (log p ++ [(i, r)]) !! a = Some x → (log p ++ [(i, r)]) !! b = Some y →
  subject x.2 = subject y.2 → revision x.2 = revision y.2 → a = b.
Proof.
  assert (∀ c z, log p !! c = Some z → z.2 ∈ (log p).*2) as Hin
    by (intros c z Hz; apply list_elem_of_fmap_2; by eapply list_elem_of_lookup_2).
  rewrite !lookup_app_Some, !list_lookup_singleton_Some.
  intros [Ha|(Ha & Ha' & <-)] [Hb|(Hb & Hb' & <-)] Hs Hr; simpl in *.
  - by eapply (inv_unique _ Hi).
  - apply Hin, swap_newer in Ha; [lia|done].
  - symmetry in Hs. apply Hin, swap_newer in Hb; [lia|done].
  - lia.
Qed.

Lemma swap_terminal l :
  l ∈ (log p).*2 → status l ≠ STARTED → subject l ≠ subject r.
Proof.
  intros Hl Hst Hs. assert (Hd := inv_terminal _ Hi _ Hl Hst). rewrite Hs in Hd.
  destruct Hcase as [(? & _)|(l' & Hd' & Hev)]; [congruence|].
  assert (l' = l) as -> by congruence. by destruct Hev as (_ & _ & ? & _).
Qed.

Lemma inv_swap :
  pool_inv (mkPool (<[subject r := r]> (durable p)) (threads p) (log p ++ [(i, r)])).
Proof.
  assert ((log p).*2 ⊆ (log p ++ [(i, r)]).*2) as Hsub by (intros l ?; apply swap_log; by left).
  split; simpl; setoid_rewrite swap_log || idtac.
  - intros s l. destruct (decide (s = subject r)) as [->|Hne].
    + rewrite lookup_insert_eq. intros [= <-]. auto.
    + rewrite lookup_insert_ne by done. intros [??]%(inv_durable _ Hi). auto.
  - intros l [Hl| ->]; [|exists r; by rewrite lookup_insert_eq].
    destruct (decide (subject l = subject r)) as [Hs|Hne].
    + exists r. rewrite Hs, lookup_insert_eq. split; [done|]. apply swap_newer in Hs; [lia|done].
    + rewrite lookup_insert_ne by done. by apply (inv_latest _ Hi).
  - apply swap_unique.
  - intros l [Hl| ->]; [by apply (inv_wf _ Hi)|]. split; [done|apply swap_positive].
  - intros l [Hl| ->] Hst; [|by rewrite lookup_insert_eq].
    assert (Hne := swap_terminal _ Hl Hst). rewrite lookup_insert_ne by done. by apply (inv_terminal _ Hi).
  - intros l Hl. eapply justified_mono; [done|]. destruct Hl as [Hl| ->]; [by apply (inv_justified _ Hi)|].
    destruct Hcase as [(_ & _ & ?)|(l & Hd & _)]; [done|].
    apply (inv_durable _ Hi) in Hd as [<- Hd]. by apply (inv_justified _ Hi).
  - intros a t Ht. eapply thread_ok_log, (inv_threads _ Hi), Ht. set_solver.
Qed.
End swap.

Lemma inv_advance p i op q :
  pool_inv p → thread_ok (log p) i (mkThread op q) →
  pool_inv (mkPool (durable p) (advance i op q (threads p)) (log p)).
Proof.
  intros Hi Ht. destruct Hi. split; simpl; [done..|]. intros j t.
  unfold advance. rewrite list_lookup_insert_Some. intros [(<- & <- & _)|[_ ?]]; [done|eauto].
Qed.

(** A swap that took place, whether or not its caller was told. *)
Lemma inv_cas p i op s n r k q :
  pool_inv p → threads p !! i = Some (mkThread op (Cas s n r k)) →
  current_revision (durable p) s = n → (q = k (Ok (Inst r)) ∨ ∃ e, q = k (Err e)) →
  pool_inv (mkPool (<[s := r]> (durable p)) (advance i op q (threads p)) (log p ++ [(i, r)])).
Proof.
  intros Hi Ht <- Hq. destruct (swap_spec _ _ _ _ _ _ Hi Ht) as (-> & Hwf & Hrev & Hcase).
  apply (inv_advance (mkPool _ (threads p) (log p ++ [(i, r)]))); [by apply inv_swap|]. simpl.
  destruct (inv_threads _ Hi _ _ Ht) as (seen & mine & (_ & _ & He & Hk) & Hs & Hm).
  assert (∀ l, l ∈ seen → l ∈ (log p ++ [(i, r)]).*2) as Hs'
    by (intros l Hl; apply swap_log; left; auto).
  destruct Hq as [->|[e ->]].
  - exists seen, (r :: mine). split_and!; [done..|].
    intros l [->|Hl]%elem_of_cons; apply elem_of_app; [right; by left|left; auto].
  - exists seen, mine. split_and!; [apply He|done|]. intros l Hl. apply elem_of_app. auto.
Qed.

(** A load that answered, or a port call that raised. *)
Lemma inv_load p i op s k q :
  pool_inv p → threads p !! i = Some (mkThread op (Load s k)) →
  (q = k (Ok (Inst <$> durable p !! s)) ∨ ∃ e, q = k (Err e)) →
  pool_inv (mkPool (durable p) (advance i op q (threads p)) (log p)).
Proof.
  intros Hi Ht Hq. apply inv_advance; [done|].
  destruct (inv_threads _ Hi _ _ Ht) as (seen & mine & (H0 & He & Hl) & Hs & Hm).
  destruct Hq as [->|[e ->]]; [|exists seen, mine; split_and!; [apply He|done..]].
  destruct (durable p !! s) as [l|] eqn:Hd; [|by exists seen, mine].
  apply (inv_durable _ Hi) in Hd as [Hsub Hin]. destruct (inv_wf _ Hi _ Hin) as [Hwf Hr].
  exists (l :: seen), mine. split_and!; [apply Hl; by subst| |done].
  intros l' [->|?]%elem_of_cons; auto.
Qed.

Lemma inv_start p op :
  pool_inv p →
  pool_inv (mkPool (durable p) (threads p ++ [mkThread op (op_prog op)]) (log p)).
Proof.
  intros Hi. split; simpl; try apply Hi. intros i t.
  rewrite lookup_app_Some, list_lookup_singleton_Some.
  intros [Ht|(_ & _ & <-)]; [by apply (inv_threads _ Hi)|].
  exists [], []. split_and!; [apply legal_op|set_solver..].
Qed.

Lemma pool_step_inv p p' : pool_inv p → pool_step p p' → pool_inv p'.
Proof.
  intros Hi Hstep. destruct Hstep as [d ts g op|d ts g i op s k Ht|d ts g i op s k e Ht
    |d ts g i op s n r k Ht Hn|d ts g i op s n r k e Ht Hn|d ts g i op s n r k e Ht].
  - by apply (inv_start (mkPool d ts g)).
  - eapply (inv_load (mkPool d ts g)); eauto.
  - eapply (inv_load (mkPool d ts g)); eauto.
  - eapply (inv_cas (mkPool d ts g)); eauto.
  - eapply (inv_cas (mkPool d ts g)); eauto.
  - apply (inv_advance (mkPool d ts g)); [done|].
    destruct (inv_threads _ Hi _ _ Ht) as (seen & mine & (_ & _ & He & _) & Hs & Hm).
    exists seen, mine. split_and!; [apply He|done..].
Qed.

Lemma reachable_inv p : pool_reachable p → pool_inv p.
Proof.
  intros H. unfold pool_reachable in H. remember empty_pool as q eqn:Hq.
  assert (pool_inv q) as Hinv by (subst; apply inv_empty). clear Hq.
  induction H as [|p1 p2 p3 Hstep _ IH]; [done|]. apply IH. by eapply pool_step_inv.
Qed.

(** ** What holds of every run *)

(** What one step does to the store. *)
Lemma step_durable p p' s :
  pool_inv p → pool_step p p' →
  durable p' !! s = durable p !! s ∨
  (∃ l, durable p !! s = None ∧ durable p' !! s = Some l ∧ fresh l ∧ justified (log p).*2 s) ∨
  (∃ l l', durable p !! s = Some l ∧ durable p' !! s = Some l' ∧ evolves l l').
Proof.
  intros Hi Hstep. destruct Hstep as [d ts g op|d ts g i op s' k Ht|d ts g i op s' k e Ht
    |d ts g i op s' n r k Ht Hn|d ts g i op s' n r k e Ht Hn|d ts g i op s' n r k e Ht];
    simpl; try by left.
  all: destruct (decide (s' = s)) as [->|Hne]; [|left; by rewrite lookup_insert_ne].
  all: rewrite lookup_insert_eq; subst n;
    destruct (swap_spec (mkPool d ts g) _ _ _ _ _ Hi Ht) as (Hs & _ & _ & [(?&?&?)|(l&?&?)]);
    right; [left|right]; eauto 6.
Qed.

(** C32. The durable lease of a request only moves forward, whatever the
    interleaving of workers, port failures, crashes and lost answers: a step
    leaves it alone, or claims it for the first time as a fresh started lease
    with a justification, or replaces a started lease by its successor, one
    revision later, with the same subject and route; a completed successor
    carries a result and the digest of the lease it replaces.  In particular a
    failed or completed lease never changes. *)
Theorem request_lease_moves_forward (p p' : pool) (s : ProviderRequestSubject) :
  pool_reachable p → pool_step p p' →
  durable p' !! s = durable p !! s ∨
  (∃ l, durable p !! s = None ∧ durable p' !! s = Some l ∧ fresh l ∧ justified (log p).*2 s) ∨
  (∃ l l', durable p !! s = Some l ∧ durable p' !! s = Some l' ∧ evolves l l').
Proof. intros Hp Hs. apply step_durable; [by apply reachable_inv|done]. Qed.

Lemma claims_distinct (p : pool) (i j : nat) (op op' : request_op) (l l' : ProviderRequestLease) :
  pool_reachable p → is_claim op = true → is_claim op' = true →
  threads p !! i = Some (mkThread op (Done (Ok l))) →
  threads p !! j = Some (mkThread op' (Done (Ok l'))) →
  subject l = subject l' → i = j.
Proof.
  intros Hi%reachable_inv Ho Ho' Ht Ht' Hs.
  apply (inv_threads _ Hi) in Ht as (? & mine & Hl & _ & Hm), Ht' as (? & mine' & Hl' & _ & Hm').
  simpl in *. destruct (Hl Ho) as [Hin Hr], (Hl' Ho') as [Hin' Hr'].
  apply Hm, list_elem_of_lookup in Hin as [a Ha]. apply Hm', list_elem_of_lookup in Hin' as [b Hb].
  assert (a = b) as -> by (apply (inv_unique _ Hi a b _ _ Ha Hb); simpl; congruence). congruence.
Qed.

(** One send per request: two different calls that claim a request, by
    initial claim, retry or fallback, never both return with the same
    subject.  The worker that returned is the only one allowed to send. *)
Theorem one_claim_per_request (p : pool) (i j : nat) (op op' : request_op)
    (l l' : ProviderRequestLease) :
  pool_reachable p → is_claim op = true → is_claim op' = true →
  threads p !! i = Some (mkThread op (Done (Ok l))) →
  threads p !! j = Some (mkThread op' (Done (Ok l'))) →
  subject l = subject l' → i = j.
Proof. apply claims_distinct. Qed.

Lemma wf_subject_ordinal s :
  wf_subject s → (0 ≤ retry_ordinal s ≤ MAX_PROVIDER_REQUEST_RETRY_ORDINAL)%Z.
Proof.
  unfold wf_subject. rewrite subject_record. intros (a & _ & H)%result_bind_ok.
  unfold make_ProviderRequestSubject in H. do 5 (apply result_bind_ok in H as (? & _ & H)).
  apply result_bind_ok in H as (o & Ho & H). injection H as <-. simpl in *.
  unfold RequestLease._bounded_int in Ho. case_match; [|done]. bsimpl. simplify_eq. lia.
Qed.

Lemma with_route_id s : with_route s (route s) (retry_ordinal s) = s.
Proof. by destruct s. Qed.

Lemma retries_justified p n s l :
  pool_inv p → durable p !! s = Some l → Z.to_nat (retry_ordinal s) = n →
  (∀ m, (0 ≤ m < retry_ordinal s)%Z →
     ∃ l', durable p !! with_route s (route s) m = Some l' ∧ retry_ready l') ∧
  (route s ≠ u "primary" →
     ∃ l', durable p !! with_route s (u "primary") 0 = Some l' ∧ fallback_ready l').
Proof.
  intros Hi. revert s l. induction (lt_wf n) as [n _ IH]. intros s l Hd Hn.
  destruct (inv_durable _ Hi _ _ Hd) as [Hs Hin]. rewrite <-Hs in *.
  destruct (inv_justified _ Hi _ Hin) as [[Hr Ho]|[(l0 & Hin0 & Hrd & Ho & Heq)|(l0 & Hin0 & Hf & Hr & Ho & Heq)]].
  - split; [intros m; lia|done].
  - assert (durable p !! subject l0 = Some l0) as Hd0
      by (apply (inv_terminal _ Hi); [done|]; destruct Hrd as (-> & _); done).
    assert (Hb := wf_subject_ordinal _ (proj1 (inv_wf _ Hi _ Hin0))).
    assert (retry_ordinal (subject l) = retry_ordinal (subject l0) + 1)%Z as Hord by by rewrite Heq.
    destruct (IH (Z.to_nat (retry_ordinal (subject l0))) ltac:(lia) _ _ Hd0 eq_refl) as [IH1 IH2].
    rewrite Heq. simpl. split; [|done]. intros m Hm.
    destruct (decide (m = retry_ordinal (subject l0))) as [->|Hne].
    + exists l0. unfold with_route at 1. simpl. fold (with_route (subject l0) (route (subject l0)) (retry_ordinal (subject l0))). by rewrite with_route_id.
    + apply IH1. lia.
  - assert (durable p !! subject l0 = Some l0) as Hd0
      by (apply (inv_terminal _ Hi); [done|]; destruct Hf as (-> & _); done).
    rewrite Heq. simpl. split; [intros m; lia|]. intros _. exists l0. split; [|done].
    rewrite <-Hd0. f_equal. destruct (subject l0). simpl in *. by subst.
Qed.

(** C33. A retry has a durable justification: when a request of ordinal [n] has
    a lease, every lower ordinal of the same route is durably failed,
    retryable, transient and has shown no output; and a request on the
    fallback route means that the first request on the primary route failed
    with the fallback classification.  All this stays so, since failed leases
    never change. *)
Theorem retries_are_durably_justified (p : pool) (s : ProviderRequestSubject)
    (l : ProviderRequestLease) :
  pool_reachable p → durable p !! s = Some l →
  (∀ m, (0 ≤ m < retry_ordinal s)%Z →
     ∃ l', durable p !! with_route s (route s) m = Some l' ∧ retry_ready l') ∧
  (route s ≠ u "primary" →
     ∃ l', durable p !! with_route s (u "primary") 0 = Some l' ∧ fallback_ready l').
Proof. intros Hp Hd. eapply retries_justified; [by apply reachable_inv|done..]. Qed.

(** ** A call alone on the store *)

Lemma run_bind {A B} (m : prog A) (f : A → prog B) d :
  run (m ≫= f) d =
  match run m d with
  | (Ok a, d') => run (f a) d'
  | (Err e, d') => (Err e, d')
  end.
Proof.
  revert d. induction m as [[a|e]|s k IH|s n r k IH]; intros d; simpl; try done.
  case_match; by apply IH.
Qed.

(** What is filed under a subject is a lease of that subject, with a digest
    for its route. *)
Definition store_wf (d : store) : Prop :=
  ∀ s l, d !! s = Some l →
    subject l = s ∧ wf_subject s ∧ _SHA256_RE (route_sha256 l) = true.

Lemma run_load_subject d s :
  (∀ l, d !! s = Some l → subject l = s) → run (_load s) d = (Ok (d !! s), d).
Proof.
  intros Hd. unfold _load. rewrite run_bind. simpl. destruct (d !! s) as [l|] eqn:Hl; [|done].
  simpl. by rewrite decide_True by auto.
Qed.

Lemma run_load d s : store_wf d → run (_load s) d = (Ok (d !! s), d).
Proof. intros Hd. apply run_load_subject. intros l Hl. by apply Hd. Qed.

Lemma run_current d l :
  store_wf d →
  run (_current (Inst l)) d =
  (if decide (d !! subject l = Some l) then Ok l else Err ProviderRequestLeaseIntegrityError, d).
Proof.
  intros Hd. unfold _current. rewrite run_bind, run_load by done.
  destruct (d !! subject l) as [l'|]; [|by rewrite decide_False].
  repeat case_decide; simplify_eq; done.
Qed.

Lemma run_cas d n r :
  run (_cas n r) d =
  if (current_revision d (subject r) =? n)%Z then (Ok r, <[subject r := r]> d)
  else (Err ProviderRequestLeaseConflict, d).
Proof.
  unfold _cas. rewrite run_bind. simpl. destruct (_ =? _)%Z; simpl; [|done]. by rewrite decide_True.
Qed.

Lemma run_require {A} (b : bool) e (f : unit → prog A) d :
  run (require b e ≫= f) d = if b then run (f tt) d else (Err e, d).
Proof. rewrite run_bind. by destruct b. Qed.

Lemma run_done {A B} (r : R A) (f : A → prog B) d :
  run (Done r ≫= f) d = match r with Ok a => run (f a) d | Err e => (Err e, d) end.
Proof. rewrite run_bind. by destruct r. Qed.

(** Recording a completed result can be repeated: once the call has taken
    effect, the same call returns the same lease and writes nothing, so a
    caller that lost the answer of the store may simply call again. *)
Theorem completion_is_idempotent (d d' : store) (lease : arg ProviderRequestLease)
    (binding : arg ProviderTurnResultBinding) (visible : pyval) (operation : arg OperationRef)
    (l : ProviderRequestLease) :
  store_wf d →
  run (record_completed_result lease binding visible operation) d = (Ok l, d') →
  run (record_completed_result lease binding visible operation) d' = (Ok l, d').
Proof.
  intros Hd H. destruct lease as [lease|]; [|done]. destruct binding as [b|]; [|done].
  unfold record_completed_result in *. rewrite run_require in *.
  destruct (bool_decide _); [|done]. rewrite run_bind, run_load in H by done.
  destruct (d !! subject lease) as [cur|] eqn:Hcur; [|done].
  rewrite !run_done in H. destruct (lease_sha256 lease) as [h|] eqn:Hh; [|done].
  rewrite run_done in H. destruct (make_ProviderRequestLease _) as [r|] eqn:Hr in H; [|done].
  destruct (decide (cur = r)) as [->|Hne].
  - injection H as <- <-. rewrite run_bind, run_load, Hcur by done. cbv beta iota.
    rewrite !run_done, Hr. by rewrite decide_True.
  - destruct (decide (cur ≠ lease)) as [?|Heq]; [done|]. apply dec_stable in Heq. subst cur.
    destruct (Hd _ _ Hcur) as (_ & Hwf & _).
    destruct (made_fields _ _ _ _ _ _ _ _ _ _ _ _ _ Hr Hwf) as (Hs & Hh' & _).
    rewrite run_require in H. destruct (bool_decide _); [|done]. rewrite run_cas in H.
    case_match; [|done]. injection H as <- <-.
    rewrite run_bind, run_load, Hs, lookup_insert_eq.
    + cbv beta iota. rewrite !run_done, Hr. by rewrite decide_True.
    + rewrite Hs. intros s l. destruct (decide (s = subject lease)) as [->|Hns].
      * rewrite lookup_insert_eq. intros [= <-]. split_and!; [done..|].
        destruct (Hd _ _ Hcur) as (_ & _ & ?). by rewrite Hh'.
      * rewrite lookup_insert_ne by done. apply Hd.
Qed.

(** What recovery answers after any history of workers, crashes and lost
    answers: it always answers, it writes nothing, it allows an automatic
    resend exactly when no worker ever claimed the request, and it calls the
    outcome uncertain exactly when the last durable state is a started
    request. *)
Theorem recovery_is_exact (p : pool) (s : ProviderRequestSubject) :
  pool_reachable p →
  ∃ r, run (recover (Inst s)) (durable p) = (Ok r, durable p) ∧
    rc_subject r = s ∧ rc_lease r = durable p !! s ∧
    (auto_resend_allowed r = true ↔ ∀ l, l ∈ (log p).*2 → subject l ≠ s) ∧
    (rc_disposition r = UNCERTAIN ↔ ∃ l, durable p !! s = Some l ∧ status l = STARTED) ∧
    (rc_disposition r = RETRYABLE_FAILURE ↔
     ∃ l, durable p !! s = Some l ∧ status l = FAILED ∧ retryable l = true
          ∧ visible_output l = false).
Proof.
  intros Hi%reachable_inv. exists (mkRecovery s (disposition_of (durable p !! s)) (durable p !! s)).
  split_and!; try done.
  - unfold recover. rewrite run_bind, run_load_subject; [done|]. intros l. by apply (inv_durable _ Hi).
  - unfold auto_resend_allowed, disposition_of. simpl. rewrite bool_decide_eq_true. split.
    + intros Hn l Hl <-. destruct (inv_latest _ Hi _ Hl) as (l' & Hd & _). rewrite Hd in Hn.
      by repeat case_match.
    + intros Hno. destruct (durable p !! s) as [l|] eqn:Hd; [|done].
      apply (inv_durable _ Hi) in Hd as [Hs Hin]. by destruct (Hno _ Hin).
  - simpl. unfold disposition_of. split; [|intros (l & -> & ->); done].
    intros H. repeat case_match; try done. eauto.
  - simpl. unfold disposition_of. split; [|intros (l & -> & -> & -> & ->); done].
    intros H. repeat case_match; try done. bsimpl. eauto.
Qed.

(** *** Claims *)

Lemma make_follow_up s r o :
  wf_subject s → _canonical_text (VStr r) 128 = Ok r → r ∈ _ROUTES →
  (0 ≤ o ≤ MAX_PROVIDER_REQUEST_RETRY_ORDINAL)%Z →
  make_ProviderRequestSubject (Inst (attempt s)) (VInt (iteration s)) (VStr (envelope_sha256 s))
    (VStr r) (VInt o) = Ok (with_route s r o).
Proof.
  unfold wf_subject. rewrite subject_record. intros (a & Ha & Hs)%result_bind_ok Hr Hin Ho.
  assert (Ha' := AttemptRef_from_dict_wf _ _ Ha). unfold wf_AttemptRef in Ha'.
  unfold make_ProviderRequestSubject in *. simpl in *. rewrite Ha' in Hs. simpl in Hs.
  apply result_bind_ok in Hs as (i2 & Hi2 & Hs). apply result_bind_ok in Hs as (e2 & He2 & Hs).
  do 3 (apply result_bind_ok in Hs as (? & _ & Hs)). injection Hs as Hs.
  rewrite <-Hs in Hi2, He2 |- *. simpl in *. rewrite Ha'. simpl. rewrite Hi2. simpl. rewrite He2. simpl.
  rewrite Hr. simpl. rewrite bool_decide_true by done. simpl.
  unfold RequestLease._bounded_int. by rewrite (proj2 (Z.leb_le 0 o)), (proj2 (Z.leb_le o _)) by lia.
Qed.

(** The lease a successful claim writes. *)
Definition started_lease (s : ProviderRequestSubject) (h : pystr) (o : OperationRef)
    : ProviderRequestLease :=
  mkLease s h STARTED 1 false false [] o None None None None.

Lemma run_claim d s h o :
  store_wf d → wf_subject s → _SHA256_RE h = true → wf_OperationRef o →
  run (_claim s (VStr h) (Inst o)) d =
  if decide (d !! s = None) then (Ok (started_lease s h o), <[s := started_lease s h o]> d)
  else (Err ProviderRequestLeaseConflict, d).
Proof.
  intros Hd Hs Hh Ho. unfold _claim. rewrite run_bind, run_load by done.
  destruct (d !! s) as [l|] eqn:Hl; [by rewrite decide_False|]. rewrite decide_True by done.
  cbv beta iota. rewrite run_done, (made_make_lease _ (started_lease s h o)).
  - rewrite run_cas. unfold current_revision. simpl. by rewrite Hl.
  - split; try done; simpl; auto. unfold _sha256. by rewrite Hh.
Qed.

Lemma wf_subject_route s : wf_subject s → _canonical_text (VStr (route s)) 128 = Ok (route s) ∧ route s ∈ _ROUTES.
Proof.
  unfold wf_subject. rewrite subject_record. intros (a & _ & Hs)%result_bind_ok.
  unfold make_ProviderRequestSubject in *. do 3 (apply result_bind_ok in Hs as (? & _ & Hs)).
  apply result_bind_ok in Hs as (r & Hr & Hs). apply result_bind_ok in Hs as (? & Hin & Hs).
  apply result_bind_ok in Hs as (o & _ & Hs). injection Hs as Hs. rewrite <-Hs in Hr |- *. simpl in *.
  apply ensure_ok in Hin. by bsimpl.
Qed.

#[local] Instance retry_ready_dec l : Decision (retry_ready l).
Proof. unfold retry_ready. apply _. Defined.

(** The guards of a retry, which raise one class of error. *)
Lemma run_guards {A} l (f : unit → prog A) d :
  run (_ ← require (bool_decide (status l = FAILED)) ProviderRequestTransitionError;
       _ ← require (negb (visible_output l)) ProviderRequestTransitionError;
       _ ← require (retryable l) ProviderRequestTransitionError;
       _ ← require (bool_decide (classification l = u "transient")) ProviderRequestTransitionError;
       let s := subject l in
       x ← require (retry_ordinal s <? MAX_PROVIDER_REQUEST_RETRY_ORDINAL)%Z
             ProviderRequestTransitionError;
       f x) d =
  if decide (¬ (retry_ready l ∧
                (retry_ordinal (subject l) < MAX_PROVIDER_REQUEST_RETRY_ORDINAL)%Z))
  then (Err ProviderRequestTransitionError, d) else run (f tt) d.
Proof.
  cbv zeta.
  repeat (rewrite run_require; case_match; bsimpl;
          [|rewrite decide_True; [done|]; intros [(? & ? & ? & ?) ?]; congruence || lia]).
  rewrite decide_False; [done|]. intros Hn. by apply Hn.
Qed.

(** Claiming a retry on every branch: it is refused as changed when the
    store does not hold exactly the lease given, as a forbidden transition
    unless that lease is a retryable transient failure without visible output
    whose ordinal is not exhausted, as a conflict when somebody claimed the
    next ordinal; otherwise it writes exactly one started lease for the next
    ordinal, on the same route.  No refusal writes anything. *)
Theorem retry_claim_outcome (d : store) (l : ProviderRequestLease) (o : OperationRef) :
  store_wf d → wf_OperationRef o →
  let s' := with_route (subject l) (route (subject l)) (retry_ordinal (subject l) + 1) in
  run (claim_retry (Inst l) (Inst o)) d =
  if decide (d !! subject l ≠ Some l) then (Err ProviderRequestLeaseIntegrityError, d)
  else if decide (¬ (retry_ready l ∧
                     (retry_ordinal (subject l) < MAX_PROVIDER_REQUEST_RETRY_ORDINAL)%Z))
  then (Err ProviderRequestTransitionError, d)
  else if decide (d !! s' = None)
  then (Ok (started_lease s' (route_sha256 l) o), <[s' := started_lease s' (route_sha256 l) o]> d)
  else (Err ProviderRequestLeaseConflict, d).
Proof.
  intros Hd Ho s'. unfold claim_retry. rewrite run_bind, run_current by done.
  destruct (decide (d !! subject l = Some l)) as [Hl|]; [|by rewrite decide_True].
  rewrite (decide_False (P:=_ ≠ _)) by auto. destruct (Hd _ _ Hl) as (_ & Hwf & Hh).
  rewrite run_guards by done. case_decide as Hno; [done|]. destruct Hno as [_ Hlt].
  destruct (wf_subject_ordinal _ Hwf), (wf_subject_route _ Hwf) as [Hr Hin].
  assert (make_ProviderRequestSubject (Inst (attempt (subject l))) (VInt (iteration (subject l)))
    (VStr (envelope_sha256 (subject l))) (VStr (route (subject l)))
    (VInt (retry_ordinal (subject l) + 1)) = Ok s') as Hs' by (apply make_follow_up; [done..|lia]).
  rewrite run_done, Hs'. apply run_claim; [done|by eapply make_subject_wf|done..].
Qed.

End pools.

(** ** Executable schedules *)

Inductive choice : Type :=
| Start (op : request_op)
| Answer (i : nat)                (** the port answers the call of worker [i] *)
| Raise (i : nat) (e : pyexn)     (** the port raises, nothing written *)
| Lose (i : nat) (e : pyexn).     (** the swap takes place, the answer is lost *)

Section schedules.
Context `{U : Unicode}.

Definition schedule_step (c : choice) (p : pool) : option pool :=
  let '(mkPool d ts g) := p in
  match c with
  | Start op => Some (mkPool d (ts ++ [mkThread op (op_prog op)]) g)
  | Answer i =>
      match ts !! i with
      | Some (mkThread op (Load s k)) =>
          Some (mkPool d (advance i op (k (Ok (Inst <$> d !! s))) ts) g)
      | Some (mkThread op (Cas s n r k)) =>
          if (current_revision d s =? n)%Z
          then Some (mkPool (<[s := r]> d) (advance i op (k (Ok (Inst r))) ts) (g ++ [(i, r)]))
          else Some (mkPool d (advance i op (k (Err ProviderRequestLeaseConflict)) ts) g)
      | _ => None
      end
  | Raise i e =>
      match ts !! i with
      | Some (mkThread op (Load s k)) => Some (mkPool d (advance i op (k (Err e)) ts) g)
      | Some (mkThread op (Cas s n r k)) => Some (mkPool d (advance i op (k (Err e)) ts) g)
      | _ => None
      end
  | Lose i e =>
      match ts !! i with
      | Some (mkThread op (Cas s n r k)) =>
          if (current_revision d s =? n)%Z
          then Some (mkPool (<[s := r]> d) (advance i op (k (Err e)) ts) (g ++ [(i, r)]))
          else None
      | _ => None
      end
  end.

Fixpoint schedule (cs : list choice) (p : pool) : option pool :=
  match cs with
  | [] => Some p
  | c :: cs => schedule_step c p ≫= schedule cs
  end.

Lemma schedule_step_sound c p p' : schedule_step c p = Some p' → pool_step p p'.
Proof.
  destruct p as [d ts g], c; simpl; intros H; repeat case_match; simplify_eq; bsimpl.
  all: first [by apply step_start | by eapply step_load | by eapply step_load_error
             | by eapply step_cas | by eapply step_cas_lost | by eapply step_cas_error].
Qed.

Lemma schedule_sound cs p p' : schedule cs p = Some p' → rtc pool_step p p'.
Proof.
  revert p. induction cs as [|c cs IH]; simpl; intros p H; [simplify_eq; reflexivity|].
  destruct (schedule_step c p) as [q|] eqn:Hq; [|done]. simpl in H.
  eapply rtc_l; [by eapply schedule_step_sound|auto].
Qed.

(** The pool a schedule leads to; a schedule that cannot be followed leads
    nowhere. *)
Definition after (cs : list choice) : pool := default empty_pool (schedule cs empty_pool).

Lemma after_reachable cs : pool_reachable (after cs).
Proof.
  unfold after. destruct (schedule cs empty_pool) eqn:H; simpl; [|apply rtc_refl].
  by eapply schedule_sound.
Qed.

Definition possible (p : option pool) : bool := match p with Some _ => true | None => false end.

Lemma after_step cs c :
  possible (schedule cs empty_pool) = true → possible (schedule_step c (after cs)) = true →
  pool_step (after cs) (after (cs ++ [c])).
Proof.
  assert (∀ p, schedule (cs ++ [c]) p = schedule cs p ≫= schedule_step c) as Happ.
  { induction cs as [|c' cs IH]; intros p; simpl; [by destruct (schedule_step c p)|].
    destruct (schedule_step c' p); simpl; auto. }
  unfold after. rewrite Happ. destruct (schedule cs empty_pool) as [p|]; [|done]. simpl. intros _.
  destruct (schedule_step c p) as [q|] eqn:Hq; [|done]. intros _. by apply schedule_step_sound with c.
Qed.
End schedules.

(** ** A worked example *)

Module RequestDemo.

(** Text that is already normalised. *)
Definition plain : Unicode := λ s, s.
#[export] Existing Instance plain.

#[export] Instance plain_laws : UnicodeLaws plain.
Proof. split; intros s; [done..|apply strip_idemp]. Qed.

Definition sha (c : N) : pystr := replicate 64 c.
Definition op (name : string) : OperationRef := mkOperationRef (u name) (sha 98).
Definition att : AttemptRef := mkAttemptRef (mkGenerationRef (u "exec-1") (u "gen-1")) (u "attempt-1").
Definition subj (o : Z) : ProviderRequestSubject := mkSubject att 0 (sha 97) (u "primary") o.

Definition claim : request_op :=
  OpClaimInitial (Inst att) (VInt 0) (VStr (sha 97)) (VStr (u "primary")) (VStr (sha 99))
                 (Inst (op "claim")).
Definition started (o : Z) (name : string) : ProviderRequestLease :=
  started_lease (subj o) (sha 99) (op name).
Definition failed (o : Z) (name : string) : ProviderRequestLease :=
  mkLease (subj o) (sha 99) FAILED 2 false true (u "transient") (op name) None None None None.
Definition report_failure : request_op :=
  OpFailure (Inst (started 0 "claim")) (VStr (u "transient")) (VBool true) (VBool false)
            (Inst (op "fail")) (Val VNone).
Definition retry : request_op := OpRetry (Inst (failed 0 "fail")) (Inst (op "retry")).

(** Two workers race for the first request, the winner reports a transient
    failure whose answer is lost, and a third worker claims the retry. *)
Definition race : list choice :=
  [Start claim; Start claim; Answer 0; Answer 1; Answer 0; Answer 1].
Definition reporting : list choice := race ++ [Start report_failure; Answer 2].
Definition reported : list choice :=
  reporting ++ [Lose 2 (OtherError (u "ConnectionError"))].
Definition retried : list choice := reported ++ [Start retry; Answer 3; Answer 3; Answer 3].

Lemma one_claim_per_request_witness :
  (threads (after race) !! 1 =
     Some (mkThread claim (Done (Err ProviderRequestLeaseConflict)))) ∧
  (∀ j l', threads (after race) !! j = Some (mkThread claim (Done (Ok l'))) →
           subject (started 0 "claim") = subject l' → 0 = j).
Proof.
  split; [vm_compute; reflexivity|]. intros j l' Hj Hs.
  apply (one_claim_per_request (after race) 0 j claim claim (started 0 "claim") l');
    [apply after_reachable|reflexivity|reflexivity|vm_compute; reflexivity|exact Hj|exact Hs].
Defined.

Lemma request_lease_moves_forward_witness :
  durable (after race) !! subj 0 = Some (started 0 "claim") ∧
  durable (after reported) !! subj 0 = Some (failed 0 "fail") ∧
  (durable (after reported) !! subj 0 = durable (after reporting) !! subj 0 ∨
   (∃ l, durable (after reporting) !! subj 0 = None
         ∧ durable (after reported) !! subj 0 = Some l ∧ fresh l
         ∧ justified (log (after reporting)).*2 (subj 0)) ∨
   (∃ l l', durable (after reporting) !! subj 0 = Some l
            ∧ durable (after reported) !! subj 0 = Some l' ∧ evolves l l')).
Proof.
  split_and!; [vm_compute; reflexivity..|].
  apply (request_lease_moves_forward (after reporting) (after reported));
    [apply after_reachable|].
  apply (after_step reporting (Lose 2 (OtherError (u "ConnectionError"))));
    vm_compute; reflexivity.
Defined.

Lemma retries_are_durably_justified_witness :
  ∃ l', durable (after retried) !! with_route (subj 1) (u "primary") 0 = Some l' ∧ retry_ready l'.
Proof.
  apply (retries_are_durably_justified (after retried) (subj 1) (started 1 "retry"));
    [apply after_reachable|vm_compute; reflexivity|vm_compute; split; [discriminate|reflexivity]].
Defined.

Lemma recovery_is_exact_witness :
  ∃ r, run (recover (Inst (subj 1))) (durable (after reported)) = (Ok r, durable (after reported)) ∧
       auto_resend_allowed r = true.
Proof.
  destruct (recovery_is_exact (after reported) (subj 1) (after_reachable _))
    as (r & Hr & _ & _ & Hresend & _).
  exists r. split; [exact Hr|]. apply Hresend.
  assert ((log (after reported)).*2 = [started 0 "claim"; failed 0 "fail"]) as ->
    by (vm_compute; reflexivity).
  intros l [->|[->|[]%elem_of_nil]%elem_of_cons]%elem_of_cons; intros [=].
Defined.

Definition artifact : ArtifactRef :=
  mkArtifactRef (mkResourceRef (u "artifact") (u "result-1") 1 []) (u "application/json") 128
                (sha 101) [].
Definition bound_result : ProviderTurnResultBinding :=
  mkBinding (sha 99) (sha 100) artifact (mkEventCursor 9 (u "event-9")).

Definition one (l : ProviderRequestLease) : store := {[subject l := l]}.

Lemma one_wf l :
  wf_subject (subject l) → _SHA256_RE (route_sha256 l) = true → store_wf (one l).
Proof. intros Hs Hr s l'. unfold one. rewrite lookup_singleton_Some. intros [<- <-]. auto. Qed.

(** The store after the completion, as the call leaves it. *)
Definition finished : R ProviderRequestLease * store :=
  run (record_completed_result (Inst (started 0 "claim")) (Inst bound_result) (VBool true)
         (Inst (op "complete"))) (one (started 0 "claim")).

Definition finished_lease : ProviderRequestLease :=
  match finished.1 with Ok l => l | Err _ => started 0 "claim" end.

Lemma completion_is_idempotent_witness :
  status finished_lease = COMPLETED ∧
  run (record_completed_result (Inst (started 0 "claim")) (Inst bound_result) (VBool true)
         (Inst (op "complete"))) finished.2 = (Ok finished_lease, finished.2).
Proof.
  split; [vm_compute; reflexivity|].
  refine (completion_is_idempotent (one (started 0 "claim")) finished.2 _ _ _ _ finished_lease _ _);
    [apply one_wf; vm_compute; reflexivity|].
  assert (finished.1 = Ok finished_lease) as <- by (vm_compute; reflexivity).
  apply surjective_pairing.
Defined.

Lemma retry_claim_outcome_witness :
  (run (claim_retry (Inst (failed 0 "fail")) (Inst (op "retry"))) (one (failed 0 "fail"))).1
  = Ok (started 1 "retry").
Proof.
  rewrite (retry_claim_outcome (one (failed 0 "fail")) (failed 0 "fail") (op "retry"));
    [vm_compute; reflexivity|apply one_wf; vm_compute; reflexivity|vm_compute; reflexivity].
Defined.

(** A failed request with an extended diagnostic: the fourth schema. *)
Definition diagnosed : lease_args :=
  mkArgs (Inst (subj 0)) (VStr (sha 99)) (Inst FAILED) (VInt 2) (VBool false) (VBool false)
    (VStr (u "non_retryable")) (Inst (op "fail")) (Val VNone) VNone
    (Inst (mkFailure (Some 404%Z) (u "NOT_FOUND") (u "model") (u "NOT_FOUND") (u "gemini-2.5-flash")))
    (Val VNone).

Definition diagnosed_lease : ProviderRequestLease :=
  match make_ProviderRequestLease diagnosed with Ok l => l | Err _ => started 0 "claim" end.

Lemma request_lease_roundtrip_witness :
  lease_schema_of diagnosed_lease = lease_schema_v4 ∧
  lease_from_durable_dict (VDict (lease_to_dict diagnosed_lease)) = Ok diagnosed_lease.
Proof.
  split; [vm_compute; reflexivity|].
  refine (proj1 (proj2 (request_lease_roundtrip diagnosed diagnosed_lease _ _)));
    [split; [vm_compute; reflexivity|exact I]|vm_compute; reflexivity].
Defined.
End RequestDemo.
