(* ===== verification/JournalPayload.v ===== *)
(** * Journal payloads (src/unchain/journal/models.py, freezing)

    A payload that enters the journal is copied into an immutable form
    ([_freeze_json]): mappings become read-only with sorted keys, sequences
    become tuples, and a field whose name looks like a credential is refused
    unless its value is opaque metadata of the declared kind.  [frozen] is that
    immutable form, [_thaw_json] turns it back into plain JSON.

    Key names are normalised with NFKC and [str.casefold], which are tables of
    the Unicode character database like [nfc]: the parameters [nfkc] and
    [casefold]. *)

From S2P Require Import Prelude PyVal Json Models Diagnostics.

Class UnicodeFold : Type := {
  nfkc : pystr → pystr;
  casefold : pystr → pystr;
}.

(** ** Key names *)

(** [re.sub(r"([a-z0-9])([A-Z])", r"\1_\2", s)] *)
Fixpoint separate_words (s : pystr) : pystr :=
  match s with
  | c :: ((d :: _) as s') =>
      if (is_lower c || is_digit c) && is_upper d then c :: 95%N :: separate_words s'
      else c :: separate_words s'
  | _ => s
  end.

(** [re.sub(r"[^a-z0-9]+", "_", s)]; [gap] tells that the run of other
    characters before [s] has already been replaced. *)
Fixpoint squeeze (gap : bool) (s : pystr) : pystr :=
  match s with
  | [] => []
  | c :: s' =>
      if is_lower c || is_digit c then c :: squeeze false s'
      else if gap then squeeze true s' else 95%N :: squeeze true s'
  end.

(** [s.strip("_")] *)
Fixpoint lstrip_underscore (s : pystr) : pystr :=
  match s with c :: s' => if (c =? 95)%N then lstrip_underscore s' else s | [] => [] end.
Definition strip_underscore (s : pystr) : pystr :=
  reverse (lstrip_underscore (reverse (lstrip_underscore s))).

Definition _PLAINTEXT_SECRET_FIELDS : list pystr := u <$>
  ["access_token"; "api_secret"; "api_key"; "apikey"; "auth_token"; "authorization";
   "aws_secret_access_key"; "bearer_token"; "client_secret"; "credential"; "credentials";
   "id_token"; "passwd"; "password"; "private_key"; "refresh_token"; "secret"; "secret_key";
   "secret_value"; "session_token"; "signing_key"; "webhook_secret"]%string.

Definition _SAFE_TOKEN_METRIC_FIELDS : list pystr := u <$>
  ["attributed_tokens"; "available_input_tokens"; "cache_read_tokens"; "cache_write_1h_tokens";
   "cache_write_5m_tokens"; "cache_write_tokens"; "cached_tokens"; "completion_tokens";
   "consumed_tokens"; "context_window_tokens"; "estimated_input_tokens";
   "fixed_overhead_tokens"; "input_tokens"; "max_tokens"; "output_reserve_tokens";
   "output_tokens"; "pressure_threshold_tokens"; "prompt_tokens"; "reasoning_tokens";
   "residual_tokens"; "tokens"; "total_tokens"; "transport_margin_tokens"; "uncached_tokens";
   "visible_tokens"]%string.

Inductive metadata_kind : Type :=
| KInteger | KBoolean | KDigest | KHandle | KIdentifier | KIdentifiers
| KReference | KReferences | KUsage | KNullableInteger | KPlaintext.

#[export] Instance metadata_kind_eq_dec : EqDecision metadata_kind.
Proof. solve_decision. Defined.

Definition _CREDENTIAL_METADATA_SUFFIXES : list (pystr * metadata_kind) :=
  [(u "_budget", KInteger); (u "_bytes", KInteger); (u "_configured", KBoolean);
   (u "_count", KInteger); (u "_counts", KInteger); (u "_digest", KDigest);
   (u "_handle", KHandle); (u "_hash", KDigest); (u "_id", KIdentifier);
   (u "_ids", KIdentifiers); (u "_length", KInteger); (u "_limit", KInteger);
   (u "_limits", KInteger); (u "_present", KBoolean); (u "_ref", KReference);
   (u "_refs", KReferences); (u "_sha256", KDigest); (u "_usage", KUsage)].

(** [s.endswith(t)] *)
Definition endswith (s t : pystr) : bool := bool_decide (t `suffix_of` s).

(** [re.fullmatch(word + "s?[0-9]*", segment)] *)
Definition plural_number (word segment : pystr) : bool :=
  startswith segment word &&
  (let rest := drop (length word) segment in
   forallb is_digit rest
   || match rest with c :: rest' => (c =? 115)%N && forallb is_digit rest' | [] => false end).

Definition sensitive_words : list pystr := u <$>
  ["authorization"; "bearer"; "cookie"; "credential"; "passwd"; "password"; "secret";
   "token"]%string.

Definition sensitive_segment (segment : pystr) : bool :=
  existsb (λ word, plural_number word segment) sensitive_words.

Definition key_prefixes : list pystr := u <$>
  ["access"; "api"; "encryption"; "private"; "signing"]%string.

(** Two adjacent segments that name a key or a pass word. *)
Definition sensitive_pair (a b : pystr) : bool :=
  bool_decide (a ∈ key_prefixes) && plural_number (u "key") b
  || bool_decide (a = u "pass") && plural_number (u "word") b.

Fixpoint any_adjacent (f : pystr → pystr → bool) (segments : list pystr) : bool :=
  match segments with
  | a :: ((b :: _) as rest) => f a b || any_adjacent f rest
  | _ => false
  end.

Fixpoint suffix_kind (key : pystr) (suffixes : list (pystr * metadata_kind)) : metadata_kind :=
  match suffixes with
  | [] => KPlaintext
  | (suffix, kind) :: rest => if endswith key suffix then kind else suffix_kind key rest
  end.

Definition _credential_metadata_kind (normalized_key : pystr) : option metadata_kind :=
  if bool_decide (normalized_key ∈ _SAFE_TOKEN_METRIC_FIELDS) then Some KNullableInteger
  else
    let segments := split_on 95 normalized_key in
    let sensitive :=
      bool_decide (normalized_key ∈ _PLAINTEXT_SECRET_FIELDS)
      || existsb sensitive_segment segments || any_adjacent sensitive_pair segments in
    if negb sensitive then None
    else Some (suffix_kind normalized_key _CREDENTIAL_METADATA_SUFFIXES).

(** ** Values of credential fields *)

Definition is_identifier (v : pyval) : bool :=
  match v with VStr s => _IDENTIFIER_RE s | _ => false end.

Definition is_digest (v : pyval) : bool :=
  match v with VStr s => _SHA256_RE s | _ => false end.

Definition is_natural (v : pyval) : bool :=
  match v with VInt z => (0 <=? z)%Z | _ => false end.

Fixpoint valid_usage (item : pyval) : bool :=
  match item with
  | VInt z => (0 <=? z)%Z
  | VDict d =>
      (fix go d := match d with
                   | [] => true
                   | (KStr _, child) :: d => valid_usage child && go d
                   | (KObj _ _, _) :: _ => false
                   end) d
  | _ => false
  end.

Definition handle_schema : pystr := u "unchain.opaque_secret_handle.v1".

Section payload.
Context `{U : Unicode} `{F : UnicodeFold}.

Definition _normalize_key (value : pystr) : pystr :=
  strip_underscore (squeeze false (casefold (separate_words (nfkc value)))).

(** [try: ResourceRef.from_dict(item) except (TypeError, ValueError)] *)
Definition is_reference (item : pyval) : bool :=
  match item with VDict _ => is_ok (ResourceRef_from_dict item) | _ => false end.

Definition validate_handle (value : pyval) : R unit :=
  match value with
  | VDict d =>
      _ ← ensure (has_exactly d ["schema"; "handle_id"; "label"; "scope"]) ModelValidationError;
      _ ← ensure (py_eq (get d "schema") (VStr handle_schema)) ModelValidationError;
      _ ← _required_text (get d "handle_id") 256 true;
      _ ← _required_text (get d "label") 128 false;
      _ ← _required_text (get d "scope") 256 true;
      Ok tt
  | _ => Err ModelValidationError
  end.

Definition _validate_credential_metadata (normalized_key : pystr) (value : pyval) : R unit :=
  match _credential_metadata_kind normalized_key with
  | None => Ok tt
  | Some KPlaintext => Err ModelValidationError
  | Some KIdentifier => ensure (is_identifier value) ModelValidationError
  | Some KIdentifiers =>
      ensure (match value with VList l => forallb is_identifier l | _ => false end)
        ModelValidationError
  | Some KDigest => ensure (is_digest value) ModelValidationError
  | Some KBoolean =>
      ensure (match value with VBool _ => true | _ => false end) ModelValidationError
  | Some KInteger => ensure (is_natural value) ModelValidationError
  | Some KNullableInteger => ensure (is_none value || is_natural value) ModelValidationError
  | Some KUsage => ensure (valid_usage value) ModelValidationError
  | Some KReference => ensure (is_reference value) ModelValidationError
  | Some KReferences =>
      ensure (match value with VList l => forallb is_reference l | _ => false end)
        ModelValidationError
  | Some KHandle => validate_handle value
  end.
End payload.
#[global] Arguments _validate_credential_metadata : simpl never.
#[global] Arguments _normalize_key : simpl never.

(** ** Frozen JSON *)

#[warnings="-register-all"]
Inductive frozen : Type :=
| FNone
| FBool (b : bool)
| FInt (z : Z)
| FFloat (f : spec_float)
| FStr (s : pystr)
| FTuple (l : list frozen)
| FMap (d : list (pystr * frozen)).

Section frozen_ind.
Variable P : frozen → Prop.
Hypothesis HNone : P FNone.
Hypothesis HBool : ∀ b, P (FBool b).
Hypothesis HInt : ∀ z, P (FInt z).
Hypothesis HFloat : ∀ f, P (FFloat f).
Hypothesis HStr : ∀ s, P (FStr s).
Hypothesis HTuple : ∀ l, Forall P l → P (FTuple l).
Hypothesis HMap : ∀ d, Forall (λ kv, P kv.2) d → P (FMap d).

Fixpoint frozen_nested_ind (v : frozen) : P v :=
  match v with
  | FNone => HNone
  | FBool b => HBool b
  | FInt z => HInt z
  | FFloat f => HFloat f
  | FStr s => HStr s
  | FTuple l =>
      HTuple l ((fix go l : Forall P l :=
        match l with
        | [] => Forall_nil_2 P
        | x :: l' => Forall_cons_2 P x l' (frozen_nested_ind x) (go l')
        end) l)
  | FMap d =>
      HMap d ((fix go d : Forall (λ kv, P kv.2) d :=
        match d with
        | [] => Forall_nil_2 _
        | kv :: d' => Forall_cons_2 _ kv d' (frozen_nested_ind kv.2) (go d')
        end) d)
  end.
End frozen_ind.

Fixpoint _thaw_json (v : frozen) : pyval :=
  match v with
  | FNone => VNone
  | FBool b => VBool b
  | FInt z => VInt z
  | FFloat f => VFloat f
  | FStr s => VStr s
  | FTuple l => VList (_thaw_json <$> l)
  | FMap d => VDict ((λ kv, (KStr kv.1, _thaw_json kv.2)) <$> d)
  end.

(** An object key: text, not empty, without a null character. *)
Definition valid_object_key (k : pykey) : bool :=
  match k with KStr s => nonempty s && negb (bool_decide (0%N ∈ s)) | KObj _ _ => false end.

(** [sorted(...)] on items with text keys. *)
Definition item_le {A} (p q : pystr * A) : Prop := str_leb p.1 q.1 = true.
#[export] Instance item_le_dec {A} (p q : pystr * A) : Decision (item_le p q).
Proof. unfold item_le. apply _. Defined.

(** Run the checks of the items in order and stop at the first error. *)
Fixpoint collect {A} (items : list (pystr * R A)) : R (list (pystr * A)) :=
  match items with
  | [] => Ok []
  | (k, r) :: items => a ← r; rest ← collect items; Ok ((k, a) :: rest)
  end.

(** [tuple(f(item) for item in l)]: the first error ends it. *)
Definition mapR {A B} (f : A → R B) : list A → R (list B) :=
  fix go l :=
    match l with
    | [] => Ok []
    | x :: l => y ← f x; ys ← go l; Ok (y :: ys)
    end.

Section freeze.
Context `{U : Unicode} `{F : UnicodeFold}.

Fixpoint _freeze_json (value : pyval) : R frozen :=
  match value with
  | VNone => Ok FNone
  | VBool b => Ok (FBool b)
  | VInt z => Ok (FInt z)
  | VStr s => Ok (FStr s)
  | VFloat f => if is_finite f then Ok (FFloat f) else Err ModelValidationError
  | VDict d =>
      if forallb (λ kv, valid_object_key kv.1) d then
        items ← collect (merge_sort item_le
          ((λ kv, (key_str kv.1,
                   _ ← _validate_credential_metadata (_normalize_key (key_str kv.1)) kv.2;
                   _freeze_json kv.2)) <$> d));
        Ok (FMap items)
      else Err ModelValidationError
  | VList l =>
      items ← mapR _freeze_json l;
      Ok (FTuple items)
  | VObj _ _ => Err TypeError
  end.
End freeze.

(** ** Sorted items *)

Lemma str_leb_refl s : str_leb s s = true.
Proof. induction s as [|c s IH]; simpl; [done|]. by rewrite N.eqb_refl. Qed.

Lemma str_leb_total s t : str_leb s t = true ∨ str_leb t s = true.
Proof.
  revert t. induction s as [|c s IH]; intros [|d t]; simpl; auto.
  rewrite (N.eqb_sym d c). destruct (c =? d)%N eqn:E; [apply IH|].
  apply N.eqb_neq in E. rewrite !N.ltb_lt. lia.
Qed.

Lemma str_leb_trans s t r : str_leb s t = true → str_leb t r = true → str_leb s r = true.
Proof.
  revert t r. induction s as [|c s IH]; intros [|d t] [|e r]; simpl; try done.
  repeat case_match; rewrite ?N.eqb_eq, ?N.eqb_neq, ?N.ltb_lt in *; subst; eauto; lia.
Qed.

Lemma str_leb_antisym s t : str_leb s t = true → str_leb t s = true → s = t.
Proof.
  revert t. induction s as [|c s IH]; intros [|d t]; simpl; try done.
  repeat case_match; rewrite ?N.eqb_eq, ?N.eqb_neq, ?N.ltb_lt in *; subst; intros; try lia.
  f_equal. auto.
Qed.

#[export] Instance item_le_trans {A} : Transitive (item_le (A:=A)).
Proof. intros x y z. apply str_leb_trans. Qed.
#[export] Instance item_le_total {A} : Total (item_le (A:=A)).
Proof. intros x y. apply str_leb_total. Qed.

(** Two sorted lists of the same items with distinct keys are the same. *)
Lemma sorted_items_unique {A} (l1 l2 : list (pystr * A)) :
  NoDup l1.*1 → l1 ≡ₚ l2 → StronglySorted item_le l1 → StronglySorted item_le l2 → l1 = l2.
Proof.
  intros Hnd Hp Hs1 Hs2. eapply StronglySorted_unique_strong; [|exact Hs1|exact Hs2|done].
  intros [k v] [k' v'] H1 H2 Hle Hge. assert (k = k') as <- by by apply str_leb_antisym.
  rewrite <-Hp in H2. apply list_elem_of_lookup in H1 as [i Hi], H2 as [j Hj].
  assert (i = j) as <-; [|congruence].
  eapply NoDup_lookup; [exact Hnd|..]; rewrite list_lookup_fmap; [by rewrite Hi|by rewrite Hj].
Qed.

Lemma merge_sort_sorted {A} (l : list (pystr * A)) :
  NoDup l.*1 → StronglySorted item_le l → merge_sort item_le l = l.
Proof.
  intros Hnd Hs. symmetry. apply sorted_items_unique; [done| |done|].
  - symmetry. apply merge_sort_Permutation.
  - apply StronglySorted_merge_sort; apply _.
Qed.

(** Sorting looks at the keys only. *)
Lemma sorted_by_keys {A} (l : list (pystr * A)) :
  StronglySorted item_le l ↔ StronglySorted (λ a b, str_leb a b = true) l.*1.
Proof.
  induction l as [|[k v] l IH]; [split; constructor|].
  rewrite fmap_cons, !StronglySorted_cons, IH, Forall_fmap. done.
Qed.

Lemma sorted_keys {A B} (l : list (pystr * A)) (l' : list (pystr * B)) :
  l.*1 = l'.*1 → StronglySorted item_le l → StronglySorted item_le l'.
Proof. rewrite !sorted_by_keys. by intros ->. Qed.

(** ** Freezing item by item *)

Lemma mapR_ok {A B} (f : A → R B) l ys :
  mapR f l = Ok ys ↔ Forall2 (λ x y, f x = Ok y) l ys.
Proof.
  revert ys. induction l as [|x l IH]; intros ys; simpl.
  - split; [intros [= <-]; constructor|]. by intros ->%Forall2_nil_inv_l.
  - rewrite result_bind_ok. setoid_rewrite result_bind_ok. split.
    + intros (y & Hy & ys' & Hys & [= <-]). constructor; [done|]. by apply IH.
    + intros (y & ys' & Hy & Hys & ->)%Forall2_cons_inv_l. exists y. split; [done|].
      exists ys'. split; [by apply IH|done].
Qed.

Lemma collect_ok {A} (items : list (pystr * R A)) out :
  collect items = Ok out ↔ Forall2 (λ p q, p.1 = q.1 ∧ p.2 = Ok q.2) items out.
Proof.
  revert out. induction items as [|[k r] items IH]; intros out; simpl.
  - split; [intros [= <-]; constructor|]. by intros ->%Forall2_nil_inv_l.
  - rewrite result_bind_ok. setoid_rewrite result_bind_ok. split.
    + intros (a & Ha & rest & Hr & [= <-]). constructor; [done|]. by apply IH.
    + intros ([k' a] & rest & [Hk Ha] & Hr & ->)%Forall2_cons_inv_l. simpl in *. subst k'.
      exists a. split; [done|]. exists rest. split; [by apply IH|done].
Qed.

Lemma collect_keys {A} (items : list (pystr * R A)) out : collect items = Ok out → out.*1 = items.*1.
Proof. intros H%collect_ok. induction H as [|p q ? ? [Hk _] _ IH]; [done|]. rewrite !fmap_cons. by rewrite Hk, IH. Qed.

Lemma filter_nil_iff {A} (P : A → Prop) `{∀ x, Decision (P x)} (l : list A) :
  filter P l = [] ↔ ∀ x, x ∈ l → ¬ P x.
Proof.
  split.
  - intros Hf x Hx HP. by apply (filter_nil_not_elem_of P l x).
  - intros Hl. destruct (filter P l) as [|y l'] eqn:E; [done|].
    assert (y ∈ filter P l) as [HP Hy]%list_elem_of_filter by (rewrite E; left).
    by destruct (Hl y Hy).
Qed.

(** Dictionaries with distinct keys, at every depth. *)
#[warnings="-register-all"]
Inductive unique_keys : pyval → Prop :=
| uk_none : unique_keys VNone
| uk_bool b : unique_keys (VBool b)
| uk_int z : unique_keys (VInt z)
| uk_float f : unique_keys (VFloat f)
| uk_str s : unique_keys (VStr s)
| uk_obj c i : unique_keys (VObj c i)
| uk_list l : Forall unique_keys l → unique_keys (VList l)
| uk_dict d : NoDup (keys d) → Forall (λ kv, unique_keys kv.2) d → unique_keys (VDict d).

Section freeze_lemmas.
Context `{U : Unicode} `{!UnicodeLaws U} `{F : UnicodeFold}.

(** The check and the copy of one item of a mapping. *)
Definition freeze_item (kv : pykey * pyval) : pystr * R frozen :=
  (key_str kv.1,
   _ ← _validate_credential_metadata (_normalize_key (key_str kv.1)) kv.2; _freeze_json kv.2).

Lemma freeze_dict_ok d f :
  _freeze_json (VDict d) = Ok f ↔
  forallb (λ kv, valid_object_key kv.1) d = true ∧
  ∃ items, f = FMap items ∧ collect (merge_sort item_le (freeze_item <$> d)) = Ok items.
Proof.
  change (_freeze_json (VDict d)) with
    (if forallb (λ kv, valid_object_key kv.1) d then
       items ← collect (merge_sort item_le (freeze_item <$> d)); Ok (FMap items)
     else Err ModelValidationError).
  destruct (forallb _ d); [|naive_solver]. rewrite result_bind_ok. naive_solver.
Qed.

Lemma freeze_list_ok l f :
  _freeze_json (VList l) = Ok f ↔ ∃ ys, f = FTuple ys ∧ Forall2 (λ x y, _freeze_json x = Ok y) l ys.
Proof.
  change (_freeze_json (VList l)) with (ys ← mapR _freeze_json l; Ok (FTuple ys)).
  rewrite result_bind_ok. setoid_rewrite mapR_ok. naive_solver.
Qed.

(** What is known of the items of a frozen mapping. *)
Record frozen_items (d : pydict) (items : list (pystr * frozen)) : Prop := {
  fi_sorted : StronglySorted item_le items;
  fi_keys : (KStr <$> items.*1) ≡ₚ keys d;
  fi_item k w : (k, w) ∈ items → ∃ v, (KStr k, v) ∈ d ∧
    _validate_credential_metadata (_normalize_key k) v = Ok tt ∧ _freeze_json v = Ok w;
}.

Lemma freeze_dict_items d items :
  _freeze_json (VDict d) = Ok (FMap items) → frozen_items d items.
Proof.
  intros (Hvalid & items' & [= <-] & Hc)%freeze_dict_ok.
  assert (Hk := collect_keys _ _ Hc).
  assert (∀ kv, kv ∈ d → ∃ k, kv.1 = KStr k) as Hstr.
  { intros kv Hkv. rewrite forallb_forall in Hvalid.
    specialize (Hvalid kv (proj1 (list_elem_of_In _ _) Hkv)). destruct kv.1; [eauto|done]. }
  split.
  - eapply sorted_keys; [symmetry; exact Hk|]. apply StronglySorted_merge_sort; apply _.
  - rewrite Hk, merge_sort_Permutation. unfold keys. rewrite <-!list_fmap_compose.
    apply Permutation_refl', list_fmap_ext. intros i kv Hi. simpl.
    destruct (Hstr kv) as [k Hkv]; [by eapply list_elem_of_lookup_2|]. by rewrite Hkv.
  - intros k w Hin. apply collect_ok in Hc.
    apply list_elem_of_lookup in Hin as [i Hi].
    destruct (Forall2_lookup_r _ _ _ _ _ Hc Hi) as ([k' r] & Hp & Hk' & Hr). simpl in *. subst.
    apply list_elem_of_lookup_2 in Hp. rewrite merge_sort_Permutation in Hp.
    apply list_elem_of_fmap in Hp as (kv & [= -> Hr] & Hkv).
    destruct (Hstr kv Hkv) as [k Ek]. destruct kv as [? v]. simpl in *. subst. simpl in *.
    symmetry in Hr. apply result_bind_ok in Hr as ([] & Hv & Hf). eauto.
Qed.

(** *** Thawing what was frozen *)

Definition thaw_items (items : list (pystr * frozen)) : pydict :=
  (λ kv, (KStr kv.1, _thaw_json kv.2)) <$> items.

Lemma keys_thaw items : keys (thaw_items items) = KStr <$> items.*1.
Proof. unfold keys, thaw_items. rewrite <-!list_fmap_compose. done. Qed.

Lemma freeze_scalar v f :
  _freeze_json v = Ok f → (∀ l, v ≠ VList l) → (∀ d, v ≠ VDict d) → _thaw_json f = v.
Proof.
  intros H Hl Hd. destruct v; simpl in H; simplify_eq/=; try done.
  - case_match; by simplify_eq.
  - by destruct (Hl l).
  - by destruct (Hd d).
Qed.

(** A frozen mapping has the keys of the original, and its items frozen. *)
Record same_items (d d' : pydict) : Prop := {
  si_keys : keys d' ≡ₚ keys d;
  si_get k v : dict_get d k = Some v →
    ∃ w, _freeze_json v = Ok w ∧ dict_get d' k = Some (_thaw_json w);
}.

Lemma freeze_same_items d items :
  NoDup (keys d) → _freeze_json (VDict d) = Ok (FMap items) → same_items d (thaw_items items).
Proof.
  intros Hnd Hf. destruct (freeze_dict_items _ _ Hf) as [Hs Hk Hi].
  assert (keys (thaw_items items) ≡ₚ keys d) as Hkeys by by rewrite keys_thaw.
  split; [done|]. intros k v Hv.
  assert (k ∈ keys (thaw_items items)) as Hin.
  { rewrite Hkeys. apply dict_get_Some_elem in Hv. by apply (list_elem_of_fmap_2 fst) in Hv. }
  apply list_elem_of_fmap in Hin as ([k' w'] & -> & Hin). simpl in *.
  assert (Hin' := Hin). apply list_elem_of_fmap in Hin as ([k w] & [= -> ->] & Hin). simpl in *.
  destruct (Hi _ _ Hin) as (v' & Hv' & _ & Hw). exists w. split.
  - apply elem_dict_get in Hv'; [|done]. congruence.
  - apply elem_dict_get; [by rewrite Hkeys|done].
Qed.

Lemma same_items_get d d' name :
  same_items d d' → (∀ l, get d name ≠ VList l) → (∀ e, get d name ≠ VDict e) →
  get d' name = get d name.
Proof.
  intros [Hk Hg]. unfold get. destruct (dict_get d (KStr (u name))) as [v|] eqn:E; simpl.
  - intros Hl Hd. destruct (Hg _ _ E) as (w & Hw & ->). simpl. by apply freeze_scalar.
  - intros _ _. assert (dict_get d' (KStr (u name)) = None) as ->; [|done].
    apply dict_get_None. rewrite Hk. by apply dict_get_None.
Qed.

Lemma same_items_get_str d d' name s :
  same_items d d' → get d name = VStr s → get d' name = VStr s.
Proof. intros Hs E. rewrite <-E. apply same_items_get; [done|by rewrite E..]. Qed.

Lemma same_items_has_key d d' k : same_items d d' → k ∈ keys d' ↔ k ∈ keys d.
Proof. intros [Hk _]. by rewrite Hk. Qed.

Lemma has_exactly_stable d d' names :
  same_items d d' → has_exactly d names = true → has_exactly d' names = true.
Proof.
  intros Hs. unfold has_exactly. rewrite !andb_true_iff, !forallb_forall.
  setoid_rewrite <-list_elem_of_In. intros [H1 H2]. split; intros k Hk.
  - apply H1. by apply (same_items_has_key d d').
  - specialize (H2 k Hk). rewrite bool_decide_eq_true in *. by apply (same_items_has_key d d').
Qed.

(** [VStr] values are what every text field of a record holds. *)
Lemma required_text_str v m i s : _required_text v m i = Ok s → ∃ t, v = VStr t.
Proof. unfold _required_text. destruct v; try done. eauto. Qed.

Lemma validate_handle_stable d d' :
  same_items d d' → validate_handle (VDict d) = Ok tt → validate_handle (VDict d') = Ok tt.
Proof.
  intros Hs. unfold validate_handle. intros H.
  apply result_bind_ok in H as ([] & Hx & H). apply ensure_ok in Hx.
  apply result_bind_ok in H as ([] & Hsch & H). apply ensure_ok in Hsch.
  apply result_bind_ok in H as (a & Ha & H). apply result_bind_ok in H as (b & Hb & H).
  apply result_bind_ok in H as (c & Hc & _).
  apply (has_exactly_stable _ _ _ Hs) in Hx. rewrite Hx. simpl.
  destruct (get d "schema") eqn:E1; try done. rewrite (same_items_get_str _ _ _ _ Hs E1).
  destruct (required_text_str _ _ _ _ Ha) as [ta E2]. destruct (required_text_str _ _ _ _ Hb) as [tb E3].
  destruct (required_text_str _ _ _ _ Hc) as [tc E4].
  rewrite (same_items_get_str _ _ _ _ Hs E2), (same_items_get_str _ _ _ _ Hs E3), (same_items_get_str _ _ _ _ Hs E4).
  rewrite E2 in Ha. rewrite E3 in Hb. rewrite E4 in Hc. simpl in Hsch |- *. rewrite Hsch. simpl.
  rewrite Ha. simpl. rewrite Hb. simpl. by rewrite Hc.
Qed.

Lemma record_data_stable d d' schema required optional :
  same_items d d' → _record_data (VDict d) schema required optional = Ok d →
  _record_data (VDict d') schema required optional = Ok d'.
Proof.
  intros Hs. unfold _record_data.
  destruct (py_eq (get d "schema") (VStr schema)) eqn:E; [|done].
  destruct (get d "schema") eqn:Es; try done. rewrite (same_items_get_str _ _ _ _ Hs Es), E. simpl.
  destruct (filter (λ k, k ∉ keys d) _) eqn:Em; [|done].
  destruct (filter (λ k, k ∉ _) (keys d)) eqn:Eu; [|by case_match].
  rewrite filter_nil_iff in Em, Eu.
  assert (filter (λ k, k ∉ keys d') ((λ s, KStr (u s)) <$> required) = []) as ->.
  { apply filter_nil_iff. intros k Hk Hn. apply (Em k Hk). by rewrite <-(same_items_has_key d d'). }
  match goal with |- context [filter ?P (keys d')] => assert (filter P (keys d') = []) as -> end; [|done].
  apply filter_nil_iff. intros k Hk. apply Eu. by apply (same_items_has_key d d').
Qed.

Lemma get_text_stable d d' name :
  same_items d d' → (∀ l, get_text d name ≠ VList l) → (∀ e, get_text d name ≠ VDict e) →
  get_text d' name = get_text d name.
Proof.
  intros [Hk Hg]. unfold get_text. destruct (dict_get d (KStr (u name))) as [v|] eqn:E; simpl.
  - intros Hl Hd. destruct (Hg _ _ E) as (w & Hw & ->). simpl. by apply freeze_scalar.
  - intros _ _. assert (dict_get d' (KStr (u name)) = None) as ->; [|done].
    apply dict_get_None. rewrite Hk. by apply dict_get_None.
Qed.

Lemma reference_stable d d' r :
  same_items d d' → ResourceRef_from_dict (VDict d) = Ok r → ResourceRef_from_dict (VDict d') = Ok r.
Proof.
  intros Hs. unfold ResourceRef_from_dict. intros (raw & Hraw & H)%result_bind_ok.
  assert (raw = d) as -> by (unfold _record_data in Hraw; repeat case_match; congruence).
  rewrite (record_data_stable _ _ _ _ _ Hs Hraw). cbn [mbind result_bind].
  rewrite <-H. assert (Hm := H). unfold make_ResourceRef in Hm.
  apply result_bind_ok in Hm as (k & Hk & Hm). apply result_bind_ok in Hm as (i & Hi & Hm).
  apply result_bind_ok in Hm as (n & Hn & Hm). apply result_bind_ok in Hm as (f & Hf & _).
  destruct (required_text_str _ _ _ _ Hk) as [tk Ek]. destruct (required_text_str _ _ _ _ Hi) as [ti Ei].
  rewrite (same_items_get_str _ _ _ _ Hs Ek), (same_items_get_str _ _ _ _ Hs Ei), Ek, Ei.
  rewrite (same_items_get _ _ "revision" Hs), (get_text_stable _ _ "fragment" Hs); [done|..];
    intros x E; rewrite E in *; done.
Qed.

Lemma is_reference_stable v f :
  unique_keys v → _freeze_json v = Ok f → is_reference v = true → is_reference (_thaw_json f) = true.
Proof.
  intros Hu Hf Hr. destruct v as [| | | | | |d|]; try done. inversion Hu; subst.
  destruct (proj1 (freeze_dict_ok _ _) Hf) as (_ & items & -> & _).
  assert (Hs := freeze_same_items _ _ ltac:(done) Hf). unfold is_reference in *. simpl.
  fold (thaw_items items). destruct (ResourceRef_from_dict (VDict d)) eqn:E; [|done].
  by rewrite (reference_stable _ _ _ Hs E).
Qed.

Lemma valid_usage_dict d :
  valid_usage (VDict d) = true ↔ ∀ k c, (k, c) ∈ d → (∃ s, k = KStr s) ∧ valid_usage c = true.
Proof.
  simpl. induction d as [|[[s|c i] v] d IH].
  - split; [set_solver|done].
  - rewrite andb_true_iff, IH. split.
    + intros [Hv Hd] k c [[= -> ->]|Hin]%elem_of_cons; eauto.
    + intros H. split; [by apply (H (KStr s) v); left|]. intros k c Hin. apply H. by right.
  - split; [done|]. intros H. destruct (H (KObj c i) v ltac:(left)) as [[s Hs] _]. done.
Qed.

Lemma valid_usage_stable v f :
  _freeze_json v = Ok f → valid_usage v = true → valid_usage (_thaw_json f) = true.
Proof.
  revert f. induction v as [| |z|f0| | |d IH|] using pyval_nested_ind; intros f Hf Hv; try done.
  - by injection Hf as <-.
  - destruct (proj1 (freeze_dict_ok _ _) Hf) as (_ & items & -> & _).
    destruct (freeze_dict_items _ _ Hf) as [_ _ Hi].
    rewrite valid_usage_dict in Hv. rewrite Forall_forall in IH.
    change (valid_usage (VDict (thaw_items items)) = true). apply valid_usage_dict.
    intros k c Hin. apply list_elem_of_fmap in Hin as ([k' w] & [= -> ->] & Hin). split; [by eexists|].
    destruct (Hi _ _ Hin) as (v & Hv' & _ & Hw). simpl.
    apply (IH (KStr k', v)); [done..|]. by apply (Hv (KStr k')).
Qed.

Lemma forallb_thaw (p : pyval → bool) l ys :
  (∀ v f, v ∈ l → _freeze_json v = Ok f → p v = true → p (_thaw_json f) = true) →
  Forall2 (λ x y, _freeze_json x = Ok y) l ys → forallb p l = true →
  forallb p (_thaw_json <$> ys) = true.
Proof.
  intros Hp H. induction H as [|x y l ys Hxy _ IH]; simpl; [done|].
  rewrite !andb_true_iff. intros [Hx Hl]. split; [by eapply Hp; [left|..]|].
  apply IH; [|done]. intros v f Hv. apply Hp. by right.
Qed.

(** The checks on a credential field pass again on the frozen value. *)
Lemma validate_stable key v f :
  unique_keys v → _freeze_json v = Ok f →
  _validate_credential_metadata key v = Ok tt →
  _validate_credential_metadata key (_thaw_json f) = Ok tt.
Proof.
  intros Hu Hf. unfold _validate_credential_metadata.
  destruct (_credential_metadata_kind key) as [[]|]; rewrite ?ensure_ok; try done.
  - destruct v; try done. by injection Hf as <-.
  - destruct v; try done. by injection Hf as <-.
  - destruct v; try done. by injection Hf as <-.
  - destruct v as [| | | | | |d|]; try done. inversion Hu; subst.
    destruct (proj1 (freeze_dict_ok _ _) Hf) as (_ & items & -> & _).
    apply validate_handle_stable. by apply freeze_same_items.
  - destruct v; try done. by injection Hf as <-.
  - destruct v as [| | | | |l| |]; try done.
    apply freeze_list_ok in Hf as (ys & -> & Hys). simpl. eapply forallb_thaw; [|done].
    intros v f _ Hf Hv. destruct v; try done. by injection Hf as <-.
  - by apply is_reference_stable.
  - destruct v as [| | | | |l| |]; try done. inversion Hu as [| | | | | |? Hl|]; subst.
    rewrite Forall_forall in Hl. apply freeze_list_ok in Hf as (ys & -> & Hys). simpl.
    eapply forallb_thaw; [|done]. intros v f Hin Hf. apply is_reference_stable; auto.
  - by apply valid_usage_stable.
  - destruct v; try done; by injection Hf as <-.
Qed.

(** *** Freezing is a normal form *)

Lemma freeze_items_again d items :
  NoDup (keys d) → Forall (λ kv, unique_keys kv.2) d →
  _freeze_json (VDict d) = Ok (FMap items) →
  (∀ k w, (k, w) ∈ items → _freeze_json (_thaw_json w) = Ok w) →
  _freeze_json (VDict (thaw_items items)) = Ok (FMap items).
Proof.
  intros Hnd Hu Hf IH. rewrite Forall_forall in Hu.
  destruct (proj1 (freeze_dict_ok _ _) Hf) as (Hvalid & _ & _ & _).
  destruct (freeze_dict_items _ _ Hf) as [Hsort Hk Hi]. apply freeze_dict_ok. split.
  - apply forallb_forall. intros [k c] Hin%list_elem_of_In.
    rewrite forallb_forall in Hvalid.
    apply list_elem_of_fmap in Hin as ([k' w] & [= -> ->] & Hin).
    destruct (Hi _ _ Hin) as (v & Hv & _). by apply (Hvalid (KStr k', v)), list_elem_of_In.
  - exists items. split; [done|].
    assert ((freeze_item <$> thaw_items items).*1 = items.*1) as Hkeys.
    { unfold thaw_items. rewrite <-!list_fmap_compose. done. }
    rewrite merge_sort_sorted.
    + apply collect_ok, Forall2_fmap_l, Forall2_fmap_l, Forall_Forall2_diag.
      apply Forall_forall. intros [k w] Hin. simpl. split; [done|].
      destruct (Hi _ _ Hin) as (v & Hv & Hval & Hw).
      rewrite (validate_stable _ v w); [by apply (IH k)|by apply (Hu (KStr k, v))|done..].
    + rewrite Hkeys. apply (NoDup_fmap_1 KStr). by rewrite Hk.
    + eapply sorted_keys; [symmetry; exact Hkeys|done].
Qed.

Lemma freeze_thaw v f : unique_keys v → _freeze_json v = Ok f → _freeze_json (_thaw_json f) = Ok f.
Proof.
  revert f. induction v as [| | |f0| |l IH|d IH|] using pyval_nested_ind; intros f Hu Hf;
    try (by injection Hf as <-).
  - simpl in Hf. case_match eqn:E; [|done]. injection Hf as <-. simpl. by rewrite E.
  - apply freeze_list_ok in Hf as (ys & -> & Hys). inversion Hu as [| | | | | |? Hl|]; subst.
    simpl. fold (_freeze_json (VList (_thaw_json <$> ys))). apply freeze_list_ok. exists ys. split; [done|].
    clear Hu. induction Hys as [|x y l ys Hxy _ IHl]; simpl; [constructor|].
    apply Forall_cons in IH as [IHx IH], Hl as [Hx Hl]. constructor; auto.
  - destruct (proj1 (freeze_dict_ok _ _) Hf) as (_ & items & -> & _).
    inversion Hu as [| | | | | | |? Hnd Hd]; subst.
    apply (freeze_items_again d); [done..|]. intros k w Hin.
    destruct (freeze_dict_items _ _ Hf) as [_ _ Hi]. destruct (Hi _ _ Hin) as (v & Hv & _ & Hw).
    rewrite Forall_forall in IH, Hd. apply (IH (KStr k, v)); [done|by apply (Hd (KStr k, v))|done].
  - done.
Qed.

(** ** No secrets in the journal *)

(** The fields of a frozen value, at every depth. *)
#[warnings="-register-all"]
Inductive field_of (k : pystr) (w : frozen) : frozen → Prop :=
| field_here d : (k, w) ∈ d → field_of k w (FMap d)
| field_below d k' w' : (k', w') ∈ d → field_of k w w' → field_of k w (FMap d)
| field_item l w' : w' ∈ l → field_of k w w' → field_of k w (FTuple l).

Lemma freeze_map_inv v d : _freeze_json v = Ok (FMap d) → ∃ d', v = VDict d'.
Proof.
  destruct v as [| | |f0| |l|d'|]; try done; simpl; try by case_match.
  - by intros (? & _ & ?)%result_bind_ok.
  - eauto.
Qed.

Lemma freeze_tuple_inv v l : _freeze_json v = Ok (FTuple l) → ∃ l', v = VList l'.
Proof.
  destruct v as [| | |f0| |l'|d'|]; try done; simpl; try by case_match.
  - eauto.
  - case_match; [|done]. by intros (? & _ & ?)%result_bind_ok.
Qed.

Lemma field_validated v f k w :
  unique_keys v → _freeze_json v = Ok f → field_of k w f →
  ∃ v', unique_keys v' ∧ _validate_credential_metadata (_normalize_key k) v' = Ok tt ∧ _freeze_json v' = Ok w.
Proof.
  intros Hu Hf Hk. revert v Hu Hf. induction Hk as [d Hin|d k' w' Hin _ IH|l w' Hin _ IH]; intros v Hu Hf.
  - destruct (freeze_map_inv _ _ Hf) as [d' ->]. destruct (freeze_dict_items _ _ Hf) as [_ _ Hi].
    destruct (Hi _ _ Hin) as (v & Hv & ? & ?). inversion Hu as [| | | | | | |? _ Hd]; subst.
    rewrite Forall_forall in Hd. exists v. split_and!; [by apply (Hd (KStr k, v))|done|done].
  - destruct (freeze_map_inv _ _ Hf) as [d' ->]. destruct (freeze_dict_items _ _ Hf) as [_ _ Hi].
    destruct (Hi _ _ Hin) as (v & Hv & _ & Hw). inversion Hu as [| | | | | | |? _ Hd]; subst.
    rewrite Forall_forall in Hd. apply (IH v); [by apply (Hd (KStr k', v))|done].
  - destruct (freeze_tuple_inv _ _ Hf) as [l' ->]. apply freeze_list_ok in Hf as (ys & [= <-] & Hys).
    apply list_elem_of_lookup in Hin as [i Hi]. inversion Hu as [| | | | | |? Hl|]; subst.
    destruct (Forall2_lookup_r _ _ _ _ _ Hys Hi) as (x & Hx' & Hx).
    apply (IH x); [|done]. rewrite Forall_forall in Hl. by eapply Hl, list_elem_of_lookup_2.
Qed.

(** *** The form of a sensitive value *)

Definition identifier_text (w : frozen) : Prop := ∃ s, w = FStr s ∧ _IDENTIFIER_RE s = true.

(** Counts, in groups of any depth, and nothing else. *)
#[warnings="-register-all"]
Inductive counts : frozen → Prop :=
| counts_here z : (0 ≤ z)%Z → counts (FInt z)
| counts_group d : (∀ k w, (k, w) ∈ d → counts w) → counts (FMap d).

(** The record of a resource: kind and name are identifiers. *)
Definition resource_record (w : frozen) : Prop :=
  ∃ d r, w = FMap d ∧ ResourceRef_from_dict (_thaw_json w) = Ok r ∧
    _IDENTIFIER_RE (rr_kind r) = true ∧ _IDENTIFIER_RE (rr_resource_id r) = true.

(** Text as [_required_text] accepts it, in its normal form. *)
Definition bounded_text (maximum : nat) (s : pystr) : Prop :=
  length (nfc (strip s)) ≤ maximum ∧ Forall (λ c, (32 ≤ c)%N) (nfc (strip s)).

(** A handle has these four fields and no other.  Its label is a bounded text. *)
Definition opaque_handle (w : frozen) : Prop :=
  ∃ handle_id label scope,
    w = FMap [(u "handle_id", FStr handle_id); (u "label", FStr label); (u "schema", FStr handle_schema);
              (u "scope", FStr scope)] ∧
    _IDENTIFIER_RE (nfc (strip handle_id)) = true ∧ _IDENTIFIER_RE (nfc (strip scope)) = true ∧ bounded_text 128 label.

(** What a field of each kind holds. *)
Definition opaque (kind : metadata_kind) (w : frozen) : Prop :=
  match kind with
  | KPlaintext => False
  | KIdentifier => identifier_text w
  | KIdentifiers => ∃ l, w = FTuple l ∧ Forall identifier_text l
  | KDigest => ∃ s, w = FStr s ∧ _SHA256_RE s = true
  | KBoolean => ∃ b, w = FBool b
  | KInteger => ∃ z, w = FInt z ∧ (0 ≤ z)%Z
  | KNullableInteger => w = FNone ∨ ∃ z, w = FInt z ∧ (0 ≤ z)%Z
  | KUsage => counts w
  | KReference => resource_record w
  | KReferences => ∃ l, w = FTuple l ∧ Forall resource_record l
  | KHandle => opaque_handle w
  end.

Lemma identifier_thaw w : is_identifier (_thaw_json w) = true → identifier_text w.
Proof. destruct w; try done. intros H. by eexists. Qed.

Lemma natural_thaw w : is_natural (_thaw_json w) = true → ∃ z, w = FInt z ∧ (0 ≤ z)%Z.
Proof. destruct w as [| |z| | | |]; try done. intros H%Z.leb_le. eauto. Qed.

Lemma counts_thaw w : valid_usage (_thaw_json w) = true → counts w.
Proof.
  induction w as [| |z| | | |d IH] using frozen_nested_ind; try done.
  - intros H%Z.leb_le. by constructor.
  - intros H. change (valid_usage (VDict (thaw_items d)) = true) in H. rewrite valid_usage_dict in H.
    constructor. intros k w Hin. rewrite Forall_forall in IH. apply (IH (k, w) Hin). apply (H (KStr k)).
    apply list_elem_of_fmap. by exists (k, w).
Qed.

Lemma required_identifier v m t : _required_text v m true = Ok t → _IDENTIFIER_RE t = true.
Proof.
  unfold _required_text. destruct v; try done. repeat case_match; try done. intros [= <-].
  match goal with H : true && negb _ = false |- _ => by apply negb_false_iff in H end.
Qed.

Lemma reference_thaw w : is_reference (_thaw_json w) = true → resource_record w.
Proof.
  destruct w as [| | | | | |d]; try done. unfold is_reference. cbn [_thaw_json].
  destruct (ResourceRef_from_dict _) as [r|e] eqn:E; [|done]. intros _. exists d, r. split_and!; [done|done|..].
  all: unfold ResourceRef_from_dict in E; apply result_bind_ok in E as (raw & _ & E); unfold make_ResourceRef in E.
  all: apply result_bind_ok in E as (kind & Hk%required_identifier & (id & Hi%required_identifier & E)%result_bind_ok).
  all: apply result_bind_ok in E as (rev & _ & (fragment & _ & E)%result_bind_ok); case_match; [done|]; by injection E as <-.
Qed.

Lemma text_thaw w m i t :
  _required_text (_thaw_json w) m i = Ok t →
  ∃ s, w = FStr s ∧ (i = true → _IDENTIFIER_RE (nfc (strip s)) = true) ∧ bounded_text m s.
Proof.
  destruct w as [| | | |s| |]; try done. cbn [_thaw_json]. intros H. exists s. split; [done|]. unfold _required_text in H.
  destruct (_ || _) eqn:E1 in H; [done|]. destruct (existsb _ _) eqn:E2 in H; [done|]. bsimpl. split.
  - intros ->. cbn [andb] in H. by destruct (_IDENTIFIER_RE _).
  - split; [by apply Nat.ltb_ge|]. apply Forall_forall. intros c Hc. apply N.ltb_ge. destruct (c <? 32)%N eqn:Ec; [|done].
    rewrite <-E2. symmetry. apply existsb_exists. exists c. by rewrite <-list_elem_of_In.
Qed.

Lemma forallb_thaw_inv (p : pyval → bool) (P : frozen → Prop) w :
  (∀ w, p (_thaw_json w) = true → P w) →
  (match _thaw_json w with VList l => forallb p l | _ => false end) = true → ∃ l, w = FTuple l ∧ Forall P l.
Proof.
  intros Hp H. destruct w as [| | | | |l|]; try done. exists l. split; [done|]. cbn [_thaw_json] in H.
  rewrite forallb_forall in H. apply Forall_forall. intros w Hin. apply Hp, H, list_elem_of_In. by apply list_elem_of_fmap_2.
Qed.

(** Sorted items with just these names *)
Lemma items_named (items : list (pystr * frozen)) (names : list string) :
  StronglySorted item_le items → NoDup items.*1 → NoDup (u <$> names) →
  StronglySorted item_le ((λ n, (u n, tt)) <$> names) →
  has_exactly (thaw_items items) names = true → items.*1 = u <$> names.
Proof.
  intros Hs Hnd Hnn Hsn H. unfold has_exactly in H. apply andb_true_iff in H as [H1 H2]. rewrite forallb_forall in H1, H2.
  assert (keys (thaw_items items) = KStr <$> items.*1) as Hk.
  { unfold keys, thaw_items. by rewrite <-!list_fmap_compose. }
  assert (items.*1 ≡ₚ u <$> names) as Hp.
  { apply NoDup_Permutation; [done|done|]. intros k. split; intros Hin.
    - specialize (H1 (KStr k)). rewrite <-list_elem_of_In, Hk, bool_decide_eq_true in H1.
      specialize (H1 (list_elem_of_fmap_2 _ _ _ Hin)). apply list_elem_of_fmap in H1 as (n & [= ->] & Hn).
      by apply list_elem_of_fmap_2.
    - apply list_elem_of_fmap in Hin as (n & -> & Hn). specialize (H2 (KStr (u n))).
      rewrite <-list_elem_of_In, Hk, bool_decide_eq_true in H2.
      specialize (H2 (list_elem_of_fmap_2 (λ s, KStr (u s)) _ _ Hn)). apply list_elem_of_fmap in H2 as (k & [= <-] & ?). done. }
  assert (((λ k, (k, tt)) <$> items.*1) = ((λ n, (u n, tt)) <$> names)) as Heq.
  { apply sorted_items_unique.
    - by rewrite <-list_fmap_compose, list_fmap_id.
    - rewrite Hp. by rewrite <-list_fmap_compose.
    - eapply sorted_keys; [|exact Hs]. by rewrite <-list_fmap_compose, list_fmap_id.
    - done. }
  apply (f_equal (fmap fst)) in Heq. rewrite <-!list_fmap_compose in Heq.
  exact Heq.
Qed.

Lemma has_exactly_perm d names names' :
  names ≡ₚ names' → has_exactly d names = true → has_exactly d names' = true.
Proof.
  intros Hp. unfold has_exactly. rewrite !andb_true_iff, !forallb_forall. setoid_rewrite <-list_elem_of_In.
  setoid_rewrite bool_decide_eq_true. by setoid_rewrite Hp.
Qed.

Lemma handle_thaw items :
  StronglySorted item_le items → NoDup items.*1 →
  validate_handle (VDict (thaw_items items)) = Ok tt → opaque_handle (FMap items).
Proof.
  intros Hs Hnd H. unfold validate_handle in H. apply result_bind_ok in H as ([] & Hx%ensure_ok & H).
  assert (has_exactly (thaw_items items) ["handle_id"; "label"; "schema"; "scope"] = true) as Hx'.
  { eapply has_exactly_perm, Hx. by apply (bool_decide_unpack _). }
  apply items_named in Hx'; [|done|done|by apply (bool_decide_unpack _)|].
  2: { repeat constructor; by vm_compute. }
  destruct items as [|[k1 w1] [|[k2 w2] [|[k3 w3] [|[k4 w4] [|]]]]]; try done. injection Hx' as -> -> -> ->.
  apply result_bind_ok in H as ([] & Hsch%ensure_ok & (a & Ha & (b & Hb & (c & Hc & _)%result_bind_ok)%result_bind_ok)%result_bind_ok).
  change (_required_text (_thaw_json w1) 256 true = Ok a) in Ha. change (_required_text (_thaw_json w2) 128 false = Ok b) in Hb.
  change (_required_text (_thaw_json w4) 256 true = Ok c) in Hc. change (py_eq (_thaw_json w3) (VStr handle_schema) = true) in Hsch.
  apply text_thaw in Ha as (h & -> & Hh & _), Hb as (l & -> & _ & Hl), Hc as (sc & -> & Hsc & _).
  destruct w3 as [| | | |s3| |]; try done. apply bool_decide_eq_true in Hsch as ->. exists h, l, sc. auto.
Qed.

Lemma validated_opaque key v w kind :
  unique_keys v → _freeze_json v = Ok w → _validate_credential_metadata key v = Ok tt →
  _credential_metadata_kind key = Some kind → opaque kind w.
Proof.
  intros Hu Hf Hv Hk. pose proof (validate_stable _ _ _ Hu Hf Hv) as Hw. unfold _validate_credential_metadata in Hw.
  rewrite Hk in Hw. destruct kind; cbn [opaque]; rewrite ?ensure_ok in Hw; try done.
  - by apply natural_thaw.
  - destruct w; try done. by eexists.
  - destruct w; try done. by eexists.
  - destruct w as [| | | | | |items]; try done. destruct (freeze_map_inv _ _ Hf) as [d ->].
    destruct (freeze_dict_items _ _ Hf) as [Hs Hkeys _]. inversion Hu as [| | | | | | |? Hnd _]; subst.
    apply handle_thaw; [done| |done]. apply (NoDup_fmap_1 KStr). by rewrite Hkeys.
  - by apply identifier_thaw.
  - apply (forallb_thaw_inv is_identifier); [apply identifier_thaw|done].
  - by apply reference_thaw.
  - apply (forallb_thaw_inv is_reference); [apply reference_thaw|done].
  - by apply counts_thaw.
  - apply orb_true_iff in Hw as [Hw|Hw]; [left; by destruct w|right; by apply natural_thaw].
Qed.

End freeze_lemmas.
