(* ===== verification/ResourceLimits.v ===== *)
(** * Resource limits of JSON records (src/unchain/journal/resource_limits.py)

    Before a record crosses a durable boundary it is measured: depth, number of
    nodes and the length of its compact UTF-8 encoding, counted without building
    the encoding and given up at the first limit that is passed.  The main
    result is that the count is the length of the encoding.

    The walk keeps the two counters as state.  Values are trees here, so the
    check for circular containers never fires; a record adapter is a change of
    representation that is applied before ([to_dict] of the records). *)

From S2P Require Import Prelude PyVal Json.

Inductive dimension : Type := DItems | DBytes | DDepth | DNodes.

Inductive limit_error : Type :=
| BoundaryResourceLimitError (dim : dimension) (limit observed : Z)
(** [ValueError]: a surrogate, a huge integer, a number that is not finite *)
| InvalidValue
(** [TypeError]: not JSON, or a key that is not text *)
| NonJson.

#[export] Instance dimension_eq_dec : EqDecision dimension.
Proof. solve_decision. Defined.
#[export] Instance limit_error_eq_dec : EqDecision limit_error.
Proof. solve_decision. Defined.

Record JsonResourceLimits : Type := mkLimits {
  max_items : Z;
  max_bytes : Z;
  max_depth : Z;
  max_nodes : Z;
}.

(** [JsonResourceLimits(...)]; [None] is the [ValueError]. *)
Definition make_JsonResourceLimits (items bytes depth nodes : pyval) : option JsonResourceLimits :=
  let positive v := z ← exact_int v; if (z <=? 0)%Z then None else Some z in
  i ← positive items; b ← positive bytes; d ← positive depth; n ← positive nodes;
  Some (mkLimits i b d n).

Definition enforce_item_limit (count : nat) (limits : JsonResourceLimits) : result limit_error unit :=
  if (max_items limits <? Z.of_nat count)%Z
  then Err (BoundaryResourceLimitError DItems (max_items limits) (Z.of_nat count))
  else Ok tt.

(** The counters [node_count] and [byte_count]. *)
Record counters : Type := mkCounters {
  node_count : Z;
  byte_count : Z;
}.

(** Bytes of one character inside a JSON string; [None] for a surrogate. *)
Definition char_bytes (c : N) : option Z :=
  if bool_decide (c ∈ [34; 92; 8; 9; 10; 12; 13]%N) then Some 2%Z
  else if (c <? 32)%N then Some 6%Z
  else if is_surrogate c then None
  else Some (Z.of_nat (length (utf8_char c))).

Section walk.
Context (limits : JsonResourceLimits).

Abbreviation W := (M counters limit_error).

Definition reject {A} (dim : dimension) (limit observed : Z) : W A :=
  raise (BoundaryResourceLimitError dim limit observed).

Definition add_bytes (amount : Z) : W unit :=
  _ ← modify (λ c, mkCounters (node_count c) (byte_count c + amount));
  total ← gets byte_count;
  if (max_bytes limits <? total)%Z then reject DBytes (max_bytes limits) total else mret tt.

(** The loop of [string_bytes]: it stops as soon as the limit is passed. *)
Fixpoint string_loop (used size : Z) (text : pystr) : result limit_error Z :=
  match text with
  | [] => Ok size
  | c :: text =>
      match char_bytes c with
      | None => Err InvalidValue
      | Some n =>
          if (max_bytes limits <? used + (size + n))%Z then Ok (max_bytes limits + 1)%Z
          else string_loop used (size + n) text
      end
  end.

Definition string_bytes (text : pystr) : W Z :=
  used ← gets byte_count; lift (string_loop used 2 text).

Definition count_node : W unit :=
  _ ← modify (λ c, mkCounters (node_count c + 1) (byte_count c));
  total ← gets node_count;
  if (max_nodes limits <? total)%Z then reject DNodes (max_nodes limits) total else mret tt.

Definition container_bytes (n : nat) : Z := 2 + Z.max 0 (Z.of_nat n - 1).

Fixpoint walk (item : pyval) (depth : Z) : W unit :=
  _ ← (if (max_depth limits <? depth)%Z then reject DDepth (max_depth limits) depth else mret tt);
  _ ← count_node;
  match item with
  | VNone => add_bytes 4
  | VBool b => add_bytes (if b then 4 else 5)
  | VStr s => n ← string_bytes s; add_bytes n
  | VInt z =>
      (* [except ValueError] also covers the rejection of the byte limit *)
      match int_repr z with
      | Some s => try_except (add_bytes (Z.of_nat (length s))) (λ _, raise InvalidValue)
      | None => raise InvalidValue
      end
  | VFloat f =>
      if is_finite f then
        match utf8 (float_repr f) with
        | Some bs => add_bytes (Z.of_nat (length bs))
        | None => raise InvalidValue
        end
      else raise InvalidValue
  | VDict d =>
      _ ← add_bytes (container_bytes (length d));
      (fix items d :=
         match d with
         | [] => mret tt
         | (KStr key, child) :: d =>
             n ← string_bytes key; _ ← add_bytes (n + 1)%Z; _ ← walk child (depth + 1)%Z; items d
         | (KObj _ _, _) :: _ => raise NonJson
         end) d
  | VList l =>
      _ ← add_bytes (container_bytes (length l));
      (fix items l :=
         match l with
         | [] => mret tt
         | child :: l => _ ← walk child (depth + 1)%Z; items l
         end) l
  | VObj _ _ => raise NonJson
  end.

Definition validate_json_resource (value : pyval) : result limit_error unit :=
  fst (walk value 0 (mkCounters 0 0)).
End walk.
#[global] Arguments add_bytes : simpl never.
#[global] Arguments string_bytes : simpl never.
#[global] Arguments count_node : simpl never.
#[global] Arguments container_bytes : simpl never.

(** ** Measures *)

(** Every key is text and no value is of another class. *)
Fixpoint text_keys (v : pyval) : bool :=
  match v with
  | VList l => forallb text_keys l
  | VDict d => forallb (λ kv, match kv.1 with KStr _ => true | KObj _ _ => false end && text_keys kv.2) d
  | _ => true
  end.

Fixpoint height (v : pyval) : nat :=
  match v with
  | VList l => foldr (λ x n, max (S (height x)) n) 0 l
  | VDict d => foldr (λ kv n, max (S (height kv.2)) n) 0 d
  | _ => 0
  end.

Fixpoint nodes (v : pyval) : nat :=
  match v with
  | VList l => S (foldr (λ x n, nodes x + n) 0 l)
  | VDict d => S (foldr (λ kv n, nodes kv.2 + n) 0 d)
  | _ => 1
  end.

(** The compact encoding: [json.dumps(...).encode("utf-8")]. *)
Definition encoded (v : pyval) : option (list N) := dumps v ≫= utf8.

(** ** What a walk costs

    [costs m n b P]: from counters within the limits, [m] returns exactly when
    [P] holds and adding [n] nodes and [b] bytes stays within them; then that
    is what it adds. *)

Fixpoint chars_size (s : pystr) : option Z :=
  match s with
  | [] => Some 0%Z
  | c :: s => n ← char_bytes c; m ← chars_size s; Some (n + m)%Z
  end.

Definition str_size (s : pystr) : option Z := n ← chars_size s; Some (2 + n)%Z.

Fixpoint size (v : pyval) : option Z :=
  match v with
  | VNone => Some 4%Z
  | VBool b => Some (if b then 4 else 5)%Z
  | VStr s => str_size s
  | VInt z => s ← int_repr z; Some (Z.of_nat (length s))
  | VFloat f => if is_finite f then bs ← utf8 (float_repr f); Some (Z.of_nat (length bs)) else None
  | VList l =>
      n ← (fix go l := match l with
                       | [] => Some 0%Z
                       | x :: l => a ← size x; b ← go l; Some (a + b)%Z
                       end) l;
      Some (container_bytes (length l) + n)%Z
  | VDict d =>
      n ← (fix go d := match d with
                       | [] => Some 0%Z
                       | (KStr k, x) :: d => s ← str_size k; a ← size x; b ← go d; Some (s + 1 + a + b)%Z
                       | (KObj _ _, _) :: _ => None
                       end) d;
      Some (container_bytes (length d) + n)%Z
  | VObj _ _ => None
  end.

Lemma char_bytes_pos c n : char_bytes c = Some n → (0 ≤ n)%Z.
Proof. unfold char_bytes. repeat case_match; intros; simplify_eq; lia. Qed.

Lemma chars_size_pos s n : chars_size s = Some n → (0 ≤ n)%Z.
Proof.
  revert n. induction s as [|c s IH]; simpl; intros n H; [by simplify_eq|].
  destruct (char_bytes c) eqn:Ec; simplify_eq/=. destruct (chars_size s); simplify_eq/=.
  apply char_bytes_pos in Ec. specialize (IH _ eq_refl). lia.
Qed.

Section costs.
Context (limits : JsonResourceLimits).

Definition within (c : counters) : Prop :=
  (node_count c ≤ max_nodes limits ∧ 0 ≤ byte_count c ≤ max_bytes limits)%Z.

Definition plus (c : counters) (n b : Z) : counters :=
  mkCounters (node_count c + n) (byte_count c + b).

Definition costs (m : M counters limit_error unit) (n b : Z) (P : Prop) : Prop :=
  (0 ≤ n ∧ 0 ≤ b)%Z ∧
  ∀ c c', within c → m c = (Ok tt, c') ↔ P ∧ c' = plus c n b ∧ within c'.

Lemma costs_ret : costs (mret tt) 0 0 True.
Proof.
  split; [done|]. intros [n b] c' Hc. unfold plus. simpl. rewrite !Z.add_0_r.
  split; [|naive_solver]. intros [= <-]. auto.
Qed.

Lemma costs_raise e : costs (raise e) 0 0 False.
Proof. split; [done|]. naive_solver. Qed.

Lemma costs_iff m n b P Q : (P ↔ Q) → costs m n b P → costs m n b Q.
Proof. intros HPQ [Hn H]. split; [done|]. intros c c' Hc. rewrite H by done. naive_solver. Qed.

(** The figures matter only when the walk can succeed. *)
Lemma costs_eq m n b P n' b' Q :
  (0 ≤ n' ∧ 0 ≤ b')%Z → (P ↔ Q) → (P → n = n' ∧ b = b') → costs m n b P → costs m n' b' Q.
Proof.
  intros Hn' HPQ Heq [Hn H]. split; [done|]. intros c c' Hc. rewrite H by done. naive_solver.
Qed.

Lemma costs_ext m m' n b P : (∀ c, m c = m' c) → costs m n b P → costs m' n b P.
Proof. intros Heq [Hn H]. split; [done|]. intros c c' Hc. rewrite <-Heq. by apply H. Qed.

Lemma costs_seq m f n b P n' b' P' :
  costs m n b P → costs (f tt) n' b' P' → costs (m ≫= f) (n + n') (b + b') (P ∧ P').
Proof.
  intros [[Hn Hb] Hm] [[Hn' Hb'] Hf]. split; [lia|]. intros c c' Hc. rewrite M_bind_ok. split.
  - intros ([] & c1 & (HP & -> & Hc1)%Hm & H); [|done]. apply Hf in H as (HP' & -> & Hc'); [|done].
    split_and!; [done..| |done]. unfold plus. simpl. f_equal; lia.
  - intros ([HP HP'] & -> & Hc'). exists tt, (plus c n b).
    assert (within (plus c n b)) as Hw by (unfold within, plus in *; simpl in *; lia). split.
    + by apply Hm.
    + apply Hf; [done|]. split_and!; [done| |done]. unfold plus. simpl. f_equal; lia.
Qed.

Lemma costs_count : costs (count_node limits) 1 0 True.
Proof.
  split; [lia|]. intros [n b] c' Hc. unfold count_node, within, plus in *. unfold_monad.
  rewrite Z.add_0_r. case_match; bsimpl; simpl in *; (split; [intros [= <-]|intros (_ & -> & ?)]);
    simpl in *; done || lia || (split_and!; done || lia).
Qed.

Lemma costs_add a : (0 ≤ a)%Z → costs (add_bytes limits a) 0 a True.
Proof.
  intros Ha. split; [lia|]. intros [n b] c' Hc. unfold add_bytes, within, plus in *. unfold_monad.
  rewrite Z.add_0_r. case_match; bsimpl; simpl in *; (split; [intros [= <-]|intros (_ & -> & ?)]);
    simpl in *; done || lia || (split_and!; done || lia).
Qed.

Lemma costs_depth d :
  costs (if (max_depth limits <? d)%Z then reject DDepth (max_depth limits) d else mret tt) 0 0
    (d ≤ max_depth limits)%Z.
Proof.
  case_match; bsimpl.
  - eapply costs_iff, costs_raise. lia.
  - eapply costs_iff, costs_ret. naive_solver lia.
Qed.

Lemma string_loop_ok used n s r :
  (0 ≤ used)%Z → string_loop limits used n s = Ok r → (used + r ≤ max_bytes limits)%Z →
  ∃ t, chars_size s = Some t ∧ r = (n + t)%Z.
Proof.
  intros Hu. revert n. induction s as [|c s IH]; simpl; intros n H Hr.
  - simplify_eq. exists 0%Z. split; [done|lia].
  - destruct (char_bytes c) as [m|] eqn:Ec; [|done]. case_match; bsimpl; simplify_eq; [lia|].
    destruct (IH _ H Hr) as (t & Ht & ->). rewrite Ht. simpl. eexists. split; [done|]. lia.
Qed.

Lemma string_loop_fits used n s t :
  chars_size s = Some t → (used + (n + t) ≤ max_bytes limits)%Z →
  string_loop limits used n s = Ok (n + t)%Z.
Proof.
  revert n t. induction s as [|c s IH]; simpl; intros n t H Hr; simplify_eq/=; [by rewrite Z.add_0_r|].
  destruct (char_bytes c) as [m|] eqn:Ec; [|done]. simpl in H.
  destruct (chars_size s) as [t'|] eqn:Et; simplify_eq/=.
  assert (Hp := chars_size_pos _ _ Et). case_match; bsimpl; [lia|].
  rewrite (IH (n + m)%Z t'); [f_equal; lia|done|lia].
Qed.

(** Counting a string and [extra] more bytes. *)
Lemma costs_string s extra :
  (0 ≤ extra)%Z →
  costs (n ← string_bytes limits s; add_bytes limits (n + extra)%Z) 0
        (default 0%Z (str_size s) + extra) (is_Some (str_size s)).
Proof.
  intros He. assert (0 ≤ default 0%Z (str_size s))%Z as Hp.
  { unfold str_size. destruct (chars_size s) eqn:E; simpl; [|done]. apply chars_size_pos in E. lia. }
  split; [lia|]. intros c c' Hc. rewrite M_bind_ok. unfold string_bytes. unfold_monad. split.
  - intros (r & c1 & [= Hr <-] & Ha).
    assert (byte_count c + (r + extra) ≤ max_bytes limits)%Z as Hmax.
    { unfold add_bytes in Ha. unfold_monad_in Ha. case_match; bsimpl; [done|lia]. }
    destruct (string_loop_ok (byte_count c) 2 s r) as (t & Ht & ->); [apply Hc|done|lia|].
    unfold str_size. rewrite Ht. simpl. apply costs_add in Ha; [|apply chars_size_pos in Ht; lia|done].
    destruct Ha as (_ & -> & Hw). split_and!; [by eexists|done|done].
  - intros ([t Ht] & -> & Hw). rewrite Ht in *. simpl in *. unfold str_size in Ht.
    destruct (chars_size s) as [t'|] eqn:Es; simplify_eq/=.
    eexists _, c. split; [f_equal; apply string_loop_fits; [done|]|].
    + unfold within, plus in Hw. simpl in Hw. lia.
    + apply costs_add; [lia|done|]. done.
Qed.

(** The sizes of the items of a container, with their punctuation. *)
Definition list_size (l : list pyval) : option Z :=
  (fix go l := match l with
               | [] => Some 0%Z
               | x :: l => a ← size x; b ← go l; Some (a + b)%Z
               end) l.

Definition dict_size (d : pydict) : option Z :=
  (fix go d := match d with
               | [] => Some 0%Z
               | (KStr k, x) :: d => s ← str_size k; a ← size x; b ← go d; Some (s + 1 + a + b)%Z
               | (KObj _ _, _) :: _ => None
               end) d.

Definition walk_list (l : list pyval) (depth : Z) : M counters limit_error unit :=
  (fix items l := match l with
                  | [] => mret tt
                  | child :: l => _ ← walk limits child depth; items l
                  end) l.

Definition walk_dict (d : pydict) (depth : Z) : M counters limit_error unit :=
  (fix items d :=
     match d with
     | [] => mret tt
     | (KStr key, child) :: d =>
         n ← string_bytes limits key; _ ← add_bytes limits (n + 1)%Z;
         _ ← walk limits child depth; items d
     | (KObj _ _, _) :: _ => raise NonJson
     end) d.

(** The walk of one value costs its size, at a depth its height fits. *)
Definition walk_costs (v : pyval) : Prop :=
  ∀ depth, costs (walk limits v depth) (Z.of_nat (nodes v)) (default 0%Z (size v))
             (is_Some (size v) ∧ (depth + Z.of_nat (height v) ≤ max_depth limits)%Z).

Lemma size_pos v n : size v = Some n → (0 ≤ n)%Z.
Proof.
  revert n. induction v as [|b|z|f|s|l IH|d IH|c i] using pyval_nested_ind; intros n H; simpl in H.
  - simplify_eq; lia.
  - destruct b; simplify_eq; lia.
  - destruct (int_repr z); simplify_eq/=. lia.
  - case_match; [|done]. destruct (utf8 _); simplify_eq/=. lia.
  - unfold str_size in H. destruct (chars_size s) eqn:E; simplify_eq/=. apply chars_size_pos in E. lia.
  - fold (list_size l) in H. destruct (list_size l) as [m|] eqn:E; simplify_eq/=.
    assert (0 ≤ m)%Z; [|unfold container_bytes; lia]. revert m E.
    induction IH as [|x l Hx _ IHl]; intros m E; simpl in E; [by simplify_eq|].
    destruct (size x) as [a|] eqn:Ea; simplify_eq/=. fold (list_size l) in E.
    destruct (list_size l) as [b|] eqn:Eb; simplify_eq/=.
    specialize (Hx _ eq_refl). specialize (IHl _ eq_refl). lia.
  - fold (dict_size d) in H. destruct (dict_size d) as [m|] eqn:E; simplify_eq/=.
    assert (0 ≤ m)%Z; [|unfold container_bytes; lia]. revert m E.
    induction IH as [|[[k|] x] d Hx _ IHd]; intros m E; simpl in E; [by simplify_eq| |done].
    unfold str_size in E. destruct (chars_size k) as [t|] eqn:Et; simplify_eq/=.
    destruct (size x) as [a|] eqn:Ea; simplify_eq/=. fold (dict_size d) in E.
    destruct (dict_size d) as [b|] eqn:Eb; simplify_eq/=.
    specialize (Hx _ eq_refl). specialize (IHd _ eq_refl). apply chars_size_pos in Et. lia.
  - done.
Qed.

Lemma default_size_pos v : (0 ≤ default 0%Z (size v))%Z.
Proof. destruct (size v) eqn:E; simpl; [by eapply size_pos|done]. Qed.

Lemma list_size_pos l : (0 ≤ default 0%Z (list_size l))%Z.
Proof.
  induction l as [|x l IH]; simpl; [done|]. fold (list_size l). assert (Hx := default_size_pos x).
  destruct (size x), (list_size l); simpl in *; lia.
Qed.

Lemma walk_list_costs l depth :
  Forall walk_costs l →
  costs (walk_list l depth) (Z.of_nat (foldr (λ x n, nodes x + n) 0 l)) (default 0%Z (list_size l))
    (is_Some (list_size l) ∧
     Forall (λ x, (depth + Z.of_nat (height x) ≤ max_depth limits)%Z) l).
Proof.
  induction l as [|x l IH]; intros Hl.
  - eapply costs_iff, costs_ret. simpl. split; [|done]. intros _. split; [by eexists|constructor].
  - apply Forall_cons in Hl as [Hx Hl]. specialize (IH Hl).
    assert (Hseq := costs_seq _ (λ _, walk_list l depth) _ _ _ _ _ _ (Hx depth) IH).
    eapply costs_eq, Hseq; [split; [lia|apply list_size_pos]|..].
    + rewrite Forall_cons. simpl. fold (list_size l). unfold is_Some.
      destruct (size x), (list_size l); simpl; naive_solver.
    + intros [[[a Ha] _] [[b Hb] _]]. simpl. fold (list_size l). rewrite Ha, Hb. simpl. lia.
Qed.

Lemma dict_size_pos d : (0 ≤ default 0%Z (dict_size d))%Z.
Proof.
  induction d as [|[[k|] x] d IH]; simpl; [done| |done]. fold (dict_size d).
  assert (Hx := default_size_pos x). unfold str_size. destruct (chars_size k) eqn:E; simpl; [|done].
  apply chars_size_pos in E. destruct (size x), (dict_size d); simpl in *; lia.
Qed.

Lemma walk_dict_costs d depth :
  Forall (λ kv, walk_costs kv.2) d →
  costs (walk_dict d depth) (Z.of_nat (foldr (λ kv n, nodes kv.2 + n) 0 d)) (default 0%Z (dict_size d))
    (is_Some (dict_size d) ∧
     Forall (λ kv, (depth + Z.of_nat (height kv.2) ≤ max_depth limits)%Z) d).
Proof.
  induction d as [|[[k|cls i] x] d IH]; intros Hd.
  - eapply costs_iff, costs_ret. simpl. split; [|done]. intros _. split; [by eexists|constructor].
  - apply Forall_cons in Hd as [Hx Hd]. specialize (IH Hd). simpl in Hx.
    assert (Hseq := costs_seq _ (λ _, walk_dict d depth) _ _ _ _ _ _ (Hx depth) IH).
    assert (Hk := costs_string k 1 ltac:(lia)).
    assert (Hall := costs_seq _ (λ _, _ ← walk limits x depth; walk_dict d depth) _ _ _ _ _ _ Hk Hseq).
    apply (costs_ext _ (walk_dict ((KStr k, x) :: d) depth)) in Hall.
    + eapply costs_eq, Hall; [split; [lia|apply dict_size_pos]|..].
      * rewrite Forall_cons. simpl. fold (dict_size d). unfold is_Some.
        destruct (str_size k), (size x), (dict_size d); simpl; naive_solver.
      * intros [[s Hs] [[[a Ha] _] [[b Hb] _]]]. simpl. fold (dict_size d). rewrite Hs, Ha, Hb. simpl. lia.
    + intros c. unfold walk_dict, mbind, M_bind. fold (walk_dict d depth).
      by destruct (string_bytes limits k c) as [[n|e] c1].
  - eapply costs_eq, (costs_raise NonJson); [split; [lia|simpl; lia]| |done]. simpl. split; [done|]. by intros [[??] _].
Qed.

(** The children of a container are one level deeper. *)
Lemma height_list l depth :
  (depth ≤ max_depth limits ∧
   Forall (λ x, depth + 1 + Z.of_nat (height x) ≤ max_depth limits) l ↔
   depth + Z.of_nat (height (VList l)) ≤ max_depth limits)%Z.
Proof.
  simpl. induction l as [|x l IH]; simpl; [rewrite Forall_nil; lia|].
  rewrite Forall_cons. split.
  - intros (H1 & H2 & H3). assert (H4 := proj1 IH (conj H1 H3)). lia.
  - intros H. destruct (proj2 IH) as [H1 H3]; [lia|]. split_and!; [lia..|done].
Qed.

Lemma height_dict d depth :
  (depth ≤ max_depth limits ∧
   Forall (λ kv, depth + 1 + Z.of_nat (height kv.2) ≤ max_depth limits) d ↔
   depth + Z.of_nat (height (VDict d)) ≤ max_depth limits)%Z.
Proof.
  simpl. induction d as [|x d IH]; simpl; [rewrite Forall_nil; lia|].
  rewrite Forall_cons. split.
  - intros (H1 & H2 & H3). assert (H4 := proj1 IH (conj H1 H3)). lia.
  - intros H. destruct (proj2 IH) as [H1 H3]; [lia|]. split_and!; [lia..|done].
Qed.

(** One node: the depth check, the node count and the body. *)
Lemma costs_node depth body n b P :
  costs body n b P →
  costs (_ ← (if (max_depth limits <? depth)%Z then reject DDepth (max_depth limits) depth else mret tt);
         _ ← count_node limits; body) (1 + n) b ((depth ≤ max_depth limits)%Z ∧ P).
Proof.
  intros Hb. assert (Hc := costs_seq _ (λ _, body) _ _ _ _ _ _ costs_count Hb).
  assert (H := costs_seq _ (λ _, _ ← count_node limits; body) _ _ _ _ _ _ (costs_depth depth) Hc).
  eapply costs_eq, H; [destruct Hb; lia|naive_solver|intros _; lia].
Qed.

Lemma costs_leaf depth body b :
  costs body 0 (default 0%Z b) (is_Some b) →
  costs (_ ← (if (max_depth limits <? depth)%Z then reject DDepth (max_depth limits) depth else mret tt);
         _ ← count_node limits; body) 1 (default 0%Z b)
    (is_Some b ∧ (depth + 0 ≤ max_depth limits)%Z).
Proof.
  intros Hb. apply (costs_node depth) in Hb as Hn. eapply costs_eq, Hn; [destruct Hb; lia| |intros _; lia].
  rewrite Z.add_0_r. naive_solver.
Qed.

Lemma costs_some n : (0 ≤ n)%Z → costs (add_bytes limits n) 0 n (is_Some (Some n)).
Proof. intros Hn. eapply costs_iff, costs_add; [|done]. split; [by eexists|done]. Qed.

Lemma costs_none e : costs (raise e) 0 0 (is_Some (None : option Z)).
Proof. eapply costs_iff, costs_raise. split; [done|]. by intros [??]. Qed.

Lemma costs_try m n b P e : costs m n b P → costs (try_except m (λ _, raise e)) n b P.
Proof.
  intros [Hn H]. split; [done|]. intros c c' Hc. rewrite <-(H c c' Hc). unfold try_except.
  by destruct (m c) as [[]].
Qed.

Lemma walk_cost v : walk_costs v.
Proof.
  induction v as [|b|z|f|s|l IH|d IH|c i] using pyval_nested_ind; intros depth.
  - apply (costs_leaf depth _ (Some 4%Z)), costs_some. lia.
  - apply (costs_leaf depth _ (Some (if b then 4 else 5)%Z)), costs_some. destruct b; lia.
  - apply (costs_leaf depth _ (s ← int_repr z; Some (Z.of_nat (length s)))).
    destruct (int_repr z); [apply costs_try, costs_some; simpl; lia|apply costs_none].
  - apply (costs_leaf depth _ (if is_finite f then bs ← utf8 (float_repr f); Some (Z.of_nat (length bs)) else None)).
    destruct (is_finite f); [|apply costs_none].
    destruct (utf8 (float_repr f)); [apply costs_some; simpl; lia|apply costs_none].
  - apply (costs_leaf depth _ (str_size s)). assert (H := costs_string s 0 ltac:(lia)).
    rewrite Z.add_0_r in H. eapply costs_ext, H. intros c. unfold mbind, M_bind.
    destruct (string_bytes limits s c) as [[n|e] c1]; [|done]. by rewrite Z.add_0_r.
  - assert (Hl := walk_list_costs l (depth + 1) IH).
    assert (Ha := costs_add (container_bytes (length l)) ltac:(unfold container_bytes; lia)).
    assert (H := costs_node depth _ _ _ _ (costs_seq _ (λ _, walk_list l (depth + 1)) _ _ _ _ _ _ Ha Hl)).
    eapply costs_eq, H.
    + split; [lia|]. simpl. fold (list_size l). assert (Hp := list_size_pos l).
      destruct (list_size l); simpl in *; unfold container_bytes; lia.
    + rewrite <-height_list. simpl size. fold (list_size l). unfold is_Some. destruct (list_size l); simpl; naive_solver.
    + intros (_ & _ & [n Hn] & _). simpl. fold (list_size l). rewrite Hn. simpl. lia.
  - assert (Hl := walk_dict_costs d (depth + 1) IH).
    assert (Ha := costs_add (container_bytes (length d)) ltac:(unfold container_bytes; lia)).
    assert (H := costs_node depth _ _ _ _ (costs_seq _ (λ _, walk_dict d (depth + 1)) _ _ _ _ _ _ Ha Hl)).
    eapply costs_eq, H.
    + split; [lia|]. simpl. fold (dict_size d). assert (Hp := dict_size_pos d).
      destruct (dict_size d); simpl in *; unfold container_bytes; lia.
    + rewrite <-height_dict. simpl size. fold (dict_size d). unfold is_Some. destruct (dict_size d); simpl; naive_solver.
    + intros (_ & _ & [n Hn] & _). simpl. fold (dict_size d). rewrite Hn. simpl. lia.
  - apply (costs_leaf depth _ None), costs_none.
Qed.
End costs.

(** ** The size is the length of the encoding *)

(** Length in UTF-8; [None] when there is a surrogate. *)
Definition ulen (s : pystr) : option Z := bs ← utf8 s; Some (Z.of_nat (length bs)).

(** Sum of sizes, none of which may be missing. *)
Definition osum (l : list (option Z)) : option Z :=
  foldr (λ x acc, a ← x; b ← acc; Some (a + b)%Z) (Some 0%Z) l.

Lemma osum_perm l l' : l ≡ₚ l' → osum l = osum l'.
Proof.
  induction 1 as [|x l l' _ IH|x y l|l l' l'' _ IH1 _ IH2]; simpl; [done|by rewrite IH| |congruence].
  destruct x, y, (osum l); simpl; try done. f_equal. lia.
Qed.

Lemma ulen_app s t : ulen (s ++ t) = (a ← ulen s; b ← ulen t; Some (a + b)%Z).
Proof.
  unfold ulen, utf8, encodable. rewrite forallb_app.
  destruct (forallb _ s), (forallb _ t); simpl; try done.
  f_equal. rewrite bind_app, length_app. lia.
Qed.

Lemma ulen_cons c s : ulen (c :: s) = (a ← ulen [c]; b ← ulen s; Some (a + b)%Z).
Proof. apply (ulen_app [c] s). Qed.

Lemma ulen_char c : is_surrogate c = false → ulen [c] = Some (Z.of_nat (length (utf8_char c))).
Proof. intros H. unfold ulen, utf8, encodable. simpl. rewrite H. simpl. by rewrite app_nil_r. Qed.

Lemma ulen_ascii s : Forall (λ c, (c < 128)%N) s → ulen s = Some (Z.of_nat (length s)).
Proof.
  induction 1 as [|c s Hc _ IH]; [done|]. rewrite ulen_cons, IH, ulen_char.
  - unfold utf8_char. rewrite (proj2 (N.ltb_lt c 128)) by done. simpl. f_equal. lia.
  - unfold is_surrogate. apply andb_false_iff. left. apply N.leb_gt. lia.
Qed.

Lemma hex_digit_ascii n : (n < 16)%N → (hex_digit n < 128)%N.
Proof. unfold hex_digit. case_match; lia. Qed.

Lemma ulen_json_char c : ulen (json_char c) = char_bytes c.
Proof.
  unfold char_bytes. case_bool_decide as Hin.
  - repeat (apply elem_of_cons in Hin as [->|Hin]; [reflexivity|]). by apply elem_of_nil in Hin.
  - unfold json_char. repeat (case_match eqn:E; [apply N.eqb_eq in E; subst; set_solver|clear E]).
    case_match eqn:Hc.
    + apply N.ltb_lt in Hc. rewrite ulen_ascii; [done|].
      repeat constructor; try lia; apply hex_digit_ascii; [|by apply N.mod_lt].
      apply N.Div0.div_lt_upper_bound; lia.
    + destruct (is_surrogate c) eqn:Es; [|by rewrite ulen_char].
      unfold ulen, utf8, encodable. simpl. by rewrite Es.
Qed.

Lemma ulen_chars s : ulen (s ≫= json_char) = chars_size s.
Proof.
  induction s as [|c s IH]; [done|]. simpl. rewrite ulen_app, ulen_json_char.
  fold (mbind (M:=list) json_char s). by rewrite IH.
Qed.

Lemma ulen_json_str s : ulen (json_str s) = str_size s.
Proof.
  unfold json_str, str_size. rewrite ulen_app, ulen_app, ulen_chars.
  destruct (chars_size s); simpl; [|done]. f_equal. lia.
Qed.

Lemma ulen_join l :
  ulen (join (u ",") l) =
  (n ← osum (ulen <$> l); Some (n + Z.max 0 (Z.of_nat (length l) - 1))%Z).
Proof.
  induction l as [|x l IH]; [done|]. destruct l as [|y l].
  - simpl. destruct (ulen x); simpl; [f_equal; lia|done].
  - change (join (u ",") (x :: y :: l)) with (x ++ u "," ++ join (u ",") (y :: l)).
    rewrite !ulen_app, IH. rewrite (fmap_cons ulen x (y :: l)).
    change (ulen (u ",")) with (Some 1%Z).
    change (osum (ulen x :: ?t)) with (a ← ulen x; b ← osum t; Some (a + b)%Z).
    generalize (osum (ulen <$> (y :: l))). intros o.
    destruct (ulen x), o; simpl; try done. f_equal. lia.
Qed.

Lemma decimal_ascii n : Forall (λ c, (c < 128)%N) (decimal n).
Proof.
  unfold decimal. generalize (S (N.to_nat (N.size n))). intros fuel.
  assert (Forall (λ c, (c < 128)%N) ([] : pystr)) as H by constructor. revert H.
  generalize ([] : pystr). revert n. induction fuel as [|fuel IH]; intros n acc Hacc; simpl; [done|].
  assert (Forall (λ c, (c < 128)%N) (digit (n mod 10) :: acc)) as H.
  { constructor; [|done]. unfold digit. assert (n mod 10 < 10)%N by by apply N.mod_lt. lia. }
  case_match; [done|]. by apply IH.
Qed.

Lemma ulen_int z s : int_repr z = Some s → ulen s = Some (Z.of_nat (length s)).
Proof.
  unfold int_repr. intros H. case_match; simplify_eq. apply ulen_ascii.
  assert (Hd := decimal_ascii (Z.to_N (Z.abs z))). case_match; [|done]. by constructor.
Qed.

(** The texts of the items that [dumps] joins. *)
Definition dump_list (l : list pyval) : option (list pystr) :=
  (fix go l := match l with
               | [] => Some []
               | x :: l' => r ← dumps x; rs ← go l'; Some (r :: rs)
               end) l.

Definition dump_dict (d : pydict) : option (list (pystr * pystr)) :=
  (fix go d := match d with
               | [] => Some []
               | (k, x) :: d' => r ← dumps x; rs ← go d'; Some ((key_str k, r) :: rs)
               end) d.

Definition dump_item (p : pystr * pystr) : pystr := json_str p.1 ++ u ":" ++ p.2.

Lemma ulen_dump_item k t :
  ulen (dump_item (k, t)) = (s ← str_size k; a ← ulen t; Some (s + 1 + a)%Z).
Proof.
  unfold dump_item. cbn [fst snd]. rewrite ulen_app, ulen_app, ulen_json_str.
  change (ulen (u ":")) with (Some 1%Z).
  destruct (str_size k), (ulen t); simpl; try done. f_equal. lia.
Qed.

Lemma dump_list_size l :
  Forall (λ v, text_keys v = true → size v = dumps v ≫= ulen) l → forallb text_keys l = true →
  list_size l = dump_list l ≫= λ ts, osum (ulen <$> ts).
Proof.
  induction 1 as [|x l Hx _ IH]; simpl; [done|]. intros [Hk Hl]%andb_true_iff.
  fold (list_size l) (dump_list l). rewrite (Hx Hk), (IH Hl).
  destruct (dumps x); simpl; [|done]. destruct (dump_list l); simpl; [done|]. by destruct (ulen _).
Qed.

Lemma dump_dict_size d :
  Forall (λ kv, text_keys kv.2 = true → size kv.2 = dumps kv.2 ≫= ulen) d →
  text_keys (VDict d) = true →
  dict_size d = dump_dict d ≫= λ ts, osum (ulen <$> (dump_item <$> ts)).
Proof.
  simpl. induction 1 as [|[[k|] x] d Hx _ IH]; simpl; [done| |done]. intros [Hk Hd]%andb_true_iff.
  fold (dict_size d) (dump_dict d). simpl in Hx. rewrite (Hx Hk), (IH Hd).
  destruct (dumps x) as [t|]; simpl; [|by destruct (str_size k)].
  destruct (dump_dict d) as [ts|]; simpl.
  - fold (osum (ulen <$> (dump_item <$> ts))). rewrite ulen_dump_item.
    by destruct (str_size k), (ulen t), (osum _).
  - destruct (str_size k); simpl; [|done]. by destruct (ulen t).
Qed.

(** A container: brackets around joined items. *)
Lemma ulen_brackets a b ts n :
  ulen a = Some 1%Z → ulen b = Some 1%Z → length ts = n →
  ulen (a ++ join (u ",") ts ++ b) =
  (m ← osum (ulen <$> ts); Some (container_bytes n + m)%Z).
Proof.
  intros Ha Hb <-. rewrite !ulen_app, ulen_join, Ha, Hb. unfold container_bytes.
  destruct (osum _); simpl; [|done]. f_equal. lia.
Qed.

Lemma dump_list_length l ts : dump_list l = Some ts → length ts = length l.
Proof.
  revert ts. induction l as [|x l IH]; simpl; intros ts H; [by simplify_eq|].
  fold (dump_list l) in H. destruct (dumps x), (dump_list l); simplify_eq/=. by rewrite IH.
Qed.

Lemma dump_dict_length d ts : dump_dict d = Some ts → length ts = length d.
Proof.
  revert ts. induction d as [|[k x] d IH]; simpl; intros ts H; [by simplify_eq|].
  fold (dump_dict d) in H. destruct (dumps x), (dump_dict d); simplify_eq/=. by rewrite IH.
Qed.

Lemma size_encoded v : text_keys v = true → size v = dumps v ≫= ulen.
Proof.
  induction v as [|b|z|f|s|l IH|d IH|c i] using pyval_nested_ind; intros Hk; try done.
  - by destruct b.
  - simpl. destruct (int_repr z) eqn:E; simpl; [|done]. by rewrite (ulen_int _ _ E).
  - simpl. destruct (is_finite f); simpl; [|done]. unfold ulen. by destruct (utf8 _).
  - simpl. by rewrite ulen_json_str.
  - change (size (VList l)) with (n ← list_size l; Some (container_bytes (length l) + n)%Z).
    change (dumps (VList l)) with (ts ← dump_list l; Some (u "[" ++ join (u ",") ts ++ u "]")).
    rewrite (dump_list_size l IH Hk). destruct (dump_list l) as [ts|] eqn:E; [|done].
    apply dump_list_length in E. cbn [mbind option_bind].
    by rewrite (ulen_brackets _ _ _ (length l)).
  - change (size (VDict d)) with (n ← dict_size d; Some (container_bytes (length d) + n)%Z).
    change (dumps (VDict d)) with
      (ts ← dump_dict d; Some (u "{" ++ join (u ",") (dump_item <$> merge_sort key_le ts) ++ u "}")).
    rewrite (dump_dict_size d IH Hk). destruct (dump_dict d) as [ts|] eqn:E; [|done].
    apply dump_dict_length in E. cbn [mbind option_bind].
    assert (merge_sort key_le ts ≡ₚ ts) as Hp by apply merge_sort_Permutation.
    rewrite (ulen_brackets _ _ _ (length d)); [|done|done|by rewrite length_fmap, Hp].
    by rewrite (osum_perm (ulen <$> (dump_item <$> merge_sort key_le ts)) (ulen <$> (dump_item <$> ts)))
      by by rewrite Hp.
Qed.

(** A value that can be measured has text keys. *)
Lemma size_text_keys v n : size v = Some n → text_keys v = true.
Proof.
  revert n. induction v as [|b|z|f|s|l IH|d IH|c i] using pyval_nested_ind; intros n H; try done; simpl in *.
  - fold (list_size l) in H. destruct (list_size l) as [m|] eqn:E; [|done]. clear H. revert m E.
    induction IH as [|x l Hx _ IHl]; intros m E; simpl in *; [done|]. fold (list_size l) in E.
    destruct (size x) eqn:Ex; [|done]. simpl in E. destruct (list_size l) eqn:El; [|done].
    rewrite (Hx _ eq_refl). simpl. by eapply IHl.
  - fold (dict_size d) in H. destruct (dict_size d) as [m|] eqn:E; [|done]. clear H. revert m E.
    induction IH as [|[[k|] x] d Hx _ IHd]; intros m E; simpl in *; [done| |done]. fold (dict_size d) in E.
    destruct (str_size k); [|done]. simpl in E. destruct (size x) eqn:Ex; [|done]. simpl in E.
    destruct (dict_size d) eqn:Ed; [|done]. rewrite (Hx _ eq_refl). simpl. by eapply IHd.
Qed.

(** The check in terms of the three measures. *)
Lemma validate_size (limits : JsonResourceLimits) (v : pyval) :
  (0 ≤ max_bytes limits)%Z → (0 ≤ max_nodes limits)%Z →
  validate_json_resource limits v = Ok tt ↔
  (∃ n, size v = Some n ∧ (n ≤ max_bytes limits)%Z) ∧
  (Z.of_nat (height v) ≤ max_depth limits)%Z ∧ (Z.of_nat (nodes v) ≤ max_nodes limits)%Z.
Proof.
  intros Hb Hn. unfold validate_json_resource.
  assert (within limits (mkCounters 0 0)) as Hw by (unfold within; simpl; lia).
  destruct (walk_cost limits v 0%Z) as [[_ Hp] Hc].
  assert (fst (walk limits v 0%Z (mkCounters 0 0)) = Ok tt ↔
          ∃ c', walk limits v 0%Z (mkCounters 0 0) = (Ok tt, c')) as ->.
  { destruct (walk limits v 0%Z (mkCounters 0 0)) as [r c']. naive_solver. }
  setoid_rewrite (Hc _ _ Hw). unfold within, plus. simpl. split.
  - intros (c' & [[n Hsz] Hh] & -> & Hw'). rewrite Hsz in Hw'. simpl in Hw'.
    split_and!; [exists n; split; [done|lia]|lia..].
  - intros ((n & Hsz & Hle) & Hh & Hnd). rewrite Hsz in *. simpl in *.
    eexists. split_and!; [by eexists|lia|done|simpl; lia..].
Qed.

Lemma validate_ok (limits : JsonResourceLimits) (v : pyval) :
  (0 ≤ max_bytes limits)%Z → (0 ≤ max_nodes limits)%Z →
  validate_json_resource limits v = Ok tt ↔
  text_keys v = true ∧ (Z.of_nat (height v) ≤ max_depth limits)%Z ∧
  (Z.of_nat (nodes v) ≤ max_nodes limits)%Z ∧
  ∃ bs, encoded v = Some bs ∧ (Z.of_nat (length bs) ≤ max_bytes limits)%Z.
Proof.
  intros Hb Hn. rewrite validate_size by done. unfold encoded. split.
  - intros ((n & Hsz & Hle) & Hh & Hnd). assert (Hk := size_text_keys _ _ Hsz).
    rewrite size_encoded in Hsz by done. split_and!; [done..|].
    destruct (dumps v) as [t|]; [|done]. simpl in *. unfold ulen in Hsz.
    destruct (utf8 t) as [bs|]; simplify_eq/=. exists bs. split; [done|lia].
  - intros (Hk & Hh & Hnd & bs & He & Hl). assert (Hsz := size_encoded _ Hk).
    destruct (dumps v) as [t|]; [|done]. simpl in *. unfold ulen in Hsz. rewrite He in Hsz. simpl in Hsz.
    split_and!; [|done..]. by eexists.
Qed.

(** C36. The resource check is exact: it accepts a value just when the value is
    JSON (it can be encoded and its keys are text), its nesting does not
    exceed the depth limit, it has no more nodes than allowed, and its compact
    UTF-8 encoding is no longer than the byte limit.  The encoding is never
    built; the count is its length. *)
Theorem resource_check_is_exact (limits : JsonResourceLimits) (v : pyval) :
  (0 ≤ max_bytes limits)%Z → (0 ≤ max_nodes limits)%Z →
  validate_json_resource limits v = Ok tt ↔
  text_keys v = true ∧ (Z.of_nat (height v) ≤ max_depth limits)%Z ∧
  (Z.of_nat (nodes v) ≤ max_nodes limits)%Z ∧
  ∃ bs, encoded v = Some bs ∧ (Z.of_nat (length bs) ≤ max_bytes limits)%Z.
Proof. apply validate_ok. Qed.

(** A number that passes the byte limit is reported as an invalid integer: the
    handler for unprintable integers also catches the typed rejection, which any
    other value gets. *)
Example integer_past_limit_is_untyped :
  validate_json_resource (mkLimits 1 3 1 1) (VInt 1000) = Err InvalidValue ∧
  validate_json_resource (mkLimits 1 3 1 1) (VStr (u "10")) =
    Err (BoundaryResourceLimitError DBytes 3 4).
Proof. vm_compute. done. Qed.
