(* ===== verification/JournalRecords.v ===== *)
(** * Journal records (src/unchain/journal/models.py, events and pages)

    Append requests, persisted events, append results, pages and the receipt
    lookup of one tool call: constructors, wire shapes, and that every record a
    constructor accepts survives its wire shape. *)

From S2P Require Import Prelude PyVal Json Models Diagnostics JournalPayload.

(** ** Records with a wire shape *)

Class WireRecord (A : Type) : Type := {
  to_wire : A → pyval;
  from_wire : pyval → R A;
}.

#[export] Instance ResourceRef_wire `{Unicode} : WireRecord ResourceRef :=
  {| to_wire := ResourceRef_to_dict; from_wire := ResourceRef_from_dict |}.

(** A constructor argument that should be an array: absent, an array of
    instances and other values, or something else. *)
Inductive seq_arg (A : Type) : Type :=
| SNone
| SItems (l : list (arg A))
| SOther.
Arguments SNone {A}.
Arguments SItems {A} l.
Arguments SOther {A}.

Definition seq_of {A} (v : pyval) : seq_arg A :=
  match v with VNone => SNone | VList l => SItems (Val <$> l) | _ => SOther end.

Definition record_of {A} `{WireRecord A} (x : arg A) : R A :=
  match x with Inst a => Ok a | Val v => from_wire v end.

Definition _record_tuple {A} `{WireRecord A} (values : seq_arg A) : R (list A) :=
  match values with
  | SNone => Ok []
  | SItems l => mapR record_of l
  | SOther => Err TypeError
  end.

Definition instances {A} (l : list A) : seq_arg A := SItems (Inst <$> l).

(** [mapping.get(name)] on a frozen mapping *)
Definition items_get (d : list (pystr * frozen)) (name : string) : pyval :=
  default VNone (_thaw_json <$> assoc_get d (u name)).

Section records.
Context `{U : Unicode} `{F : UnicodeFold}.

(** ** Pending artifacts *)

Record PendingArtifact : Type := mkPendingArtifact {
  pa_content : list N;
  pa_media_type : pystr;
  pa_operation : OperationRef;
  pa_preview : pystr;
}.

(** [content] is [None] when it is not exactly [bytes]. *)
Definition make_PendingArtifact (content : option (list N)) (media_type : pyval)
    (operation : arg OperationRef) (preview : pyval) : R PendingArtifact :=
  content ← match content with Some c => Ok c | None => Err TypeError end;
  media_type ← _required_text media_type 255 false;
  operation ← match operation with Inst o => Ok o | Val v => OperationRef_from_dict v end;
  preview ← match preview with VStr s => Ok s | _ => Err TypeError end;
  Ok (mkPendingArtifact content media_type operation preview).

(** ** Append requests and events *)

Record JournalAppendRequest : Type := mkAppendRequest {
  ar_event_id : pystr;
  ar_event_type : pystr;
  ar_attempt : AttemptRef;
  ar_operation : OperationRef;
  ar_payload : list (pystr * frozen);
  ar_resource_refs : list ResourceRef;
}.

(** A payload is any mapping, frozen or not, given by its items. *)
Definition freeze_payload (payload : pyval) : R (list (pystr * frozen)) :=
  f ← _freeze_json payload;
  match f with FMap d => Ok d | _ => Err TypeError end.

Definition make_JournalAppendRequest (event_id event_type : pyval) (attempt : arg AttemptRef)
    (operation : arg OperationRef) (payload : pyval) (resource_refs : seq_arg ResourceRef)
    : R JournalAppendRequest :=
  event_id ← _required_text event_id 256 true;
  event_type ← _required_text event_type 256 true;
  attempt ← match attempt with Inst a => Ok a | Val v => AttemptRef_from_dict v end;
  operation ← match operation with Inst o => Ok o | Val v => OperationRef_from_dict v end;
  payload ← freeze_payload payload;
  resource_refs ← _record_tuple resource_refs;
  Ok (mkAppendRequest event_id event_type attempt operation payload resource_refs).

Definition append_request_schema : pystr := u "unchain.journal_append_request.v1".

Definition JournalAppendRequest_to_dict (r : JournalAppendRequest) : pyval :=
  VDict [field "schema" (VStr append_request_schema); field "event_id" (VStr (ar_event_id r));
         field "event_type" (VStr (ar_event_type r));
         field "attempt" (AttemptRef_to_dict (ar_attempt r));
         field "operation" (OperationRef_to_dict (ar_operation r));
         field "payload" (_thaw_json (FMap (ar_payload r)));
         field "resource_refs" (VList (ResourceRef_to_dict <$> ar_resource_refs r))].

(** [_record_tuple(raw.get("resource_refs", ()), ...)] *)
Definition refs_of_raw (raw : pydict) : R (list ResourceRef) :=
  match dict_get raw (KStr (u "resource_refs")) with
  | None => Ok []
  | Some v => _record_tuple (seq_of v)
  end.

Definition JournalAppendRequest_from_dict (value : pyval) : R JournalAppendRequest :=
  raw ← _record_data value append_request_schema
          ["event_id"; "event_type"; "attempt"; "operation"; "payload"] ["resource_refs"];
  attempt ← AttemptRef_from_dict (get raw "attempt");
  operation ← OperationRef_from_dict (get raw "operation");
  resource_refs ← refs_of_raw raw;
  make_JournalAppendRequest (get raw "event_id") (get raw "event_type") (Inst attempt)
    (Inst operation) (get raw "payload") (instances resource_refs).

Record JournalEvent : Type := mkEvent {
  je_request : JournalAppendRequest;
  je_store_seq : Z;
}.

Definition make_JournalEvent (event_id event_type : pyval) (attempt : arg AttemptRef)
    (operation : arg OperationRef) (store_seq payload : pyval) (resource_refs : seq_arg ResourceRef)
    : R JournalEvent :=
  request ← make_JournalAppendRequest event_id event_type attempt operation payload resource_refs;
  store_seq ← _bounded_int store_seq 1;
  Ok (mkEvent request store_seq).

Definition event_id (e : JournalEvent) : pystr := ar_event_id (je_request e).
Definition event_type (e : JournalEvent) : pystr := ar_event_type (je_request e).
Definition event_attempt (e : JournalEvent) : AttemptRef := ar_attempt (je_request e).
Definition event_operation (e : JournalEvent) : OperationRef := ar_operation (je_request e).
Definition event_payload (e : JournalEvent) : list (pystr * frozen) := ar_payload (je_request e).
Definition event_refs (e : JournalEvent) : list ResourceRef := ar_resource_refs (je_request e).

Definition event_schema : pystr := u "unchain.journal_event.v1".

Definition JournalEvent_to_dict (e : JournalEvent) : pyval :=
  VDict [field "schema" (VStr event_schema); field "event_id" (VStr (event_id e));
         field "event_type" (VStr (event_type e));
         field "attempt" (AttemptRef_to_dict (event_attempt e));
         field "operation" (OperationRef_to_dict (event_operation e));
         field "store_seq" (VInt (je_store_seq e));
         field "payload" (_thaw_json (FMap (event_payload e)));
         field "resource_refs" (VList (ResourceRef_to_dict <$> event_refs e))].

Definition JournalEvent_from_dict (value : pyval) : R JournalEvent :=
  raw ← _record_data value event_schema
          ["event_id"; "event_type"; "attempt"; "operation"; "store_seq"; "payload"]
          ["resource_refs"];
  attempt ← AttemptRef_from_dict (get raw "attempt");
  operation ← OperationRef_from_dict (get raw "operation");
  resource_refs ← refs_of_raw raw;
  make_JournalEvent (get raw "event_id") (get raw "event_type") (Inst attempt)
    (Inst operation) (get raw "store_seq") (get raw "payload") (instances resource_refs).

#[export] Instance JournalEvent_wire : WireRecord JournalEvent :=
  {| to_wire := JournalEvent_to_dict; from_wire := JournalEvent_from_dict |}.

(** ** The receipts of one tool call *)

Definition TOOL_EXECUTION_RECEIPT_TYPES : list pystr := u <$>
  ["tool_call"; "tool.started"; "tool.subagent_completion.sealed"; "tool_result";
   "tool.result"]%string.

Definition MAX_TOOL_EXECUTION_RECEIPTS : nat := 4.

Record ToolExecutionReceiptLookup : Type := mkLookup {
  lk_attempt : AttemptRef;
  lk_call_id : pystr;
  lk_events : list JournalEvent;
  lk_overflow : bool;
}.

(** The loop over the receipts, with the identities seen so far. *)
Fixpoint check_receipts (attempt : AttemptRef) (call_id : pystr) (previous : Z)
    (ids operations : list pystr) (events : list JournalEvent) : R unit :=
  match events with
  | [] => Ok tt
  | e :: events =>
      _ ← ensure (bool_decide (event_attempt e = attempt)) ModelValidationError;
      _ ← ensure (bool_decide (event_type e ∈ TOOL_EXECUTION_RECEIPT_TYPES)) ModelValidationError;
      _ ← ensure (py_eq (items_get (event_payload e) "call_id") (VStr call_id)) ModelValidationError;
      _ ← ensure (previous <? je_store_seq e)%Z ModelValidationError;
      _ ← ensure (negb (bool_decide (event_id e ∈ ids)
                        || bool_decide (op_operation_id (event_operation e) ∈ operations)))
            ModelValidationError;
      check_receipts attempt call_id (je_store_seq e) (event_id e :: ids)
        (op_operation_id (event_operation e) :: operations) events
  end.

Definition make_ToolExecutionReceiptLookup (attempt : arg AttemptRef) (call_id : pyval)
    (events : seq_arg JournalEvent) (overflow : pyval) : R ToolExecutionReceiptLookup :=
  attempt ← match attempt with Inst a => Ok a | Val v => AttemptRef_from_dict v end;
  call_id ← _required_text call_id 256 true;
  events ← _record_tuple events;
  _ ← ensure (length events <=? MAX_TOOL_EXECUTION_RECEIPTS) ModelValidationError;
  overflow ← match overflow with VBool b => Ok b | _ => Err TypeError end;
  _ ← check_receipts attempt call_id 0 [] [] events;
  Ok (mkLookup attempt call_id events overflow).

Definition lookup_schema : pystr := u "unchain.tool_execution_receipt_lookup.v1".

Definition ToolExecutionReceiptLookup_to_dict (l : ToolExecutionReceiptLookup) : pyval :=
  VDict [field "schema" (VStr lookup_schema); field "attempt" (AttemptRef_to_dict (lk_attempt l));
         field "call_id" (VStr (lk_call_id l));
         field "events" (VList (JournalEvent_to_dict <$> lk_events l));
         field "overflow" (VBool (lk_overflow l))].

Definition ToolExecutionReceiptLookup_from_dict (value : pyval) : R ToolExecutionReceiptLookup :=
  raw ← _record_data value lookup_schema ["attempt"; "call_id"; "events"; "overflow"] [];
  attempt ← AttemptRef_from_dict (get raw "attempt");
  events ← _record_tuple (seq_of (get raw "events"));
  make_ToolExecutionReceiptLookup (Inst attempt) (get raw "call_id") (instances events)
    (get raw "overflow").

(** ** Append results *)

Record JournalAppendResult : Type := mkAppendResult {
  rs_event : JournalEvent;
  rs_cursor : EventCursor;
  rs_duplicate : bool;
}.

Definition make_JournalAppendResult (event : arg JournalEvent) (cursor : arg EventCursor)
    (duplicate : pyval) : R JournalAppendResult :=
  event ← record_of event;
  cursor ← match cursor with Inst c => Ok c | Val v => EventCursor_from_dict v end;
  _ ← ensure (bool_decide (event_id event = ec_event_id cursor)
              && (je_store_seq event =? ec_store_seq cursor)%Z) ModelValidationError;
  duplicate ← match duplicate with VBool b => Ok b | _ => Err TypeError end;
  Ok (mkAppendResult event cursor duplicate).

Definition append_result_schema : pystr := u "unchain.journal_append_result.v1".

Definition JournalAppendResult_to_dict (r : JournalAppendResult) : pyval :=
  VDict [field "schema" (VStr append_result_schema); field "event" (JournalEvent_to_dict (rs_event r));
         field "cursor" (EventCursor_to_dict (rs_cursor r));
         field "duplicate" (VBool (rs_duplicate r))].

Definition JournalAppendResult_from_dict (value : pyval) : R JournalAppendResult :=
  raw ← _record_data value append_result_schema ["event"; "cursor"; "duplicate"] [];
  event ← JournalEvent_from_dict (get raw "event");
  cursor ← EventCursor_from_dict (get raw "cursor");
  make_JournalAppendResult (Inst event) (Inst cursor) (get raw "duplicate").

(** ** Pages *)

Record JournalPage : Type := mkPage {
  pg_events : list JournalEvent;
  pg_next_cursor : option EventCursor;
  pg_has_more : bool;
}.

(** [any(earlier.store_seq >= later.store_seq for ... in zip(events, events[1:]))] *)
Fixpoint increasing (events : list JournalEvent) : bool :=
  match events with
  | e :: ((e' :: _) as rest) => (je_store_seq e <? je_store_seq e')%Z && increasing rest
  | _ => true
  end.

Definition cursor_of (e : JournalEvent) : EventCursor := mkEventCursor (je_store_seq e) (event_id e).

Definition execution_of (e : JournalEvent) : pystr :=
  gr_execution_id (at_generation (event_attempt e)).

(** [len({...}) > 1] *)
Definition one_execution (events : list JournalEvent) : bool :=
  match events with
  | [] => true
  | e :: rest => forallb (λ e', bool_decide (execution_of e' = execution_of e)) rest
  end.

Definition page_consistent (events : list JournalEvent) (next_cursor : option EventCursor)
    (has_more : bool) : bool :=
  increasing events && bool_decide (NoDup (event_id <$> events)) && one_execution events
  && match last events with
     | Some e => bool_decide (next_cursor = Some (cursor_of e))
     | None => negb has_more
     end.

Definition make_JournalPage (events : seq_arg JournalEvent) (next_cursor : arg EventCursor)
    (has_more : pyval) : R JournalPage :=
  events ← _record_tuple events;
  next_cursor ← match next_cursor with
                | Val VNone => Ok None
                | Inst c => Ok (Some c)
                | Val v => c ← EventCursor_from_dict v; Ok (Some c)
                end;
  has_more ← match has_more with VBool b => Ok b | _ => Err TypeError end;
  if page_consistent events next_cursor has_more then Ok (mkPage events next_cursor has_more)
  else Err ModelValidationError.

Definition page_schema : pystr := u "unchain.journal_page.v1".

Definition opt_cursor (c : option EventCursor) : pyval :=
  match c with Some c => EventCursor_to_dict c | None => VNone end.

(** [EventCursor.from_dict(v) if v is not None else None] *)
Definition read_cursor (v : pyval) : R (arg EventCursor) :=
  match v with
  | VNone => Ok (Val VNone)
  | _ => c ← EventCursor_from_dict v; Ok (Inst c)
  end.

Definition JournalPage_to_dict (p : JournalPage) : pyval :=
  VDict [field "schema" (VStr page_schema);
         field "events" (VList (JournalEvent_to_dict <$> pg_events p));
         field "next_cursor" (opt_cursor (pg_next_cursor p));
         field "has_more" (VBool (pg_has_more p))].

Definition JournalPage_from_dict (value : pyval) : R JournalPage :=
  raw ← _record_data value page_schema ["events"; "next_cursor"; "has_more"] [];
  events ← _record_tuple (seq_of (get raw "events"));
  next_cursor ← read_cursor (get raw "next_cursor");
  make_JournalPage (instances events) next_cursor (get raw "has_more").
End records.

#[export] Instance frozen_eq_dec : EqDecision frozen.
Proof.
  assert (EqDecision spec_float) as Hf by solve_decision.
  refine (fix go v w {struct v} : Decision (v = w) :=
    match v, w with
    | FNone, FNone => left eq_refl
    | FBool b, FBool b' => cast_if (decide (b = b'))
    | FInt z, FInt z' => cast_if (decide (z = z'))
    | FFloat f, FFloat f' => cast_if (decide (f = f'))
    | FStr s, FStr s' => cast_if (decide (s = s'))
    | FTuple l, FTuple l' => cast_if (@decide (l = l') (@list_eq_dec _ go l l'))
    | FMap d, FMap d' => cast_if (@decide (d = d')
        (@list_eq_dec _ (@prod_eq_dec _ _ _ go) d d'))
    | _, _ => right _
    end); clear go; abstract congruence.
Defined.

(** ** Wire shapes *)

Lemma unique_keys_get raw name : unique_keys (VDict raw) → unique_keys (get raw name).
Proof.
  inversion 1 as [| | | | | | |? _ Hd]; subst. rewrite Forall_forall in Hd. unfold get.
  destruct (dict_get raw (KStr (u name))) as [v|] eqn:E; simpl; [|constructor].
  apply (Hd (KStr (u name), v)). by apply dict_get_Some_elem.
Qed.

Lemma record_data_inv `{Unicode} v schema required optional raw :
  _record_data v schema required optional = Ok raw → v = VDict raw.
Proof. unfold _record_data. intros. repeat case_match; congruence. Qed.

Lemma mapR_fmap {A B C} (f : B → R C) (g : A → B) l : mapR f (g <$> l) = mapR (f ∘ g) l.
Proof. induction l as [|a l IH]; [done|]. rewrite fmap_cons. cbn. by rewrite <-IH. Qed.

Lemma mapR_id {A} (f : A → R A) l : Forall (λ a, f a = Ok a) l → mapR f l = Ok l.
Proof. intros H. apply mapR_ok, Forall_Forall2_diag, H. Qed.

Section wire.
Context {A : Type} `{WireRecord A}.

(** [a] is read back from its wire shape. *)
Definition wire_wf (a : A) : Prop := from_wire (to_wire a) = Ok a.

Lemma record_tuple_instances (l : list A) : _record_tuple (instances l) = Ok l.
Proof. change (mapR record_of (Inst <$> l) = Ok l). rewrite mapR_fmap. apply mapR_id. by apply Forall_true. Qed.

Lemma record_tuple_wire (l : list A) :
  Forall wire_wf l → _record_tuple (seq_of (VList (to_wire <$> l))) = Ok l.
Proof. intros Hl. change (mapR record_of (Val (A:=A) <$> (to_wire <$> l)) = Ok l).
  rewrite !mapR_fmap. by apply mapR_id. Qed.

Lemma record_tuple_wf (P : pyval → Prop) (v : pyval) l :
  (∀ x a, P x → from_wire x = Ok a → wire_wf a) →
  (∀ xs, v = VList xs → Forall P xs) →
  _record_tuple (seq_of v) = Ok l → Forall wire_wf l.
Proof.
  intros Hfrom Hv. destruct v as [| | | | |xs| |]; try done.
  - intros [= <-]. constructor.
  - change (mapR record_of (Val (A:=A) <$> xs) = Ok l → Forall wire_wf l). rewrite mapR_fmap, mapR_ok. specialize (Hv xs eq_refl). intros H2.
    induction H2 as [|x a xs l Hx _ IH]; constructor.
    + apply Forall_cons in Hv as [Hp _]. by eapply Hfrom.
    + apply IH. by apply Forall_cons in Hv as [_ ?].
Qed.
End wire.

Section roundtrip.
Context `{U : Unicode} `{!UnicodeLaws U} `{F : UnicodeFold}.

(** What the constructors establish of the fields of an append request. *)
Record request_wf (r : JournalAppendRequest) : Prop := {
  rw_event_id : _required_text (VStr (ar_event_id r)) 256 true = Ok (ar_event_id r);
  rw_event_type : _required_text (VStr (ar_event_type r)) 256 true = Ok (ar_event_type r);
  rw_attempt : wf_AttemptRef (ar_attempt r);
  rw_operation : wf_OperationRef (ar_operation r);
  rw_payload : freeze_payload (_thaw_json (FMap (ar_payload r))) = Ok (ar_payload r);
  rw_refs : Forall wire_wf (ar_resource_refs r);
}.

Record event_wf (e : JournalEvent) : Prop := {
  ew_request : request_wf (je_request e);
  ew_seq : (1 ≤ je_store_seq e)%Z;
}.

Lemma freeze_payload_stable v d :
  unique_keys v → freeze_payload v = Ok d → freeze_payload (_thaw_json (FMap d)) = Ok d.
Proof.
  unfold freeze_payload. intros Hu (f & Hf & H)%result_bind_ok. destruct f; try done.
  injection H as ->. by rewrite (freeze_thaw _ _ Hu Hf).
Qed.

Lemma make_append_request_wf i t a o p rs r :
  arg_wf wf_AttemptRef a → arg_wf wf_OperationRef o → unique_keys p →
  (∀ l, _record_tuple rs = Ok l → Forall wire_wf l) →
  make_JournalAppendRequest i t a o p rs = Ok r → request_wf r.
Proof.
  intros Ha Ho Hp Hrs. unfold make_JournalAppendRequest.
  intros (i' & Hi & (t' & Ht & (a' & Ha' & (o' & Ho' & (p' & Hp' & (rs' & Hrs' & H)
    %result_bind_ok)%result_bind_ok)%result_bind_ok)%result_bind_ok)%result_bind_ok)%result_bind_ok.
  injection H as <-. split; simpl.
  - by eapply required_text_stable.
  - by eapply required_text_stable.
  - destruct a; simplify_eq/=; eauto using AttemptRef_from_dict_wf.
  - destruct o; simplify_eq/=; eauto using OperationRef_from_dict_wf.
  - by eapply freeze_payload_stable.
  - auto.
Qed.

Lemma make_request_instances r :
  request_wf r →
  make_JournalAppendRequest (VStr (ar_event_id r)) (VStr (ar_event_type r)) (Inst (ar_attempt r))
    (Inst (ar_operation r)) (_thaw_json (FMap (ar_payload r))) (instances (ar_resource_refs r)) = Ok r.
Proof.
  intros [Hi Ht Ha Ho Hp Hrs]. unfold make_JournalAppendRequest.
  rewrite Hi. cbn [mbind result_bind]. rewrite Ht. cbn [mbind result_bind].
  rewrite Hp. cbn [mbind result_bind]. rewrite record_tuple_instances. by destruct r.
Qed.

Lemma request_record r :
  JournalAppendRequest_from_dict (JournalAppendRequest_to_dict r) =
  (attempt ← AttemptRef_from_dict (AttemptRef_to_dict (ar_attempt r));
   operation ← OperationRef_from_dict (OperationRef_to_dict (ar_operation r));
   resource_refs ← _record_tuple (seq_of (VList (to_wire <$> ar_resource_refs r)));
   make_JournalAppendRequest (VStr (ar_event_id r)) (VStr (ar_event_type r)) (Inst attempt)
     (Inst operation) (_thaw_json (FMap (ar_payload r))) (instances resource_refs)).
Proof. reflexivity. Qed.

Lemma event_record e :
  JournalEvent_from_dict (JournalEvent_to_dict e) =
  (attempt ← AttemptRef_from_dict (AttemptRef_to_dict (event_attempt e));
   operation ← OperationRef_from_dict (OperationRef_to_dict (event_operation e));
   resource_refs ← _record_tuple (seq_of (VList (to_wire <$> event_refs e)));
   make_JournalEvent (VStr (event_id e)) (VStr (event_type e)) (Inst attempt)
     (Inst operation) (VInt (je_store_seq e)) (_thaw_json (FMap (event_payload e)))
     (instances resource_refs)).
Proof. reflexivity. Qed.

Lemma request_roundtrip r :
  request_wf r → JournalAppendRequest_from_dict (JournalAppendRequest_to_dict r) = Ok r.
Proof.
  intros Hr. assert (Hr' := Hr). destruct Hr' as [Hi Ht Ha Ho Hp Hrs]. rewrite request_record.
  rewrite Ha. cbn [mbind result_bind]. rewrite Ho. cbn [mbind result_bind].
  rewrite record_tuple_wire by done. by apply make_request_instances.
Qed.

Lemma event_roundtrip e : event_wf e → wire_wf e.
Proof.
  intros [Hr Hs]. assert (Hr' := Hr). destruct Hr' as [Hi Ht Ha Ho Hp Hrs].
  unfold wire_wf. simpl. rewrite event_record. unfold event_attempt, event_operation, event_refs.
  rewrite Ha. cbn [mbind result_bind]. rewrite Ho. cbn [mbind result_bind].
  rewrite record_tuple_wire by done. cbn [mbind result_bind]. unfold make_JournalEvent.
  unfold event_id, event_type, event_payload. rewrite make_request_instances by done.
  cbn [mbind result_bind]. unfold _bounded_int. destruct (_ <? _)%Z eqn:E; [lia|]. by destruct e.
Qed.

Lemma refs_of_raw_wf raw l : refs_of_raw raw = Ok l → Forall wire_wf l.
Proof.
  unfold refs_of_raw. case_match; [|intros [= <-]; constructor].
  apply (record_tuple_wf (λ _, True)); [|intros; by apply Forall_true].
  intros x a _. apply ResourceRef_from_dict_wf.
Qed.

Lemma instances_wf {A} `{WireRecord A} (l l' : list A) :
  Forall wire_wf l → _record_tuple (instances l) = Ok l' → Forall wire_wf l'.
Proof. rewrite record_tuple_instances. by intros ? [= <-]. Qed.

Lemma append_request_from_dict_wf v r :
  unique_keys v → JournalAppendRequest_from_dict v = Ok r → request_wf r.
Proof.
  intros Hu (raw & Hraw & (a & Ha & (o & Ho & (rs & Hrs & H)%result_bind_ok)%result_bind_ok)
    %result_bind_ok)%result_bind_ok.
  rewrite (record_data_inv _ _ _ _ _ Hraw) in Hu. eapply make_append_request_wf, H; simpl;
    eauto using AttemptRef_from_dict_wf, OperationRef_from_dict_wf, unique_keys_get,
      instances_wf, refs_of_raw_wf.
Qed.

Lemma make_event_inv i t a o s p rs e :
  make_JournalEvent i t a o s p rs = Ok e →
  make_JournalAppendRequest i t a o p rs = Ok (je_request e) ∧ (1 ≤ je_store_seq e)%Z.
Proof.
  intros (r & Hr & (z & Hz & [= <-])%result_bind_ok)%result_bind_ok. split; [done|]. simpl.
  unfold _bounded_int in Hz. destruct s; try done. case_match; [done|]. injection Hz as <-. lia.
Qed.

Lemma event_from_dict_wf v e : unique_keys v → JournalEvent_from_dict v = Ok e → event_wf e.
Proof.
  intros Hu (raw & Hraw & (a & Ha & (o & Ho & (rs & Hrs & H)%result_bind_ok)%result_bind_ok)
    %result_bind_ok)%result_bind_ok.
  rewrite (record_data_inv _ _ _ _ _ Hraw) in Hu. apply make_event_inv in H as [H Hs].
  split; [|done]. eapply make_append_request_wf, H; simpl;
    eauto using AttemptRef_from_dict_wf, OperationRef_from_dict_wf, unique_keys_get,
      instances_wf, refs_of_raw_wf.
Qed.

Lemma events_wf raw name l :
  unique_keys (VDict raw) → _record_tuple (seq_of (get raw name)) = Ok l →
  Forall (wire_wf (A:=JournalEvent)) l.
Proof.
  intros Hu. apply (record_tuple_wf unique_keys).
  - intros x a Hx Ha. eapply event_roundtrip, event_from_dict_wf; done.
  - intros xs E. apply (unique_keys_get _ name) in Hu. rewrite E in Hu. by inversion Hu.
Qed.

(** *** Pages, append results and receipt lookups *)

Definition cursor_arg (c : option EventCursor) : arg EventCursor :=
  match c with Some c => Inst c | None => Val VNone end.

Lemma read_cursor_opt c :
  (∀ c', c = Some c' → wf_EventCursor c') → read_cursor (opt_cursor c) = Ok (cursor_arg c).
Proof.
  intros Hc. destruct c as [c|]; [|done]. simpl. fold (EventCursor_to_dict c).
  by rewrite (Hc c eq_refl).
Qed.

Lemma page_record p :
  JournalPage_from_dict (JournalPage_to_dict p) =
  (events ← _record_tuple (seq_of (VList (to_wire <$> pg_events p)));
   next_cursor ← read_cursor (opt_cursor (pg_next_cursor p));
   make_JournalPage (instances events) next_cursor (VBool (pg_has_more p))).
Proof. reflexivity. Qed.

Definition page_wf (p : JournalPage) : Prop :=
  Forall wire_wf (pg_events p) ∧
  (∀ c, pg_next_cursor p = Some c → wf_EventCursor c) ∧
  page_consistent (pg_events p) (pg_next_cursor p) (pg_has_more p) = true.

Lemma page_roundtrip p : page_wf p → JournalPage_from_dict (JournalPage_to_dict p) = Ok p.
Proof.
  intros (He & Hc & Hp). rewrite page_record, record_tuple_wire by done. cbn [mbind result_bind].
  rewrite read_cursor_opt by done. cbn [mbind result_bind]. unfold make_JournalPage.
  rewrite record_tuple_instances. cbn [mbind result_bind].
  destruct p as [events [c|] more]; simpl in *; by rewrite Hp.
Qed.

Lemma page_from_dict_wf v p : unique_keys v → JournalPage_from_dict v = Ok p → page_wf p.
Proof.
  intros Hu (raw & Hraw & (es & Hes & (nc & Hnc & H)%result_bind_ok)%result_bind_ok)%result_bind_ok.
  rewrite (record_data_inv _ _ _ _ _ Hraw) in Hu. apply (events_wf _ _ _ Hu) in Hes.
  unfold make_JournalPage in H. rewrite record_tuple_instances in H. cbn [mbind result_bind] in H.
  apply result_bind_ok in H as (c & Hc & (m & Hm & H)%result_bind_ok).
  destruct (page_consistent es c m) eqn:Hp; [|done]. injection H as <-. split_and!; [done| |done].
  intros c' E. simpl in E. subst c. unfold read_cursor in Hnc. destruct (get raw "next_cursor") eqn:Eg.
  1: by injection Hnc as <-.
  all: apply result_bind_ok in Hnc as (x & Hx & [= <-]); injection Hc as <-;
    by eapply EventCursor_from_dict_wf.
Qed.

Lemma result_record r :
  JournalAppendResult_from_dict (JournalAppendResult_to_dict r) =
  (event ← from_wire (to_wire (rs_event r));
   cursor ← EventCursor_from_dict (EventCursor_to_dict (rs_cursor r));
   make_JournalAppendResult (Inst event) (Inst cursor) (VBool (rs_duplicate r))).
Proof. reflexivity. Qed.

Lemma append_result_stable v r :
  unique_keys v → JournalAppendResult_from_dict v = Ok r →
  JournalAppendResult_from_dict (JournalAppendResult_to_dict r) = Ok r.
Proof.
  intros Hu (raw & Hraw & (e & He & (c & Hc & H)%result_bind_ok)%result_bind_ok)%result_bind_ok.
  rewrite (record_data_inv _ _ _ _ _ Hraw) in Hu.
  assert (wire_wf e) as Hwe by eauto using event_roundtrip, event_from_dict_wf, unique_keys_get.
  apply EventCursor_from_dict_wf in Hc. unfold make_JournalAppendResult in H.
  cbn [mbind result_bind record_of] in H.
  apply result_bind_ok in H as ([] & Hb & (d & Hd & [= <-])%result_bind_ok).
  rewrite result_record. simpl rs_event. rewrite Hwe. cbn [mbind result_bind].
  simpl rs_cursor. rewrite Hc. cbn [mbind result_bind]. unfold make_JournalAppendResult.
  cbn [mbind result_bind record_of]. by rewrite Hb.
Qed.

Lemma lookup_record l :
  ToolExecutionReceiptLookup_from_dict (ToolExecutionReceiptLookup_to_dict l) =
  (attempt ← AttemptRef_from_dict (AttemptRef_to_dict (lk_attempt l));
   events ← _record_tuple (seq_of (VList (to_wire <$> lk_events l)));
   make_ToolExecutionReceiptLookup (Inst attempt) (VStr (lk_call_id l)) (instances events)
     (VBool (lk_overflow l))).
Proof. reflexivity. Qed.

Lemma receipt_lookup_stable v l :
  unique_keys v → ToolExecutionReceiptLookup_from_dict v = Ok l →
  ToolExecutionReceiptLookup_from_dict (ToolExecutionReceiptLookup_to_dict l) = Ok l.
Proof.
  intros Hu (raw & Hraw & (a & Ha & (es & Hes & H)%result_bind_ok)%result_bind_ok)%result_bind_ok.
  rewrite (record_data_inv _ _ _ _ _ Hraw) in Hu. apply (events_wf _ _ _ Hu) in Hes.
  apply AttemptRef_from_dict_wf in Ha. unfold make_ToolExecutionReceiptLookup in H.
  rewrite record_tuple_instances in H. cbn [mbind result_bind] in H.
  apply result_bind_ok in H as (i & Hi & ([] & Hn & (b & Hb & ([] & Hc & [= <-])
    %result_bind_ok)%result_bind_ok)%result_bind_ok).
  apply required_text_stable in Hi. rewrite lookup_record. simpl lk_attempt. rewrite Ha.
  simpl lk_events. rewrite record_tuple_wire by done. cbn [mbind result_bind].
  unfold make_ToolExecutionReceiptLookup. rewrite record_tuple_instances.
  cbn [mbind result_bind]. simpl lk_call_id. rewrite Hi. cbn [mbind result_bind]. rewrite Hn.
  cbn [mbind result_bind]. simpl lk_overflow. by rewrite Hc.
Qed.

(** C38. Every journal record survives its wire shape: an append request, an
    event, a page, an append result or a receipt lookup that was read from a
    value with distinct keys is read back, unchanged, from what [to_dict]
    writes for it, its frozen payload and its references included. *)
Theorem journal_records_roundtrip (v : pyval) :
  unique_keys v →
  (∀ r, JournalAppendRequest_from_dict v = Ok r →
        JournalAppendRequest_from_dict (JournalAppendRequest_to_dict r) = Ok r) ∧
  (∀ e, JournalEvent_from_dict v = Ok e → JournalEvent_from_dict (JournalEvent_to_dict e) = Ok e) ∧
  (∀ p, JournalPage_from_dict v = Ok p → JournalPage_from_dict (JournalPage_to_dict p) = Ok p) ∧
  (∀ r, JournalAppendResult_from_dict v = Ok r →
        JournalAppendResult_from_dict (JournalAppendResult_to_dict r) = Ok r) ∧
  (∀ l, ToolExecutionReceiptLookup_from_dict v = Ok l →
        ToolExecutionReceiptLookup_from_dict (ToolExecutionReceiptLookup_to_dict l) = Ok l).
Proof.
  intros Hu. split_and!; intros x Hx.
  - eapply request_roundtrip, append_request_from_dict_wf; done.
  - eapply event_roundtrip, event_from_dict_wf; done.
  - eapply page_roundtrip, page_from_dict_wf; done.
  - by eapply append_result_stable.
  - by eapply receipt_lookup_stable.
Qed.
End roundtrip.
