(* ===== verification/JournalVocabulary.v ===== *)
(** * Shared vocabulary of the journal

    The terminal events of an attempt (src/unchain/journal/graph_attempt_quiescence.py)
    and the two families of interaction cycles
    (src/unchain/journal/interaction_cycles.py). *)

From S2P Require Import Prelude PyVal Json Models Diagnostics JournalPayload JournalRecords.

(** ** Terminal events of an attempt *)

Definition COMPLETED_ATTEMPT_TERMINALS : list pystr := u <$> ["run_completed"; "run.completed"]%string.
Definition FAILED_ATTEMPT_TERMINALS : list pystr := u <$> ["run_failed"; "run.failed"]%string.
Definition CANCELLED_ATTEMPT_TERMINALS : list pystr := u <$>
  ["run_cancelled"; "run.cancelled"; "run_canceled"; "run.canceled"; "run_aborted";
   "run.aborted"]%string.
Definition MAX_ITERATIONS_TERMINALS : list pystr :=
  u <$> ["run_max_iterations"; "run.max_iterations"]%string.
Definition CANONICAL_ATTEMPT_TERMINALS : list pystr :=
  COMPLETED_ATTEMPT_TERMINALS ++ FAILED_ATTEMPT_TERMINALS ++ CANCELLED_ATTEMPT_TERMINALS.
Definition ATTEMPT_TERMINAL_EQUIVALENTS : list pystr :=
  CANONICAL_ATTEMPT_TERMINALS ++ MAX_ITERATIONS_TERMINALS.

Definition GRAPH_STEP_COMPLETED : pystr := u "graph.step.completed".
Definition GRAPH_STEP_FAILED : pystr := u "graph.step.failed".
Definition GRAPH_STEP_CANCELLED : pystr := u "graph.step.cancelled".
Definition GRAPH_STEP_SEALS : list pystr :=
  [GRAPH_STEP_COMPLETED; GRAPH_STEP_FAILED; GRAPH_STEP_CANCELLED].
Definition GRAPH_STEP_SEAL_TERMINALS : list (pystr * list pystr) :=
  [(GRAPH_STEP_COMPLETED, COMPLETED_ATTEMPT_TERMINALS);
   (GRAPH_STEP_FAILED, FAILED_ATTEMPT_TERMINALS ++ MAX_ITERATIONS_TERMINALS);
   (GRAPH_STEP_CANCELLED, CANCELLED_ATTEMPT_TERMINALS)].

(** What the selection reads of an event. *)
Class EventLike (E : Type) : Type := {
  store_seq : E → Z;
  type_of : E → pystr;
}.

#[export] Instance JournalEvent_like : EventLike JournalEvent :=
  {| store_seq := je_store_seq; type_of := event_type |}.

Record AttemptTerminalSelection (E : Type) : Type := mkSelection {
  sel_event : option E;
  sel_ambiguous : bool;
}.
Arguments mkSelection {E} sel_event sel_ambiguous.
Arguments sel_event {E} a.
Arguments sel_ambiguous {E} a.

Section selection.
Context {E : Type} `{EventLike E}.

(** [sorted(events, key=lambda event: event.store_seq)], which is stable. *)
Fixpoint insert_by_seq (e : E) (l : list E) : list E :=
  match l with
  | [] => [e]
  | x :: l' => if (store_seq e <=? store_seq x)%Z then e :: l else x :: insert_by_seq e l'
  end.
Definition sorted_by_seq (l : list E) : list E := foldr insert_by_seq [] l.

Definition has_type (types : list pystr) (e : E) : Prop := type_of e ∈ types.
#[export] Instance has_type_dec types e : Decision (has_type types e).
Proof. unfold has_type. apply _. Defined.

(** Every event after the candidate is of an allowed type. *)
Definition only_allowed_follow (allowed : list pystr) (ordered : list E) (candidate : E) : bool :=
  forallb (λ e, bool_decide (has_type allowed e))
    (filter (λ e, (store_seq candidate < store_seq e)%Z) ordered).

Definition select_candidate (allowed : list pystr) (ordered : list E) (candidate : E)
    : AttemptTerminalSelection E :=
  if only_allowed_follow allowed ordered candidate then mkSelection (Some candidate) false
  else mkSelection None false.

Definition select_attempt_terminal (events : list E) (allowed_following_event_types : list pystr)
    : AttemptTerminalSelection E :=
  let ordered := sorted_by_seq events in
  match filter (has_type CANONICAL_ATTEMPT_TERMINALS) ordered with
  | _ :: _ :: _ => mkSelection None true
  | [candidate] => select_candidate allowed_following_event_types ordered candidate
  | [] =>
      match last (filter (has_type MAX_ITERATIONS_TERMINALS) ordered) with
      | None => mkSelection None false
      | Some candidate => select_candidate allowed_following_event_types ordered candidate
      end
  end.

(** *** The order of the events *)

Lemma insert_by_seq_Permutation e l : insert_by_seq e l ≡ₚ e :: l.
Proof. induction l as [|x l IH]; simpl; [done|]. case_match; [done|]. by rewrite IH, Permutation_swap. Qed.

Lemma sorted_by_seq_Permutation l : sorted_by_seq l ≡ₚ l.
Proof. induction l as [|e l IH]; simpl; [done|]. by rewrite insert_by_seq_Permutation, IH. Qed.

Definition seq_le (e e' : E) : Prop := (store_seq e ≤ store_seq e')%Z.

Lemma insert_by_seq_sorted e l :
  StronglySorted seq_le l → StronglySorted seq_le (insert_by_seq e l).
Proof.
  induction 1 as [|x l Hl IH Hx]; simpl; [repeat constructor|]. case_match eqn:Ec.
  - apply Z.leb_le in Ec. constructor; [by constructor|]. constructor; [done|].
    eapply Forall_impl; [exact Hx|]. unfold seq_le. lia.
  - apply Z.leb_gt in Ec. constructor; [done|]. rewrite insert_by_seq_Permutation.
    constructor; [unfold seq_le; lia|done].
Qed.

Lemma sorted_by_seq_sorted l : StronglySorted seq_le (sorted_by_seq l).
Proof. induction l as [|e l IH]; simpl; [constructor|by apply insert_by_seq_sorted]. Qed.

(** The last of a sorted list is its maximum. *)
Lemma last_filter_max (P : E → Prop) `{∀ e, Decision (P e)} l :
  StronglySorted seq_le l →
  match last (filter P l) with
  | None => ∀ e, e ∈ l → ¬ P e
  | Some m => m ∈ l ∧ P m ∧ ∀ e, e ∈ l → P e → seq_le e m
  end.
Proof.
  induction 1 as [|x l Hl IH Hx]; [intros e He; set_solver|].
  rewrite filter_cons. rewrite Forall_forall in Hx. destruct (last (filter P l)) as [m|] eqn:Em.
  - destruct IH as (Hm & HP & Hmax).
    assert (last (if decide (P x) then x :: filter P l else filter P l) = Some m) as ->.
    { case_decide; [|done]. by rewrite last_cons, Em. }
    split_and!; [by right|done|]. intros e [->|He]%elem_of_cons HPe; [|auto]. by apply Hx.
  - apply last_None in Em. rewrite Em. case_decide; simpl.
    + split_and!; [left|done|]. intros e [->|He]%elem_of_cons HPe; [unfold seq_le; lia|].
      by destruct (IH e).
    + intros e [->|He]%elem_of_cons; auto.
Qed.

Lemma only_allowed_follow_spec allowed ordered c :
  only_allowed_follow allowed ordered c = true ↔
  ∀ e, e ∈ ordered → (store_seq c < store_seq e)%Z → type_of e ∈ allowed.
Proof.
  unfold only_allowed_follow. rewrite forallb_forall. setoid_rewrite <-list_elem_of_In.
  setoid_rewrite list_elem_of_filter. setoid_rewrite bool_decide_eq_true. naive_solver.
Qed.

(** *** What the selection is *)

Definition terminal_choice (events : list E) (e : E) : Prop :=
  (has_type CANONICAL_ATTEMPT_TERMINALS e ∧
   ∀ e', e' ∈ events → has_type CANONICAL_ATTEMPT_TERMINALS e' → e' = e) ∨
  (has_type MAX_ITERATIONS_TERMINALS e ∧
   (∀ e', e' ∈ events → ¬ has_type CANONICAL_ATTEMPT_TERMINALS e') ∧
   ∀ e', e' ∈ events → has_type MAX_ITERATIONS_TERMINALS e' → (store_seq e' ≤ store_seq e)%Z).

Lemma select_candidate_spec allowed ordered c e :
  sel_event (select_candidate allowed ordered c) = Some e ↔
  c = e ∧ ∀ e', e' ∈ ordered → (store_seq e < store_seq e')%Z → type_of e' ∈ allowed.
Proof.
  unfold select_candidate. destruct (only_allowed_follow _ _ _) eqn:Ef; simpl.
  - rewrite only_allowed_follow_spec in Ef. split; [intros [= <-]; auto|]. by intros [-> _].
  - split; [done|]. intros [<- Hf]. apply only_allowed_follow_spec in Hf. congruence.
Qed.

Lemma select_candidate_clear allowed ordered c :
  sel_ambiguous (select_candidate allowed ordered c) = false.
Proof. unfold select_candidate. by case_match. Qed.

Lemma distinct_seq l e e' :
  NoDup (store_seq <$> l) → e ∈ l → e' ∈ l → store_seq e = store_seq e' → e = e'.
Proof.
  intros Hnd [i Hi]%list_elem_of_lookup [j Hj]%list_elem_of_lookup Heq.
  assert (i = j) as <-; [|congruence].
  eapply NoDup_lookup; [exact Hnd|..]; rewrite list_lookup_fmap; [by rewrite Hi|].
  rewrite Hj. simpl. by rewrite Heq.
Qed.
End selection.

Section selection_spec.
Context {E : Type} `{EventLike E}.
Implicit Types events ordered : list E.

Lemma select_max_spec ordered allowed e :
  NoDup (store_seq <$> ordered) → StronglySorted seq_le ordered →
  (∀ e', e' ∈ ordered → ¬ has_type CANONICAL_ATTEMPT_TERMINALS e') →
  sel_event (match last (filter (has_type MAX_ITERATIONS_TERMINALS) ordered) with
             | None => mkSelection None false
             | Some c => select_candidate allowed ordered c
             end) = Some e ↔
  e ∈ ordered ∧ terminal_choice ordered e ∧
  ∀ e', e' ∈ ordered → (store_seq e < store_seq e')%Z → type_of e' ∈ allowed.
Proof.
  intros Hnd Hs Hno. assert (Hl := last_filter_max (has_type MAX_ITERATIONS_TERMINALS) _ Hs).
  destruct (last _) as [m|]; simpl.
  - destruct Hl as (Hm & HPm & Hmax). rewrite select_candidate_spec. split.
    + intros [<- Hf]. split_and!; [done| |done]. right. split_and!; [done|done|].
      intros e' He'. by apply Hmax.
    + intros (He & [[Hc _]|(HPe & _ & Hmax')] & Hf); [by destruct (Hno e)|]. split; [|done].
      apply (distinct_seq ordered); [done..|]. apply Z.le_antisymm; [by apply Hmax'|by apply Hmax].
  - split; [done|]. intros (He & [[Hc _]|(HPe & _)] & _); [by destruct (Hno e)|by destruct (Hl e)].
Qed.

Lemma select_ordered_spec ordered allowed e :
  NoDup (store_seq <$> ordered) → StronglySorted seq_le ordered →
  sel_event (match filter (has_type CANONICAL_ATTEMPT_TERMINALS) ordered with
             | _ :: _ :: _ => mkSelection None true
             | [c] => select_candidate allowed ordered c
             | [] =>
                 match last (filter (has_type MAX_ITERATIONS_TERMINALS) ordered) with
                 | None => mkSelection None false
                 | Some c => select_candidate allowed ordered c
                 end
             end) = Some e ↔
  e ∈ ordered ∧ terminal_choice ordered e ∧
  ∀ e', e' ∈ ordered → (store_seq e < store_seq e')%Z → type_of e' ∈ allowed.
Proof.
  intros Hnd Hs. destruct (filter _ ordered) as [|c [|c' l]] eqn:Ec.
  - apply select_max_spec; [done..|]. exact (proj1 (filter_nil_iff _ _) Ec).
  - assert (∀ e', e' ∈ ordered → has_type CANONICAL_ATTEMPT_TERMINALS e' → e' = c) as Honly.
    { intros e' He' Ht. apply list_elem_of_singleton. rewrite <-Ec. by apply list_elem_of_filter. }
    assert (c ∈ filter (has_type CANONICAL_ATTEMPT_TERMINALS) ordered) as [Htc Hc]%list_elem_of_filter
      by (rewrite Ec; left).
    rewrite select_candidate_spec. split.
    + intros [<- Hf]. split_and!; [done|by left|done].
    + intros (He & [[Hte _]|(_ & Hno & _)] & Hf); [|by destruct (Hno c)]. split; [|done]. symmetry. by apply Honly.
  - simpl. split; [done|]. intros (He & Hch & _).
    assert (NoDup (c :: c' :: l)) as Hnd'.
    { rewrite <-Ec. apply NoDup_filter. by apply NoDup_fmap_1 in Hnd. }
    assert (∀ x, x ∈ c :: c' :: l → x ∈ ordered ∧ has_type CANONICAL_ATTEMPT_TERMINALS x) as Hin.
    { intros x. rewrite <-Ec, list_elem_of_filter. tauto. }
    destruct (Hin c ltac:(left)) as [Hc Htc]. destruct (Hin c' ltac:(right; left)) as [Hc' Htc'].
    destruct Hch as [[_ Honly]|(_ & Hno & _)]; [|by destruct (Hno c)].
    rewrite (Honly c), (Honly c') in Hnd' by done. apply NoDup_cons in Hnd' as [[] _]. left.
Qed.

Lemma ambiguous_ordered ordered allowed :
  NoDup ordered →
  sel_ambiguous (match filter (has_type CANONICAL_ATTEMPT_TERMINALS) ordered with
             | _ :: _ :: _ => mkSelection None true
             | [c] => select_candidate allowed ordered c
             | [] =>
                 match last (filter (has_type MAX_ITERATIONS_TERMINALS) ordered) with
                 | None => mkSelection None false
                 | Some c => select_candidate allowed ordered c
                 end
             end) = true ↔
  ∃ e1 e2, e1 ∈ ordered ∧ e2 ∈ ordered ∧ e1 ≠ e2 ∧
           has_type CANONICAL_ATTEMPT_TERMINALS e1 ∧ has_type CANONICAL_ATTEMPT_TERMINALS e2.
Proof.
  intros Hnd.
  assert (∀ x, x ∈ filter (has_type CANONICAL_ATTEMPT_TERMINALS) ordered ↔
               x ∈ ordered ∧ has_type CANONICAL_ATTEMPT_TERMINALS x) as Hin
    by (intros x; rewrite list_elem_of_filter; tauto).
  apply (NoDup_filter (has_type CANONICAL_ATTEMPT_TERMINALS)) in Hnd.
  destruct (filter (has_type CANONICAL_ATTEMPT_TERMINALS) ordered) as [|c [|c' l]].
  - split; [by case_match; rewrite ?select_candidate_clear|].
    intros (e1 & e2 & H1 & _ & _ & T1 & _).
    pose proof (proj2 (Hin e1) (conj H1 T1)) as []%elem_of_nil.
  - rewrite select_candidate_clear. split; [done|].
    intros (e1 & e2 & H1 & H2 & Hne & T1 & T2).
    pose proof (proj2 (Hin e1) (conj H1 T1)) as ->%list_elem_of_singleton.
    pose proof (proj2 (Hin e2) (conj H2 T2)) as ->%list_elem_of_singleton. done.
  - split; [|done]. intros _. exists c, c'.
    destruct (proj1 (Hin c) ltac:(left)), (proj1 (Hin c') ltac:(right; left)).
    apply NoDup_cons in Hnd as [Hn _]. split_and!; try done. intros ->. apply Hn. left.
Qed.

(** The terminal event of an attempt, for events with distinct sequence
    numbers given in any order: an event is selected exactly when it is the only
    completed, failed or cancelled event (or, when there is none, the last
    max-iterations event) and only allowed event types follow it; the selection
    is ambiguous exactly when there are two completed, failed or cancelled
    events. *)
Theorem terminal_selection_is_exact events allowed :
  NoDup (store_seq <$> events) →
  (∀ e, sel_event (select_attempt_terminal events allowed) = Some e ↔
        e ∈ events ∧ terminal_choice events e ∧
        ∀ e', e' ∈ events → (store_seq e < store_seq e')%Z → type_of e' ∈ allowed) ∧
  (sel_ambiguous (select_attempt_terminal events allowed) = true ↔
   ∃ e1 e2, e1 ∈ events ∧ e2 ∈ events ∧ e1 ≠ e2 ∧
            has_type CANONICAL_ATTEMPT_TERMINALS e1 ∧ has_type CANONICAL_ATTEMPT_TERMINALS e2).
Proof.
  intros Hnd. assert (Hp := sorted_by_seq_Permutation events).
  assert (Hin : ∀ x, x ∈ sorted_by_seq events ↔ x ∈ events) by (intros x; by rewrite Hp).
  assert (Hnd' : NoDup (store_seq <$> sorted_by_seq events)) by by rewrite Hp.
  split.
  - intros e. unfold select_attempt_terminal. cbv zeta.
    rewrite (select_ordered_spec _ _ _ Hnd' (sorted_by_seq_sorted events)).
    unfold terminal_choice. by setoid_rewrite Hin.
  - unfold select_attempt_terminal. cbv zeta. rewrite ambiguous_ordered.
    + by setoid_rewrite Hin.
    + by apply NoDup_fmap_1 in Hnd'.
Qed.
End selection_spec.

(** ** Interaction cycles *)

Definition DURABLE_INTERACTION_REQUESTS : list pystr :=
  u <$> ["interaction_requested"; "interaction.requested"]%string.
Definition LIVE_INTERACTION_REQUESTS : list pystr := u <$>
  ["human_input_requested"; "tool_confirmation_requested"; "continuation_request";
   "input_requested"]%string.
Definition INTERACTION_REQUESTS : list pystr :=
  DURABLE_INTERACTION_REQUESTS ++ LIVE_INTERACTION_REQUESTS.
Definition DURABLE_INTERACTION_RESOLUTIONS : list pystr :=
  u <$> ["interaction_resolved"; "interaction.resolved"]%string.
Definition LIVE_INTERACTION_OUTCOMES : list pystr := u <$> ["tool_confirmed"; "tool_denied"]%string.
Definition INTERACTION_RESOLUTIONS : list pystr :=
  DURABLE_INTERACTION_RESOLUTIONS ++ LIVE_INTERACTION_OUTCOMES.

Inductive InteractionRequestFamily : Type := DURABLE | LIVE.

#[export] Instance InteractionRequestFamily_eq_dec : EqDecision InteractionRequestFamily.
Proof. solve_decision. Defined.

Definition interaction_request_family (event_type : pystr) (payload : pyval)
    : option InteractionRequestFamily :=
  if bool_decide (event_type ∈ DURABLE_INTERACTION_REQUESTS) then Some DURABLE
  else if negb (bool_decide (event_type ∈ LIVE_INTERACTION_REQUESTS)) then None
  else match payload with
       | VDict d => if is_dict (get d "interaction_request") then Some DURABLE else Some LIVE
       | _ => Some LIVE
       end.
