(* ===== verification/JournalSnapshot.v ===== *)
(** * Journal snapshots (src/unchain/journal/snapshot.py)

    A snapshot is everything an execution has written up to a high water mark,
    with a digest over the digests of its events.  [make_JournalSnapshot] is the
    constructor with all its checks, [capture_journal_snapshot] builds one from
    the events of a journal.

    [_snapshot_resource_adapter] presents records to the resource check in the
    shape of their [to_dict]; [arg_wire] is that presentation. *)

From S2P Require Import Prelude PyVal Json Models Diagnostics JournalPayload ResourceLimits JournalRecords.

Definition JOURNAL_SNAPSHOT_LIMITS : JsonResourceLimits :=
  mkLimits 10000 (32 * 1024 * 1024) 64 1000000.

(** Subclasses of [ValueError]. *)
Definition JournalSnapshotError : pyexn := OtherError (u "JournalSnapshotError").
Definition BoundaryLimit : pyexn := OtherError (u "BoundaryResourceLimitError").

Definition limit_exn (e : limit_error) : pyexn :=
  match e with
  | BoundaryResourceLimitError _ _ _ => BoundaryLimit
  | InvalidValue => ValueError
  | NonJson => TypeError
  end.

Definition limited {A} (r : result limit_error A) : R A :=
  match r with Ok a => Ok a | Err e => Err (limit_exn e) end.

(** [json.dumps(...).encode("utf-8")]: both failures are [ValueError]s. *)
Definition _canonical_bytes (value : pyval) : R (list N) :=
  match encoded value with Some bs => Ok bs | None => Err ValueError end.

Section snapshot.
Context `{U : Unicode} `{F : UnicodeFold}.

Definition journal_event_sha256 (event : JournalEvent) : R pystr :=
  bs ← _canonical_bytes (JournalEvent_to_dict event); Ok (sha256_hex bs).

Definition snapshot_digest_value (execution_id : pystr) (high_water : option EventCursor)
    (event_sha256s : list pystr) : pyval :=
  VDict [field "domain" (VStr (u "unchain.journal_snapshot.v1"));
         field "execution_id" (VStr execution_id);
         field "high_water" (opt_cursor high_water);
         field "event_sha256s" (VList (VStr <$> event_sha256s))].

Definition _snapshot_sha256 (execution_id : pystr) (high_water : option EventCursor)
    (event_sha256s : list pystr) : R pystr :=
  bs ← _canonical_bytes (snapshot_digest_value execution_id high_water event_sha256s);
  Ok (sha256_hex bs).

(** What the resource check sees of an argument. *)
Definition cursor_wire (x : arg EventCursor) : pyval :=
  match x with Inst c => EventCursor_to_dict c | Val v => v end.
Definition event_wire (x : arg JournalEvent) : pyval :=
  match x with Inst e => JournalEvent_to_dict e | Val v => v end.

Definition snapshot_schema : pystr := u "unchain.journal_snapshot.v1".

Definition resource_value (execution_id : pyval) (high_water : pyval) (events : list pyval)
    (snapshot_sha256 : pyval) : pyval :=
  VDict [field "schema" (VStr snapshot_schema);
         field "execution_id" execution_id;
         field "high_water" high_water;
         field "events" (VList events);
         field "snapshot_sha256" snapshot_sha256;
         field "event_count" (VInt (Z.of_nat (length events)))].

Definition _validate_snapshot_resource (execution_id : pyval) (high_water : pyval)
    (events : list pyval) (snapshot_sha256 : pyval) : R unit :=
  _ ← limited (enforce_item_limit (length events) JOURNAL_SNAPSHOT_LIMITS);
  limited (validate_json_resource JOURNAL_SNAPSHOT_LIMITS
             (resource_value execution_id high_water events snapshot_sha256)).

Record JournalSnapshot : Type := mkSnapshot {
  sn_execution_id : pystr;
  sn_high_water : option EventCursor;
  sn_events : list JournalEvent;
  sn_snapshot_sha256 : pystr;
}.

(** [EventCursor(store_seq=events[-1].store_seq, event_id=events[-1].event_id)] *)
Definition expected_high_water (events : list JournalEvent) : R (option EventCursor) :=
  match last events with
  | None => Ok None
  | Some e => c ← make_EventCursor (VInt (je_store_seq e)) (VStr (event_id e)); Ok (Some c)
  end.

(** [tuple(store_seqs) == tuple(range(1, len(events) + 1))] *)
Definition contiguous (events : list JournalEvent) : bool :=
  bool_decide (je_store_seq <$> events = Z.of_nat <$> seq 1 (length events)).

Definition snapshot_consistent (execution_id : pystr) (events : list JournalEvent) : bool :=
  increasing events && contiguous events
  && (bool_decide (NoDup (event_id <$> events)) && bool_decide (NoDup (je_store_seq <$> events)))
  && forallb (λ e, bool_decide (execution_of e = execution_id)) events.

Definition make_JournalSnapshot (execution_id : pyval) (high_water : arg EventCursor)
    (events : seq_arg JournalEvent) (snapshot_sha256 : pyval) : R JournalSnapshot :=
  events ← match events with SItems l => Ok l | _ => Err TypeError end;
  _ ← _validate_snapshot_resource execution_id (cursor_wire high_water) (event_wire <$> events)
        snapshot_sha256;
  execution_id ← _required_text execution_id 256 true;
  high_water ← match high_water with
               | Val VNone => Ok None
               | Inst c => Ok (Some c)
               | Val v => c ← EventCursor_from_dict v; Ok (Some c)
               end;
  events ← mapR record_of events;
  _ ← ensure (snapshot_consistent execution_id events) JournalSnapshotError;
  expected ← expected_high_water events;
  _ ← ensure (bool_decide (high_water = expected)) JournalSnapshotError;
  digest ← match snapshot_sha256 with
           | VStr s => if _SHA256_RE s then Ok s else Err JournalSnapshotError
           | _ => Err JournalSnapshotError
           end;
  event_sha256s ← mapR journal_event_sha256 events;
  expected_digest ← _snapshot_sha256 execution_id expected event_sha256s;
  _ ← ensure (bool_decide (digest = expected_digest)) JournalSnapshotError;
  Ok (mkSnapshot execution_id high_water events digest).

Definition event_count (s : JournalSnapshot) : nat := length (sn_events s).

Definition JournalSnapshot_to_dict (s : JournalSnapshot) : pyval :=
  VDict [field "schema" (VStr snapshot_schema);
         field "execution_id" (VStr (sn_execution_id s));
         field "high_water" (opt_cursor (sn_high_water s));
         field "events" (VList (JournalEvent_to_dict <$> sn_events s));
         field "snapshot_sha256" (VStr (sn_snapshot_sha256 s));
         field "event_count" (VInt (Z.of_nat (event_count s)))].

Definition JournalSnapshot_from_dict (value : pyval) : R JournalSnapshot :=
  match value with
  | VDict d =>
      _ ← ensure (has_exactly d ["schema"; "execution_id"; "high_water"; "events";
                                 "snapshot_sha256"; "event_count"]) JournalSnapshotError;
      _ ← ensure (py_eq (get d "schema") (VStr snapshot_schema)) JournalSnapshotError;
      raw_events ← match get d "events" with VList l => Ok l | _ => Err JournalSnapshotError end;
      _ ← _validate_snapshot_resource (get d "execution_id") (get d "high_water") raw_events
            (get d "snapshot_sha256");
      events ← mapR JournalEvent_from_dict raw_events;
      _ ← ensure (py_eq (get d "event_count") (VInt (Z.of_nat (length events))))
            JournalSnapshotError;
      high_water ← read_cursor (get d "high_water");
      make_JournalSnapshot (get d "execution_id") high_water (instances events)
        (get d "snapshot_sha256")
  | _ => Err JournalSnapshotError
  end.

(** The items are instances of [JournalEvent]: their attributes are read before
    the constructor sees them. *)
Definition capture_journal_snapshot (execution_id : pyval) (events : list JournalEvent)
    : R JournalSnapshot :=
  execution_id ← _required_text execution_id 256 true;
  _ ← limited (enforce_item_limit (length events) JOURNAL_SNAPSHOT_LIMITS);
  high_water ← expected_high_water events;
  _ ← _validate_snapshot_resource (VStr execution_id) (opt_cursor high_water)
        (JournalEvent_to_dict <$> events) (VStr (replicate 64 48%N));
  event_sha256s ← mapR journal_event_sha256 events;
  digest ← _snapshot_sha256 execution_id high_water event_sha256s;
  make_JournalSnapshot (VStr execution_id) (cursor_arg high_water) (instances events) (VStr digest).
End snapshot.

#[global] Arguments _snapshot_sha256 : simpl never.
#[global] Arguments journal_event_sha256 : simpl never.
#[global] Arguments _canonical_bytes : simpl never.
#[global] Arguments _validate_snapshot_resource : simpl never.

(** ** Digests are digests *)

Lemma sha_round_length st kw : length (sha_round st kw) = length st.
Proof. unfold sha_round. by repeat case_match. Qed.

Lemma sha_rounds_length kws st : length (fold_left sha_round kws st) = length st.
Proof. revert st. induction kws as [|kw kws IH]; intros st; simpl; [done|]. by rewrite IH, sha_round_length. Qed.

Lemma sha_blocks_length fuel h bs : length (sha_blocks fuel h bs) = length h.
Proof.
  revert h bs. induction fuel as [|fuel IH]; intros h bs; simpl; [done|]. destruct bs; [done|].
  rewrite IH. unfold sha_block. rewrite length_zip_with, sha_rounds_length. lia.
Qed.

Lemma hex_word_length n : length (hex_word n) = 8.
Proof. reflexivity. Qed.

Definition is_hex (c : N) : bool := is_digit c || in_range 97 102 c.

Lemma hex_digit_hex n : (n < 16)%N → is_hex (hex_digit n) = true.
Proof.
  intros Hn. unfold is_hex, is_digit, in_range, hex_digit.
  destruct (N.ltb_spec n 10); rewrite orb_true_iff, !andb_true_iff, !N.leb_le; lia.
Qed.

Lemma bind_length_8 l : length (l ≫= hex_word) = 8 * length l.
Proof. induction l as [|x l IH]; [done|]. rewrite bind_cons, length_app, hex_word_length, IH. simpl. lia. Qed.

Lemma sha256_hex_digest bs : _SHA256_RE (sha256_hex bs) = true.
Proof.
  unfold _SHA256_RE. apply andb_true_iff. split.
  - apply forallb_forall. intros c Hc%list_elem_of_In. unfold sha256_hex in Hc.
    apply list_elem_of_bind in Hc as (w & Hc & _). unfold hex_word in Hc.
    apply list_elem_of_fmap in Hc as (i & -> & _). apply hex_digit_hex. apply N.mod_lt. lia.
  - apply Nat.eqb_eq. unfold sha256_hex. by rewrite bind_length_8, sha_blocks_length.
Qed.

(** ** Sizes of texts and of parts *)

Lemma plain_str_size s :
  Forall (λ c, (32 ≤ c < 128)%N ∧ c ≠ 34%N ∧ c ≠ 92%N) s →
  str_size s = Some (2 + Z.of_nat (length s))%Z.
Proof.
  intros Hs. unfold str_size. assert (chars_size s = Some (Z.of_nat (length s))) as ->; [|done].
  induction Hs as [|c s [Hc [H1 H2]] _ IH]; [done|]. simpl.
  assert (char_bytes c = Some 1%Z) as ->.
  { unfold char_bytes. rewrite bool_decide_eq_false_2 by (rewrite !elem_of_cons, elem_of_nil; lia).
    destruct (N.ltb_spec c 32); [lia|]. unfold is_surrogate, utf8_char.
    destruct ((55296 <=? c) && (c <=? 57343))%N eqn:E1; [rewrite andb_true_iff, !N.leb_le in E1; lia|].
    destruct (N.ltb_spec c 128); [done|lia]. }
  rewrite IH. simpl. f_equal. lia.
Qed.

Lemma digest_size s : _SHA256_RE s = true → str_size s = Some 66%Z.
Proof.
  unfold _SHA256_RE. rewrite andb_true_iff, Nat.eqb_eq. intros [Hs Hl].
  rewrite plain_str_size; [by rewrite Hl|]. apply Forall_forall. intros c Hc.
  rewrite forallb_forall in Hs. specialize (Hs c (proj1 (list_elem_of_In _ _) Hc)). simpl in Hs.
  unfold is_digit, in_range in Hs. rewrite orb_true_iff, !andb_true_iff, !N.leb_le in Hs. lia.
Qed.

Lemma alnum_range c : is_alnum c = true → (48 ≤ c ≤ 57 ∨ 65 ≤ c ≤ 90 ∨ 97 ≤ c ≤ 122)%N.
Proof.
  unfold is_alnum, is_upper, is_lower, is_digit, in_range.
  rewrite !orb_true_iff, !andb_true_iff, !N.leb_le. lia.
Qed.

Lemma identifier_size s : _IDENTIFIER_RE s = true → str_size s = Some (2 + Z.of_nat (length s))%Z.
Proof.
  unfold _IDENTIFIER_RE. destruct s as [|c s]; [done|]. rewrite !andb_true_iff.
  intros [[Hc Hs] _]. apply plain_str_size. constructor.
  - apply alnum_range in Hc. lia.
  - apply Forall_forall. intros d Hd. rewrite forallb_forall in Hs.
    specialize (Hs d (proj1 (list_elem_of_In _ _) Hd)). unfold identifier_char in Hs.
    apply orb_true_iff in Hs as [Hs%alnum_range|Hs%bool_decide_eq_true]; [lia|].
    change (u "._:-") with [46; 95; 58; 45]%N in Hs. rewrite !elem_of_cons, elem_of_nil in Hs. lia.
Qed.

Lemma list_size_all l n : list_size l = Some n → Forall (λ v, is_Some (size v)) l.
Proof.
  revert n. induction l as [|x l IH]; intros n; simpl; [constructor|]. fold (list_size l).
  destruct (size x) eqn:E; [|done]. simpl. destruct (list_size l) eqn:El; [|done]. intros _.
  constructor; [by rewrite E|]. by eapply IH.
Qed.

Lemma list_size_some l : Forall (λ v, is_Some (size v)) l → is_Some (list_size l).
Proof.
  induction 1 as [|x l [n Hx] _ [m IH]]; simpl; [by eexists|]. fold (list_size l). rewrite Hx, IH. by eexists.
Qed.

Lemma encoded_some v : is_Some (size v) → is_Some (encoded v).
Proof.
  intros [n Hn]. assert (Hk := size_text_keys _ _ Hn). rewrite size_encoded in Hn by done.
  unfold encoded. destruct (dumps v) as [t|]; [|done]. simpl in *. unfold ulen in Hn.
  destruct (utf8 t); [by eexists|done].
Qed.

Lemma dict_size_all d n : dict_size d = Some n → Forall (λ kv, is_Some (size kv.2)) d.
Proof.
  revert n. induction d as [|[[k|] x] d IH]; intros n; simpl; [constructor| |done]. fold (dict_size d).
  destruct (str_size k); [|done]. simpl. destruct (size x) eqn:E; [|done]. simpl.
  destruct (dict_size d) eqn:Ed; [|done]. intros _. constructor; [simpl; by rewrite E|]. by eapply IH.
Qed.

Lemma dict_size_some d :
  Forall (λ kv, (∃ k, kv.1 = KStr k ∧ is_Some (str_size k)) ∧ is_Some (size kv.2)) d →
  is_Some (dict_size d).
Proof.
  induction 1 as [|[k x] d [(k' & Hk & [a Ha]) [b Hb]] _ [c IH]]; simpl in *; [by eexists|]. subst k.
  fold (dict_size d). rewrite Ha, Hb, IH. by eexists.
Qed.

Lemma size_dict d : size (VDict d) = (n ← dict_size d; Some (container_bytes (length d) + n)%Z).
Proof. reflexivity. Qed.

Lemma size_list l : size (VList l) = (n ← list_size l; Some (container_bytes (length l) + n)%Z).
Proof. reflexivity. Qed.

(** ** Capturing *)

Section capture.
Context `{U : Unicode} `{!UnicodeLaws U} `{F : UnicodeFold}.

Abbreviation L := JOURNAL_SNAPSHOT_LIMITS.

Lemma resource_value_digest a b evs s s' :
  str_size s = str_size s' →
  size (resource_value a b evs (VStr s)) = size (resource_value a b evs (VStr s')).
Proof. intros H. unfold resource_value. rewrite !size_dict. unfold field. cbn [dict_size size]. by rewrite H. Qed.

Lemma validate_digest a b evs s s' :
  str_size s = str_size s' →
  _validate_snapshot_resource a b evs (VStr s) = Ok tt →
  _validate_snapshot_resource a b evs (VStr s') = Ok tt.
Proof.
  intros Hs. unfold _validate_snapshot_resource. intros ([] & Hi & H)%result_bind_ok. rewrite Hi.
  cbn [mbind result_bind].
  assert (validate_json_resource L (resource_value a b evs (VStr s)) = Ok tt) as Hv.
  { unfold limited in H. destruct (validate_json_resource _ _) as [[]|]; [done|done]. }
  apply validate_size in Hv; [|done..]. rewrite (resource_value_digest _ _ _ _ _ Hs) in Hv.
  assert (validate_json_resource L (resource_value a b evs (VStr s')) = Ok tt) as ->; [|done].
  by apply validate_size.
Qed.

Lemma validated_sizes a b evs c :
  _validate_snapshot_resource a b evs c = Ok tt →
  is_Some (size b) ∧ Forall (λ v, is_Some (size v)) evs.
Proof.
  unfold _validate_snapshot_resource. intros ([] & _ & H)%result_bind_ok.
  assert (validate_json_resource L (resource_value a b evs c) = Ok tt) as Hv.
  { unfold limited in H. destruct (validate_json_resource _ _) as [[]|]; [done|done]. }
  apply validate_size in Hv as ((n & Hn & _) & _); [|done..]. unfold resource_value in Hn.
  rewrite size_dict in Hn. destruct (dict_size _) as [m|] eqn:E in Hn; [|done]. apply dict_size_all in E.
  rewrite !Forall_cons in E. destruct E as (_ & _ & Hb & He & _). split; [exact Hb|].
  destruct He as [k Hk]. simpl in Hk. fold (list_size evs) in Hk.
  destruct (list_size evs) eqn:El; [|done]. by eapply list_size_all.
Qed.

Lemma event_digests events :
  Forall (λ v, is_Some (size v)) (JournalEvent_to_dict <$> events) →
  ∃ shas, mapR journal_event_sha256 events = Ok shas ∧ Forall (λ s, _SHA256_RE s = true) shas.
Proof.
  rewrite Forall_fmap. intros H. induction H as [|e es He _ (shas & IH & Hs)].
  - exists []. split; [done|constructor].
  - apply encoded_some in He as [bs Hbs]. exists (sha256_hex bs :: shas). split.
    + assert (journal_event_sha256 e = Ok (sha256_hex bs)) as He.
      { unfold journal_event_sha256, _canonical_bytes. by rewrite Hbs. }
      simpl. rewrite He. simpl. by rewrite IH.
    + constructor; [apply sha256_hex_digest|done].
Qed.

Lemma snapshot_digest x hw shas :
  _IDENTIFIER_RE x = true → is_Some (size (opt_cursor hw)) → Forall (λ s, _SHA256_RE s = true) shas →
  ∃ digest, _snapshot_sha256 x hw shas = Ok digest ∧ _SHA256_RE digest = true.
Proof.
  intros Hx Hhw Hs. unfold _snapshot_sha256, _canonical_bytes.
  assert (is_Some (size (snapshot_digest_value x hw shas))) as [bs Hbs]%encoded_some.
  { unfold snapshot_digest_value. rewrite size_dict.
    assert (is_Some (dict_size [field "domain" (VStr (u "unchain.journal_snapshot.v1"));
         field "execution_id" (VStr x); field "high_water" (opt_cursor hw);
         field "event_sha256s" (VList (VStr <$> shas))])) as [n Hn]; [|rewrite Hn; by eexists].
    apply dict_size_some. repeat constructor; simpl; try (eexists; split; [done|by eexists]).
    - by eexists.
    - rewrite identifier_size by done. by eexists.
    - done.
    - fold (list_size (VStr <$> shas)).
      assert (is_Some (list_size (VStr <$> shas))) as [m Hm]; [|rewrite Hm; by eexists].
      apply list_size_some, Forall_fmap. eapply Forall_impl; [exact Hs|]. intros s Hd. simpl.
      rewrite digest_size by done. by eexists. }
  rewrite Hbs. eexists. split; [done|]. apply sha256_hex_digest.
Qed.

(** What a list of events must be to be captured. *)
Definition snapshot_ready (x : pystr) (events : list JournalEvent) : Prop :=
  snapshot_consistent x events = true ∧
  _validate_snapshot_resource (VStr x) (opt_cursor (cursor_of <$> last events))
    (JournalEvent_to_dict <$> events) (VStr (replicate 64 48%N)) = Ok tt.

Lemma event_cursor e :
  event_wf e → make_EventCursor (VInt (je_store_seq e)) (VStr (event_id e)) = Ok (cursor_of e).
Proof.
  intros [[Hi _ _ _ _ _] Hs]. unfold make_EventCursor, event_id. rewrite Hi. unfold _bounded_int.
  destruct (_ <? _)%Z eqn:E; [lia|done].
Qed.

Lemma expected_high_water_wf events :
  Forall event_wf events → expected_high_water events = Ok (cursor_of <$> last events).
Proof.
  intros H. unfold expected_high_water. destruct (last events) as [e|] eqn:E; [|done].
  rewrite event_cursor; [done|]. rewrite Forall_forall in H. apply H. by apply last_Some_elem_of.
Qed.

(** The constructor on instances, with everything but the digest checked. *)
Lemma make_snapshot_instances x events shas digest :
  Forall event_wf events → _required_text (VStr x) 256 true = Ok x →
  snapshot_ready x events →
  mapR journal_event_sha256 events = Ok shas →
  _snapshot_sha256 x (cursor_of <$> last events) shas = Ok digest → _SHA256_RE digest = true →
  make_JournalSnapshot (VStr x) (cursor_arg (cursor_of <$> last events)) (instances events)
    (VStr digest) = Ok (mkSnapshot x (cursor_of <$> last events) events digest).
Proof.
  intros Hwf Hx [Hc Hv] Hshas Hd Hre. unfold make_JournalSnapshot, instances. cbn [mbind result_bind].
  assert (event_wire <$> (Inst <$> events) = JournalEvent_to_dict <$> events) as ->
    by (by rewrite <-list_fmap_compose).
  assert (cursor_wire (cursor_arg (cursor_of <$> last events)) = opt_cursor (cursor_of <$> last events))
    as -> by by destruct (last events).
  rewrite (validate_digest _ _ _ (replicate 64 48%N)); [|by rewrite (digest_size digest)|done].
  cbn [mbind result_bind]. rewrite Hx. cbn [mbind result_bind].
  assert (match cursor_arg (cursor_of <$> last events) with
          | Val VNone => Ok None
          | Inst c => Ok (Some c)
          | Val v => c ← EventCursor_from_dict v; Ok (Some c)
          end = Ok (cursor_of <$> last events)) as -> by by destruct (last events).
  cbn [mbind result_bind]. rewrite mapR_fmap, mapR_id by by apply Forall_true. cbn [mbind result_bind].
  rewrite Hc. cbn [mbind result_bind ensure]. rewrite expected_high_water_wf by done.
  cbn [mbind result_bind]. rewrite bool_decide_eq_true_2 by done. cbn [mbind result_bind ensure].
  rewrite Hre. cbn [mbind result_bind]. rewrite Hshas. cbn [mbind result_bind]. rewrite Hd.
  cbn [mbind result_bind]. by rewrite bool_decide_eq_true_2.
Qed.

Lemma ready_digest x events :
  _IDENTIFIER_RE x = true → snapshot_ready x events →
  ∃ shas digest, mapR journal_event_sha256 events = Ok shas ∧
    _snapshot_sha256 x (cursor_of <$> last events) shas = Ok digest ∧ _SHA256_RE digest = true.
Proof.
  intros Hx [_ Hv]. apply validated_sizes in Hv as [Hhw He].
  destruct (event_digests _ He) as (shas & Hs & Hre).
  destruct (snapshot_digest x _ shas Hx Hhw Hre) as (digest & Hd & Hred). eauto.
Qed.

Lemma capture_ready id x events :
  Forall event_wf events → _required_text id 256 true = Ok x → snapshot_ready x events →
  ∃ shas digest, mapR journal_event_sha256 events = Ok shas ∧
    _snapshot_sha256 x (cursor_of <$> last events) shas = Ok digest ∧ _SHA256_RE digest = true ∧
    capture_journal_snapshot id events = Ok (mkSnapshot x (cursor_of <$> last events) events digest).
Proof.
  intros Hwf Hid Hr. assert (Hx := required_identifier _ _ _ Hid).
  destruct (ready_digest _ _ Hx Hr) as (shas & digest & Hs & Hd & Hre).
  exists shas, digest. split_and!; [done..|]. unfold capture_journal_snapshot. rewrite Hid.
  cbn [mbind result_bind].
  assert (limited (enforce_item_limit (length events) JOURNAL_SNAPSHOT_LIMITS) = Ok tt) as ->.
  { destruct Hr as [_ Hv]. unfold _validate_snapshot_resource in Hv. rewrite length_fmap in Hv.
    by apply result_bind_ok in Hv as ([] & ? & _). }
  cbn [mbind result_bind]. rewrite expected_high_water_wf by done. cbn [mbind result_bind].
  rewrite (proj2 Hr). cbn [mbind result_bind]. rewrite Hs. cbn [mbind result_bind]. rewrite Hd.
  cbn [mbind result_bind]. apply (make_snapshot_instances x events shas); try done.
  by eapply required_text_stable.
Qed.

Lemma capture_inv id x events s :
  Forall event_wf events → _required_text id 256 true = Ok x →
  capture_journal_snapshot id events = Ok s → snapshot_ready x events.
Proof.
  intros Hwf Hid. unfold capture_journal_snapshot. rewrite Hid. cbn [mbind result_bind].
  rewrite expected_high_water_wf by done.
  intros ([] & _ & H)%result_bind_ok. cbn [mbind result_bind] in H.
  apply result_bind_ok in H as ([] & Hv & (shas & _ & (digest & _ & H)%result_bind_ok)%result_bind_ok).
  split; [|done]. unfold make_JournalSnapshot, instances in H. cbn [mbind result_bind] in H.
  apply result_bind_ok in H as (_ & _ & (x' & Hx & (hw & _ & (es & Hes & ([] & Hc & _)
    %result_bind_ok)%result_bind_ok)%result_bind_ok)%result_bind_ok).
  rewrite (required_text_stable _ _ _ _ Hid) in Hx. injection Hx as <-.
  rewrite mapR_fmap, mapR_id in Hes by by apply Forall_true. injection Hes as <-.
  by apply ensure_ok in Hc.
Qed.

(** *** What is accepted is a complete prefix *)

Lemma contiguous_increasing k events :
  je_store_seq <$> events = Z.of_nat <$> seq k (length events) → increasing events = true.
Proof.
  revert k. induction events as [|e events IH]; intros k H; [done|]. simpl in H.
  injection H as He H. simpl. destruct events as [|e' events]; [done|].
  apply andb_true_iff. split; [|by apply (IH (S k))]. apply Z.ltb_lt.
  simpl in H. injection H as He' _. lia.
Qed.

Lemma contiguous_NoDup events :
  je_store_seq <$> events = Z.of_nat <$> seq 1 (length events) → NoDup (je_store_seq <$> events).
Proof. intros ->. apply NoDup_fmap_2; [apply _|apply NoDup_seq]. Qed.

Lemma snapshot_consistent_spec x events :
  snapshot_consistent x events = true ↔
  je_store_seq <$> events = Z.of_nat <$> seq 1 (length events) ∧ NoDup (event_id <$> events) ∧
  ∀ e, e ∈ events → execution_of e = x.
Proof.
  unfold snapshot_consistent, contiguous. rewrite !andb_true_iff, !bool_decide_eq_true, forallb_forall.
  setoid_rewrite <-list_elem_of_In. setoid_rewrite bool_decide_eq_true.
  split; [tauto|]. intros (Hs & Hi & Hx). split_and!; try done.
  - by eapply contiguous_increasing.
  - by apply contiguous_NoDup.
Qed.

Lemma contiguous_lookup events i e :
  je_store_seq <$> events = Z.of_nat <$> seq 1 (length events) → events !! i = Some e →
  je_store_seq e = (Z.of_nat i + 1)%Z.
Proof.
  intros H Hi. assert ((je_store_seq <$> events) !! i = Some (je_store_seq e)) as Hs
    by by rewrite list_lookup_fmap, Hi.
  rewrite H, list_lookup_fmap, lookup_seq_lt in Hs by by eapply lookup_lt_Some.
  injection Hs as <-. lia.
Qed.

Lemma validate_snapshot_items a b evs c :
  _validate_snapshot_resource a b evs c = Ok tt ↔
  (Z.of_nat (length evs) ≤ 10000)%Z ∧ validate_json_resource L (resource_value a b evs c) = Ok tt.
Proof.
  unfold _validate_snapshot_resource, enforce_item_limit, limited.
  replace (max_items L) with 10000%Z by done.
  destruct (_ <? _)%Z eqn:E; simpl.
  - split; [done|]. intros [H _]. apply Z.ltb_lt in E. lia.
  - apply Z.ltb_ge in E. destruct (validate_json_resource L _) as [[]|]; simpl; naive_solver.
Qed.

(** What the constructor checked of a snapshot. *)
Lemma make_snapshot_inv id hw events sha s :
  make_JournalSnapshot id hw events sha = Ok s →
  (Z.of_nat (length (sn_events s)) ≤ 10000)%Z ∧ snapshot_consistent (sn_execution_id s) (sn_events s) = true ∧
  expected_high_water (sn_events s) = Ok (sn_high_water s) ∧
  ∃ shas, mapR journal_event_sha256 (sn_events s) = Ok shas ∧
          _snapshot_sha256 (sn_execution_id s) (sn_high_water s) shas = Ok (sn_snapshot_sha256 s).
Proof.
  unfold make_JournalSnapshot.
  intros (l & _ & ([] & Hv & (x & _ & (c & _ & (es & Hes & ([] & Hc & (ex & Hex & ([] & Hhw & H)
    %result_bind_ok)%result_bind_ok)%result_bind_ok)%result_bind_ok)%result_bind_ok)
    %result_bind_ok)%result_bind_ok)%result_bind_ok.
  apply result_bind_ok in H as (d & _ & (shas & Hs & (d' & Hd & ([] & He & [= <-])
    %result_bind_ok)%result_bind_ok)%result_bind_ok).
  apply ensure_ok in Hc, Hhw, He. apply bool_decide_eq_true in Hhw, He. subst c d'.
  apply validate_snapshot_items in Hv as [Hl _]. rewrite length_fmap in Hl.
  apply mapR_ok, Forall2_length in Hes. simpl. rewrite <-Hes. eauto 10.
Qed.

Lemma from_dict_inv v s :
  unique_keys v → JournalSnapshot_from_dict v = Ok s →
  Forall event_wf (sn_events s) ∧ ∃ id hw events sha, make_JournalSnapshot id hw events sha = Ok s.
Proof.
  intros Hu. destruct v as [| | | | | |d|]; try done. unfold JournalSnapshot_from_dict.
  intros (_ & _ & (_ & _ & (raw & Hraw & (_ & _ & (es & Hes & (_ & _ & (hw & _ & H)
    %result_bind_ok)%result_bind_ok)%result_bind_ok)%result_bind_ok)%result_bind_ok)
    %result_bind_ok)%result_bind_ok.
  split; [|eauto]. assert (sn_events s = es) as ->.
  { unfold make_JournalSnapshot, instances in H. cbn [mbind result_bind] in H.
    apply result_bind_ok in H as (_ & _ & (x & _ & (c & _ & (es' & Hes' & H)
      %result_bind_ok)%result_bind_ok)%result_bind_ok).
    rewrite mapR_fmap, mapR_id in Hes' by by apply Forall_true. injection Hes' as <-.
    repeat (apply result_bind_ok in H as (? & _ & H)). by injection H as <-. }
  apply (unique_keys_get _ "events") in Hu. destruct (get d "events") as [| | | | |l| |]; try done.
  injection Hraw as <-. inversion Hu as [| | | | | |? Hl|]; subst. clear -Hl Hes UnicodeLaws0.
  apply mapR_ok in Hes. induction Hes as [|x e l es Hx _ IH]; constructor.
  - apply Forall_cons in Hl as [Hl _]. by eapply event_from_dict_wf.
  - apply IH. by apply Forall_cons in Hl as [_ ?].
Qed.

(** C37. An accepted snapshot is a complete prefix of one execution: the event
    at position [i] has sequence number [i + 1], all event ids differ, every
    event belongs to the execution of the snapshot, the high water mark is the
    cursor of the last event, there are at most 10000 events, and the digest is
    the digest over the digests of exactly these events. *)
Theorem snapshot_is_complete_prefix (v : pyval) (s : JournalSnapshot) :
  unique_keys v → JournalSnapshot_from_dict v = Ok s →
  (∀ i e, sn_events s !! i = Some e →
          je_store_seq e = (Z.of_nat i + 1)%Z ∧ execution_of e = sn_execution_id s) ∧
  NoDup (event_id <$> sn_events s) ∧
  sn_high_water s = cursor_of <$> last (sn_events s) ∧
  (Z.of_nat (length (sn_events s)) ≤ 10000)%Z ∧
  ∃ shas, Forall2 (λ e h, journal_event_sha256 e = Ok h) (sn_events s) shas ∧
          _snapshot_sha256 (sn_execution_id s) (sn_high_water s) shas = Ok (sn_snapshot_sha256 s).
Proof.
  intros Hu Hs. destruct (from_dict_inv _ _ Hu Hs) as (Hwf & id & hw & evs & sha & Hm).
  destruct (make_snapshot_inv _ _ _ _ _ Hm) as (Hl & Hc & Hhw & shas & Hsh & Hd).
  apply snapshot_consistent_spec in Hc as (Hseq & Hnd & Hx).
  rewrite expected_high_water_wf in Hhw by done. injection Hhw as Hhw.
  split_and!; [|done..|].
  - intros i e Hi. split; [by eapply contiguous_lookup|]. apply Hx. by eapply list_elem_of_lookup_2.
  - exists shas. split; [by apply mapR_ok|done].
Qed.

(** Capturing is exact: from the events of a journal a snapshot is captured
    just when their sequence numbers are 1, 2, ... without a gap, their ids
    differ, they belong to the execution, there are at most 10000 of them and
    the record is within the resource limits.  The digest and its size never
    make it fail; the snapshot holds the given events and ends at the last of
    them. *)
Theorem capture_is_exact (id : pyval) (x : pystr) (events : list JournalEvent) :
  Forall event_wf events → _required_text id 256 true = Ok x →
  (is_ok (capture_journal_snapshot id events) = true ↔
   je_store_seq <$> events = Z.of_nat <$> seq 1 (length events) ∧
   NoDup (event_id <$> events) ∧ (∀ e, e ∈ events → execution_of e = x) ∧
   (Z.of_nat (length events) ≤ 10000)%Z ∧
   validate_json_resource JOURNAL_SNAPSHOT_LIMITS
     (resource_value (VStr x) (opt_cursor (cursor_of <$> last events))
        (JournalEvent_to_dict <$> events) (VStr (replicate 64 48%N))) = Ok tt) ∧
  (∀ s, capture_journal_snapshot id events = Ok s →
        sn_execution_id s = x ∧ sn_events s = events ∧ sn_high_water s = cursor_of <$> last events).
Proof.
  intros Hwf Hid.
  assert (snapshot_ready x events ↔
    je_store_seq <$> events = Z.of_nat <$> seq 1 (length events) ∧
    NoDup (event_id <$> events) ∧ (∀ e, e ∈ events → execution_of e = x) ∧
    (Z.of_nat (length events) ≤ 10000)%Z ∧
    validate_json_resource L
      (resource_value (VStr x) (opt_cursor (cursor_of <$> last events))
        (JournalEvent_to_dict <$> events) (VStr (replicate 64 48%N))) = Ok tt) as Hready.
  { unfold snapshot_ready. rewrite snapshot_consistent_spec, validate_snapshot_items, length_fmap. tauto. }
  split.
  - rewrite <-Hready. split.
    + destruct (capture_journal_snapshot id events) as [s|] eqn:E; [|done]. intros _.
      by eapply capture_inv.
    + intros Hr. destruct (capture_ready _ _ _ Hwf Hid Hr) as (? & ? & _ & _ & _ & ->). done.
  - intros s Hs. assert (Hr := capture_inv _ _ _ _ Hwf Hid Hs).
    destruct (capture_ready _ _ _ Hwf Hid Hr) as (? & ? & _ & _ & _ & Hc). rewrite Hc in Hs.
    by injection Hs as <-.
Qed.

Lemma snapshot_record s :
  JournalSnapshot_from_dict (JournalSnapshot_to_dict s) =
  (_ ← _validate_snapshot_resource (VStr (sn_execution_id s)) (opt_cursor (sn_high_water s))
         (JournalEvent_to_dict <$> sn_events s) (VStr (sn_snapshot_sha256 s));
   events ← mapR JournalEvent_from_dict (JournalEvent_to_dict <$> sn_events s);
   _ ← ensure (py_eq (VInt (Z.of_nat (event_count s))) (VInt (Z.of_nat (length events))))
         JournalSnapshotError;
   high_water ← read_cursor (opt_cursor (sn_high_water s));
   make_JournalSnapshot (VStr (sn_execution_id s)) high_water (instances events)
     (VStr (sn_snapshot_sha256 s))).
Proof. reflexivity. Qed.

(** A captured snapshot survives its wire shape: it is read back unchanged
    from what [to_dict] writes. *)
Theorem captured_snapshot_roundtrip (id : pyval) (events : list JournalEvent) (s : JournalSnapshot) :
  Forall event_wf events → capture_journal_snapshot id events = Ok s →
  JournalSnapshot_from_dict (JournalSnapshot_to_dict s) = Ok s.
Proof.
  intros Hwf Hs. assert (∃ x, _required_text id 256 true = Ok x) as [x Hid].
  { by apply result_bind_ok in Hs as (x & Hx & _); eexists. }
  assert (Hr := capture_inv _ _ _ _ Hwf Hid Hs).
  destruct (capture_ready _ _ _ Hwf Hid Hr) as (shas & digest & Hsh & Hd & Hre & Hc).
  rewrite Hc in Hs. injection Hs as <-. rewrite snapshot_record. cbn [sn_execution_id sn_high_water
    sn_events sn_snapshot_sha256].
  rewrite (validate_digest _ _ _ (replicate 64 48%N)); [|by rewrite (digest_size digest)|apply Hr].
  cbn [mbind result_bind]. rewrite mapR_fmap, mapR_id.
  2: { eapply Forall_impl; [exact Hwf|]. intros e He. by apply event_roundtrip in He. }
  cbn [mbind result_bind]. unfold event_count. cbn [sn_events].
  assert (py_eq (VInt (Z.of_nat (length events))) (VInt (Z.of_nat (length events))) = true) as ->.
  { simpl. unfold num_eq. simpl. by apply Z.eqb_refl. }
  cbn [mbind result_bind ensure].
  rewrite read_cursor_opt.
  2: { destruct (last events) as [e|] eqn:El; [|done]. intros c [= <-]. rewrite Forall_forall in Hwf.
       apply last_Some_elem_of in El. by eapply make_EventCursor_wf, event_cursor, Hwf. }
  cbn [mbind result_bind]. apply (make_snapshot_instances x events shas); try done.
  by eapply required_text_stable.
Qed.
End capture.
