(* ===== verification/JournalRuntime.v ===== *)
(** * The durable event sink (src/unchain/journal/runtime.py, ports.py)

    [DurableEventSink] stands between the runtime and the journal of one
    execution: it projects runtime events to drafts, appends them, replays an
    attempt page by page and decides what may be done with a tool call after a
    crash.

    The journal itself is a port ([BoundExecutionJournal] in ports.py, an
    abstract class): a record of operations over a state [S] of its own.  An
    operation may raise, and may return something that is not of the promised
    class ([None] below), which the sink checks for.  [JournalLog] says what the
    documentation of the port promises of an honest journal. *)

From S2P Require Import Prelude PyVal Json Models Diagnostics JournalPayload ResourceLimits JournalRecords JournalSnapshot.

Definition DurableJournalScopeError : pyexn := OtherError (u "DurableJournalScopeError").
Definition DurableJournalIntegrityError : pyexn := OtherError (u "DurableJournalIntegrityError").
Definition JournalRepositoryError : pyexn := OtherError (u "JournalRepositoryError").

Definition _MAX_REPLAY_PAGE_SIZE : Z := 1000.
Definition _MAX_REPLAY_PAGES : nat := N.to_nat 100000.
#[global] Opaque _MAX_REPLAY_PAGES.

(** [str(v)] of a JSON value that is not text (its [repr]). *)
Class PyRepr : Type := py_repr : pyval → pystr.

(** [part in s] *)
Fixpoint contains (s part : pystr) : bool :=
  startswith s part || match s with [] => false | _ :: s' => contains s' part end.

Section drafts.
Context `{U : Unicode} `{F : UnicodeFold}.

(** ** Operations and drafts *)

Definition operation_value (domain : pystr) (payload : pyval) : pyval :=
  VDict [field "domain" (VStr domain); field "payload" payload].

Definition build_operation_ref (operation_id domain payload : pyval) : R OperationRef :=
  normalized_id ← _required_text operation_id 256 true;
  normalized_domain ← _required_text domain 256 true;
  frozen ← _freeze_json (operation_value normalized_domain payload);
  bs ← _canonical_bytes (_thaw_json frozen);
  make_OperationRef (VStr normalized_id) (VStr (sha256_hex bs)).

Record SemanticEventDraft : Type := mkDraft {
  sd_event_id : pystr;
  sd_event_type : pystr;
  sd_attempt : AttemptRef;
  sd_operation_id : pystr;
  sd_payload : list (pystr * frozen);
  sd_resource_refs : list ResourceRef;
}.

Definition make_SemanticEventDraft (event_id event_type : pyval) (attempt : arg AttemptRef)
    (operation_id payload : pyval) (resource_refs : seq_arg ResourceRef) : R SemanticEventDraft :=
  event_id ← _required_text event_id 256 true;
  event_type ← _required_text event_type 256 true;
  attempt ← match attempt with Inst a => Ok a | Val v => AttemptRef_from_dict v end;
  operation_id ← _required_text operation_id 256 true;
  payload ← freeze_payload payload;
  resource_refs ← _record_tuple resource_refs;
  Ok (mkDraft event_id event_type attempt operation_id payload resource_refs).

Definition draft_domain : pystr := u "journal.semantic_event".

Definition draft_value (d : SemanticEventDraft) : pyval :=
  VDict [field "event_id" (VStr (sd_event_id d)); field "event_type" (VStr (sd_event_type d));
         field "attempt" (AttemptRef_to_dict (sd_attempt d));
         field "payload" (_thaw_json (FMap (sd_payload d)));
         field "resource_refs" (VList (ResourceRef_to_dict <$> sd_resource_refs d))].

Definition draft_operation (d : SemanticEventDraft) : R OperationRef :=
  build_operation_ref (VStr (sd_operation_id d)) (VStr draft_domain) (draft_value d).

(** The frozen payload is frozen again: freezing reads any mapping. *)
Definition to_append_request (d : SemanticEventDraft) : R JournalAppendRequest :=
  operation ← draft_operation d;
  make_JournalAppendRequest (VStr (sd_event_id d)) (VStr (sd_event_type d)) (Inst (sd_attempt d))
    (Inst operation) (_thaw_json (FMap (sd_payload d))) (instances (sd_resource_refs d)).

Record PreparedSemanticEvent : Type := mkPrepared {
  ps_draft : SemanticEventDraft;
  ps_artifacts : list PendingArtifact;
}.

(** ** Ephemeral events *)

Definition ephemeral_markers : list pystr := u <$>
  ["reasoning"; "thinking"; "chain_of_thought"; "hidden_cot"]%string.
Definition delta_tokens : list pystr := u <$>
  ["analysis"; "content"; "message"; "response"; "stream"; "token"]%string.

Definition event_type_is_ephemeral (raw_type : pystr) : bool :=
  bool_decide (raw_type = u "provider_retry")
  || (let event_type := strip_underscore (squeeze false (casefold raw_type)) in
      nonempty event_type
      && (existsb (contains event_type) ephemeral_markers
          || endswith event_type (u "delta") && existsb (contains event_type) delta_tokens)).

Definition _runtime_event_is_ephemeral (event : pydict) : bool :=
  match get event "type" with
  | VStr raw_type => event_type_is_ephemeral raw_type
  | _ => false
  end.

Definition _same_persisted_event (request : JournalAppendRequest) (persisted : JournalEvent) : bool :=
  bool_decide (event_id persisted = ar_event_id request)
  && bool_decide (event_type persisted = ar_event_type request)
  && bool_decide (event_attempt persisted = ar_attempt request)
  && bool_decide (event_operation persisted = ar_operation request)
  && py_eq (_thaw_json (FMap (event_payload persisted))) (_thaw_json (FMap (ar_payload request)))
  && bool_decide (event_refs persisted = ar_resource_refs request).

(** ** Projection for the compiler *)

Definition SEMANTIC_EVENT_PROJECTION_LIMITS : JsonResourceLimits :=
  mkLimits 10000 (32 * 1024 * 1024) 64 1000000.

Definition projection_value (e : JournalEvent) : pyval :=
  let generation := at_generation (event_attempt e) in
  VDict [field "type" (VStr (event_type e)); field "event_id" (VStr (event_id e));
         field "store_seq" (VInt (je_store_seq e));
         field "execution_id" (VStr (gr_execution_id generation));
         field "generation_id" (VStr (gr_generation_id generation));
         field "attempt_id" (VStr (at_attempt_id (event_attempt e)));
         field "payload" (_thaw_json (FMap (event_payload e)));
         field "resource_refs" (VList (ResourceRef_to_dict <$> event_refs e))].

(** [projected.update({...})] *)
Definition update (d : pydict) (items : pydict) : pydict :=
  foldl (λ d kv, dict_set d kv.1 kv.2) d items.

Definition projection_update (e : JournalEvent) : pydict :=
  let generation := at_generation (event_attempt e) in
  [field "type" (VStr (event_type e)); field "event_id" (VStr (event_id e));
   field "store_seq" (VInt (je_store_seq e));
   field "execution_id" (VStr (gr_execution_id generation));
   field "generation_id" (VStr (gr_generation_id generation));
   field "attempt_id" (VStr (at_attempt_id (event_attempt e)));
   field "resource_refs" (VList (ResourceRef_to_dict <$> event_refs e))].

Definition journal_event_to_semantic_event (e : JournalEvent) : R pydict :=
  _ ← limited (validate_json_resource SEMANTIC_EVENT_PROJECTION_LIMITS (projection_value e));
  match _thaw_json (FMap (event_payload e)) with
  | VDict projected => Ok (update projected (projection_update e))
  | _ => Err DurableJournalIntegrityError
  end.
End drafts.
#[global] Arguments event_type_is_ephemeral : simpl never.
#[global] Arguments to_append_request : simpl never.

(** ** The journal port *)

Record BoundExecutionJournal (S : Type) : Type := mkJournal {
  jn_execution_id : pystr;
  jn_append : JournalAppendRequest → M S pyexn (option JournalAppendResult);
  jn_read : option EventCursor → Z → M S pyexn (option JournalPage);
  jn_append_with_artifacts :
    JournalAppendRequest → list PendingArtifact → option (JournalSnapshot → R unit) →
    M S pyexn (option JournalAppendResult);
  (** [None]: the journal is not a [BoundToolReceiptIndex] *)
  jn_lookup : option (AttemptRef → pystr → M S pyexn (option ToolExecutionReceiptLookup));
  jn_capture_snapshot : M S pyexn JournalSnapshot;
}.
Arguments mkJournal {S}.
Arguments jn_execution_id {S} b.
Arguments jn_append {S} b.
Arguments jn_read {S} b.
Arguments jn_append_with_artifacts {S} b.
Arguments jn_lookup {S} b.
Arguments jn_capture_snapshot {S} b.

(** [BoundExecutionJournal.append_with_artifacts], the default: refused. *)
Definition default_append_with_artifacts {S : Type} (request : JournalAppendRequest)
    (artifacts : list PendingArtifact) (precondition : option (JournalSnapshot → R unit))
    : M S pyexn (option JournalAppendResult) :=
  raise JournalRepositoryError.

#[export] Instance JournalAppendRequest_eq_dec : EqDecision JournalAppendRequest.
Proof. solve_decision. Defined.
#[export] Instance JournalEvent_eq_dec : EqDecision JournalEvent.
Proof. solve_decision. Defined.

(** Equality of events as Python compares them: payloads with [==]. *)
Definition event_eq (e e' : JournalEvent) : bool :=
  bool_decide (event_id e = event_id e') && bool_decide (event_type e = event_type e')
  && bool_decide (event_attempt e = event_attempt e')
  && bool_decide (event_operation e = event_operation e')
  && (je_store_seq e =? je_store_seq e')%Z
  && py_eq (_thaw_json (FMap (event_payload e))) (_thaw_json (FMap (event_payload e')))
  && bool_decide (event_refs e = event_refs e').

Fixpoint events_eq (l l' : list JournalEvent) : bool :=
  match l, l' with
  | [], [] => true
  | e :: l, e' :: l' => event_eq e e' && events_eq l l'
  | _, _ => false
  end.

(** [BoundExecutionJournal.snapshot_prefix_is_current], the default. *)
Definition snapshot_prefix_is_current {S : Type} (j : BoundExecutionJournal S)
    (snapshot : JournalSnapshot) : M S pyexn bool :=
  if bool_decide (sn_execution_id snapshot = jn_execution_id j) then
    current ← jn_capture_snapshot j;
    mret (events_eq (take (event_count snapshot) (sn_events current)) (sn_events snapshot))
  else mret false.

(** ** Recovery of a tool call *)

Inductive SideEffectRecoveryState : Type :=
| NOT_STARTED
| UNCERTAIN_AFTER_START
| SEALED_COMPLETION_FINALIZABLE
| TERMINAL_RESULT_REUSABLE
| CORRUPT.

#[export] Instance SideEffectRecoveryState_eq_dec : EqDecision SideEffectRecoveryState.
Proof. solve_decision. Defined.

Record ToolSideEffectRecovery : Type := mkRecovery {
  tr_state : SideEffectRecoveryState;
  tr_call_id : pystr;
  tr_started_event : option JournalEvent;
  tr_sealed_event : option JournalEvent;
  tr_result_event : option JournalEvent;
  tr_reusable_result_artifact : option ArtifactRef;
  tr_reason : pystr;
  tr_intent_event : option JournalEvent;
}.

Definition auto_execute_allowed (r : ToolSideEffectRecovery) : bool :=
  bool_decide (tr_state r = NOT_STARTED).

Definition reusable_result_ref (r : ToolSideEffectRecovery) : option ResourceRef :=
  ar_ref <$> tr_reusable_result_artifact r.

Definition _TOOL_STARTED_TYPES : list pystr := [u "tool.started"].
Definition _TOOL_SEALED_TYPES : list pystr := [u "tool.subagent_completion.sealed"].

Section recovery.
Context `{U : Unicode} `{F : UnicodeFold} `{PR : PyRepr}.

(** The constructor normalises the call id and cuts the reason. *)
Definition make_ToolSideEffectRecovery (state : SideEffectRecoveryState) (call_id : pystr)
    (intent started sealed result : option JournalEvent) (artifact : option ArtifactRef)
    (reason : pystr) : R ToolSideEffectRecovery :=
  call_id ← _required_text (VStr call_id) 256 true;
  Ok (mkRecovery state call_id started sealed result artifact (take 512 (strip reason)) intent).

(** [str(value or "")] *)
Definition text_or_empty (v : pyval) : pystr :=
  if truthy v then match v with VStr s => s | _ => py_repr v end else [].

Definition _reusable_result_ref (event : JournalEvent) : option ArtifactRef :=
  match ResourceRef_from_dict (items_get (event_payload event) "full_output_ref") with
  | Err _ => None
  | Ok ref =>
      match items_get (event_payload event) "result_bytes",
            items_get (event_payload event) "result_sha256" with
      | VInt byte_length, VStr digest =>
          if bool_decide (rr_kind ref ≠ u "artifact")
             || negb (bool_decide (ref ∈ event_refs event))
             || (byte_length <? 0)%Z || negb (_SHA256_RE digest)
          then None
          else match make_ArtifactRef (Inst ref) (VStr (u "application/json")) (VInt byte_length)
                       (VStr digest)
                       (VStr (text_or_empty (items_get (event_payload event) "preview"))) with
               | Ok artifact => Some artifact
               | Err _ => None
               end
      | _, _ => None
      end
  end.

(** The stable tool name of a receipt: text without surrounding white space. *)
Definition stable_tool_name (event : JournalEvent) : option pystr :=
  match items_get (event_payload event) "tool_name" with
  | VStr s => if bool_decide (s = strip s) && nonempty s then Some s else None
  | _ => None
  end.

(** One of the four lists the loop sorts the receipts into. *)
Inductive receipt_kind : Type := KIntent | KStarted | KSealed | KResult.

#[export] Instance receipt_kind_eq_dec : EqDecision receipt_kind.
Proof. solve_decision. Defined.

Definition kind_of (event : JournalEvent) : receipt_kind :=
  if bool_decide (event_type event = u "tool_call") then KIntent
  else if bool_decide (event_type event ∈ _TOOL_STARTED_TYPES) then KStarted
  else if bool_decide (event_type event ∈ _TOOL_SEALED_TYPES) then KSealed
  else KResult.

Definition of_kind (k : receipt_kind) (events : list JournalEvent) : list JournalEvent :=
  filter (λ e, kind_of e = k) events.

(** [l[0] if len(l) == 1 else None] *)
Definition only {A} (l : list A) : option A := match l with [a] => Some a | _ => None end.

(** [len({tool_names[event.event_id] for event in lookup.events}) == 1] *)
Definition one_name (names : list (option pystr)) : bool :=
  match names with
  | [] => false
  | n :: names => forallb (λ n', bool_decide (n' = n)) names
  end.

Definition after_start (intent start : JournalEvent) (seal result : option JournalEvent)
    (events : list JournalEvent) (call_id : pystr) : R ToolSideEffectRecovery :=
  let recovery state artifact reason :=
    make_ToolSideEffectRecovery state call_id (Some intent) (Some start) seal result artifact
      (u reason) in
  let not_after o o' :=
    match o, o' with Some e, Some e' => (je_store_seq e <=? je_store_seq e')%Z | _, _ => false end in
  if not_after seal (Some start) then
    recovery CORRUPT None "sealed completion does not follow tool start"
  else if not_after result seal then
    recovery CORRUPT None "tool result does not follow sealed completion"
  else match result with
  | None =>
      match seal with
      | Some _ => recovery SEALED_COMPLETION_FINALIZABLE None ""
      | None => recovery UNCERTAIN_AFTER_START None
                  "tool start is durable but no terminal result is durable"
      end
  | Some result =>
      if negb (one_name (stable_tool_name <$> events)) then
        recovery CORRUPT None "tool boundary has a mismatched stable tool identity"
      else if (je_store_seq result <=? je_store_seq start)%Z then
        recovery CORRUPT None "tool result does not follow tool start"
      else match _reusable_result_ref result with
      | None => recovery CORRUPT None "tool result lacks a complete durable artifact descriptor"
      | Some artifact => recovery TERMINAL_RESULT_REUSABLE (Some artifact) ""
      end
  end.

(** The decision of [recover_tool_side_effect] on the receipts of a lookup. *)
Definition classify_receipts (events : list JournalEvent) (call_id : pystr)
    : R ToolSideEffectRecovery :=
  let intents := of_kind KIntent events in
  let started := of_kind KStarted events in
  let sealed := of_kind KSealed events in
  let results := of_kind KResult events in
  if existsb (λ e, negb (bool_decide (is_Some (stable_tool_name e)))) events then
    make_ToolSideEffectRecovery CORRUPT call_id None None None None None
      (u "tool boundary is missing a stable tool identity")
  else if (1 <? length intents) || (1 <? length started) || (1 <? length sealed)
          || (1 <? length results) then
    make_ToolSideEffectRecovery CORRUPT call_id (only intents) (only started) (only sealed)
      (only results) None (u "tool boundary cardinality is invalid")
  else match head intents with
  | None =>
      make_ToolSideEffectRecovery CORRUPT call_id None (head started) (head sealed) (head results)
        None (u "tool boundary is missing its durable call intent")
  | Some intent =>
      match head started with
      | Some start =>
          if (je_store_seq start <=? je_store_seq intent)%Z then
            make_ToolSideEffectRecovery CORRUPT call_id (Some intent) (Some start) (head sealed)
              (head results) None (u "tool start does not follow tool call intent")
          else after_start intent start (head sealed) (head results) events call_id
      | None =>
          match head sealed, head results with
          | None, None =>
              make_ToolSideEffectRecovery NOT_STARTED call_id (Some intent) None None None None []
          | seal, result =>
              make_ToolSideEffectRecovery CORRUPT call_id (Some intent) None seal result None
                (u "tool completion exists without a durable tool start")
          end
      end
  end.
End recovery.

(** ** The sink *)

Record DurableEventSink (S : Type) : Type := mkSink {
  sk_journal : BoundExecutionJournal S;
  sk_attempt : AttemptRef;
  sk_projector : pydict → M S pyexn (option SemanticEventDraft);
}.
Arguments mkSink {S} sk_journal sk_attempt sk_projector.
Arguments sk_journal {S} d.
Arguments sk_attempt {S} d.
Arguments sk_projector {S} d.

(** What [replay] keeps between pages. *)
Record replay_state : Type := mkReplay {
  rp_selected : list JournalEvent;
  rp_seen_event_ids : list pystr;
  rp_seen_operation_ids : list pystr;
  rp_previous_store_seq : Z;
}.

Section sink.
Context `{U : Unicode} `{F : UnicodeFold} `{PR : PyRepr} {St : Type}.

Definition make_DurableEventSink (journal : BoundExecutionJournal St) (attempt : arg AttemptRef)
    (projector : pydict → M St pyexn (option SemanticEventDraft)) : R (DurableEventSink St) :=
  attempt ← match attempt with Inst a => Ok a | Val v => AttemptRef_from_dict v end;
  _ ← ensure (bool_decide (jn_execution_id journal = gr_execution_id (at_generation attempt)))
        DurableJournalScopeError;
  Ok (mkSink journal attempt projector).

Context (sk : DurableEventSink St).

(** What both ways of appending check of the journal's answer. *)
Definition checked_result (request : JournalAppendRequest) (result : option JournalAppendResult)
    : R JournalAppendResult :=
  match result with
  | None => Err DurableJournalIntegrityError
  | Some result =>
      if _same_persisted_event request (rs_event result) then Ok result
      else Err DurableJournalIntegrityError
  end.

(** The guards of both ways of appending, and the request. *)
Definition guarded_request (draft : SemanticEventDraft) : R JournalAppendRequest :=
  if event_type_is_ephemeral (sd_event_type draft) then Err DurableJournalIntegrityError
  else if negb (bool_decide (sd_attempt draft = sk_attempt sk)) then Err DurableJournalScopeError
  else to_append_request draft.

Definition append_projected (draft : SemanticEventDraft) : M St pyexn JournalAppendResult :=
  request ← lift (guarded_request draft);
  result ← jn_append (sk_journal sk) request;
  lift (checked_result request result).

Definition append_prepared (prepared : PreparedSemanticEvent)
    (precondition : option (JournalSnapshot → R unit)) : M St pyexn JournalAppendResult :=
  request ← lift (guarded_request (ps_draft prepared));
  result ← jn_append_with_artifacts (sk_journal sk) request (ps_artifacts prepared) precondition;
  lift (checked_result request result).

Definition sink_call (event : pyval) : M St pyexn (option JournalAppendResult) :=
  match event with
  | VDict d =>
      if _runtime_event_is_ephemeral d then mret None
      else
        draft ← sk_projector sk d;
        match draft with
        | None => mret None
        | Some draft =>
            if event_type_is_ephemeral (sd_event_type draft) then mret None
            else result ← append_projected draft; mret (Some result)
        end
  | _ => raise TypeError
  end.

(** *** Replay *)

Definition valid_page_size (page_size : pyval) : R Z :=
  match page_size with
  | VInt n => if ((1 <=? n) && (n <=? _MAX_REPLAY_PAGE_SIZE))%Z then Ok n else Err ValueError
  | _ => Err ValueError
  end.

(** The body of the loop over the events of a page. *)
Definition replay_event (st : replay_state) (e : JournalEvent) : R replay_state :=
  let generation := at_generation (event_attempt e) in
  let bound := at_generation (sk_attempt sk) in
  _ ← ensure (bool_decide (gr_execution_id generation = gr_execution_id bound))
        DurableJournalScopeError;
  _ ← ensure (bool_decide (gr_generation_id generation = gr_generation_id bound))
        DurableJournalScopeError;
  _ ← ensure (rp_previous_store_seq st <? je_store_seq e)%Z DurableJournalIntegrityError;
  _ ← ensure (negb (bool_decide (event_id e ∈ rp_seen_event_ids st))) DurableJournalIntegrityError;
  let ids := event_id e :: rp_seen_event_ids st in
  if bool_decide (at_attempt_id (event_attempt e) = at_attempt_id (sk_attempt sk)) then
    let operation_id := op_operation_id (event_operation e) in
    _ ← ensure (negb (bool_decide (operation_id ∈ rp_seen_operation_ids st)))
          DurableJournalIntegrityError;
    Ok (mkReplay (rp_selected st ++ [e]) ids (operation_id :: rp_seen_operation_ids st)
          (je_store_seq e))
  else
    Ok (mkReplay (rp_selected st) ids (rp_seen_operation_ids st) (je_store_seq e)).

Fixpoint replay_events (st : replay_state) (events : list JournalEvent) : R replay_state :=
  match events with
  | [] => Ok st
  | e :: events => st ← replay_event st e; replay_events st events
  end.

(** [page.next_cursor is None or (after is not None and it did not advance)] *)
Definition not_advanced (after next_cursor : option EventCursor) : bool :=
  match next_cursor with
  | None => true
  | Some c =>
      match after with Some a => (ec_store_seq c <=? ec_store_seq a)%Z | None => false end
  end.

(** The loop over pages; [fuel] is [range(_MAX_REPLAY_PAGES)]. *)
Fixpoint replay_pages (fuel : nat) (page_size : Z) (after : option EventCursor) (st : replay_state)
    : M St pyexn (list JournalEvent) :=
  match fuel with
  | 0 => raise DurableJournalIntegrityError
  | S fuel =>
      page ← jn_read (sk_journal sk) after page_size;
      match page with
      | None => raise DurableJournalIntegrityError
      | Some page =>
          _ ← lift (ensure (Z.of_nat (length (pg_events page)) <=? page_size)%Z
                      DurableJournalIntegrityError);
          st ← lift (replay_events st (pg_events page));
          if negb (pg_has_more page) then mret (rp_selected st)
          else if not_advanced after (pg_next_cursor page) then raise DurableJournalIntegrityError
          else replay_pages fuel page_size (pg_next_cursor page) st
      end
  end.

Definition replay (page_size : pyval) : M St pyexn (list JournalEvent) :=
  n ← lift (valid_page_size page_size);
  replay_pages _MAX_REPLAY_PAGES n None (mkReplay [] [] [] 0).

(** *** Recovery *)

Definition recover_tool_side_effect (call_id page_size : pyval) : M St pyexn ToolSideEffectRecovery :=
  call_id ← lift (_required_text call_id 256 true);
  _ ← lift (valid_page_size page_size);
  match jn_lookup (sk_journal sk) with
  | None => raise DurableJournalIntegrityError
  | Some lookup =>
      found ← lookup (sk_attempt sk) call_id;
      match found with
      | None => raise DurableJournalIntegrityError
      | Some found =>
          if negb (bool_decide (lk_attempt found = sk_attempt sk) && bool_decide (lk_call_id found = call_id))
          then raise DurableJournalIntegrityError
          else if lk_overflow found then
            lift (make_ToolSideEffectRecovery CORRUPT call_id None None None None None
                    (u "tool boundary cardinality exceeds the indexed limit"))
          else lift (classify_receipts (lk_events found) call_id)
      end
  end.
End sink.
