(* ===== verification/JournalReplay.v ===== *)
(** * Replay of an attempt (src/unchain/journal/runtime.py, [DurableEventSink.replay])

    What any journal can make [replay] return, and that on an honest journal
    ([reads_log], the documented behaviour of [read] in ports.py) it returns
    exactly the events of the attempt. *)

From S2P Require Import Prelude PyVal Json Models Diagnostics JournalPayload ResourceLimits JournalRecords JournalSnapshot JournalRuntime.

Definition seq_lt (e e' : JournalEvent) : Prop := (je_store_seq e < je_store_seq e')%Z.

#[export] Instance seq_lt_trans : Transitive seq_lt.
Proof. intros x y z. unfold seq_lt. lia. Qed.

Definition operation_id (e : JournalEvent) : pystr := op_operation_id (event_operation e).

Lemma sorted_sublist {A} (R : relation A) (l l' : list A) :
  l `sublist_of` l' → StronglySorted R l' → StronglySorted R l.
Proof.
  induction 1 as [|x l l' Hl IH|x l l' Hl IH]; [done|..]; intros [Hx Hs]%StronglySorted_cons.
  - constructor; [auto|]. rewrite Forall_forall in Hx |- *. intros y Hy. apply Hx.
    by eapply sublist_subseteq.
  - auto.
Qed.

Lemma filter_true {A} (P : A → Prop) `{∀ x, Decision (P x)} (l : list A) :
  Forall P l → filter P l = l.
Proof. induction 1 as [|x l Hx _ IH]; [done|]. by rewrite filter_cons, decide_True, IH. Qed.

Section replay.
Context `{U : Unicode} `{F : UnicodeFold} {St : Type} (sk : DurableEventSink St).

Definition in_generation (e : JournalEvent) : Prop :=
  at_generation (event_attempt e) = at_generation (sk_attempt sk).

#[export] Instance in_generation_dec e : Decision (in_generation e).
Proof. unfold in_generation. apply _. Defined.

Definition of_attempt (e : JournalEvent) : Prop := event_attempt e = sk_attempt sk.
#[export] Instance of_attempt_dec e : Decision (of_attempt e).
Proof. unfold of_attempt. apply _. Defined.

(** The state of the loop after the events [pre]. *)
Definition last_seq (pre : list JournalEvent) : Z :=
  match last pre with Some e => je_store_seq e | None => 0 end.

Definition state_of (pre : list JournalEvent) : replay_state :=
  mkReplay (filter of_attempt pre) (reverse (event_id <$> pre))
    (reverse (operation_id <$> filter of_attempt pre)) (last_seq pre).

(** What the checks of the loop establish of all the events it has seen. *)
Record replayed (pre : list JournalEvent) : Prop := {
  rd_generation : Forall in_generation pre;
  rd_sorted : StronglySorted seq_lt pre;
  rd_positive : Forall (λ e, (0 < je_store_seq e)%Z) pre;
  rd_ids : NoDup (event_id <$> pre);
  rd_operations : NoDup (operation_id <$> filter of_attempt pre);
}.

Lemma last_seq_snoc pre e : last_seq (pre ++ [e]) = je_store_seq e.
Proof. unfold last_seq. by rewrite last_snoc. Qed.

Lemma sorted_snoc pre e :
  Forall (λ e, (0 < je_store_seq e)%Z) pre →
  StronglySorted seq_lt (pre ++ [e]) ∧ (0 < je_store_seq e)%Z ↔
  StronglySorted seq_lt pre ∧ (last_seq pre < je_store_seq e)%Z.
Proof.
  intros Hp. rewrite StronglySorted_app. destruct pre as [|x pre' _] using rev_ind.
  - unfold last_seq. simpl. split; [naive_solver|]. intros [H1 H2]. split_and!; [set_solver|constructor| |done].
    repeat constructor.
  - rewrite last_seq_snoc. split.
    + intros ((Hx & Hs & _) & _). split; [done|]. by apply (Hx x e); set_solver.
    + intros [Hs Hx]. apply Forall_app in Hp as [_ [Hp _]%Forall_cons].
      split_and!; [|done|repeat constructor|lia]. apply StronglySorted_app in Hs as (Hs & _).
      intros y e' Hy ->%list_elem_of_singleton. apply elem_of_app in Hy as [Hy| ->%list_elem_of_singleton]; [|done].
      transitivity x; [|done]. apply Hs; [done|by left].
Qed.

Lemma attempt_split e :
  of_attempt e ↔ in_generation e ∧ at_attempt_id (event_attempt e) = at_attempt_id (sk_attempt sk).
Proof.
  unfold of_attempt, in_generation. destruct (event_attempt e), (sk_attempt sk). simpl. naive_solver.
Qed.

Lemma generation_split e :
  in_generation e ↔
  gr_execution_id (at_generation (event_attempt e)) = gr_execution_id (at_generation (sk_attempt sk)) ∧
  gr_generation_id (at_generation (event_attempt e)) = gr_generation_id (at_generation (sk_attempt sk)).
Proof.
  unfold in_generation. destruct (at_generation (event_attempt e)), (at_generation (sk_attempt sk)).
  simpl. naive_solver.
Qed.

(** What the checks ask of the next event. *)
Record admissible (pre : list JournalEvent) (e : JournalEvent) : Prop := {
  am_generation : in_generation e;
  am_seq : (last_seq pre < je_store_seq e)%Z;
  am_id : event_id e ∉ event_id <$> pre;
  am_operation : of_attempt e → operation_id e ∉ operation_id <$> filter of_attempt pre;
}.

Lemma NoDup_snoc {A} (l : list A) x : NoDup (l ++ [x]) ↔ NoDup l ∧ x ∉ l.
Proof. rewrite NoDup_app. pose proof (NoDup_singleton x). set_solver. Qed.

Lemma replayed_snoc pre e : replayed (pre ++ [e]) ↔ replayed pre ∧ admissible pre e.
Proof.
  assert (NoDup (operation_id <$> filter of_attempt (pre ++ [e])) ↔
    NoDup (operation_id <$> filter of_attempt pre) ∧
    (of_attempt e → operation_id e ∉ operation_id <$> filter of_attempt pre)) as Hops.
  { rewrite filter_app, fmap_app, filter_cons, filter_nil. case_decide as Ha; simpl.
    - rewrite NoDup_snoc. tauto.
    - rewrite app_nil_r. tauto. }
  split.
  - intros [Hg Hs Hp Hi Ho]. apply Forall_app in Hg as [Hg [Hge _]%Forall_cons], Hp as [Hp [Hpe _]%Forall_cons].
    rewrite fmap_app in Hi. apply NoDup_snoc in Hi as [Hi Hie]. apply Hops in Ho as [Ho Hoe].
    destruct (proj1 (sorted_snoc _ e Hp) (conj Hs Hpe)). split; by constructor.
  - intros [[Hg Hs Hp Hi Ho] [Hge Hse Hie Hoe]]. destruct (proj2 (sorted_snoc _ e Hp) (conj Hs Hse)).
    constructor; [by apply Forall_app_2; [|constructor]|done|by apply Forall_app_2; [|constructor]| |by apply Hops].
    rewrite fmap_app. by apply NoDup_snoc.
Qed.

Lemma state_of_snoc pre e :
  state_of (pre ++ [e]) =
  mkReplay (if decide (of_attempt e) then filter of_attempt pre ++ [e] else filter of_attempt pre)
    (event_id e :: reverse (event_id <$> pre))
    (if decide (of_attempt e) then operation_id e :: reverse (operation_id <$> filter of_attempt pre)
     else reverse (operation_id <$> filter of_attempt pre)) (je_store_seq e).
Proof.
  unfold state_of. rewrite last_seq_snoc, fmap_app, filter_app, filter_cons, filter_nil.
  change (event_id <$> [e]) with [event_id e]. rewrite reverse_snoc. case_decide.
  - rewrite fmap_app. change (operation_id <$> [e]) with [operation_id e]. by rewrite reverse_snoc.
  - by rewrite app_nil_r.
Qed.

(** One event: accepted exactly when it is admissible. *)
Lemma replay_event_spec pre e st :
  replay_event sk (state_of pre) e = Ok st ↔ admissible pre e ∧ st = state_of (pre ++ [e]).
Proof.
  unfold replay_event. rewrite state_of_snoc. cbn [rp_selected rp_seen_event_ids
    rp_seen_operation_ids rp_previous_store_seq state_of]. cbv zeta.
  assert (bool_decide (event_id e ∈ reverse (event_id <$> pre)) = bool_decide (event_id e ∈ event_id <$> pre))
    as -> by (apply bool_decide_ext; by rewrite elem_of_reverse).
  assert (in_generation e → of_attempt e ↔ at_attempt_id (event_attempt e) = at_attempt_id (sk_attempt sk))
    as Hatt by (intros; rewrite attempt_split; tauto).
  pose proof (generation_split e) as Hgen.
  assert (∀ x, x ∈ reverse (operation_id <$> filter of_attempt pre) ↔ x ∈ operation_id <$> filter of_attempt pre)
    as Hrev by (intros; by rewrite elem_of_reverse).
  fold (operation_id e). split.
  - intros ([] & H1%ensure_ok%bool_decide_eq_true & ([] & H2%ensure_ok%bool_decide_eq_true &
      ([] & H3%ensure_ok%Z.ltb_lt & ([] & H4%ensure_ok%negb_true_iff%bool_decide_eq_false & H)
      %result_bind_ok)%result_bind_ok)%result_bind_ok)%result_bind_ok.
    assert (in_generation e) as Hg by tauto. specialize (Hatt Hg). destruct (decide (of_attempt e)) as [Ha|Ha].
    + rewrite bool_decide_eq_true_2 in H by tauto. apply result_bind_ok in H as ([] & H5 & [= <-]).
      apply ensure_ok in H5. apply negb_true_iff, bool_decide_eq_false in H5. rewrite Hrev in H5.
      split; [by constructor|done].
    + rewrite bool_decide_eq_false_2 in H by tauto. injection H as <-. split; [by constructor|done].
  - intros [[Hg Hs Hi Ho] ->]. specialize (Hatt Hg). apply Hgen in Hg as [H1 H2].
    rewrite (bool_decide_eq_true_2 _ H1), (bool_decide_eq_true_2 _ H2), (bool_decide_eq_false_2 _ Hi).
    apply Z.ltb_lt in Hs. rewrite Hs. cbn [mbind result_bind ensure negb]. destruct (decide (of_attempt e)) as [Ha|Ha].
    + rewrite bool_decide_eq_true_2 by tauto. rewrite bool_decide_eq_false_2; [done|]. rewrite Hrev. auto.
    + by rewrite bool_decide_eq_false_2 by tauto.
Qed.

Lemma replayed_app pre rest : replayed (pre ++ rest) → replayed pre.
Proof.
  intros [Hg Hs Hp Hi Ho]. rewrite fmap_app in Hi. rewrite filter_app, fmap_app in Ho.
  constructor; [by eapply Forall_app in Hg as [? _]|by eapply StronglySorted_app in Hs as (_ & ? & _)
    |by eapply Forall_app in Hp as [? _]|by apply NoDup_app in Hi as [? _]|by apply NoDup_app in Ho as [? _]].
Qed.

Lemma replay_events_spec pre events st :
  replayed pre →
  replay_events sk (state_of pre) events = Ok st ↔ replayed (pre ++ events) ∧ st = state_of (pre ++ events).
Proof.
  revert pre. induction events as [|e events IH]; intros pre Hpre; simpl.
  - rewrite app_nil_r. naive_solver.
  - rewrite result_bind_ok. setoid_rewrite replay_event_spec.
    replace (pre ++ e :: events) with ((pre ++ [e]) ++ events) by by rewrite <-app_assoc.
    split.
    + intros (st' & [Ha ->] & H). apply IH in H; [done|]. by apply replayed_snoc.
    + intros H. exists (state_of (pre ++ [e])).
      assert (replayed (pre ++ [e])) as Hp by (eapply replayed_app, H).
      split; [by apply replayed_snoc in Hp as [_ ?]|]. by apply IH.
Qed.

(** *** Any journal *)

Lemma replay_pages_sound fuel n after pre s es s' :
  replayed pre → replay_pages sk fuel n after (state_of pre) s = (Ok es, s') →
  ∃ seen, replayed seen ∧ es = filter of_attempt seen.
Proof.
  revert after pre s. induction fuel as [|fuel IH]; intros after pre s Hpre; simpl; [done|].
  intros (page & s1 & _ & H)%M_bind_ok. destruct page as [page|]; [|done].
  apply M_bind_ok in H as ([] & s2 & _ & (st & s3 & Hst & H)%M_bind_ok).
  unfold lift in Hst. injection Hst as Hst <-. apply replay_events_spec in Hst as [Hr ->]; [|done].
  destruct (pg_has_more page); simpl in H.
  - destruct (not_advanced _ _); [done|]. by eapply IH.
  - injection H as <- _. eauto.
Qed.

Lemma replayed_nil : replayed [].
Proof. split; constructor. Qed.

(** Whatever the journal answers, a replay that returns gives events of the
    bound attempt only, in strictly increasing order of their sequence numbers,
    with all event ids and all operation ids distinct. *)
Theorem replay_is_in_order page_size s es s' :
  replay sk page_size s = (Ok es, s') →
  Forall of_attempt es ∧ StronglySorted seq_lt es ∧ NoDup (event_id <$> es) ∧
  NoDup (operation_id <$> es).
Proof.
  intros (n & s1 & _ & H)%M_bind_ok.
  destruct (replay_pages_sound _ _ _ [] _ _ _ replayed_nil H) as (seen & [Hg Hs Hp Hi Ho] & ->).
  split_and!; [| | |done].
  - apply Forall_forall. intros e He. by apply list_elem_of_filter in He as [? _].
  - eapply sorted_sublist; [apply sublist_filter|done].
  - eapply sublist_NoDup; [exact Hi|]. apply fmap_sublist, sublist_filter.
Qed.

(** *** Pages of a log *)

Lemma sorted_increasing events : StronglySorted seq_lt events → increasing events = true.
Proof.
  induction 1 as [|e events Hs IH He]; [done|]. simpl. destruct events as [|e' events]; [done|].
  apply andb_true_iff. split; [|done]. apply Forall_cons in He as [He _]. by apply Z.ltb_lt.
Qed.

(** A part of an ordered log of one execution makes a page. *)
Lemma page_consistent_of x log events c more :
  events `sublist_of` log → StronglySorted seq_lt log → NoDup (event_id <$> log) →
  (∀ e, e ∈ log → execution_of e = x) →
  match last events with Some e => c = Some (cursor_of e) | None => more = false end →
  page_consistent events c more = true.
Proof.
  intros Hsub Hs Hi Hx Hc. unfold page_consistent. rewrite !andb_true_iff, bool_decide_eq_true. split_and!.
  - eapply sorted_increasing, sorted_sublist; [exact Hsub|done].
  - eapply sublist_NoDup; [exact Hi|]. by apply fmap_sublist.
  - assert (∀ e, e ∈ events → execution_of e = x) as Hev
      by (intros e He; apply Hx; by eapply sublist_subseteq).
    destruct events as [|e es]; [done|]. simpl. apply forallb_forall. intros e' He'%list_elem_of_In.
    apply bool_decide_eq_true. rewrite (Hev e), (Hev e') by set_solver. done.
  - destruct (last events); [by apply bool_decide_eq_true|]. by rewrite Hc.
Qed.

(** *** An honest journal *)

(** The events after a cursor. *)
Definition after_cursor (after : option EventCursor) (log : list JournalEvent) : list JournalEvent :=
  filter (λ e, (match after with Some c => ec_store_seq c | None => 0 end < je_store_seq e)%Z) log.

(** In state [s], [read] after the cursor of an event returns the next page of
    [log]: the first [n] events after it, whether there are more, and the cursor
    of the last one. *)
Definition reads_log (log : list JournalEvent) (s : St) : Prop :=
  ∀ after n, (1 ≤ n ≤ _MAX_REPLAY_PAGE_SIZE)%Z →
  after = None ∨ (∃ e, e ∈ log ∧ after = Some (cursor_of e)) →
  ∃ page, jn_read (sk_journal sk) after n s = (Ok (Some page), s) ∧
          pg_events page = take (Z.to_nat n) (after_cursor after log) ∧
          pg_has_more page = bool_decide (Z.to_nat n < length (after_cursor after log)) ∧
          page_consistent (pg_events page) (pg_next_cursor page) (pg_has_more page) = true.

Lemma after_last pre rest :
  StronglySorted seq_lt (pre ++ rest) → Forall (λ e, (0 < je_store_seq e)%Z) (pre ++ rest) →
  after_cursor (cursor_of <$> last pre) (pre ++ rest) = rest.
Proof.
  intros Hs Hp. unfold after_cursor.
  assert (Hall : ∀ c, Forall (λ e, ¬ (c < je_store_seq e)%Z) pre → Forall (λ e, (c < je_store_seq e)%Z) rest →
    filter (λ e, (c < je_store_seq e)%Z) (pre ++ rest) = rest).
  { clear Hs Hp. intros c Hpre Hrest. rewrite filter_app.
    rewrite (proj2 (filter_nil_iff _ pre)) by by apply Forall_forall. by apply filter_true. }
  destruct pre as [|x pre' _] using rev_ind; [by apply (Hall 0%Z); [constructor|]|].
  rewrite last_snoc. simpl. apply StronglySorted_app in Hs as (Hlt & Hpre & _). apply Hall.
  - apply Forall_app. split; [|by constructor; [lia|]]. apply StronglySorted_app in Hpre as (Hpx & _).
    apply Forall_forall. intros y Hy. specialize (Hpx y x Hy ltac:(by left)). unfold seq_lt in Hpx. lia.
  - apply Forall_forall. intros y Hy. apply Hlt; [set_solver|done].
Qed.

Lemma page_cursor events c more :
  page_consistent events c more = true → events ≠ [] → c = cursor_of <$> last events.
Proof.
  unfold page_consistent. rewrite !andb_true_iff. intros [_ H] Hne.
  destruct events as [|e events _] using rev_ind; [done|]. rewrite last_snoc in *.
  by apply bool_decide_eq_true in H.
Qed.

Lemma last_take_app pre rest n :
  (0 < n)%nat → rest ≠ [] →
  cursor_of <$> last (take n rest) = cursor_of <$> last (pre ++ take n rest).
Proof.
  intros Hn Hr. rewrite last_app. destruct (last (take n rest)) eqn:E; [done|].
  apply last_None in E. destruct n; [lia|]. by destruct rest.
Qed.

(** The cursor always moves on. *)
Lemma advanced pre rest n :
  StronglySorted seq_lt (pre ++ rest) → (0 < n)%nat → rest ≠ [] →
  not_advanced (cursor_of <$> last pre) (cursor_of <$> last (take n rest)) = false.
Proof.
  intros Hs Hn Hr. unfold not_advanced. destruct (last (take n rest)) as [e|] eqn:E; simpl.
  - destruct (last pre) as [x|] eqn:Ex; [|done]. simpl. apply Z.leb_gt.
    apply StronglySorted_app in Hs as (Hlt & _). apply last_Some_elem_of in E, Ex.
    apply (Hlt x e); [done|]. by eapply subseteq_take.
  - apply last_None in E. destruct n; [lia|]. by destruct rest.
Qed.

(** A log in order, of whatever generations. *)
Record orderly (log : list JournalEvent) : Prop := {
  od_sorted : StronglySorted seq_lt log;
  od_positive : Forall (λ e, (0 < je_store_seq e)%Z) log;
  od_ids : NoDup (event_id <$> log);
  od_operations : NoDup (operation_id <$> filter of_attempt log);
}.

Lemma replayed_orderly log : replayed log ↔ Forall in_generation log ∧ orderly log.
Proof. split; [intros [? ? ? ? ?]; split; [done|by constructor]|intros [? [? ? ? ?]]; by constructor]. Qed.

Lemma orderly_app pre rest : orderly (pre ++ rest) → orderly pre.
Proof.
  intros [Hs Hp Hi Ho]. rewrite fmap_app in Hi. rewrite filter_app, fmap_app in Ho.
  constructor; [by eapply StronglySorted_app in Hs as (_ & ? & _)|by eapply Forall_app in Hp as [? _]
    |by apply NoDup_app in Hi as [? _]|by apply NoDup_app in Ho as [? _]].
Qed.

Lemma replay_event_foreign st e : ¬ in_generation e → replay_event sk st e = Err DurableJournalScopeError.
Proof.
  rewrite generation_split. intros Hg. unfold replay_event. cbv zeta.
  destruct (decide (gr_execution_id (at_generation (event_attempt e)) = gr_execution_id (at_generation (sk_attempt sk)))) as [H1|H1].
  - rewrite (bool_decide_eq_true_2 _ H1).
    rewrite (bool_decide_eq_false_2 (gr_generation_id _ = gr_generation_id _)) by tauto. done.
  - by rewrite (bool_decide_eq_false_2 _ H1).
Qed.

(** The first event of another generation ends the replay of an orderly log. *)
Lemma replay_events_foreign pre events :
  Forall in_generation pre → orderly (pre ++ events) → ¬ Forall in_generation events →
  replay_events sk (state_of pre) events = Err DurableJournalScopeError.
Proof.
  revert pre. induction events as [|e events IH]; intros pre Hpre Ho Hn; [by destruct Hn|]. cbn [replay_events].
  destruct (decide (in_generation e)) as [He|He]; [|by rewrite replay_event_foreign].
  replace (pre ++ e :: events) with ((pre ++ [e]) ++ events) in Ho by by rewrite <-app_assoc.
  assert (Forall in_generation (pre ++ [e])) as Hpe by (apply Forall_app; auto).
  assert (replayed (pre ++ [e])) as [_ Ha]%replayed_snoc by (apply replayed_orderly; split; [done|by eapply orderly_app]).
  assert (replay_event sk (state_of pre) e = Ok (state_of (pre ++ [e]))) as -> by (by apply replay_event_spec).
  apply IH; [done|done|]. intros Hf. apply Hn. by constructor.
Qed.

(** What a replay of [log] that may look at [limit] events comes to. *)
Definition replay_outcome (limit : nat) (rest log : list JournalEvent) (last_page : bool) : R (list JournalEvent) :=
  if bool_decide (Forall in_generation (take limit rest)) then
    if last_page && bool_decide (length rest ≤ limit) then Ok (filter of_attempt log)
    else Err DurableJournalIntegrityError
  else Err DurableJournalScopeError.

Lemma replay_pages_honest log fuel n pre rest s :
  reads_log log s → (1 ≤ n ≤ _MAX_REPLAY_PAGE_SIZE)%Z → log = pre ++ rest → orderly log → Forall in_generation pre →
  replay_pages sk fuel n (cursor_of <$> last pre) (state_of pre) s =
  (replay_outcome (fuel * Z.to_nat n) rest log (bool_decide (fuel ≠ 0)), s).
Proof.
  intros Hread Hn. unfold replay_outcome. revert pre rest. induction fuel as [|fuel IH]; intros pre rest -> Hlog Hpre.
  { by rewrite take_0, bool_decide_eq_true_2. }
  cbn [replay_pages].
  assert (Hafter : cursor_of <$> last pre = None ∨
    ∃ e, e ∈ pre ++ rest ∧ cursor_of <$> last pre = Some (cursor_of e)).
  { destruct (last pre) as [e|] eqn:El; [right|by left]. exists e. split; [|done].
    apply elem_of_app. left. by apply last_Some_elem_of. }
  destruct (Hread (cursor_of <$> last pre) n Hn Hafter) as (page & Hr & Hev & Hm & Hc).
  assert (StronglySorted seq_lt (pre ++ rest)) as Hs by apply Hlog.
  assert (Forall (λ e, (0 < je_store_seq e)%Z) (pre ++ rest)) as Hp by apply Hlog. rewrite after_last in Hev, Hm by done.
  unfold mbind at 1, M_bind at 1. rewrite Hr, Hev. unfold mbind, M_bind, lift, ensure.
  assert (Hlen : length (take (Z.to_nat n) rest) ≤ Z.to_nat n) by (rewrite length_take; lia).
  rewrite (proj2 (Z.leb_le _ _)) by lia.
  assert (Hnext : orderly (pre ++ take (Z.to_nat n) rest)).
  { apply (orderly_app _ (drop (Z.to_nat n) rest)). by rewrite <-app_assoc, take_drop. }
  assert (Htake : take (S fuel * Z.to_nat n) rest =
    take (Z.to_nat n) rest ++ take (fuel * Z.to_nat n) (drop (Z.to_nat n) rest)).
  { cbn [Nat.mul]. by rewrite take_take_drop. }
  destruct (decide (Forall in_generation (take (Z.to_nat n) rest))) as [Hg|Hg].
  2: { rewrite replay_events_foreign by done. rewrite bool_decide_eq_false_2; [done|]. rewrite Htake, Forall_app. tauto. }
  assert (Forall in_generation (pre ++ take (Z.to_nat n) rest)) as Hpg by (by apply Forall_app).
  assert (replay_events sk (state_of pre) (take (Z.to_nat n) rest) =
          Ok (state_of (pre ++ take (Z.to_nat n) rest))) as ->.
  { apply replay_events_spec; [apply replayed_orderly; split; [done|by eapply orderly_app]|].
    split; [by apply replayed_orderly|done]. }
  rewrite Hm. destruct (decide (Z.to_nat n < length rest)) as [Hmore|Hmore].
  - rewrite bool_decide_eq_true_2 by done. cbn [negb].
    assert (rest ≠ []) as Hne by (intros ->; simpl in Hmore; lia).
    rewrite Hev, Hm in Hc. rewrite (page_cursor _ _ _ Hc) by (destruct (Z.to_nat n) eqn:E; [lia|by destruct rest]).
    rewrite advanced by (done || lia). rewrite (last_take_app pre) by (done || lia).
    rewrite (IH _ (drop (Z.to_nat n) rest)); [|by rewrite <-app_assoc, take_drop|done|done].
    rewrite Htake, (bool_decide_ext (Forall in_generation (_ ++ _)) (Forall in_generation (take (fuel * Z.to_nat n) (drop (Z.to_nat n) rest))))
      by (rewrite Forall_app; tauto).
    case_bool_decide; [|done]. rewrite length_drop, (bool_decide_eq_true_2 (S fuel ≠ 0)) by done. cbn [andb].
    f_equal. destruct (decide (fuel = 0)) as [->|Hf].
    + rewrite (bool_decide_eq_false_2 (length _ ≤ _)) by (cbn [Nat.mul]; lia). done.
    + rewrite (bool_decide_eq_true_2 (fuel ≠ 0)) by done. cbn [andb].
      rewrite (bool_decide_ext (length rest - Z.to_nat n ≤ fuel * Z.to_nat n) (length rest ≤ S fuel * Z.to_nat n)) by (cbn [Nat.mul]; lia). done.
  - rewrite bool_decide_eq_false_2 by done. cbn [negb mret M_ret].
    assert (Htl : take (Z.to_nat n) rest = rest) by (apply take_ge; lia). rewrite Htl in *.
    rewrite take_ge by nia. rewrite (bool_decide_eq_true_2 (Forall _ _)) by done.
    rewrite !bool_decide_eq_true_2 by (done || nia). done.
Qed.

(** A replay of an orderly log is determined: the first event of another generation
    within the pages it may read ends it, and so does a log that does not fit them;
    otherwise it returns the events of the attempt. *)
Lemma replay_on_log log page_size s :
  reads_log log s → orderly log → (1 ≤ page_size ≤ 1000)%Z →
  replay sk (VInt page_size) s =
  (if bool_decide (Forall in_generation (take (_MAX_REPLAY_PAGES * Z.to_nat page_size) log)) then
     if bool_decide (length log ≤ _MAX_REPLAY_PAGES * Z.to_nat page_size)
     then Ok (filter of_attempt log) else Err DurableJournalIntegrityError
   else Err DurableJournalScopeError, s).
Proof.
  intros Hread Hlog Hn. unfold replay, valid_page_size, _MAX_REPLAY_PAGE_SIZE.
  rewrite (proj2 (andb_true_iff _ _)) by (rewrite !Z.leb_le; lia).
  unfold mbind, M_bind, lift.
  rewrite (replay_pages_honest log _ _ [] log s Hread) by (done || (unfold _MAX_REPLAY_PAGE_SIZE; lia) || constructor).
  assert (_MAX_REPLAY_PAGES ≠ 0) as Hmax by (with_strategy transparent [_MAX_REPLAY_PAGES] (unfold _MAX_REPLAY_PAGES); lia).
  unfold replay_outcome. by rewrite (bool_decide_eq_true_2 _ Hmax).
Qed.

(** On an honest journal a replay is complete: for any page size between 1
    and 1000, if [read] serves the log page by page and the log is in order
    (increasing sequence numbers, distinct event ids, one generation, distinct
    operations within the attempt), the replay returns exactly the events of the
    attempt, in order, as long as 100000 pages suffice, and fails when they do
    not. *)
Theorem replay_is_complete log page_size s :
  reads_log log s → replayed log → (1 ≤ page_size ≤ 1000)%Z →
  replay sk (VInt page_size) s =
  (if bool_decide (length log ≤ _MAX_REPLAY_PAGES * Z.to_nat page_size)
   then Ok (filter of_attempt log) else Err DurableJournalIntegrityError, s).
Proof.
  intros Hread [Hg Ho]%replayed_orderly Hn. rewrite (replay_on_log log) by done.
  rewrite (bool_decide_eq_true_2 (Forall _ _)); [done|]. by apply Forall_take.
Qed.
End replay.
