(* ===== verification/JournalRecovery.v ===== *)
(** * Appending and recovery (src/unchain/journal/runtime.py)

    What reaches the journal through the sink, what the projection for the
    compiler keeps, and when a tool call may run again after a crash. *)

From S2P Require Import Prelude PyVal Json Models Diagnostics JournalPayload ResourceLimits JournalRecords JournalSnapshot JournalRuntime JournalReplay.

Section append.
Context `{U : Unicode} `{!UnicodeLaws U} `{F : UnicodeFold} {St : Type} (sk : DurableEventSink St).

(** The request of a draft carries the fields of the draft. *)
Record request_of (d : SemanticEventDraft) (r : JournalAppendRequest) : Prop := {
  ro_event_id : ar_event_id r = sd_event_id d;
  ro_event_type : ar_event_type r = sd_event_type d;
  ro_attempt : ar_attempt r = sd_attempt d;
  ro_operation : draft_operation d = Ok (ar_operation r);
  ro_payload : ar_payload r = sd_payload d;
  ro_refs : ar_resource_refs r = sd_resource_refs d;
}.

(** What the constructor of a draft establishes. *)
Record draft_wf (d : SemanticEventDraft) : Prop := {
  dw_event_id : _required_text (VStr (sd_event_id d)) 256 true = Ok (sd_event_id d);
  dw_event_type : _required_text (VStr (sd_event_type d)) 256 true = Ok (sd_event_type d);
  dw_payload : freeze_payload (_thaw_json (FMap (sd_payload d))) = Ok (sd_payload d);
}.

Lemma make_draft_wf i t a o p rs d :
  unique_keys p → make_SemanticEventDraft i t a o p rs = Ok d → draft_wf d.
Proof.
  intros Hp. unfold make_SemanticEventDraft.
  intros (i' & Hi & (t' & Ht & (a' & _ & (o' & _ & (p' & Hp' & (rs' & _ & [= <-])
    %result_bind_ok)%result_bind_ok)%result_bind_ok)%result_bind_ok)%result_bind_ok)%result_bind_ok.
  split; simpl; eauto using required_text_stable, freeze_payload_stable.
Qed.

Lemma to_append_request_spec d r :
  draft_wf d → to_append_request d = Ok r → request_of d r.
Proof.
  intros [Hi Ht Hp]. unfold to_append_request, make_JournalAppendRequest.
  intros (o & Ho & H)%result_bind_ok. rewrite Hi in H. cbn [mbind result_bind] in H.
  rewrite Ht in H. cbn [mbind result_bind] in H. rewrite Hp in H. cbn [mbind result_bind] in H.
  rewrite record_tuple_instances in H. by injection H as <-.
Qed.

Lemma guarded_request_inv d r :
  guarded_request sk d = Ok r →
  event_type_is_ephemeral (sd_event_type d) = false ∧ sd_attempt d = sk_attempt sk ∧
  to_append_request d = Ok r.
Proof.
  unfold guarded_request. destruct (event_type_is_ephemeral _); [done|]. case_bool_decide; [|done]. auto.
Qed.

(** The event of an append result is the one that was asked for. *)
Record persisted_as (r : JournalAppendRequest) (e : JournalEvent) : Prop := {
  pe_event_id : event_id e = ar_event_id r;
  pe_event_type : event_type e = ar_event_type r;
  pe_attempt : event_attempt e = ar_attempt r;
  pe_operation : event_operation e = ar_operation r;
  pe_payload : py_eq (_thaw_json (FMap (event_payload e))) (_thaw_json (FMap (ar_payload r))) = true;
  pe_refs : event_refs e = ar_resource_refs r;
}.

Lemma same_persisted_event_spec r e : _same_persisted_event r e = true ↔ persisted_as r e.
Proof.
  unfold _same_persisted_event. rewrite !andb_true_iff, !bool_decide_eq_true.
  split; [intros [[[[[??]?]?]?]?]; by constructor|]. intros []. tauto.
Qed.

Lemma checked_result_ok r o x : checked_result r o = Ok x → o = Some x ∧ persisted_as r (rs_event x).
Proof.
  unfold checked_result. destruct o as [x'|]; [|done]. destruct (_same_persisted_event _ _) eqn:E; [|done].
  intros [= <-]. split; [done|]. by apply same_persisted_event_spec.
Qed.

(** Runtime events that never reach the journal. *)
Lemma append_projected_spec d s :
  append_projected sk d s =
  match guarded_request sk d with
  | Err e => (Err e, s)
  | Ok r =>
      let '(o, s') := jn_append (sk_journal sk) r s in
      (match o with Ok o => checked_result r o | Err e => Err e end, s')
  end.
Proof.
  unfold append_projected. unfold mbind, M_bind, lift. destruct (guarded_request sk d) as [r|e]; [|done].
  by destruct (jn_append (sk_journal sk) r s) as [[o|e] s'].
Qed.

(** What the sink writes: a call either leaves the journal as the projector
    left it (the event is transient, or has no projection, or the draft is
    refused), or it appends one request, which is the projected draft field for
    field, is not of a transient type and belongs to the bound attempt; and a
    result is returned only when the journal persisted exactly that event. *)
Theorem sink_writes_the_projected_event event s out s' :
  (∀ d s1 draft s2, sk_projector sk d s1 = (Ok (Some draft), s2) → draft_wf draft) →
  sink_call sk event s = (out, s') →
  (∃ d o, event = VDict d ∧ sk_projector sk d s = (o, s') ∧ (∀ x, out ≠ Ok (Some x))) ∨
  (s' = s ∧ ∀ x, out ≠ Ok (Some x)) ∨
  (∃ d draft s1 r o, event = VDict d ∧ sk_projector sk d s = (Ok (Some draft), s1) ∧
     request_of draft r ∧ ar_attempt r = sk_attempt sk ∧
     event_type_is_ephemeral (ar_event_type r) = false ∧
     jn_append (sk_journal sk) r s1 = (o, s') ∧
     ∀ x, out = Ok (Some x) → o = Ok (Some x) ∧ persisted_as r (rs_event x)).
Proof.
  intros Hwf. unfold sink_call. destruct event as [| | | | | |d|]; try (intros [= <- <-]; by right; left).
  destruct (_runtime_event_is_ephemeral d); [intros [= <- <-]; by right; left|].
  unfold mbind at 1, M_bind at 1. destruct (sk_projector sk d s) as [[[draft|]|e] s1] eqn:Ep.
  2,3: intros [= <- <-]; left; by eexists _, _.
  destruct (event_type_is_ephemeral (sd_event_type draft)) eqn:Ee.
  { intros [= <- <-]. left. by eexists _, _. }
  unfold mbind, M_bind. rewrite append_projected_spec. destruct (guarded_request sk draft) as [r|e] eqn:Eg.
  2: { intros [= <- <-]. left. by eexists _, _. }
  apply guarded_request_inv in Eg as (_ & Ha & Hr).
  apply to_append_request_spec in Hr; [|by eapply Hwf].
  destruct (jn_append (sk_journal sk) r s1) as [o s2] eqn:Ea. intros Hout. right; right.
  exists d, draft, s1, r, o. destruct Hr as [Hi Ht Hra Hro Hp Hrr]. rewrite Ht, Hra.
  assert (s2 = s') as -> by (destruct o as [o|]; [destruct (checked_result r o)|]; by injection Hout).
  split_and!; try done. intros x ->. destruct o as [o|]; [|done].
  destruct (checked_result r o) as [y|] eqn:Ec; [|done]. apply checked_result_ok in Ec as [-> Hper].
  by injection Hout as ->.
Qed.

(** *** Projection for the compiler *)

Lemma get_update_ne d items k : k ∉ keys items → dict_get (update d items) k = dict_get d k.
Proof.
  unfold update. revert d. induction items as [|[k' v] items IH]; intros d Hk; simpl; [done|].
  apply not_elem_of_cons in Hk as [Hne Hk]. rewrite IH by done. by apply dict_get_set_ne.
Qed.

Lemma get_update_elem d items k v :
  NoDup (keys items) → (k, v) ∈ items → dict_get (update d items) k = Some v.
Proof.
  unfold update. revert d. induction items as [|[k' v'] items IH]; intros d Hnd Hin; simpl; [by apply elem_of_nil in Hin|].
  apply NoDup_cons in Hnd as [Hk Hnd]. apply elem_of_cons in Hin as [[= -> ->]|Hin]; [|by apply IH].
  change (foldl _ _ items) with (update (dict_set d k' v') items).
  rewrite get_update_ne by done. apply dict_get_set_eq.
Qed.

Lemma projection_keys e : NoDup (keys (projection_update e)).
Proof. apply (proj1 (bool_decide_eq_true (NoDup (keys (projection_update e))))). vm_compute. reflexivity. Qed.

(** The event type is authoritative: in the record the compiler sees, the
    seven outer fields of a journal event (its type first) are those of the
    event, whatever its payload holds under the same names, and every other
    field of the payload is kept. *)
Theorem projection_cannot_be_spoofed e d :
  journal_event_to_semantic_event e = Ok d →
  (∀ k v, (k, v) ∈ projection_update e → dict_get d k = Some v) ∧
  get d "type" = VStr (event_type e) ∧
  (∀ k, k ∉ keys (projection_update e) →
        dict_get d k = dict_get (thaw_items (event_payload e)) k).
Proof.
  intros ([] & _ & H)%result_bind_ok.
  change (Ok (E:=pyexn) (update (thaw_items (event_payload e)) (projection_update e)) = Ok d) in H.
  assert (d = update (thaw_items (event_payload e)) (projection_update e)) as -> by congruence.
  split_and!.
  - intros k v. apply get_update_elem, projection_keys.
  - unfold get. by rewrite (get_update_elem _ _ _ (VStr (event_type e)) (projection_keys e)) by left.
  - intros k Hk. by apply get_update_ne.
Qed.
End append.

(** ** Recovery of a tool call *)

Section recover.
Context `{U : Unicode} `{!UnicodeLaws U} `{F : UnicodeFold} `{PR : PyRepr}.

Lemma make_recovery_inv st id i s se r a reason x :
  make_ToolSideEffectRecovery st id i s se r a reason = Ok x →
  tr_state x = st ∧ tr_intent_event x = i ∧ tr_started_event x = s ∧ tr_result_event x = r ∧
  tr_reusable_result_artifact x = a.
Proof. by intros (? & _ & [= <-])%result_bind_ok. Qed.

Lemma head_of_kind k events :
  head (of_kind k events) = None → ∀ e, e ∈ events → kind_of e ≠ k.
Proof. intros H%head_None. exact (proj1 (filter_nil_iff _ _) H). Qed.

Lemma head_of_kind_Some k events e : head (of_kind k events) = Some e → e ∈ events ∧ kind_of e = k.
Proof.
  intros H. assert (e ∈ of_kind k events) as [??]%list_elem_of_filter; [|done].
  destruct (of_kind k events); [done|]. injection H as ->. left.
Qed.

(** A decision of [classify_receipts] other than [CORRUPT]. *)
Lemma classify_inv events id r :
  classify_receipts events id = Ok r → tr_state r ≠ CORRUPT →
  (∀ e, e ∈ events → is_Some (stable_tool_name e)) ∧
  (∀ k, length (of_kind k events) ≤ 1) ∧
  ∃ intent, head (of_kind KIntent events) = Some intent ∧
  ((head (of_kind KStarted events) = None ∧ head (of_kind KSealed events) = None ∧
    head (of_kind KResult events) = None ∧ tr_state r = NOT_STARTED) ∨
   (∃ start, head (of_kind KStarted events) = Some start ∧
      (je_store_seq intent < je_store_seq start)%Z ∧
      after_start intent start (head (of_kind KSealed events)) (head (of_kind KResult events))
        events id = Ok r)).
Proof.
  unfold classify_receipts. intros H Hc.
  destruct (existsb _ events) eqn:En; [destruct Hc; by apply make_recovery_inv in H as [-> _]|].
  destruct (_ || _) eqn:El in H; [destruct Hc; by apply make_recovery_inv in H as [-> _]|].
  rewrite !orb_false_iff, !Nat.ltb_ge in El. split; [|split].
  - intros e He. rewrite <-not_true_iff_false, existsb_exists in En.
    destruct (decide (is_Some (stable_tool_name e))); [done|]. destruct En. exists e.
    split; [by apply list_elem_of_In|]. by rewrite bool_decide_eq_false_2.
  - intros []; tauto.
  - destruct (head (of_kind KIntent events)) as [intent|]; [|destruct Hc; by apply make_recovery_inv in H as [-> _]].
    exists intent. split; [done|]. destruct (head (of_kind KStarted events)) as [start|].
    + destruct (Z.leb_spec (je_store_seq start) (je_store_seq intent));
        [destruct Hc; by apply make_recovery_inv in H as [-> _]|]. right. eauto.
    + left. destruct (head (of_kind KSealed events)), (head (of_kind KResult events));
        apply make_recovery_inv in H as [Hst _]; done || by rewrite Hst in Hc.
Qed.

Lemma after_start_started intent start seal result events id r :
  after_start intent start seal result events id = Ok r → tr_state r ≠ NOT_STARTED.
Proof. unfold after_start. intros H. repeat case_match; by apply make_recovery_inv in H as [-> _]. Qed.

Lemma kind_intent e : kind_of e = KIntent ↔ event_type e = u "tool_call".
Proof. unfold kind_of. repeat case_bool_decide; naive_solver. Qed.

(** Without a durable start there is one receipt, the intent. *)
Lemma not_started_receipts events id r :
  classify_receipts events id = Ok r → auto_execute_allowed r = true →
  ∃ intent, events = [intent] ∧ event_type intent = u "tool_call".
Proof.
  intros H Ha%bool_decide_eq_true.
  apply classify_inv in H as (_ & Hlen & intent & Hi & [(Hs & Hse & Hr & _)|(start & _ & _ & H)]);
    [|by apply after_start_started in H|by rewrite Ha].
  assert (of_kind KIntent events = events) as Hall.
  { apply filter_true, Forall_forall. intros e He. pose proof (head_of_kind _ _ Hs e He). pose proof (head_of_kind _ _ Hse e He).
    pose proof (head_of_kind _ _ Hr e He). by destruct (kind_of e). }
  specialize (Hlen KIntent). rewrite Hall in Hlen, Hi. destruct events as [|e [|? ?]]; simplify_eq/=; [|lia].
  exists intent. split; [done|]. apply kind_intent.
  assert (intent ∈ of_kind KIntent [intent]) as [? _]%list_elem_of_filter by (rewrite Hall; left). done.
Qed.

(** *** No tool runs twice *)

(** A receipt of the tool call [id] of an attempt. *)
Definition receipt_of (attempt : AttemptRef) (id : pystr) (e : JournalEvent) : Prop :=
  event_attempt e = attempt ∧ event_type e ∈ TOOL_EXECUTION_RECEIPT_TYPES ∧
  py_eq (items_get (event_payload e) "call_id") (VStr id) = true.

(** A lookup is exhaustive: every receipt of [log] is in it, or it says that
    there were too many. *)
Definition lookup_exhaustive (log : list JournalEvent) (found : ToolExecutionReceiptLookup) : Prop :=
  ∀ e, e ∈ log → receipt_of (lk_attempt found) (lk_call_id found) e →
       e ∈ lk_events found ∨ lk_overflow found = true.

Lemma recover_inv {St : Type} (sk : DurableEventSink St) call_id page_size s r s' :
  recover_tool_side_effect sk call_id page_size s = (Ok r, s') →
  ∃ id lookup found, _required_text call_id 256 true = Ok id ∧
    jn_lookup (sk_journal sk) = Some lookup ∧ lookup (sk_attempt sk) id s = (Ok (Some found), s') ∧
    lk_attempt found = sk_attempt sk ∧ lk_call_id found = id ∧
    if lk_overflow found then tr_state r = CORRUPT
    else classify_receipts (lk_events found) id = Ok r.
Proof.
  unfold recover_tool_side_effect.
  intros (id & s1 & Hid & (n & s2 & Hn & H)%M_bind_ok)%M_bind_ok.
  unfold lift in Hid, Hn. injection Hid as Hid <-. injection Hn as _ <-.
  destruct (jn_lookup (sk_journal sk)) as [lookup|]; [|done].
  apply M_bind_ok in H as (found & s3 & Hl & H). destruct found as [found|]; [|done].
  destruct (bool_decide (lk_attempt found = sk_attempt sk) && bool_decide (lk_call_id found = id)) eqn:Eb;
    [|done]. simpl in H. apply andb_true_iff in Eb as [Ha%bool_decide_eq_true Hc%bool_decide_eq_true].
  exists id, lookup, found. destruct (lk_overflow found); unfold lift in H; injection H as H <-.
  - apply make_recovery_inv in H as [-> _]. split_and!; done.
  - split_and!; done.
Qed.

Lemma recovery_on_log {St : Type} (sk : DurableEventSink St)
    (log : list JournalEvent) (call_id page_size : pyval) s r s' id :
  (∀ lookup a i found s2, jn_lookup (sk_journal sk) = Some lookup →
     lookup a i s = (Ok (Some found), s2) → lookup_exhaustive log found) →
  recover_tool_side_effect sk call_id page_size s = (Ok r, s') →
  _required_text call_id 256 true = Ok id →
  ((∃ e, e ∈ log ∧ receipt_of (sk_attempt sk) id e ∧ event_type e ≠ u "tool_call") →
   auto_execute_allowed r = false) ∧
  (auto_execute_allowed r = true →
   ∃ intent, event_type intent = u "tool_call" ∧
             ∀ e, e ∈ log → receipt_of (sk_attempt sk) id e → e = intent).
Proof.
  intros Hex Hrec Hid.
  destruct (recover_inv _ _ _ _ _ _ Hrec) as (id' & lookup & found & Hid' & Hl & Hf & Ha & Hc & Hdec).
  assert (id' = id) as -> by congruence. specialize (Hex _ _ _ _ _ Hl Hf).
  assert (auto_execute_allowed r = true →
    ∃ intent, event_type intent = u "tool_call" ∧
              ∀ e, e ∈ log → receipt_of (sk_attempt sk) id e → e = intent) as Hauto.
  { intros Hr. destruct (lk_overflow found) eqn:Eo.
    - unfold auto_execute_allowed in Hr. by rewrite Hdec in Hr.
    - apply not_started_receipts in Hdec as (intent & Hev & Ht); [|done]. exists intent.
      split; [done|]. intros e He Hrc. rewrite <-Ha, <-Hc in Hrc.
      destruct (Hex e He Hrc) as [Hin|]; [|congruence]. rewrite Hev in Hin. by apply list_elem_of_singleton in Hin. }
  split; [|done]. intros (e & He & Hrc & Hne). destruct (auto_execute_allowed r) eqn:E; [|done].
  destruct (Hauto eq_refl) as (intent & Ht & Honly). destruct Hne. by rewrite (Honly e).
Qed.

(** A tool that may have started is never run again on its own: when the
    index is exhaustive and the journal holds any receipt of the call other than
    its intent (a start, a sealed completion or a result), recovery does not
    allow automatic execution; and when it does allow it, the only receipt of
    the call in the journal is its intent. *)
Theorem started_tool_is_never_rerun {St : Type} (sk : DurableEventSink St)
    (log : list JournalEvent) (call_id page_size : pyval) s r s' id :
  (∀ lookup a i found s2, jn_lookup (sk_journal sk) = Some lookup →
     lookup a i s = (Ok (Some found), s2) → lookup_exhaustive log found) →
  recover_tool_side_effect sk call_id page_size s = (Ok r, s') →
  _required_text call_id 256 true = Ok id →
  ((∃ e, e ∈ log ∧ receipt_of (sk_attempt sk) id e ∧ event_type e ≠ u "tool_call") →
   auto_execute_allowed r = false) ∧
  (auto_execute_allowed r = true →
   ∃ intent, event_type intent = u "tool_call" ∧
             ∀ e, e ∈ log → receipt_of (sk_attempt sk) id e → e = intent).
Proof. apply recovery_on_log. Qed.

(** *** Every crash point *)

Lemma make_recovery_ok st id i s se r a reason :
  _required_text (VStr id) 256 true = Ok id →
  make_ToolSideEffectRecovery st id i s se r a reason =
  Ok (mkRecovery st id s se r a (take 512 (strip reason)) i).
Proof. intros H. unfold make_ToolSideEffectRecovery. by rewrite H. Qed.

Definition same_kind (k k' : receipt_kind) : bool :=
  match k, k' with
  | KIntent, KIntent | KStarted, KStarted | KSealed, KSealed | KResult, KResult => true
  | _, _ => false
  end.

Lemma of_kind_cons k e l :
  of_kind k (e :: l) = if same_kind (kind_of e) k then e :: of_kind k l else of_kind k l.
Proof. unfold of_kind. rewrite filter_cons. destruct (kind_of e), k; by case_decide. Qed.

Lemma of_kind_nil k : of_kind k [] = [].
Proof. done. Qed.

Definition outcome (events : list JournalEvent) (id : pystr)
    : option (SideEffectRecoveryState * option ArtifactRef) :=
  match classify_receipts events id with
  | Ok r => Some (tr_state r, tr_reusable_result_artifact r)
  | Err _ => None
  end.

(** Recovery at every crash point of one tool call.  The call writes its
    intent, its start, possibly a sealed completion, and its result with a
    complete artifact descriptor, in that order and under one tool name; if
    the process stops after any of these, recovery answers: not started after
    the intent, uncertain after the start, finalizable after the seal, and
    reusable with the result's artifact after the result.  With no receipt at
    all the boundary is corrupt. *)
Theorem recovery_at_every_crash_point (id name : pystr) (artifact : ArtifactRef)
    (intent start seal result : JournalEvent) :
  _required_text (VStr id) 256 true = Ok id →
  kind_of intent = KIntent → kind_of start = KStarted → kind_of seal = KSealed →
  kind_of result = KResult →
  (∀ e, e ∈ [intent; start; seal; result] → stable_tool_name e = Some name) →
  (je_store_seq intent < je_store_seq start < je_store_seq seal)%Z →
  (je_store_seq seal < je_store_seq result)%Z →
  _reusable_result_ref result = Some artifact →
  outcome [] id = Some (CORRUPT, None) ∧
  outcome [intent] id = Some (NOT_STARTED, None) ∧
  outcome [intent; start] id = Some (UNCERTAIN_AFTER_START, None) ∧
  outcome [intent; start; seal] id = Some (SEALED_COMPLETION_FINALIZABLE, None) ∧
  outcome [intent; start; seal; result] id = Some (TERMINAL_RESULT_REUSABLE, Some artifact) ∧
  outcome [intent; start; result] id = Some (TERMINAL_RESULT_REUSABLE, Some artifact).
Proof.
  intros Hid Ki Ks Kse Kr Hname [Hs Hse] Hr Hart.
  assert (Ni := Hname intent ltac:(set_solver)). assert (Ns := Hname start ltac:(set_solver)).
  assert (Nse := Hname seal ltac:(set_solver)). assert (Nr := Hname result ltac:(set_solver)).
  assert (Hb : bool_decide (is_Some (Some name)) = true) by by apply bool_decide_eq_true.
  assert (L1 : (je_store_seq start <=? je_store_seq intent)%Z = false) by (apply Z.leb_gt; lia).
  assert (L2 : (je_store_seq seal <=? je_store_seq start)%Z = false) by (apply Z.leb_gt; lia).
  assert (L3 : (je_store_seq result <=? je_store_seq seal)%Z = false) by (apply Z.leb_gt; lia).
  assert (L4 : (je_store_seq result <=? je_store_seq start)%Z = false) by (apply Z.leb_gt; lia).
  split_and!; unfold outcome, classify_receipts, after_start;
    rewrite ?of_kind_cons, ?of_kind_nil, ?Ki, ?Ks, ?Kse, ?Kr;
    cbn -[u take strip make_ToolSideEffectRecovery stable_tool_name Z.leb];
    rewrite ?Ni, ?Ns, ?Nse, ?Nr, ?Hb, ?L1, ?L2, ?L3, ?L4;
    cbn -[u take strip make_ToolSideEffectRecovery Z.leb bool_decide];
    rewrite ?Hb, ?L1, ?L2, ?L3, ?L4, ?Hart, ?(bool_decide_eq_true_2 (Some name = Some name)) by done;
    cbn -[u take strip make_ToolSideEffectRecovery]; by rewrite make_recovery_ok.
Qed.

(** *** Reused results *)

(** The descriptor a result is reused by is the one the event recorded. *)
Record backed_by (result : JournalEvent) (a : ArtifactRef) : Prop := {
  bb_kind : rr_kind (ar_ref a) = u "artifact";
  bb_ref : ar_ref a ∈ event_refs result;
  bb_sha256 : items_get (event_payload result) "result_sha256" = VStr (ar_sha256 a);
  bb_bytes : items_get (event_payload result) "result_bytes" = VInt (ar_byte_length a);
}.

Lemma reusable_result_backed result a : _reusable_result_ref result = Some a → backed_by result a.
Proof.
  unfold _reusable_result_ref. destruct (ResourceRef_from_dict _) as [ref|]; [|done].
  destruct (items_get (event_payload result) "result_bytes") as [| |n| | | | |] eqn:Eb; try done.
  destruct (items_get (event_payload result) "result_sha256") as [| | | |h| | |] eqn:Eh; try done.
  destruct (_ || _) eqn:Ec; [done|].
  destruct (make_ArtifactRef _ _ _ _ _) as [a'|] eqn:Ea; [|done]. intros [= <-].
  rewrite !orb_false_iff, bool_decide_eq_false, negb_false_iff, bool_decide_eq_true in Ec.
  destruct Ec as [[[Hk Hr] _] _]. apply dec_stable in Hk.
  unfold make_ArtifactRef in Ea. cbn [mbind result_bind] in Ea.
  apply result_bind_ok in Ea as (m & _ & ([] & _ & (b & Hb & (h' & Hh & (p & _ & [= <-])
    %result_bind_ok)%result_bind_ok)%result_bind_ok)%result_bind_ok).
  unfold _bounded_int in Hb. unfold _sha256 in Hh. destruct (n <? 0)%Z; [done|].
  destruct (_SHA256_RE h); [|done]. injection Hb as <-. injection Hh as <-. by constructor.
Qed.

Lemma one_name_spec names n :
  one_name names = true → n ∈ names → ∀ n', n' ∈ names → n' = n.
Proof.
  destruct names as [|m names]; [done|]. simpl. rewrite forallb_forall.
  setoid_rewrite <-list_elem_of_In. setoid_rewrite bool_decide_eq_true. intros H.
  intros [->|Hn]%elem_of_cons n' [->|Hn']%elem_of_cons; try done; auto.
  - symmetry. auto.
  - by rewrite (H n), (H n').
Qed.

(** What [after_start] checks before a result is reused. *)
Lemma after_start_reusable intent start seal result events id r :
  after_start intent start seal result events id = Ok r → tr_state r = TERMINAL_RESULT_REUSABLE →
  ∃ e a, result = Some e ∧ tr_result_event r = Some e ∧ tr_reusable_result_artifact r = Some a ∧
    _reusable_result_ref e = Some a ∧ one_name (stable_tool_name <$> events) = true ∧
    (je_store_seq start < je_store_seq e)%Z ∧
    ∀ x, seal = Some x → (je_store_seq start < je_store_seq x < je_store_seq e)%Z.
Proof.
  unfold after_start. intros H Hst.
  destruct seal as [x|].
  - destruct (Z.leb_spec (je_store_seq x) (je_store_seq start)); [apply make_recovery_inv in H as [E _]; congruence|].
    destruct result as [e|]; [|apply make_recovery_inv in H as [E _]; congruence].
    destruct (Z.leb_spec (je_store_seq e) (je_store_seq x)); [apply make_recovery_inv in H as [E _]; congruence|].
    destruct (one_name _) eqn:En; [|apply make_recovery_inv in H as [E _]; congruence]. cbn [negb] in H.
    destruct (Z.leb_spec (je_store_seq e) (je_store_seq start)); [apply make_recovery_inv in H as [E _]; congruence|].
    destruct (_reusable_result_ref e) as [a|] eqn:Ea; apply make_recovery_inv in H as (E & _ & _ & Hr & Ht); [|congruence].
    exists e, a. split_and!; try done. intros y [= <-]. lia.
  - destruct result as [e|]; [|apply make_recovery_inv in H as [E _]; congruence].
    destruct (one_name _) eqn:En; [|apply make_recovery_inv in H as [E _]; congruence]. cbn [negb] in H.
    destruct (Z.leb_spec (je_store_seq e) (je_store_seq start)); [apply make_recovery_inv in H as [E _]; congruence|].
    destruct (_reusable_result_ref e) as [a|] eqn:Ea; apply make_recovery_inv in H as (E & _ & _ & Hr & Ht); [|congruence].
    exists e, a. split_and!; done.
Qed.

(** C34. A reused result is backed by the journal: when recovery says that a
    terminal result may be reused, the receipts hold one intent, one start and
    one result, in this order (a sealed completion lies between start and
    result), all under the same tool name, and the artifact it hands out is the
    one the result event refers to, with the digest and the length recorded in
    that event. *)
Theorem reused_result_is_backed (events : list JournalEvent) (id : pystr) (r : ToolSideEffectRecovery) :
  classify_receipts events id = Ok r → tr_state r = TERMINAL_RESULT_REUSABLE →
  ∃ intent start result a name,
    of_kind KIntent events = [intent] ∧ of_kind KStarted events = [start] ∧
    of_kind KResult events = [result] ∧
    (je_store_seq intent < je_store_seq start < je_store_seq result)%Z ∧
    (∀ x, x ∈ of_kind KSealed events → (je_store_seq start < je_store_seq x < je_store_seq result)%Z) ∧
    (∀ e, e ∈ events → stable_tool_name e = Some name) ∧
    tr_result_event r = Some result ∧ tr_reusable_result_artifact r = Some a ∧ backed_by result a.
Proof.
  intros H Hst. apply classify_inv in H as (Hn & Hlen & intent & Hi & H); [|by rewrite Hst].
  destruct H as [(_ & _ & _ & E)|(start & Hs & Hlt & H)]; [congruence|].
  apply after_start_reusable in H as (e & a & He & Hres & Ha & Href & Hone & Hse & Hseal); [|done].
  assert (Hsingle : ∀ k x, head (of_kind k events) = Some x → of_kind k events = [x]).
  { intros k x Hx. specialize (Hlen k). destruct (of_kind k events) as [|y [|? ?]]; simplify_eq/=; [done|lia]. }
  assert (Hin := head_of_kind_Some _ _ _ Hi). destruct (Hn intent) as [name Hname]; [apply Hin|].
  exists intent, start, e, a, name. split_and!; auto; try lia.
  - intros x Hx. apply Hseal. destruct (of_kind KSealed events) as [|y l] eqn:Ek; [by apply elem_of_nil in Hx|].
    specialize (Hlen KSealed). rewrite Ek in Hlen. destruct l; [|simpl in Hlen; lia].
    by apply list_elem_of_singleton in Hx as ->.
  - intros x Hx. apply (one_name_spec _ (Some name) Hone).
    + rewrite <-Hname. apply list_elem_of_fmap_2, Hin.
    + by apply list_elem_of_fmap_2.
  - by apply reusable_result_backed.
Qed.
End recover.
