(* ===== verification/JournalDemo.v ===== *)
(** * A journal in memory, and the journal theorems at work

    [list_journal] is a journal whose state is the list of its events.  It keeps
    what ports.py promises ([reads_log], [lookup_exhaustive]), so the theorems on
    replay and recovery apply to it; the rest of the file evaluates them on one
    tool call. *)

From S2P Require Import Prelude PyVal Json Models Diagnostics JournalPayload ResourceLimits JournalRecords JournalVocabulary JournalSnapshot JournalRuntime JournalReplay JournalRecovery.

(** ** The journal in memory *)

Definition log_page (log : list JournalEvent) (after : option EventCursor) (n : Z) : JournalPage :=
  let rest := after_cursor after log in
  let events := take (Z.to_nat n) rest in
  mkPage events (cursor_of <$> last events) (bool_decide (Z.to_nat n < length rest)).

(** An operation that was already appended is replayed. *)
Definition log_append (request : JournalAppendRequest) : M (list JournalEvent) pyexn (option JournalAppendResult) :=
  λ log,
  match filter (λ e, event_operation e = ar_operation request) log with
  | e :: _ => (Ok (Some (mkAppendResult e (cursor_of e) true)), log)
  | [] =>
      let e := mkEvent request (Z.of_nat (length log) + 1) in
      (Ok (Some (mkAppendResult e (cursor_of e) false)), log ++ [e])
  end.

Definition receipt_test (attempt : AttemptRef) (id : pystr) (e : JournalEvent) : bool :=
  bool_decide (event_attempt e = attempt) && bool_decide (event_type e ∈ TOOL_EXECUTION_RECEIPT_TYPES)
  && py_eq (items_get (event_payload e) "call_id") (VStr id).

Definition log_lookup (attempt : AttemptRef) (id : pystr)
    : M (list JournalEvent) pyexn (option ToolExecutionReceiptLookup) :=
  λ log,
  let receipts := filter (λ e, receipt_test attempt id e = true) log in
  (Ok (Some (mkLookup attempt id (take MAX_TOOL_EXECUTION_RECEIPTS receipts)
              (MAX_TOOL_EXECUTION_RECEIPTS <? length receipts))), log).

Section list_journal.
Context `{U : Unicode} `{F : UnicodeFold}.

Definition list_journal (execution_id : pystr) : BoundExecutionJournal (list JournalEvent) :=
  mkJournal execution_id log_append
    (λ after n log, (Ok (Some (log_page log after n)), log))
    default_append_with_artifacts
    (Some log_lookup)
    (λ log, (capture_journal_snapshot (VStr execution_id) log, log)).

Lemma log_page_consistent (sk : DurableEventSink (list JournalEvent)) log after n :
  (1 ≤ n)%Z → replayed sk log →
  page_consistent (pg_events (log_page log after n)) (pg_next_cursor (log_page log after n))
    (pg_has_more (log_page log after n)) = true.
Proof.
  intros Hn [Hg Hs Hp Hi _]. unfold log_page. cbn [pg_events pg_next_cursor pg_has_more].
  set (rest := after_cursor after log).
  apply (page_consistent_of (gr_execution_id (at_generation (sk_attempt sk))) log); [|done..| |].
  - transitivity rest; [apply sublist_take|apply sublist_filter].
  - intros e He. rewrite Forall_forall in Hg. unfold execution_of. by rewrite (Hg e He).
  - destruct (last (take (Z.to_nat n) rest)) eqn:E; [done|]. apply last_None in E.
    apply bool_decide_eq_false. destruct rest as [|e r]; simpl in *; [lia|].
    destruct (Z.to_nat n) eqn:En; [lia|done].
Qed.

Lemma list_journal_reads (sk : DurableEventSink (list JournalEvent)) x log :
  sk_journal sk = list_journal x → replayed sk log → reads_log sk log log.
Proof.
  intros Hj Hlog after n Hn _. rewrite Hj. exists (log_page log after n).
  split_and!; [done..|]. apply (log_page_consistent sk); [lia|done].
Qed.

Lemma receipt_test_spec attempt id e : receipt_test attempt id e = true ↔ receipt_of attempt id e.
Proof. unfold receipt_test, receipt_of. rewrite !andb_true_iff, !bool_decide_eq_true. tauto. Qed.

Lemma list_journal_exhaustive attempt id log found log' :
  log_lookup attempt id log = (Ok (Some found), log') → lookup_exhaustive log found.
Proof.
  intros [= <- _] e He Hr. simpl in *. apply receipt_test_spec in Hr.
  set (receipts := filter _ log). assert (e ∈ receipts) as Hin by by apply list_elem_of_filter.
  destruct (Nat.ltb_spec MAX_TOOL_EXECUTION_RECEIPTS (length receipts)) as [|Hle]; [by right|].
  left. by rewrite take_ge.
Qed.
End list_journal.

(** ** One tool call *)

Module JournalDemo.

(** ASCII text: normalisation does nothing and folding lowers letters. *)
Definition ascii_nfc : Unicode := λ s, s.
#[export] Existing Instance ascii_nfc.
#[export] Instance ascii_laws : UnicodeLaws ascii_nfc.
Proof. split; intros s; [done..|apply strip_idemp]. Qed.

Definition ascii_fold : UnicodeFold :=
  {| nfkc := λ s, s; casefold := λ s, (λ c, if is_upper c then (c + 32)%N else c) <$> s |}.
#[export] Existing Instance ascii_fold.

Definition no_repr : PyRepr := λ _, [].
#[export] Existing Instance no_repr.

Definition gen : GenerationRef := mkGenerationRef (u "exec-1") (u "gen-1").
Definition att (name : string) : AttemptRef := mkAttemptRef gen (u name).
Definition oper (name : string) : OperationRef := mkOperationRef (u name) (replicate 64 98%N).
Definition output : ResourceRef := mkResourceRef (u "artifact") (u "out-1") 1 [].

Definition ev (n : Z) (name type attempt : string) (payload : list (pystr * frozen))
    (refs : list ResourceRef) : JournalEvent :=
  mkEvent (mkAppendRequest (u name) (u type) (att attempt) (oper name) payload refs) n.

Definition call_payload : list (pystr * frozen) :=
  [(u "call_id", FStr (u "call-1")); (u "tool_name", FStr (u "shell"))].
Definition result_payload : list (pystr * frozen) :=
  [(u "call_id", FStr (u "call-1"));
   (u "full_output_ref",
     FMap [(u "fragment", FStr []); (u "id", FStr (u "out-1")); (u "kind", FStr (u "artifact"));
           (u "revision", FInt 1); (u "schema", FStr resource_ref_schema)]);
   (u "result_bytes", FInt 12); (u "result_sha256", FStr (replicate 64 99%N));
   (u "tool_name", FStr (u "shell"))].

Definition intent : JournalEvent := ev 2 "e2" "tool_call" "attempt-1" call_payload [].
Definition start : JournalEvent := ev 3 "e3" "tool.started" "attempt-1" call_payload [].
Definition seal : JournalEvent :=
  ev 5 "e5" "tool.subagent_completion.sealed" "attempt-1" call_payload [].
Definition result : JournalEvent := ev 6 "e6" "tool.result" "attempt-1" result_payload [output].
Definition artifact : ArtifactRef :=
  mkArtifactRef output (u "application/json") 12 (replicate 64 99%N) [].

(** Another attempt of the same generation writes in between. *)
Definition log : list JournalEvent :=
  [ev 1 "e1" "run.started" "attempt-1" [] []; intent; start;
   ev 4 "e4" "run.started" "attempt-2" [] []; seal; result].

Definition projector (d : pydict) : M (list JournalEvent) pyexn (option SemanticEventDraft) :=
  λ log, (Ok (Some (mkDraft (u "e7") (u "run.completed") (att "attempt-1") (u "op-7") [] [])), log).

Definition sink : DurableEventSink (list JournalEvent) :=
  mkSink (list_journal (u "exec-1")) (att "attempt-1") projector.

Ltac evaluate := vm_compute; reflexivity.

(** Decide a closed proposition by evaluation. *)
Ltac by_decision := apply (proj1 (bool_decide_eq_true _)); evaluate.

Lemma log_replayed : replayed sink log.
Proof.
  split; [repeat constructor..|by_decision|by_decision].
Qed.

(** A payload with an identifier and a handle under sensitive names. *)
Definition secret_handle : pyval :=
  VDict [field "schema" (VStr handle_schema); field "handle_id" (VStr (u "h-1")); field "label" (VStr (u "Deploy key"));
         field "scope" (VStr (u "repo"))].
Definition frozen_handle : frozen :=
  FMap [(u "handle_id", FStr (u "h-1")); (u "label", FStr (u "Deploy key")); (u "schema", FStr handle_schema);
        (u "scope", FStr (u "repo"))].
Definition guarded_payload : pyval :=
  VDict [field "auth" (VDict [field "accessTokenId" (VStr (u "tok-1")); field "apiKeyHandle" secret_handle])].
Definition guarded_frozen : frozen :=
  FMap [(u "auth", FMap [(u "accessTokenId", FStr (u "tok-1")); (u "apiKeyHandle", frozen_handle)])].

Lemma guarded_unique : unique_keys guarded_payload.
Proof. repeat first [apply uk_dict; [by_decision|]|constructor]. Qed.


Definition small : JsonResourceLimits := mkLimits 10 20 2 4.
Definition sample : pyval := VDict [field "a" (VList [VInt 1; VStr [233%N]])].

Lemma resource_check_is_exact_witness :
  (0 ≤ max_bytes small)%Z ∧ (0 ≤ max_nodes small)%Z ∧
  (validate_json_resource small sample = Ok tt ↔
   text_keys sample = true ∧ (Z.of_nat (height sample) ≤ max_depth small)%Z ∧
   (Z.of_nat (nodes sample) ≤ max_nodes small)%Z ∧
   ∃ bs, encoded sample = Some bs ∧ (Z.of_nat (length bs) ≤ max_bytes small)%Z).
Proof. split; [done|]. split; [done|]. apply (resource_check_is_exact small sample); done. Defined.

Lemma wire_unique : unique_keys (JournalEvent_to_dict result).
Proof. repeat (constructor; simpl); try by_decision. Qed.

Lemma journal_records_roundtrip_witness :
  JournalEvent_from_dict (JournalEvent_to_dict result) = Ok result ∧
  (∀ e, JournalEvent_from_dict (JournalEvent_to_dict result) = Ok e →
        JournalEvent_from_dict (JournalEvent_to_dict e) = Ok e).
Proof.
  split; [evaluate|]. exact (proj1 (proj2 (journal_records_roundtrip _ wire_unique))).
Defined.

Definition finished : JournalEvent := ev 7 "e7" "run.completed" "attempt-1" [] [].
Definition sealed_step : JournalEvent := ev 8 "e8" "graph.step.completed" "attempt-1" [] [].

Lemma terminal_selection_is_exact_witness :
  sel_event (select_attempt_terminal [sealed_step; intent; finished] GRAPH_STEP_SEALS) = Some finished ∧
  (sel_ambiguous (select_attempt_terminal [sealed_step; intent; finished] GRAPH_STEP_SEALS) = true ↔
   ∃ e1 e2, e1 ∈ [sealed_step; intent; finished] ∧ e2 ∈ [sealed_step; intent; finished] ∧ e1 ≠ e2 ∧
            has_type CANONICAL_ATTEMPT_TERMINALS e1 ∧ has_type CANONICAL_ATTEMPT_TERMINALS e2).
Proof.
  split; [evaluate|].
  apply (terminal_selection_is_exact [sealed_step; intent; finished] GRAPH_STEP_SEALS). by_decision.
Defined.

(** *** Snapshots *)

Definition first_event : JournalEvent := ev 1 "e1" "run.started" "attempt-1" [] [].

Lemma first_wf : Forall event_wf [first_event].
Proof.
  repeat constructor; try (vm_compute; congruence); try (unfold wf_AttemptRef, wf_OperationRef; evaluate).
Qed.

Definition digest : pystr := Eval vm_compute in
  match capture_journal_snapshot (VStr (u "exec-1")) [first_event] with
  | Ok s => sn_snapshot_sha256 s
  | Err _ => []
  end.

Definition snapshot : JournalSnapshot :=
  mkSnapshot (u "exec-1") (Some (cursor_of first_event)) [first_event] digest.

Lemma capture_is_exact_witness :
  is_ok (capture_journal_snapshot (VStr (u "exec-1")) [intent]) = false ∧
  (∀ s, capture_journal_snapshot (VStr (u " exec-1 ")) [first_event] = Ok s →
        sn_execution_id s = u "exec-1" ∧ sn_events s = [first_event] ∧
        sn_high_water s = Some (cursor_of first_event)).
Proof.
  split; [evaluate|].
  apply (capture_is_exact (VStr (u " exec-1 ")) (u "exec-1") [first_event] first_wf). evaluate.
Defined.

Lemma snapshot_unique : unique_keys (JournalSnapshot_to_dict snapshot).
Proof. repeat (constructor; simpl); try by_decision. Qed.

Lemma snapshot_is_complete_prefix_witness :
  JournalSnapshot_from_dict (JournalSnapshot_to_dict snapshot) = Ok snapshot ∧
  (∀ i e, sn_events snapshot !! i = Some e →
          je_store_seq e = (Z.of_nat i + 1)%Z ∧ execution_of e = sn_execution_id snapshot).
Proof.
  assert (JournalSnapshot_from_dict (JournalSnapshot_to_dict snapshot) = Ok snapshot) as H by evaluate.
  split; [exact H|]. exact (proj1 (snapshot_is_complete_prefix _ snapshot snapshot_unique H)).
Defined.

(** *** The sink *)

Lemma replay_is_in_order_witness :
  ∃ es, replay sink (VInt 2) log = (Ok es, log) ∧ length es = 5 ∧
  Forall (of_attempt sink) es ∧ StronglySorted seq_lt es ∧ NoDup (event_id <$> es) ∧
  NoDup (operation_id <$> es).
Proof.
  eexists. split; [|split]; [vm_compute; reflexivity|reflexivity|].
  apply (replay_is_in_order sink (VInt 2) log _ log). vm_compute. reflexivity.
Defined.

Lemma replay_is_complete_witness :
  replay sink (VInt 2) log = (Ok (filter (of_attempt sink) log), log).
Proof.
  rewrite (replay_is_complete sink log 2 log (list_journal_reads sink (u "exec-1") log eq_refl log_replayed)
    log_replayed ltac:(lia)).
  reflexivity.
Defined.

Lemma projector_wf d s1 draft s2 : sk_projector sink d s1 = (Ok (Some draft), s2) → draft_wf draft.
Proof. intros [= <- _]. split; evaluate. Qed.

Definition runtime_event : pyval := VDict [field "type" (VStr (u "run_completed"))].

Lemma sink_writes_the_projected_event_witness :
  ∃ out s', sink_call sink runtime_event log = (out, s') ∧ length s' = 7 ∧
  ((∃ d o, runtime_event = VDict d ∧ sk_projector sink d log = (o, s') ∧ (∀ x, out ≠ Ok (Some x))) ∨
   (s' = log ∧ ∀ x, out ≠ Ok (Some x)) ∨
   (∃ d draft s1 r o, runtime_event = VDict d ∧ sk_projector sink d log = (Ok (Some draft), s1) ∧
      request_of draft r ∧ ar_attempt r = sk_attempt sink ∧
      event_type_is_ephemeral (ar_event_type r) = false ∧
      jn_append (sk_journal sink) r s1 = (o, s') ∧
      ∀ x, out = Ok (Some x) → o = Ok (Some x) ∧ persisted_as r (rs_event x))).
Proof.
  exists (fst (sink_call sink runtime_event log)), (snd (sink_call sink runtime_event log)).
  split; [apply surjective_pairing|]. split; [evaluate|].
  apply (sink_writes_the_projected_event sink runtime_event log); [apply projector_wf|].
  apply surjective_pairing.
Defined.

Definition spoofed : JournalEvent := ev 1 "e1" "tool.result" "attempt-1" [(u "type", FStr (u "run.completed"))] [].

Lemma projection_cannot_be_spoofed_witness :
  ∃ d, journal_event_to_semantic_event spoofed = Ok d ∧ get d "type" = VStr (u "tool.result").
Proof.
  eexists. split; [evaluate|].
  apply (projection_cannot_be_spoofed spoofed). evaluate.
Defined.

Lemma started_tool_is_never_rerun_witness :
  ∃ r, recover_tool_side_effect sink (VStr (u "call-1")) (VInt 100) (take 3 log) = (Ok r, take 3 log) ∧
       auto_execute_allowed r = false.
Proof.
  eexists. split; [evaluate|].
  refine (proj1 (started_tool_is_never_rerun sink (take 3 log) (VStr (u "call-1")) (VInt 100)
    (take 3 log) _ (take 3 log) (u "call-1") _ _ _) _); [|evaluate|evaluate|].
  - intros lookup a i found s2 [= <-]. apply list_journal_exhaustive.
  - exists start. split; [right; right; left|]. split; [split_and!|]; [done|by_decision|evaluate|by_decision].
Defined.

Lemma recovery_at_every_crash_point_witness :
  outcome [intent] (u "call-1") = Some (NOT_STARTED, None) ∧
  outcome [intent; start; seal; result] (u "call-1") = Some (TERMINAL_RESULT_REUSABLE, Some artifact).
Proof.
  destruct (recovery_at_every_crash_point (u "call-1") (u "shell") artifact intent start seal result)
    as (_ & H1 & _ & _ & H2 & _); try evaluate; [|done..].
  intros e He. repeat (apply elem_of_cons in He as [->|He]; [evaluate|]). by apply elem_of_nil in He.
Defined.

Lemma reused_result_is_backed_witness :
  ∃ r a, classify_receipts [intent; start; result] (u "call-1") = Ok r ∧
         tr_reusable_result_artifact r = Some a ∧ backed_by result a.
Proof.
  assert (∃ r, classify_receipts [intent; start; result] (u "call-1") = Ok r ∧
               tr_state r = TERMINAL_RESULT_REUSABLE ∧ tr_result_event r = Some result) as (r & H & Hs & Hr)
    by (eexists; split_and!; evaluate).
  destruct (reused_result_is_backed [intent; start; result] (u "call-1") r H Hs)
    as (i & st & res & a & n & _ & _ & _ & _ & _ & _ & Hr' & Ha & Hb).
  exists r, a. assert (res = result) as -> by congruence. done.
Defined.
End JournalDemo.
