(* ===== verification/JsonParse.v ===== *)
(** * Reading JSON: UTF-8 decoding and [json.loads]

    What the persistence layer reads back: [bytes.decode("utf-8")] and
    [json.loads] with its defaults (white space, escapes, surrogate pairs,
    [NaN] and the infinities, repeated keys), executable.  The main result is
    that the canonical encoding is read back as the same value, with the items of
    its objects in key order.

    The parser runs with one unit of fuel per character, which is enough for
    every text: each step consumes one. *)

From S2P Require Import Prelude PyVal Json Models Diagnostics JournalPayload ResourceLimits.

(** ** UTF-8 *)

Definition continuation (b : N) : bool := ((128 <=? b) && (b <? 192))%N.

(** [bs.decode("utf-8")]: overlong forms, surrogates and values above U+10FFFF
    are refused. *)
Fixpoint utf8_decode (bs : list N) : option pystr :=
  match bs with
  | [] => Some []
  | a :: bs1 =>
      if (a <? 128)%N then s ← utf8_decode bs1; Some (a :: s)
      else match bs1 with
      | [] => None
      | b :: bs2 =>
          if negb (continuation b) then None
          else if ((194 <=? a) && (a <? 224))%N then
            s ← utf8_decode bs2; Some (((a - 192) * 64 + (b - 128))%N :: s)
          else match bs2 with
          | [] => None
          | c :: bs3 =>
              if negb (continuation c) then None
              else if ((224 <=? a) && (a <? 240))%N then
                let n := ((a - 224) * 4096 + (b - 128) * 64 + (c - 128))%N in
                if (n <? 2048)%N || is_surrogate n then None
                else s ← utf8_decode bs3; Some (n :: s)
              else match bs3 with
              | [] => None
              | d :: bs4 =>
                  if negb (continuation d) then None
                  else if ((240 <=? a) && (a <? 245))%N then
                    let n := ((a - 240) * 262144 + (b - 128) * 4096 + (c - 128) * 64 + (d - 128))%N in
                    if (n <? 65536)%N || (1114111 <? n)%N then None
                    else s ← utf8_decode bs4; Some (n :: s)
                  else None
              end
          end
      end
  end.

(** ** Scanning *)

Definition is_ws (c : N) : bool := bool_decide (c ∈ [32; 9; 10; 13]%N).

Fixpoint skip_ws (s : pystr) : pystr :=
  match s with c :: s' => if is_ws c then skip_ws s' else s | [] => [] end.

Definition hex_value (c : N) : option N :=
  if is_digit c then Some (c - 48)%N
  else if in_range 97 102 c then Some (c - 87)%N
  else if in_range 65 70 c then Some (c - 55)%N
  else None.

Definition hex4 (a b c d : N) : option N :=
  a ← hex_value a; b ← hex_value b; c ← hex_value c; d ← hex_value d;
  Some (a * 4096 + b * 256 + c * 16 + d)%N.

Definition simple_escape (c : N) : option N :=
  (if c =? 34 then Some 34 else if c =? 92 then Some 92 else if c =? 47 then Some 47
   else if c =? 98 then Some 8 else if c =? 102 then Some 12 else if c =? 110 then Some 10
   else if c =? 114 then Some 13 else if c =? 116 then Some 9 else None)%N.

Definition is_high (c : N) : bool := in_range 55296 56319 c.
Definition is_low (c : N) : bool := in_range 56320 57343 c.

(** The rest of a string literal, after the opening quote. *)
Fixpoint scan_string (s : pystr) : option (pystr * pystr) :=
  match s with
  | [] => None
  | c :: s1 =>
      if (c =? 34)%N then Some ([], s1)
      else if (c =? 92)%N then
        match s1 with
        | [] => None
        | x :: s2 =>
            if (x =? 117)%N then
              match s2 with
              | h1 :: h2 :: h3 :: h4 :: s3 =>
                  match hex4 h1 h2 h3 h4 with
                  | None => None
                  | Some n =>
                      if is_high n then
                        match s3 with
                        | 92%N :: 117%N :: l1 :: l2 :: l3 :: l4 :: s4 =>
                            match hex4 l1 l2 l3 l4 with
                            | None => None
                            | Some m =>
                                if is_low m then
                                  '(t, r) ← scan_string s4;
                                  Some ((65536 + (n - 55296) * 1024 + (m - 56320))%N :: t, r)
                                else '(t, r) ← scan_string s3; Some (n :: t, r)
                            end
                        | _ => '(t, r) ← scan_string s3; Some (n :: t, r)
                        end
                      else '(t, r) ← scan_string s3; Some (n :: t, r)
                  end
              | _ => None
              end
            else match simple_escape x with
                 | None => None
                 | Some y => '(t, r) ← scan_string s2; Some (y :: t, r)
                 end
        end
      else if (c <? 32)%N then None
      else '(t, r) ← scan_string s1; Some (c :: t, r)
  end.

Fixpoint span_digits (s : pystr) : pystr * pystr :=
  match s with
  | c :: s' => if is_digit c then let '(d, r) := span_digits s' in (c :: d, r) else ([], s)
  | [] => ([], [])
  end.

(** [0] or [[1-9][0-9]*] *)
Definition scan_natural (s : pystr) : option (pystr * pystr) :=
  match s with
  | 48%N :: r => Some ([48%N], r)
  | c :: _ => if is_digit c then Some (span_digits s) else None
  | [] => None
  end.

(** [(\.[0-9]+)?] *)
Definition scan_fraction (s : pystr) : option pystr * pystr :=
  match s with
  | 46%N :: r =>
      match span_digits r with
      | ([], _) => (None, s)
      | (d, r) => (Some d, r)
      end
  | _ => (None, s)
  end.

Definition scan_sign (s : pystr) : bool * pystr :=
  match s with 43%N :: r => (false, r) | 45%N :: r => (true, r) | _ => (false, s) end.

(** [([eE][-+]?[0-9]+)?] *)
Definition scan_exponent (s : pystr) : option (bool * pystr) * pystr :=
  match s with
  | c :: r =>
      if ((c =? 101) || (c =? 69))%N then
        let '(neg, r) := scan_sign r in
        match span_digits r with
        | ([], _) => (None, s)
        | (d, r) => (Some (neg, d), r)
        end
      else (None, s)
  | [] => (None, s)
  end.

(** ** Numbers *)

Definition digits_value (ds : pystr) : Z :=
  foldl (λ acc c, (10 * acc + Z.of_N (c - 48))%Z) 0%Z ds.

(** [x] to the nearest integer, half to even, for [x = num / den]. *)
Definition round_half_even (num den : Z) : Z :=
  let q := (num / den)%Z in
  let r := (num mod den)%Z in
  if ((den <? 2 * r) || (2 * r =? den) && Z.odd q)%Z then (q + 1)%Z else q.

(** The largest [l] with [2^l <= num / den]. *)
Definition log2_ratio (num den : Z) : Z :=
  let est := (Z.log2 num - Z.log2 den)%Z in
  let '(a, b) := pow2 est in
  if (num * b <? den * a)%Z then (est - 1)%Z else est.

(** The double nearest to [c * 10^j]. *)
Definition float_of_decimal (neg : bool) (c j : Z) : spec_float :=
  if (c <=? 0)%Z then S754_zero neg
  else
    let '(a, b) := pow10 j in
    let num := (c * a)%Z in
    let e := Z.max (log2_ratio num b - 52) (-1074) in
    let '(p, q) := pow2 e in
    let m := round_half_even (num * q) (b * p) in
    let '(m, e) := if (m =? 2 ^ 53)%Z then ((2 ^ 52)%Z, (e + 1)%Z) else (m, e) in
    if (971 <? e)%Z then S754_infinity neg
    else match m with Zpos p => S754_finite neg p e | _ => S754_zero neg end.

(** [int(text)] of more than 4300 digits raises [ValueError]. *)
Definition number_value (neg : bool) (whole : pystr) (fraction : option pystr)
    (exponent : option (bool * pystr)) : option pyval :=
  match fraction, exponent with
  | None, None =>
      if 4300 <? length whole then None
      else let n := digits_value whole in Some (VInt (if neg then - n else n)%Z)
  | _, _ =>
      let frac := default [] fraction in
      let x := match exponent with
               | Some (eneg, ds) => let n := digits_value ds in if eneg then (- n)%Z else n
               | None => 0%Z
               end in
      Some (VFloat (float_of_decimal neg (digits_value (whole ++ frac)) (x - Z.of_nat (length frac))))
  end.

Definition scan_number (s : pystr) : option (pyval * pystr) :=
  let '(neg, s1) := match s with 45%N :: r => (true, r) | _ => (false, s) end in
  '(whole, s2) ← scan_natural s1;
  let '(fraction, s3) := scan_fraction s2 in
  let '(exponent, s4) := scan_exponent s3 in
  v ← number_value neg whole fraction exponent;
  Some (v, s4).

(** ** Values *)

(** [s] without the prefix [p]. *)
Fixpoint strip_prefix (p s : pystr) : option pystr :=
  match p, s with
  | [], _ => Some s
  | c :: p, d :: s => if (c =? d)%N then strip_prefix p s else None
  | _, _ => None
  end.

Definition literals : list (pystr * pyval) :=
  [(u "null", VNone); (u "true", VBool true); (u "false", VBool false);
   (u "NaN", VFloat S754_nan); (u "Infinity", VFloat (S754_infinity false));
   (u "-Infinity", VFloat (S754_infinity true))].

Fixpoint scan_literal (table : list (pystr * pyval)) (s : pystr) : option (pyval * pystr) :=
  match table with
  | [] => None
  | (p, v) :: table =>
      match strip_prefix p s with Some r => Some (v, r) | None => scan_literal table s end
  end.

Definition scan_atom (s : pystr) : option (pyval * pystr) :=
  match scan_literal literals s with Some r => Some r | None => scan_number s end.

Fixpoint scan_value (fuel : nat) (s : pystr) : option (pyval * pystr) :=
  match fuel with
  | 0 => None
  | S fuel =>
      match s with
      | 34%N :: s1 => '(t, r) ← scan_string s1; Some (VStr t, r)
      | 123%N :: s1 =>
          match skip_ws s1 with
          | 125%N :: r => Some (VDict [], r)
          | s2 => '(d, r) ← scan_members fuel [] s2; Some (VDict d, r)
          end
      | 91%N :: s1 =>
          match skip_ws s1 with
          | 93%N :: r => Some (VList [], r)
          | s2 => '(l, r) ← scan_items fuel s2; Some (VList l, r)
          end
      | _ => scan_atom s
      end
  end
with scan_members (fuel : nat) (d : pydict) (s : pystr) : option (pydict * pystr) :=
  match fuel with
  | 0 => None
  | S fuel =>
      match s with
      | 34%N :: s1 =>
          '(k, r) ← scan_string s1;
          match skip_ws r with
          | 58%N :: r =>
              '(v, r) ← scan_value fuel (skip_ws r);
              let d := dict_set d (KStr k) v in
              match skip_ws r with
              | 44%N :: r => scan_members fuel d (skip_ws r)
              | 125%N :: r => Some (d, r)
              | _ => None
              end
          | _ => None
          end
      | _ => None
      end
  end
with scan_items (fuel : nat) (s : pystr) : option (list pyval * pystr) :=
  match fuel with
  | 0 => None
  | S fuel =>
      '(v, r) ← scan_value fuel s;
      match skip_ws r with
      | 44%N :: r => '(l, r) ← scan_items fuel (skip_ws r); Some (v :: l, r)
      | 93%N :: r => Some ([v], r)
      | _ => None
      end
  end.

(** [json.loads(s)]; [None] when it raises a [ValueError]. *)
Definition loads (s : pystr) : option pyval :=
  match scan_value (S (length s)) (skip_ws s) with
  | Some (v, r) => match skip_ws r with [] => Some v | _ => None end
  | None => None
  end.

(** [json.loads(bs.decode("utf-8"))] *)
Definition decode_json (bs : list N) : option pyval := utf8_decode bs ≫= loads.

(** Decide every comparison of natural numbers in the goal. *)
Ltac decide_N :=
  repeat match goal with
  | |- context [(?x <? ?y)%N] => destruct (N.ltb_spec x y); try lia
  | |- context [(?x <=? ?y)%N] => destruct (N.leb_spec x y); try lia
  end; cbn [negb andb orb].

(** ** UTF-8 is read back *)

Definition code_point (c : N) : Prop := (c < 1114112)%N.

Lemma utf8_decode_2 a b s :
  (2 ≤ a < 32)%N → (b < 64)%N →
  utf8_decode ((192 + a)%N :: (128 + b)%N :: s) = (t ← utf8_decode s; Some ((a * 64 + b)%N :: t)).
Proof.
  intros Ha Hb. cbn [utf8_decode]. unfold continuation. decide_N.
  by replace ((192 + a - 192) * 64 + (128 + b - 128))%N with (a * 64 + b)%N by lia.
Qed.

Lemma utf8_decode_3 a b c s :
  (a < 16)%N → (b < 64)%N → (c < 64)%N → (2048 ≤ a * 4096 + b * 64 + c)%N →
  is_surrogate (a * 4096 + b * 64 + c) = false →
  utf8_decode ((224 + a)%N :: (128 + b)%N :: (128 + c)%N :: s) =
  (t ← utf8_decode s; Some ((a * 4096 + b * 64 + c)%N :: t)).
Proof.
  intros Ha Hb Hc Hn Hs. cbn [utf8_decode]. unfold continuation. decide_N.
  all: replace ((224 + a - 224) * 4096 + (128 + b - 128) * 64 + (128 + c - 128))%N
    with (a * 4096 + b * 64 + c)%N in * by lia; try lia; by rewrite Hs.
Qed.

Lemma utf8_decode_4 a b c d s :
  (b < 64)%N → (c < 64)%N → (d < 64)%N →
  (65536 ≤ a * 262144 + b * 4096 + c * 64 + d < 1114112)%N →
  utf8_decode ((240 + a)%N :: (128 + b)%N :: (128 + c)%N :: (128 + d)%N :: s) =
  (t ← utf8_decode s; Some ((a * 262144 + b * 4096 + c * 64 + d)%N :: t)).
Proof.
  intros Hb Hc Hd Hn. cbn [utf8_decode]. unfold continuation. decide_N.
  all: replace ((240 + a - 240) * 262144 + (128 + b - 128) * 4096 + (128 + c - 128) * 64 + (128 + d - 128))%N
    with (a * 262144 + b * 4096 + c * 64 + d)%N in * by lia; lia || done.
Qed.

Lemma utf8_decode_char c s :
  is_surrogate c = false → code_point c →
  utf8_decode (utf8_char c ++ s) = (t ← utf8_decode s; Some (c :: t)).
Proof.
  intros Hs Hc. unfold code_point in Hc. unfold utf8_char.
  assert (H1 := N.mod_lt c 64 ltac:(lia)). assert (H2 := N.mod_lt (c / 64) 64 ltac:(lia)).
  assert (H3 := N.mod_lt (c / 4096) 64 ltac:(lia)).
  pose proof (N.div_mod c 64 ltac:(lia)) as E1. pose proof (N.div_mod (c / 64) 64 ltac:(lia)) as E2.
  pose proof (N.div_mod (c / 4096) 64 ltac:(lia)) as E3.
  rewrite N.Div0.div_div in E2, E3. change (64 * 64)%N with 4096%N in *.
  change (4096 * 64)%N with 262144%N in *.
  set (r1 := (c mod 64)%N) in *. set (r2 := ((c / 64) mod 64)%N) in *.
  set (r3 := ((c / 4096) mod 64)%N) in *. set (q1 := (c / 64)%N) in *.
  set (q2 := (c / 4096)%N) in *. set (q3 := (c / 262144)%N) in *. clearbody r1 r2 r3 q1 q2 q3.
  destruct (N.ltb_spec c 128); [|destruct (N.ltb_spec c 2048); [|destruct (N.ltb_spec c 65536)]];
    cbn [app].
  - cbn [utf8_decode]. by rewrite (proj2 (N.ltb_lt _ _)).
  - rewrite utf8_decode_2 by lia. by replace (q1 * 64 + r1)%N with c by lia.
  - assert (c = q2 * 4096 + r2 * 64 + r1)%N as Ec by lia.
    rewrite utf8_decode_3; rewrite <-?Ec; done || lia.
  - assert (c = q3 * 262144 + r3 * 4096 + r2 * 64 + r1)%N as Ec by lia.
    rewrite utf8_decode_4; rewrite <-?Ec; done || lia.
Qed.

Lemma utf8_decode_encode s bs : Forall code_point s → utf8 s = Some bs → utf8_decode bs = Some s.
Proof.
  unfold utf8, encodable. intros Hs. destruct (forallb _ s) eqn:E; [|done]. intros [= <-].
  induction Hs as [|c s Hc _ IH]; [done|]. simpl in E. apply andb_true_iff in E as [E1%negb_true_iff E2].
  rewrite bind_cons, utf8_decode_char, IH by done. done.
Qed.

(** ** Strings *)

Lemma hex_value_digit n : (n < 16)%N → hex_value (hex_digit n) = Some n.
Proof.
  intros Hn. unfold hex_value, hex_digit, is_digit, in_range.
  destruct (N.ltb_spec n 10); decide_N; f_equal; lia.
Qed.

Lemma scan_json_char c s :
  scan_string (json_char c ++ s) = ('(t, r) ← scan_string s; Some (c :: t, r)).
Proof.
  unfold json_char.
  repeat match goal with
  | |- context [(c =? ?n)%N] => destruct (N.eqb_spec c n) as [->|?]; [reflexivity|]
  end.
  destruct (N.ltb_spec c 32) as [Hc|Hc]; cbn [app].
  - assert (hex4 48 48 (hex_digit (c / 16)) (hex_digit (c mod 16)) = Some c) as Hh.
    { unfold hex4. rewrite !hex_value_digit.
      - simpl. f_equal. pose proof (N.div_mod c 16 ltac:(lia)). lia.
      - apply N.Div0.div_lt_upper_bound. lia.
      - apply N.mod_lt. lia. }
    cbn [scan_string]. cbn [N.eqb Pos.eqb]. rewrite Hh. unfold is_high, in_range.
    decide_N; done.
  - cbn [scan_string]. rewrite (proj2 (N.eqb_neq c 34)), (proj2 (N.eqb_neq c 92)) by done.
    by rewrite (proj2 (N.ltb_ge c 32)).
Qed.

Lemma scan_json_str s r : scan_string ((s ≫= json_char) ++ 34%N :: r) = Some (s, r).
Proof. induction s as [|c s IH]; [done|]. by rewrite bind_cons, <-app_assoc, scan_json_char, IH. Qed.

(** ** Whole numbers *)

Definition all_digits (s : pystr) : Prop := Forall (λ c, is_digit c = true) s.

Lemma digit_digit n : (n < 10)%N → is_digit (digit n) = true ∧ Z.of_N (digit n - 48) = Z.of_N n.
Proof. intros Hn. unfold is_digit, in_range, digit. split; [by decide_N|]. f_equal. lia. Qed.

Lemma digits_value_snoc ds c : digits_value (ds ++ [c]) = (10 * digits_value ds + Z.of_N (c - 48))%Z.
Proof. unfold digits_value. by rewrite foldl_app. Qed.

(** What [decimal n] is: digits of value [n] without a leading zero. *)
Record digits_of (n : N) (ds : pystr) : Prop := {
  do_digits : all_digits ds;
  do_value : digits_value ds = Z.of_N n;
  do_head : ∀ ds', ds = 48%N :: ds' → ds' = [] ∧ n = 0%N;
  do_nonempty : ds ≠ [];
}.

Lemma digits_of_small n : (n < 10)%N → digits_of n [digit n].
Proof.
  intros Hn. destruct (digit_digit n Hn) as [Hd Hv]. split.
  - by constructor.
  - unfold digits_value. simpl. lia.
  - intros ds' [= Hz <-]. split; [done|]. unfold digit in Hz. lia.
  - done.
Qed.

Lemma digits_of_snoc n ds : (10 ≤ n)%N → digits_of (n / 10) ds → digits_of n (ds ++ [digit (n mod 10)]).
Proof.
  intros Hn [Hd Hv Hh Hne]. assert (Hm := N.mod_lt n 10 ltac:(lia)).
  destruct (digit_digit _ Hm) as [Hd' Hv']. assert (E := N.div_mod n 10 ltac:(lia)). split.
  - apply Forall_app. split; [done|by constructor].
  - rewrite digits_value_snoc, Hv, Hv'. lia.
  - intros ds' Heq. destruct ds as [|c ds]; [done|]. injection Heq as -> _.
    destruct (Hh ds eq_refl) as [-> Hz]. exfalso.
    assert (1 ≤ n / 10)%N by (apply N.div_le_lower_bound; lia). lia.
  - intros H%app_nil. naive_solver.
Qed.

Lemma decimal_loop_spec fuel n acc :
  (n < 2 ^ N.of_nat fuel)%N → ∃ ds, decimal_loop (S fuel) n acc = ds ++ acc ∧ digits_of n ds.
Proof.
  revert n acc. induction fuel as [|fuel IH]; intros n acc Hn.
  - change (2 ^ N.of_nat 0)%N with 1%N in Hn. assert (n = 0)%N as -> by lia.
    exists [digit 0]. split; [done|]. by apply digits_of_small.
  - remember (S fuel) as fuel'. cbn [decimal_loop]. subst fuel'. destruct (N.ltb_spec n 10).
    + exists [digit n]. rewrite N.mod_small by done. split; [done|]. by apply digits_of_small.
    + destruct (IH (n / 10)%N (digit (n mod 10) :: acc)) as (ds & -> & Hds).
      * rewrite Nat2N.inj_succ, N.pow_succ_r' in Hn. apply N.Div0.div_lt_upper_bound. lia.
      * exists (ds ++ [digit (n mod 10)]). split; [by rewrite <-app_assoc|]. by apply digits_of_snoc.
Qed.

Lemma decimal_digits n : digits_of n (decimal n).
Proof.
  unfold decimal. destruct (decimal_loop_spec (N.to_nat (N.size n)) n []) as (ds & -> & Hds).
  - rewrite N2Nat.id. apply N.size_gt.
  - by rewrite app_nil_r.
Qed.

(** A text that ends a number. *)
Definition ends_number (r : pystr) : Prop :=
  match r with [] => True | c :: _ => c ∈ [10; 44; 93; 125]%N end.

Lemma ends_number_head c r : ends_number (c :: r) → is_digit c = false ∧ c ≠ 46%N ∧ c ≠ 101%N ∧ c ≠ 69%N.
Proof.
  simpl. intros H. rewrite !elem_of_cons, elem_of_nil in H.
  destruct H as [->|[->|[->|[->|[]]]]]; split_and!; done.
Qed.

Lemma span_digits_app ds r :
  all_digits ds → (match r with c :: _ => is_digit c = false | [] => True end) →
  span_digits (ds ++ r) = (ds, r).
Proof.
  intros Hd Hr. induction Hd as [|c ds Hc _ IH]; simpl.
  - destruct r as [|c r]; simpl; [done|]. by rewrite Hr.
  - by rewrite Hc, IH.
Qed.

Lemma not_digit_rest r : ends_number r → match r with c :: _ => is_digit c = false | [] => True end.
Proof. destruct r as [|c r]; [done|]. by intros []%ends_number_head. Qed.

Lemma scan_natural_app n ds r :
  digits_of n ds → (match r with c :: _ => is_digit c = false | [] => True end) →
  scan_natural (ds ++ r) = Some (ds, r).
Proof.
  intros [Hd Hv Hh Hne] Hr. destruct ds as [|c ds]; [done|].
  destruct (N.eq_dec c 48) as [->|Hc].
  - by destruct (Hh ds eq_refl) as [-> _].
  - apply Forall_cons in Hd as Hd'. destruct Hd' as [Hc' _].
    assert (scan_natural ((c :: ds) ++ r) = Some (span_digits ((c :: ds) ++ r))) as ->.
    { cbn [app scan_natural]. rewrite Hc'. destruct c as [|p]; [done|]. repeat (destruct p as [p|p|]; try done). }
    by rewrite span_digits_app.
Qed.

Lemma scan_fraction_ends r : ends_number r → scan_fraction r = (None, r).
Proof.
  destruct r as [|c r]; [done|]. intros (_ & H & _)%ends_number_head. unfold scan_fraction.
  destruct c as [|p]; [done|]. repeat (destruct p as [p|p|]; try done).
Qed.

Lemma scan_exponent_ends r : ends_number r → scan_exponent r = (None, r).
Proof.
  destruct r as [|c r]; [done|]. intros (_ & _ & H1 & H2)%ends_number_head. unfold scan_exponent.
  by rewrite (proj2 (N.eqb_neq c 101)), (proj2 (N.eqb_neq c 69)).
Qed.

Lemma scan_int z t r : int_repr z = Some t → ends_number r → scan_number (t ++ r) = Some (VInt z, r).
Proof.
  unfold int_repr. intros Ht Hr. set (n := Z.to_N (Z.abs z)) in *.
  assert (Hd := decimal_digits n). destruct (Nat.ltb_spec 4300 (length (decimal n))) as [|Hl]; [done|].
  assert (Hnat : ∀ neg : bool, scan_number (if neg then 45%N :: decimal n ++ r else decimal n ++ r) =
    Some (VInt (if neg then - Z.of_N n else Z.of_N n)%Z, r)).
  { intros neg. assert (scan_number (if neg then 45%N :: decimal n ++ r else decimal n ++ r) =
      ('(whole, s2) ← scan_natural (decimal n ++ r);
       let '(fraction, s3) := scan_fraction s2 in
       let '(exponent, s4) := scan_exponent s3 in
       v ← number_value neg whole fraction exponent; Some (v, s4))) as ->.
    { unfold scan_number. destruct neg; [done|]. destruct (decimal n ++ r) as [|c s] eqn:E; [done|].
      assert (is_digit c = true) as Hc.
      { destruct Hd as [Hd _ _ Hne]. destruct (decimal n) as [|d ds]; [done|]. injection E as <- _.
        by apply Forall_cons in Hd as [? _]. }
      destruct c as [|p]; [done|]. repeat (destruct p as [p|p|]; try done). }
    rewrite (scan_natural_app n) by (done || by apply not_digit_rest). cbn [mbind option_bind].
    rewrite scan_fraction_ends, scan_exponent_ends by done. unfold number_value.
    destruct (Nat.ltb_spec 4300 (length (decimal n))); [lia|]. cbn [mbind option_bind].
    by rewrite (do_value _ _ Hd). }
  destruct (Z.ltb_spec z 0) as [Hz|Hz]; injection Ht as <-.
  - etrans; [exact (Hnat true)|]. do 3 f_equal. lia.
  - etrans; [exact (Hnat false)|]. do 3 f_equal. lia.
Qed.

(** ** Values *)

(** The items of objects in key order. *)
Fixpoint canon (v : pyval) : pyval :=
  match v with
  | VList l => VList (canon <$> l)
  | VDict d =>
      VDict ((λ p, (KStr p.1, p.2)) <$>
             merge_sort item_le ((λ kv, (key_str kv.1, canon kv.2)) <$> d))
  | _ => v
  end.

Definition number_start (s : pystr) : bool :=
  match s with
  | c :: s' => if (c =? 45)%N then match s' with d :: _ => is_digit d | [] => false end else is_digit c
  | [] => false
  end.

(** The text of a double is read back as that double. *)
Definition reads_back (f : spec_float) : Prop :=
  number_start (float_repr f) = true ∧
  ∀ r, ends_number r → scan_number (float_repr f ++ r) = Some (VFloat f, r).

(** JSON values with distinct text keys whose doubles read back. *)
#[warnings="-register-all"]
Inductive printable : pyval → Prop :=
| pr_none : printable VNone
| pr_bool b : printable (VBool b)
| pr_int z : printable (VInt z)
| pr_float f : reads_back f → printable (VFloat f)
| pr_str s : Forall code_point s → printable (VStr s)
| pr_list l : Forall printable l → printable (VList l)
| pr_dict d :
    NoDup (keys d) → Forall (λ kv, (∃ k, kv.1 = KStr k ∧ Forall code_point k) ∧ printable kv.2) d →
    printable (VDict d).

(** [t] is a text of [v]: wherever a value is expected it is read as [v]. *)
Record scans (t : pystr) (v : pyval) : Prop := {
  sc_head : match t with c :: _ => is_ws c = false ∧ c ≠ 93%N | [] => False end;
  sc_scan : ∀ fuel r, length t ≤ fuel → ends_number r → scan_value fuel (t ++ r) = Some (v, r);
}.

Lemma digit_cases c : is_digit c = true → c ∈ [48; 49; 50; 51; 52; 53; 54; 55; 56; 57]%N.
Proof.
  unfold is_digit, in_range. rewrite andb_true_iff, !N.leb_le, !elem_of_cons. lia.
Qed.

Lemma scan_number_value fuel s : number_start s = true → scan_value (S fuel) s = scan_number s.
Proof.
  destruct s as [|c s]; [done|]. simpl number_start. destruct (N.eqb_spec c 45) as [->|_].
  - destruct s as [|d s]; [done|]. intros Hd%digit_cases. rewrite !elem_of_cons, elem_of_nil in Hd.
    repeat destruct Hd as [->|Hd]; [reflexivity..|done].
  - intros Hd%digit_cases. rewrite !elem_of_cons, elem_of_nil in Hd.
    repeat destruct Hd as [->|Hd]; [reflexivity..|done].
Qed.

Lemma number_start_app s r : number_start s = true → number_start (s ++ r) = true.
Proof. destruct s as [|c [|d s]]; [done| |done]. simpl. case_match; [done|]. by destruct r. Qed.

Lemma number_scans t v :
  number_start t = true → (∀ r, ends_number r → scan_number (t ++ r) = Some (v, r)) → scans t v.
Proof.
  intros Hs Hn. split.
  - destruct t as [|c t]; [done|]. simpl in Hs. destruct (N.eqb_spec c 45) as [->|_]; [done|].
    apply digit_cases in Hs. rewrite !elem_of_cons, elem_of_nil in Hs.
    repeat destruct Hs as [->|Hs]; done.
  - intros fuel r Hf Hr. destruct t as [|c t]; [done|]. destruct fuel as [|fuel]; [simpl in Hf; lia|].
    rewrite scan_number_value; [by apply Hn|]. by apply number_start_app.
Qed.

Lemma int_scans z t : int_repr z = Some t → scans t (VInt z).
Proof.
  intros Ht. apply number_scans; [|intros r; by apply scan_int]. unfold int_repr in Ht.
  destruct (decimal_digits (Z.to_N (Z.abs z))) as [Hd _ _ Hne]. case_match; [done|].
  destruct (decimal (Z.to_N (Z.abs z))) as [|c ds]; [done|]. apply Forall_cons in Hd as [Hc _].
  case_match; injection Ht as <-.
  - change (u "-" ++ c :: ds) with (45%N :: c :: ds). done.
  - simpl. destruct (N.eqb_spec c 45) as [->|_]; [done|done].
Qed.

Lemma literal_scans t v :
  (t, v) ∈ [(u "null", VNone); (u "true", VBool true); (u "false", VBool false)] → scans t v.
Proof.
  intros H. rewrite !elem_of_cons, elem_of_nil in H.
  repeat destruct H as [[= -> ->]|H]; try done; (split; [done|]); intros [|fuel] r Hf _;
    try (exfalso; vm_compute in Hf; lia); reflexivity.
Qed.

Lemma str_scans s : scans (json_str s) (VStr s).
Proof.
  split; [done|]. intros [|fuel] r Hf _; [simpl in Hf; lia|]. unfold json_str. cbn [app].
  rewrite <-app_assoc. cbn [app scan_value]. by rewrite scan_json_str.
Qed.

Lemma skip_ws_head t r : (match t with c :: _ => is_ws c = false ∧ c ≠ 93%N | [] => False end) →
  skip_ws (t ++ r) = t ++ r.
Proof. destruct t as [|c t]; [done|]. intros [H _]. simpl. by rewrite H. Qed.

Lemma join_cons sep x y l : join sep (x :: y :: l) = x ++ sep ++ join sep (y :: l).
Proof. done. Qed.

Lemma scan_items_join ts vs fuel r :
  Forall2 scans ts vs → ts ≠ [] → length (join (u ",") ts) < fuel →
  scan_items fuel (join (u ",") ts ++ 93%N :: r) = Some (vs, r).
Proof.
  intros H. revert fuel. induction H as [|t v ts vs [Hh Hs] Hrest IH]; intros fuel Hne Hf; [done|].
  destruct fuel as [|fuel]; [lia|]. destruct ts as [|t' ts].
  - apply Forall2_nil_inv_l in Hrest as ->. cbn [join] in *. cbn [scan_items].
    by rewrite Hs; [|lia|simpl; set_solver].
  - rewrite join_cons in *. rewrite !length_app in Hf. rewrite <-!app_assoc. cbn [scan_items].
    change (u "," ++ join (u ",") (t' :: ts) ++ 93%N :: r) with (44%N :: join (u ",") (t' :: ts) ++ 93%N :: r).
    rewrite Hs; [|lia|simpl; set_solver]. cbn [mbind option_bind]. cbn [skip_ws is_ws].
    change (is_ws 44) with false. cbn iota.
    assert (skip_ws (join (u ",") (t' :: ts) ++ 93%N :: r) = join (u ",") (t' :: ts) ++ 93%N :: r) as ->.
    { apply Forall2_cons_inv_l in Hrest as (v' & vs' & [Hh' _] & _ & _). destruct ts; [by apply skip_ws_head|].
      rewrite join_cons, <-app_assoc. by apply skip_ws_head. }
    rewrite IH; [done|done|]. change (length (u ",")) with 1 in Hf. lia.
Qed.

Definition text_item (p : pystr * pyval) : pykey * pyval := (KStr p.1, p.2).

(** One member: its key, the colon and its value. *)
Lemma scan_member fuel d k t v s :
  scans t v → length t ≤ fuel → ends_number s →
  scan_members (S fuel) d (dump_item (k, t) ++ s) =
  match skip_ws s with
  | 44%N :: r => scan_members fuel (dict_set d (KStr k) v) (skip_ws r)
  | 125%N :: r => Some (dict_set d (KStr k) v, r)
  | _ => None
  end.
Proof.
  intros [Hh Hs] Hf Hr. unfold dump_item, json_str. cbn [fst snd app].
  rewrite <-!app_assoc. cbn [app scan_members]. rewrite scan_json_str. cbn [mbind option_bind].
  change (u ":" ++ t ++ s) with (58%N :: t ++ s). cbn [skip_ws]. change (is_ws 58) with false. cbn iota.
  rewrite skip_ws_head by done. by rewrite Hs.
Qed.

Lemma dump_item_length k t : length t < length (dump_item (k, t)).
Proof. unfold dump_item. rewrite !length_app. change (length (u ":")) with 1. simpl. lia. Qed.

Lemma scan_members_join its vs d fuel r :
  Forall2 (λ p q, p.1 = q.1 ∧ scans p.2 q.2) its vs → its ≠ [] →
  NoDup (keys d ++ (KStr <$> vs.*1)) → length (join (u ",") (dump_item <$> its)) < fuel →
  scan_members fuel d (join (u ",") (dump_item <$> its) ++ 125%N :: r) =
  Some (d ++ (text_item <$> vs), r).
Proof.
  intros H. revert d fuel. induction H as [|[k t] [k' v] its vs [Hk Hs] Hrest IH]; intros d fuel Hne Hnd Hf; [done|].
  simpl in Hk, Hs. subst k'. destruct fuel as [|fuel]; [lia|].
  assert (Hfresh : dict_set d (KStr k) v = d ++ [(KStr k, v)]).
  { apply dict_set_new. rewrite NoDup_app in Hnd. destruct Hnd as (_ & Hd & _). intros Hin.
    apply (Hd _ Hin). left. }
  assert (Hlen := dump_item_length k t). destruct its as [|[k2 t2] its].
  - apply Forall2_nil_inv_l in Hrest as ->. cbn [fmap list_fmap join] in *.
    rewrite (scan_member _ _ _ _ v) by (done || lia || (simpl; set_solver)). cbn [skip_ws].
    change (is_ws 125) with false. cbn iota. by rewrite Hfresh.
  - rewrite !fmap_cons, join_cons in *. rewrite !length_app in Hf. rewrite <-!app_assoc.
    change (u "," ++ join (u ",") (dump_item (k2, t2) :: (dump_item <$> its)) ++ 125%N :: r)
      with (44%N :: join (u ",") (dump_item (k2, t2) :: (dump_item <$> its)) ++ 125%N :: r).
    rewrite (scan_member _ _ _ _ v) by (done || lia || (simpl; set_solver)). cbn [skip_ws].
    change (is_ws 44) with false. cbn iota. rewrite Hfresh.
    assert (skip_ws (join (u ",") (dump_item (k2, t2) :: (dump_item <$> its)) ++ 125%N :: r) =
            join (u ",") (dump_item (k2, t2) :: (dump_item <$> its)) ++ 125%N :: r) as ->.
    { by destruct its. }
    change (length (u ",")) with 1 in Hf. rewrite IH; [|done| |lia].
    + by rewrite <-app_assoc.
    + unfold keys. rewrite fmap_app, <-app_assoc. exact Hnd.
Qed.

(** *** Sorting by key *)

Lemma merge_sort_fmap {A B} (g : pystr * A → pystr * B) l :
  (∀ p, (g p).1 = p.1) → NoDup l.*1 → merge_sort item_le (g <$> l) = g <$> merge_sort item_le l.
Proof.
  intros Hg Hnd. assert (∀ l, (g <$> l).*1 = l.*1) as Hk.
  { intros l'. rewrite <-list_fmap_compose. apply list_fmap_ext. intros i p _. apply Hg. }
  apply sorted_items_unique.
  - rewrite merge_sort_Permutation, Hk. done.
  - by rewrite !merge_sort_Permutation.
  - apply StronglySorted_merge_sort; apply _.
  - eapply sorted_keys; [symmetry; apply Hk|]. apply StronglySorted_merge_sort; apply _.
Qed.

#[export] Instance KStr_inj : Inj eq eq KStr.
Proof. by intros s t [= ->]. Qed.

#[export] Instance key_le_trans : Transitive key_le.
Proof. intros x y z. apply str_leb_trans. Qed.
#[export] Instance key_le_total : Total key_le.
Proof. intros x y. apply str_leb_total. Qed.

Lemma merge_sort_key_le (l : list (pystr * pystr)) :
  NoDup l.*1 → merge_sort key_le l = merge_sort item_le l.
Proof.
  intros Hnd. apply sorted_items_unique.
  - by rewrite merge_sort_Permutation.
  - by rewrite !merge_sort_Permutation.
  - apply (StronglySorted_merge_sort key_le); apply _.
  - apply StronglySorted_merge_sort; apply _.
Qed.

(** *** The canonical encoding is read back *)

Lemma scan_list_open fuel s :
  (match skip_ws s with c :: _ => c ≠ 93%N | [] => True end) →
  scan_value (S fuel) (91%N :: s) = ('(l, r) ← scan_items fuel (skip_ws s); Some (VList l, r)).
Proof.
  cbn [scan_value]. destruct (skip_ws s) as [|c s']; [done|]. intros Hc.
  destruct c as [|p]; [done|]. repeat (destruct p as [p|p|]; try done).
Qed.

Lemma scan_dict_open fuel s :
  scan_value (S fuel) (123%N :: 34%N :: s) = ('(d, r) ← scan_members fuel [] (34%N :: s); Some (VDict d, r)).
Proof. done. Qed.

Lemma dump_list_Forall2 l ts : dump_list l = Some ts ↔ Forall2 (λ x t, dumps x = Some t) l ts.
Proof.
  revert ts. induction l as [|x l IH]; intros ts; simpl.
  - split; [intros [= <-]; constructor|]. by intros ->%Forall2_nil_inv_l.
  - fold (dump_list l). split.
    + destruct (dumps x) eqn:E; [|done]. simpl. destruct (dump_list l) eqn:El; [|done]. intros [= <-].
      constructor; [done|]. by apply IH.
    + intros (t & ts' & Ht & Hts & ->)%Forall2_cons_inv_l. rewrite Ht. simpl. by rewrite (proj2 (IH ts') Hts).
Qed.

(** An item of an object by its key's text. *)
Definition by_text (kv : pykey * pyval) : pystr * pyval := (key_str kv.1, kv.2).
Definition text_of_item (p : pystr * pyval) : pystr * pystr := (p.1, default [] (dumps p.2)).
Definition canon_item (p : pystr * pyval) : pystr * pyval := (p.1, canon p.2).

Lemma dump_dict_items d its :
  dump_dict d = Some its →
  its = text_of_item <$> (by_text <$> d) ∧ Forall (λ kv, is_Some (dumps kv.2)) d.
Proof.
  revert its. induction d as [|[k x] d IH]; intros its; simpl.
  - intros [= <-]. split; [done|constructor].
  - fold (dump_dict d). destruct (dumps x) eqn:E; [|done]. simpl. destruct (dump_dict d) eqn:Ed; [|done].
    intros [= <-]. destruct (IH _ eq_refl) as [-> HF]. split.
    + unfold by_text, text_of_item. simpl. by rewrite E.
    + constructor; [simpl; by rewrite E|done].
Qed.

Lemma list_scans l ts :
  Forall2 scans ts (canon <$> l) → scans (u "[" ++ join (u ",") ts ++ u "]") (canon (VList l)).
Proof.
  intros H. split; [done|]. intros [|fuel] r Hf _; [simpl in Hf; lia|].
  change ((u "[" ++ join (u ",") ts ++ u "]") ++ r) with (91%N :: (join (u ",") ts ++ u "]") ++ r).
  rewrite <-app_assoc. change (u "]" ++ r) with (93%N :: r).
  destruct ts as [|t ts].
  - apply Forall2_nil_inv_l in H. apply fmap_nil_inv in H as ->. done.
  - assert (Hh := H). apply Forall2_cons_inv_l in Hh as (v & vs & [Hh _] & _ & _).
    assert (Hskip : skip_ws (join (u ",") (t :: ts) ++ 93%N :: r) = join (u ",") (t :: ts) ++ 93%N :: r).
    { destruct ts; [by apply skip_ws_head|]. rewrite join_cons, <-app_assoc. by apply skip_ws_head. }
    rewrite scan_list_open; rewrite Hskip.
    + rewrite (scan_items_join (t :: ts) (canon <$> l)); [done|done|done|].
      rewrite !length_app in Hf. change (length (u "[")) with 1 in Hf. change (length (u "]")) with 1 in Hf. lia.
    + destruct t as [|c t]; [done|]. destruct Hh as [_ Hc]. by destruct ts.
Qed.

Lemma dict_scans d its :
  NoDup (by_text <$> d).*1 → Forall (λ kv, scans (default [] (dumps kv.2)) (canon kv.2)) d →
  its = text_of_item <$> (by_text <$> d) →
  scans (u "{" ++ join (u ",") (dump_item <$> merge_sort key_le its) ++ u "}") (canon (VDict d)).
Proof.
  intros Hnd Hs ->. set (l := by_text <$> d) in *. set (S := merge_sort item_le l).
  assert (HS : S ≡ₚ l) by apply merge_sort_Permutation.
  assert (Hkeys : (text_of_item <$> l).*1 = l.*1) by (rewrite <-list_fmap_compose; done).
  rewrite merge_sort_key_le by (by rewrite Hkeys). rewrite merge_sort_fmap by done. fold S.
  assert (Hcanon : canon (VDict d) = VDict (text_item <$> (canon_item <$> S))).
  { simpl. unfold S. rewrite <-(merge_sort_fmap canon_item) by done. unfold l. by rewrite <-list_fmap_compose. }
  assert (HF : Forall2 (λ p q, p.1 = q.1 ∧ scans p.2 q.2) (text_of_item <$> S) (canon_item <$> S)).
  { apply Forall2_fmap_2, Forall_Forall2_diag, Forall_forall. intros p Hp. split; [done|].
    rewrite HS in Hp. apply list_elem_of_fmap in Hp as (kv & -> & Hin). rewrite Forall_forall in Hs. by apply Hs. }
  rewrite Hcanon. split; [done|]. intros [|fuel] r Hf _; [simpl in Hf; lia|].
  rewrite !length_app in Hf. rewrite <-!app_assoc. change (u "}" ++ r) with (125%N :: r).
  change (u "{" ++ ?x) with (123%N :: x). destruct S as [|[k v] S'] eqn:ES; [done|].
  assert (∃ s, join (u ",") (dump_item <$> (text_of_item <$> (k, v) :: S')) ++ 125%N :: r = 34%N :: s) as [s Hjoin].
  { rewrite !fmap_cons. destruct (dump_item <$> (text_of_item <$> S')) as [|y ys].
    - eexists. reflexivity.
    - rewrite join_cons. eexists. reflexivity. }
  change (scan_value (Datatypes.S fuel) (123%N :: join (u ",") (dump_item <$> (text_of_item <$> (k, v) :: S')) ++ 125%N :: r) =
    Some (VDict (text_item <$> (canon_item <$> (k, v) :: S')), r)).
  rewrite Hjoin, scan_dict_open, <-Hjoin.
  rewrite (scan_members_join _ (canon_item <$> (k, v) :: S')); [done|done|done| |].
  - rewrite app_nil_l. apply (NoDup_fmap_2 KStr).
    assert ((canon_item <$> (k, v) :: S').*1 = ((k, v) :: S').*1) as -> by (by rewrite <-list_fmap_compose).
    by rewrite HS.
  - change (length (u "{")) with 1 in Hf. change (length (u "}")) with 1 in Hf. lia.
Qed.

Lemma ends_number_nil : ends_number [].
Proof. done. Qed.

Lemma by_text_keys d :
  Forall (λ kv : pykey * pyval, ∃ k, kv.1 = KStr k) d → keys d = KStr <$> (by_text <$> d).*1.
Proof.
  induction 1 as [|[k v] d [s Hs] _ IH]; [done|]. simpl in Hs. subst k.
  change (KStr s :: keys d = KStr s :: (KStr <$> (by_text <$> d).*1)). by rewrite IH.
Qed.

(** The encoding of a printable value reads back as its canonical form. *)
Lemma dumps_scans v : printable v → ∀ t, dumps v = Some t → scans t (canon v).
Proof.
  revert v. fix IH 2. intros v [ |b|z|f Hf|s _|l Hl|d Hnd Hd] t Ht.
  - apply literal_scans. simpl in Ht. simplify_eq. set_solver.
  - apply literal_scans. simpl in Ht. simplify_eq. destruct b; set_solver.
  - by apply int_scans.
  - simpl in Ht. case_match; simplify_eq. apply number_scans; apply Hf.
  - simpl in Ht. simplify_eq. apply str_scans.
  - simpl in Ht. fold (dump_list l) in Ht. destruct (dump_list l) as [ts|] eqn:El; [|done]. simpl in Ht.
    simplify_eq. apply list_scans. apply dump_list_Forall2 in El. clear -IH Hl El. revert ts El.
    induction Hl as [|x l Hx _ IHl]; intros ts El.
    + apply Forall2_nil_inv_l in El as ->. constructor.
    + apply Forall2_cons_inv_l in El as (t & ts' & Ht & Hts & ->). constructor; [by apply (IH x Hx)|by apply IHl].
  - simpl in Ht. fold (dump_dict d) in Ht. destruct (dump_dict d) as [its|] eqn:Ed; [|done]. simpl in Ht.
    simplify_eq. apply dump_dict_items in Ed as [-> Hsome].
    refine (dict_scans d _ _ _ eq_refl).
    + apply (NoDup_fmap_1 KStr). rewrite <-by_text_keys; [done|].
      clear -Hd. induction Hd as [|? ? [(k & Hk & _) _]]; constructor; eauto.
    + clear -IH Hd Hsome. induction Hd as [|kv d [_ Hx] _ IHd]; [constructor|].
      apply Forall_cons in Hsome as [[t Ht] Hsome]. constructor; [|by apply IHd].
      rewrite Ht. by apply (IH _ Hx).
Qed.

Lemma loads_dumps v t : printable v → dumps v = Some t → loads t = Some (canon v).
Proof.
  intros Hv Ht. destruct (dumps_scans v Hv t Ht) as [Hh Hs]. unfold loads.
  assert (skip_ws t = t) as -> by (rewrite <-(app_nil_r t); by apply skip_ws_head).
  rewrite <-(app_nil_r t) at 2. rewrite Hs; [done|lia|done].
Qed.

(** *** The text is made of code points *)

Definition code_points (s : pystr) : Prop := Forall code_point s.

Lemma code_points_app s t : code_points (s ++ t) ↔ code_points s ∧ code_points t.
Proof. apply Forall_app. Qed.

Lemma code_points_u s : code_points (u s).
Proof.
  unfold code_points, u. apply Forall_fmap, Forall_forall. intros c _. unfold code_point, compose.
  assert (H := Ascii.N_ascii_bounded c). lia.
Qed.

Lemma code_points_ascii s : Forall (λ c, (c < 128)%N) s → code_points s.
Proof. intros H. eapply Forall_impl; [exact H|]. unfold code_point. simpl. lia. Qed.

Lemma code_points_json_char c : code_point c → code_points (json_char c).
Proof.
  intros Hc. unfold json_char. repeat case_match; try (repeat constructor; unfold code_point in *; lia).
  match goal with H : (_ <? 32)%N = true |- _ => apply N.ltb_lt in H end.
  assert (c / 16 < 16)%N as Hhi%hex_digit_ascii by (apply N.Div0.div_lt_upper_bound; lia).
  assert (c mod 16 < 16)%N as Hlo%hex_digit_ascii by (by apply N.mod_lt).
  repeat constructor; unfold code_point; lia.
Qed.

Lemma code_points_json_str s : code_points s → code_points (json_str s).
Proof.
  intros Hs. unfold json_str. rewrite !code_points_app. split_and!; [by repeat constructor| |by repeat constructor].
  induction Hs as [|c s Hc _ IH]; [constructor|]. simpl. apply code_points_app.
  split; [by apply code_points_json_char|done].
Qed.

Lemma code_points_join l : Forall code_points l → code_points (join (u ",") l).
Proof.
  induction 1 as [|x l Hx Hl IH]; [constructor|]. destruct l as [|y l]; [done|].
  rewrite join_cons, !code_points_app. split_and!; [done|apply code_points_u|done].
Qed.

Lemma int_repr_ascii z t : int_repr z = Some t → Forall (λ c, (c < 128)%N) t.
Proof.
  unfold int_repr. intros H. case_match; simplify_eq.
  assert (Hd := decimal_ascii (Z.to_N (Z.abs z))). case_match; [by constructor|done].
Qed.

Lemma strip_zeros_Forall (P : N → Prop) s : Forall P s → Forall P (strip_zeros s).
Proof.
  induction 1 as [|c s Hc _ IH]; simpl; [constructor|].
  destruct (strip_zeros s); [case_match; [constructor|by repeat constructor]|by constructor].
Qed.

Lemma format_repr_ascii ds k : Forall (λ c, (c < 128)%N) ds → Forall (λ c, (c < 128)%N) (format_repr ds k).
Proof.
  intros Hd. assert (∀ n, Forall (λ c, (c < 128)%N) (replicate n 48%N)) as Hr
    by (intros n; by apply Forall_replicate).
  assert (Hx := decimal_ascii (Z.to_N (Z.abs (k - 1)))). unfold format_repr.
  repeat case_match; repeat (apply Forall_app; split);
    first [done|by apply Forall_take|by apply Forall_drop|by repeat constructor].
Qed.

Lemma float_repr_ascii f : Forall (λ c, (c < 128)%N) (float_repr f).
Proof.
  destruct f as [[]|[]| |s m e]; [by repeat constructor..|]. simpl. case_match.
  apply Forall_app. split; [destruct s; by repeat constructor|].
  apply format_repr_ascii, strip_zeros_Forall, decimal_ascii.
Qed.

Lemma code_points_dumps v : printable v → ∀ t, dumps v = Some t → code_points t.
Proof.
  revert v. fix IH 2. intros v [ |b|z|f Hf|s Hs|l Hl|d Hnd Hd] t Ht.
  - simpl in Ht. simplify_eq. apply code_points_u.
  - simpl in Ht. simplify_eq. destruct b; apply code_points_u.
  - by eapply code_points_ascii, int_repr_ascii.
  - simpl in Ht. case_match; simplify_eq. apply code_points_ascii, float_repr_ascii.
  - simpl in Ht. simplify_eq. by apply code_points_json_str.
  - simpl in Ht. fold (dump_list l) in Ht. destruct (dump_list l) as [ts|] eqn:El; [|done]. simpl in Ht.
    injection Ht as <-. change (code_points (u "[" ++ join (u ",") ts ++ u "]")).
    rewrite !code_points_app. split_and!; [apply code_points_u| |apply code_points_u].
    apply code_points_join. apply dump_list_Forall2 in El. clear -IH Hl El. revert ts El.
    induction Hl as [|x l Hx _ IHl]; intros ts El.
    + apply Forall2_nil_inv_l in El as ->. constructor.
    + apply Forall2_cons_inv_l in El as (t & ts' & Ht & Hts & ->). constructor; [by apply (IH x Hx)|by apply IHl].
  - simpl in Ht. fold (dump_dict d) in Ht. destruct (dump_dict d) as [its|] eqn:Ed; [|done]. simpl in Ht.
    injection Ht as <-.
    change (code_points (u "{" ++ join (u ",") (dump_item <$> merge_sort key_le its) ++ u "}")).
    rewrite !code_points_app. split_and!; [apply code_points_u| |apply code_points_u].
    apply code_points_join, Forall_fmap. rewrite merge_sort_Permutation.
    apply dump_dict_items in Ed as [-> Hsome]. rewrite !Forall_fmap.
    clear -IH Hd Hsome. induction Hd as [|[k x] d [(s & Hk & Hs) Hx] _ IHd]; [constructor|].
    apply Forall_cons in Hsome as [[t Ht] Hsome]. constructor; [|by apply IHd].
    simpl in Hk, Ht. subst k.
    change (code_points (json_str s ++ u ":" ++ default [] (dumps x))). rewrite Ht, !code_points_app.
    split_and!; [by apply code_points_json_str|apply code_points_u|by apply (IH _ Hx)].
Qed.

(** What was encoded is decoded. *)
Lemma decode_encoded v bs : printable v → encoded v = Some bs → decode_json bs = Some (canon v).
Proof.
  unfold encoded. intros Hv. destruct (dumps v) as [t|] eqn:Ht; [|done]. simpl. intros Hbs.
  unfold decode_json. rewrite (utf8_decode_encode t bs); [simpl; by apply loads_dumps| |done].
  by eapply code_points_dumps.
Qed.

(** *** Printable values *)

Lemma printable_list_inv l : printable (VList l) → Forall printable l.
Proof. by inversion 1. Qed.
Lemma printable_dict_inv d :
  printable (VDict d) →
  NoDup (keys d) ∧ Forall (λ kv, (∃ k, kv.1 = KStr k ∧ Forall code_point k) ∧ printable kv.2) d.
Proof. by inversion 1. Qed.

Lemma printable_key (name : string) (v : pyval) :
  printable v → (∃ k, (field name v).1 = KStr k ∧ Forall code_point k) ∧ printable (field name v).2.
Proof. intros Hv. split; [|done]. exists (u name). split; [done|]. apply code_points_u. Qed.

Lemma printable_u s : printable (VStr (u s)).
Proof. constructor. apply code_points_u. Qed.
