(* ===== verification/JsonDefault.v ===== *)
(** * Reading back the default encoding

    The text that [json.dumps] writes with its default separators is read back as the
    value itself: the items of objects keep their order. *)

From S2P Require Import Prelude PyVal Json JsonParse.

Section default_encoding.
Variable py_str : pyval → pystr.
Variable other_key : pykey → option pystr.

Abbreviation to_text := (dumps_default py_str other_key).

Definition default_list : list pyval → option (list pystr) :=
  fix go l :=
    match l with
    | [] => Some []
    | x :: l' => r ← to_text x; rs ← go l'; Some (r :: rs)
    end.

Definition default_item (k t : pystr) : pystr := json_str k ++ u ": " ++ t.

Definition default_dict : pydict → option (list pystr) :=
  fix go d :=
    match d with
    | [] => Some []
    | (k, x) :: d' =>
        ks ← key_text other_key k; r ← to_text x; rs ← go d'; Some (default_item ks r :: rs)
    end.

Lemma comma_space s : u ", " ++ s = 44%N :: 32%N :: s.
Proof. done. Qed.

Lemma skip_space s : skip_ws (32%N :: s) = skip_ws s.
Proof. done. Qed.

Lemma skip_join t ts r :
  (match t with c :: _ => is_ws c = false | [] => False end) →
  skip_ws (join (u ", ") (t :: ts) ++ r) = join (u ", ") (t :: ts) ++ r.
Proof.
  destruct t as [|c t]; [done|]. intros Hc. destruct ts as [|y ts]; [|rewrite join_cons]; simpl; by rewrite Hc.
Qed.

Lemma scan_items_default ts vs fuel r :
  Forall2 scans ts vs → ts ≠ [] → length (join (u ", ") ts) < fuel →
  scan_items fuel (join (u ", ") ts ++ 93%N :: r) = Some (vs, r).
Proof.
  intros HF. revert fuel. induction HF as [|t v ts vs [Hh Hs] Hrest IH]; intros fuel Hne Hf; [done|].
  destruct fuel as [|fuel]; [lia|]. destruct ts as [|t' ts].
  - apply Forall2_nil_inv_l in Hrest as ->. cbn [join] in *. cbn [scan_items].
    by rewrite Hs; [|lia|simpl; set_solver].
  - rewrite join_cons in *. rewrite !length_app in Hf. rewrite <-!app_assoc. cbn [scan_items]. rewrite comma_space.
    rewrite Hs; [|lia|simpl; set_solver]. cbn [mbind option_bind]. cbn [skip_ws is_ws].
    change (is_ws 44) with false. cbn iota. rewrite skip_space, skip_join.
    + rewrite IH; [done|done|]. change (length (u ", ")) with 2 in Hf. lia.
    + apply Forall2_cons_inv_l in Hrest as (v' & vs' & [Hh' _] & _ & _). destruct t'; [done|]. apply Hh'.
Qed.

(** One member: its key, the colon and its value. *)
Lemma scan_member_default fuel d k t v s :
  scans t v → length t ≤ fuel → ends_number s →
  scan_members (S fuel) d (default_item k t ++ s) =
  match skip_ws s with
  | 44%N :: r => scan_members fuel (dict_set d (KStr k) v) (skip_ws r)
  | 125%N :: r => Some (dict_set d (KStr k) v, r)
  | _ => None
  end.
Proof.
  intros [Hh Hs] Hf Hr. unfold default_item, json_str. cbn [app].
  rewrite <-!app_assoc. cbn [app scan_members]. rewrite scan_json_str. cbn [mbind option_bind].
  change (u ": " ++ t ++ s) with (58%N :: 32%N :: t ++ s). cbn [skip_ws]. change (is_ws 58) with false. cbn iota.
  rewrite skip_space, skip_ws_head by done. by rewrite Hs.
Qed.

Lemma default_item_length k t : length t < length (default_item k t).
Proof. unfold default_item. rewrite !length_app. change (length (u ": ")) with 2. lia. Qed.

Lemma scan_members_default its vs d fuel r :
  Forall2 (λ p q, p.1 = q.1 ∧ scans p.2 q.2) its vs → its ≠ [] →
  NoDup (keys d ++ (KStr <$> vs.*1)) → length (join (u ", ") (uncurry default_item <$> its)) < fuel →
  scan_members fuel d (join (u ", ") (uncurry default_item <$> its) ++ 125%N :: r) =
  Some (d ++ (text_item <$> vs), r).
Proof.
  intros HF. revert d fuel. induction HF as [|[k t] [k' v] its vs [Hk Hs] Hrest IH]; intros d fuel Hne Hnd Hf; [done|].
  simpl in Hk, Hs. subst k'. destruct fuel as [|fuel]; [lia|].
  assert (Hfresh : dict_set d (KStr k) v = d ++ [(KStr k, v)]).
  { apply dict_set_new. rewrite NoDup_app in Hnd. destruct Hnd as (_ & Hd & _). intros Hin.
    apply (Hd _ Hin). left. }
  assert (Hlen := default_item_length k t). destruct its as [|[k2 t2] its].
  - apply Forall2_nil_inv_l in Hrest as ->. cbn [fmap list_fmap join uncurry] in *.
    rewrite (scan_member_default _ _ _ _ v) by (done || lia || (simpl; set_solver)). cbn [skip_ws].
    change (is_ws 125) with false. cbn iota. by rewrite Hfresh.
  - rewrite !fmap_cons, join_cons in *. rewrite !length_app in Hf. rewrite <-!app_assoc, comma_space.
    cbn [uncurry] in *.
    rewrite (scan_member_default _ _ _ _ v) by (done || lia || (simpl; set_solver)). cbn [skip_ws].
    change (is_ws 44) with false. cbn iota. rewrite Hfresh, skip_space, skip_join by done.
    change (length (u ", ")) with 2 in Hf. rewrite IH; [|done| |lia].
    + by rewrite <-app_assoc.
    + unfold keys. rewrite fmap_app, <-app_assoc. exact Hnd.
Qed.

Lemma list_scans_default l ts : Forall2 scans ts l → scans (u "[" ++ join (u ", ") ts ++ u "]") (VList l).
Proof.
  intros HF. split; [done|]. intros [|fuel] r Hf _; [simpl in Hf; lia|].
  change ((u "[" ++ join (u ", ") ts ++ u "]") ++ r) with (91%N :: (join (u ", ") ts ++ u "]") ++ r).
  rewrite <-app_assoc. change (u "]" ++ r) with (93%N :: r).
  destruct ts as [|t ts]; [by apply Forall2_nil_inv_l in HF as ->|].
  assert (Hh := HF). apply Forall2_cons_inv_l in Hh as (v & vs & [Hh _] & _ & _).
  assert (Hskip : skip_ws (join (u ", ") (t :: ts) ++ 93%N :: r) = join (u ", ") (t :: ts) ++ 93%N :: r)
    by (apply skip_join; destruct t; [done|apply Hh]).
  rewrite scan_list_open; rewrite Hskip.
  - rewrite (scan_items_default (t :: ts) l); [done|done|done|].
    rewrite !length_app in Hf. change (length (u "[")) with 1 in Hf. change (length (u "]")) with 1 in Hf. lia.
  - destruct t as [|c t]; [done|]. destruct Hh as [_ Hc]. by destruct ts.
Qed.

Lemma dict_scans_default its vs :
  Forall2 (λ p q, p.1 = q.1 ∧ scans p.2 q.2) its vs → NoDup vs.*1 →
  scans (u "{" ++ join (u ", ") (uncurry default_item <$> its) ++ u "}") (VDict (text_item <$> vs)).
Proof.
  intros HF Hnd. split; [done|]. intros [|fuel] r Hf _; [simpl in Hf; lia|].
  rewrite !length_app in Hf. rewrite <-!app_assoc. change (u "}" ++ r) with (125%N :: r).
  change (u "{" ++ ?x) with (123%N :: x). destruct its as [|[k t] its].
  { by apply Forall2_nil_inv_l in HF as ->. }
  assert (∃ s, join (u ", ") (uncurry default_item <$> (k, t) :: its) ++ 125%N :: r = 34%N :: s) as [s Hjoin].
  { rewrite fmap_cons. destruct (uncurry default_item <$> its); [|rewrite join_cons]; eexists; reflexivity. }
  change (scan_value (Datatypes.S fuel) (123%N :: join (u ", ") (uncurry default_item <$> (k, t) :: its) ++ 125%N :: r) =
    Some (VDict (text_item <$> vs), r)).
  rewrite Hjoin, scan_dict_open, <-Hjoin. rewrite (scan_members_default _ vs); [done|done|done| |].
  - rewrite app_nil_l. by apply (NoDup_fmap_2 KStr).
  - change (length (u "{")) with 1 in Hf. change (length (u "}")) with 1 in Hf. lia.
Qed.

Lemma float_text_finite f : reads_back f → float_text f = float_repr f.
Proof. intros [Hn _]. destruct f as [|[]| |]; done. Qed.

(** The items of a printable object and their texts. *)
Lemma default_dict_items d ts :
  Forall (λ kv, (∃ k, kv.1 = KStr k ∧ Forall code_point k) ∧ printable kv.2) d →
  Forall (λ kv, ∀ t, to_text kv.2 = Some t → scans t kv.2) d → default_dict d = Some ts →
  ∃ its, ts = uncurry default_item <$> its ∧
    Forall2 (λ p q, p.1 = q.1 ∧ scans p.2 q.2) its (by_text <$> d) ∧ d = text_item <$> (by_text <$> d).
Proof.
  intros Hd. revert ts. induction Hd as [|[k x] d [(s & Hk & _) _] _ IH]; intros ts Hs Hts; simpl in Hts.
  { injection Hts as <-. exists []. split_and!; [done|constructor|done]. }
  simpl in Hk. subst k. apply Forall_cons in Hs as [Hx Hs]. simpl in Hx. simpl in Hts.
  destruct (to_text x) as [t|] eqn:Et; [|done]. simpl in Hts. fold (default_dict d) in Hts.
  destruct (default_dict d) as [ts'|] eqn:Ed; [|done]. simpl in Hts. injection Hts as <-.
  destruct (IH _ Hs eq_refl) as (its & -> & HF & Heq). exists ((s, t) :: its).
  rewrite !fmap_cons. split_and!; [done|by constructor; [split; [done|by apply Hx]|]|by rewrite <-Heq].
Qed.

Lemma to_text_scans v : printable v → ∀ t, to_text v = Some t → scans t v.
Proof.
  revert v. fix IH 2. intros v [ |b|z|f Hf|s _|l Hl|d Hnd Hd] t Ht.
  - apply literal_scans. simpl in Ht. simplify_eq. set_solver.
  - apply literal_scans. simpl in Ht. simplify_eq. destruct b; set_solver.
  - by apply int_scans.
  - simpl in Ht. simplify_eq. rewrite float_text_finite by done. apply number_scans; apply Hf.
  - simpl in Ht. simplify_eq. apply str_scans.
  - simpl in Ht. fold (default_list l) in Ht. destruct (default_list l) as [ts|] eqn:El; [|done]. simpl in Ht.
    simplify_eq. apply list_scans_default. clear -IH Hl El. revert ts El.
    induction Hl as [|x l Hx _ IHl]; intros ts El; simpl in El; [simplify_eq; constructor|].
    destruct (to_text x) as [t|] eqn:Et; [|done]. simpl in El. fold (default_list l) in El.
    destruct (default_list l) as [ts'|] eqn:El'; [|done]. simpl in El. simplify_eq.
    constructor; [by apply (IH x Hx)|by apply IHl].
  - simpl in Ht.
    match type of Ht with (?m ≫= _) = _ => change m with (default_dict d) in Ht end.
    destruct (default_dict d) as [ts|] eqn:Ed; [|done]. simpl in Ht. simplify_eq.
    assert (Forall (λ kv, ∀ t, to_text kv.2 = Some t → scans t kv.2) d) as Hs.
    { clear -IH Hd. induction Hd as [|kv d [_ Hx] _ IHd]; constructor; [by apply (IH _ Hx)|done]. }
    destruct (default_dict_items _ _ Hd Hs Ed) as (its & -> & HF & Heq). rewrite Heq.
    apply dict_scans_default; [done|]. apply (NoDup_fmap_1 KStr). rewrite <-by_text_keys; [done|].
    clear -Hd. induction Hd as [|? ? [(k & Hk & _) _]]; constructor; eauto.
Qed.

(** What was written is read back. *)
Lemma loads_to_text v t : printable v → to_text v = Some t → loads t = Some v.
Proof.
  intros Hv Ht. destruct (to_text_scans v Hv t Ht) as [Hh Hs]. unfold loads.
  assert (skip_ws t = t) as -> by (rewrite <-(app_nil_r t); by apply skip_ws_head).
  rewrite <-(app_nil_r t) at 2. rewrite Hs; [done|lia|done].
Qed.
End default_encoding.

(** ** Deciding that a value is printable *)

Definition code_pointsb (s : pystr) : bool := forallb (λ c, (c <? 1114112)%N) s.

Fixpoint printableb (v : pyval) : bool :=
  match v with
  | VNone | VBool _ | VInt _ => true
  | VStr s => code_pointsb s
  | VList l => forallb printableb l
  | VDict d =>
      bool_decide (NoDup (keys d)) &&
      forallb (λ kv, match kv.1 with KStr k => code_pointsb k | _ => false end && printableb kv.2) d
  | _ => false
  end.

Lemma code_pointsb_ok s : code_pointsb s = true → Forall code_point s.
Proof.
  unfold code_pointsb. rewrite forallb_forall. intros H. apply Forall_forall. intros c Hc%list_elem_of_In.
  by apply N.ltb_lt, H.
Qed.

Lemma printableb_ok v : printableb v = true → printable v.
Proof.
  revert v. fix IH 1. intros [| | | | |l|d|] H; try done; try constructor.
  - by apply code_pointsb_ok.
  - simpl in H. induction l as [|a l IHl]; constructor; apply andb_true_iff in H as [Ha H]; [by apply IH|by apply IHl].
  - simpl in H. apply andb_true_iff in H as [H _]. by apply bool_decide_eq_true in H.
  - simpl in H. apply andb_true_iff in H as [_ H].
    induction d as [|[k w] d IHd]; constructor; apply andb_true_iff in H as [Ha H]; [|by apply IHd].
    apply andb_true_iff in Ha as [Hk Hw]. simpl in *. destruct k as [k|]; [|done].
    split; [exists k; split; [done|by apply code_pointsb_ok]|by apply IH].
Qed.
