(* ===== verification/SqliteStore.v ===== *)
(** * The SQLite store (src/unchain/persistence/sqlite_v2.py, schema and store)

    The tables of the Context V2 database, the statements the code runs on them
    with the constraints and triggers of the schema, transactions, and the
    directory of immutable objects that the database refers to.

    A table is the list of its rows in the order of insertion, or a finite map
    where the code only ever looks rows up by their primary key.  A statement
    returns the new database or raises [sqlite3.IntegrityError] and changes
    nothing.  A transaction restores the database when its body raises; the
    object directory is outside the database and keeps what was written to it.
    Failures of SQLite itself (a busy or broken database) are the script
    [st_faults]: what happens to each of the coming transactions. *)

From S2P Require Import Prelude PyVal Json Models JournalPayload ResourceLimits JournalRecords JournalSnapshot JournalRuntime JsonParse.

(** ** Errors *)

Definition sqlite3_IntegrityError : pyexn := OtherError (u "sqlite3.IntegrityError").
Definition sqlite3_OperationalError : pyexn := OtherError (u "sqlite3.OperationalError").
Definition OverflowError : pyexn := OtherError (u "OverflowError").
Definition JournalConflictError : pyexn := OtherError (u "JournalConflictError").
Definition JournalScopeError : pyexn := OtherError (u "JournalScopeError").
Definition ContextConflictError : pyexn := OtherError (u "ContextConflictError").
Definition ContextScopeError : pyexn := OtherError (u "ContextScopeError").
Definition ContextRepositoryError : pyexn := OtherError (u "ContextRepositoryError").
Definition SQLiteContextV2StoreIntegrityError : pyexn :=
  OtherError (u "SQLiteContextV2StoreIntegrityError").
Definition SQLiteContextV2StoreError : pyexn := OtherError (u "SQLiteContextV2StoreError").

Definition _canonical_json_bytes (value : pyval) : R (list N) :=
  match encoded value with
  | Some bs => Ok bs
  | None => Err SQLiteContextV2StoreIntegrityError
  end.

Definition _exact_non_negative_int (value : pyval) : R Z :=
  match value with
  | VInt z => if (z <? 0)%Z then Err ValueError else Ok z
  | _ => Err ValueError
  end.

Definition _exact_positive_int (value : pyval) : R Z :=
  match value with
  | VInt z => if (z <=? 0)%Z then Err ValueError else Ok z
  | _ => Err ValueError
  end.

(** ** Rows *)

Record execution_row : Type := mkExecution {
  ex_next_store_seq : Z;
  ex_integrity_revision : Z;
}.

Record operation_row : Type := mkOperationRow {
  ow_execution_id : pystr;
  ow_operation_id : pystr;
  ow_payload_sha256 : pystr;
  ow_target_kind : pystr;
  ow_target_key : pystr;
}.

Record event_row : Type := mkEventRow {
  ew_execution_id : pystr;
  ew_store_seq : Z;
  ew_event_id : pystr;
  ew_generation_id : pystr;
  ew_attempt_id : pystr;
  ew_event_type : pystr;
  ew_operation_id : pystr;
  ew_event_json : list N;
  ew_event_sha256 : pystr;
}.

Record receipt_row : Type := mkReceiptRow {
  rw_execution_id : pystr;
  rw_store_seq : Z;
  rw_receipt_kind : pystr;
  rw_generation_id : pystr;
  rw_attempt_id : pystr;
  rw_call_id : option pystr;
  rw_iteration : option Z;
}.

Record artifact_row : Type := mkArtifactRow {
  aw_execution_id : pystr;
  aw_artifact_id : pystr;
  aw_revision : Z;
  aw_logical_kind : pystr;
  aw_logical_key : pystr;
  aw_object_sha256 : pystr;
  aw_media_type : pystr;
  aw_byte_length : Z;
  aw_preview : pystr;
  aw_operation_id : pystr;
  aw_artifact_json : list N;
  aw_artifact_record_sha256 : pystr;
}.

(** The columns that identify a provider request. *)
Abbreviation subject_columns := (pystr * pystr * pystr * Z * pystr * pystr * Z)%type.

Record lease_row : Type := mkLeaseRow {
  lw_key : subject_columns;
  lw_revision : Z;
  lw_operation_id : pystr;
  lw_lease_json : list N;
  lw_lease_sha256 : pystr;
}.

Record result_receipt_row : Type := mkResultReceiptRow {
  pw_key : subject_columns;
  pw_store_seq : Z;
}.

Record Db : Type := mkDb {
  executions : gmap pystr execution_row;
  operations : list operation_row;
  events : list event_row;
  event_receipts : list receipt_row;
  objects : gmap pystr Z;
  artifacts : list artifact_row;
  provider_request_lease_revisions : list lease_row;
  provider_request_lease_heads : gmap subject_columns Z;
  provider_turn_result_receipts : list result_receipt_row;
}.

Definition with_executions (t : gmap pystr execution_row) (db : Db) : Db :=
  mkDb t (operations db) (events db) (event_receipts db) (objects db) (artifacts db)
    (provider_request_lease_revisions db) (provider_request_lease_heads db)
    (provider_turn_result_receipts db).
Definition with_operations (t : list operation_row) (db : Db) : Db :=
  mkDb (executions db) t (events db) (event_receipts db) (objects db) (artifacts db)
    (provider_request_lease_revisions db) (provider_request_lease_heads db)
    (provider_turn_result_receipts db).
Definition with_events (t : list event_row) (db : Db) : Db :=
  mkDb (executions db) (operations db) t (event_receipts db) (objects db) (artifacts db)
    (provider_request_lease_revisions db) (provider_request_lease_heads db)
    (provider_turn_result_receipts db).
Definition with_receipts (t : list receipt_row) (db : Db) : Db :=
  mkDb (executions db) (operations db) (events db) t (objects db) (artifacts db)
    (provider_request_lease_revisions db) (provider_request_lease_heads db)
    (provider_turn_result_receipts db).
Definition with_objects (t : gmap pystr Z) (db : Db) : Db :=
  mkDb (executions db) (operations db) (events db) (event_receipts db) t (artifacts db)
    (provider_request_lease_revisions db) (provider_request_lease_heads db)
    (provider_turn_result_receipts db).
Definition with_artifacts (t : list artifact_row) (db : Db) : Db :=
  mkDb (executions db) (operations db) (events db) (event_receipts db) (objects db) t
    (provider_request_lease_revisions db) (provider_request_lease_heads db)
    (provider_turn_result_receipts db).
Definition with_lease_revisions (t : list lease_row) (db : Db) : Db :=
  mkDb (executions db) (operations db) (events db) (event_receipts db) (objects db) (artifacts
    db) t (provider_request_lease_heads db) (provider_turn_result_receipts db).
Definition with_lease_heads (t : gmap subject_columns Z) (db : Db) : Db :=
  mkDb (executions db) (operations db) (events db) (event_receipts db) (objects db) (artifacts
    db) (provider_request_lease_revisions db) t (provider_turn_result_receipts db).

(** ** Parameters and queries *)

(** A Python integer bound to a statement must fit 64 bits. *)
Definition bind_int (z : Z) : R Z :=
  if ((- 2 ^ 63 <=? z) && (z <? 2 ^ 63))%Z then Ok z else Err OverflowError.

(** [cursor.fetchone()] of a selection. *)
Definition fetchone {A} (p : A → bool) (table : list A) : option A := List.find p table.

(** [ORDER BY store_seq] *)
Definition seq_le (r r' : event_row) : Prop := (ew_store_seq r ≤ ew_store_seq r')%Z.
#[export] Instance seq_le_dec r r' : Decision (seq_le r r').
Proof. unfold seq_le. apply _. Defined.

Definition execution_events (x : pystr) (db : Db) : list event_row :=
  merge_sort seq_le (List.filter (λ r, bool_decide (ew_execution_id r = x)) (events db)).

(** ** Statements *)

(** [INSERT OR IGNORE INTO executions(execution_id) VALUES (?)] *)
Definition ensure_execution_row (x : pystr) (db : Db) : Db :=
  match executions db !! x with
  | Some _ => db
  | None => with_executions (<[x := mkExecution 1 0]> (executions db)) db
  end.

Definition operation_is (x op : pystr) (r : operation_row) : bool :=
  bool_decide (ow_execution_id r = x) && bool_decide (ow_operation_id r = op).

Definition insert_operation (r : operation_row) (db : Db) : R Db :=
  if existsb (operation_is (ow_execution_id r) (ow_operation_id r)) (operations db)
     || bool_decide (executions db !! ow_execution_id r = None)
  then Err sqlite3_IntegrityError
  else Ok (with_operations (operations db ++ [r]) db).

(** Two rows that a key of [events] does not admit together. *)
Definition events_clash (r r' : event_row) : bool :=
  bool_decide (ew_execution_id r = ew_execution_id r')
  && (bool_decide (ew_store_seq r = ew_store_seq r') || bool_decide (ew_event_id r = ew_event_id r')
      || bool_decide (ew_operation_id r = ew_operation_id r')).

Definition insert_event (r : event_row) (db : Db) : R Db :=
  if (ew_store_seq r <? 1)%Z || existsb (events_clash r) (events db)
     || negb (existsb (operation_is (ew_execution_id r) (ew_operation_id r)) (operations db))
  then Err sqlite3_IntegrityError
  else Ok (with_events (events db ++ [r]) db).

Definition receipts_clash (r r' : receipt_row) : bool :=
  bool_decide (rw_execution_id r = rw_execution_id r') && bool_decide (rw_store_seq r = rw_store_seq r')
  && bool_decide (rw_receipt_kind r = rw_receipt_kind r').

(** The [CHECK] of [event_receipts]. *)
Definition receipt_check (r : receipt_row) : bool :=
  bool_decide (rw_receipt_kind r = u "tool_execution")
  && bool_decide (rw_call_id r ≠ None) && bool_decide (rw_iteration r = None)
  || bool_decide (rw_receipt_kind r ∈ [u "tool_catalog"; u "provider_wire"])
     && bool_decide (rw_call_id r = None) && bool_decide (rw_iteration r ≠ None).

Definition event_at (x : pystr) (seq : Z) (r : event_row) : bool :=
  bool_decide (ew_execution_id r = x) && bool_decide (ew_store_seq r = seq).

Definition insert_receipt (r : receipt_row) (db : Db) : R Db :=
  if negb (receipt_check r) || existsb (receipts_clash r) (event_receipts db)
     || negb (existsb (event_at (rw_execution_id r) (rw_store_seq r)) (events db))
  then Err sqlite3_IntegrityError
  else Ok (with_receipts (event_receipts db ++ [r]) db).

(** [UPDATE executions SET next_store_seq = ? WHERE execution_id = ? AND
    next_store_seq = ?], with the number of rows it changed. *)
Definition advance_head (x : pystr) (seq : Z) (db : Db) : nat * Db :=
  match executions db !! x with
  | Some row =>
      if (ex_next_store_seq row =? seq)%Z then
        (1, with_executions (<[x := mkExecution (seq + 1) (ex_integrity_revision row)]> (executions db)) db)
      else (0, db)
  | None => (0, db)
  end.

Definition artifacts_clash (r r' : artifact_row) : bool :=
  bool_decide (aw_execution_id r = aw_execution_id r')
  && (bool_decide (aw_artifact_id r = aw_artifact_id r') && bool_decide (aw_revision r = aw_revision r')
      || bool_decide (aw_logical_kind r = aw_logical_kind r')
         && bool_decide (aw_logical_key r = aw_logical_key r') && bool_decide (aw_revision r = aw_revision r')
      || bool_decide (aw_operation_id r = aw_operation_id r')).

Definition insert_artifact (r : artifact_row) (db : Db) : R Db :=
  if (aw_revision r <? 1)%Z || (aw_byte_length r <? 0)%Z || existsb (artifacts_clash r) (artifacts db)
     || bool_decide (executions db !! aw_execution_id r = None)
     || bool_decide (objects db !! aw_object_sha256 r = None)
     || negb (existsb (operation_is (aw_execution_id r) (aw_operation_id r)) (operations db))
  then Err sqlite3_IntegrityError
  else Ok (with_artifacts (artifacts db ++ [r]) db).

(** [INSERT OR IGNORE INTO objects(sha256, byte_length) VALUES (?, ?)] *)
Definition insert_object (digest : pystr) (byte_length : Z) (db : Db) : Db :=
  match objects db !! digest with
  | Some _ => db
  | None =>
      if (byte_length <? 0)%Z then db else with_objects (<[digest := byte_length]> (objects db)) db
  end.

(** ** The store and its transactions *)

Inductive fault : Type := NoFault | BeginFails | CommitFails.

Record Store : Type := mkStore {
  st_db : Db;
  st_files : gmap pystr (list N);
  st_faults : list fault;
}.

Definition with_db (db : Db) (s : Store) : Store := mkStore db (st_files s) (st_faults s).

(** Run a statement of the current transaction. *)
Definition execute (f : Db → R Db) : M Store pyexn unit := λ s,
  match f (st_db s) with
  | Ok db => (Ok tt, with_db db s)
  | Err e => (Err e, s)
  end.

Definition query {A} (f : Db → A) : M Store pyexn A := gets (λ s, f (st_db s)).

(** [with store._transaction(...) as connection: m] *)
Definition _transaction {A} (m : M Store pyexn A) : M Store pyexn A := λ s,
  let start := mkStore (st_db s) (st_files s) (tail (st_faults s)) in
  match head (st_faults s) with
  | Some BeginFails => (Err sqlite3_OperationalError, start)
  | f =>
      match m start with
      | (Ok a, s') =>
          match f with
          | Some CommitFails => (Err sqlite3_OperationalError, with_db (st_db s) s')
          | _ => (Ok a, s')
          end
      | (Err e, s') => (Err e, with_db (st_db s) s')
      end
  end.

(** [except sqlite3.IntegrityError: raise conflict
     except sqlite3.Error: raise failure] *)
Definition sqlite_errors {A} (conflict failure : pyexn) (m : M Store pyexn A) : M Store pyexn A :=
  try_except m (λ e, raise (if bool_decide (e = sqlite3_IntegrityError) then conflict
                            else if bool_decide (e = sqlite3_OperationalError) then failure
                            else e)).

Definition _ensure_execution (x : pystr) : M Store pyexn unit :=
  execute (λ db, Ok (ensure_execution_row x db)).

Definition bind_execution `{Unicode} (execution_id : pyval) : M Store pyexn pystr :=
  normalized ← lift (_required_text execution_id 256 true);
  _ ← _transaction (_ensure_execution normalized);
  mret normalized.

(** ** The object directory *)

Definition _object_path (digest : pystr) : R pystr :=
  if _SHA256_RE digest then Ok digest else Err SQLiteContextV2StoreIntegrityError.

Definition _read_object (digest : pystr) (byte_length : Z) : M Store pyexn (list N) :=
  path ← lift (_object_path digest);
  file ← gets (λ s, st_files s !! path);
  match file with
  | None => raise SQLiteContextV2StoreIntegrityError
  | Some content =>
      if negb (Z.of_nat (length content) =? byte_length)%Z
         || negb (bool_decide (sha256_hex content = digest))
      then raise SQLiteContextV2StoreIntegrityError
      else mret content
  end.

(** The file is written under a temporary name and linked to its digest, which
    does nothing when another writer was first. *)
Definition _install_object (content : list N) : M Store pyexn (pystr * Z) :=
  let digest := sha256_hex content in
  let byte_length := Z.of_nat (length content) in
  path ← lift (_object_path digest);
  exists_ ← gets (λ s, st_files s !! path);
  match exists_ with
  | Some _ => _ ← _read_object digest byte_length; mret (digest, byte_length)
  | None =>
      _ ← modify (λ s, mkStore (st_db s) (<[path := content]> (st_files s)) (st_faults s));
      _ ← _read_object digest byte_length;
      mret (digest, byte_length)
  end.
