(* ===== verification/SqliteJournal.v ===== *)
(** * The SQLite journal (src/unchain/persistence/sqlite_v2.py, repository)

    The journal of one execution in the tables of [SqliteStore]: appending with
    its operation ledger and receipt index, artifacts, paging, snapshots, the
    integrity revision and the lookup of receipts; and the journal port of
    [JournalRuntime] made of them. *)

From S2P Require Import Prelude PyVal Json Models JournalPayload ResourceLimits JournalRecords JournalSnapshot JournalRuntime JsonParse SqliteStore.

Definition TOOL_CATALOG_SNAPSHOT_EVENT_TYPE : pystr := u "tool.catalog_snapshot".
Definition PROVIDER_WIRE_SNAPSHOT_EVENT_TYPE : pystr := u "provider.wire_snapshot".

Section repository.
Context `{U : Unicode} `{F : UnicodeFold}.

(** [self.execution_id] *)
Variable execution_id : pystr.

(** ** Rows and records *)

(** [dict(request.payload) == dict(event.payload)] compares frozen values. *)
Definition _request_matches_event (request : JournalAppendRequest) (event : JournalEvent) : bool :=
  bool_decide (ar_event_id request = event_id event)
  && bool_decide (ar_event_type request = event_type event)
  && bool_decide (ar_attempt request = event_attempt event)
  && bool_decide (ar_operation request = event_operation event)
  && py_eq (_thaw_json (FMap (ar_payload request))) (_thaw_json (FMap (event_payload event)))
  && bool_decide (ar_resource_refs request = event_refs event).

Definition _scope_attempt (attempt : arg AttemptRef) (error_type : pyexn) : R AttemptRef :=
  match attempt with
  | Inst a =>
      if bool_decide (gr_execution_id (at_generation a) = execution_id) then Ok a else Err error_type
  | Val _ => Err TypeError
  end.

Definition _operation_row (operation_id : pystr) (db : Db) : option operation_row :=
  fetchone (operation_is execution_id operation_id) (operations db).

(** Is the operation recorded with this payload and this target? *)
Definition claims (o : operation_row) (operation : OperationRef) (kind key : pystr) : bool :=
  bool_decide (ow_payload_sha256 o = op_payload_sha256 operation)
  && bool_decide (ow_target_kind o = kind) && bool_decide (ow_target_key o = key).

Definition _claim_operation (operation : OperationRef) (target_kind target_key : pystr)
    (conflict_type : pyexn) : M Store pyexn bool :=
  previous ← query (_operation_row (op_operation_id operation));
  match previous with
  | Some o => if claims o operation target_kind target_key then mret false else raise conflict_type
  | None =>
      _ ← execute (insert_operation
            (mkOperationRow execution_id (op_operation_id operation) (op_payload_sha256 operation)
               target_kind target_key));
      mret true
  end.

Definition journal_event : pystr := u "journal_event".

(** [except (UnicodeDecodeError, json.JSONDecodeError, TypeError, ValueError)] *)
Definition malformed {A} (r : R A) : R A :=
  match r with
  | Err (TypeError | ValueError | ModelValidationError) => Err SQLiteContextV2StoreIntegrityError
  | _ => r
  end.

Definition json_loads (raw : list N) : R pyval :=
  match decode_json raw with Some v => Ok v | None => Err ValueError end.

Definition indexed_fields_agree (e : JournalEvent) (row : event_row) : bool :=
  bool_decide (gr_execution_id (at_generation (event_attempt e)) = execution_id)
  && (je_store_seq e =? ew_store_seq row)%Z
  && bool_decide (event_id e = ew_event_id row)
  && bool_decide (gr_generation_id (at_generation (event_attempt e)) = ew_generation_id row)
  && bool_decide (at_attempt_id (event_attempt e) = ew_attempt_id row)
  && bool_decide (event_type e = ew_event_type row)
  && bool_decide (op_operation_id (event_operation e) = ew_operation_id row).

Definition _event_from_row (db : Db) (row : event_row) : R JournalEvent :=
  let raw := ew_event_json row in
  _ ← ensure (bool_decide (sha256_hex raw = ew_event_sha256 row)) SQLiteContextV2StoreIntegrityError;
  event ← malformed (decoded ← json_loads raw; JournalEvent_from_dict decoded);
  canonical ← _canonical_json_bytes (JournalEvent_to_dict event);
  _ ← ensure (bool_decide (canonical = raw)) SQLiteContextV2StoreIntegrityError;
  _ ← ensure (indexed_fields_agree event row) SQLiteContextV2StoreIntegrityError;
  match _operation_row (op_operation_id (event_operation event)) db with
  | None => Err SQLiteContextV2StoreIntegrityError
  | Some o =>
      if claims o (event_operation event) journal_event (event_id event) then Ok event
      else Err SQLiteContextV2StoreIntegrityError
  end.

Definition receipt_iteration (event : JournalEvent) : R Z :=
  match items_get (event_payload event) "iteration" with
  | VInt i => if (i <? 0)%Z then Err JournalRepositoryError else Ok i
  | _ => Err JournalRepositoryError
  end.

Definition _receipt_subject (event : JournalEvent)
    : R (option (pystr * option pystr * option Z)) :=
  if bool_decide (event_type event ∈ TOOL_EXECUTION_RECEIPT_TYPES) then
    call_id ← _required_text (items_get (event_payload event) "call_id") 256 true;
    Ok (Some (u "tool_execution", Some call_id, None))
  else if bool_decide (event_type event = TOOL_CATALOG_SNAPSHOT_EVENT_TYPE) then
    i ← receipt_iteration event; Ok (Some (u "tool_catalog", None, Some i))
  else if bool_decide (event_type event = PROVIDER_WIRE_SNAPSHOT_EVENT_TYPE) then
    i ← receipt_iteration event; Ok (Some (u "provider_wire", None, Some i))
  else Ok None.

(** ** Appending *)

Definition _replayed_append (request : JournalAppendRequest)
    : M Store pyexn (option JournalAppendResult) :=
  let op := op_operation_id (ar_operation request) in
  previous ← query (_operation_row op);
  match previous with
  | None => mret None
  | Some o =>
      _ ← lift (ensure (claims o (ar_operation request) journal_event (ar_event_id request))
                  JournalConflictError);
      db ← query id;
      match fetchone (λ r, bool_decide (ew_execution_id r = execution_id)
                           && bool_decide (ew_operation_id r = op)) (events db) with
      | None => raise SQLiteContextV2StoreIntegrityError
      | Some row =>
          event ← lift (_event_from_row db row);
          _ ← lift (ensure (_request_matches_event request event) JournalConflictError);
          cursor ← lift (make_EventCursor (VInt (je_store_seq event)) (VStr (event_id event)));
          result ← lift (make_JournalAppendResult (Inst event) (Inst cursor) (VBool true));
          mret (Some result)
      end
  end.

(** The row of an event and the row of its receipt. *)
Definition row_of_event (event : JournalEvent) (event_json : list N) : event_row :=
  mkEventRow execution_id (je_store_seq event) (event_id event)
    (gr_generation_id (at_generation (event_attempt event))) (at_attempt_id (event_attempt event))
    (event_type event) (op_operation_id (event_operation event)) event_json (sha256_hex event_json).

Definition row_of_receipt (event : JournalEvent) (receipt : pystr * option pystr * option Z)
    : receipt_row :=
  let '(kind, call_id, iteration) := receipt in
  mkReceiptRow execution_id (je_store_seq event) kind
    (gr_generation_id (at_generation (event_attempt event))) (at_attempt_id (event_attempt event))
    call_id iteration.

Definition insert_receipt_of (event : JournalEvent)
    (receipt : option (pystr * option pystr * option Z)) : M Store pyexn unit :=
  match receipt with
  | None => mret tt
  | Some r =>
      _ ← lift (match r.2 with Some i => bind_int i | None => Ok 0%Z end);
      execute (insert_receipt (row_of_receipt event r))
  end.

Definition _append_with_connection (request : JournalAppendRequest)
    : M Store pyexn JournalAppendResult :=
  known ← query (λ db, fetchone (λ r, bool_decide (ew_execution_id r = execution_id)
                            && bool_decide (ew_event_id r = ar_event_id request)) (events db));
  _ ← lift (ensure (bool_decide (known = None)) JournalConflictError);
  head ← query (λ db, executions db !! execution_id);
  store_seq ← lift (match head with
                    | Some row => Ok (ex_next_store_seq row)
                    | None => Err SQLiteContextV2StoreIntegrityError
                    end);
  event ← lift (make_JournalEvent (VStr (ar_event_id request)) (VStr (ar_event_type request))
                  (Inst (ar_attempt request)) (Inst (ar_operation request)) (VInt store_seq)
                  (_thaw_json (FMap (ar_payload request))) (instances (ar_resource_refs request)));
  receipt ← lift (_receipt_subject event);
  _ ← _claim_operation (ar_operation request) journal_event (ar_event_id request)
        JournalConflictError;
  event_json ← lift (_canonical_json_bytes (JournalEvent_to_dict event));
  _ ← execute (insert_event (row_of_event event event_json));
  _ ← insert_receipt_of event receipt;
  _ ← lift (bind_int (store_seq + 1));
  updated ← (λ s, let '(n, db) := advance_head execution_id store_seq (st_db s) in
                  (Ok n, with_db db s));
  _ ← lift (ensure (updated =? 1) JournalConflictError);
  cursor ← lift (make_EventCursor (VInt store_seq) (VStr (event_id event)));
  lift (make_JournalAppendResult (Inst event) (Inst cursor) (VBool false)).

Definition append (request : arg JournalAppendRequest) : M Store pyexn JournalAppendResult :=
  match request with
  | Val _ => raise TypeError
  | Inst request =>
      _ ← lift (_scope_attempt (Inst (ar_attempt request)) JournalScopeError);
      sqlite_errors JournalConflictError JournalRepositoryError (_transaction (
        _ ← _ensure_execution execution_id;
        replayed ← _replayed_append request;
        match replayed with
        | Some result => mret result
        | None => _append_with_connection request
        end))
  end.

(** ** Artifacts *)

Definition artifact_id_value (logical_kind logical_key : pystr) : pyval :=
  VDict [field "execution_id" (VStr execution_id); field "logical_kind" (VStr logical_kind);
         field "logical_key" (VStr logical_key)].

Definition _artifact_id (logical_kind logical_key : pystr) : R pystr :=
  bs ← _canonical_json_bytes (artifact_id_value logical_kind logical_key);
  Ok (u "artifact-" ++ sha256_hex bs).

Definition artifact_id_for (logical_kind logical_key : pyval) : R pystr :=
  logical_kind ← _required_text logical_kind 256 false;
  logical_key ← _required_text logical_key 256 false;
  _artifact_id logical_kind logical_key.

Definition artifact_fields_agree (a : ArtifactRef) (row : artifact_row) : bool :=
  bool_decide (rr_resource_id (ar_ref a) = aw_artifact_id row)
  && (rr_revision (ar_ref a) =? aw_revision row)%Z
  && bool_decide (ar_sha256 a = aw_object_sha256 row)
  && bool_decide (ar_media_type a = aw_media_type row)
  && (ar_byte_length a =? aw_byte_length row)%Z
  && bool_decide (ar_preview a = aw_preview row).

Definition _artifact_from_row (row : artifact_row) : R ArtifactRef :=
  let raw := aw_artifact_json row in
  _ ← ensure (bool_decide (sha256_hex raw = aw_artifact_record_sha256 row))
        SQLiteContextV2StoreIntegrityError;
  artifact ← malformed (decoded ← json_loads raw; ArtifactRef_from_dict decoded);
  canonical ← _canonical_json_bytes (ArtifactRef_to_dict artifact);
  _ ← ensure (bool_decide (canonical = raw)) SQLiteContextV2StoreIntegrityError;
  _ ← ensure (artifact_fields_agree artifact row) SQLiteContextV2StoreIntegrityError;
  Ok artifact.

Definition _artifact_by_operation (operation_id : pystr) (db : Db) : R ArtifactRef :=
  match fetchone (λ r, bool_decide (aw_execution_id r = execution_id)
                       && bool_decide (aw_operation_id r = operation_id)) (artifacts db) with
  | None => Err SQLiteContextV2StoreIntegrityError
  | Some row => _artifact_from_row row
  end.

(** [f"{artifact_id}@{revision}"] for the first revision, the only one. *)
Definition artifact_target (artifact_id : pystr) : pystr := artifact_id ++ u "@1".

Definition _put_artifact_with_connection (content : list N) (media_type : pyval)
    (operation : OperationRef) (preview : pyval) (logical_kind logical_key : pystr)
    (expected_revision : pyval) (conflict_type : pyexn) : M Store pyexn ArtifactRef :=
  expected_revision ← lift (_exact_non_negative_int expected_revision);
  media_type ← lift (_required_text media_type 255 false);
  preview ← lift (if py_eq preview (VStr []) then Ok [] else _required_text preview 4096 false);
  '(digest, byte_length) ← _install_object content;
  artifact_id ← lift (_artifact_id logical_kind logical_key);
  let target_key := artifact_target artifact_id in
  _ ← _ensure_execution execution_id;
  previous ← query (_operation_row (op_operation_id operation));
  match previous with
  | Some o =>
      _ ← lift (ensure (claims o operation logical_kind target_key) conflict_type);
      db ← query id;
      artifact ← lift (_artifact_by_operation (op_operation_id operation) db);
      _ ← lift (ensure (bool_decide (ar_media_type artifact = media_type)
                        && (ar_byte_length artifact =? byte_length)%Z
                        && bool_decide (ar_sha256 artifact = digest)
                        && bool_decide (ar_preview artifact = preview)) conflict_type);
      mret artifact
  | None =>
      _ ← lift (ensure (expected_revision =? 0)%Z conflict_type);
      existing ← query (λ db, fetchone (λ r, bool_decide (aw_execution_id r = execution_id)
                    && bool_decide (aw_logical_kind r = logical_kind)
                    && bool_decide (aw_logical_key r = logical_key) && (aw_revision r =? 1)%Z)
                    (artifacts db));
      _ ← lift (ensure (negb (bool_decide (is_Some existing))) conflict_type);
      resource ← lift (make_ResourceRef (VStr (u "artifact")) (VStr artifact_id) (VInt 1) (VStr []));
      artifact ← lift (make_ArtifactRef (Inst resource) (VStr media_type) (VInt byte_length)
                         (VStr digest) (VStr preview));
      _ ← _claim_operation operation logical_kind target_key conflict_type;
      object_row ← query (λ db, objects db !! digest);
      _ ← lift (ensure (match object_row with Some n => (n =? byte_length)%Z | None => true end)
                  SQLiteContextV2StoreIntegrityError);
      _ ← execute (λ db, Ok (insert_object digest byte_length db));
      artifact_json ← lift (_canonical_json_bytes (ArtifactRef_to_dict artifact));
      _ ← execute (insert_artifact
            (mkArtifactRow execution_id artifact_id 1 logical_kind logical_key digest media_type
               byte_length preview (op_operation_id operation) artifact_json
               (sha256_hex artifact_json)));
      mret artifact
  end.

Definition _put_artifact (content : list N) (media_type : pyval) (operation : OperationRef)
    (preview : pyval) (logical_kind logical_key : pystr) (expected_revision : pyval)
    (conflict_type : pyexn) : M Store pyexn ArtifactRef :=
  sqlite_errors conflict_type ContextRepositoryError (_transaction (
    _put_artifact_with_connection content media_type operation preview logical_kind logical_key
      expected_revision conflict_type)).

Definition put (content : list N) (media_type : pyval) (operation : OperationRef)
    (preview : pyval) : M Store pyexn ArtifactRef :=
  _put_artifact content media_type operation preview (u "artifact") (op_operation_id operation)
    (VInt 0) ContextConflictError.

Definition _load_exact_artifact (artifact : arg ArtifactRef) : M Store pyexn ArtifactRef :=
  match artifact with
  | Val _ => raise TypeError
  | Inst artifact =>
      _ ← lift (ensure (bool_decide (rr_kind (ar_ref artifact) = u "artifact")
                        && negb (nonempty (rr_fragment (ar_ref artifact)))) ContextScopeError);
      sqlite_errors ContextRepositoryError ContextRepositoryError (_transaction (
        revision ← lift (bind_int (rr_revision (ar_ref artifact)));
        row ← query (λ db, fetchone (λ r, bool_decide (aw_execution_id r = execution_id)
                       && bool_decide (aw_artifact_id r = rr_resource_id (ar_ref artifact))
                       && (aw_revision r =? revision)%Z) (artifacts db));
        match row with
        | None => raise ContextScopeError
        | Some row =>
            stored ← lift (_artifact_from_row row);
            _ ← lift (ensure (bool_decide (stored = artifact)) SQLiteContextV2StoreIntegrityError);
            object_row ← query (λ db, objects db !! ar_sha256 stored);
            _ ← lift (ensure (match object_row with
                              | Some n => (n =? ar_byte_length stored)%Z
                              | None => false
                              end) SQLiteContextV2StoreIntegrityError);
            mret stored
        end))
  end.

Definition read_full_verified (artifact : arg ArtifactRef) : M Store pyexn (list N) :=
  stored ← _load_exact_artifact artifact;
  _read_object (ar_sha256 stored) (ar_byte_length stored).

(** [content[offset : offset + limit]] *)
Definition read_verified (artifact : arg ArtifactRef) (offset limit : pyval) : M Store pyexn (list N) :=
  offset ← lift (_exact_non_negative_int offset);
  limit ← lift (_exact_non_negative_int limit);
  content ← read_full_verified artifact;
  mret (take (Z.to_nat limit) (drop (Z.to_nat offset) content)).

Definition _verify_pending_artifact_replay (artifact : PendingArtifact) : M Store pyexn unit :=
  previous ← query (_operation_row (op_operation_id (pa_operation artifact)));
  lift (ensure (match previous with
                | Some o => bool_decide (ow_payload_sha256 o = op_payload_sha256 (pa_operation artifact))
                | None => false
                end) SQLiteContextV2StoreIntegrityError).

(** [for item in items: f(item)] *)
Fixpoint for_each {A} (f : A → M Store pyexn unit) (items : list A) : M Store pyexn unit :=
  match items with
  | [] => mret tt
  | x :: items => _ ← f x; for_each f items
  end.

Definition put_pending (artifact : PendingArtifact) : M Store pyexn unit :=
  _ ← _put_artifact_with_connection (pa_content artifact) (VStr (pa_media_type artifact))
        (pa_operation artifact) (VStr (pa_preview artifact)) (u "artifact")
        (op_operation_id (pa_operation artifact)) (VInt 0) ContextConflictError;
  mret tt.

(** ** Reading *)

(** [[f(row) for row in rows]]: the first error ends it. *)
Definition events_of_rows (db : Db) (rows : list event_row) : R (list JournalEvent) :=
  mapR (_event_from_row db) rows.

Definition _event_rows_after (store_seq limit : Z) (db : Db) : list event_row :=
  take (Z.to_nat limit)
    (List.filter (λ r, (store_seq <? ew_store_seq r)%Z) (execution_events execution_id db)).

(** The position after a cursor, which must name an event of this execution. *)
Definition read_start (after : option EventCursor) (db : Db) : R Z :=
  match after with
  | None => Ok 0%Z
  | Some c =>
      seq ← bind_int (ec_store_seq c);
      match fetchone (event_at execution_id seq) (events db) with
      | Some row =>
          if bool_decide (ew_event_id row = ec_event_id c) then Ok seq else Err JournalScopeError
      | None => Err JournalScopeError
      end
  end.

(** [EventCursor(events[-1].store_seq, events[-1].event_id) if events else after] *)
Definition next_cursor_of (events : list JournalEvent) (after : option EventCursor)
    : R (option EventCursor) :=
  match last events with
  | Some e => c ← make_EventCursor (VInt (je_store_seq e)) (VStr (event_id e)); Ok (Some c)
  | None => Ok after
  end.

(** The body of [read] within its transaction. *)
Definition read_page (after : option EventCursor) (limit : Z) (db : Db) : R JournalPage :=
  start ← read_start after db;
  n ← bind_int (limit + 1);
  let rows := _event_rows_after start n db in
  let has_more := (limit <? Z.of_nat (length rows))%Z in
  events ← events_of_rows db (take (Z.to_nat limit) rows);
  next_cursor ← next_cursor_of events after;
  make_JournalPage (instances events) (cursor_arg next_cursor) (VBool has_more).

Definition cursor_or_none (after : arg EventCursor) : R (option EventCursor) :=
  match after with
  | Inst c => Ok (Some c)
  | Val VNone => Ok None
  | Val _ => Err TypeError
  end.

Definition read (after : arg EventCursor) (limit : pyval) : M Store pyexn JournalPage :=
  limit ← lift (_exact_positive_int limit);
  after ← lift (cursor_or_none after);
  sqlite_errors JournalRepositoryError JournalRepositoryError (_transaction (
    page ← query (read_page after limit); lift page)).

(** ** Snapshots *)

Definition _snapshot_with_connection (max_events max_bytes : pyval) (db : Db) : R JournalSnapshot :=
  max_events ← _exact_non_negative_int max_events;
  max_bytes ← _exact_non_negative_int max_bytes;
  n ← bind_int (max_events + 1);
  let rows := take (Z.to_nat n) (execution_events execution_id db) in
  _ ← ensure (Z.of_nat (length rows) <=? max_events)%Z JournalRepositoryError;
  events ← events_of_rows db rows;
  encoded ← _canonical_json_bytes (VList (JournalEvent_to_dict <$> events));
  _ ← ensure (Z.of_nat (length encoded) <=? max_bytes)%Z JournalRepositoryError;
  capture_journal_snapshot (VStr execution_id) events.

Definition default_max_events : pyval := VInt 10000.
Definition default_max_bytes : pyval := VInt (32 * 1024 * 1024).

Definition capture_snapshot (max_events max_bytes : pyval) : M Store pyexn JournalSnapshot :=
  sqlite_errors JournalRepositoryError JournalRepositoryError (_transaction (
    snapshot ← query (_snapshot_with_connection max_events max_bytes); lift snapshot)).

(** [0 if row is None else int(row["integrity_revision"])] *)
Definition integrity_revision_of (db : Db) : Z :=
  match executions db !! execution_id with
  | Some row => ex_integrity_revision row
  | None => 0
  end.

Definition capture_snapshot_with_integrity_revision (max_events max_bytes : pyval)
    : M Store pyexn (JournalSnapshot * Z) :=
  sqlite_errors JournalRepositoryError JournalRepositoryError (_transaction (
    snapshot ← query (_snapshot_with_connection max_events max_bytes);
    snapshot ← lift snapshot;
    revision ← query integrity_revision_of;
    mret (snapshot, revision))).

Definition snapshot_integrity_revision : M Store pyexn Z :=
  sqlite_errors JournalRepositoryError JournalRepositoryError (_transaction (
    query integrity_revision_of)).

(** The rows up to the high water: their number and the largest sequence. *)
Definition prefix_rows (high_water : Z) (db : Db) : list event_row :=
  List.filter (λ r, bool_decide (ew_execution_id r = execution_id) && (ew_store_seq r <=? high_water)%Z)
    (events db).
Definition max_seq (rows : list event_row) : option Z :=
  foldr (λ r acc, Some (match acc with Some m => Z.max (ew_store_seq r) m | None => ew_store_seq r end))
    None rows.

(** [int(None)] of an empty prefix raises a [TypeError], which the comparison of
    the counts before it prevents. *)
Definition snapshot_prefix_is_current (snapshot : arg JournalSnapshot) (integrity_revision : pyval)
    : M Store pyexn bool :=
  match snapshot with
  | Val _ => raise TypeError
  | Inst snapshot =>
      if negb (bool_decide (sn_execution_id snapshot = execution_id)) then mret false
      else match integrity_revision with
      | VInt revision =>
          if (event_count snapshot =? 0)%nat then
            if bool_decide (sn_high_water snapshot = None) then
              current ← snapshot_integrity_revision; mret (revision =? current)%Z
            else mret false
          else match sn_high_water snapshot with
          | None => mret false
          | Some high_water =>
              prefix ← sqlite_errors JournalRepositoryError JournalRepositoryError (_transaction (
                current ← query integrity_revision_of;
                if negb (current =? revision)%Z then mret None
                else
                  seq ← lift (bind_int (ec_store_seq high_water));
                  rows ← query (prefix_rows seq);
                  mret (Some rows)));
              match prefix with
              | None => mret false
              | Some rows =>
                  if negb (length rows =? event_count snapshot) then mret false
                  else match max_seq rows with
                       | None => raise TypeError
                       | Some m => mret (m =? ec_store_seq high_water)%Z
                       end
              end
          end
      | _ => mret false
      end
  end.

Definition append_with_artifacts (request : arg JournalAppendRequest)
    (pending : list (arg PendingArtifact)) (precondition : option (JournalSnapshot → R unit))
    : M Store pyexn JournalAppendResult :=
  match request with
  | Val _ => raise TypeError
  | Inst request =>
      pending ← lift (mapR (λ x, match x with Inst a => Ok a | Val _ => Err TypeError end) pending);
      _ ← lift (_scope_attempt (Inst (ar_attempt request)) JournalScopeError);
      sqlite_errors JournalConflictError JournalRepositoryError (_transaction (
        _ ← _ensure_execution execution_id;
        replayed ← _replayed_append request;
        match replayed with
        | Some result => _ ← for_each _verify_pending_artifact_replay pending; mret result
        | None =>
            _ ← match precondition with
                | None => mret tt
                | Some check =>
                    snapshot ← query (_snapshot_with_connection default_max_events default_max_bytes);
                    snapshot ← lift snapshot;
                    lift (check snapshot)
                end;
            _ ← for_each put_pending pending;
            _append_with_connection request
        end))
  end.

(** ** Receipts *)

(** The rows of [event_receipts] joined with their events, by sequence. *)
Definition receipt_matches (attempt : AttemptRef) (kind : pystr) (call_id : option pystr)
    (iteration : option Z) (r : receipt_row) : bool :=
  bool_decide (rw_execution_id r = execution_id)
  && bool_decide (rw_generation_id r = gr_generation_id (at_generation attempt))
  && bool_decide (rw_attempt_id r = at_attempt_id attempt)
  && bool_decide (rw_receipt_kind r = kind)
  && bool_decide (rw_call_id r = call_id) && bool_decide (rw_iteration r = iteration).

Definition receipt_rows (attempt : AttemptRef) (kind : pystr) (call_id : option pystr)
    (iteration : option Z) (db : Db) : list event_row :=
  merge_sort seq_le
    (List.filter (receipt_matches attempt kind call_id iteration) (event_receipts db) ≫= λ r,
     List.filter (event_at (rw_execution_id r) (rw_store_seq r)) (events db)).

Definition _lookup_receipt_events (attempt : arg AttemptRef) (kind : pystr)
    (call_id : option pystr) (iteration : option Z) (maximum : nat)
    : M Store pyexn (list JournalEvent * bool) :=
  attempt ← lift (_scope_attempt attempt JournalScopeError);
  _transaction (
    _ ← lift (match iteration with Some i => bind_int i | None => Ok 0%Z end);
    db ← query id;
    let rows := take (maximum + 1) (receipt_rows attempt kind call_id iteration db) in
    events ← lift (events_of_rows db (take maximum rows));
    mret (events, maximum <? length rows)).

Definition lookup_tool_execution_receipts (attempt : arg AttemptRef) (call_id : pyval)
    : M Store pyexn ToolExecutionReceiptLookup :=
  normalized_call_id ← lift (_required_text call_id 256 true);
  '(events, overflow) ← _lookup_receipt_events attempt (u "tool_execution") (Some normalized_call_id)
      None MAX_TOOL_EXECUTION_RECEIPTS;
  lift (make_ToolExecutionReceiptLookup attempt (VStr normalized_call_id) (instances events)
          (VBool overflow)).

(** ** The journal port *)

Definition sqlite_journal : BoundExecutionJournal Store :=
  mkJournal execution_id
    (λ request, r ← append (Inst request); mret (Some r))
    (λ after limit, p ← read (cursor_arg after) (VInt limit); mret (Some p))
    (λ request pending precondition,
       r ← append_with_artifacts (Inst request) (Inst <$> pending) precondition; mret (Some r))
    (Some (λ attempt call_id, l ← lookup_tool_execution_receipts (Inst attempt) (VStr call_id);
                              mret (Some l)))
    (capture_snapshot default_max_events default_max_bytes).
End repository.

#[global] Arguments _event_from_row : simpl never.
#[global] Arguments _receipt_subject : simpl never.
#[global] Arguments _append_with_connection : simpl never.
#[global] Arguments _replayed_append : simpl never.
#[global] Arguments _put_artifact_with_connection : simpl never.
#[global] Arguments read_page : simpl never.
#[global] Arguments _snapshot_with_connection : simpl never.
