(* ===== verification/SqliteCodec.v ===== *)
(** * What is stored is read back

    The stored form of a record is its canonical JSON.  This file proves that
    the records of the journal survive it: the canonical order of keys does not
    matter to the constructors, and frozen payloads are already in it. *)

From S2P Require Import Prelude PyVal Json Models JournalPayload ResourceLimits JournalRecords JournalSnapshot JournalRuntime JsonParse SqliteStore SqliteJournal.

Section codec.
Context `{U : Unicode} `{!UnicodeLaws U} `{F : UnicodeFold}.

(** ** Records do not depend on the order of their keys *)

Lemma ResourceRef_canon r :
  ResourceRef_from_dict (canon (ResourceRef_to_dict r)) = ResourceRef_from_dict (ResourceRef_to_dict r).
Proof. reflexivity. Qed.

Lemma GenerationRef_canon g :
  GenerationRef_from_dict (canon (GenerationRef_to_dict g)) = GenerationRef_from_dict (GenerationRef_to_dict g).
Proof. reflexivity. Qed.

Lemma OperationRef_canon o :
  OperationRef_from_dict (canon (OperationRef_to_dict o)) = OperationRef_from_dict (OperationRef_to_dict o).
Proof. reflexivity. Qed.

Lemma AttemptRef_canon a :
  AttemptRef_from_dict (canon (AttemptRef_to_dict a)) = AttemptRef_from_dict (AttemptRef_to_dict a).
Proof. reflexivity. Qed.

Lemma ArtifactRef_canon a :
  ArtifactRef_from_dict (canon (ArtifactRef_to_dict a)) = ArtifactRef_from_dict (ArtifactRef_to_dict a).
Proof. reflexivity. Qed.

Lemma event_record_canon e :
  JournalEvent_from_dict (canon (JournalEvent_to_dict e)) =
  (attempt ← AttemptRef_from_dict (canon (AttemptRef_to_dict (event_attempt e)));
   operation ← OperationRef_from_dict (canon (OperationRef_to_dict (event_operation e)));
   resource_refs ← _record_tuple (seq_of (VList (canon <$> (ResourceRef_to_dict <$> event_refs e))));
   make_JournalEvent (VStr (event_id e)) (VStr (event_type e)) (Inst attempt)
     (Inst operation) (VInt (je_store_seq e)) (canon (_thaw_json (FMap (event_payload e))))
     (instances resource_refs)).
Proof. reflexivity. Qed.

Lemma refs_tuple_canon l :
  Forall wire_wf l →
  _record_tuple (A:=ResourceRef) (seq_of (VList (canon <$> (ResourceRef_to_dict <$> l)))) = Ok l.
Proof.
  intros Hl. simpl. rewrite <-!list_fmap_compose, mapR_fmap. apply mapR_id.
  eapply Forall_impl; [exact Hl|]. intros r Hr. unfold compose. cbn [record_of from_wire ResourceRef_wire].
  by rewrite ResourceRef_canon.
Qed.

(** ** Frozen payloads are canonical *)

Lemma thaw_items_keys items : keys (thaw_items items) = KStr <$> items.*1.
Proof. unfold keys, thaw_items. by rewrite <-!list_fmap_compose. Qed.

Lemma thaw_items_elem items k v :
  NoDup (keys (thaw_items items)) → (KStr k, v) ∈ thaw_items items → ∀ w, (k, w) ∈ items → v = _thaw_json w.
Proof.
  intros Hnd Hv w Hw. assert ((KStr k, _thaw_json w) ∈ thaw_items items) as Hw'.
  { apply list_elem_of_fmap. by exists (k, w). }
  apply (elem_dict_get _ _ _ Hnd) in Hv, Hw'. congruence.
Qed.

Lemma canon_thaw f : printable (_thaw_json f) → _freeze_json (_thaw_json f) = Ok f → canon (_thaw_json f) = _thaw_json f.
Proof.
  induction f as [| | | | |l IH|d IH] using frozen_nested_ind; intros Hp Hf; try done.
  - apply printable_list_inv in Hp. cbn [_thaw_json] in Hf. apply freeze_list_ok in Hf as (ys & [= <-] & Hys).
    cbn [_thaw_json canon]. f_equal. clear -IH Hp Hys.
    induction IH as [|x l Hx _ IHl]; [done|]. rewrite !fmap_cons in *.
    apply Forall_cons in Hp as [Hpx Hp]. apply Forall2_cons_1 in Hys as [Hfx Hys].
    by rewrite Hx, IHl.
  - apply printable_dict_inv in Hp as [Hnd Hp]. change (VDict _) with (VDict (thaw_items d)) in Hf.
    change (keys _) with (keys (thaw_items d)) in Hnd.
    destruct (freeze_dict_items _ _ Hf) as [Hsort _ Hi].
    assert (Hd : Forall (λ kv, canon (_thaw_json kv.2) = _thaw_json kv.2) d).
    { apply Forall_forall. intros [k w] Hin. rewrite Forall_forall in IH. apply (IH (k, w) Hin).
      - rewrite Forall_forall in Hp. apply (Hp (KStr k, _thaw_json w)).
        apply list_elem_of_fmap. by exists (k, w).
      - destruct (Hi k w Hin) as (v & Hv & _ & Hw). simpl. by rewrite <-(thaw_items_elem d k v Hnd Hv w Hin). }
    cbn [_thaw_json canon]. f_equal. rewrite <-list_fmap_compose.
    rewrite (merge_sort_sorted (_ <$> d)).
    + rewrite <-list_fmap_compose. apply list_fmap_ext. intros i [k w] Hkw. simpl. f_equal.
      rewrite Forall_forall in Hd. apply (Hd (k, w)). by eapply list_elem_of_lookup_2.
    + rewrite <-list_fmap_compose. apply (NoDup_fmap_1 KStr). rewrite thaw_items_keys in Hnd. done.
    + eapply sorted_keys, Hsort. by rewrite <-list_fmap_compose.
Qed.

Lemma payload_canon d :
  printable (_thaw_json (FMap d)) → freeze_payload (_thaw_json (FMap d)) = Ok d →
  canon (_thaw_json (FMap d)) = _thaw_json (FMap d).
Proof.
  intros Hp. unfold freeze_payload. intros (f & Hf & H)%result_bind_ok. apply canon_thaw; [done|].
  rewrite Hf. destruct f; by simplify_eq.
Qed.

(** ** Events *)

Lemma event_canon e :
  event_wf e → printable (_thaw_json (FMap (event_payload e))) →
  JournalEvent_from_dict (canon (JournalEvent_to_dict e)) = Ok e.
Proof.
  intros [Hr Hs] Hp. assert (Hr' := Hr). destruct Hr' as [Hi Ht Ha Ho Hpay Hrs].
  rewrite event_record_canon, AttemptRef_canon, OperationRef_canon, payload_canon by done.
  rewrite refs_tuple_canon by done. unfold event_attempt, event_operation.
  rewrite Ha. cbn [mbind result_bind]. rewrite Ho. cbn [mbind result_bind]. unfold make_JournalEvent.
  unfold event_id, event_type, event_payload, event_refs. rewrite make_request_instances by done.
  cbn [mbind result_bind]. unfold _bounded_int. destruct (_ <? _)%Z eqn:E; [lia|]. by destruct e.
Qed.

(** A request is storable when it was built by its constructor from a Python
    value (distinct keys, code points, doubles). *)
Record storable (r : JournalAppendRequest) : Prop := {
  so_wf : request_wf r;
  so_printable : printable (JournalAppendRequest_to_dict r);
}.

Lemma printable_request r :
  printable (JournalAppendRequest_to_dict r) →
  printable (VStr (ar_event_id r)) ∧ printable (VStr (ar_event_type r)) ∧
  printable (AttemptRef_to_dict (ar_attempt r)) ∧ printable (OperationRef_to_dict (ar_operation r)) ∧
  printable (_thaw_json (FMap (ar_payload r))) ∧
  printable (VList (ResourceRef_to_dict <$> ar_resource_refs r)).
Proof. intros [_ Hd]%printable_dict_inv. repeat (apply Forall_cons in Hd as [[_ ?] Hd]). by split_and!. Qed.

Lemma printable_event r n :
  printable (JournalAppendRequest_to_dict r) → printable (JournalEvent_to_dict (mkEvent r n)).
Proof.
  intros (Hi & Ht & Ha & Ho & Hp & Hr)%printable_request. unfold JournalEvent_to_dict. constructor.
  - by apply (bool_decide_unpack _).
  - repeat (apply Forall_cons; split; [apply printable_key|]); try done; [apply printable_u|constructor].
Qed.

Lemma decode_event r n bs :
  storable r → (1 ≤ n)%Z → encoded (JournalEvent_to_dict (mkEvent r n)) = Some bs →
  (decoded ← json_loads bs; JournalEvent_from_dict decoded) = Ok (mkEvent r n).
Proof.
  intros [Hw Hp] Hn He. unfold json_loads. rewrite (decode_encoded _ _ (printable_event r n Hp) He).
  cbn [mbind result_bind]. apply event_canon; [by split|]. by apply printable_request in Hp as (_ & _ & _ & _ & ? & _).
Qed.

(** A row written for an event reads back as the event while the operation
    that wrote it is recorded. *)
Lemma event_row_reads_back x db r n bs o :
  storable r → (1 ≤ n)%Z → gr_execution_id (at_generation (ar_attempt r)) = x →
  encoded (JournalEvent_to_dict (mkEvent r n)) = Some bs →
  _operation_row x (op_operation_id (ar_operation r)) db = Some o →
  claims o (ar_operation r) journal_event (ar_event_id r) = true →
  _event_from_row x db (row_of_event x (mkEvent r n) bs) = Ok (mkEvent r n).
Proof.
  intros Hr Hn Hx Hbs Ho Hc. unfold _event_from_row. cbn [ew_event_json ew_event_sha256 row_of_event].
  rewrite bool_decide_eq_true_2 by done. cbn [ensure mbind result_bind].
  rewrite (decode_event r n bs) by done. cbn [malformed mbind result_bind].
  unfold _canonical_json_bytes. rewrite Hbs. cbn [mbind result_bind].
  rewrite bool_decide_eq_true_2 by done. cbn [ensure mbind result_bind].
  assert (indexed_fields_agree x (mkEvent r n) (row_of_event x (mkEvent r n) bs) = true) as ->.
  { unfold indexed_fields_agree. cbn. rewrite Z.eqb_refl, !bool_decide_eq_true_2 by done. done. }
  cbn [ensure]. unfold event_operation. cbn [je_request]. rewrite Ho. unfold event_id. cbn [je_request].
  by rewrite Hc.
Qed.
End codec.
