(* ===== verification/SqliteInvariant.v ===== *)
(** * The state of a SQLite journal

    [journal_of x log db]: the tables of [db] hold exactly the journal [log] of
    execution [x].  Every operation of the repository is characterised by what
    it does to that log. *)

From S2P Require Import Prelude PyVal Json Models JournalPayload ResourceLimits JournalRecords JournalSnapshot JournalRuntime JournalReplay JsonParse SqliteStore SqliteJournal SqliteCodec.

(** ** Selections *)

Lemma find_filter {A} (p q : A → bool) l :
  List.find (λ r, p r && q r) l = List.find q (List.filter p l).
Proof.
  induction l as [|x l IH]; simpl; [done|]. destruct (p x); simpl; [|done]. by rewrite IH.
Qed.

Lemma find_Forall2 {A B} (P : A → B → Prop) (p : A → bool) (q : B → bool) l l' :
  Forall2 P l l' → (∀ a b, P a b → p a = q b) → option_Forall2 P (List.find p l) (List.find q l').
Proof.
  intros H Hpq. induction H as [|a b l l' Hab _ IH]; simpl; [constructor|].
  rewrite <-(Hpq a b Hab). destruct (p a); [by constructor|done].
Qed.

Lemma find_snoc {A} (p : A → bool) l x :
  List.find p (l ++ [x]) = match List.find p l with Some y => Some y | None => if p x then Some x else None end.
Proof. induction l as [|y l IH]; simpl; [done|]. by destruct (p y). Qed.

Lemma find_None_iff {A} (p : A → bool) l : List.find p l = None ↔ ∀ x, x ∈ l → p x = false.
Proof.
  split.
  - intros H x Hx%list_elem_of_In. by apply (find_none p l).
  - intros H. induction l as [|y l IH]; simpl; [done|]. rewrite (H y) by left. apply IH. intros x Hx. apply H. by right.
Qed.

Lemma find_Some_iff {A} (p : A → bool) l x : List.find p l = Some x → x ∈ l ∧ p x = true.
Proof. intros [H1 H2]%find_some. by rewrite list_elem_of_In. Qed.

Lemma filter_snoc {A} (p : A → bool) l x :
  List.filter p (l ++ [x]) = List.filter p l ++ (if p x then [x] else []).
Proof. rewrite List.filter_app. simpl. by destruct (p x). Qed.

Lemma existsb_false {A} (p : A → bool) l : existsb p l = false ↔ ∀ x, x ∈ l → p x = false.
Proof.
  rewrite <-not_true_iff_false, existsb_exists. setoid_rewrite <-list_elem_of_In. split.
  - intros H x Hx. destruct (p x) eqn:E; [destruct H; eauto|done].
  - intros H (x & Hx & Hp). specialize (H x Hx). congruence.
Qed.

Lemma sorted_by_index {A} (R : relation A) (l : list A) :
  (∀ i j a b, l !! i = Some a → l !! j = Some b → i < j → R a b) → StronglySorted R l.
Proof.
  induction l as [|x l IH]; intros H; constructor.
  - apply IH. intros i j a b Ha Hb Hij. apply (H (S i) (S j)); [done..|lia].
  - apply Forall_forall. intros y [i Hi]%list_elem_of_lookup. apply (H 0 (S i)); [done..|lia].
Qed.

Lemma sorted_lookup {A} (R : relation A) (l : list A) i j a b :
  StronglySorted R l → l !! i = Some a → l !! j = Some b → i < j → R a b.
Proof.
  intros Hs. revert i j. induction Hs as [|x l _ IH Hx]; intros i j Ha Hb Hij; [done|].
  destruct j as [|j]; [lia|]. destruct i as [|i]; simpl in *.
  - injection Ha as <-. rewrite Forall_forall in Hx. apply Hx. by eapply list_elem_of_lookup_2.
  - apply (IH i j); [done..|lia].
Qed.

(** ** The journal of an execution *)

Section journal.
Context `{U : Unicode} `{!UnicodeLaws U} `{F : UnicodeFold}.

Definition of_execution (x : pystr) (r : event_row) : bool := bool_decide (ew_execution_id r = x).
Definition receipt_of_execution (x : pystr) (r : receipt_row) : bool := bool_decide (rw_execution_id r = x).

(** The row of an event. *)
Definition stores (x : pystr) (e : JournalEvent) (row : event_row) : Prop :=
  ∃ bs, encoded (JournalEvent_to_dict e) = Some bs ∧ row = row_of_event x e bs.

(** The receipt of an event. *)
Definition receipt_of_event (x : pystr) (e : JournalEvent) : list receipt_row :=
  match _receipt_subject e with Ok (Some r) => [row_of_receipt x e r] | _ => [] end.

(** The operation of an event is recorded. *)
Definition recorded (x : pystr) (db : Db) (e : JournalEvent) : Prop :=
  ∃ o, _operation_row x (operation_id e) db = Some o ∧
       claims o (event_operation e) journal_event (event_id e) = true.

Record journal_of (x : pystr) (log : list JournalEvent) (db : Db) : Prop := {
  jo_rows : Forall2 (stores x) log (List.filter (of_execution x) (events db));
  jo_seq : je_store_seq <$> log = Z.of_nat <$> seq 1 (length log);
  jo_head : (executions db !! x = None ∧ log = []) ∨
            ∃ revision, executions db !! x = Some (mkExecution (Z.of_nat (length log) + 1) revision);
  jo_events : Forall (λ e, storable (je_request e) ∧ execution_of e = x) log;
  jo_ids : NoDup (event_id <$> log);
  jo_operations : NoDup (operation_id <$> log);
  jo_recorded : Forall (recorded x db) log;
  jo_targets op o : _operation_row x op db = Some o → ow_target_kind o = journal_event →
                    ∃ e, e ∈ log ∧ operation_id e = op;
  jo_receipts : List.filter (receipt_of_execution x) (event_receipts db) = log ≫= receipt_of_event x;
  (** sequence numbers fit a column *)
  jo_bound : (Z.of_nat (length log) + 1 < 2 ^ 63)%Z;
}.

(** *** Finding events *)

Section facts.
Context (x : pystr) (log : list JournalEvent) (db : Db).
Hypothesis Hj : journal_of x log db.

(** A selection among the rows of the execution is one among the events. *)
Lemma fetch_event (p : event_row → bool) (q : JournalEvent → bool) :
  (∀ e bs, q e = p (row_of_event x e bs)) →
  option_Forall2 (stores x) (List.find q log)
    (fetchone (λ r, bool_decide (ew_execution_id r = x) && p r) (events db)).
Proof.
  intros Hpq. unfold fetchone. rewrite find_filter. apply find_Forall2; [apply Hj|].
  intros e r (bs & _ & ->). apply Hpq.
Qed.

Lemma log_event_seq i e : log !! i = Some e → je_store_seq e = Z.of_nat (S i).
Proof.
  intros Hi. assert (Hs := jo_seq _ _ _ Hj).
  assert (H := f_equal (λ l, l !! i) Hs). rewrite !list_lookup_fmap, Hi, lookup_seq_lt in H.
  - simpl in H. injection H as ->. lia.
  - by eapply lookup_lt_Some.
Qed.

Lemma log_event_bounds e : e ∈ log → (1 ≤ je_store_seq e ≤ Z.of_nat (length log))%Z.
Proof.
  intros [i Hi]%list_elem_of_lookup. rewrite (log_event_seq _ _ Hi). apply lookup_lt_Some in Hi. lia.
Qed.

Lemma log_sorted : StronglySorted seq_lt log.
Proof.
  apply sorted_by_index. intros i j a b Ha Hb Hij. unfold seq_lt.
  rewrite (log_event_seq _ _ Ha), (log_event_seq _ _ Hb). lia.
Qed.

Lemma log_event_wf e : e ∈ log → storable (je_request e) ∧ execution_of e = x ∧ (1 ≤ je_store_seq e)%Z.
Proof.
  intros He. assert (H := jo_events _ _ _ Hj). rewrite Forall_forall in H. destruct (H e He).
  destruct (log_event_bounds e He). done.
Qed.

(** Every row of the execution reads back. *)
Lemma row_reads_back e row : e ∈ log → stores x e row → _event_from_row x db row = Ok e.
Proof.
  intros He (bs & Hbs & ->). destruct (log_event_wf e He) as (Hs & Hx & Hn).
  assert (Hr := jo_recorded _ _ _ Hj). rewrite Forall_forall in Hr. destruct (Hr e He) as (o & Ho & Hc).
  destruct e as [r n]. by eapply event_row_reads_back.
Qed.

Lemma rows_read_back es rows :
  Forall2 (stores x) es rows → (∀ e, e ∈ es → e ∈ log) → events_of_rows x db rows = Ok es.
Proof.
  intros H Hin. apply mapR_ok. induction H as [|e row es rows Her _ IH]; constructor.
  - apply row_reads_back; [apply Hin; left|done].
  - apply IH. intros e' He'. apply Hin. by right.
Qed.

Lemma fetch_operation (q : JournalEvent → bool) op :
  (∀ e, q e = bool_decide (operation_id e = op)) →
  option_Forall2 (stores x) (List.find q log)
    (fetchone (λ r, bool_decide (ew_execution_id r = x) && bool_decide (ew_operation_id r = op)) (events db)).
Proof. intros Hq. apply fetch_event. intros e bs. by rewrite Hq. Qed.
End facts.

(** *** Changes that leave the journal alone *)

(** What the journal of [x] is read from. *)
Record same_journal (x : pystr) (db db' : Db) : Prop := {
  sj_rows : List.filter (of_execution x) (events db') = List.filter (of_execution x) (events db);
  sj_receipts : List.filter (receipt_of_execution x) (event_receipts db') =
                List.filter (receipt_of_execution x) (event_receipts db);
  sj_head : executions db' !! x = executions db !! x ∨
            (executions db !! x = None ∧ ∃ revision, executions db' !! x = Some (mkExecution 1 revision));
  sj_operations op :
    _operation_row x op db' = _operation_row x op db ∨
    (_operation_row x op db = None ∧
     ∃ o, _operation_row x op db' = Some o ∧ ow_target_kind o ≠ journal_event);
}.

#[export] Instance same_journal_refl x : Reflexive (same_journal x).
Proof. intros db. split; auto. Qed.

#[export] Instance same_journal_trans x : Transitive (same_journal x).
Proof.
  intros a b c [Hr Hc Hh Ho] [Hr' Hc' Hh' Ho']. split.
  - by rewrite Hr'.
  - by rewrite Hc'.
  - destruct Hh' as [->|[Hb H']]; [done|]. rewrite Hb in Hh. destruct Hh as [Hh|(_ & ? & Hh)]; [|done].
    right. by rewrite <-Hh.
  - intros op. destruct (Ho' op) as [->|[Hb H']]; [done|]. right. split; [|done].
    destruct (Ho op) as [Hx|(_ & o & Hx & _)]; congruence.
Qed.

Lemma journal_frame x log db db' : journal_of x log db → same_journal x db db' → journal_of x log db'.
Proof.
  intros [Hr Hs Hh He Hi Ho Hrec Ht Hrc Hb] [Sr Sc Sh So]. split; try done.
  - by rewrite Sr.
  - destruct Sh as [->|[Hn [revision Hx]]]; [done|]. right. exists revision. rewrite Hx.
    destruct Hh as [[_ ->]|[r Hr']]; [done|congruence].
  - eapply Forall_impl; [exact Hrec|]. intros e (o & Hoe & Hc).
    destruct (So (operation_id e)) as [H|[H _]]; [|congruence]. exists o. by rewrite H.
  - intros op o Hop Hk. destruct (So op) as [H|(_ & o' & H & Hn)].
    + apply (Ht op o); [congruence|done].
    + congruence.
  - by rewrite Sc.
Qed.

Lemma ensure_execution_same x y db : same_journal x db (ensure_execution_row y db).
Proof.
  unfold ensure_execution_row. destruct (executions db !! y) eqn:E; [done|]. split; auto.
  simpl. destruct (decide (x = y)) as [->|Hn].
  - right. split; [done|]. exists 0%Z. by rewrite lookup_insert_eq.
  - left. by rewrite lookup_insert_ne.
Qed.

Lemma operation_row_snoc x op db r :
  _operation_row x op (with_operations (operations db ++ [r]) db) =
  match _operation_row x op db with
  | Some o => Some o
  | None => if operation_is x op r then Some r else None
  end.
Proof. unfold _operation_row, fetchone. simpl. apply find_snoc. Qed.

(** An operation of another execution, or with another target. *)
Lemma insert_operation_same x r db db' :
  insert_operation r db = Ok db' → ow_execution_id r ≠ x ∨ ow_target_kind r ≠ journal_event →
  same_journal x db db'.
Proof.
  unfold insert_operation. intros H Hx. case_match; [done|]. injection H as <-. split; auto. intros op.
  rewrite operation_row_snoc. destruct (_operation_row x op db); [by left|].
  destruct (operation_is x op r) eqn:E; [|by left]. unfold operation_is in E.
  apply andb_true_iff in E as [E%bool_decide_eq_true _]. destruct Hx; [done|]. right. eauto.
Qed.

Lemma insert_event_same x r db db' :
  insert_event r db = Ok db' → ew_execution_id r ≠ x → same_journal x db db'.
Proof.
  unfold insert_event. intros H Hx. case_match; [done|]. injection H as <-. split; auto. simpl.
  rewrite filter_snoc. unfold of_execution at 2. rewrite bool_decide_eq_false_2 by done. by rewrite app_nil_r.
Qed.

Lemma insert_receipt_same x r db db' :
  insert_receipt r db = Ok db' → rw_execution_id r ≠ x → same_journal x db db'.
Proof.
  unfold insert_receipt. intros H Hx. case_match; [done|]. injection H as <-. split; auto. simpl.
  rewrite filter_snoc. unfold receipt_of_execution at 2. rewrite bool_decide_eq_false_2 by done. by rewrite app_nil_r.
Qed.

Lemma advance_head_same x y seq db : x ≠ y → same_journal x db (advance_head y seq db).2.
Proof.
  intros Hx. unfold advance_head. repeat case_match; simpl; try done. split; auto. simpl. left.
  by rewrite lookup_insert_ne.
Qed.

Lemma insert_object_same x digest n db : same_journal x db (insert_object digest n db).
Proof. unfold insert_object. repeat case_match; try done; split; auto. Qed.

Lemma insert_artifact_same x r db db' : insert_artifact r db = Ok db' → same_journal x db db'.
Proof. unfold insert_artifact. intros H. case_match; [done|]. injection H as <-. split; auto. Qed.

#[export] Instance same_journal_preorder x : PreOrder (same_journal x).
Proof. split; apply _. Qed.
End journal.

(** ** Programs and how they change the database *)

(** The database after [m] is related to the one before, also when it raises. *)
Definition respects (R : relation Db) {A} (m : M Store pyexn A) : Prop :=
  ∀ s, R (st_db s) (st_db (m s).2).

Section respects.
Context (R : relation Db) `{!PreOrder R}.

Lemma respects_ret {A} (a : A) : respects R (mret a).
Proof. intros s. reflexivity. Qed.
Lemma respects_raise {A} e : respects R (raise (A:=A) e).
Proof. intros s. reflexivity. Qed.
Lemma respects_lift {A} (r : result pyexn A) : respects R (lift r).
Proof. intros s. reflexivity. Qed.
Lemma respects_query {A} (f : Db → A) : respects R (query f).
Proof. intros s. reflexivity. Qed.
Lemma respects_gets {A} (f : Store → A) : respects R (gets f).
Proof. intros s. reflexivity. Qed.
Lemma respects_files f g : respects R (modify (E:=pyexn) (λ s, mkStore (st_db s) (f s) (g s))).
Proof. intros s. reflexivity. Qed.

Lemma respects_bind {A B} (m : M Store pyexn A) (f : A → M Store pyexn B) :
  respects R m → (∀ a, respects R (f a)) → respects R (m ≫= f).
Proof.
  intros Hm Hf s. cbv [mbind M_bind]. specialize (Hm s). destruct (m s) as [[a|e] s']; [|done].
  etrans; [exact Hm|apply Hf].
Qed.

Lemma respects_execute f : (∀ db db', f db = Ok db' → R db db') → respects R (execute f).
Proof. intros Hf s. unfold execute. destruct (f (st_db s)) eqn:E; [by apply Hf|reflexivity]. Qed.

Lemma respects_transaction {A} (m : M Store pyexn A) : respects R m → respects R (_transaction m).
Proof.
  intros Hm s. unfold _transaction. set (start := mkStore _ _ _). specialize (Hm start).
  destruct (head (st_faults s)) as [[]|]; destruct (m start) as [[a|e] s']; try done; reflexivity.
Qed.

Lemma respects_errors {A} a b (m : M Store pyexn A) : respects R m → respects R (sqlite_errors a b m).
Proof.
  intros Hm s. unfold sqlite_errors, try_except. specialize (Hm s). by destruct (m s) as [[r|e] s'].
Qed.
End respects.

(** Follow a program statement by statement. *)
Ltac follow :=
  repeat lazymatch goal with
  | |- respects _ (mret _) => apply respects_ret; apply _
  | |- respects _ (raise _) => apply respects_raise; apply _
  | |- respects _ (lift _) => apply respects_lift; apply _
  | |- respects _ (query _) => apply respects_query; apply _
  | |- respects _ (gets _) => apply respects_gets; apply _
  | |- respects _ (modify _) => apply respects_files; apply _
  | |- respects _ (_transaction _) => apply respects_transaction; [apply _|]
  | |- respects _ (sqlite_errors _ _ _) => apply respects_errors
  | |- respects _ (_ ≫= _) => apply respects_bind; [apply _| |intros ?]
  | |- respects _ (match _ with _ => _ end) => case_match
  | |- respects _ (if _ then _ else _) => case_match
  end.

(** The journal of [x] is left alone. *)
Abbreviation keeps x := (respects (same_journal x)).

Section programs.
Context `{U : Unicode} `{!UnicodeLaws U} `{F : UnicodeFold}.

Lemma keeps_claim x y o kind key conflict :
  y ≠ x ∨ kind ≠ journal_event → keeps x (_claim_operation y o kind key conflict).
Proof.
  intros Hx. unfold _claim_operation. follow. apply respects_execute; [apply _|]. intros db db' Hdb.
  by apply (insert_operation_same _ _ _ _ Hdb).
Qed.

Lemma keeps_ensure x y : keeps x (_ensure_execution y).
Proof. apply respects_execute; [apply _|]. intros db db' [= <-]. apply ensure_execution_same. Qed.

Lemma keeps_read_object x digest n : keeps x (_read_object digest n).
Proof. unfold _read_object. follow. Qed.

Lemma keeps_install x content : keeps x (_install_object content).
Proof. unfold _install_object. follow; apply keeps_read_object. Qed.

Lemma keeps_put x y content media o preview kind key expected conflict :
  kind ≠ journal_event →
  keeps x (_put_artifact_with_connection y content media o preview kind key expected conflict).
Proof.
  intros Hk. unfold _put_artifact_with_connection. follow.
  - apply keeps_install.
  - apply keeps_ensure.
  - apply keeps_claim. by right.
  - apply respects_execute; [apply _|]. intros db db' [= <-]. apply insert_object_same.
  - apply respects_execute; [apply _|]. apply insert_artifact_same.
Qed.

Lemma keeps_replayed x y request : keeps x (_replayed_append y request).
Proof. unfold _replayed_append. follow. Qed.

(** Appending to another execution. *)
Lemma keeps_append_with_connection x y request : y ≠ x → keeps x (_append_with_connection y request).
Proof.
  intros Hx. unfold _append_with_connection, insert_receipt_of. follow.
  - apply keeps_claim. by left.
  - apply respects_execute; [apply _|]. intros db db' Hdb. by apply (insert_event_same _ _ _ _ Hdb).
  - apply respects_execute; [apply _|]. intros db db' Hdb. apply (insert_receipt_same _ _ _ _ Hdb).
    unfold row_of_receipt. by repeat case_match.
  - intros s. match goal with |- context [advance_head y ?seq _] =>
      assert (Hs := advance_head_same x y seq (st_db s) (not_eq_sym Hx)); by destruct (advance_head y seq (st_db s)) end.
Qed.

(** ** Appending an event *)

Lemma existsb_operation x op db :
  existsb (operation_is x op) (operations db) = bool_decide (is_Some (_operation_row x op db)).
Proof.
  unfold _operation_row, fetchone. induction (operations db) as [|o l IH]; [done|]. simpl.
  by destruct (operation_is x op o).
Qed.

Section appending.
Context (x : pystr) (log : list JournalEvent) (db : Db) (revision : Z).
Context (request : JournalAppendRequest) (bs : list N) (receipt : option (pystr * option pystr * option Z)).
Hypothesis Hj : journal_of x log db.
Hypothesis Hhead : executions db !! x = Some (mkExecution (Z.of_nat (length log) + 1) revision).
Hypothesis Hreq : storable request.
Hypothesis Hscope : gr_execution_id (at_generation (ar_attempt request)) = x.
Hypothesis Hop : _operation_row x (op_operation_id (ar_operation request)) db = None.
Hypothesis Hid : ar_event_id request ∉ event_id <$> log.

(** The event that is appended. *)
Definition appended : JournalEvent := mkEvent request (Z.of_nat (length log) + 1).

Hypothesis Hbs : encoded (JournalEvent_to_dict appended) = Some bs.
Hypothesis Hreceipt : _receipt_subject appended = Ok receipt.

Definition operation_added : operation_row :=
  mkOperationRow x (op_operation_id (ar_operation request)) (op_payload_sha256 (ar_operation request))
    journal_event (ar_event_id request).

Definition db_operation : Db := with_operations (operations db ++ [operation_added]) db.
Definition db_event : Db := with_events (events db ++ [row_of_event x appended bs]) db_operation.
Definition db_receipt : Db :=
  match receipt with
  | Some r => with_receipts (event_receipts db ++ [row_of_receipt x appended r]) db_event
  | None => db_event
  end.
Definition db_appended : Db :=
  with_executions (<[x := mkExecution (Z.of_nat (length log) + 2) revision]> (executions db)) db_receipt.

Lemma step_operation : insert_operation operation_added db = Ok db_operation.
Proof.
  unfold insert_operation. simpl. rewrite existsb_operation, Hop, Hhead.
  rewrite bool_decide_eq_false_2 by (by intros []). by rewrite bool_decide_eq_false_2.
Qed.

Lemma operation_row_added :
  _operation_row x (op_operation_id (ar_operation request)) db_operation = Some operation_added.
Proof.
  unfold db_operation. rewrite operation_row_snoc, Hop. unfold operation_is. simpl.
  by rewrite !bool_decide_eq_true_2.
Qed.

Lemma old_operation op o : _operation_row x op db = Some o → _operation_row x op db_operation = Some o.
Proof. intros H. unfold db_operation. by rewrite operation_row_snoc, H. Qed.

Lemma fresh_operation e : e ∈ log → operation_id e ≠ op_operation_id (ar_operation request).
Proof.
  intros He Heq. assert (Hr := jo_recorded _ _ _ Hj). rewrite Forall_forall in Hr.
  destruct (Hr e He) as (o & Ho & _). congruence.
Qed.

(** No row of the table clashes with the new one. *)
Lemma no_clash r : r ∈ events db → events_clash (row_of_event x appended bs) r = false.
Proof.
  intros Hr. unfold events_clash. destruct (decide (x = ew_execution_id r)) as [Hx|Hx];
    [|cbn [ew_execution_id row_of_event]; by rewrite bool_decide_eq_false_2].
  assert (r ∈ List.filter (of_execution x) (events db)) as [i Hi]%list_elem_of_lookup.
  { apply list_elem_of_In, filter_In. rewrite <-list_elem_of_In. split; [done|]. by apply bool_decide_eq_true. }
  destruct (Forall2_lookup_r _ _ _ _ _ (jo_rows _ _ _ Hj) Hi) as (e & He & bs' & _ & ->).
  apply list_elem_of_lookup_2 in He. assert (Hb := log_event_bounds _ _ _ Hj e He).
  apply andb_false_iff. right. cbn [ew_store_seq ew_event_id ew_operation_id row_of_event].
  unfold appended at 1. cbn [je_store_seq].
  rewrite !bool_decide_eq_false_2; [done|..].
  - intros Heq. apply (fresh_operation e He). done.
  - intros Heq. apply Hid. change (event_id appended ∈ event_id <$> log). rewrite Heq.
    by apply list_elem_of_fmap_2.
  - lia.
Qed.

Lemma step_event : insert_event (row_of_event x appended bs) db_operation = Ok db_event.
Proof.
  unfold insert_event. cbn [ew_store_seq row_of_event appended je_store_seq].
  rewrite (proj2 (Z.ltb_ge _ _)) by lia.
  assert (existsb (events_clash (row_of_event x appended bs)) (events db_operation) = false) as ->.
  { apply existsb_false. intros r Hr. by apply no_clash. }
  rewrite existsb_operation. cbn [ew_execution_id ew_operation_id row_of_event].
  unfold event_operation, appended. cbn [je_request]. by rewrite operation_row_added.
Qed.

Lemma receipt_added_ok r : receipt = Some r → receipt_check (row_of_receipt x appended r) = true.
Proof.
  intros ->. revert Hreceipt. unfold _receipt_subject. case_bool_decide.
  - intros (c & _ & [= <-])%result_bind_ok. done.
  - case_bool_decide; [|case_bool_decide; [|done]]; intros (c & _ & [= <-])%result_bind_ok; done.
Qed.

Lemma step_receipt r :
  receipt = Some r → insert_receipt (row_of_receipt x appended r) db_event = Ok db_receipt.
Proof.
  intros Hr. unfold db_receipt, insert_receipt. rewrite (receipt_added_ok r Hr), Hr. cbn [negb orb].
  assert (existsb (receipts_clash (row_of_receipt x appended r)) (event_receipts db_event) = false) as ->.
  { apply existsb_false. intros c Hc. simpl in Hc. unfold receipts_clash.
    destruct r as [[kind call] it]. simpl. destruct (decide (x = rw_execution_id c)) as [Hx|Hx];
      [|by rewrite bool_decide_eq_false_2].
    assert (c ∈ log ≫= receipt_of_event x) as (e & He & Hin)%list_elem_of_bind.
    { rewrite <-(jo_receipts _ _ _ Hj). apply list_elem_of_In, filter_In. rewrite <-list_elem_of_In.
      split; [done|]. by apply bool_decide_eq_true. }
    assert (Hb := log_event_bounds _ _ _ Hj e Hin). rewrite (bool_decide_eq_true_2 (x = _)) by done.
    rewrite bool_decide_eq_false_2; [done|]. intros Heq.
    assert (rw_store_seq c = je_store_seq e) as Hs; [|lia].
    unfold receipt_of_event in He. repeat case_match; try (by apply elem_of_nil in He).
    apply list_elem_of_singleton in He as ->. unfold row_of_receipt. by repeat case_match. }
  assert (existsb (event_at (rw_execution_id (row_of_receipt x appended r))
            (rw_store_seq (row_of_receipt x appended r))) (events db_event) = true) as ->; [|done].
  apply existsb_exists. exists (row_of_event x appended bs). split.
  - apply list_elem_of_In. simpl. apply elem_of_app. right. by left.
  - destruct r as [[kind call] it]. unfold event_at. simpl. by rewrite !bool_decide_eq_true_2.
Qed.

Lemma step_head : advance_head x (Z.of_nat (length log) + 1) db_receipt = (1, db_appended).
Proof.
  assert (executions db_receipt = executions db) as He by (unfold db_receipt; by destruct receipt).
  unfold advance_head, db_appended. rewrite He, Hhead. simpl. rewrite Z.eqb_refl.
  by replace (Z.of_nat (length log) + 1 + 1)%Z with (Z.of_nat (length log) + 2)%Z by lia.
Qed.

Lemma rows_appended :
  List.filter (of_execution x) (events db_appended) =
  List.filter (of_execution x) (events db) ++ [row_of_event x appended bs].
Proof.
  assert (events db_appended = events db ++ [row_of_event x appended bs]) as ->.
  { unfold db_appended, db_receipt. by destruct receipt. }
  rewrite filter_snoc. unfold of_execution at 2. simpl. by rewrite bool_decide_eq_true_2.
Qed.

Lemma receipts_appended :
  List.filter (receipt_of_execution x) (event_receipts db_appended) =
  List.filter (receipt_of_execution x) (event_receipts db) ++ receipt_of_event x appended.
Proof.
  unfold db_appended, db_receipt, receipt_of_event. rewrite Hreceipt. destruct receipt as [r|]; simpl.
  - rewrite filter_snoc. unfold receipt_of_execution at 2. destruct r as [[kind call] it]. simpl.
    by rewrite bool_decide_eq_true_2.
  - by rewrite app_nil_r.
Qed.

Lemma operations_appended op : _operation_row x op db_appended = _operation_row x op db_operation.
Proof. unfold db_appended, db_receipt. by destruct receipt. Qed.

Lemma recorded_appended : Forall (recorded x db_appended) (log ++ [appended]).
Proof.
  apply Forall_app. split.
  - eapply Forall_impl; [exact (jo_recorded _ _ _ Hj)|]. intros e (o & Ho & Hc). exists o. rewrite operations_appended.
    split; [by apply old_operation|done].
  - constructor; [|done]. exists operation_added. rewrite operations_appended. split; [apply operation_row_added|].
    unfold claims. simpl. by rewrite !bool_decide_eq_true_2.
Qed.

Hypothesis Hbound : (Z.of_nat (length log) + 2 < 2 ^ 63)%Z.

Lemma journal_appended : journal_of x (log ++ [appended]) db_appended.
Proof.
  destruct Hj as [Jr Js Jh Je Ji Jo Jrec Jt Jrc Jb]. split.
  - rewrite rows_appended. apply Forall2_app; [done|]. constructor; [|done]. by exists bs.
  - rewrite fmap_app, length_app, seq_app, fmap_app, Js. simpl. do 2 f_equal. lia.
  - right. exists revision. unfold db_appended. simpl. rewrite lookup_insert_eq, length_app. simpl. do 2 f_equal. lia.
  - apply Forall_app. split; [done|]. by constructor.
  - rewrite fmap_app. apply NoDup_snoc. done.
  - rewrite fmap_app. apply NoDup_snoc. split; [done|]. intros (e & He & Hin)%list_elem_of_fmap.
    by apply (fresh_operation e Hin).
  - apply recorded_appended.
  - intros op o. rewrite operations_appended. unfold db_operation. rewrite operation_row_snoc.
    destruct (_operation_row x op db) as [o'|] eqn:E.
    + intros [= <-] Hk. destruct (Jt op o' E Hk) as (e & He & Heq). exists e. rewrite elem_of_app. eauto.
    + destruct (operation_is x op operation_added) eqn:Eo; [|done]. intros _ _. exists appended.
      rewrite elem_of_app, list_elem_of_singleton. unfold operation_is in Eo.
      apply andb_true_iff in Eo as [_ Eo%bool_decide_eq_true]. auto.
  - rewrite receipts_appended, Jrc, bind_app. simpl. by rewrite app_nil_r.
  - rewrite length_app. simpl. lia.
Qed.
End appending.
End programs.
