(* ===== verification/SqliteRefinement.v ===== *)
(** * The SQLite journal implements an append-only log

    The abstract journal is a list of events and the operations that were
    claimed for something else.  [append] is proved to implement it on every
    branch, whatever the database holds for other executions. *)

From S2P Require Import Prelude PyVal Json Models JournalPayload ResourceLimits JournalRecords JournalSnapshot JournalRuntime JournalReplay JsonParse SqliteStore SqliteJournal SqliteCodec SqliteInvariant.

(** ** The abstract journal *)

Section spec.
Context `{U : Unicode} `{F : UnicodeFold}.

(** The event a request with a new operation appends, or why it is refused. *)
Definition new_event (log : list JournalEvent) (request : JournalAppendRequest) : R JournalEvent :=
  let e := mkEvent request (Z.of_nat (length log) + 1) in
  _ ← ensure (negb (bool_decide (ar_event_id request ∈ event_id <$> log))) JournalConflictError;
  receipt ← _receipt_subject e;
  _ ← _canonical_json_bytes (JournalEvent_to_dict e);
  _ ← match receipt with Some (_, _, Some i) => bind_int i | _ => Ok 0%Z end;
  _ ← bind_int (Z.of_nat (length log) + 2);
  Ok e.

(** A request repeats the event of its operation, is refused when the operation
    means something else, or appends an event. *)
Definition log_append_spec (foreign : pystr → bool) (log : list JournalEvent)
    (request : JournalAppendRequest) : R (JournalEvent * bool) * list JournalEvent :=
  match List.find (λ e, bool_decide (operation_id e = op_operation_id (ar_operation request))) log with
  | Some e =>
      (if _request_matches_event request e then Ok (e, true) else Err JournalConflictError, log)
  | None =>
      if foreign (op_operation_id (ar_operation request)) then (Err JournalConflictError, log)
      else match new_event log request with
           | Ok e => (Ok (e, false), log ++ [e])
           | Err error => (Err error, log)
           end
  end.
End spec.

(** Rewrite the next step of a program. *)
Lemma bind_lift_ok {S A B} (a : A) (f : A → M S pyexn B) s : (lift (Ok a) ≫= f) s = f a s.
Proof. done. Qed.
Lemma bind_lift_err {S A B} e (f : A → M S pyexn B) s : (lift (Err e) ≫= f) s = (Err e, s).
Proof. done. Qed.
Lemma bind_query {A B} (q : Db → A) (f : A → M Store pyexn B) s : (query q ≫= f) s = f (q (st_db s)) s.
Proof. done. Qed.
Lemma bind_execute {B} g db (f : unit → M Store pyexn B) s :
  g (st_db s) = Ok db → (execute g ≫= f) s = f tt (with_db db s).
Proof. intros H. cbv [mbind M_bind execute]. by rewrite H. Qed.
Lemma bind_case {S A B} (m : M S pyexn A) (f : A → M S pyexn B) s :
  (m ≫= f) s = match m s with (Ok a, s') => f a s' | (Err e, s') => (Err e, s') end.
Proof. done. Qed.
Lemma bind_run {S A B} (m : M S pyexn A) a (f : A → M S pyexn B) s s' :
  m s = (Ok a, s') → (m ≫= f) s = f a s'.
Proof. intros H. cbv [mbind M_bind]. by rewrite H. Qed.

Section refinement.
Context `{U : Unicode} `{!UnicodeLaws U} `{F : UnicodeFold}.
Context (x : pystr).

Lemma cursor_made e :
  request_wf (je_request e) → (1 ≤ je_store_seq e)%Z →
  make_EventCursor (VInt (je_store_seq e)) (VStr (event_id e)) = Ok (cursor_of e).
Proof.
  intros Hw Hn. unfold make_EventCursor, _bounded_int. rewrite (proj2 (Z.ltb_ge _ _)) by lia.
  cbn [mbind result_bind]. unfold event_id. rewrite (rw_event_id _ Hw). done.
Qed.

Lemma append_result_made e b :
  make_JournalAppendResult (Inst e) (Inst (cursor_of e)) (VBool b) = Ok (mkAppendResult e (cursor_of e) b).
Proof.
  unfold make_JournalAppendResult. cbn [record_of mbind result_bind cursor_of ec_event_id ec_store_seq].
  rewrite bool_decide_eq_true_2 by done. by rewrite Z.eqb_refl.
Qed.

Lemma event_made request n :
  request_wf request → (1 ≤ n)%Z →
  make_JournalEvent (VStr (ar_event_id request)) (VStr (ar_event_type request))
    (Inst (ar_attempt request)) (Inst (ar_operation request)) (VInt n)
    (_thaw_json (FMap (ar_payload request))) (instances (ar_resource_refs request)) = Ok (mkEvent request n).
Proof.
  intros Hw Hn. unfold make_JournalEvent. rewrite make_request_instances by done. cbn [mbind result_bind].
  unfold _bounded_int. by rewrite (proj2 (Z.ltb_ge _ _)).
Qed.

(** An event id is known exactly when it is in the log. *)
Lemma known_event_id log db id :
  journal_of x log db →
  bool_decide (fetchone (λ r, bool_decide (ew_execution_id r = x) && bool_decide (ew_event_id r = id))
                 (events db) = None) = negb (bool_decide (id ∈ event_id <$> log)).
Proof.
  intros Hj.
  assert (H := fetch_event x log db Hj (λ r, bool_decide (ew_event_id r = id))
                 (λ e, bool_decide (event_id e = id)) (λ e bs, eq_refl)).
  destruct (decide (id ∈ event_id <$> log)) as [Hin|Hn].
  - rewrite (bool_decide_eq_true_2 (id ∈ _)) by done. apply bool_decide_eq_false.
    apply list_elem_of_fmap in Hin as (e & -> & He).
    destruct (List.find _ log) eqn:E; [inversion H; congruence|].
    rewrite find_None_iff in E. specialize (E e He). by rewrite bool_decide_eq_true_2 in E.
  - rewrite (bool_decide_eq_false_2 (id ∈ _)) by done. apply bool_decide_eq_true.
    destruct (List.find _ log) as [e|] eqn:E; [|by inversion H].
    apply find_Some_iff in E as [He Heq%bool_decide_eq_true]. destruct Hn. subst id. by apply list_elem_of_fmap_2.
Qed.

(** ** Appending *)

Lemma run_claim_operation request s :
  _operation_row x (op_operation_id (ar_operation request)) (st_db s) = None →
  is_Some (executions (st_db s) !! x) →
  _claim_operation x (ar_operation request) journal_event (ar_event_id request) JournalConflictError s =
  (Ok true, with_db (db_operation x (st_db s) request) s).
Proof.
  intros Hop [row Hx]. unfold _claim_operation. rewrite bind_query, Hop.
  rewrite (bind_execute _ (db_operation x (st_db s) request)); [done|].
  unfold insert_operation. cbn [ow_execution_id ow_operation_id]. rewrite existsb_operation, Hop, Hx.
  by rewrite bool_decide_eq_false_2 by (by intros []).
Qed.

Section run.
Context (log : list JournalEvent) (s : Store) (revision : Z) (request : JournalAppendRequest).
Hypothesis Hj : journal_of x log (st_db s).
Hypothesis Hhead : executions (st_db s) !! x = Some (mkExecution (Z.of_nat (length log) + 1) revision).
Hypothesis Hreq : storable request.
Hypothesis Hscope : gr_execution_id (at_generation (ar_attempt request)) = x.
Hypothesis Hop : _operation_row x (op_operation_id (ar_operation request)) (st_db s) = None.

Lemma run_receipt receipt bs s' :
  ar_event_id request ∉ event_id <$> log → _receipt_subject (appended log request) = Ok receipt →
  st_db s' = db_event x log (st_db s) request bs →
  insert_receipt_of x (appended log request) receipt s' =
  match (match receipt with Some (_, _, Some i) => bind_int i | _ => Ok 0%Z end) with
  | Ok _ => (Ok tt, with_db (db_receipt x log (st_db s) request bs receipt) s')
  | Err e => (Err e, s')
  end.
Proof.
  intros Hid Hr Hs'. unfold insert_receipt_of. destruct receipt as [[[kind call] it]|].
  - cbn [snd]. assert (Hstep : insert_receipt (row_of_receipt x (appended log request) (kind, call, it))
      (db_event x log (st_db s) request bs) = Ok (db_receipt x log (st_db s) request bs (Some (kind, call, it))))
      by (by eapply step_receipt).
    assert (execute (insert_receipt (row_of_receipt x (appended log request) (kind, call, it))) s' =
            (Ok tt, with_db (db_receipt x log (st_db s) request bs (Some (kind, call, it))) s')) as He.
    { unfold execute. by rewrite Hs', Hstep. }
    destruct it as [i|]; [destruct (bind_int i); [|done]|]; by rewrite bind_lift_ok.
  - by destruct s'; simpl in *; subst.
Qed.

Lemma run_append_with_connection :
  match new_event log request with
  | Ok e => ∃ db', _append_with_connection x request s =
                   (Ok (mkAppendResult e (cursor_of e) false), with_db db' s) ∧
                   journal_of x (log ++ [e]) db'
  | Err error => ∃ db', _append_with_connection x request s = (Err error, with_db db' s)
  end.
Proof.
  unfold _append_with_connection. rewrite bind_query, (known_event_id log) by done. unfold new_event.
  destruct (decide (ar_event_id request ∈ event_id <$> log)) as [Hin|Hid].
  { rewrite (bool_decide_eq_true_2 (_ ∈ _)) by done. exists (st_db s). by destruct s. }
  rewrite (bool_decide_eq_false_2 (_ ∈ _)) by done. cbn [negb ensure]. rewrite bind_lift_ok, bind_query, Hhead.
  cbn [ex_next_store_seq]. rewrite bind_lift_ok. assert (Hw := so_wf _ Hreq).
  rewrite event_made by (done || lia). rewrite bind_lift_ok. fold (appended log request). cbn [mbind result_bind].
  destruct (_receipt_subject (appended log request)) as [receipt|e] eqn:Er; cbn [mbind result_bind];
    [|exists (st_db s); by destruct s].
  rewrite bind_lift_ok. rewrite (bind_run _ _ _ _ _ (run_claim_operation request s Hop (ex_intro _ _ Hhead))).
  unfold _canonical_json_bytes. destruct (encoded (JournalEvent_to_dict (appended log request))) as [bs|] eqn:Eb;
    cbn [mbind result_bind]; [|by eexists].
  rewrite bind_lift_ok. rewrite (bind_execute _ (db_event x log (st_db s) request bs)).
  2: { by eapply step_event. }
  rewrite bind_case, (run_receipt receipt bs) by done.
  destruct (match receipt with Some (_, _, Some i) => bind_int i | _ => Ok 0%Z end) as [i|e] eqn:Ei;
    cbn [mbind result_bind]; [|by eexists].
  replace (Z.of_nat (length log) + 1 + 1)%Z with (Z.of_nat (length log) + 2)%Z by lia.
  destruct (bind_int (Z.of_nat (length log) + 2)) as [n|e] eqn:En; cbn [mbind result_bind]; [|by eexists].
  rewrite bind_lift_ok. exists (db_appended x log (st_db s) revision request bs receipt). split.
  - rewrite bind_case. cbn [st_db with_db].
    rewrite (step_head x log (st_db s) revision) by done.
    cbn [Nat.eqb ensure]. rewrite bind_lift_ok.
    change (VInt (Z.of_nat (length log) + 1)) with (VInt (je_store_seq (appended log request))).
    rewrite cursor_made by (done || (simpl; lia)). by rewrite bind_lift_ok, append_result_made.
  - apply journal_appended; try done. unfold bind_int in En. case_match eqn:Eb'; [|done].
    apply andb_true_iff in Eb' as [_ Hlt%Z.ltb_lt]. done.
Qed.
End run.

(** ** Repeating a request *)

Lemma matches_claims request e o :
  _request_matches_event request e = true → claims o (event_operation e) journal_event (event_id e) = true →
  claims o (ar_operation request) journal_event (ar_event_id request) = true.
Proof.
  unfold _request_matches_event. rewrite !andb_true_iff.
  intros (((((Hi & _) & _) & Ho) & _) & _). apply bool_decide_eq_true in Hi, Ho. by rewrite Hi, Ho.
Qed.

Lemma run_replayed log request s :
  journal_of x log (st_db s) →
  _replayed_append x request s =
  (match List.find (λ e, bool_decide (operation_id e = op_operation_id (ar_operation request))) log with
   | Some e => if _request_matches_event request e then Ok (Some (mkAppendResult e (cursor_of e) true))
               else Err JournalConflictError
   | None => if bool_decide (is_Some (_operation_row x (op_operation_id (ar_operation request)) (st_db s)))
             then Err JournalConflictError else Ok None
   end, s).
Proof.
  intros Hj. unfold _replayed_append. rewrite bind_query.
  set (op := op_operation_id (ar_operation request)).
  assert (Hf := fetch_operation x log (st_db s) Hj (λ e, bool_decide (operation_id e = op)) op (λ e, eq_refl)).
  destruct (List.find _ log) as [e|] eqn:Efind.
  - apply find_Some_iff in Efind as [He Hop%bool_decide_eq_true].
    inversion Hf as [? row Hrow Hleft Hright|]; subst.
    assert (Hr := jo_recorded _ _ _ Hj). rewrite Forall_forall in Hr. destruct (Hr e He) as (o & Ho & Hc).
    rewrite Hop in Ho. rewrite Ho. destruct (claims o (ar_operation request) journal_event (ar_event_id request)) eqn:Ec.
    + cbn [ensure]. rewrite bind_lift_ok, bind_query. unfold id. rewrite <-Hright.
      rewrite (row_reads_back x log (st_db s) Hj e row) by done. rewrite bind_lift_ok.
      destruct (log_event_wf x log (st_db s) Hj e He) as (Hs & _ & Hn).
      destruct (_request_matches_event request e); [|done]. cbn [ensure]. rewrite bind_lift_ok, cursor_made by (done || apply Hs).
      by rewrite bind_lift_ok, append_result_made.
    + destruct (_request_matches_event request e) eqn:Em; [|done].
      rewrite (matches_claims _ _ _ Em Hc) in Ec. done.
  - destruct (_operation_row x op (st_db s)) as [o|] eqn:Eo; [|done].
    rewrite bool_decide_eq_true_2 by done. destruct (claims o _ journal_event _) eqn:Ec; [|done].
    unfold claims in Ec. rewrite !andb_true_iff, !bool_decide_eq_true in Ec. destruct Ec as ((_ & Hk) & _).
    destruct (jo_targets _ _ _ Hj op o Eo Hk) as (e & He & Hop).
    rewrite find_None_iff in Efind. specialize (Efind e He). by rewrite bool_decide_eq_true_2 in Efind.
Qed.

(** ** The whole operation *)

Definition foreign (db : Db) (op : pystr) : bool := bool_decide (is_Some (_operation_row x op db)).

Definition append_result (r : R (JournalEvent * bool)) : R JournalAppendResult :=
  match r with Ok (e, duplicate) => Ok (mkAppendResult e (cursor_of e) duplicate) | Err e => Err e end.

Lemma new_event_error log request e :
  new_event log request = Err e → e ≠ sqlite3_IntegrityError ∧ e ≠ sqlite3_OperationalError.
Proof.
  unfold new_event. case_bool_decide; cbn [negb ensure mbind result_bind]; [by intros [= <-]|].
  set (ev := mkEvent _ _). destruct (_receipt_subject ev) as [receipt|e'] eqn:Er; cbn [mbind result_bind].
  - unfold _canonical_json_bytes. destruct (encoded _); cbn [mbind result_bind]; [|by intros [= <-]].
    assert (∀ z, match bind_int z with Err e => e = OverflowError | Ok _ => True end) as Hb.
    { intros z. unfold bind_int. by destruct (_ && _). }
    destruct (match receipt with Some (_, _, Some i) => bind_int i | _ => Ok 0%Z end) eqn:Ei; cbn [mbind result_bind].
    + destruct (bind_int _) eqn:En; [done|]. specialize (Hb (Z.of_nat (length log) + 2)%Z). rewrite En in Hb.
      intros [= <-]. by subst.
    + intros [= <-]. destruct receipt as [[[? ?] [i|]]|]; try done. specialize (Hb i). rewrite Ei in Hb. by subst.
  - intros [= <-]. revert Er. unfold _receipt_subject, receipt_iteration, _required_text.
    repeat case_match; cbn [mbind result_bind]; by intros [= <-].
Qed.

Lemma head_after_ensure log db :
  journal_of x log db →
  ∃ revision, executions (ensure_execution_row x db) !! x = Some (mkExecution (Z.of_nat (length log) + 1) revision).
Proof.
  intros Hj. unfold ensure_execution_row. destruct (jo_head _ _ _ Hj) as [[Hn ->]|[revision Hx]].
  - rewrite Hn. exists 0%Z. simpl. by rewrite lookup_insert_eq.
  - rewrite Hx. eauto.
Qed.

Lemma ensure_operations y op db : _operation_row y op (ensure_execution_row x db) = _operation_row y op db.
Proof. unfold ensure_execution_row. by case_match. Qed.

(** The body of the transaction. *)
Definition append_body (request : JournalAppendRequest) : M Store pyexn JournalAppendResult :=
  _ ← _ensure_execution x;
  replayed ← _replayed_append x request;
  match replayed with
  | Some result => mret result
  | None => _append_with_connection x request
  end.

Lemma run_append_body log request s :
  journal_of x log (st_db s) → storable request → gr_execution_id (at_generation (ar_attempt request)) = x →
  ∃ db', append_body request s =
         (append_result (log_append_spec (foreign (st_db s)) log request).1, with_db db' s) ∧
  ((∃ e, (log_append_spec (foreign (st_db s)) log request).1 = Ok (e, false)) →
   journal_of x (log_append_spec (foreign (st_db s)) log request).2 db') ∧
  ((∃ e, (log_append_spec (foreign (st_db s)) log request).1 = Ok (e, true)) → db' = st_db s).
Proof.
  intros Hj Hreq Hscope. unfold append_body, _ensure_execution.
  rewrite (bind_execute _ (ensure_execution_row x (st_db s))) by done.
  set (s1 := with_db (ensure_execution_row x (st_db s)) s).
  assert (Hj1 : journal_of x log (st_db s1)) by (eapply journal_frame; [exact Hj|apply ensure_execution_same]).
  rewrite bind_case, (run_replayed log) by done. unfold log_append_spec.
  assert (Hrow : _operation_row x (op_operation_id (ar_operation request)) (st_db s1) =
                 _operation_row x (op_operation_id (ar_operation request)) (st_db s)) by apply ensure_operations.
  rewrite Hrow. destruct (List.find _ log) as [e|] eqn:Ef.
  - assert (st_db s1 = st_db s) as Hsame.
    { simpl. unfold ensure_execution_row. destruct (jo_head _ _ _ Hj) as [[_ ->]|[revision ->]]; done. }
    destruct (_request_matches_event request e); exists (st_db s1); (split; [done|]); split; try done;
      by intros [? [= _]].
  - unfold foreign. case_bool_decide as Hsome; [exists (st_db s1); split; [done|]; split; by intros [? [=]]|].
    destruct (head_after_ensure log (st_db s) Hj) as [revision Hhead].
    assert (Hop : _operation_row x (op_operation_id (ar_operation request)) (st_db s1) = None).
    { rewrite Hrow. by apply eq_None_not_Some. }
    assert (Hrun := run_append_with_connection log s1 revision request Hj1 Hhead Hreq Hscope Hop).
    destruct (new_event log request) as [e|e]; destruct Hrun as (db' & Hrun); [destruct Hrun as [Hrun Hj']|].
    + exists db'. rewrite Hrun. split; [done|]. split; [done|]. by intros [? [=]].
    + exists db'. rewrite Hrun. split; [done|]. split; by intros [? [=]].
Qed.

(** No fault strikes the next transaction. *)
Definition no_fault (s : Store) : Prop :=
  match head (st_faults s) with None | Some NoFault => True | _ => False end.

Lemma run_transaction {A} (m : M Store pyexn A) s :
  no_fault s →
  _transaction m s =
  match m (mkStore (st_db s) (st_files s) (tail (st_faults s))) with
  | (Ok a, s') => (Ok a, s')
  | (Err e, s') => (Err e, with_db (st_db s) s')
  end.
Proof.
  unfold no_fault, _transaction. intros H. destruct (head (st_faults s)) as [[]|]; try done;
    by destruct (m _) as [[a|e] s'].
Qed.

Lemma append_unfold request s :
  gr_execution_id (at_generation (ar_attempt request)) = x →
  append x (Inst request) s =
  sqlite_errors JournalConflictError JournalRepositoryError (_transaction (append_body request)) s.
Proof. intros Hx. unfold append, _scope_attempt. by rewrite bool_decide_eq_true_2. Qed.

Lemma spec_log foreign log request r log' :
  log_append_spec foreign log request = (r, log') →
  match r with Ok (e, false) => log' = log ++ [e] | _ => log' = log end.
Proof. unfold log_append_spec. repeat case_match; by intros [= <- <-]. Qed.

Lemma spec_error foreign log request e log' :
  log_append_spec foreign log request = (Err e, log') →
  e ≠ sqlite3_IntegrityError ∧ e ≠ sqlite3_OperationalError.
Proof.
  unfold log_append_spec. repeat case_match; intros [= <- <-]; try done. by eapply new_event_error.
Qed.

(** The append of a repository bound to [x], when no fault strikes it. *)
Lemma append_refines log request s r log' :
  journal_of x log (st_db s) → storable request →
  gr_execution_id (at_generation (ar_attempt request)) = x → no_fault s →
  log_append_spec (foreign (st_db s)) log request = (r, log') →
  ∃ s', append x (Inst request) s = (append_result r, s') ∧ journal_of x log' (st_db s') ∧
        (log' = log → st_db s' = st_db s).
Proof.
  intros Hj Hreq Hx Hf Hspec. rewrite append_unfold by done. unfold sqlite_errors, try_except.
  rewrite run_transaction by done. set (start := mkStore _ _ _).
  destruct (run_append_body log request start Hj Hreq Hx) as (db' & Hrun & Hnew & Hdup).
  change (st_db start) with (st_db s) in *. rewrite Hspec in *. cbn [fst snd] in *. rewrite Hrun.
  assert (Hlog := spec_log _ _ _ _ _ Hspec). destruct r as [[e []]|e]; cbn [append_result].
  - eexists. split; [done|]. subst log'. simpl. rewrite (Hdup ltac:(eauto)). done.
  - eexists. split; [done|]. split; [apply Hnew; eauto|]. subst log'. intros Heq.
    apply (f_equal length) in Heq. rewrite length_app in Heq. simpl in Heq. lia.
  - destruct (spec_error _ _ _ _ _ Hspec). rewrite !bool_decide_eq_false_2 by done.
    eexists. split; [done|]. by subst log'.
Qed.
End refinement.
