(* ===== verification/SqliteLeases.v ===== *)
(** * Provider request leases in SQLite (src/unchain/persistence/sqlite_v2.py,
      lease port)

    [load] and [compare_and_swap] of the provider request leases: every
    revision is a row, the head of a subject names its latest revision, and the
    operation that wrote a revision is claimed in the ledger of the journal. *)

From S2P Require Import Prelude PyVal Json Models Diagnostics JournalPayload ResourceLimits JournalRecords JournalSnapshot JournalRuntime JsonParse SqliteStore SqliteJournal RequestLease.

Definition _subject_key (s : ProviderRequestSubject) : subject_columns :=
  (gr_execution_id (at_generation (attempt s)), gr_generation_id (at_generation (attempt s)),
   at_attempt_id (attempt s), iteration s, envelope_sha256 s, route s, retry_ordinal s).

Definition subject_target_value (s : ProviderRequestSubject) (revision : Z) : pyval :=
  VDict [field "subject" (VDict (subject_to_dict s)); field "revision" (VInt revision)].

Definition _subject_target (s : ProviderRequestSubject) (revision : Z) : R pystr :=
  bs ← _canonical_json_bytes (subject_target_value s revision); Ok (sha256_hex bs).

Definition _subject_sha256 (s : ProviderRequestSubject) : R pystr :=
  bs ← _canonical_json_bytes (VDict (subject_to_dict s)); Ok (sha256_hex bs).

(** ** Statements *)

Definition lease_row_is (k : subject_columns) (revision : Z) (r : lease_row) : bool :=
  bool_decide (lw_key r = k) && (lw_revision r =? revision)%Z.

Definition execution_column (k : subject_columns) : pystr :=
  let '(x, _, _, _, _, _, _) := k in x.

(** Two rows that a key of [provider_request_lease_revisions] does not admit
    together. *)
Definition lease_rows_clash (r r' : lease_row) : bool :=
  lease_row_is (lw_key r) (lw_revision r) r'
  || bool_decide (execution_column (lw_key r) = execution_column (lw_key r'))
     && bool_decide (lw_operation_id r = lw_operation_id r').

Definition insert_lease_row (r : lease_row) (db : Db) : R Db :=
  if (lw_revision r <? 1)%Z || existsb (lease_rows_clash r) (provider_request_lease_revisions db)
     || negb (existsb (operation_is (execution_column (lw_key r)) (lw_operation_id r)) (operations db))
  then Err sqlite3_IntegrityError
  else Ok (with_lease_revisions (provider_request_lease_revisions db ++ [r]) db).

Definition insert_lease_head (k : subject_columns) (revision : Z) (db : Db) : R Db :=
  if (revision <? 1)%Z || bool_decide (is_Some (provider_request_lease_heads db !! k))
     || bool_decide (executions db !! execution_column k = None)
  then Err sqlite3_IntegrityError
  else Ok (with_lease_heads (<[k := revision]> (provider_request_lease_heads db)) db).

(** [UPDATE provider_request_lease_heads SET current_revision = ? WHERE ... AND
    current_revision = ?], with the number of rows it changed. *)
Definition update_lease_head (k : subject_columns) (expected revision : Z) (db : Db) : R (nat * Db) :=
  match provider_request_lease_heads db !! k with
  | Some current =>
      if (current =? expected)%Z then
        if (revision <? 1)%Z then Err sqlite3_IntegrityError
        else Ok (1, with_lease_heads (<[k := revision]> (provider_request_lease_heads db)) db)
      else Ok (0, db)
  | None => Ok (0, db)
  end.

Section leases.
Context `{U : Unicode}.

(** [self.execution_id] *)
Variable execution_id : pystr.

(** ** Reading *)

Definition _lease_from_row (row : lease_row) : R ProviderRequestLease :=
  let raw := lw_lease_json row in
  _ ← ensure (bool_decide (sha256_hex raw = lw_lease_sha256 row)) SQLiteContextV2StoreIntegrityError;
  lease ← malformed (decoded ← json_loads raw; lease_from_dict decoded);
  canonical ← _canonical_json_bytes (VDict (lease_to_dict lease));
  _ ← ensure (bool_decide (canonical = raw)) SQLiteContextV2StoreIntegrityError;
  _ ← ensure (bool_decide (_subject_key (subject lease) = lw_key row)
              && (revision lease =? lw_revision row)%Z
              && bool_decide (op_operation_id (operation lease) = lw_operation_id row))
        SQLiteContextV2StoreIntegrityError;
  Ok lease.

(** [SELECT MAX(revision) ...] *)
Definition latest_revision (k : subject_columns) (db : Db) : option Z :=
  foldr (λ r acc, Some (match acc with Some m => Z.max (lw_revision r) m | None => lw_revision r end))
    None (List.filter (λ r, bool_decide (lw_key r = k)) (provider_request_lease_revisions db)).

Definition lease_kind : pystr := u "provider_request_lease".

(** Traces that a lease of the subject leaves although its rows are missing. *)
Definition send_evidence (s : ProviderRequestSubject) (db : Db) : R bool :=
  target ← _subject_target s 1;
  digest ← _subject_sha256 s;
  Ok (existsb (λ o, bool_decide (ow_execution_id o = execution_id)
                    && bool_decide (ow_target_kind o = lease_kind)
                    && bool_decide (ow_target_key o = target)) (operations db)
      || existsb (λ r, bool_decide (pw_key r = _subject_key s)) (provider_turn_result_receipts db)
      || existsb (λ a, bool_decide (aw_execution_id a = execution_id)
                       && bool_decide (aw_logical_kind a = u "provider_turn_result_artifact")
                       && bool_decide (aw_logical_key a = digest)) (artifacts db)).

Definition _load_lease_in_transaction (s : ProviderRequestSubject) (db : Db)
    : R (option ProviderRequestLease) :=
  let k := _subject_key s in
  match provider_request_lease_heads db !! k with
  | None =>
      _ ← ensure (negb (existsb (λ r, bool_decide (lw_key r = k)) (provider_request_lease_revisions db)))
            ProviderRequestLeaseIntegrityError;
      evidence ← send_evidence s db;
      _ ← ensure (negb evidence) ProviderRequestLeaseIntegrityError;
      Ok None
  | Some current_revision =>
      _ ← ensure (bool_decide (latest_revision k db = Some current_revision))
            ProviderRequestLeaseIntegrityError;
      match fetchone (lease_row_is k current_revision) (provider_request_lease_revisions db) with
      | None => Err ProviderRequestLeaseIntegrityError
      | Some row => lease ← _lease_from_row row; Ok (Some lease)
      end
  end.

Definition load (s : arg ProviderRequestSubject) : M Store pyexn (option ProviderRequestLease) :=
  match s with
  | Val _ => raise TypeError
  | Inst s =>
      _ ← lift (_scope_attempt execution_id (Inst (attempt s)) ProviderRequestLeaseIntegrityError);
      sqlite_errors ProviderRequestLeaseIntegrityError ProviderRequestLeaseIntegrityError (_transaction (
        lease ← query (_load_lease_in_transaction s); lift lease))
  end.

(** ** Writing *)

Definition row_of_lease (lease : ProviderRequestLease) (lease_json : list N) : lease_row :=
  mkLeaseRow (_subject_key (subject lease)) (revision lease) (op_operation_id (operation lease))
    lease_json (sha256_hex lease_json).

Definition write_head (s : ProviderRequestSubject) (current : option ProviderRequestLease)
    (expected revision : Z) : M Store pyexn unit :=
  match current with
  | None => execute (insert_lease_head (_subject_key s) revision)
  | Some _ =>
      updated ← (λ st, match update_lease_head (_subject_key s) expected revision (st_db st) with
                       | Ok (n, db) => (Ok n, with_db db st)
                       | Err e => (Err e, st)
                       end);
      lift (ensure (updated =? 1) ProviderRequestLeaseConflict)
  end.

Definition swap_lease (s : ProviderRequestSubject) (expected : Z) (replacement : ProviderRequestLease)
    : M Store pyexn ProviderRequestLease :=
  _ ← _ensure_execution execution_id;
  current ← query (_load_lease_in_transaction s);
  current ← lift current;
  let current_revision := match current with Some l => revision l | None => 0%Z end in
  _ ← lift (ensure (current_revision =? expected)%Z ProviderRequestLeaseConflict);
  _ ← lift (ensure (revision replacement =? expected + 1)%Z ProviderRequestLeaseConflict);
  target_key ← lift (_subject_target s (revision replacement));
  _ ← _claim_operation execution_id (operation replacement) lease_kind target_key
        ProviderRequestLeaseConflict;
  lease_json ← lift (_canonical_json_bytes (VDict (lease_to_dict replacement)));
  _ ← lift (bind_int (revision replacement));
  _ ← execute (insert_lease_row (row_of_lease replacement lease_json));
  _ ← write_head s current expected (revision replacement);
  mret replacement.

Definition compare_and_swap (s : arg ProviderRequestSubject) (expected_revision : pyval)
    (replacement : arg ProviderRequestLease) : M Store pyexn ProviderRequestLease :=
  match s, replacement with
  | Inst s, Inst replacement =>
      _ ← lift (ensure (bool_decide (subject replacement = s)) ProviderRequestLeaseIntegrityError);
      _ ← lift (_scope_attempt execution_id (Inst (attempt s)) ProviderRequestLeaseIntegrityError);
      expected ← lift (_exact_non_negative_int expected_revision);
      sqlite_errors ProviderRequestLeaseConflict ProviderRequestLeaseIntegrityError (_transaction (
        swap_lease s expected replacement))
  | _, _ => raise TypeError
  end.
End leases.
