(* ===== verification/SqliteSafety.v ===== *)
(** * Any history of a SQLite store

    The public operations of the store as steps, by any number of repositories,
    with failing transactions anywhere.  Every reachable database holds a
    well-formed journal for every execution, journals only grow, and a request
    is carried out once however often it is repeated. *)

From S2P Require Import Prelude PyVal Json RequestLease SqliteLeases Models JournalPayload ResourceLimits JournalRecords JournalSnapshot JournalRuntime JournalReplay JsonParse SqliteStore SqliteJournal SqliteCodec SqliteInvariant SqliteRefinement.

Lemma bind_assoc {S A B C} (m : M S pyexn A) (f : A → M S pyexn B) (g : B → M S pyexn C) s :
  ((m ≫= f) ≫= g) s = (m ≫= λ a, f a ≫= g) s.
Proof. rewrite !bind_case. by destruct (m s) as [[a|e] s']. Qed.

(** ** Transactions are atomic *)

Lemma transaction_cases {A} (m : M Store pyexn A) s :
  (∃ e, (_transaction m s).1 = Err e ∧ st_db (_transaction m s).2 = st_db s) ∨
  ∃ a s', m (mkStore (st_db s) (st_files s) (tail (st_faults s))) = (Ok a, s') ∧
          _transaction m s = (Ok a, s').
Proof.
  unfold _transaction. destruct (head (st_faults s)) as [[]|]; [| |left; eauto|];
    destruct (m _) as [[a|e] s'] eqn:E; eauto 6; left; eauto.
Qed.

Lemma errors_cases {A} c f (m : M Store pyexn A) s :
  (∃ e, (sqlite_errors c f m s).1 = Err e ∧ (sqlite_errors c f m s).2 = (m s).2 ∧ ∃ e', (m s).1 = Err e') ∨
  ∃ a s', m s = (Ok a, s') ∧ sqlite_errors c f m s = (Ok a, s').
Proof. unfold sqlite_errors, try_except. destruct (m s) as [[a|e] s']; simpl; [right; eauto|left; eauto]. Qed.

(** A guarded transaction changes the database only when it returns. *)
Lemma guarded_cases {A} c f (m : M Store pyexn A) s :
  (∃ e, (sqlite_errors c f (_transaction m) s).1 = Err e ∧
        st_db (sqlite_errors c f (_transaction m) s).2 = st_db s) ∨
  ∃ a s', m (mkStore (st_db s) (st_files s) (tail (st_faults s))) = (Ok a, s') ∧
          sqlite_errors c f (_transaction m) s = (Ok a, s').
Proof.
  destruct (errors_cases c f (_transaction m) s) as [(e & He & Hs & e' & He')|(a & s' & Hm & Hr)].
  - left. exists e. split; [done|]. rewrite Hs.
    destruct (transaction_cases m s) as [(? & _ & H)|(a & s' & _ & H)]; [done|]. by rewrite H in He'.
  - right. destruct (transaction_cases m s) as [(e & H & _)|(a' & s'' & H & H')]; [by rewrite Hm in H|].
    rewrite Hm in H'. simplify_eq. eauto.
Qed.

Section safety.
Context `{U : Unicode} `{!UnicodeLaws U} `{F : UnicodeFold}.

(** ** Appending in the presence of artifacts *)

Lemma ok_append_with_connection x log request s r s' :
  journal_of x log (st_db s) → storable request → gr_execution_id (at_generation (ar_attempt request)) = x →
  List.find (λ e, bool_decide (operation_id e = op_operation_id (ar_operation request))) log = None →
  _append_with_connection x request s = (Ok r, s') →
  ∃ e, e = mkEvent request (Z.of_nat (length log) + 1) ∧ r = mkAppendResult e (cursor_of e) false ∧
       journal_of x (log ++ [e]) (st_db s').
Proof.
  intros Hj Hreq Hx Hf Hrun. destruct (jo_head _ _ _ Hj) as [[Hn ->]|[revision Hhead]].
  { unfold _append_with_connection in Hrun. rewrite bind_query in Hrun.
    destruct (bool_decide _); [|done]. cbn [ensure] in Hrun. by rewrite bind_lift_ok, bind_query, Hn in Hrun. }
  destruct (_operation_row x (op_operation_id (ar_operation request)) (st_db s)) as [o|] eqn:Eo.
  - exfalso. unfold _append_with_connection in Hrun.
    do 6 apply M_bind_ok in Hrun as (? & ? & ?Hstep & Hrun).
    unfold query, gets, lift in *. simplify_eq. apply M_bind_ok in Hrun as (b & s2 & Hclaim & _).
    unfold _claim_operation in Hclaim. rewrite bind_query, Eo in Hclaim. case_match eqn:Ec; [|done].
    unfold claims in Ec. rewrite !andb_true_iff, !bool_decide_eq_true in Ec. destruct Ec as ((_ & Hk) & _).
    destruct (jo_targets _ _ _ Hj _ o Eo Hk) as (e & He & Hop).
    rewrite find_None_iff in Hf. specialize (Hf e He). by rewrite bool_decide_eq_true_2 in Hf.
  - assert (H := run_append_with_connection x log s revision request Hj Hhead Hreq Hx Eo).
    destruct (new_event log request) as [e|e] eqn:En.
    + destruct H as (db' & H & Hj'). rewrite H in Hrun. simplify_eq. exists e. split_and!; [|done..].
      unfold new_event in En. by repeat (apply result_bind_ok in En as (? & _ & En)); simplify_eq.
    + destruct H as (db' & H). by rewrite H in Hrun.
Qed.

Lemma for_each_keeps {A} x (f : A → M Store pyexn unit) l : (∀ a, keeps x (f a)) → keeps x (for_each f l).
Proof. intros Hf. induction l as [|a l IH]; cbn [for_each]; follow; [apply Hf|done]. Qed.

Lemma keeps_put_pending x y a : keeps x (put_pending y a).
Proof. unfold put_pending. follow. by apply keeps_put. Qed.

Lemma keeps_verify x y a : keeps x (_verify_pending_artifact_replay y a).
Proof. unfold _verify_pending_artifact_replay. follow. Qed.

Lemma keeps_run x {A} (m : M Store pyexn A) log s r s' :
  keeps x m → m s = (r, s') → journal_of x log (st_db s) → journal_of x log (st_db s').
Proof. intros Hk Hm Hj. eapply journal_frame; [exact Hj|]. specialize (Hk s). by rewrite Hm in Hk. Qed.

(** ** Equality of a payload with itself *)

Lemma SFeqb_refl f : is_finite f = true → SFeqb f f = true.
Proof.
  destruct f as [| | |[] m e]; try done; intros _; unfold SFeqb, SFcompare;
    by rewrite Z.compare_refl, Pos.compare_cont_refl.
Qed.

Lemma py_eq_items d d' :
  (∀ k v, (k, v) ∈ d → ∃ w, dict_get d' k = Some w ∧ py_eq v w = true) → length d = length d' →
  py_eq (VDict d) (VDict d') = true.
Proof.
  intros H Hl. cbn [py_eq]. rewrite Hl, Nat.eqb_refl. cbn [andb]. clear Hl.
  induction d as [|[k v] d IH]; [done|]. destruct (H k v ltac:(left)) as (w & -> & ->).
  cbn [andb]. apply IH. intros k' v' Hin. apply H. by right.
Qed.

Lemma py_eq_refl v : printable v → ∀ f, _freeze_json v = Ok f → py_eq v v = true.
Proof.
  revert v. fix IH 2. intros v0 [ |b|z|g Hg|s Hs|l Hl|d Hnd Hd] f Hf.
  - done.
  - by destruct b.
  - apply Z.eqb_refl.
  - simpl in Hf. case_match eqn:E; [|done]. by apply SFeqb_refl.
  - simpl. by rewrite bool_decide_eq_true_2.
  - apply freeze_list_ok in Hf as (ys & _ & Hys). cbn [py_eq]. clear -IH Hl Hys. revert ys Hys.
    induction Hl as [|x l Hx _ IHl]; intros ys Hys; [done|].
    apply Forall2_cons_inv_l in Hys as (y & ys' & Hy & Hys & ->). by rewrite (IH x Hx y Hy), (IHl ys' Hys).
  - destruct (proj1 (freeze_dict_ok _ _) Hf) as (_ & items & -> & _).
    destruct (freeze_dict_items _ _ Hf) as [_ Hk Hi]. apply py_eq_items; [|done].
    assert (Hall : Forall (λ kv, ∀ f, _freeze_json kv.2 = Ok f → py_eq kv.2 kv.2 = true) d).
    { clear -IH Hd. induction Hd as [|kv d [_ Hx] _ IHd]; constructor; [exact (IH _ Hx)|done]. }
    clear Hf. intros k v Hin. exists v. split; [by apply elem_dict_get|].
    rewrite Forall_forall in Hall. assert (k ∈ keys d) as Hkey by (by apply (list_elem_of_fmap_2 fst _ (k, v))).
    rewrite <-Hk in Hkey. apply list_elem_of_fmap in Hkey as (k' & -> & Hkey).
    apply list_elem_of_fmap in Hkey as ([k'' w] & -> & Hkey). cbn [fst] in *.
    destruct (Hi _ _ Hkey) as (v' & Hv' & _ & Hw). assert (v' = v) as ->.
    { assert (Hget := Hin). apply (elem_dict_get _ _ _ Hnd) in Hget, Hv'. congruence. }
    by eapply (Hall _ Hin).
Qed.

Lemma matches_itself request n : storable request → _request_matches_event request (mkEvent request n) = true.
Proof.
  intros [Hw Hp]. unfold _request_matches_event. rewrite !bool_decide_eq_true_2 by done. cbn [andb].
  rewrite andb_true_r. apply printable_request in Hp as (_ & _ & _ & _ & Hp & _).
  assert (Hf := rw_payload _ Hw). unfold freeze_payload in Hf.
  apply result_bind_ok in Hf as (f & Hf & _). by eapply py_eq_refl.
Qed.

(** ** What an append that returned has done *)

(** The result is an event of the log that matches the request. *)
Record carried_out (request : JournalAppendRequest) (r : JournalAppendResult) (log : list JournalEvent) : Prop := {
  co_event : rs_event r ∈ log;
  co_match : _request_matches_event request (rs_event r) = true;
  co_operation : operation_id (rs_event r) = op_operation_id (ar_operation request);
  co_cursor : rs_cursor r = cursor_of (rs_event r);
}.

(** [append] and [append_with_artifacts], with what they do for a repeated and
    for a new request. *)
Definition append_shape (x : pystr) (request : JournalAppendRequest) (again first : M Store pyexn unit)
    : M Store pyexn JournalAppendResult :=
  _ ← _ensure_execution x;
  replayed ← _replayed_append x request;
  match replayed with
  | Some result => _ ← again; mret result
  | None => _ ← first; _append_with_connection x request
  end.

Lemma ok_append_shape x log request again first s r s' :
  keeps x again → keeps x first → journal_of x log (st_db s) → storable request →
  gr_execution_id (at_generation (ar_attempt request)) = x →
  append_shape x request again first s = (Ok r, s') →
  ∃ log', log `prefix_of` log' ∧ journal_of x log' (st_db s') ∧ carried_out request r log'.
Proof.
  intros Ha Hfirst Hj Hreq Hx. unfold append_shape.
  intros ([] & s1 & He & Hrun)%M_bind_ok. apply (keeps_run x _ log _ _ _ (keeps_ensure x x) He) in Hj as Hj1.
  rewrite bind_case, (run_replayed x log) in Hrun by done.
  destruct (List.find _ log) as [e|] eqn:Efind.
  - apply find_Some_iff in Efind as [Hin Hop%bool_decide_eq_true].
    destruct (_request_matches_event request e) eqn:Em; [|done].
    apply M_bind_ok in Hrun as ([] & s2 & Hagain & Hret). injection Hret as <- <-.
    exists log. split; [done|]. split; [exact (keeps_run x _ log _ _ _ Ha Hagain Hj1)|]. by split.
  - case_bool_decide; [done|]. apply M_bind_ok in Hrun as ([] & s2 & Hf & Hrun).
    apply (keeps_run x _ log _ _ _ Hfirst Hf) in Hj1 as Hj2.
    destruct (ok_append_with_connection x log request s2 r s' Hj2 Hreq Hx Efind Hrun) as (e & -> & -> & Hj').
    eexists. split; [by eexists|]. split; [exact Hj'|]. split; simpl.
    + apply elem_of_app. right. by left.
    + by apply matches_itself.
    + done.
    + done.
Qed.

Lemma precondition_keeps x y (precondition : option (JournalSnapshot → R unit)) pending :
  keeps x (_ ← match precondition with
               | None => mret tt
               | Some check =>
                   snapshot ← query (_snapshot_with_connection y default_max_events default_max_bytes);
                   snapshot ← lift snapshot;
                   lift (check snapshot)
               end; for_each (put_pending y) pending).
Proof.
  follow. apply for_each_keeps, keeps_put_pending.
Qed.

Lemma append_cases x request s :
  (∃ e, (append x (Inst request) s).1 = Err e ∧ st_db (append x (Inst request) s).2 = st_db s) ∨
  (gr_execution_id (at_generation (ar_attempt request)) = x ∧
   ∃ r s0 s', st_db s0 = st_db s ∧ append_shape x request (mret tt) (mret tt) s0 = (Ok r, s') ∧
              append x (Inst request) s = (Ok r, s')).
Proof.
  destruct (decide (gr_execution_id (at_generation (ar_attempt request)) = x)) as [Hx|Hx].
  - rewrite append_unfold by done.
    destruct (guarded_cases JournalConflictError JournalRepositoryError (append_body x request) s)
      as [H|(r & s' & Hrun & H)]; [by left|]. right. split; [done|].
    by exists r, (mkStore (st_db s) (st_files s) (tail (st_faults s))), s'.
  - left. exists JournalScopeError. unfold append, _scope_attempt. by rewrite bool_decide_eq_false_2.
Qed.

Lemma append_with_artifacts_cases x request pending precondition s :
  (∃ e, (append_with_artifacts x (Inst request) pending precondition s).1 = Err e ∧
        st_db (append_with_artifacts x (Inst request) pending precondition s).2 = st_db s) ∨
  (gr_execution_id (at_generation (ar_attempt request)) = x ∧
   ∃ again first r s0 s', (∀ y, keeps y again) ∧ (∀ y, keeps y first) ∧ st_db s0 = st_db s ∧
     append_shape x request again first s0 = (Ok r, s') ∧
     append_with_artifacts x (Inst request) pending precondition s = (Ok r, s')).
Proof.
  unfold append_with_artifacts. destruct (mapR _ pending) as [items|e]; [|left; by exists e].
  rewrite bind_lift_ok. unfold _scope_attempt.
  case_bool_decide as Hx; [|left; by exists JournalScopeError]. rewrite bind_lift_ok.
  match goal with |- context [sqlite_errors ?c ?f (_transaction ?m) s] =>
    destruct (guarded_cases c f m s) as [H|(r & s' & Hrun & H)] end; [by left|].
  right. split; [done|].
  eexists (for_each (_verify_pending_artifact_replay x) items), _, r,
    (mkStore (st_db s) (st_files s) (tail (st_faults s))), s'.
  split; [intros y; apply for_each_keeps, keeps_verify|]. split; [intros y; apply (precondition_keeps y x precondition items)|].
  split; [reflexivity|]. split; [|exact H]. rewrite <-Hrun. unfold append_shape.
  rewrite !bind_case. destruct (_ensure_execution x _) as [[?|?] s1]; [|done]. rewrite !bind_case.
  destruct (_replayed_append x request s1) as [[[res|]|?] s2]; try done. apply bind_assoc.
Qed.

(** ** Commands *)

(** The public operations of the store that this library models, by a repository bound to
    any execution [x]: binding, appending with and without artifacts, storing and reading
    artifacts, reading pages, capturing and comparing snapshots, looking up the receipts
    of a tool call, and loading and swapping request leases.  Run bundles, provider turn
    results, continuations and their receipts, which have tables of their own, are not
    among them. *)
Inductive command : Type :=
| CBindExecution (execution_id : pyval)
| CAppend (x : pystr) (request : arg JournalAppendRequest)
| CAppendWithArtifacts (x : pystr) (request : arg JournalAppendRequest)
    (pending : list (arg PendingArtifact)) (precondition : option (JournalSnapshot → R unit))
| CPut (x : pystr) (content : list N) (media_type : pyval) (operation : OperationRef) (preview : pyval)
| CReadArtifact (x : pystr) (artifact : arg ArtifactRef) (offset limit : pyval)
| CRead (x : pystr) (after : arg EventCursor) (limit : pyval)
| CCapture (x : pystr) (max_events max_bytes : pyval)
| CPrefix (x : pystr) (snapshot : arg JournalSnapshot) (integrity_revision : pyval)
| CLookup (x : pystr) (attempt : arg AttemptRef) (call_id : pyval)
| CLoadLease (x : pystr) (subject : arg ProviderRequestSubject)
| CSwapLease (x : pystr) (subject : arg ProviderRequestSubject) (expected_revision : pyval)
    (replacement : arg ProviderRequestLease).

Definition void {A} (m : M Store pyexn A) : M Store pyexn unit := _ ← m; mret tt.

Definition run_command (c : command) : M Store pyexn unit :=
  match c with
  | CBindExecution id => void (bind_execution id)
  | CAppend x request => void (append x request)
  | CAppendWithArtifacts x request pending precondition =>
      void (append_with_artifacts x request pending precondition)
  | CPut x content media_type operation preview => void (put x content media_type operation preview)
  | CReadArtifact x artifact offset limit => void (read_verified x artifact offset limit)
  | CRead x after limit => void (read x after limit)
  | CCapture x max_events max_bytes =>
      void (capture_snapshot_with_integrity_revision x max_events max_bytes)
  | CPrefix x snapshot revision => void (snapshot_prefix_is_current x snapshot revision)
  | CLookup x attempt call_id => void (lookup_tool_execution_receipts x attempt call_id)
  | CLoadLease x subject => void (load x subject)
  | CSwapLease x subject expected replacement => void (compare_and_swap x subject expected replacement)
  end.

(** Requests are built by their constructors. *)
Definition admissible (c : command) : Prop :=
  match c with
  | CAppend _ (Inst request) | CAppendWithArtifacts _ (Inst request) _ _ => storable request
  | _ => True
  end.

(** A command runs, or the environment decides what happens to the coming
    transactions. *)
Inductive step (s : Store) : Store → Prop :=
| step_command c : admissible c → step s (run_command c s).2
| step_faults faults : step s (mkStore (st_db s) (st_files s) faults).
End safety.

(** A program that only reads. *)
Abbreviation quiet := (respects (=)).

#[export] Instance seq_le_trans : Transitive seq_le.
Proof. intros a b c. unfold seq_le. lia. Qed.
#[export] Instance seq_le_total : Total seq_le.
Proof. intros a b. unfold seq_le. lia. Qed.

(** The items with a given key, when keys are distinct. *)
Lemma filter_by_key {A K} `{EqDecision K} (f : A → K) (l : list A) a k :
  NoDup (f <$> l) → a ∈ l → f a = k → filter (λ b, f b = k) l = [a].
Proof.
  intros Hnd Ha <-. induction l as [|b l IH]; [by apply elem_of_nil in Ha|].
  rewrite fmap_cons in Hnd. apply NoDup_cons in Hnd as [Hb Hnd]. rewrite filter_cons.
  apply elem_of_cons in Ha as [->|Ha].
  - rewrite decide_True by done. f_equal. apply filter_nil_iff. intros c Hc Heq. apply Hb. rewrite <-Heq.
    by apply list_elem_of_fmap_2.
  - rewrite decide_False; [by apply IH|]. intros Heq. apply Hb. rewrite Heq. by apply list_elem_of_fmap_2.
Qed.

Section history.
Context `{U : Unicode} `{!UnicodeLaws U} `{F : UnicodeFold}.

Lemma quiet_command c :
  match c with
  | CReadArtifact _ _ _ _ | CRead _ _ _ | CCapture _ _ _ | CPrefix _ _ _ | CLookup _ _ _
  | CLoadLease _ _ => quiet (run_command c)
  | _ => True
  end.
Proof.
  destruct c; try done; cbn [run_command].
  - unfold read_verified, read_full_verified, _load_exact_artifact, _read_object, void. follow.
  - unfold read, void. follow.
  - unfold capture_snapshot_with_integrity_revision, void. follow.
  - unfold snapshot_prefix_is_current, snapshot_integrity_revision, void. follow.
  - unfold lookup_tool_execution_receipts, _lookup_receipt_events, void. follow.
  - unfold load, void. follow.
Qed.

(** ** Atomicity *)

Lemma void_state {A} (m : M Store pyexn A) s : (void m s).2 = (m s).2.
Proof. unfold void. rewrite bind_case. by destruct (m s) as [[a|e] s']. Qed.

Lemma void_err {A} (m : M Store pyexn A) s e : (void m s).1 = Err e → (m s).1 = Err e.
Proof. unfold void. rewrite bind_case. destruct (m s) as [[a|e'] s']; simpl; by intros [= ->]. Qed.

Lemma bind_execution_cases id s :
  (∃ e, (bind_execution id s).1 = Err e ∧ st_db (bind_execution id s).2 = st_db s) ∨
  (∃ x, bind_execution id s =
        (Ok x, mkStore (ensure_execution_row x (st_db s)) (st_files s) (tail (st_faults s)))).
Proof.
  unfold bind_execution. destruct (_required_text id 256 true) as [x|e]; [|left; by exists e].
  rewrite bind_lift_ok, bind_case.
  destruct (transaction_cases (_ensure_execution x) s) as [(e & He & Hs)|(a & s' & Hrun & ->)].
  - left. exists e. revert He Hs. destruct (_transaction _ s) as [[?|?] s']; simpl; by intros; simplify_eq.
  - right. exists x. unfold _ensure_execution, execute in Hrun. by simplify_eq.
Qed.

Lemma put_cases x content media operation preview s :
  (∃ e, (put x content media operation preview s).1 = Err e ∧
        st_db (put x content media operation preview s).2 = st_db s) ∨
  ∃ a s0 s', st_db s0 = st_db s ∧
    _put_artifact_with_connection x content media operation preview (u "artifact")
      (op_operation_id operation) (VInt 0) ContextConflictError s0 = (Ok a, s') ∧
    put x content media operation preview s = (Ok a, s').
Proof.
  unfold put, _put_artifact.
  match goal with |- context [sqlite_errors ?c ?f (_transaction ?m) s] =>
    destruct (guarded_cases c f m s) as [H|(a & s' & Hrun & H)] end; [by left|right].
  by exists a, (mkStore (st_db s) (st_files s) (tail (st_faults s))), s'.
Qed.

Lemma swap_cases x subject expected replacement s :
  (∃ e, (compare_and_swap x subject expected replacement s).1 = Err e ∧
        st_db (compare_and_swap x subject expected replacement s).2 = st_db s) ∨
  ∃ k n l s0 s', subject = Inst k ∧ expected = VInt n ∧ replacement = Inst l ∧ st_db s0 = st_db s ∧
    gr_execution_id (at_generation (attempt k)) = x ∧ RequestLease.subject l = k ∧
    swap_lease x k n l s0 = (Ok l, s') ∧ compare_and_swap x subject expected replacement s = (Ok l, s').
Proof.
  destruct subject as [k|v]; [|left; by exists TypeError].
  destruct replacement as [l|v]; [|left; by exists TypeError]. unfold compare_and_swap.
  case_bool_decide as Hl; cbn [ensure]; [|left; by eexists]. rewrite bind_lift_ok. unfold _scope_attempt.
  case_bool_decide as Hk; cbn [ensure]; [|left; by eexists]. rewrite bind_lift_ok.
  destruct expected as [| |n| | | | |]; try (left; by eexists). unfold _exact_non_negative_int.
  destruct (n <? 0)%Z; [left; by eexists|]. rewrite bind_lift_ok.
  match goal with |- context [sqlite_errors ?c ?f (_transaction ?m) s] =>
    destruct (guarded_cases c f m s) as [H|(a & s' & Hrun & H)] end; [by left|right].
  assert (a = l) as ->.
  { unfold swap_lease in Hrun. by repeat (apply M_bind_ok in Hrun as (? & ? & _ & Hrun)); injection Hrun. }
  by exists k, n, l, (mkStore (st_db s) (st_files s) (tail (st_faults s))), s'.
Qed.

Lemma keeps_swap x y s n l : keeps x (swap_lease y s n l).
Proof.
  unfold swap_lease, write_head. follow.
  - apply keeps_ensure.
  - apply keeps_claim. by right.
  - apply respects_execute; [apply _|]. intros db db'. unfold insert_lease_row. case_match; [done|].
    intros [= <-]. split; auto.
  - intros st. unfold update_lease_head. repeat case_match; simplify_eq; try reflexivity. split; auto.
  - apply respects_execute; [apply _|]. intros db db'. unfold insert_lease_head. case_match; [done|].
    intros [= <-]. split; auto.
Qed.

(** A command that raises, for whatever reason, leaves the database as it was. *)
Lemma command_atomic c s e : (run_command c s).1 = Err e → st_db (run_command c s).2 = st_db s.
Proof.
  intros He. assert (Hq := quiet_command c).
  destruct c as [id|x [request|v]|x [request|v] pending precondition|x content media o preview| | | | | | |x k n l];
    try (symmetry; apply Hq); cbn [run_command] in *; rewrite void_state; apply void_err in He; try done.
  - destruct (bind_execution_cases id s) as [(? & _ & H)|(x & H)]; [done|]. by rewrite H in He.
  - destruct (append_cases x request s) as [(? & _ & H)|(_ & r & s0 & s' & _ & _ & H)]; [done|]. by rewrite H in He.
  - destruct (append_with_artifacts_cases x request pending precondition s)
      as [(? & _ & H)|(_ & ? & ? & r & s0 & s' & _ & _ & _ & _ & H)]; [done|]. by rewrite H in He.
  - destruct (put_cases x content media o preview s) as [(? & _ & H)|(a & s0 & s' & _ & _ & H)]; [done|]. by rewrite H in He.
  - destruct (swap_cases x k n l s) as [(? & _ & H)|(? & ? & ? & s0 & s' & _ & _ & _ & _ & _ & _ & _ & H)]; [done|].
    by rewrite H in He.
Qed.

(** ** Journals only grow *)

Lemma append_shape_keeps x y request again first :
  y ≠ x → keeps x again → keeps x first → keeps x (append_shape y request again first).
Proof.
  intros Hxy Ha Hf. unfold append_shape. follow.
  - apply keeps_ensure.
  - apply keeps_replayed.
  - done.
  - done.
  - by apply keeps_append_with_connection.
Qed.

Lemma append_shape_extends x y log request again first s r s' :
  keeps x again → keeps x first → storable request → gr_execution_id (at_generation (ar_attempt request)) = y →
  append_shape y request again first s = (Ok r, s') → journal_of x log (st_db s) →
  ∃ log', log `prefix_of` log' ∧ journal_of x log' (st_db s').
Proof.
  intros Ha Hf Hreq Hy Hrun Hj. destruct (decide (y = x)) as [->|Hne].
  - destruct (ok_append_shape x log request again first s r s') as (log' & ? & ? & _); eauto.
  - exists log. split; [done|]. eapply keeps_run; [|exact Hrun|done]. by apply append_shape_keeps.
Qed.

Lemma command_extends c s x log :
  admissible c → journal_of x log (st_db s) →
  ∃ log', log `prefix_of` log' ∧ journal_of x log' (st_db (run_command c s).2).
Proof.
  intros Hadm Hj. assert (Hq := quiet_command c).
  assert (Hsame : ∀ s', st_db s' = st_db s → ∃ log', log `prefix_of` log' ∧ journal_of x log' (st_db s')).
  { intros s' Hs'. exists log. by rewrite Hs'. }
  destruct c as [id|y [request|v]|y [request|v] pending precondition|y content media o preview| | | | | | |y k n l];
    try (apply Hsame; symmetry; apply Hq); cbn [run_command] in *; rewrite void_state; try by apply Hsame.
  - destruct (bind_execution_cases id s) as [(? & _ & H)|(y & ->)]; [by apply Hsame|].
    exists log. split; [done|]. eapply journal_frame; [exact Hj|apply ensure_execution_same].
  - destruct (append_cases y request s) as [(? & _ & H)|(Hy & r & s0 & s' & Hs0 & Hrun & ->)]; [by apply Hsame|].
    eapply append_shape_extends; [apply respects_ret; apply _..|exact Hadm|exact Hy|exact Hrun|by rewrite Hs0].
  - destruct (append_with_artifacts_cases y request pending precondition s)
      as [(? & _ & H)|(Hy & again & first & r & s0 & s' & Ha & Hf & Hs0 & Hrun & ->)]; [by apply Hsame|].
    eapply append_shape_extends; [apply Ha|apply Hf|exact Hadm|exact Hy|exact Hrun|by rewrite Hs0].
  - destruct (put_cases y content media o preview s) as [(? & _ & H)|(a & s0 & s' & Hs0 & Hrun & ->)]; [by apply Hsame|].
    exists log. split; [done|]. eapply keeps_run; [|exact Hrun|by rewrite Hs0]. by apply keeps_put.
  - destruct (swap_cases y k n l s) as [(? & _ & H)|(? & ? & ? & s0 & s' & _ & _ & _ & Hs0 & _ & _ & Hrun & ->)];
      [by apply Hsame|].
    exists log. split; [done|]. eapply keeps_run; [|exact Hrun|by rewrite Hs0]. apply keeps_swap.
Qed.

Lemma steps_extend s s' x log :
  rtc step s s' → journal_of x log (st_db s) → ∃ log', log `prefix_of` log' ∧ journal_of x log' (st_db s').
Proof.
  intros H. revert log. induction H as [s|s s1 s' Hstep _ IH]; intros log Hj; [by exists log|].
  assert (∃ log1, log `prefix_of` log1 ∧ journal_of x log1 (st_db s1)) as (log1 & Hp & Hj1).
  { destruct Hstep as [c Hc|faults]; [by apply command_extends|by exists log]. }
  destruct (IH log1 Hj1) as (log' & Hp' & Hj'). exists log'. split; [by etrans|done].
Qed.

Definition empty_db : Db := mkDb ∅ [] [] [] ∅ [] [] ∅ [].

Lemma empty_journal x : journal_of x [] empty_db.
Proof. split; try constructor; done. Qed.

(** Rows in the order of an ordered part of the log are what [ORDER BY] gives. *)
Lemma merge_sort_stored x es rows :
  Forall2 (stores x) es rows → StronglySorted seq_lt es → merge_sort seq_le rows = rows.
Proof.
  intros H Hes. assert (Hlt : ∀ i j a b, rows !! i = Some a → rows !! j = Some b → i < j → (ew_store_seq a < ew_store_seq b)%Z).
  { intros i j a b Ha Hb Hij. destruct (Forall2_lookup_r _ _ _ _ _ H Ha) as (e & He & bs & _ & ->).
    destruct (Forall2_lookup_r _ _ _ _ _ H Hb) as (e' & He' & bs' & _ & ->).
    apply (sorted_lookup seq_lt es i j e e' Hes He He' Hij). }
  eapply StronglySorted_unique_strong; [|apply StronglySorted_merge_sort; apply _| |apply merge_sort_Permutation].
  - intros a b Ha Hb Hab Hba. rewrite merge_sort_Permutation in Ha.
    apply list_elem_of_lookup in Ha as [i Hi], Hb as [j Hj]. unfold seq_le in *.
    destruct (Nat.lt_trichotomy i j) as [Hij|[<-|Hij]]; [|congruence|];
      [specialize (Hlt i j a b Hi Hj Hij)|specialize (Hlt j i b a Hj Hi Hij)]; lia.
  - apply sorted_by_index. intros i j a b Ha Hb Hij. specialize (Hlt i j a b Ha Hb Hij). unfold seq_le. lia.
Qed.

(** The rows of an execution come out of the database in the order of the log. *)
Lemma execution_events_log x log db :
  journal_of x log db → execution_events x db = List.filter (of_execution x) (events db) ∧
                        events_of_rows x db (execution_events x db) = Ok log.
Proof.
  intros Hj. assert (execution_events x db = List.filter (of_execution x) (events db)) as Heq.
  { apply (merge_sort_stored x log); [apply Hj|by eapply log_sorted]. }
  split; [done|]. rewrite Heq. apply (rows_read_back x log db Hj); [apply Hj|done].
Qed.

(** C5. Every database that the store itself wrote holds sound journals: after
    any history of commands by any repositories, with failing transactions
    anywhere, the events of every execution are numbered 1, 2, 3, ... without a
    gap, every stored row passes all the integrity checks of [_event_from_row]
    and reads back as the event that was appended, event and operation ids are
    unique, every event's operation is in the ledger with this event as its
    target, and the receipt index holds exactly the receipts of the log. *)
Theorem reachable_journals_are_sound files faults s x :
  rtc step (mkStore empty_db files faults) s →
  ∃ log, journal_of x log (st_db s) ∧
         events_of_rows x (st_db s) (execution_events x (st_db s)) = Ok log.
Proof.
  intros Hs. destruct (steps_extend _ _ x [] Hs (empty_journal x)) as (log & _ & Hj).
  exists log. split; [done|]. by apply execution_events_log.
Qed.

(** C7. A failed command leaves no trace in the database: when one of the eleven modelled
    operations (binding an execution, append, append with artifacts, put, reading an
    artifact, reading a page, capturing a snapshot, comparing a snapshot with its
    revision, looking up the receipts of a tool call, loading a lease and swapping a
    lease) raises, for whatever reason (a conflict, a refused record, a failed
    precondition, a broken constraint, a database that would not begin or commit), every
    modelled table is as it was before the call. *)
Theorem failed_command_changes_nothing c s e :
  (run_command c s).1 = Err e → st_db (run_command c s).2 = st_db s.
Proof. apply command_atomic. Qed.

Lemma append_keeps x y request : y ≠ x → keeps x (append y request).
Proof.
  intros Hxy. unfold append. follow.
  - apply keeps_ensure.
  - apply keeps_replayed.
  - by apply keeps_append_with_connection.
Qed.

(** C4. The append of the SQLite journal implements the append of an abstract
    append-only log, on every branch: in any reachable state there is a log that
    the database stores, and when no fault strikes, the call returns what the
    abstract append returns (the new event, the earlier event of the same
    operation marked as a duplicate, or the same error) and leaves a database
    that stores the abstract log after the append, untouched when the log does
    not change; the journals of all other executions are as before. *)
Theorem append_refines_log files faults s x request :
  rtc step (mkStore empty_db files faults) s → storable request →
  gr_execution_id (at_generation (ar_attempt request)) = x → no_fault s →
  ∃ log s', journal_of x log (st_db s) ∧
    let '(r, log') := log_append_spec (foreign x (st_db s)) log request in
    append x (Inst request) s = (append_result r, s') ∧ journal_of x log' (st_db s') ∧
    (log' = log → st_db s' = st_db s) ∧
    ∀ y other, y ≠ x → journal_of y other (st_db s) → journal_of y other (st_db s').
Proof.
  intros Hreach Hreq Hx Hf. destruct (steps_extend _ _ x [] Hreach (empty_journal x)) as (log & _ & Hj).
  destruct (log_append_spec (foreign x (st_db s)) log request) as [r log'] eqn:Hspec.
  destruct (append_refines x log request s r log' Hj Hreq Hx Hf Hspec) as (s' & Hrun & Hj' & Hsame).
  exists log, s'. rewrite Hspec. split; [done|]. split; [done|]. split; [done|]. split; [done|]. intros y other Hy Ho.
  eapply keeps_run; [apply (append_keeps y x); congruence|exact Hrun|exact Ho].
Qed.

Lemma find_operation x log db e :
  journal_of x log db → e ∈ log →
  List.find (λ e', bool_decide (operation_id e' = operation_id e)) log = Some e.
Proof.
  intros Hj He. destruct (List.find _ log) as [e'|] eqn:E.
  - apply find_Some_iff in E as [He' Hop%bool_decide_eq_true]. f_equal.
    apply list_elem_of_lookup in He as [i Hi], He' as [j Hj']. assert (i = j) as ->; [|congruence].
    eapply NoDup_lookup; [exact (jo_operations _ _ _ Hj)|..]; rewrite list_lookup_fmap.
    + by rewrite Hi.
    + rewrite Hj'. simpl. by f_equal.
  - rewrite find_None_iff in E. specialize (E e He). by rewrite bool_decide_eq_true_2 in E.
Qed.

(** C6. An append happens once: when it returned in some reachable state, the
    same request repeated at any later time (after any further commands of any
    repositories, failures included) returns the same event with the same
    cursor, marked as a duplicate, and does not change the database; and the
    journal holds exactly one event of that operation. *)
Theorem append_happens_once files faults s x request r s1 s2 :
  rtc step (mkStore empty_db files faults) s → storable request →
  append x (Inst request) s = (Ok r, s1) → rtc step s1 s2 → no_fault s2 →
  (∃ s3, append x (Inst request) s2 = (Ok (mkAppendResult (rs_event r) (rs_cursor r) true), s3) ∧
         st_db s3 = st_db s2) ∧
  ∃ log, journal_of x log (st_db s2) ∧
    filter (λ e, operation_id e = op_operation_id (ar_operation request)) log = [rs_event r].
Proof.
  intros Hreach Hreq Happ Hsteps Hfault.
  destruct (steps_extend _ _ x [] Hreach (empty_journal x)) as (log & _ & Hj).
  destruct (append_cases x request s) as [(e & He & _)|(Hx & r' & s0 & s' & Hs0 & Hrun & H)]; [by rewrite Happ in He|].
  rewrite Happ in H. simplify_eq H. intros <- <-. rewrite <-Hs0 in Hj.
  destruct (ok_append_shape x log request _ _ s0 r s1 (respects_ret _ tt) (respects_ret _ tt) Hj Hreq Hx Hrun)
    as (log1 & _ & Hj1 & [Hin Hm Hop Hc]).
  destruct (steps_extend _ _ x log1 Hsteps Hj1) as (log2 & [more ->] & Hj2).
  assert (Hin2 : rs_event r ∈ log1 ++ more) by (apply elem_of_app; by left).
  assert (Hfind := find_operation _ _ _ _ Hj2 Hin2). rewrite Hop in Hfind.
  assert (Hspec : log_append_spec (foreign x (st_db s2)) (log1 ++ more) request =
                  (Ok (rs_event r, true), log1 ++ more)).
  { unfold log_append_spec. by rewrite Hfind, Hm. }
  split.
  - destruct (append_refines x _ _ s2 _ _ Hj2 Hreq Hx Hfault Hspec) as (s3 & Hrun3 & _ & Hdb).
    exists s3. rewrite Hrun3, Hc. auto.
  - exists (log1 ++ more). split; [done|]. by apply filter_by_key; [apply Hj2|..].
Qed.
End history.
