(* ===== verification/SqlitePort.v ===== *)
(** * SQLite keeps the promises of the journal port

    Pages, receipt lookups and snapshots of a well-formed journal are what
    ports.py documents, so replay and recovery of the durable sink hold on
    SQLite without further assumptions on the journal. *)

From S2P Require Import Prelude PyVal Json Models Diagnostics JournalPayload ResourceLimits JournalRecords JournalVocabulary JournalSnapshot JournalRuntime JournalReplay JournalRecovery JsonParse SqliteStore SqliteJournal SqliteCodec SqliteInvariant SqliteRefinement SqliteSafety.

Lemma filter_Forall2 {A B} (P : A → B → Prop) (p : A → bool) (q : B → bool) l l' :
  Forall2 P l l' → (∀ a b, P a b → p a = q b) → Forall2 P (List.filter p l) (List.filter q l').
Proof.
  intros H Hpq. induction H as [|a b l l' Hab _ IH]; simpl; [constructor|].
  rewrite <-(Hpq a b Hab). destruct (p a); [by constructor|done].
Qed.

Lemma filter_bool {A} (P : A → Prop) `{∀ a, Decision (P a)} (p : A → bool) l :
  (∀ a, p a = bool_decide (P a)) → filter P l = List.filter p l.
Proof.
  intros Hp. induction l as [|a l IH]; [done|]. rewrite filter_cons. simpl. rewrite Hp.
  case_decide; [by rewrite bool_decide_eq_true_2, IH|by rewrite bool_decide_eq_false_2].
Qed.

Lemma bind_int_ok z : (0 ≤ z < 2 ^ 63)%Z → bind_int z = Ok z.
Proof.
  intros H. unfold bind_int. rewrite (proj2 (Z.leb_le _ _)) by lia. by rewrite (proj2 (Z.ltb_lt _ _)) by lia.
Qed.

Lemma List_filter_and {A} (p q : A → bool) l : List.filter q (List.filter p l) = List.filter (λ a, p a && q a) l.
Proof.
  induction l as [|a l IH]; simpl; [done|]. destruct (p a); simpl; [|done]. destruct (q a); by rewrite IH.
Qed.

Lemma bool_decide_false_and (P Q : Prop) `{Decision P, Decision Q} :
  ¬ (P ∧ Q) → bool_decide P && bool_decide Q = false.
Proof. intros H1. apply andb_false_iff. rewrite !bool_decide_eq_false. destruct (decide P); tauto. Qed.

Section port.
Context `{U : Unicode} `{!UnicodeLaws U} `{F : UnicodeFold} `{PR : PyRepr}.
Context (x : pystr) (log : list JournalEvent).

(** ** Pages *)

Section pages.
Context (db : Db).
Hypothesis Hj : journal_of x log db.

Definition position (after : option EventCursor) : Z :=
  match after with Some c => ec_store_seq c | None => 0 end.

Definition names_event (after : option EventCursor) : Prop :=
  after = None ∨ ∃ e, e ∈ log ∧ after = Some (cursor_of e).

Lemma read_start_log after : names_event after → read_start x after db = Ok (position after).
Proof.
  intros [->|(e & He & ->)]; [done|]. unfold read_start. cbn [ec_store_seq cursor_of position].
  assert (Hb := log_event_bounds _ _ _ Hj e He). assert (Hl := jo_bound _ _ _ Hj).
  rewrite bind_int_ok by lia. cbn [mbind result_bind].
  assert (Hf := fetch_event x log db Hj (λ r, bool_decide (ew_store_seq r = je_store_seq e))
                  (λ e', bool_decide (je_store_seq e' = je_store_seq e)) (λ _ _, eq_refl)).
  unfold event_at. destruct (List.find _ log) as [e'|] eqn:E.
  - apply find_Some_iff in E as [He' Hs%bool_decide_eq_true].
    assert (e' = e) as ->.
    { apply list_elem_of_lookup in He as [i Hi], He' as [j Hj'].
      rewrite (log_event_seq _ _ _ Hj _ _ Hi), (log_event_seq _ _ _ Hj _ _ Hj') in Hs.
      assert (i = j) as <- by lia. congruence. }
    inversion Hf as [? row (bs & _ & ->) Hl' Hr|]; subst. cbn [ew_event_id row_of_event ec_event_id].
    by rewrite bool_decide_eq_true_2.
  - rewrite find_None_iff in E. specialize (E e He). by rewrite bool_decide_eq_true_2 in E.
Qed.

Lemma rows_after_log after limit :
  Forall2 (stores x) (take (Z.to_nat limit) (after_cursor after log)) (_event_rows_after x (position after) limit db).
Proof.
  unfold _event_rows_after. destruct (execution_events_log x log db Hj) as [-> _].
  apply Forall2_take. unfold after_cursor. fold (position after).
  rewrite (filter_bool _ (λ e, (position after <? je_store_seq e)%Z)).
  - apply filter_Forall2; [apply Hj|]. by intros e r (bs & _ & ->).
  - intros e. destruct (Z.ltb_spec (position after) (je_store_seq e)); symmetry;
      [by apply bool_decide_eq_true|apply bool_decide_eq_false; lia].
Qed.

Lemma after_cursor_log after e : e ∈ after_cursor after log → e ∈ log.
Proof. by intros [_ He]%list_elem_of_filter. Qed.

Lemma next_cursor_log events after :
  (∀ e, e ∈ events → e ∈ log) →
  next_cursor_of events after = Ok (match last events with Some e => Some (cursor_of e) | None => after end).
Proof.
  intros Hin. unfold next_cursor_of. destruct (last events) as [e|] eqn:El; [|done].
  apply last_Some_elem_of in El. destruct (log_event_wf _ _ _ Hj e (Hin e El)) as (Hs & _ & Hn).
  rewrite cursor_made; [done|apply Hs|done].
Qed.

(** One page of the log. *)
Definition page_of (after : option EventCursor) (n : Z) : JournalPage :=
  let rest := after_cursor after log in
  let events := take (Z.to_nat n) rest in
  mkPage events (match last events with Some e => Some (cursor_of e) | None => after end)
    (bool_decide (Z.to_nat n < length rest)).

Lemma page_of_consistent after n :
  (1 ≤ n)%Z →
  page_consistent (pg_events (page_of after n)) (pg_next_cursor (page_of after n)) (pg_has_more (page_of after n)) = true.
Proof.
  intros Hn. unfold page_of. cbn [pg_events pg_next_cursor pg_has_more]. set (rest := after_cursor after log).
  apply (page_consistent_of x log).
  - transitivity rest; [apply sublist_take|apply sublist_filter].
  - apply (log_sorted _ _ _ Hj).
  - apply Hj.
  - intros e He. by apply (log_event_wf _ _ _ Hj e He).
  - destruct (last (take (Z.to_nat n) rest)) eqn:E; [done|]. apply last_None in E.
    apply bool_decide_eq_false. destruct rest as [|e r]; simpl in *; [lia|].
    destruct (Z.to_nat n) eqn:En; [lia|done].
Qed.

Lemma read_page_log after n :
  names_event after → (1 ≤ n < 2 ^ 63 - 1)%Z → read_page x after n db = Ok (page_of after n).
Proof.
  intros Ha Hn. unfold read_page. rewrite (read_start_log after Ha). cbn [mbind result_bind].
  rewrite bind_int_ok by lia. cbn [mbind result_bind].
  assert (Hrows := rows_after_log after (n + 1)). set (rows := _event_rows_after _ _ _ _) in *.
  assert (Hlen := Forall2_length _ _ _ Hrows). set (rest := after_cursor after log) in *.
  assert (Hev : events_of_rows x db (take (Z.to_nat n) rows) = Ok (take (Z.to_nat n) rest)).
  { apply (rows_read_back x log db Hj).
    - apply (Forall2_take _ _ _ (Z.to_nat n)) in Hrows. rewrite take_take, Nat.min_l in Hrows by lia. done.
    - intros e He. apply (after_cursor_log after). by eapply subseteq_take. }
  rewrite Hev. cbn [mbind result_bind]. rewrite next_cursor_log.
  2: { intros e He. apply (after_cursor_log after). by eapply subseteq_take. }
  cbn [mbind result_bind]. unfold make_JournalPage. rewrite record_tuple_instances. cbn [mbind result_bind].
  assert (Hmore : (n <? Z.of_nat (length rows))%Z = bool_decide (Z.to_nat n < length rest)).
  { rewrite <-Hlen, length_take. case_bool_decide; [apply Z.ltb_lt|apply Z.ltb_ge]; lia. }
  rewrite Hmore. assert (Hc := page_of_consistent after n (proj1 Hn)). unfold page_of in *. cbn [pg_events pg_next_cursor pg_has_more] in Hc.
  fold rest in Hc |- *. destruct (last (take (Z.to_nat n) rest)) eqn:El; cbn [cursor_arg mbind result_bind].
  - by rewrite Hc.
  - destruct after; cbn [cursor_arg mbind result_bind]; by rewrite Hc.
Qed.
End pages.

(** ** The journal as a port *)

(** No fault strikes any of the coming transactions. *)
Definition undisturbed (s : Store) : Prop := st_faults s = [].

Lemma run_quiet {A} (f : Db → R A) c e s :
  undisturbed s →
  (∀ err, f (st_db s) = Err err → err ≠ sqlite3_IntegrityError ∧ err ≠ sqlite3_OperationalError) →
  sqlite_errors c e (_transaction (r ← query f; lift r)) s = (f (st_db s), s).
Proof.
  unfold undisturbed. intros Hs He. destruct s as [db files faults]. simpl in *. subst faults.
  unfold sqlite_errors, try_except, _transaction. cbn [head tail st_faults st_db st_files].
  rewrite bind_query. cbn [st_db]. unfold lift. destruct (f db) as [a|err] eqn:E; [done|].
  destruct (He err eq_refl). by rewrite !bool_decide_eq_false_2.
Qed.

Lemma sqlite_reads_log (sk : DurableEventSink Store) s :
  sk_journal sk = sqlite_journal x → journal_of x log (st_db s) → undisturbed s → reads_log sk log s.
Proof.
  intros Hsk Hj Hs after n Hn Ha. rewrite Hsk. unfold _MAX_REPLAY_PAGE_SIZE in Hn.
  assert (Hp := read_page_log (st_db s) Hj after n Ha ltac:(lia)).
  exists (page_of after n). split_and!; [|done|done|apply (page_of_consistent (st_db s) Hj); lia].
  cbn [sqlite_journal jn_read]. rewrite bind_case. unfold read, _exact_positive_int.
  rewrite (proj2 (Z.leb_gt _ _)) by lia. rewrite bind_lift_ok.
  assert (cursor_or_none (cursor_arg after) = Ok after) as -> by (by destruct after).
  rewrite bind_lift_ok, run_quiet; [by rewrite Hp|done|]. intros err. by rewrite Hp.
Qed.

(** ** Receipts *)

(** The events of the log that the index finds. *)
Definition indexed (attempt : AttemptRef) (kind : pystr) (call_id : option pystr) (iteration : option Z)
    (e : JournalEvent) : bool :=
  bool_decide (event_attempt e = attempt)
  && bool_decide (_receipt_subject e = Ok (Some (kind, call_id, iteration))).

Section receipts.
Context (db : Db).
Hypothesis Hj : journal_of x log db.

Lemma stored_row e : e ∈ log → ∃ row, stores x e row ∧
  List.filter (event_at x (je_store_seq e)) (events db) = [row].
Proof.
  intros He. assert (H : Forall2 (stores x) (List.filter (λ e', bool_decide (je_store_seq e' = je_store_seq e)) log)
    (List.filter (λ r, bool_decide (ew_store_seq r = je_store_seq e)) (List.filter (of_execution x) (events db)))).
  { apply filter_Forall2; [apply Hj|]. by intros e' r (bs & _ & ->). }
  rewrite <-(filter_bool (λ e', je_store_seq e' = je_store_seq e)) in H by done.
  rewrite (filter_by_key je_store_seq log e) in H; [|rewrite (jo_seq _ _ _ Hj); apply (NoDup_fmap_2 Z.of_nat), NoDup_seq|done|done].
  apply Forall2_cons_inv_l in H as (row & rows & Hrow & Hnil & Heq). apply Forall2_nil_inv_l in Hnil as ->.
  exists row. split; [done|]. rewrite <-Heq. unfold event_at. by rewrite List_filter_and.
Qed.

Lemma receipt_rows_of attempt kind call_id iteration e :
  e ∈ log → gr_execution_id (at_generation attempt) = x →
  ∃ rows, (List.filter (receipt_matches x attempt kind call_id iteration) (receipt_of_event x e) ≫=
           λ r, List.filter (event_at (rw_execution_id r) (rw_store_seq r)) (events db)) = rows ∧
          Forall2 (stores x) (if indexed attempt kind call_id iteration e then [e] else []) rows.
Proof.
  intros He Hx. destruct (stored_row e He) as (row & Hrow & Hfilter).
  assert (Hex : execution_of e = x) by (by apply (log_event_wf _ _ _ Hj e He)).
  unfold receipt_of_event, indexed.
  destruct (_receipt_subject e) as [[[[k c] i]|]|err].
  2, 3: rewrite bool_decide_false_and by (by intros [_ ?]); by eexists.
  cbn [List.filter].
  destruct (receipt_matches x attempt kind call_id iteration (row_of_receipt x e (k, c, i))) eqn:Em.
  - unfold receipt_matches in Em. simpl in Em. rewrite !andb_true_iff, !bool_decide_eq_true in Em.
    destruct Em as (((((_ & Hg) & Ha) & Hk) & Hc) & Hi). subst k c i.
    rewrite (bool_decide_eq_true_2 (Ok _ = _)) by done.
    assert (event_attempt e = attempt) as Hat.
    { destruct attempt as [[ex g] a], (event_attempt e) as [[ex' g'] a'] eqn:Ee. unfold execution_of in Hex.
      rewrite Ee in Hex. simpl in *. congruence. }
    rewrite bool_decide_eq_true_2 by done. exists [row]. split; [simpl; by rewrite Hfilter|]. by apply Forall2_cons_2.
  - rewrite bool_decide_false_and; [by eexists|]. intros [Hat Heq].
    simplify_eq. unfold receipt_matches in Em. simpl in Em. by rewrite !bool_decide_eq_true_2 in Em.
Qed.

Lemma filter_bind {A B} (p : B → bool) (f : A → list B) l :
  List.filter p (l ≫= f) = l ≫= (λ a, List.filter p (f a)).
Proof.
  induction l as [|a l IH]; [done|]. change ((a :: l) ≫= f) with (f a ++ (l ≫= f)). by rewrite List.filter_app, IH.
Qed.

Lemma list_bind_assoc {A B C} (f : A → list B) (g : B → list C) l : (l ≫= f) ≫= g = l ≫= (λ a, f a ≫= g).
Proof.
  induction l as [|a l IH]; [done|]. change ((a :: l) ≫= f) with (f a ++ (l ≫= f)). by rewrite bind_app, IH.
Qed.

(** The index selects exactly the receipts of the log, in order. *)
Lemma receipt_rows_log attempt kind call_id iteration :
  gr_execution_id (at_generation attempt) = x →
  Forall2 (stores x) (List.filter (indexed attempt kind call_id iteration) log)
    (receipt_rows x attempt kind call_id iteration db).
Proof.
  intros Hx. unfold receipt_rows.
  assert (List.filter (receipt_matches x attempt kind call_id iteration) (event_receipts db) =
          List.filter (receipt_matches x attempt kind call_id iteration) (log ≫= receipt_of_event x)) as ->.
  { rewrite <-(jo_receipts _ _ _ Hj), List_filter_and. apply filter_ext. intros r. unfold receipt_matches, receipt_of_execution.
    by destruct (bool_decide (rw_execution_id r = x)). }
  rewrite filter_bind, list_bind_assoc.
  assert (H : ∀ l, (∀ e, e ∈ l → e ∈ log) → Forall2 (stores x) (List.filter (indexed attempt kind call_id iteration) l)
    (l ≫= λ e, List.filter (receipt_matches x attempt kind call_id iteration) (receipt_of_event x e) ≫=
       λ r, List.filter (event_at (rw_execution_id r) (rw_store_seq r)) (events db))).
  { induction l as [|e l IH]; intros Hin; [constructor|].
    destruct (receipt_rows_of attempt kind call_id iteration e) as (rows & Hrows & H2); [apply Hin; left|done|].
    change ((e :: l) ≫= ?f) with (f e ++ (l ≫= f)). cbv beta. rewrite Hrows.
    assert (List.filter (indexed attempt kind call_id iteration) (e :: l) =
      (if indexed attempt kind call_id iteration e then [e] else []) ++ List.filter (indexed attempt kind call_id iteration) l) as ->.
    { simpl. by destruct (indexed _ _ _ _ e). }
    apply Forall2_app; [done|]. apply IH. intros e' He'. apply Hin. by right. }
  specialize (H log (λ e He, He)). rewrite (merge_sort_stored x _ _ H); [done|].
  eapply sorted_sublist; [|by eapply log_sorted]. rewrite <-(filter_bool (λ e, indexed attempt kind call_id iteration e = true)).
  - apply sublist_filter.
  - intros e. by destruct (indexed _ _ _ _ e).
Qed.

(** What the lookup of a call reads. *)
Lemma lookup_events_log attempt kind call_id maximum s :
  st_db s = db → undisturbed s → gr_execution_id (at_generation attempt) = x →
  let found := List.filter (indexed attempt kind (Some call_id) None) log in
  _lookup_receipt_events x (Inst attempt) kind (Some call_id) None maximum s =
  (Ok (take maximum found, maximum <? length found), s).
Proof.
  intros Hdb Hs Hx found. unfold _lookup_receipt_events, _scope_attempt. rewrite bool_decide_eq_true_2 by done.
  rewrite bind_lift_ok. destruct s as [db' files faults]. unfold undisturbed in Hs. simpl in *. subst db' faults.
  unfold _transaction. cbn [head tail st_faults st_db st_files]. rewrite bind_lift_ok, bind_query. cbn [st_db]. unfold id.
  assert (Hrows := receipt_rows_log attempt kind (Some call_id) None Hx). fold found in Hrows.
  assert (Hlen := Forall2_length _ _ _ Hrows). set (rows := receipt_rows _ _ _ _ _ _) in *.
  assert (Hev : events_of_rows x db (take maximum (take (maximum + 1) rows)) = Ok (take maximum found)).
  { rewrite take_take, Nat.min_l by lia. apply (rows_read_back x log db Hj).
    - by apply Forall2_take.
    - intros e He. apply subseteq_take in He. unfold found in He. apply list_elem_of_In, filter_In in He as [He _].
      by apply list_elem_of_In. }
  rewrite Hev, bind_lift_ok. unfold mret, M_ret. do 3 f_equal. rewrite length_take, <-Hlen.
  destruct (Nat.ltb_spec maximum (length found)); [apply Nat.ltb_lt|apply Nat.ltb_ge]; lia.
Qed.
End receipts.

Lemma py_eq_str v id : py_eq v (VStr id) = true → v = VStr id.
Proof. destruct v; simpl; try done. by intros ->%bool_decide_eq_true. Qed.

(** A receipt of a call is in the index under its id. *)
Lemma receipt_indexed attempt id e :
  _required_text (VStr id) 256 true = Ok id → receipt_of attempt id e →
  indexed attempt (u "tool_execution") (Some id) None e = true.
Proof.
  intros Hid (Ha & Ht & Hc%py_eq_str). unfold indexed. rewrite bool_decide_eq_true_2 by done.
  apply bool_decide_eq_true. unfold _receipt_subject. rewrite bool_decide_eq_true_2 by done.
  by rewrite Hc, Hid.
Qed.

Lemma make_lookup_inv attempt id events overflow found :
  make_ToolExecutionReceiptLookup (Inst attempt) (VStr id) (instances events) (VBool overflow) = Ok found →
  _required_text (VStr id) 256 true = Ok (lk_call_id found) ∧
  lk_attempt found = attempt ∧ lk_events found = events ∧ lk_overflow found = overflow.
Proof.
  unfold make_ToolExecutionReceiptLookup. cbn [mbind result_bind].
  destruct (_required_text (VStr id) 256 true) as [id'|]; [|done]. rewrite record_tuple_instances. cbn [mbind result_bind].
  destruct (ensure _ _); [|done]. cbn [mbind result_bind]. destruct (check_receipts _ _ _ _ _ _); [|done].
  by intros [= <-].
Qed.

(** The lookup of SQLite is exhaustive. *)
Lemma sqlite_lookup_exhaustive attempt call_id s found s' :
  journal_of x log (st_db s) → undisturbed s →
  lookup_tool_execution_receipts x (Inst attempt) (VStr call_id) s = (Ok found, s') →
  lookup_exhaustive log found.
Proof.
  intros Hj Hs. unfold lookup_tool_execution_receipts.
  destruct (_required_text (VStr call_id) 256 true) as [id|] eqn:Hid; [|done]. rewrite bind_lift_ok.
  destruct (decide (gr_execution_id (at_generation attempt) = x)) as [Hx|Hx].
  - rewrite bind_case, (lookup_events_log (st_db s) Hj) by done.
    set (receipts := List.filter _ log). unfold lift. intros [= Hmk _].
    apply make_lookup_inv in Hmk as (Hid' & Ha & He & Ho).
    apply required_text_stable in Hid as Hstable. assert (lk_call_id found = id) as Hlk by congruence.
    intros e Hin Hr. rewrite Ha, Hlk in Hr. apply receipt_indexed in Hr; [|done].
    rewrite He, Ho. destruct (Nat.ltb_spec MAX_TOOL_EXECUTION_RECEIPTS (length receipts)) as [|Hle]; [by right|].
    left. rewrite take_ge by lia. apply list_elem_of_In, filter_In. split; [by apply list_elem_of_In|done].
  - unfold _lookup_receipt_events, _scope_attempt. by rewrite bool_decide_eq_false_2.
Qed.

(** The log of SQLite in the order replay asks for. *)
Lemma sqlite_orderly (sk : DurableEventSink Store) db : journal_of x log db → orderly sk log.
Proof.
  intros Hj. split; [by eapply log_sorted| |apply Hj|].
  - apply Forall_forall. intros e He. destruct (log_event_bounds _ _ _ Hj e He). lia.
  - eapply sublist_NoDup; [exact (jo_operations _ _ _ Hj)|]. apply fmap_sublist, sublist_filter.
Qed.
End port.

(** ** Replay and recovery on SQLite *)

Section sinks.
Context `{U : Unicode} `{!UnicodeLaws U} `{F : UnicodeFold} `{PR : PyRepr}.
Context (files : gmap pystr (list N)) (faults : list fault) (s : Store).
Context (sk : DurableEventSink Store) (x : pystr).
Hypothesis Hreach : rtc step (mkStore empty_db files faults) s.
Hypothesis Hquiet : undisturbed s.
Hypothesis Hsk : sk_journal sk = sqlite_journal x.

(** C11. What a replay over SQLite returns: in any state that the store itself can
    reach, for every page size, a sink whose journal is a SQLite repository replays
    exactly the events of its attempt that were ever appended, in order, when every
    event of the execution belongs to the generation of the sink and 100000 pages
    hold them all.  In the other states it raises, and nothing else: a scope error
    when an event of another generation stands within those pages, and otherwise,
    when the journal is longer than the pages, an integrity error.  It never
    changes the store. *)
Theorem sqlite_replay_is_complete page_size :
  (1 ≤ page_size ≤ 1000)%Z →
  ∃ log, journal_of x log (st_db s) ∧
    let limit := _MAX_REPLAY_PAGES * Z.to_nat page_size in
    replay sk (VInt page_size) s =
    (if bool_decide (Forall (in_generation sk) (take limit log)) then
       if bool_decide (length log ≤ limit)
       then Ok (filter (of_attempt sk) log) else Err DurableJournalIntegrityError
     else Err DurableJournalScopeError, s).
Proof.
  intros Hn. destruct (steps_extend _ _ x [] Hreach (empty_journal x)) as (log & _ & Hj).
  exists log. split; [done|]. apply replay_on_log; [by eapply sqlite_reads_log|by eapply sqlite_orderly|done].
Qed.

(** C12. Over SQLite a tool that may have started is never run again on its own:
    in any state the store can reach, when recovery allows automatic execution
    of a call, the journal of the execution holds no receipt of the call but its
    intent. *)
Theorem sqlite_tool_is_never_rerun call_id page_size id r s' :
  recover_tool_side_effect sk call_id page_size s = (Ok r, s') →
  _required_text call_id 256 true = Ok id →
  ∃ log, journal_of x log (st_db s) ∧
    ((∃ e, e ∈ log ∧ receipt_of (sk_attempt sk) id e ∧ event_type e ≠ u "tool_call") →
     auto_execute_allowed r = false) ∧
    (auto_execute_allowed r = true →
     ∃ intent, event_type intent = u "tool_call" ∧
               ∀ e, e ∈ log → receipt_of (sk_attempt sk) id e → e = intent).
Proof.
  intros Hrec Hid. destruct (steps_extend _ _ x [] Hreach (empty_journal x)) as (log & _ & Hj).
  exists log. split; [done|]. eapply recovery_on_log; [|exact Hrec|exact Hid].
  intros lookup a i found s2 Hlookup Hfound. rewrite Hsk in Hlookup. injection Hlookup as <-.
  apply M_bind_ok in Hfound as (l & s3 & Hl & [= -> ->]).
  by eapply sqlite_lookup_exhaustive.
Qed.
End sinks.
