(* ===== verification/SqliteIntegrity.v ===== *)
(** * Cached snapshots and the integrity revision

    [snapshot_prefix_is_current] lets a caller keep a snapshot it has read and
    verified, and only ask whether its events are still what the database holds.
    The schema backs the answer with triggers that count every change of an
    existing row of [events] or [operations] in [integrity_revision].  This file
    models those triggers for arbitrary writers of the two tables, foreign keys
    unchecked, and proves that the answer can be trusted. *)

From S2P Require Import Prelude PyVal Json RequestLease SqliteLeases Models JournalPayload ResourceLimits JournalRecords JournalSnapshot JournalRuntime JournalReplay JsonParse SqliteStore SqliteJournal SqliteCodec SqliteInvariant SqliteRefinement SqliteSafety SqlitePort.

(** ** Triggers *)

(** [UPDATE executions SET integrity_revision = integrity_revision + 1 WHERE
    execution_id = ?] *)
Definition bump (x : pystr) (db : Db) : Db :=
  match executions db !! x with
  | Some row =>
      with_executions (<[x := mkExecution (ex_next_store_seq row) (ex_integrity_revision row + 1)]>
                         (executions db)) db
  | None => db
  end.

Definition bump_all (xs : list pystr) (db : Db) : Db := foldl (λ db x, bump x db) db xs.

(** The executions that an update trigger counts for one row:
    [execution_id IN (OLD.execution_id, NEW.execution_id)]. *)
Definition old_and_new (x y : pystr) : list pystr := if decide (x = y) then [x] else [x; y].

(** ** Writers *)

(** Statements of any program on the two tables of a journal, events and operations.  An
    update gives the new row of each row it matches.  Rows of the table of executions are
    removed only when a chat is deleted, which is not among these statements: the theorems
    on snapshots ask that the execution is still there. *)
Inductive write : Type :=
| InsertEvent (r : event_row)
| ReplaceEvent (r : event_row)
| UpdateEvents (f : event_row → option event_row)
| DeleteEvents (p : event_row → bool)
| InsertOperation (r : operation_row)
| ReplaceOperation (r : operation_row)
| UpdateOperations (f : operation_row → option operation_row)
| DeleteOperations (p : operation_row → bool).

Definition same_operation (r r' : operation_row) : bool :=
  operation_is (ow_execution_id r) (ow_operation_id r) r'.

Definition updated {A} (f : A → option A) (l : list A) : list A := (λ r, default r (f r)) <$> l.

(** No two rows at different places clash. *)
Fixpoint no_clashes {A} (clash : A → A → bool) (l : list A) : bool :=
  match l with
  | [] => true
  | r :: l => negb (existsb (clash r) l) && no_clashes clash l
  end.

(** [None]: a constraint is violated and the statement is undone. *)
Definition run_write (w : write) (db : Db) : option Db :=
  match w with
  | InsertEvent r =>
      if (ew_store_seq r <? 1)%Z || existsb (events_clash r) (events db) then None
      else Some (with_events (events db ++ [r]) db)
  | ReplaceEvent r =>
      if (ew_store_seq r <? 1)%Z then None
      else
        let db' := if existsb (events_clash r) (events db) then bump (ew_execution_id r) db else db in
        Some (with_events (List.filter (λ r', negb (events_clash r r')) (events db) ++ [r]) db')
  | UpdateEvents f =>
      let rows := updated f (events db) in
      if no_clashes events_clash rows && forallb (λ r, (1 <=? ew_store_seq r)%Z) rows then
        Some (with_events rows
          (bump_all (events db ≫= λ r, match f r with
                                       | Some r' => old_and_new (ew_execution_id r) (ew_execution_id r')
                                       | None => []
                                       end) db))
      else None
  | DeleteEvents p =>
      Some (with_events (List.filter (λ r, negb (p r)) (events db))
        (bump_all (ew_execution_id <$> List.filter p (events db)) db))
  | InsertOperation r =>
      if existsb (same_operation r) (operations db) then None
      else Some (with_operations (operations db ++ [r]) db)
  | ReplaceOperation r =>
      let db' := if existsb (same_operation r) (operations db) then bump (ow_execution_id r) db else db in
      Some (with_operations (List.filter (λ r', negb (same_operation r r')) (operations db) ++ [r]) db')
  | UpdateOperations f =>
      let rows := updated f (operations db) in
      if no_clashes same_operation rows then
        Some (with_operations rows
          (bump_all (operations db ≫= λ r, match f r with
                                           | Some r' => old_and_new (ow_execution_id r) (ow_execution_id r')
                                           | None => []
                                           end) db))
      else None
  | DeleteOperations p =>
      Some (with_operations (List.filter (λ r, negb (p r)) (operations db))
        (bump_all (ow_execution_id <$> List.filter p (operations db)) db))
  end.

(** ** How a database evolves *)

(** The rows of [x] are extended by rows with new positions, and its operations
    are as they were. *)
Record extended (x : pystr) (db db' : Db) : Prop := {
  xt_rows : ∃ more, List.filter (of_execution x) (events db') = List.filter (of_execution x) (events db) ++ more ∧
              Forall (λ r, (1 ≤ ew_store_seq r)%Z ∧
                           ∀ r0, r0 ∈ List.filter (of_execution x) (events db) → ew_store_seq r0 ≠ ew_store_seq r) more;
  xt_operations op o : _operation_row x op db = Some o → _operation_row x op db' = Some o;
}.

(** The revision never decreases, and while it stays the same the journal is
    only extended. *)
Definition evolves (x : pystr) (db db' : Db) : Prop :=
  ∀ row, executions db !! x = Some row →
  ∃ row', executions db' !! x = Some row' ∧ (ex_integrity_revision row ≤ ex_integrity_revision row')%Z ∧
          (ex_integrity_revision row' = ex_integrity_revision row → extended x db db').

Lemma extended_same x db db' :
  List.filter (of_execution x) (events db') = List.filter (of_execution x) (events db) →
  (∀ op, _operation_row x op db' = _operation_row x op db) → extended x db db'.
Proof.
  intros Hr Ho. split.
  - exists []. by rewrite Hr, app_nil_r.
  - intros op o H. by rewrite Ho.
Qed.

Lemma extended_trans x a b c : extended x a b → extended x b c → extended x a c.
Proof.
  intros [(m1 & H1 & F1) O1] [(m2 & H2 & F2) O2]. split.
  - exists (m1 ++ m2). rewrite H2, H1, app_assoc. split; [done|]. apply Forall_app. split; [done|].
    eapply Forall_impl; [exact F2|]. intros r [Hr Hn]. split; [done|]. intros r0 Hr0. apply Hn. rewrite H1.
    apply elem_of_app. by left.
  - auto.
Qed.

#[export] Instance evolves_refl x : Reflexive (evolves x).
Proof. intros db row H. exists row. split_and!; [done|lia|]. intros _. by apply extended_same. Qed.

#[export] Instance evolves_trans x : Transitive (evolves x).
Proof.
  intros a b c Hab Hbc row Ha. destruct (Hab row Ha) as (row1 & Hb & Hle1 & H1).
  destruct (Hbc row1 Hb) as (row2 & Hc & Hle2 & H2). exists row2. split_and!; [done|lia|].
  intros Heq. eapply extended_trans; [apply H1|apply H2]; lia.
Qed.

Lemma bump_tables x db : events (bump x db) = events db ∧ operations (bump x db) = operations db.
Proof. unfold bump. by case_match. Qed.

Lemma bump_all_tables xs db : events (bump_all xs db) = events db ∧ operations (bump_all xs db) = operations db.
Proof.
  revert db. induction xs as [|x xs IH]; intros db; [done|]. simpl. destruct (IH (bump x db)) as [-> ->]. apply bump_tables.
Qed.

Lemma bump_row x y db row :
  executions db !! x = Some row →
  executions (bump y db) !! x =
  Some (if decide (y = x) then mkExecution (ex_next_store_seq row) (ex_integrity_revision row + 1) else row).
Proof.
  intros H. unfold bump. destruct (decide (y = x)) as [->|Hn].
  - rewrite H. simpl. by rewrite lookup_insert_eq.
  - destruct (executions db !! y); [|done]. simpl. by rewrite lookup_insert_ne.
Qed.

(** Counting: the revision of [x] is unchanged only if [x] was not counted. *)
Lemma bump_all_row x xs db row :
  executions db !! x = Some row →
  ∃ row', executions (bump_all xs db) !! x = Some row' ∧
    (ex_integrity_revision row ≤ ex_integrity_revision row')%Z ∧
    (ex_integrity_revision row' = ex_integrity_revision row → x ∉ xs).
Proof.
  revert db row. induction xs as [|y xs IH]; intros db row H; simpl.
  - exists row. split_and!; [done|lia|set_solver].
  - destruct (IH _ _ (bump_row x y db row H)) as (row' & Hr & Hle & Hn). exists row'.
    destruct (decide (y = x)) as [->|Hyx]; simpl in *; (split_and!; [done|lia|]); intros Heq; [lia|].
    specialize (Hn Heq). set_solver.
Qed.

Lemma evolves_counted x xs db db' :
  executions db' = executions (bump_all xs db) → (x ∉ xs → extended x db db') → evolves x db db'.
Proof.
  intros Hx Hext row Hrow. destruct (bump_all_row x xs db row Hrow) as (row' & Hr & Hle & Hn).
  exists row'. rewrite Hx. split_and!; [done..|]. auto.
Qed.

(** *** Changes of a list that a selection does not see *)

Lemma filter_filter_away {A} (p q : A → bool) l :
  (∀ r, r ∈ l → p r = true → q r = true) → List.filter p (List.filter q l) = List.filter p l.
Proof.
  intros H. rewrite List_filter_and. apply filter_ext_in. intros r Hr%list_elem_of_In.
  destruct (p r) eqn:E; [by rewrite (H r Hr E)|by rewrite andb_false_r].
Qed.

Lemma filter_updated {A} (p : A → bool) (f : A → option A) l :
  (∀ r r', r ∈ l → f r = Some r' → p r = false ∧ p r' = false) →
  List.filter p (updated f l) = List.filter p l.
Proof.
  intros H. unfold updated. induction l as [|r l IH]; [done|]. rewrite fmap_cons.
  assert (List.filter p ((λ r, default r (f r)) <$> l) = List.filter p l) as IH'.
  { apply IH. intros r0 r1 Hr0. apply H. by right. }
  simpl. destruct (f r) as [r'|] eqn:E; simpl; rewrite IH'; [|done].
  destruct (H r r' ltac:(left) E) as [-> ->]. done.
Qed.

Lemma find_by_filter {A} (p : A → bool) l : List.find p l = head (List.filter p l).
Proof. induction l as [|r l IH]; [done|]. simpl. by destruct (p r). Qed.

(** The events of [x] are extended by one row. *)
Lemma extended_insert x r db db' :
  events db' = events db ++ [r] → (∀ op, _operation_row x op db' = _operation_row x op db) →
  (1 ≤ ew_store_seq r)%Z → existsb (events_clash r) (events db) = false → extended x db db'.
Proof.
  intros He Ho Hs Hc. split; [|intros op o H; by rewrite Ho]. rewrite He, filter_snoc. eexists. split; [done|].
  destruct (of_execution x r) eqn:Ex; [|constructor]. constructor; [|constructor]. split; [done|].
  intros r0 Hr0 Heq. apply list_elem_of_In, filter_In in Hr0 as [Hr0 Hx0]. apply list_elem_of_In in Hr0.
  rewrite existsb_false in Hc. specialize (Hc r0 Hr0). unfold of_execution in *.
  apply bool_decide_eq_true in Ex, Hx0. unfold events_clash in Hc.
  rewrite (bool_decide_eq_true_2 (ew_execution_id r = _)), (bool_decide_eq_true_2 (ew_store_seq r = _)) in Hc by congruence.
  done.
Qed.

Lemma clash_execution r r' : events_clash r r' = true → ew_execution_id r' = ew_execution_id r.
Proof. unfold events_clash. by intros [->%bool_decide_eq_true _]%andb_true_iff. Qed.

Lemma same_operation_execution r r' : same_operation r r' = true → ow_execution_id r' = ow_execution_id r.
Proof. unfold same_operation, operation_is. by intros [H%bool_decide_eq_true _]%andb_true_iff. Qed.

Lemma operation_is_execution x op r : operation_is x op r = true → ow_execution_id r = x.
Proof. unfold operation_is. by intros [H%bool_decide_eq_true _]%andb_true_iff. Qed.

Lemma replace_all_kept {A} (clash : A → bool) l :
  existsb clash l = false → List.filter (λ r', negb (clash r')) l = l.
Proof.
  intros H. rewrite existsb_false in H. induction l as [|r l IH]; [done|]. simpl.
  rewrite (H r) by left. simpl. f_equal. apply IH. intros r' Hr'. apply H. by right.
Qed.

Lemma old_and_new_notin x y z : x ∉ old_and_new y z → y ≠ x ∧ z ≠ x.
Proof. unfold old_and_new. case_decide; set_solver. Qed.

Lemma counted_update {A} (ex : A → pystr) (f : A → option A) l x r r' :
  x ∉ (l ≫= λ r, match f r with Some r' => old_and_new (ex r) (ex r') | None => [] end) →
  r ∈ l → f r = Some r' → ex r ≠ x ∧ ex r' ≠ x.
Proof.
  intros Hx Hr Hf. apply old_and_new_notin. intros Hin. apply Hx, list_elem_of_bind. exists r. by rewrite Hf.
Qed.

(** The operations are read from their table only. *)
Lemma operation_row_table x op db db' : operations db' = operations db → _operation_row x op db' = _operation_row x op db.
Proof. intros H. unfold _operation_row. by rewrite H. Qed.

Lemma evolves_insert_event x r db db' : run_write (InsertEvent r) db = Some db' → evolves x db db'.
Proof.
  cbn [run_write]. case_match eqn:E; [done|]. apply orb_false_iff in E as [Hs%Z.ltb_ge Hc]. intros [= <-].
  apply (evolves_counted x []); [done|]. intros _. apply (extended_insert x r); try done.
Qed.

Lemma evolves_replace_event x r db db' : run_write (ReplaceEvent r) db = Some db' → evolves x db db'.
Proof.
  cbn [run_write]. case_match eqn:Es; [done|]. apply Z.ltb_ge in Es. intros [= <-].
  destruct (existsb (events_clash r) (events db)) eqn:Hc.
  - apply (evolves_counted x [ew_execution_id r]); [done|]. intros Hx. apply extended_same.
    + cbn [events with_events]. rewrite filter_snoc. unfold of_execution at 2. rewrite bool_decide_eq_false_2 by set_solver.
      rewrite app_nil_r. apply filter_filter_away. intros r' _ Hr'%bool_decide_eq_true.
      destruct (events_clash r r') eqn:E; [|done]. apply clash_execution in E. set_solver.
    + intros op. apply operation_row_table. apply bump_tables.
  - apply (evolves_counted x []); [done|]. intros _. apply (extended_insert x r); try done.
    cbn [events with_events]. by rewrite replace_all_kept.
Qed.

Lemma evolves_update_events x f db db' : run_write (UpdateEvents f) db = Some db' → evolves x db db'.
Proof.
  cbn [run_write]. case_match eqn:E; [|done]. intros [= <-]. eapply evolves_counted; [reflexivity|]. intros Hx.
  apply extended_same; [|intros op; apply operation_row_table, bump_all_tables].
  cbn [events with_events]. apply filter_updated. intros r r' Hr Hf. destruct (counted_update _ _ _ _ _ _ Hx Hr Hf).
  by split; apply bool_decide_eq_false_2.
Qed.

Lemma deleted_notin {A} (ex : A → pystr) (p : A → bool) l x r :
  x ∉ ex <$> List.filter p l → r ∈ l → ex r = x → negb (p r) = true.
Proof.
  intros Hx Hr He. destruct (p r) eqn:E; [|done]. destruct Hx. apply list_elem_of_fmap. exists r. split; [done|].
  apply list_elem_of_In, filter_In. split; [by apply list_elem_of_In|done].
Qed.

Lemma evolves_delete_events x p db db' : run_write (DeleteEvents p) db = Some db' → evolves x db db'.
Proof.
  intros [= <-]. eapply evolves_counted; [reflexivity|]. intros Hx.
  apply extended_same; [|intros op; apply operation_row_table, bump_all_tables].
  cbn [events with_events]. apply filter_filter_away. intros r Hr Hrx%bool_decide_eq_true.
  by apply (deleted_notin ew_execution_id p (events db) x).
Qed.

(** Operations that a statement on them keeps. *)
Lemma extended_operations x db db' :
  events db' = events db → (∀ op o, _operation_row x op db = Some o → _operation_row x op db' = Some o) →
  extended x db db'.
Proof. intros He Ho. split; [|done]. exists []. by rewrite He, app_nil_r. Qed.

Lemma evolves_insert_operation x r db db' : run_write (InsertOperation r) db = Some db' → evolves x db db'.
Proof.
  cbn [run_write]. case_match; [done|]. intros [= <-]. apply (evolves_counted x []); [done|]. intros _.
  apply extended_operations; [done|]. intros op o Ho. by rewrite operation_row_snoc, Ho.
Qed.

Lemma evolves_replace_operation x r db db' : run_write (ReplaceOperation r) db = Some db' → evolves x db db'.
Proof.
  intros [= <-]. destruct (existsb (same_operation r) (operations db)) eqn:Hc.
  - apply (evolves_counted x [ow_execution_id r]); [done|]. intros Hx. apply extended_operations; [apply bump_tables|].
    intros op o Ho. unfold _operation_row, fetchone in *. cbn [operations with_operations].
    rewrite find_snoc, find_by_filter, filter_filter_away.
    + rewrite <-find_by_filter. by rewrite Ho.
    + intros r' _ Hr'%operation_is_execution. destruct (same_operation r r') eqn:E; [|done].
      apply same_operation_execution in E. set_solver.
  - apply (evolves_counted x []); [done|]. intros _. apply extended_operations; [done|].
    intros op o Ho. unfold _operation_row, fetchone in *. cbn [operations with_operations].
    rewrite replace_all_kept by done. by rewrite find_snoc, Ho.
Qed.

Lemma evolves_update_operations x f db db' : run_write (UpdateOperations f) db = Some db' → evolves x db db'.
Proof.
  cbn [run_write]. case_match eqn:E; [|done]. intros [= <-]. eapply evolves_counted; [reflexivity|]. intros Hx.
  apply extended_same; [cbn [events with_operations]; by rewrite (proj1 (bump_all_tables _ db))|].
  intros op. unfold _operation_row, fetchone. cbn [operations with_operations]. rewrite !find_by_filter. f_equal.
  apply filter_updated. intros r r' Hr Hf. destruct (counted_update _ _ _ _ _ _ Hx Hr Hf).
  unfold operation_is. by rewrite (bool_decide_eq_false_2 (ow_execution_id r = x)), (bool_decide_eq_false_2 (ow_execution_id r' = x)).
Qed.

Lemma evolves_delete_operations x p db db' : run_write (DeleteOperations p) db = Some db' → evolves x db db'.
Proof.
  intros [= <-]. eapply evolves_counted; [reflexivity|]. intros Hx.
  apply extended_same; [cbn [events with_operations]; by rewrite (proj1 (bump_all_tables _ db))|].
  intros op. unfold _operation_row, fetchone. cbn [operations with_operations]. rewrite !find_by_filter. f_equal.
  apply filter_filter_away. intros r Hr Hrx%operation_is_execution.
  by apply (deleted_notin ow_execution_id p (operations db) x).
Qed.

#[export] Hint Resolve evolves_insert_event evolves_replace_event evolves_update_events evolves_delete_events
  evolves_insert_operation evolves_replace_operation evolves_update_operations evolves_delete_operations : py.

(** Every write by any program. *)
Lemma write_evolves x w db db' : run_write w db = Some db' → evolves x db db'.
Proof. destruct w; eauto with py. Qed.

(** ** The commands of the store never count as tampering *)

(** The journal of [x] is extended and its revision stays. *)
Definition carries (x : pystr) (db db' : Db) : Prop :=
  ∀ row, executions db !! x = Some row →
  ∃ row', executions db' !! x = Some row' ∧ ex_integrity_revision row' = ex_integrity_revision row ∧
          extended x db db'.

#[export] Instance carries_preorder x : PreOrder (carries x).
Proof.
  split.
  - intros db row H. exists row. split_and!; [done..|]. by apply extended_same.
  - intros a b c Hab Hbc row Ha. destruct (Hab row Ha) as (row1 & Hb & Hr1 & H1).
    destruct (Hbc row1 Hb) as (row2 & Hc & Hr2 & H2). exists row2. split_and!; [done|congruence|].
    by eapply extended_trans.
Qed.

Lemma carries_evolves x db db' : carries x db db' → evolves x db db'.
Proof. intros H row Hrow. destruct (H row Hrow) as (row' & ? & ? & ?). exists row'. split_and!; [done|lia|done]. Qed.

Lemma carries_aside x db db' :
  events db' = events db → operations db' = operations db →
  (∀ row, executions db !! x = Some row →
     ∃ row', executions db' !! x = Some row' ∧ ex_integrity_revision row' = ex_integrity_revision row) →
  carries x db db'.
Proof.
  intros He Ho Hx row Hrow. destruct (Hx row Hrow) as (row' & Hrow' & Hrev). exists row'. split_and!; [done..|].
  apply extended_same; [by rewrite He|]. intros op. by apply operation_row_table.
Qed.

Lemma carries_ensure_execution x y db : carries x db (ensure_execution_row y db).
Proof.
  unfold ensure_execution_row. destruct (executions db !! y) eqn:E; [reflexivity|]. apply carries_aside; [done..|].
  intros row Hrow. exists row. simpl. rewrite lookup_insert_ne by congruence. done.
Qed.

Lemma carries_insert_operation x r db db' : insert_operation r db = Ok db' → carries x db db'.
Proof.
  unfold insert_operation. case_match; [done|]. intros [= <-] row Hrow. exists row. split_and!; [done..|].
  apply extended_operations; [done|]. intros op o Ho. by rewrite operation_row_snoc, Ho.
Qed.

Lemma carries_insert_event x r db db' : insert_event r db = Ok db' → carries x db db'.
Proof.
  unfold insert_event. case_match eqn:E; [done|]. apply orb_false_iff in E as [[Hs%Z.ltb_ge Hc]%orb_false_iff _].
  intros [= <-] row Hrow. exists row. split_and!; [done..|]. by apply (extended_insert x r).
Qed.

Lemma carries_insert_receipt x r db db' : insert_receipt r db = Ok db' → carries x db db'.
Proof. unfold insert_receipt. case_match; [done|]. intros [= <-]. apply carries_aside; eauto. Qed.

Lemma carries_advance_head x y seq db : carries x db (advance_head y seq db).2.
Proof.
  unfold advance_head. repeat case_match; simpl; try reflexivity. apply carries_aside; [done..|]. intros row Hrow. simpl.
  destruct (decide (x = y)) as [->|Hn]; [rewrite lookup_insert_eq; eexists; split; [done|]; simpl; congruence|].
  rewrite lookup_insert_ne by done. eauto.
Qed.

Lemma carries_insert_object x digest n db : carries x db (insert_object digest n db).
Proof. unfold insert_object. repeat case_match; try reflexivity. apply carries_aside; eauto. Qed.

Lemma carries_insert_artifact x r db db' : insert_artifact r db = Ok db' → carries x db db'.
Proof. unfold insert_artifact. case_match; [done|]. intros [= <-]. apply carries_aside; eauto. Qed.

Section commands.
Context `{U : Unicode} `{!UnicodeLaws U} `{F : UnicodeFold}.

Lemma claim_carries x y o kind key conflict : respects (carries x) (_claim_operation y o kind key conflict).
Proof. unfold _claim_operation. follow. apply respects_execute; [apply _|]. apply carries_insert_operation. Qed.

Lemma ensure_carries x y : respects (carries x) (_ensure_execution y).
Proof. apply respects_execute; [apply _|]. intros db db' [= <-]. apply carries_ensure_execution. Qed.

Lemma put_carries x y content media o preview kind key expected conflict :
  respects (carries x) (_put_artifact_with_connection y content media o preview kind key expected conflict).
Proof.
  unfold _put_artifact_with_connection, _install_object, _read_object. follow.
  - apply ensure_carries.
  - apply claim_carries.
  - apply respects_execute; [apply _|]. intros db db' [= <-]. apply carries_insert_object.
  - apply respects_execute; [apply _|]. apply carries_insert_artifact.
Qed.

Lemma append_carries x y request : respects (carries x) (_append_with_connection y request).
Proof.
  unfold _append_with_connection, insert_receipt_of. follow.
  - apply claim_carries.
  - apply respects_execute; [apply _|]. apply carries_insert_event.
  - apply respects_execute; [apply _|]. apply carries_insert_receipt.
  - intros s. match goal with |- context [advance_head y ?seq _] =>
      assert (Hs := carries_advance_head x y seq (st_db s)); by destruct (advance_head y seq (st_db s)) end.
Qed.

Lemma for_each_carries {A} x (f : A → M Store pyexn unit) l :
  (∀ a, respects (carries x) (f a)) → respects (carries x) (for_each f l).
Proof. intros Hf. induction l as [|a l IH]; cbn [for_each]; follow; [apply Hf|done]. Qed.

Lemma swap_carries x y s n l : respects (carries x) (swap_lease y s n l).
Proof.
  unfold swap_lease, write_head. follow.
  - apply ensure_carries.
  - apply claim_carries.
  - apply respects_execute; [apply _|]. intros db db'. unfold insert_lease_row. case_match; [done|].
    intros [= <-]. apply carries_aside; eauto.
  - intros st. unfold update_lease_head. repeat case_match; simplify_eq; try reflexivity. apply carries_aside; eauto.
  - apply respects_execute; [apply _|]. intros db db'. unfold insert_lease_head. case_match; [done|].
    intros [= <-]. apply carries_aside; eauto.
Qed.

(** Every command, on a database in any condition. *)
Lemma command_carries x c : respects (carries x) (run_command c).
Proof.
  destruct c; cbn [run_command]; unfold void, bind_execution, append, append_with_artifacts, _replayed_append,
    put, _put_artifact, read_verified, read_full_verified, _load_exact_artifact, _read_object, read,
    capture_snapshot_with_integrity_revision, snapshot_prefix_is_current, snapshot_integrity_revision,
    lookup_tool_execution_receipts, _lookup_receipt_events, load, compare_and_swap; follow;
    try apply ensure_carries; try apply append_carries; try apply put_carries; try apply swap_carries;
    apply for_each_carries; intros ?.
  - unfold _verify_pending_artifact_replay. follow.
  - unfold put_pending. follow. apply put_carries.
Qed.

(** ** Histories with other writers *)

Inductive disturbed_step (s : Store) : Store → Prop :=
| ds_command c : disturbed_step s (run_command c s).2
| ds_faults faults : disturbed_step s (mkStore (st_db s) (st_files s) faults)
| ds_write w db : run_write w (st_db s) = Some db → disturbed_step s (with_db db s).

Lemma disturbed_evolves x s s' : rtc disturbed_step s s' → evolves x (st_db s) (st_db s').
Proof.
  induction 1 as [s|s s1 s' [c|faults|w db Hw] _ IH]; [done|..].
  - etrans; [|exact IH]. apply carries_evolves, command_carries.
  - done.
  - etrans; [|exact IH]. simpl. by eapply write_evolves.
Qed.

Lemma steps_carry x s s' : rtc step s s' → carries x (st_db s) (st_db s').
Proof.
  induction 1 as [s|s s1 s' [c _|faults] _ IH]; [reflexivity|..].
  - etrans; [|exact IH]. apply command_carries.
  - done.
Qed.
End commands.

(** ** The answer of [snapshot_prefix_is_current] *)

Section current.
Context `{U : Unicode} `{!UnicodeLaws U} `{F : UnicodeFold}.
Context (x : pystr).

Lemma capture_events id events s : capture_journal_snapshot id events = Ok s → sn_events s = events.
Proof.
  unfold capture_journal_snapshot.
  intros (x' & _ & (_ & _ & (hw & _ & (_ & _ & (shas & _ & (digest & _ & H)%result_bind_ok)%result_bind_ok)
    %result_bind_ok)%result_bind_ok)%result_bind_ok)%result_bind_ok.
  unfold make_JournalSnapshot, instances in H. cbn [mbind result_bind] in H.
  apply result_bind_ok in H as (_ & _ & (? & _ & (? & _ & (es & Hes & (_ & _ & (? & _ & (_ & _ & (? & _ &
    (? & _ & (? & _ & (_ & _ & [= <-])%result_bind_ok)%result_bind_ok)%result_bind_ok)%result_bind_ok)%result_bind_ok)
    %result_bind_ok)%result_bind_ok)%result_bind_ok)%result_bind_ok)%result_bind_ok).
  rewrite mapR_fmap, mapR_id in Hes by by apply Forall_true. by injection Hes as <-.
Qed.

(** What a capture has read: all rows of the execution, numbered without a gap. *)
Record captured (snap : JournalSnapshot) (db : Db) : Prop := {
  cp_bound : (Z.of_nat (event_count snap) ≤ 10000)%Z;
  cp_rows : events_of_rows x db (execution_events x db) = Ok (sn_events snap);
  cp_seq : je_store_seq <$> sn_events snap = Z.of_nat <$> seq 1 (event_count snap);
  cp_high : ec_store_seq <$> sn_high_water snap = je_store_seq <$> last (sn_events snap);
}.

Lemma capture_made id events s :
  capture_journal_snapshot id events = Ok s → ∃ id' hw es sha, make_JournalSnapshot id' hw es sha = Ok s.
Proof.
  unfold capture_journal_snapshot.
  intros (x' & _ & (_ & _ & (hw & _ & (_ & _ & (shas & _ & (digest & _ & H)%result_bind_ok)%result_bind_ok)
    %result_bind_ok)%result_bind_ok)%result_bind_ok)%result_bind_ok. eauto.
Qed.

Lemma cursor_seq e c : make_EventCursor (VInt (je_store_seq e)) (VStr (event_id e)) = Ok c → ec_store_seq c = je_store_seq e.
Proof.
  unfold make_EventCursor, _bounded_int. case_match; [done|]. cbn [mbind result_bind].
  by intros (? & _ & [= <-])%result_bind_ok.
Qed.

Lemma snapshot_captured me mb db snap : _snapshot_with_connection x me mb db = Ok snap → captured snap db.
Proof.
  unfold _snapshot_with_connection.
  intros (max_events & _ & (max_bytes & _ & (n & Hn & (_ & Hlen%ensure_ok & (es & Hes & (bs & _ & (_ & _ & Hcap)
    %result_bind_ok)%result_bind_ok)%result_bind_ok)%result_bind_ok)%result_bind_ok)%result_bind_ok)%result_bind_ok.
  assert (n = max_events + 1)%Z as ->.
  { unfold bind_int in Hn. case_match; congruence. }
  apply Z.leb_le in Hlen. rewrite take_ge in Hes.
  2: { rewrite length_take in Hlen. lia. }
  assert (Hev := capture_events _ _ _ Hcap). destruct (capture_made _ _ _ Hcap) as (? & ? & ? & ? & Hmk).
  apply make_snapshot_inv in Hmk as (Hb & [Hseq _]%snapshot_consistent_spec & Hhw & _).
  split; [done|by rewrite Hev|done|]. unfold expected_high_water in Hhw. destruct (last (sn_events snap)) as [e|].
  - apply result_bind_ok in Hhw as (c & Hc & [= <-]). simpl. f_equal. by apply cursor_seq.
  - by injection Hhw as <-.
Qed.

Lemma run_capture me mb s snap revision s' :
  capture_snapshot_with_integrity_revision x me mb s = (Ok (snap, revision), s') →
  _snapshot_with_connection x me mb (st_db s) = Ok snap ∧ revision = integrity_revision_of x (st_db s) ∧
  st_db s' = st_db s.
Proof.
  unfold capture_snapshot_with_integrity_revision.
  match goal with |- sqlite_errors ?c ?f (_transaction ?m) s = _ → _ =>
    destruct (guarded_cases c f m s) as [(e & He & _)|(a & s0 & Hrun & ->)] end; [intros H; by rewrite H in He|].
  intros [= -> ->]. rewrite bind_query in Hrun. cbn [st_db] in Hrun. apply M_bind_ok in Hrun as (sn & s1 & Hsn & Hrun).
  unfold lift in Hsn. injection Hsn as Hsn <-. rewrite bind_query in Hrun. by injection Hrun as -> <- <-.
Qed.

(** A row that read back still does when its operation is kept. *)
Lemma event_from_row_kept db db' row e :
  (∀ op o, _operation_row x op db = Some o → _operation_row x op db' = Some o) →
  _event_from_row x db row = Ok e → _event_from_row x db' row = Ok e.
Proof.
  intros Hops. unfold _event_from_row.
  intros (u1 & H1 & (ev & H2 & (bs & H3 & (u2 & H4 & (u3 & H5 & H6)%result_bind_ok)%result_bind_ok)%result_bind_ok)
    %result_bind_ok)%result_bind_ok.
  rewrite H1. cbn [mbind result_bind]. rewrite H2. cbn [mbind result_bind]. rewrite H3. cbn [mbind result_bind].
  rewrite H4. cbn [mbind result_bind]. rewrite H5. cbn [mbind result_bind].
  destruct (_operation_row x _ db) as [o|] eqn:Eo; [|done]. by rewrite (Hops _ _ Eo).
Qed.

Lemma event_from_row_seq db row e : _event_from_row x db row = Ok e → je_store_seq e = ew_store_seq row.
Proof.
  unfold _event_from_row.
  intros (u1 & _ & (ev & _ & (bs & _ & (u2 & _ & (u3 & H5%ensure_ok & H6)%result_bind_ok)%result_bind_ok)%result_bind_ok)
    %result_bind_ok)%result_bind_ok.
  unfold indexed_fields_agree in H5. rewrite !andb_true_iff in H5. destruct H5 as ((((((_ & H5) & _) & _) & _) & _) & _).
  apply Z.eqb_eq in H5. by repeat case_match; simplify_eq.
Qed.

Section prefix.
Context (snap : JournalSnapshot) (db db' : Db).
Hypothesis Hc : captured snap db.
Hypothesis Hx : extended x db db'.

Definition in_prefix (r : event_row) : bool := (ew_store_seq r <=? Z.of_nat (event_count snap))%Z.

Lemma captured_row i row : execution_events x db !! i = Some row → ew_store_seq row = Z.of_nat (S i).
Proof.
  intros Hi. assert (H := proj1 (mapR_ok _ _ _) (cp_rows _ _ Hc)).
  destruct (Forall2_lookup_l _ _ _ _ _ H Hi) as (e & He & Hrow).
  rewrite <-(event_from_row_seq _ _ _ Hrow), (contiguous_lookup _ _ _ (cp_seq _ _ Hc) He). lia.
Qed.

Lemma captured_length : length (execution_events x db) = event_count snap.
Proof. by apply (Forall2_length _ _ _ (proj1 (mapR_ok _ _ _) (cp_rows _ _ Hc))). Qed.

Lemma captured_elem row : row ∈ execution_events x db →
  ∃ i, i < event_count snap ∧ execution_events x db !! i = Some row ∧ ew_store_seq row = Z.of_nat (S i).
Proof.
  intros [i Hi]%list_elem_of_lookup. exists i. split_and!; [|done|by apply captured_row].
  rewrite <-captured_length. by eapply lookup_lt_Some.
Qed.

(** The rows of the execution within the prefix, in the order of the table. *)
Lemma prefix_of_table :
  List.filter in_prefix (List.filter (of_execution x) (events db')) = List.filter (of_execution x) (events db).
Proof.
  destruct (xt_rows _ _ _ Hx) as (more & -> & Hmore). rewrite List.filter_app.
  assert (Hperm : execution_events x db ≡ₚ List.filter (of_execution x) (events db)) by apply merge_sort_Permutation.
  assert (List.filter in_prefix (List.filter (of_execution x) (events db)) = List.filter (of_execution x) (events db)) as ->.
  { apply forallb_filter_id, forallb_forall. intros r Hr%list_elem_of_In. rewrite <-Hperm in Hr.
    destruct (captured_elem r Hr) as (i & Hi & _ & Hs). unfold in_prefix. apply Z.leb_le. lia. }
  assert (List.filter in_prefix more = []) as ->; [|by rewrite app_nil_r].
  induction Hmore as [|r more [Hr Hn] _ IH]; [done|]. simpl. unfold in_prefix at 1.
  destruct (Z.leb_spec (ew_store_seq r) (Z.of_nat (event_count snap))) as [Hle|]; [|done].
  destruct (lookup_lt_is_Some_2 (execution_events x db) (Z.to_nat (ew_store_seq r - 1))) as [r0 Hr0].
  { rewrite captured_length. lia. }
  exfalso. apply (Hn r0); [rewrite <-Hperm; by eapply list_elem_of_lookup_2|]. rewrite (captured_row _ _ Hr0). lia.
Qed.

(** The rows of the prefix in the current database are those of the capture. *)
Lemma prefix_unchanged : List.filter in_prefix (execution_events x db') = execution_events x db.
Proof.
  assert (Hperm : List.filter in_prefix (execution_events x db') ≡ₚ execution_events x db).
  { unfold execution_events. fold (of_execution x). rewrite (merge_sort_Permutation _ (List.filter _ (events db))), <-prefix_of_table.
    rewrite <-!(filter_bool (λ r, in_prefix r = true) in_prefix) by (intros r; by destruct (in_prefix r)).
    by rewrite merge_sort_Permutation. }
  eapply StronglySorted_unique_strong; [| |apply StronglySorted_merge_sort; apply _|exact Hperm].
  - intros a b Ha Hb Hab Hba. rewrite Hperm in Ha. unfold seq_le in *.
    destruct (captured_elem a Ha) as (i & _ & Hi & Hsi), (captured_elem b Hb) as (j & _ & Hj & Hsj).
    assert (i = j) as <- by lia. congruence.
  - rewrite <-(filter_bool (λ r, in_prefix r = true)) by (intros r; by destruct (in_prefix r)).
    eapply sorted_sublist; [apply sublist_filter|]. apply StronglySorted_merge_sort; apply _.
Qed.

Lemma prefix_reads_back : events_of_rows x db' (List.filter in_prefix (execution_events x db')) = Ok (sn_events snap).
Proof.
  rewrite prefix_unchanged. apply mapR_ok. assert (H := proj1 (mapR_ok _ _ _) (cp_rows _ _ Hc)).
  eapply Forall2_impl; [exact H|]. intros row e. apply event_from_row_kept. apply (xt_operations _ _ _ Hx).
Qed.
End prefix.

Lemma max_seq_spec rows :
  rows ≠ [] → ∃ m, max_seq rows = Some m ∧ (∀ r, r ∈ rows → (ew_store_seq r ≤ m)%Z) ∧ ∃ r, r ∈ rows ∧ ew_store_seq r = m.
Proof.
  induction rows as [|r rows IH]; [done|]. intros _. simpl. destruct rows as [|r' rows].
  - exists (ew_store_seq r). split_and!; [done| |exists r; split; [left|done]].
    intros r0 [->|[]%elem_of_nil]%elem_of_cons. done.
  - destruct IH as (m & -> & Hle & r1 & Hr1 & Heq); [done|]. eexists. split_and!; [done| |].
    + intros r0 [->|Hr0]%elem_of_cons; [lia|]. specialize (Hle r0 Hr0). lia.
    + destruct (Z.le_gt_cases (ew_store_seq r) m).
      * exists r1. split; [by right|lia].
      * exists r. split; [by left|lia].
Qed.

Lemma max_seq_prefix snap db :
  captured snap db → event_count snap ≠ 0 →
  max_seq (List.filter (of_execution x) (events db)) = Some (Z.of_nat (event_count snap)).
Proof.
  intros Hc Hn. assert (Hperm : execution_events x db ≡ₚ List.filter (of_execution x) (events db)) by apply merge_sort_Permutation.
  destruct (max_seq_spec (List.filter (of_execution x) (events db))) as (m & -> & Hle & r & Hr & Heq).
  { intros E. rewrite E in Hperm. apply Permutation_nil_r in Hperm. apply Hn. by rewrite <-(captured_length snap db Hc), Hperm. }
  f_equal. rewrite <-Hperm in Hr. destruct (captured_elem snap db Hc r Hr) as (i & Hi & _ & Hs).
  destruct (lookup_lt_is_Some_2 (execution_events x db) (event_count snap - 1)) as [r0 Hr0].
  { rewrite (captured_length snap db Hc). lia. }
  specialize (Hle r0). rewrite <-Hperm in Hle. specialize (Hle (list_elem_of_lookup_2 _ _ _ Hr0)).
  rewrite (captured_row snap db Hc _ _ Hr0) in Hle. lia.
Qed.

Lemma captured_high snap db hw :
  captured snap db → sn_high_water snap = Some hw → ec_store_seq hw = Z.of_nat (event_count snap).
Proof.
  intros Hc Hhw. assert (H := cp_high _ _ Hc). rewrite Hhw in H. destruct (last (sn_events snap)) as [e|] eqn:El; [|done].
  injection H as ->. rewrite last_lookup in El.
  rewrite (contiguous_lookup _ _ _ (cp_seq _ _ Hc) El). unfold event_count. apply lookup_lt_Some in El. lia.
Qed.

Lemma captured_empty snap db : captured snap db → event_count snap = 0 ↔ sn_high_water snap = None.
Proof.
  intros Hc. assert (H := cp_high _ _ Hc). unfold event_count. rewrite length_zero_iff_nil. split; intros E.
  - rewrite E in H. by destruct (sn_high_water snap).
  - rewrite E in H. destruct (last (sn_events snap)) eqn:El; [done|]. by apply last_None.
Qed.

Lemma run_revision s : undisturbed s → snapshot_integrity_revision x s = (Ok (integrity_revision_of x (st_db s)), s).
Proof. unfold undisturbed. destruct s as [db files faults]. simpl. by intros ->. Qed.

(** The answer when nothing but the rows' own extension happened. *)
Lemma prefix_answer snap db s revision :
  captured snap db → sn_execution_id snap = x → undisturbed s →
  (integrity_revision_of x (st_db s) = revision → extended x db (st_db s)) →
  snapshot_prefix_is_current x (Inst snap) (VInt revision) s =
  (Ok (bool_decide (integrity_revision_of x (st_db s) = revision)), s).
Proof.
  intros Hc Hid Hs Hext. unfold snapshot_prefix_is_current. rewrite bool_decide_eq_true_2 by done. cbn [negb].
  assert (Hbool : bool_decide (integrity_revision_of x (st_db s) = revision) = (revision =? integrity_revision_of x (st_db s))%Z).
  { case_bool_decide; symmetry; [apply Z.eqb_eq|apply Z.eqb_neq]; congruence. }
  destruct (Nat.eqb_spec (event_count snap) 0) as [Hz|Hz].
  - rewrite (proj1 (captured_empty _ _ Hc) Hz), bool_decide_eq_true_2 by done.
    rewrite bind_case, run_revision by done. by rewrite Hbool.
  - destruct (sn_high_water snap) as [hw|] eqn:Ehw; [|by rewrite (captured_empty _ _ Hc) in Hz].
    assert (Hhigh := captured_high _ _ _ Hc Ehw). assert (Hb := cp_bound _ _ Hc).
    destruct s as [db' files faults]. unfold undisturbed in Hs. simpl in *. subst faults.
    rewrite bind_case. unfold sqlite_errors, try_except, _transaction. cbn [head tail st_faults st_files st_db].
    rewrite bind_query. cbn [st_db]. rewrite (Z.eqb_sym (integrity_revision_of x db')), <-Hbool.
    case_bool_decide as Hrev; [|done]. cbn [negb]. rewrite bind_int_ok, bind_lift_ok, bind_query by lia. cbn [st_db].
    assert (prefix_rows x (ec_store_seq hw) db' = List.filter (of_execution x) (events db)) as Hrows.
    { rewrite <-(prefix_of_table snap db db' Hc (Hext Hrev)), List_filter_and. unfold prefix_rows, in_prefix. by rewrite Hhigh. }
    unfold mret, M_ret. rewrite Hrows, (max_seq_prefix snap) by done.
    assert (length (List.filter (of_execution x) (events db)) = event_count snap) as ->.
    { rewrite <-(captured_length snap db Hc). apply Permutation_length. symmetry. apply merge_sort_Permutation. }
    by rewrite Nat.eqb_refl, Hhigh, Z.eqb_refl.
Qed.

(** A cached snapshot can be trusted exactly when the store says so.  Take a
    snapshot together with its integrity revision; then let anything happen:
    commands of the store, failures, and any inserts, replacements, updates and
    deletions of journal rows and operations by other programs.  Asking whether
    the snapshot is still current never fails, and when the answer is yes, the
    rows up to its high water pass every integrity check and read back as exactly
    its events.  The store's own commands never make the answer no. *)
Theorem cached_snapshot_is_trustworthy me mb s1 snap revision s2 s3 :
  is_Some (executions (st_db s1) !! x) → sn_execution_id snap = x →
  capture_snapshot_with_integrity_revision x me mb s1 = (Ok (snap, revision), s2) →
  rtc disturbed_step s2 s3 → undisturbed s3 →
  ∃ current, snapshot_prefix_is_current x (Inst snap) (VInt revision) s3 = (Ok current, s3) ∧
    (current = true →
     events_of_rows x (st_db s3) (List.filter (in_prefix snap) (execution_events x (st_db s3))) = Ok (sn_events snap)) ∧
    (rtc step s2 s3 → current = true).
Proof.
  intros [row Hrow] Hid Hcap Hsteps Hs3. apply run_capture in Hcap as (Hsnap & -> & Hdb).
  apply snapshot_captured in Hsnap as Hc. assert (Hev := disturbed_evolves x _ _ Hsteps). rewrite Hdb in Hev.
  destruct (Hev row Hrow) as (row3 & Hrow3 & _ & Hext).
  assert (Hrevs : integrity_revision_of x (st_db s1) = ex_integrity_revision row ∧
                  integrity_revision_of x (st_db s3) = ex_integrity_revision row3).
  { unfold integrity_revision_of. by rewrite Hrow, Hrow3. }
  destruct Hrevs as [Hr1 Hr3]. rewrite Hr1 in *. rewrite (prefix_answer snap (st_db s1)); try done.
  2: { rewrite Hr3. apply Hext. }
  rewrite Hr3. eexists. split; [done|]. split.
  - intros Hrev%bool_decide_eq_true. apply (prefix_reads_back snap (st_db s1)); [done|by apply Hext].
  - intros Hown. apply bool_decide_eq_true. assert (Hcar := steps_carry x _ _ Hown). rewrite Hdb in Hcar.
    destruct (Hcar row Hrow) as (row' & Hrow' & Heq & _). congruence.
Qed.
End current.
