(* ===== verification/SqliteLeaseRefinement.v ===== *)
(** * Leases stored in SQLite are the leases of the coordinator

    A lease row is the canonical JSON of a lease.  This file proves that it
    reads back, that the two lease tables always describe one lease per subject,
    and that workers whose port is the database behave like workers on the
    abstract store of [RequestCoordinator]: every execution of the former, with
    the journal in use and transactions failing, is an execution of the latter. *)

From S2P Require Import Prelude PyVal Json Models Diagnostics RequestLease RequestCoordinator RequestSafety JournalPayload ResourceLimits JournalRecords JournalSnapshot JournalRuntime JsonParse SqliteStore SqliteJournal SqliteLeases SqliteCodec SqliteInvariant SqliteRefinement SqliteSafety.

(** ** Lease rows *)

Section codec.
Context `{U : Unicode} `{!UnicodeLaws U}.

Lemma failure_canon d :
  failure_from_dict (canon (VDict (failure_to_dict d))) = failure_from_dict (VDict (failure_to_dict d)).
Proof.
  destruct d as [[h|] code par stt m]; unfold failure_to_dict, failure_schema_of;
    destruct (nonempty (fd_provider_status _) || nonempty (fd_replacement_model _)); reflexivity.
Qed.
Lemma lease_plain_canon l :
  failure_diagnostic l = None → 
  lease_from_dict (canon (VDict (lease_to_dict l))) = lease_from_dict (VDict (lease_to_dict l)).
Proof.
  destruct l as [s h st rev vis ret cls op rb pr fd ud]. simpl. intros ->.
  destruct rb as [b|], pr as [p|], ud as [[r ph [us|] pc]|]; reflexivity.
Qed.

Lemma make_lease_congr a b :
  optional_arg failure_from_dict (a_failure_diagnostic a) = optional_arg failure_from_dict (a_failure_diagnostic b) →
  optional_arg uncertainty_from_dict (a_uncertainty_diagnostic a) = optional_arg uncertainty_from_dict (a_uncertainty_diagnostic b) →
  exact_arg subject_from_dict (λ s, VDict (subject_to_dict s)) (a_subject a) =
  exact_arg subject_from_dict (λ s, VDict (subject_to_dict s)) (a_subject b) →
  exact_arg OperationRef_from_dict OperationRef_to_dict (a_operation a) =
  exact_arg OperationRef_from_dict OperationRef_to_dict (a_operation b) →
  optional_arg binding_from_dict (a_result_binding a) = optional_arg binding_from_dict (a_result_binding b) →
  a_route_sha256 a = a_route_sha256 b → a_status a = a_status b → a_revision a = a_revision b →
  a_visible_output a = a_visible_output b → a_retryable a = a_retryable b →
  a_classification a = a_classification b → a_predecessor_sha256 a = a_predecessor_sha256 b →
  make_ProviderRequestLease a = make_ProviderRequestLease b.
Proof. intros. unfold make_ProviderRequestLease. by repeat match goal with H : _ = _ |- _ => rewrite H; clear H end. Qed.

Lemma failed_record_at d fd parsed sc :
  get d "schema" = VStr sc → has_key d "uncertainty_diagnostic" = false →
  get d "failure_diagnostic" = VDict fd → failure_from_dict (VDict fd) = Ok parsed →
  sc = diagnostic_schema_for (fd_http_status parsed) (get fd "schema") →
  get d "status" = VStr (status_value FAILED) →
  _record_data (VDict d) sc (lease_fields ++ ["failure_diagnostic"]) [] = Ok d →
  lease_from_dict (VDict d) = lease_of_raw d.
Proof.
  intros Hs Hu Hf Hp Hsc Hst Hr. unfold lease_from_dict. rewrite Hs, Hu, andb_false_r.
  assert (in_set (VStr sc) [lease_diagnostic_schema; lease_schema_v4] = Ok true) as ->.
  { rewrite Hsc. unfold diagnostic_schema_for. case_match; reflexivity. }
  cbn [mbind result_bind]. rewrite Hf. cbn [is_dict ensure mbind result_bind]. rewrite Hp.
  cbn [mbind result_bind]. rewrite <-Hsc, Hst, Hr.
  assert (∀ s, py_eq (VStr s) (VStr s) = true) as Hrefl by (intros; by apply bool_decide_eq_true).
  by rewrite !Hrefl.
Qed.

Lemma canon_failure_dict d :
  ∃ fd, canon (VDict (failure_to_dict d)) = VDict fd ∧ get fd "schema" = VStr (failure_schema_of d).
Proof.
  eexists. split; [done|]. unfold failure_to_dict.
  by destruct (nonempty (fd_provider_status d) || nonempty (fd_replacement_model d)).
Qed.


Lemma diagnostic_schema_cases h v :
  diagnostic_schema_for h v = lease_schema_v4 ∨ diagnostic_schema_for h v = lease_diagnostic_schema.
Proof. unfold diagnostic_schema_for. case_match; auto. Qed.

Lemma lease_failed_canon l d :
  failure_diagnostic l = Some d → uncertainty_diagnostic l = None → status l = FAILED → wf_failure d →
  lease_from_dict (canon (VDict (lease_to_dict l))) = lease_from_dict (VDict (lease_to_dict l)).
Proof.
  destruct l as [s h st rev vis ret cls op rb pr fd ud].
  cbn [failure_diagnostic uncertainty_diagnostic status]. intros -> -> -> Hd%failure_to_dict_roundtrip.
  assert (Hfc := failure_canon d). rewrite Hd in Hfc.
  destruct (canon_failure_dict d) as (fd & Hfd & Hget). rewrite Hfd in Hfc.
  assert (get (failure_to_dict d) "schema" = VStr (failure_schema_of d)) as Hget' by done.
  rewrite <-Hget' in Hget. 
  unfold lease_to_dict, lease_schema_of. cbn [failure_diagnostic uncertainty_diagnostic].
  remember (diagnostic_schema_for (fd_http_status d) (VStr (failure_schema_of d))) as sc eqn:Hsc.
  rewrite <-Hget' in Hsc.
  remember (failure_to_dict d) as fdd. clear Heqfdd Hget'.
  assert (sc = lease_schema_v4 ∨ sc = lease_diagnostic_schema) as Hcases
   by (rewrite Hsc; apply diagnostic_schema_cases).
  rewrite (failed_record_at _ fdd d sc); [|try done..];
    [|destruct Hcases as [-> | ->]; reflexivity].
  etransitivity; [eapply (failed_record_at _ fd d sc); [reflexivity|reflexivity|exact Hfd|exact Hfc|by rewrite Hget|reflexivity|]|].
  - destruct Hcases as [-> | ->]; reflexivity.
  - unfold lease_of_raw. apply make_lease_congr; try reflexivity.
    + cbn [a_failure_diagnostic]. trans (Ok (A:=option ProviderFailureDiagnostic) (E:=pyexn) (Some d)).
      * change (get _ _) with (canon (VDict fdd)). rewrite Hfd. cbn. by rewrite Hfc.
      * change (get _ _) with (VDict fdd). cbn. by rewrite Hd.
    + destruct rb; reflexivity.
    + destruct pr; reflexivity.
Qed.

(** An object of the class: built by its constructor, from Python strings. *)
Record lease_object (l : ProviderRequestLease) : Prop := {
  lb_made : ∃ a, args_wf a ∧ make_ProviderRequestLease a = Ok l;
  lb_printable : printable (VDict (lease_to_dict l));
}.

Lemma lease_canon l : lease_object l → lease_from_dict (canon (VDict (lease_to_dict l))) = Ok l.
Proof.
  intros [(a & Hwf & Ha) _]. assert (Hrt := lease_wire_roundtrip _ _ Hwf Ha). rewrite <-Hrt.
  apply make_lease_made in Ha. assert (Hw := made_stable _ _ Hwf Ha).
  destruct (failure_diagnostic l) as [d|] eqn:Hd; [|by apply lease_plain_canon].
  destruct Ha as [_ _ _ _ _ [?|Hst] Hu _ _ _ _ _ _ _ _]; [congruence|].
  apply (lease_failed_canon l d); [done| |done|].
  - destruct Hu; [done|congruence].
  - assert (Hf := made_failure _ _ Hw). cbn [wire_args a_failure_diagnostic] in Hf. rewrite Hd in Hf. cbn in Hf.
    apply result_bind_ok in Hf as (d' & Hf & [= ->]). by eapply failure_from_dict_wf.
Qed.

Lemma lease_row_reads_back l bs :
  lease_object l → encoded (VDict (lease_to_dict l)) = Some bs → _lease_from_row (row_of_lease l bs) = Ok l.
Proof.
  intros Hl Hbs. unfold _lease_from_row. cbn [row_of_lease lw_lease_json lw_lease_sha256 lw_key lw_revision lw_operation_id].
  rewrite bool_decide_eq_true_2 by done. cbn [ensure mbind result_bind]. unfold json_loads.
  rewrite (decode_encoded _ _ (lb_printable _ Hl) Hbs). cbn [mbind result_bind]. rewrite lease_canon by done.
  cbn [malformed mbind result_bind]. unfold _canonical_json_bytes. rewrite Hbs. cbn [mbind result_bind].
  rewrite Z.eqb_refl, !bool_decide_eq_true_2 by done. done.
Qed.
End codec.

(** ** The two lease tables *)

Lemma subject_key_inj s s' : _subject_key s = _subject_key s' → s = s'.
Proof. destruct s as [[[]] ? ? ? ?], s' as [[[]] ? ? ? ?]. unfold _subject_key. simpl. intros. by simplify_eq. Qed.

Section tables.
Context `{U : Unicode} `{!UnicodeLaws U} `{F : UnicodeFold}.

(** A row that stores a lease. *)
Definition stores_lease (l : ProviderRequestLease) (row : lease_row) : Prop :=
  lease_object l ∧ ∃ bs, encoded (VDict (lease_to_dict l)) = Some bs ∧ row = row_of_lease l bs.

(** The tables describe the store [d]: heads are current revisions, the
    current lease of a subject has a row, and every row is a revision of the
    current lease of its subject, the current one or an earlier one. *)
Record leases_of (d : store) (db : Db) : Prop := {
  lo_head s : provider_request_lease_heads db !! _subject_key s = revision <$> d !! s;
  lo_current s l : d !! s = Some l →
    subject l = s ∧ ∃ row, row ∈ provider_request_lease_revisions db ∧ stores_lease l row;
  lo_rows row : row ∈ provider_request_lease_revisions db →
    ∃ l cur, stores_lease l row ∧ d !! subject l = Some cur ∧
             ((revision l < revision cur)%Z ∨ l = cur);
}.

(** The rows of the tables are left alone. *)
Definition same_leases (db db' : Db) : Prop :=
  provider_request_lease_heads db' = provider_request_lease_heads db ∧
  provider_request_lease_revisions db' = provider_request_lease_revisions db.

#[export] Instance same_leases_preorder : PreOrder same_leases.
Proof. split; [done|]. intros a b c [] []. split; congruence. Qed.

Lemma leases_frame d db db' : leases_of d db → same_leases db db' → leases_of d db'.
Proof. intros [Hh Hc Hr] [Eh Er]. split; rewrite ?Eh, ?Er; auto. Qed.

Lemma empty_leases : leases_of ∅ empty_db.
Proof. split; simpl; [done|intros s l; by rewrite lookup_empty|intros row H; by apply elem_of_nil in H]. Qed.

(** The rows of one subject. *)
Lemma subject_rows d db s l row :
  leases_of d db → d !! s = Some l → row ∈ provider_request_lease_revisions db → lw_key row = _subject_key s →
  (lw_revision row < revision l)%Z ∨ stores_lease l row.
Proof.
  intros Hlo Hs Hrow Hk. destruct (lo_rows _ _ Hlo row Hrow) as (l' & cur & Hst & Hcur & Hrev).
  destruct Hst as [Ho (bs & Hbs & ->)]. cbn in Hk. apply subject_key_inj in Hk. rewrite Hk, Hs in Hcur.
  injection Hcur as ->. destruct Hrev as [?| ->]; [by left|]. right. split; [done|]. by exists bs.
Qed.

Lemma latest_is_current d db s l :
  leases_of d db → d !! s = Some l → latest_revision (_subject_key s) db = Some (revision l).
Proof.
  intros Hlo Hs. destruct (lo_current _ _ Hlo s l Hs) as [Hsub (row0 & Hin0 & Hst0)].
  unfold latest_revision. set (rows := List.filter _ _).
  assert (Hmax : ∀ row, row ∈ rows → (lw_revision row ≤ revision l)%Z).
  { intros row (Hrow & Hk%bool_decide_eq_true)%list_elem_of_In%filter_In. rewrite <-list_elem_of_In in Hrow.
    destruct (subject_rows d db s l row Hlo Hs Hrow Hk) as [?|[_ (bs & _ & ->)]]; simpl; lia. }
  assert (Hin : ∃ row, row ∈ rows ∧ lw_revision row = revision l).
  { exists row0. destruct Hst0 as [_ (bs & _ & ->)]. split; [|done]. apply list_elem_of_In, filter_In.
    split; [by apply list_elem_of_In|]. apply bool_decide_eq_true. simpl. by rewrite Hsub. }
  clearbody rows. clear -Hmax Hin. revert Hmax Hin. generalize (revision l) as m. intros m Hmax (row & Hin & Hrow).
  assert (∀ rows, (∀ r, r ∈ rows → (lw_revision r ≤ m)%Z) →
     match foldr (λ r acc, Some (match acc with Some m => Z.max (lw_revision r) m | None => lw_revision r end))
       None rows with None => rows = [] | Some k => (k ≤ m)%Z ∧ ∀ r, r ∈ rows → (lw_revision r ≤ k)%Z end) as Hfold.
  { clear. intros rows. induction rows as [|r rows IH]; intros Hm; [done|]. cbn [foldr].
    assert (Hr := Hm r ltac:(left)). specialize (IH (λ r' H, Hm r' ltac:(by right))).
    destruct (foldr _ None rows) as [k|].
    - destruct IH as [Hk Hall]. split; [lia|]. intros r' [->|Hr']%elem_of_cons; [lia|]. specialize (Hall r' Hr'). lia.
    - subst rows. split; [done|]. intros r' [->|Hr']%elem_of_cons; [lia|]. by apply elem_of_nil in Hr'. }
  specialize (Hfold rows Hmax). destruct (foldr _ None rows) as [k|]; [|subst; by apply elem_of_nil in Hin].
  destruct Hfold as [Hk Hall]. specialize (Hall row Hin). f_equal. lia.
Qed.

(** [load] in a transaction: what the store holds, or an error. *)
Lemma load_current d db x s l :
  leases_of d db → d !! s = Some l → _load_lease_in_transaction x s db = Ok (Some l).
Proof.
  intros Hlo Hs. unfold _load_lease_in_transaction. rewrite (lo_head _ _ Hlo s), Hs. cbn [fmap option_fmap option_map].
  rewrite (latest_is_current d db s l Hlo Hs), bool_decide_eq_true_2 by done. cbn [ensure mbind result_bind].
  destruct (lo_current _ _ Hlo s l Hs) as [Hsub (row0 & Hin0 & Hst0)].
  unfold fetchone. destruct (List.find _ _) as [row|] eqn:E.
  - apply find_Some_iff in E as [Hrow [Hk%bool_decide_eq_true Hr%Z.eqb_eq]%andb_true_iff].
    destruct (subject_rows d db s l row Hlo Hs Hrow Hk) as [?|[Ho (bs & Hbs & ->)]]; [lia|].
    by rewrite lease_row_reads_back.
  - rewrite find_None_iff in E. specialize (E row0 Hin0). destruct Hst0 as [_ (bs & _ & ->)].
    unfold lease_row_is in E. cbn in E. by rewrite Hsub, Z.eqb_refl, bool_decide_eq_true_2 in E.
Qed.

Lemma load_exact d db x s r :
  leases_of d db → _load_lease_in_transaction x s db = Ok r → r = d !! s.
Proof.
  intros Hlo Hr. destruct (d !! s) as [l|] eqn:Hs.
  - rewrite (load_current d db x s l Hlo Hs) in Hr. by injection Hr.
  - unfold _load_lease_in_transaction in Hr. rewrite (lo_head _ _ Hlo s), Hs in Hr.
    cbn [fmap option_fmap option_map] in Hr. by do 3 apply result_bind_ok in Hr as (? & _ & Hr); injection Hr.
Qed.

(** *** Writing *)

Lemma same_leases_claim y o kind key conflict : respects same_leases (_claim_operation y o kind key conflict).
Proof.
  unfold _claim_operation. follow. apply respects_execute; [apply _|]. intros db db'. unfold insert_operation.
  case_match; [done|]. by intros [= <-].
Qed.

Lemma same_leases_ensure y : respects same_leases (_ensure_execution y).
Proof.
  apply respects_execute; [apply _|]. intros db db' [= <-]. unfold ensure_execution_row. by case_match.
Qed.

(** The new row and the new head. *)
Lemma leases_swapped d db l row :
  leases_of d db → stores_lease l row → revision l = (current_revision d (subject l) + 1)%Z →
  leases_of (<[subject l := l]> d)
    (with_lease_heads (<[_subject_key (subject l) := revision l]> (provider_request_lease_heads db))
       (with_lease_revisions (provider_request_lease_revisions db ++ [row]) db)).
Proof.
  intros Hlo Hl Hrev. split; simpl.
  - intros s. destruct (decide (subject l = s)) as [<-|Hne]; [by rewrite !lookup_insert_eq|].
    rewrite !lookup_insert_ne by (done || by intros ?%subject_key_inj). apply Hlo.
  - intros s l'. rewrite lookup_insert_Some. intros [[<- <-]|[Hne Hs]].
    + split; [done|]. exists row. split; [|done]. apply elem_of_app. right. by left.
    + destruct (lo_current _ _ Hlo s l' Hs) as [Hsub (r & Hr & Hst)]. split; [done|]. exists r.
      split; [|done]. apply elem_of_app. by left.
  - intros r [Hr|Hr]%elem_of_app.
    + destruct (lo_rows _ _ Hlo r Hr) as (l' & cur & Hst & Hcur & Hle). exists l'.
      destruct (decide (subject l = subject l')) as [Heq|Hne].
      * exists l. rewrite Heq, lookup_insert_eq. split_and!; [done..|]. left.
        unfold current_revision in Hrev. rewrite Heq, Hcur in Hrev. destruct Hle as [?| ->]; lia.
      * exists cur. by rewrite lookup_insert_ne.
    + apply list_elem_of_singleton in Hr as ->. exists l, l. rewrite lookup_insert_eq. auto.
Qed.

Lemma swap_leases d x s n l st l' st' :
  leases_of d (st_db st) → lease_object l → subject l = s → swap_lease x s n l st = (Ok l', st') →
  current_revision d s = n ∧ leases_of (<[s := l]> d) (st_db st').
Proof.
  intros Hlo Hl Hs Hrun. unfold swap_lease in Hrun.
  apply M_bind_ok in Hrun as ([] & st1 & He & Hrun).
  assert (Hlo1 : leases_of d (st_db st1)).
  { eapply leases_frame; [exact Hlo|]. assert (H := same_leases_ensure x st). by rewrite He in H. }
  rewrite bind_query in Hrun.
  destruct (_load_lease_in_transaction x s (st_db st1)) as [cur|] eqn:Ecur; [|done].
  apply (load_exact d) in Ecur; [|done]. rewrite bind_lift_ok in Hrun.
  assert (match cur with Some l => revision l | None => 0%Z end = current_revision d s) as Hcr by by subst.
  rewrite Hcr in Hrun. destruct (current_revision d s =? n)%Z eqn:En; [|done]. apply Z.eqb_eq in En.
  cbn [ensure] in Hrun. rewrite bind_lift_ok in Hrun.
  destruct (revision l =? n + 1)%Z eqn:Er; [|done]. apply Z.eqb_eq in Er. cbn [ensure] in Hrun. rewrite bind_lift_ok in Hrun.
  destruct (_subject_target s (revision l)) as [key|]; [|done]. rewrite bind_lift_ok in Hrun.
  apply M_bind_ok in Hrun as (? & st2 & Hc & Hrun).
  assert (Hlo2 : leases_of d (st_db st2)).
  { eapply leases_frame; [exact Hlo1|]. match type of Hc with ?m st1 = _ =>
      assert (H : respects same_leases m) by apply same_leases_claim; specialize (H st1); by rewrite Hc in H end. }
  unfold _canonical_json_bytes in Hrun. destruct (encoded _) as [bs|] eqn:Hbs; [|done]. rewrite bind_lift_ok in Hrun.
  destruct (bind_int (revision l)); [|done]. rewrite bind_lift_ok in Hrun.
  apply M_bind_ok in Hrun as ([] & st3 & Hrow & Hrun). unfold execute, insert_lease_row in Hrow.
  destruct (_ || _) in Hrow; [done|]. injection Hrow as <-.
  apply M_bind_ok in Hrun as ([] & st4 & Hhead & [= <- <-]). subst s cur. split; [done|].
  assert (Hswapped := leases_swapped d (st_db st2) l (row_of_lease l bs) Hlo2).
  specialize (Hswapped ltac:(split; eauto) ltac:(congruence)).
  unfold write_head in Hhead. destruct (d !! subject l) as [old|] eqn:Hd.
  - apply M_bind_ok in Hhead as (k & st5 & Hupd & Hk). destruct (k =? 1) eqn:Ek; [|done].
    cbn [ensure lift] in Hk. injection Hk as <-. unfold update_lease_head in Hupd. cbn [st_db with_db] in Hupd.
    apply Nat.eqb_eq in Ek as ->. repeat case_match; simplify_eq. done.
  - unfold execute, insert_lease_head in Hhead. cbn [st_db with_db] in Hhead.
    repeat case_match; simplify_eq. done.
Qed.

Lemma same_leases_put y content media o preview kind key expected conflict :
  respects same_leases (_put_artifact_with_connection y content media o preview kind key expected conflict).
Proof.
  unfold _put_artifact_with_connection, _install_object, _read_object. follow.
  - apply same_leases_ensure.
  - apply same_leases_claim.
  - apply respects_execute; [apply _|]. intros db db' [= <-]. unfold insert_object. by repeat case_match.
  - apply respects_execute; [apply _|]. intros db db'. unfold insert_artifact. case_match; [done|]. by intros [= <-].
Qed.

Lemma same_leases_append y request : respects same_leases (_append_with_connection y request).
Proof.
  unfold _append_with_connection, insert_receipt_of. follow.
  - apply same_leases_claim.
  - apply respects_execute; [apply _|]. intros db db'. unfold insert_event. case_match; [done|]. by intros [= <-].
  - apply respects_execute; [apply _|]. intros db db'. unfold insert_receipt. case_match; [done|]. by intros [= <-].
  - intros s. unfold advance_head. by repeat case_match; simplify_eq.
Qed.

Lemma same_leases_for_each {A} (f : A → M Store pyexn unit) l :
  (∀ a, respects same_leases (f a)) → respects same_leases (for_each f l).
Proof. intros Hf. induction l as [|a l IH]; cbn [for_each]; follow; [apply Hf|done]. Qed.

(** No command of the store but the swap touches the leases. *)
Definition swaps (c : command) : bool := match c with CSwapLease _ _ _ _ => true | _ => false end.

Lemma command_same_leases c : swaps c = false → respects same_leases (run_command c).
Proof.
  intros Hc. assert (Hq := quiet_command c).
  assert (Hquiet : quiet (run_command c) → respects same_leases (run_command c)).
  { intros H s. by rewrite <-(H s). }
  destruct c; try done; try (by apply Hquiet); cbn [run_command]; unfold void, bind_execution, append,
    append_with_artifacts, _replayed_append, put, _put_artifact; follow;
    try apply same_leases_ensure; try apply same_leases_append; try apply same_leases_put;
    apply same_leases_for_each; intros ?.
  - unfold _verify_pending_artifact_replay. follow.
  - unfold put_pending. follow. apply same_leases_put.
Qed.
End tables.
