(* ===== verification/SqliteWorkers.v ===== *)
(** * Workers on one SQLite database

    The coordinator of provider requests with the database as its port: any
    number of workers, each a sequence of lease calls, interleaved with every
    other use of the store and with failing transactions.  The executions of
    this system are executions of the abstract pool of [RequestCoordinator], so
    a request is sent at most once, and recovery never frees a request that was
    claimed. *)

From S2P Require Import Prelude PyVal Json Models Diagnostics RequestLease RequestCoordinator RequestSafety JournalPayload ResourceLimits JournalRecords JournalSnapshot JournalRuntime JournalReplay JsonParse SqliteStore SqliteJournal SqliteLeases SqliteCodec SqliteInvariant SqliteRefinement SqliteSafety SqliteLeaseRefinement.

Section workers.
Context `{U : Unicode} `{!UnicodeLaws U} `{F : UnicodeFold}.

(** What a port call hands back to the coordinator. *)
Definition loaded (r : R (option ProviderRequestLease)) : R (option (arg ProviderRequestLease)) :=
  match r with Ok l => Ok (Inst <$> l) | Err e => Err e end.
Definition swapped (r : R ProviderRequestLease) : R (arg ProviderRequestLease) :=
  match r with Ok l => Ok (Inst l) | Err e => Err e end.

Record worker_pool : Type := mkWorkers {
  wp_store : Store;
  wp_threads : list thread;
  wp_log : list (nat * ProviderRequestLease);
}.

(** A worker starts a call, or makes its next port call as a repository of
    some execution; a swap may be carried out although the worker sees an
    exception (an interrupt between the commit and the answer).  Anything else
    may happen to the store, except that nobody else writes leases. *)
Inductive worker_step : worker_pool → worker_pool → Prop :=
| ws_start st ts g op :
    worker_step (mkWorkers st ts g) (mkWorkers st (ts ++ [mkThread op (op_prog op)]) g)
| ws_command st ts g c :
    admissible c → swaps c = false →
    worker_step (mkWorkers st ts g) (mkWorkers (run_command c st).2 ts g)
| ws_faults st ts g faults :
    worker_step (mkWorkers st ts g) (mkWorkers (mkStore (st_db st) (st_files st) faults) ts g)
| ws_load st ts g i op s k x r st' :
    ts !! i = Some (mkThread op (Load s k)) → load x (Inst s) st = (r, st') →
    worker_step (mkWorkers st ts g) (mkWorkers st' (advance i op (k (loaded r)) ts) g)
| ws_cas st ts g i op s n l k x st' :
    ts !! i = Some (mkThread op (Cas s n l k)) → lease_object l →
    compare_and_swap x (Inst s) (VInt n) (Inst l) st = (Ok l, st') →
    worker_step (mkWorkers st ts g) (mkWorkers st' (advance i op (k (Ok (Inst l))) ts) (g ++ [(i, l)]))
| ws_cas_lost st ts g i op s n l k x st' e :
    ts !! i = Some (mkThread op (Cas s n l k)) → lease_object l →
    compare_and_swap x (Inst s) (VInt n) (Inst l) st = (Ok l, st') →
    worker_step (mkWorkers st ts g) (mkWorkers st' (advance i op (k (Err e)) ts) (g ++ [(i, l)]))
| ws_cas_error st ts g i op s n l k x e st' :
    ts !! i = Some (mkThread op (Cas s n l k)) → lease_object l →
    compare_and_swap x (Inst s) (VInt n) (Inst l) st = (Err e, st') →
    worker_step (mkWorkers st ts g) (mkWorkers st' (advance i op (k (Err e)) ts) g).

Definition workers_reachable (p : worker_pool) : Prop :=
  ∃ files faults, rtc worker_step (mkWorkers (mkStore empty_db files faults) [] []) p.

(** A program alone, with the database as its port. *)
Fixpoint sqlite_run {A} (x : pystr) (p : prog A) (st : Store) : R A * Store :=
  match p with
  | Done r => (r, st)
  | Load s k => let '(r, st') := load x (Inst s) st in sqlite_run x (k (loaded r)) st'
  | Cas s n l k =>
      let '(r, st') := compare_and_swap x (Inst s) (VInt n) (Inst l) st in
      sqlite_run x (k (swapped r)) st'
  end.

(** ** Single calls *)

Lemma load_quiet x s st r st' : load x s st = (r, st') → st_db st' = st_db st.
Proof.
  intros H. assert (Hq := quiet_command (CLoadLease x s) st). cbn [run_command] in Hq.
  by rewrite void_state, H in Hq.
Qed.

Lemma load_cases x s st r st' d :
  leases_of d (st_db st) → load x (Inst s) st = (r, st') → (∃ e, r = Err e) ∨ r = Ok (d !! s).
Proof.
  intros Hlo Hrun. unfold load, _scope_attempt in Hrun.
  case_bool_decide; cbn [ensure] in Hrun; [|left; exists ProviderRequestLeaseIntegrityError; by injection Hrun].
  rewrite bind_lift_ok in Hrun.
  match type of Hrun with sqlite_errors ?c ?f (_transaction ?m) st = _ =>
    destruct (guarded_cases c f m st) as [(e & He & _)|(a & s' & Hm & H')] end.
  - left. exists e. by rewrite Hrun in He.
  - right. rewrite Hrun in H'. injection H' as -> ->. rewrite bind_query in Hm. cbn [st_db] in Hm.
    destruct (_load_lease_in_transaction x s (st_db st)) as [c|] eqn:E; [|done].
    injection Hm as <- <-. by rewrite (load_exact d _ _ _ _ Hlo E).
Qed.

Lemma load_present x s st d l :
  leases_of d (st_db st) → d !! s = Some l → gr_execution_id (at_generation (attempt s)) = x → no_fault st →
  ∃ st', load x (Inst s) st = (Ok (Some l), st').
Proof.
  intros Hlo Hs Hx Hf. unfold load, _scope_attempt. rewrite bool_decide_eq_true_2 by done. cbn [ensure].
  rewrite bind_lift_ok. unfold sqlite_errors, try_except, _transaction.
  unfold no_fault in Hf. destruct (head (st_faults st)) as [[]|]; try done;
    rewrite bind_query; cbn [st_db]; rewrite (load_current d _ _ _ _ Hlo Hs); by eexists.
Qed.

Lemma swap_effect x s n l st r st' d :
  leases_of d (st_db st) → lease_object l → compare_and_swap x (Inst s) (VInt n) (Inst l) st = (r, st') →
  (∃ e, r = Err e ∧ leases_of d (st_db st')) ∨
  (r = Ok l ∧ current_revision d s = n ∧ leases_of (<[s := l]> d) (st_db st')).
Proof.
  intros Hlo Hl Hrun.
  destruct (swap_cases x (Inst s) (VInt n) (Inst l) st)
    as [(e & He & Hdb)|(k & m & l' & s0 & s' & Hk & Hm & Hl' & Hs0 & _ & Hsub & Hswap & H)]; rewrite Hrun in *.
  - left. exists e. cbn [fst snd] in *. split; [done|]. by rewrite Hdb.
  - right. simplify_eq. rewrite <-Hs0 in Hlo.
    by destruct (swap_leases d x _ m l' s0 _ _ Hlo Hl eq_refl Hswap).
Qed.

(** ** Simulation *)

(** The abstract pool that a state of the workers stands for. *)
Definition represents (w : worker_pool) (p : pool) : Prop :=
  leases_of (durable p) (st_db (wp_store w)) ∧ threads p = wp_threads w ∧ log p = wp_log w.

Lemma worker_simulated w w' p :
  represents w p → worker_step w w' → ∃ p', rtc pool_step p p' ∧ represents w' p'.
Proof.
  destruct p as [d ts g]. intros (Hlo & Ht & Hg) Hstep.
  destruct Hstep as [st ts' g' op|st ts' g' c Hc Hsw|st ts' g' faults|st ts' g' i op s k x r st' Hi Hrun
    |st ts' g' i op s n l k x st' Hi Hl Hrun|st ts' g' i op s n l k x st' e Hi Hl Hrun
    |st ts' g' i op s n l k x e st' Hi Hl Hrun];
    cbn [durable threads log wp_store wp_threads wp_log] in *; subst ts' g'.
  - exists (mkPool d (ts ++ [mkThread op (op_prog op)]) g). split; [apply rtc_once, step_start|done].
  - exists (mkPool d ts g). split; [done|]. split; [|done]. eapply leases_frame; [exact Hlo|]. by apply command_same_leases.
  - exists (mkPool d ts g). split; [done|]. by split.
  - assert (Hdb := load_quiet _ _ _ _ _ Hrun).
    destruct (load_cases _ _ _ _ _ d Hlo Hrun) as [[e ->]| ->].
    + eexists (mkPool d _ g). split; [apply rtc_once; by eapply step_load_error|]. split; [|done]. cbn [durable wp_store]. by rewrite Hdb.
    + eexists (mkPool d _ g). split; [apply rtc_once; by eapply step_load|]. split; [|done]. cbn [durable wp_store]. by rewrite Hdb.
  - destruct (swap_effect _ _ _ _ _ _ _ d Hlo Hl Hrun) as [(e & ? & _)|(_ & Hn & Hlo')]; [done|].
    eexists (mkPool _ _ _). split; [apply rtc_once; by eapply step_cas|]. by split.
  - destruct (swap_effect _ _ _ _ _ _ _ d Hlo Hl Hrun) as [(e' & ? & _)|(_ & Hn & Hlo')]; [done|].
    eexists (mkPool _ _ _). split; [apply rtc_once; by eapply (step_cas_lost _ _ _ _ _ _ _ _ _ e)|]. by split.
  - destruct (swap_effect _ _ _ _ _ _ _ d Hlo Hl Hrun) as [(e' & ? & Hlo')|(? & _)]; [|done]. simplify_eq.
    eexists (mkPool d _ g). split; [apply rtc_once; by eapply step_cas_error|]. by split.
Qed.

Lemma workers_simulated w : workers_reachable w → ∃ p, pool_reachable p ∧ represents w p.
Proof.
  intros (files & faults & Hsteps).
  assert (∀ w0 p0, rtc worker_step w0 w → represents w0 p0 → ∃ p, rtc pool_step p0 p ∧ represents w p) as Hsim.
  { clear files faults Hsteps. intros w0 p0 H. revert p0. induction H as [w|w w1 w' Hstep _ IH]; intros p0 Hr; [by exists p0|].
    destruct (worker_simulated _ _ _ Hr Hstep) as (p1 & Hp1 & Hr1). destruct (IH p1 Hr1) as (p & Hp & Hrp).
    exists p. split; [by etrans|done]. }
  destruct (Hsim _ empty_pool Hsteps) as (p & Hp & Hr); [|by exists p].
  split; [apply empty_leases|done].
Qed.

(** The store of the workers has an ordinary history. *)
Lemma workers_store w : workers_reachable w → ∃ files faults, rtc step (mkStore empty_db files faults) (wp_store w).
Proof.
  intros (files & faults & Hsteps). exists files, faults.
  change (mkStore empty_db files faults) with (wp_store (mkWorkers (mkStore empty_db files faults) [] [])).
  induction Hsteps as [w|w w1 w' Hstep _ IH]; [done|]. etrans; [|exact IH].
  destruct Hstep as [| | |? ? ? ? ? s ? x ? ? _ Hrun|? ? ? ? ? s n l ? x ? _ _ Hrun|? ? ? ? ? s n l ? x ? ? _ _ Hrun
    |? ? ? ? ? s n l ? x ? ? _ _ Hrun]; cbn [wp_store]; try done.
  - by apply rtc_once, step_command.
  - apply rtc_once, step_faults.
  - apply rtc_once. assert (H := step_command st (CLoadLease x (Inst s)) I). cbn [run_command] in H.
    by rewrite void_state, Hrun in H.
  - apply rtc_once. assert (H := step_command st (CSwapLease x (Inst s) (VInt n) (Inst l)) I). cbn [run_command] in H.
    by rewrite void_state, Hrun in H.
  - apply rtc_once. assert (H := step_command st (CSwapLease x (Inst s) (VInt n) (Inst l)) I). cbn [run_command] in H.
    by rewrite void_state, Hrun in H.
  - apply rtc_once. assert (H := step_command st (CSwapLease x (Inst s) (VInt n) (Inst l)) I). cbn [run_command] in H.
    by rewrite void_state, Hrun in H.
Qed.

(** ** Claims *)

(** C8. The database implements the abstract lease store: for every execution
    of workers on one SQLite database, with any other use of the journal in
    between, failing transactions and lost answers, there is an execution of
    the abstract pool with the same calls in the same states and the same
    swaps, whose store is exactly what the lease tables describe; and the
    journals of the database stay sound. *)
Theorem sqlite_leases_refine_store (w : worker_pool) :
  workers_reachable w →
  (∃ p, pool_reachable p ∧ leases_of (durable p) (st_db (wp_store w)) ∧
        threads p = wp_threads w ∧ log p = wp_log w) ∧
  ∀ x, ∃ events, journal_of x events (st_db (wp_store w)).
Proof.
  intros Hw. split.
  - destruct (workers_simulated w Hw) as (p & Hp & Hr). by exists p.
  - intros x. destruct (workers_store w Hw) as (files & faults & Hs).
    destruct (steps_extend _ _ x [] Hs (empty_journal x)) as (es & _ & Hj). by exists es.
Qed.

(** C9. One send per request on a shared database: two different calls of
    workers that claim a request never both return with the same subject,
    whatever else is done to the store and whichever transactions fail. *)
Theorem sqlite_one_claim_per_request (w : worker_pool) (i j : nat) (op op' : request_op)
    (l l' : ProviderRequestLease) :
  workers_reachable w → is_claim op = true → is_claim op' = true →
  wp_threads w !! i = Some (mkThread op (Done (Ok l))) →
  wp_threads w !! j = Some (mkThread op' (Done (Ok l'))) →
  subject l = subject l' → i = j.
Proof.
  intros Hw Ho Ho' Hi Hj Hs. destruct (workers_simulated w Hw) as (p & Hp & _ & Ht & _).
  rewrite <-Ht in Hi, Hj. exact (claims_distinct p i j op op' l l' Hp Ho Ho' Hi Hj Hs).
Qed.

(** C10. Recovery on the database is safe and, for a claimed request, it
    answers: it writes nothing; when it answers it reports exactly the durable
    lease and allows an automatic resend only if no worker ever claimed the
    request, even if every answer was lost; and when the request was claimed and
    the transaction goes through, it does answer and forbids the resend. *)
Theorem sqlite_recovery_never_frees_a_claim (w : worker_pool) (x : pystr) (s : ProviderRequestSubject) :
  workers_reachable w →
  let '(r, st') := sqlite_run x (recover (Inst s)) (wp_store w) in
  st_db st' = st_db (wp_store w) ∧
  (∀ a, r = Ok a → auto_resend_allowed a = true → ∀ l, l ∈ (wp_log w).*2 → subject l ≠ s) ∧
  (∀ l, l ∈ (wp_log w).*2 → subject l = s → gr_execution_id (at_generation (attempt s)) = x →
     no_fault (wp_store w) →
     ∃ a cur, r = Ok a ∧ rc_lease a = Some cur ∧ subject cur = s ∧ (revision l ≤ revision cur)%Z ∧
              auto_resend_allowed a = false).
Proof.
  intros Hw. destruct (workers_simulated w Hw) as (p & Hp & Hlo & _ & Hg). apply reachable_inv in Hp as Hinv.
  cbn [recover]. unfold _load. cbn [mbind prog_bind prog_bind' sqlite_run].
  destruct (load x (Inst s) (wp_store w)) as [r st'] eqn:Hrun. assert (Hdb := load_quiet _ _ _ _ _ Hrun).
  destruct (load_cases _ _ _ _ _ _ Hlo Hrun) as [[e ->]| ->].
  - cbn [loaded prog_bind' sqlite_run]. split; [done|]. split; [done|]. intros l Hl Hs Hx Hf. rewrite <-Hg in Hl.
    destruct (inv_latest _ Hinv l Hl) as (cur & Hcur & _). rewrite Hs in Hcur.
    destruct (load_present x s _ _ cur Hlo Hcur Hx Hf) as (st'' & H). by rewrite Hrun in H.
  - cbn [loaded]. destruct (durable p !! s) as [cur|] eqn:Hcur; simpl.
    + destruct (inv_durable _ Hinv s cur Hcur) as [Hsub _]. rewrite decide_True by done. simpl. split; [done|].
      assert (Hno : auto_resend_allowed (RequestCoordinator.mkRecovery s (disposition_of (Some cur)) (Some cur)) = false).
      { unfold auto_resend_allowed, disposition_of. simpl. by repeat case_match. }
      split; [intros a [= <-] H; by assert (true = false) by exact (eq_trans (eq_sym H) Hno)|]. intros l Hl Hs _ _. rewrite <-Hg in Hl.
      destruct (inv_latest _ Hinv l Hl) as (cur' & Hcur' & Hle). rewrite Hs, Hcur in Hcur'. injection Hcur' as <-.
      by eexists _, cur.
    + split; [done|].
      assert (Hnone : ∀ l, l ∈ (wp_log w).*2 → subject l ≠ s).
      { intros l Hl Hs. rewrite <-Hg in Hl. destruct (inv_latest _ Hinv l Hl) as (cur & Hc & _). congruence. }
      split; [auto|]. intros l Hl Hs. by destruct (Hnone l Hl).
Qed.
End workers.
