(* ===== verification/SqliteDemo.v ===== *)
(** * A SQLite store at work

    Concrete histories of the store, evaluated: they show that the hypotheses
    of the theorems on the SQLite store can be met, and what the store does in
    a case that is easy to overlook ([padded_receipt_blocks_lookup]). *)

From S2P Require Import Prelude PyVal Json Models Diagnostics RequestLease RequestCoordinator RequestSafety JournalPayload ResourceLimits JournalRecords JournalVocabulary JournalSnapshot JournalRuntime JournalReplay JournalRecovery JournalDemo JsonParse JsonDefault SqliteStore SqliteJournal SqliteLeases SqliteCodec SqliteInvariant SqliteRefinement SqliteSafety SqlitePort SqliteIntegrity SqliteLeaseRefinement SqliteWorkers.

(** ** Histories by evaluation *)

Section histories.
Context `{U : Unicode} `{F : UnicodeFold}.

Definition after_commands (cs : list command) (s : Store) : Store := foldl (λ s c, (run_command c s).2) s cs.

Lemma after_commands_steps cs s : Forall admissible cs → rtc step s (after_commands cs s).
Proof.
  intros H. revert s. induction H as [|c cs Hc _ IH]; intros s; [done|].
  eapply rtc_l; [by apply step_command|apply IH].
Qed.

(** Schedules of workers: [None] when the call is not the next one. *)
Inductive act : Type :=
| Begin (op : request_op)
| Do (c : command)
| PortCall (x : pystr) (i : nat)
| Interrupted (x : pystr) (i : nat) (e : pyexn).

Definition act_step (a : act) (w : worker_pool) : option worker_pool :=
  let '(mkWorkers st ts g) := w in
  match a with
  | Begin op => Some (mkWorkers st (ts ++ [mkThread op (op_prog op)]) g)
  | Do c => if swaps c then None else Some (mkWorkers (run_command c st).2 ts g)
  | PortCall x i =>
      match ts !! i with
      | Some (mkThread op (Load s k)) =>
          let '(r, st') := load x (Inst s) st in Some (mkWorkers st' (advance i op (k (loaded r)) ts) g)
      | Some (mkThread op (Cas s n l k)) =>
          match compare_and_swap x (Inst s) (VInt n) (Inst l) st with
          | (Ok _, st') => Some (mkWorkers st' (advance i op (k (Ok (Inst l))) ts) (g ++ [(i, l)]))
          | (Err e, st') => Some (mkWorkers st' (advance i op (k (Err e)) ts) g)
          end
      | _ => None
      end
  | Interrupted x i e =>
      match ts !! i with
      | Some (mkThread op (Cas s n l k)) =>
          match compare_and_swap x (Inst s) (VInt n) (Inst l) st with
          | (Ok _, st') => Some (mkWorkers st' (advance i op (k (Err e)) ts) (g ++ [(i, l)]))
          | (Err _, _) => None
          end
      | _ => None
      end
  end.

(** The lease a worker is about to write is an object of its class. *)
Definition act_ok (a : act) (w : worker_pool) : Prop :=
  match a with
  | Do c => admissible c
  | PortCall _ i | Interrupted _ i _ =>
      match wp_threads w !! i with Some (mkThread _ (Cas _ _ l _)) => lease_object l | _ => True end
  | Begin _ => True
  end.

Lemma act_step_sound a w w' : act_ok a w → act_step a w = Some w' → worker_step w w'.
Proof.
  destruct w as [st ts g], a as [op|c|x i|x i e]; cbn [act_step act_ok wp_threads]; intros Hok H.
  - injection H as <-. apply ws_start.
  - destruct (swaps c) eqn:Hs; [done|]. injection H as <-. by apply ws_command.
  - destruct (ts !! i) as [[op [r|s k|s n l k]]|] eqn:Hi; [done| | |done].
    + destruct (load x (Inst s) st) as [r st'] eqn:Hr. injection H as <-. by eapply ws_load.
    + destruct (swap_cases x (Inst s) (VInt n) (Inst l) st) as [(e & He & _)|(? & ? & l' & ? & st' & _ & _ & [= ->] & _ & _ & _ & _ & Hrun)].
      * destruct (compare_and_swap x (Inst s) (VInt n) (Inst l) st) as [[?|e'] st'] eqn:Hrun; [done|].
        injection H as <-. by eapply ws_cas_error.
      * rewrite Hrun in H. injection H as <-. by eapply ws_cas.
  - destruct (ts !! i) as [[op [r|s k|s n l k]]|] eqn:Hi; [done|done| |done].
    destruct (swap_cases x (Inst s) (VInt n) (Inst l) st) as [(e' & He & _)|(? & ? & l' & ? & st' & _ & _ & [= ->] & _ & _ & _ & _ & Hrun)].
    + by destruct (compare_and_swap x (Inst s) (VInt n) (Inst l) st) as [[?|?] ?].
    + rewrite Hrun in H. injection H as <-. by eapply ws_cas_lost.
Qed.

Definition act_all (a : act) (w : worker_pool) : worker_pool := default w (act_step a w).

Lemma act_all_reachable a w : act_ok a w → workers_reachable w → workers_reachable (act_all a w).
Proof.
  intros Hok (files & faults & H). unfold act_all. destruct (act_step a w) as [w'|] eqn:E; simpl; [|by exists files, faults].
  exists files, faults. eapply rtc_r; [exact H|]. by eapply act_step_sound.
Qed.
End histories.

Module SqliteDemo.
Import JournalDemo.JournalDemo.

Definition x : pystr := u "exec-1".
Definition fresh_store : Store := mkStore empty_db ∅ [].

Definition req (name type : string) (payload : list (pystr * frozen)) : JournalAppendRequest :=
  mkAppendRequest (u name) (u type) (att "attempt-1") (oper name) payload [].

Definition requests : list JournalAppendRequest :=
  [req "e1" "run.started" []; req "e2" "tool_call" call_payload; req "e3" "tool.started" call_payload].

Lemma storable_req r :
  request_wf r → printableb (JournalAppendRequest_to_dict r) = true → storable r.
Proof. intros Hw Hp. split; [done|by apply printableb_ok]. Qed.

(** Evaluate the conditions on a request. *)
Ltac storable :=
  apply storable_req; [split; [evaluate|evaluate|unfold wf_AttemptRef; evaluate|unfold wf_OperationRef; evaluate|evaluate|constructor]|evaluate].

Lemma requests_storable : Forall storable requests.
Proof. repeat (apply Forall_cons; split; [storable|]). constructor. Qed.

Definition commands : list command := CBindExecution (VStr x) :: ((λ r, CAppend x (Inst r)) <$> requests).

Lemma commands_admissible : Forall admissible commands.
Proof.
  constructor; [done|]. apply Forall_fmap. eapply Forall_impl; [apply requests_storable|]. done.
Qed.

Definition written : Store := Eval vm_compute in after_commands commands fresh_store.

Lemma written_after : after_commands commands fresh_store = written.
Proof. vm_compute. reflexivity. Qed.

Lemma written_reachable : rtc step fresh_store written.
Proof. rewrite <-written_after. apply after_commands_steps, commands_admissible. Qed.

Lemma reachable_journals_are_sound_witness :
  length (execution_events x (st_db written)) = 3 ∧
  ∃ log, journal_of x log (st_db written) ∧ events_of_rows x (st_db written) (execution_events x (st_db written)) = Ok log.
Proof.
  split; [evaluate|]. exact (reachable_journals_are_sound ∅ [] written x written_reachable).
Defined.

(** The operation of the second event with another payload. *)
Definition conflicting : JournalAppendRequest := req "e2" "tool_call" [].

Lemma failed_command_changes_nothing_witness :
  (run_command (CAppend x (Inst conflicting)) written).1 = Err JournalConflictError ∧
  st_db (run_command (CAppend x (Inst conflicting)) written).2 = st_db written.
Proof.
  assert ((run_command (CAppend x (Inst conflicting)) written).1 = Err JournalConflictError) as H by evaluate.
  split; [exact H|]. exact (failed_command_changes_nothing _ _ _ H).
Defined.

(** An append whose answer is repeated after more appends and a failed commit. *)
Definition first_append : R JournalAppendResult * Store := Eval vm_compute in
  append x (Inst (req "e2" "tool_call" call_payload)) (after_commands (take 2 commands) fresh_store).

Definition first_result : JournalAppendResult :=
  match first_append.1 with Ok r => r | Err _ => mkAppendResult intent (cursor_of intent) false end.

Definition later : list command :=
  [CAppend x (Inst (req "e3" "tool.started" call_payload)); CPut x [1%N] (VStr (u "text/plain")) (oper "a1") (VStr [])].

Lemma later_admissible : Forall admissible later.
Proof. repeat (apply Forall_cons; split; [first [exact I|storable]|]). constructor. Qed.

Definition disturbed_store : Store := mkStore (st_db first_append.2) (st_files first_append.2) [CommitFails; NoFault].

Lemma append_happens_once_witness :
  rs_event first_result = mkEvent (req "e2" "tool_call" call_payload) 2 ∧
  (run_command (CAppend x (Inst (req "e3" "tool.started" call_payload))) disturbed_store).1 = Err JournalRepositoryError ∧
  ∃ s3, append x (Inst (req "e2" "tool_call" call_payload)) (after_commands later disturbed_store) =
          (Ok (mkAppendResult (rs_event first_result) (rs_cursor first_result) true), s3) ∧
        st_db s3 = st_db (after_commands later disturbed_store).
Proof.
  split; [evaluate|]. split; [evaluate|].
  refine (proj1 (append_happens_once ∅ [] (after_commands (take 2 commands) fresh_store) x
    (req "e2" "tool_call" call_payload) first_result first_append.2 (after_commands later disturbed_store) _ _ _ _ _)).
  - apply after_commands_steps. apply Forall_take, commands_admissible.
  - storable.
  - vm_compute. reflexivity.
  - eapply rtc_l; [apply (step_faults _ [CommitFails; NoFault])|]. apply after_commands_steps, later_admissible.
  - vm_compute. exact I.
Defined.

Definition next_request : JournalAppendRequest := req "e4" "run.completed" [].

Lemma append_refines_log_witness :
  (append x (Inst next_request) written).1 = Ok (mkAppendResult (mkEvent next_request 4) (cursor_of (mkEvent next_request 4)) false) ∧
  ∃ log s', journal_of x log (st_db written) ∧
    let '(r, log') := log_append_spec (foreign x (st_db written)) log next_request in
    append x (Inst next_request) written = (append_result r, s') ∧ journal_of x log' (st_db s') ∧
    (log' = log → st_db s' = st_db written) ∧
    ∀ y other, y ≠ x → journal_of y other (st_db written) → journal_of y other (st_db s').
Proof.
  split; [evaluate|].
  apply (append_refines_log ∅ [] written x next_request); [apply written_reachable|storable|reflexivity|exact I].
Defined.

(** *** The sink on the store *)

Definition sqlite_sink : DurableEventSink Store :=
  mkSink (sqlite_journal x) (att "attempt-1") (λ _, mret None).

Definition ids_of (r : R (list JournalEvent)) : list pystr :=
  match r with Ok es => event_id <$> es | Err _ => [] end.

Definition replayed_ids : list pystr := ids_of (replay sqlite_sink (VInt 2) written).1.

Lemma replay_not_refused e : (replay sqlite_sink (VInt 2) written).1 ≠ Err e.
Proof.
  assert (replayed_ids = [u "e1"; u "e2"; u "e3"]) as H by evaluate. unfold replayed_ids, ids_of in H. intros E.
  rewrite E in H. discriminate H.
Qed.

Lemma sqlite_replay_is_complete_witness :
  replayed_ids = [u "e1"; u "e2"; u "e3"] ∧
  ∃ log, journal_of x log (st_db written) ∧
    replay sqlite_sink (VInt 2) written = (Ok (filter (of_attempt sqlite_sink) log), written).
Proof.
  split; [evaluate|].
  destruct (sqlite_replay_is_complete ∅ [] written sqlite_sink x written_reachable eq_refl eq_refl 2 ltac:(lia))
    as (log & Hj & Hr).
  exists log. split; [exact Hj|]. cbv zeta in Hr. revert Hr.
  destruct (bool_decide (Forall _ _)); [destruct (bool_decide (length _ ≤ _))|]; [exact (λ H, H)|..];
    intros Hr; exfalso; eapply replay_not_refused; rewrite Hr; reflexivity.
Defined.

Lemma sqlite_tool_is_never_rerun_witness :
  ∃ r s', recover_tool_side_effect sqlite_sink (VStr (u "call-1")) (VInt 100) written = (Ok r, s') ∧
  ∃ log, journal_of x log (st_db written) ∧
    ((∃ e, e ∈ log ∧ receipt_of (sk_attempt sqlite_sink) (u "call-1") e ∧ event_type e ≠ u "tool_call") →
     auto_execute_allowed r = false) ∧
    (auto_execute_allowed r = true →
     ∃ intent, event_type intent = u "tool_call" ∧
               ∀ e, e ∈ log → receipt_of (sk_attempt sqlite_sink) (u "call-1") e → e = intent).
Proof.
  eexists _, _. split; [evaluate|].
  apply (sqlite_tool_is_never_rerun ∅ [] written sqlite_sink x written_reachable ltac:(reflexivity) ltac:(reflexivity)
    (VStr (u "call-1")) (VInt 100) (u "call-1") _ written); [evaluate|evaluate].
Defined.

(** *** A cached snapshot *)

Definition captured_pair : R (JournalSnapshot * Z) * Store := Eval vm_compute in
  capture_snapshot_with_integrity_revision x (VInt 100) (VInt 100000) written.

Definition cached : JournalSnapshot := Eval vm_compute in
  match captured_pair.1 with Ok (snap, _) => snap | Err _ => snapshot end.

(** Another program deletes the second event. *)
Definition tampered_db : Db := Eval vm_compute in
  default (st_db written) (run_write (DeleteEvents (λ r, (ew_store_seq r =? 2)%Z)) (st_db captured_pair.2)).

Lemma tampering : run_write (DeleteEvents (λ r, (ew_store_seq r =? 2)%Z)) (st_db captured_pair.2) = Some tampered_db.
Proof. vm_compute. reflexivity. Qed.

Lemma cached_snapshot_is_trustworthy_witness :
  (snapshot_prefix_is_current x (Inst cached) (VInt 0) (with_db tampered_db captured_pair.2)).1 = Ok false ∧
  ∃ current, snapshot_prefix_is_current x (Inst cached) (VInt 0) (with_db tampered_db captured_pair.2) =
               (Ok current, with_db tampered_db captured_pair.2) ∧
    (current = true →
     events_of_rows x tampered_db (List.filter (in_prefix cached) (execution_events x tampered_db)) = Ok (sn_events cached)) ∧
    (rtc step captured_pair.2 (with_db tampered_db captured_pair.2) → current = true).
Proof.
  split; [evaluate|].
  apply (cached_snapshot_is_trustworthy x (VInt 100) (VInt 100000) written cached 0 captured_pair.2
           (with_db tampered_db captured_pair.2)).
  - vm_compute. eexists. reflexivity.
  - reflexivity.
  - vm_compute. reflexivity.
  - apply rtc_once. exact (ds_write captured_pair.2 _ _ tampering).
  - reflexivity.
Defined.

(** *** A padded call id

    The receipt index strips the call id of an event, the record of a lookup
    compares it exactly: once an event with a padded call id is appended, which
    the journal accepts, every lookup of the call is refused. *)

Definition padded_payload : list (pystr * frozen) :=
  [(u "call_id", FStr (u " call-1 ")); (u "tool_name", FStr (u "shell"))].

Definition padded : JournalAppendRequest := req "e9" "tool_call" padded_payload.

Lemma padded_storable : storable padded.
Proof. storable. Qed.

Example padded_receipt_blocks_lookup :
  (append x (Inst padded) written).1 = Ok (mkAppendResult (mkEvent padded 4) (cursor_of (mkEvent padded 4)) false) ∧
  (lookup_tool_execution_receipts x (Inst (att "attempt-1")) (VStr (u "call-1")) (append x (Inst padded) written).2).1
  = Err ModelValidationError.
Proof. split; evaluate. Qed.

(** *** Two workers and one database *)

Definition begin_pool : worker_pool := mkWorkers fresh_store [] [].

Definition claim_lease : ProviderRequestLease := RequestDemo.started 0 "claim".

Lemma claim_object : lease_object claim_lease.
Proof.
  split; [|apply printableb_ok; evaluate].
  exists (mkArgs (Inst (RequestDemo.subj 0)) (VStr (RequestDemo.sha 99)) (Inst STARTED) (VInt 1) (VBool false) (VBool false)
            (VStr []) (Inst (RequestDemo.op "claim")) (Val VNone) VNone (Val VNone) (Val VNone)).
  split; [split; exact I|evaluate].
Qed.

(** Both workers find the request free, the second one is too late; the answer
    of the first one is lost. *)
Definition race_acts : list act :=
  [Do (CBindExecution (VStr x)); Begin RequestDemo.claim; Begin RequestDemo.claim;
   PortCall x 0; PortCall x 1; PortCall x 0; PortCall x 1].

Definition raced : worker_pool := foldl (λ w a, act_all a w) begin_pool race_acts.

Lemma claim_object_like l : l = claim_lease → lease_object l.
Proof. intros ->. apply claim_object. Qed.

Lemma raced_reachable : workers_reachable raced.
Proof.
  unfold raced, race_acts. cbn [foldl].
  repeat (apply act_all_reachable; [vm_compute; first [exact I | apply claim_object_like; evaluate]|]).
  exists ∅, []. apply rtc_refl.
Qed.

Lemma sqlite_leases_refine_store_witness :
  wp_log raced = [(0, claim_lease)] ∧
  ∃ p, pool_reachable p ∧ leases_of (durable p) (st_db (wp_store raced)) ∧
       threads p = wp_threads raced ∧ RequestCoordinator.log p = wp_log raced.
Proof.
  split; [evaluate|]. exact (proj1 (sqlite_leases_refine_store raced raced_reachable)).
Defined.

Definition outcome_of (w : worker_pool) (i : nat) : option (R ProviderRequestLease) :=
  match wp_threads w !! i with Some (mkThread _ (Done r)) => Some r | _ => None end.

Lemma sqlite_one_claim_per_request_witness :
  outcome_of raced 1 = Some (Err ProviderRequestLeaseConflict) ∧
  (∀ j l', wp_threads raced !! j = Some (mkThread RequestDemo.claim (Done (Ok l'))) →
           subject claim_lease = subject l' → 0 = j).
Proof.
  split; [evaluate|]. intros j l' Hj Hs.
  apply (sqlite_one_claim_per_request raced 0 j RequestDemo.claim RequestDemo.claim claim_lease l' raced_reachable
    eq_refl eq_refl); [vm_compute; reflexivity|exact Hj|exact Hs].
Defined.

Definition recovered : R ProviderRequestRecovery * Store := sqlite_run x (recover (Inst (RequestDemo.subj 0))) (wp_store raced).

Lemma sqlite_recovery_never_frees_a_claim_witness :
  st_db recovered.2 = st_db (wp_store raced) ∧
  ∃ a, recovered.1 = Ok a ∧ auto_resend_allowed a = false.
Proof.
  assert (H := sqlite_recovery_never_frees_a_claim raced x (RequestDemo.subj 0) raced_reachable).
  fold recovered in H. destruct recovered as [r st'] eqn:E. destruct H as (Hdb & _ & Hclaimed). split; [exact Hdb|].
  destruct (Hclaimed claim_lease) as (a & cur & Ha & _ & _ & _ & Hno).
  - assert ((wp_log raced).*2 = [claim_lease]) as -> by (vm_compute; reflexivity). left.
  - reflexivity.
  - reflexivity.
  - vm_compute. exact I.
  - exists a. split; [exact Ha|exact Hno].
Defined.
End SqliteDemo.
