(* ===== verification/JournalCache.v ===== *)
(** * The run-local view of a journal (src/unchain/context/journal_view_cache.py)

    [FullJournalSnapshotSource] reads the whole journal of an execution every
    time.  [RunLocalJournalViewCache] keeps the last snapshot it has verified in
    memory, asks the store whether that prefix still stands, and reads only what
    was appended since.  Both are modelled over the SQLite repository.  A call of
    the cache is several transactions, and anybody may act between them: the
    model carries what the others do before each transaction. *)

From S2P Require Import Prelude PyVal Json RequestLease SqliteLeases Models JournalPayload ResourceLimits JournalRecords JournalSnapshot JournalRuntime JournalReplay JsonParse SqliteStore SqliteJournal SqliteCodec SqliteInvariant SqliteRefinement SqliteSafety SqlitePort SqliteIntegrity.

(** A [RuntimeError]. *)
Definition JournalViewCacheError : pyexn := OtherError (u "JournalViewCacheError").
Definition KeyError : pyexn := OtherError (u "KeyError").

(** [except (TypeError, ValueError, KeyError)] with the subclasses of
    [ValueError] that the modelled code raises. *)
Definition rebuild_failure (e : pyexn) : bool :=
  match e with
  | TypeError | ValueError | ModelValidationError => true
  | _ => bool_decide (e ∈ [KeyError; JournalSnapshotError; BoundaryLimit])
  end.

(** [_positive_limit]; [bool] is a subclass of [int] and is refused. *)
Definition _positive_limit (value : pyval) : R Z :=
  match value with
  | VInt z => if (z <=? 0)%Z then Err ValueError else Ok z
  | _ => Err ValueError
  end.

(** ** The world of a cache *)

Section world.
Context `{U : Unicode} `{F : UnicodeFold}.

(** [RunLocalJournalViewCache]; [vc_journal] is the weak reference: the
    execution of the journal, or nothing once the journal is collected. *)
Record RunLocalJournalViewCache : Type := mkCache {
  vc_journal : option pystr;
  vc_max_events : Z;
  vc_max_bytes : Z;
  vc_snapshot : option JournalSnapshot;
  vc_integrity_revision : option Z;
  vc_full_snapshot_reads : nat;
  vc_tail_reads : nat;
  vc_cache_hits : nat;
  vc_refresh_fallbacks : nat;
}.

(** What somebody else does to the store. *)
Inductive disturbance : Type :=
| Runs (c : command)
| Faults (faults : list fault)
| Writes (w : write).

Definition disturb (s : Store) (d : disturbance) : Store :=
  match d with
  | Runs c => (run_command c s).2
  | Faults faults => mkStore (st_db s) (st_files s) faults
  | Writes w => match run_write w (st_db s) with Some db => with_db db s | None => s end
  end.

(** The store, the cache, and what the others do before each of the coming
    transactions of the cache. *)
Record World : Type := mkWorld {
  wd_store : Store;
  wd_cache : RunLocalJournalViewCache;
  wd_others : list (list disturbance);
}.

Definition with_cache (c : RunLocalJournalViewCache) (w : World) : World :=
  mkWorld (wd_store w) c (wd_others w).

(** A call of the journal, after what the others did. *)
Definition call {A} (m : M Store pyexn A) : M World pyexn A := λ w,
  let '(r, s) := m (foldl disturb (wd_store w) (default [] (head (wd_others w)))) in
  (r, mkWorld s (wd_cache w) (tail (wd_others w))).

(** ** Validation *)

Definition _serialized_size (snapshot : JournalSnapshot) : R Z :=
  bs ← _canonical_bytes (JournalSnapshot_to_dict snapshot); Ok (Z.of_nat (length bs)).

Definition _validated_snapshot (snapshot : arg JournalSnapshot) (execution_id : pystr)
    (max_events max_bytes : Z) : R JournalSnapshot :=
  match snapshot with
  | Val _ => Err JournalViewCacheError
  | Inst snapshot =>
      normalized ← JournalSnapshot_from_dict (JournalSnapshot_to_dict snapshot);
      _ ← ensure (bool_decide (sn_execution_id normalized = execution_id)) JournalViewCacheError;
      _ ← ensure (Z.of_nat (event_count normalized) <=? max_events)%Z JournalViewCacheError;
      n ← _serialized_size normalized;
      _ ← ensure (n <=? max_bytes)%Z JournalViewCacheError;
      Ok normalized
  end.

(** ** Without a cache *)

(** [FullJournalSnapshotSource.capture_snapshot] of a source with these limits. *)
Definition FullJournalSnapshotSource_capture_snapshot (execution_id : pystr) (max_events max_bytes : Z)
    : M Store pyexn JournalSnapshot :=
  captured ← capture_snapshot execution_id (VInt max_events) (VInt max_bytes);
  lift (_validated_snapshot (Inst captured) execution_id max_events max_bytes).

(** ** The cache *)

(** A journal as an object: [weakref.ref] may refuse it, and so may a
    dictionary. *)
Record JournalObject : Type := mkJournalObject {
  jb_identity : nat;
  jb_execution_id : pystr;
  jb_weak : bool;
  jb_hashable : bool;
}.

(** [RunLocalJournalViewCache.__init__] *)
Definition cache_init (journal : arg JournalObject) (max_events max_bytes : pyval)
    : R RunLocalJournalViewCache :=
  match journal with
  | Val _ => Err TypeError
  | Inst journal =>
      _ ← ensure (jb_weak journal) TypeError;
      max_events ← _positive_limit max_events;
      max_bytes ← _positive_limit max_bytes;
      Ok (mkCache (Some (jb_execution_id journal)) max_events max_bytes None None 0 0 0 0)
  end.

Definition update_cache (f : RunLocalJournalViewCache → RunLocalJournalViewCache) : M World pyexn unit :=
  modify (λ w, with_cache (f (wd_cache w)) w).

Definition self : M World pyexn RunLocalJournalViewCache := gets wd_cache.

(** The property [journal]. *)
Definition the_journal : M World pyexn pystr :=
  c ← self;
  match vc_journal c with Some x => mret x | None => raise JournalViewCacheError end.

Definition set_snapshot (snapshot : option JournalSnapshot) (c : RunLocalJournalViewCache) :=
  mkCache (vc_journal c) (vc_max_events c) (vc_max_bytes c) snapshot (vc_integrity_revision c)
    (vc_full_snapshot_reads c) (vc_tail_reads c) (vc_cache_hits c) (vc_refresh_fallbacks c).
Definition set_revision (revision : option Z) (c : RunLocalJournalViewCache) :=
  mkCache (vc_journal c) (vc_max_events c) (vc_max_bytes c) (vc_snapshot c) revision
    (vc_full_snapshot_reads c) (vc_tail_reads c) (vc_cache_hits c) (vc_refresh_fallbacks c).
(** [self._full_snapshot_reads += full] and the other counters. *)
Definition count (full tail hits fallbacks : nat) (c : RunLocalJournalViewCache) :=
  mkCache (vc_journal c) (vc_max_events c) (vc_max_bytes c) (vc_snapshot c) (vc_integrity_revision c)
    (vc_full_snapshot_reads c + full) (vc_tail_reads c + tail) (vc_cache_hits c + hits)
    (vc_refresh_fallbacks c + fallbacks).

Definition metrics : M World pyexn (nat * nat * nat * nat) :=
  c ← self;
  mret (vc_full_snapshot_reads c, vc_tail_reads c, vc_cache_hits c, vc_refresh_fallbacks c).

Definition invalidate : M World pyexn unit := update_cache (set_snapshot None).

Definition _capture_full : M World pyexn JournalSnapshot :=
  _ ← update_cache (count 1 0 0 0);
  x ← the_journal;
  c ← self;
  '(captured, revision) ← call (capture_snapshot_with_integrity_revision x
      (VInt (vc_max_events c)) (VInt (vc_max_bytes c)));
  snapshot ← lift (_validated_snapshot (Inst captured) x (vc_max_events c) (vc_max_bytes c));
  _ ← update_cache (set_snapshot (Some snapshot));
  _ ← update_cache (set_revision (Some revision));
  mret snapshot.

(** [any(earlier.store_seq + 1 != later.store_seq for ...)] is false. *)
Fixpoint consecutive (events : list JournalEvent) : bool :=
  match events with
  | e :: ((e' :: _) as rest) => (je_store_seq e + 1 =? je_store_seq e')%Z && consecutive rest
  | _ => true
  end.

(** The page continues the snapshot. *)
Definition continues (execution_id : pystr) (snapshot : JournalSnapshot) (events : list JournalEvent) : bool :=
  let expected_sequence := match sn_high_water snapshot with
                           | None => 1
                           | Some c => ec_store_seq c + 1
                           end%Z in
  match events with
  | e :: _ => (je_store_seq e =? expected_sequence)%Z
  | [] => true
  end
  && consecutive events
  && forallb (λ e, bool_decide (execution_of e = execution_id)) events.

(** The body of the inner [try]. *)
Definition view_of (execution_id : pystr) (max_events max_bytes : Z) (events : list JournalEvent)
    : R JournalSnapshot :=
  rebuilt ← capture_journal_snapshot (VStr execution_id) events;
  _validated_snapshot (Inst rebuilt) execution_id max_events max_bytes.

Definition rebuild (execution_id : pystr) (max_events max_bytes : Z) (events : list JournalEvent)
    : R (option JournalSnapshot) :=
  match view_of execution_id max_events max_bytes events with
  | Ok s => Ok (Some s)
  | Err e => if rebuild_failure e then Ok None else Err e
  end.

Definition refreshed_view (execution_id : pystr) (max_events max_bytes : Z) (snapshot : JournalSnapshot)
    (page : JournalPage) : R (option JournalSnapshot) :=
  if pg_has_more page then Ok None
  else match pg_events page with
  | [] =>
      if bool_decide (pg_next_cursor page = None ∨ pg_next_cursor page = sn_high_water snapshot)
      then Ok (Some snapshot) else Ok None
  | _ =>
      if continues execution_id snapshot (pg_events page)
      then rebuild execution_id max_events max_bytes (sn_events snapshot ++ pg_events page)
      else Ok None
  end.

Definition _refresh_from_tail (snapshot : JournalSnapshot) (x : pystr) : M World pyexn (option JournalSnapshot) :=
  c ← self;
  let remaining := (vc_max_events c - Z.of_nat (event_count snapshot))%Z in
  _ ← update_cache (count 0 1 0 0);
  page ← call (read x (cursor_arg (sn_high_water snapshot)) (VInt (Z.max 1 remaining)));
  lift (refreshed_view x (vc_max_events c) (vc_max_bytes c) snapshot page).

Definition revision_arg (revision : option Z) : pyval :=
  match revision with Some r => VInt r | None => VNone end.

(** What the [try] leaves: a value to return, or the refreshed snapshot. *)
Inductive outcome : Type :=
| Return (s : JournalSnapshot)
| Refreshed (s : option JournalSnapshot).

Definition fall_back : M World pyexn JournalSnapshot :=
  _ ← update_cache (count 0 0 0 1);
  _capture_full.

(** The body of the [try]. *)
Definition refresh (snapshot : JournalSnapshot) : M World pyexn outcome :=
  x ← the_journal;
  c ← self;
  current ← call (snapshot_prefix_is_current x (Inst snapshot) (revision_arg (vc_integrity_revision c)));
  if negb current then s ← fall_back; mret (Return s)
  else
    refreshed ← _refresh_from_tail snapshot x;
    c ← self;
    match vc_integrity_revision c with
    | None => mret (Refreshed refreshed)
    | Some revision =>
        now ← call (snapshot_integrity_revision x);
        if (now =? revision)%Z then mret (Refreshed refreshed)
        else s ← fall_back; mret (Return s)
    end.

Definition cache_capture_snapshot : M World pyexn JournalSnapshot :=
  c ← self;
  match vc_snapshot c with
  | None => _capture_full
  | Some snapshot =>
      result ← try_except (refresh snapshot)
        (λ e, if bool_decide (e = JournalScopeError) then s ← fall_back; mret (Return s) else raise e);
      match result with
      | Return s => mret s
      | Refreshed None => fall_back
      | Refreshed (Some refreshed) =>
          _ ← update_cache (set_snapshot (Some refreshed));
          _ ← update_cache (count 0 0 1 0);
          mret refreshed
      end
  end.

(** ** The registry of caches *)

(** [_registry] with the caches that were made; [cr_objects] holds them by
    address. *)
Record CacheRegistry : Type := mkRegistry {
  cr_entries : gmap nat (gmap (Z * Z) nat);
  cr_objects : list RunLocalJournalViewCache;
}.

Definition allocate (c : RunLocalJournalViewCache) : M CacheRegistry pyexn nat := λ g,
  (Ok (length (cr_objects g)), mkRegistry (cr_entries g) (cr_objects g ++ [c])).

Definition set_entry (i : nat) (by_limits : gmap (Z * Z) nat) : M CacheRegistry pyexn unit :=
  modify (λ g, mkRegistry (<[i := by_limits]> (cr_entries g)) (cr_objects g)).

(** [RunLocalJournalViewCache.for_journal]: the address of a cache. *)
Definition for_journal (journal : arg JournalObject) (max_events max_bytes : pyval)
    : M CacheRegistry pyexn nat :=
  match journal with
  | Val _ => raise TypeError
  | Inst j =>
      e ← lift (_positive_limit max_events);
      b ← lift (_positive_limit max_bytes);
      let limits := (e, b) in
      if negb (jb_weak j && jb_hashable j) then
        c ← lift (cache_init journal max_events max_bytes);
        allocate c
      else
        entry ← gets (λ g, cr_entries g !! jb_identity j);
        let by_limits := default ∅ entry in
        _ ← match entry with Some _ => mret tt | None => set_entry (jb_identity j) ∅ end;
        match by_limits !! limits with
        | Some a => mret a
        | None =>
            c ← lift (cache_init journal (VInt e) (VInt b));
            a ← allocate c;
            _ ← set_entry (jb_identity j) (<[limits := a]> by_limits);
            mret a
        end
  end.
End world.

#[global] Arguments cache_init : simpl never.
#[global] Arguments _validated_snapshot : simpl never.

(** ** What is parsed has distinct keys *)

Lemma unique_dict_set d k v :
  unique_keys (VDict d) → unique_keys v → unique_keys (VDict (dict_set d k v)).
Proof.
  intros Hd Hv. inversion Hd as [| | | | | | |? Hn Hf]; subst. constructor; [by apply keys_dict_set_NoDup|].
  clear Hn Hd. induction Hf as [|[k' v'] d Hkv Hd IH]; simpl; [by repeat constructor|].
  case_decide; by repeat constructor.
Qed.

Lemma number_unique neg whole fraction exponent v :
  number_value neg whole fraction exponent = Some v → unique_keys v.
Proof. unfold number_value. destruct fraction, exponent; try case_match; intros [= <-]; constructor. Qed.

Lemma scan_number_unique s v r : scan_number s = Some (v, r) → unique_keys v.
Proof.
  unfold scan_number. destruct (match s with 45%N :: _ => _ | _ => _ end) as [neg s1].
  intros ([whole s2] & _ & H)%bind_Some. destruct (scan_fraction s2) as [fraction s3], (scan_exponent s3) as [exponent s4].
  apply bind_Some in H as (v' & Hv & [= <- <-]). by eapply number_unique.
Qed.

Lemma scan_literal_unique s v r : scan_literal literals s = Some (v, r) → unique_keys v.
Proof.
  unfold literals. cbn [scan_literal]. intros H.
  repeat (destruct (strip_prefix _ s) in H; [injection H as <- <-; constructor|]). done.
Qed.

Lemma scan_atom_unique s v r : scan_atom s = Some (v, r) → unique_keys v.
Proof.
  unfold scan_atom. destruct (scan_literal literals s) eqn:E; [intros [= ->]; by eapply scan_literal_unique|].
  apply scan_number_unique.
Qed.

(** The scanners branch on characters. *)
Ltac follow_scan H :=
  repeat match type of H with
  | scan_atom _ = _ => by eapply scan_atom_unique
  | Some _ = _ => injection H as <- <-
  | None = _ => discriminate H
  | mbind _ _ = Some _ => apply bind_Some in H as ([? ?] & ? & H)
  | match ?x with _ => _ end = _ => destruct x
  end.

Lemma scans_unique fuel :
  (∀ s v r, scan_value fuel s = Some (v, r) → unique_keys v) ∧
  (∀ d s d' r, unique_keys (VDict d) → scan_members fuel d s = Some (d', r) → unique_keys (VDict d')) ∧
  (∀ s l r, scan_items fuel s = Some (l, r) → Forall unique_keys l).
Proof.
  assert (Hnil : unique_keys (VDict [])) by (repeat constructor).
  induction fuel as [|fuel (IHv & IHd & IHl)]; [done|]. split_and!.
  - intros s v r. cbn [scan_value]. intros H. follow_scan H; eauto; constructor; eauto.
  - intros d s d' r Hd. cbn [scan_members]. intros H. follow_scan H; eauto using unique_dict_set.
  - intros s l r. cbn [scan_items]. intros H. follow_scan H; eauto.
Qed.

Lemma decode_unique bs v : decode_json bs = Some v → unique_keys v.
Proof.
  unfold decode_json, loads. intros (s & _ & H)%bind_Some.
  destruct (scan_value _ _) as [[v' r]|] eqn:E; [|done]. destruct (skip_ws r); [|done]. injection H as <-.
  by eapply scans_unique.
Qed.

(** ** Views *)

Section views.
Context `{U : Unicode} `{!UnicodeLaws U} `{F : UnicodeFold}.
Context (x : pystr) (me mb : Z).

Lemma event_from_row_wf db row e : _event_from_row x db row = Ok e → event_wf e.
Proof.
  unfold _event_from_row.
  intros (u1 & _ & (ev & H2 & (bs & _ & (u2 & _ & (u3 & _ & H6)%result_bind_ok)%result_bind_ok)%result_bind_ok)
    %result_bind_ok)%result_bind_ok.
  assert (ev = e) as <- by (repeat case_match; congruence). clear H6. unfold malformed, json_loads in H2.
  destruct (decode_json (ew_event_json row)) as [v|] eqn:E; [|done]. cbn [mbind result_bind] in H2.
  destruct (JournalEvent_from_dict v) as [e'|err] eqn:Ee; [|by destruct err]. injection H2 as <-.
  eapply event_from_dict_wf; [by eapply decode_unique|done].
Qed.

Lemma event_from_row_fields db row e :
  _event_from_row x db row = Ok e → je_store_seq e = ew_store_seq row ∧ event_id e = ew_event_id row.
Proof.
  unfold _event_from_row.
  intros (u1 & _ & (ev & _ & (bs & _ & (u2 & _ & (u3 & H5%ensure_ok & H6)%result_bind_ok)%result_bind_ok)%result_bind_ok)
    %result_bind_ok)%result_bind_ok.
  assert (ev = e) as <- by (repeat case_match; congruence). unfold indexed_fields_agree in H5.
  rewrite !andb_true_iff in H5. destruct H5 as ((((((_ & H5%Z.eqb_eq) & H7%bool_decide_eq_true) & _) & _) & _) & _). done.
Qed.

(** The journal of the execution as the rows tell it. *)
Definition journal_rows (db : Db) : R (list JournalEvent) := events_of_rows x db (execution_events x db).

Lemma journal_rows_wf db evs : journal_rows db = Ok evs → Forall event_wf evs.
Proof.
  intros H%mapR_ok. induction H as [|row e rows evs He _ IH]; constructor; [by eapply event_from_row_wf|done].
Qed.

(** What the reader without a cache returns in one database. *)
Definition full_view (db : Db) : R JournalSnapshot :=
  captured ← _snapshot_with_connection x (VInt me) (VInt mb) db;
  _validated_snapshot (Inst captured) x me mb.

Lemma size_exact v n : size v = Some n → ∃ bs, encoded v = Some bs ∧ Z.of_nat (length bs) = n.
Proof.
  intros H. destruct (encoded_some v) as [bs Hbs]; [by eexists|]. exists bs. split; [done|].
  rewrite size_encoded in H by (by eapply size_text_keys). unfold encoded in Hbs.
  apply bind_Some in Hbs as (t & Ht & Hbs). rewrite Ht in H. simpl in H. unfold ulen in H. rewrite Hbs in H.
  by injection H as <-.
Qed.

(** A member is no longer than its dictionary. *)
Lemma dict_member_size d k v n : dict_size d = Some n → (k, v) ∈ d → ∃ m, size v = Some m ∧ (m ≤ n)%Z.
Proof.
  revert n. induction d as [|[[s|] w] d IH]; intros n; [by intros _ []%elem_of_nil| |done]. simpl. fold (dict_size d).
  intros (a & Ha & (b & Hb & (c & Hc & [= <-])%bind_Some)%bind_Some)%bind_Some.
  assert (0 ≤ a)%Z. { change (size (VStr s) = Some a) in Ha. by eapply size_pos. }
  assert (Hb' := size_pos _ _ Hb). assert (Hc' := dict_size_pos d). rewrite Hc in Hc'. simpl in Hc'.
  intros [[= -> ->]|Hin]%elem_of_cons; [exists b; split; [done|lia]|].
  destruct (IH c Hc Hin) as (m & Hm & Hle). exists m. split; [done|lia].
Qed.

(** The events of a snapshot are no longer than the snapshot. *)
Lemma events_shorter s bs :
  _canonical_bytes (JournalSnapshot_to_dict s) = Ok bs → is_Some (size (JournalSnapshot_to_dict s)) →
  ∃ bs', _canonical_json_bytes (VList (JournalEvent_to_dict <$> sn_events s)) = Ok bs' ∧ length bs' ≤ length bs.
Proof.
  unfold _canonical_bytes. intros Hbs [n Hn]. destruct (size_exact _ _ Hn) as (bs0 & E & Hl). rewrite E in Hbs.
  injection Hbs as ->. unfold JournalSnapshot_to_dict in Hn. rewrite size_dict in Hn.
  apply bind_Some in Hn as (d & Hd & [= <-]).
  destruct (dict_member_size _ (KStr (u "events")) (VList (JournalEvent_to_dict <$> sn_events s)) d Hd) as (m & Hm & Hle).
  { do 3 right. left. }
  destruct (size_exact _ _ Hm) as (bs' & E' & Hl'). exists bs'. unfold _canonical_json_bytes. rewrite E'.
  split; [done|]. unfold container_bytes in Hl. lia.
Qed.
Lemma wire_size s s' :
  JournalSnapshot_from_dict (JournalSnapshot_to_dict s) = Ok s' → is_Some (size (JournalSnapshot_to_dict s)).
Proof.
  rewrite snapshot_record. intros ([] & H & _)%result_bind_ok. apply validate_snapshot_items in H as [_ H].
  apply validate_size in H as [(n & Hn & _) _]; [|done..]. exists n. rewrite <-Hn. unfold resource_value.
  by rewrite length_fmap.
Qed.

(** A view that was returned, with what was checked of it. *)
Record is_view (evs : list JournalEvent) (s : JournalSnapshot) : Prop := {
  iv_capture : capture_journal_snapshot (VStr x) evs = Ok s;
  iv_events : sn_events s = evs;
  iv_execution : sn_execution_id s = x;
  iv_count : (Z.of_nat (length evs) ≤ me)%Z;
  iv_bytes : ∃ bs, _canonical_json_bytes (VList (JournalEvent_to_dict <$> evs)) = Ok bs ∧ (Z.of_nat (length bs) ≤ mb)%Z;
}.

Lemma view_of_inv evs s : Forall event_wf evs → view_of x me mb evs = Ok s → is_view evs s.
Proof.
  intros Hwf (r & Hr & H)%result_bind_ok. assert (Hev := capture_events _ _ _ Hr).
  unfold _validated_snapshot in H. rewrite (captured_snapshot_roundtrip _ _ _ Hwf Hr) in H. cbn [mbind result_bind] in H.
  apply result_bind_ok in H as ([] & Hx%ensure_ok%bool_decide_eq_true & ([] & Hc%ensure_ok%Z.leb_le & (n & Hn & ([] & Hb%ensure_ok%Z.leb_le & [= <-])
    %result_bind_ok)%result_bind_ok)%result_bind_ok).
  unfold _serialized_size in Hn. apply result_bind_ok in Hn as (bs & Hbs & [= <-]).
  destruct (events_shorter _ _ Hbs) as (bs' & Hbs' & Hle).
  { eapply wire_size. by eapply captured_snapshot_roundtrip. }
  rewrite Hev in Hbs'. split; [done..|unfold event_count in Hc; by rewrite Hev in Hc|]. exists bs'. split; [done|lia].
Qed.

Lemma view_consistent evs s :
  Forall event_wf evs → is_view evs s →
  je_store_seq <$> evs = Z.of_nat <$> seq 1 (length evs) ∧ NoDup (event_id <$> evs) ∧
  (∀ e, e ∈ evs → execution_of e = x) ∧ sn_high_water s = cursor_of <$> last evs.
Proof.
  intros Hwf [Hcap Hev Hx _ _]. destruct (capture_made _ _ _ Hcap) as (? & ? & ? & ? & Hmk).
  apply make_snapshot_inv in Hmk as (_ & (H1 & H2 & H3)%snapshot_consistent_spec & Hhw & _).
  rewrite Hev, Hx in *. rewrite expected_high_water_wf in Hhw by done. by injection Hhw as <-.
Qed.

Lemma consistent_sorted evs :
  je_store_seq <$> evs = Z.of_nat <$> seq 1 (length evs) → StronglySorted seq_lt evs.
Proof.
  intros H. apply sorted_by_index. intros i j a b Ha Hb Hij. unfold seq_lt.
  rewrite (contiguous_lookup _ _ _ H Ha), (contiguous_lookup _ _ _ H Hb). lia.
Qed.

Definition limits_ok : Prop := (0 ≤ me)%Z ∧ (0 ≤ mb)%Z ∧ (me + 1 < 2 ^ 63)%Z.

Lemma snapshot_of_view db evs s :
  limits_ok → journal_rows db = Ok evs → is_view evs s → _snapshot_with_connection x (VInt me) (VInt mb) db = Ok s.
Proof.
  intros (H1 & H2 & H3) Hrows [Hcap Hev Hx Hn (bs & Hbs & Hb)]. unfold _snapshot_with_connection, _exact_non_negative_int.
  rewrite (proj2 (Z.ltb_ge me 0)), (proj2 (Z.ltb_ge mb 0)) by done.
  cbn [mbind result_bind]. rewrite bind_int_ok by lia. cbn [mbind result_bind].
  assert (Hlen := Forall2_length _ _ _ (proj1 (mapR_ok _ _ _) Hrows)).
  rewrite take_ge by lia. rewrite (proj2 (Z.leb_le _ _)) by lia. cbn [mbind result_bind ensure].
  unfold journal_rows in Hrows. rewrite Hrows. cbn [mbind result_bind]. rewrite Hbs. cbn [mbind result_bind].
  rewrite (proj2 (Z.leb_le _ _)) by lia. cbn [mbind result_bind ensure]. by rewrite Hcap.
Qed.

(** The view in a database is the view of the events its rows hold. *)
Lemma full_view_spec db s :
  full_view db = Ok s ↔ limits_ok ∧ ∃ evs, journal_rows db = Ok evs ∧ view_of x me mb evs = Ok s.
Proof.
  split.
  - intros (r & Hr & Hv)%result_bind_ok. apply snapshot_captured in Hr as Hc. unfold _snapshot_with_connection in Hr.
    apply result_bind_ok in Hr as (m & Hm & (b & Hb & (n & Hn & (_ & Hlen%ensure_ok%Z.leb_le & (es & Hes & (bs & _ & (_ & _ & Hcap)
      %result_bind_ok)%result_bind_ok)%result_bind_ok)%result_bind_ok)%result_bind_ok)%result_bind_ok).
    unfold _exact_non_negative_int in Hm, Hb. destruct (Z.ltb_spec me 0); [done|]. destruct (Z.ltb_spec mb 0); [done|].
    injection Hm as <-. injection Hb as <-. unfold bind_int in Hn. case_match eqn:E; [|done]. bsimpl.
    injection Hn as <-. split; [done|]. exists es. unfold journal_rows. rewrite take_ge in Hes.
    + split; [done|]. unfold view_of. by rewrite Hcap.
    + rewrite length_take in Hlen. lia.
  - intros [Hl (evs & Hrows & Hv)]. destruct (view_of_inv evs s) as [Hcap]; [by eapply journal_rows_wf|done|].
    unfold full_view. rewrite (snapshot_of_view db evs s) by eauto using view_of_inv, journal_rows_wf.
    unfold view_of in Hv. by rewrite Hcap in Hv.
Qed.

Lemma full_view_captured db s : full_view db = Ok s → captured x s db ∧ sn_execution_id s = x.
Proof.
  intros (Hl & evs & Hrows & Hv)%full_view_spec. apply view_of_inv in Hv as H; [|by eapply journal_rows_wf].
  split; [|apply H]. eapply snapshot_captured. by apply (snapshot_of_view db evs).
Qed.
End views.

Lemma filter_partition k l :
  StronglySorted seq_le l →
  l = List.filter (λ r, (ew_store_seq r <=? k)%Z) l ++ List.filter (λ r, (k <? ew_store_seq r)%Z) l.
Proof.
  induction 1 as [|r l Hs IH Hr]; [done|]. simpl.
  destruct (Z.leb_spec (ew_store_seq r) k) as [Hle|Hgt].
  - rewrite (proj2 (Z.ltb_ge _ _)) by done. simpl. by rewrite <-IH.
  - rewrite (proj2 (Z.ltb_lt _ _)) by done.
    assert (List.filter (λ r, (ew_store_seq r <=? k)%Z) l = [] ∧ List.filter (λ r, (k <? ew_store_seq r)%Z) l = l) as [-> ->]; [|done].
    clear -Hr Hgt. induction Hr as [|r' l Hr' _ [IH1 IH2]]; [done|]. simpl. unfold seq_le in Hr'.
    rewrite (proj2 (Z.leb_gt _ _)), (proj2 (Z.ltb_lt _ _)) by lia. by rewrite IH1, IH2.
Qed.

(** ** The tail of a view *)

Section tail.
Context `{U : Unicode} `{!UnicodeLaws U} `{F : UnicodeFold}.
Context (x : pystr) (me mb : Z) (snap : JournalSnapshot) (db0 db : Db).
Hypothesis Hv : full_view x me mb db0 = Ok snap.
Hypothesis Hx : extended x db0 db.

Abbreviation n0 := (Z.of_nat (event_count snap)).

Definition tail_rows : list event_row := List.filter (λ r, (n0 <? ew_store_seq r)%Z) (execution_events x db).

Lemma rows_split : execution_events x db = execution_events x db0 ++ tail_rows.
Proof.
  destruct (full_view_captured _ _ _ _ _ Hv) as [Hc _]. rewrite <-(prefix_unchanged x snap db0 db Hc Hx).
  apply filter_partition. apply StronglySorted_merge_sort; apply _.
Qed.

Lemma journal_split rest :
  events_of_rows x db tail_rows = Ok rest ↔ journal_rows x db = Ok (sn_events snap ++ rest).
Proof.
  destruct (full_view_captured _ _ _ _ _ Hv) as [Hc _]. unfold journal_rows. rewrite rows_split.
  assert (Hp := prefix_reads_back x snap db0 db Hc Hx). rewrite (prefix_unchanged x snap db0 db Hc Hx) in Hp.
  unfold events_of_rows in *. rewrite !mapR_ok in *. split.
  - by apply Forall2_app.
  - intros H. apply Forall2_app_inv in H as [_ H]; [done|]. by apply (Forall2_length _ _ _ Hp).
Qed.

Lemma position_high : position (sn_high_water snap) = n0.
Proof.
  destruct (full_view_captured _ _ _ _ _ Hv) as [Hc _]. destruct (sn_high_water snap) as [hw|] eqn:E; simpl.
  - by eapply captured_high.
  - by apply (captured_empty _ _ _ Hc) in E as ->.
Qed.

Lemma read_page_inv n page :
  read_page x (sn_high_water snap) n db = Ok page → pg_has_more page = false → (1 ≤ n)%Z →
  events_of_rows x db tail_rows = Ok (pg_events page).
Proof.
  unfold read_page. intros (start & Hs & (m & Hm & (es & Hes & (nc & _ & H)%result_bind_ok)%result_bind_ok)
    %result_bind_ok)%result_bind_ok Hmore Hn.
  assert (start = n0) as ->.
  { rewrite <-position_high. unfold read_start in Hs. destruct (sn_high_water snap) as [c|]; [|by injection Hs as <-].
    apply result_bind_ok in Hs as (q & Hq & Hs). unfold bind_int in Hq. repeat case_match; by simplify_eq. }
  assert (m = n + 1)%Z as -> by (unfold bind_int in Hm; by case_match; simplify_eq).
  unfold make_JournalPage in H. rewrite record_tuple_instances in H. cbn [mbind result_bind] in H.
  apply result_bind_ok in H as (c & _ & H). cbn [mbind result_bind] in H. case_match; [|done]. injection H as <-.
  cbn [pg_events pg_has_more] in *. apply Z.ltb_ge in Hmore. unfold _event_rows_after in *. fold tail_rows in Hes, Hmore.
  rewrite length_take in Hmore. rewrite take_take, Nat.min_l, take_ge in Hes by lia. done.
Qed.

(** What the refresh returns is the view of the database it read. *)
Lemma refreshed_view_sound n page s :
  read_page x (sn_high_water snap) n db = Ok page → (1 ≤ n)%Z →
  refreshed_view x me mb snap page = Ok (Some s) → full_view x me mb db = Ok s.
Proof.
  intros Hr Hn. unfold refreshed_view. destruct (pg_has_more page) eqn:Hmore; [done|].
  apply (read_page_inv n page Hr) in Hmore as Hrows; [|done]. apply journal_split in Hrows.
  destruct (proj1 (full_view_spec _ _ _ _ _) Hv) as (Hl & evs & Hevs & Hview). rewrite full_view_spec.
  intros H. split; [done|]. eexists. split; [exact Hrows|]. destruct (pg_events page) as [|e es].
  - case_bool_decide; [|done]. injection H as <-. rewrite app_nil_r.
    destruct (view_of_inv _ _ _ _ _ (journal_rows_wf _ _ _ Hevs) Hview) as [_ -> _ _ _]. done.
  - case_match; [|done]. unfold rebuild in H. destruct (view_of x me mb (sn_events snap ++ e :: es)); [by injection H as <-|].
    by case_match.
Qed.

Lemma elem_execution_events r db' : r ∈ execution_events x db' ↔ r ∈ events db' ∧ ew_execution_id r = x.
Proof.
  unfold execution_events. rewrite merge_sort_Permutation, list_elem_of_In, filter_In, <-list_elem_of_In.
  by rewrite bool_decide_eq_true.
Qed.

Lemma find_position row :
  row ∈ execution_events x db0 → ew_store_seq row = n0 → fetchone (event_at x n0) (events db) = Some row.
Proof.
  intros Hrow Hs. destruct (full_view_captured _ _ _ _ _ Hv) as [Hc _]. unfold fetchone.
  destruct (List.find _ _) as [r|] eqn:E.
  - apply find_Some_iff in E as [Hr Hat]. unfold event_at in Hat. rewrite andb_true_iff, !bool_decide_eq_true in Hat.
    destruct Hat as [Hrx Hrs]. assert (r ∈ execution_events x db) as Hin by by apply elem_execution_events.
    rewrite rows_split in Hin. apply elem_of_app in Hin as [Hin|Hin].
    + destruct (captured_elem x snap db0 Hc r Hin) as (i & _ & Hi & Hsi).
      destruct (captured_elem x snap db0 Hc row Hrow) as (j & _ & Hj & Hsj). assert (i = j) as <- by lia. congruence.
    + apply list_elem_of_In, filter_In in Hin as [_ Hin%Z.ltb_lt]. lia.
  - assert (row ∈ execution_events x db) as [Hin Hrx]%elem_execution_events by (rewrite rows_split; set_solver).
    rewrite find_None_iff in E. specialize (E row Hin). unfold event_at in E. by rewrite !bool_decide_eq_true_2 in E.
Qed.

(** The cursor of the view still names its event. *)
Lemma read_start_high : read_start x (sn_high_water snap) db = Ok n0.
Proof.
  destruct (full_view_captured _ _ _ _ _ Hv) as [Hc _]. assert (Hpos := position_high).
  unfold read_start. destruct (sn_high_water snap) as [hw|] eqn:Ehw; [|by rewrite <-Hpos].
  simpl in Hpos. rewrite Hpos. assert (Hb := cp_bound _ _ _ Hc). rewrite bind_int_ok by lia. cbn [mbind result_bind].
  destruct (proj1 (full_view_spec _ _ _ _ _) Hv) as (_ & evs & Hevs & Hview).
  assert (Hwf := journal_rows_wf _ _ _ Hevs). apply view_of_inv in Hview as Hi; [|done].
  destruct (view_consistent _ _ _ _ _ Hwf Hi) as (_ & _ & _ & Hhw). rewrite Ehw in Hhw.
  destruct (last evs) as [e|] eqn:El; [|done]. injection Hhw as ->.
  destruct (Forall2_lookup_r _ _ _ (pred (length evs)) e (proj1 (mapR_ok _ _ _) Hevs)) as (row & Hrow & Hread).
  { by rewrite <-last_lookup. }
  apply event_from_row_fields in Hread as [Hs Hid]. cbn [ec_store_seq ec_event_id cursor_of] in *. rewrite Hpos in Hs.
  assert (Hfind : fetchone (event_at x n0) (events db) = Some row).
  { apply list_elem_of_lookup_2 in Hrow. by apply find_position. }
  rewrite Hfind. by rewrite bool_decide_eq_true_2.
Qed.

Lemma consecutive_seq k l : je_store_seq <$> l = Z.of_nat <$> seq k (length l) → consecutive l = true.
Proof.
  revert k. induction l as [|e l IH]; intros k H; [done|]. simpl in H. injection H as He H. destruct l as [|e' l]; [done|].
  assert (Hc := IH (S k) H). simpl in H. injection H as He' _. apply andb_true_iff. split; [|exact Hc]. apply Z.eqb_eq. lia.
Qed.

(** The events after the view, in a database that can be viewed. *)
Lemma tail_of_view s :
  full_view x me mb db = Ok s →
  ∃ rest, events_of_rows x db tail_rows = Ok rest ∧ view_of x me mb (sn_events snap ++ rest) = Ok s ∧
    Forall event_wf rest ∧ (n0 + Z.of_nat (length rest) ≤ me)%Z ∧
    je_store_seq <$> rest = Z.of_nat <$> seq (S (event_count snap)) (length rest) ∧
    (∀ e, e ∈ sn_events snap ++ rest → execution_of e = x) ∧ NoDup (event_id <$> (sn_events snap ++ rest)) ∧
    StronglySorted seq_lt (sn_events snap ++ rest).
Proof.
  intros (_ & evs & Hrows & Hview)%full_view_spec.
  assert (∃ rest, evs = sn_events snap ++ rest) as [rest ->].
  { destruct (full_view_captured _ _ _ _ _ Hv) as [Hc _]. assert (H := Hrows). unfold journal_rows in H. rewrite rows_split in H.
    assert (Hp := prefix_reads_back x snap db0 db Hc Hx). rewrite (prefix_unchanged x snap db0 db Hc Hx) in Hp.
    unfold events_of_rows in H, Hp. apply mapR_ok in Hp. apply mapR_ok, Forall2_app_inv_l in H as (l1 & l2 & H1 & _ & ->).
    exists l2. f_equal. clear -Hp H1. revert l1 H1. induction Hp as [|r e rows es Hr _ IH]; intros l1 H1;
      inversion H1; simplify_eq; [done|]. f_equal; [congruence|by apply IH]. }
  assert (Hwf := journal_rows_wf _ _ _ Hrows). assert (Hi := view_of_inv _ _ _ _ _ Hwf Hview).
  destruct (view_consistent _ _ _ _ _ Hwf Hi) as (Hseq & Hnd & Hex & _).
  exists rest. split; [by apply journal_split|]. apply Forall_app in Hwf as [_ Hwf].
  assert (Hn := iv_count _ _ _ _ _ Hi). rewrite length_app in Hn. unfold event_count.
  split_and!; [done..|lia| |done|done|by apply consistent_sorted].
  rewrite fmap_app, length_app, seq_app, fmap_app in Hseq. apply app_inj_1 in Hseq as [_ Hseq]; [done|].
  by rewrite !length_fmap, length_seq.
Qed.

Lemma next_cursor_wf events after :
  Forall event_wf events →
  next_cursor_of events after = Ok (match last events with Some e => Some (cursor_of e) | None => after end).
Proof.
  intros Hwf. unfold next_cursor_of. destruct (last events) as [e|] eqn:El; [|done].
  rewrite event_cursor; [done|]. rewrite Forall_forall in Hwf. apply Hwf. by apply last_Some_elem_of.
Qed.

Lemma first_continues k rest :
  je_store_seq <$> rest = Z.of_nat <$> seq (S k) (length rest) →
  match rest with e :: _ => (je_store_seq e =? Z.of_nat k + 1)%Z | [] => true end = true.
Proof. destruct rest as [|e rest]; [done|]. simpl. intros [= -> _]. apply Z.eqb_eq. lia. Qed.

(** When the database can be viewed at all, the refresh returns its view. *)
Lemma refreshed_view_complete s :
  full_view x me mb db = Ok s →
  ∃ page, read_page x (sn_high_water snap) (Z.max 1 (me - n0)) db = Ok page ∧
    refreshed_view x me mb snap page = Ok (Some s).
Proof.
  intros Hs. destruct (tail_of_view s Hs) as (rest & Hrest & Hview & Hwf & Hn & Hseq & Hex & Hnd & Hsort).
  set (after := sn_high_water snap).
  exists (mkPage rest (match last rest with Some e => Some (cursor_of e) | None => after end) false).
  assert (Hlen := Forall2_length _ _ _ (proj1 (mapR_ok _ _ _) Hrest)).
  destruct (proj1 (full_view_spec _ _ _ _ _) Hs) as ((? & ? & ?) & _). split.
  - unfold read_page, after. rewrite read_start_high. cbn [mbind result_bind]. rewrite bind_int_ok by lia. cbn [mbind result_bind].
    unfold _event_rows_after. fold tail_rows. rewrite take_take, Nat.min_l, !take_ge by lia.
    rewrite Hrest. cbn [mbind result_bind]. rewrite next_cursor_wf by done. cbn [mbind result_bind].
    unfold make_JournalPage. rewrite record_tuple_instances. cbn [mbind result_bind].
    rewrite (proj2 (Z.ltb_ge _ _)) by lia. fold after. set (nc := match last rest with Some e => _ | None => _ end).
    assert (page_consistent rest nc false = true) as Hpage.
    { apply (page_consistent_of x (sn_events snap ++ rest)); [by apply sublist_inserts_l|done..|].
      unfold nc. by destruct (last rest). }
    destruct nc; cbn [cursor_arg mbind result_bind]; by rewrite Hpage.
  - unfold refreshed_view. cbn [pg_has_more pg_events pg_next_cursor]. destruct rest as [|e rest].
    + rewrite bool_decide_eq_true_2 by (by right). rewrite app_nil_r in Hview.
      destruct (proj1 (full_view_spec _ _ _ _ _) Hv) as (_ & evs & Hevs & Hview').
      destruct (view_of_inv _ _ _ _ _ (journal_rows_wf _ _ _ Hevs) Hview') as [_ Hev _ _ _]. rewrite Hev in Hview. congruence.
    + assert (continues x snap (e :: rest) = true) as ->.
      { unfold continues. rewrite (consecutive_seq _ _ Hseq), !andb_true_iff. split_and!; [|done|].
        - assert (Hpos := position_high). apply first_continues in Hseq.
          destruct (sn_high_water snap); simpl in Hpos; [by rewrite Hpos|by rewrite <-Hpos in Hseq].
        - apply forallb_forall. intros e' He'%list_elem_of_In. apply bool_decide_eq_true, Hex. set_solver. }
      unfold rebuild. by rewrite Hview.
Qed.
End tail.
