(* ===== verification/JournalCacheSafety.v ===== *)
(** * Reading through the cache is reading the journal

    Whatever others do to the store before, between and after the transactions
    of [cache_capture_snapshot], a snapshot it returns is the one that the
    reader without a cache would have returned at some moment during the call.
    While nobody interferes, the two return the same. *)

From S2P Require Import Prelude PyVal Json RequestLease SqliteLeases Models JournalPayload ResourceLimits JournalRecords JournalSnapshot JournalRuntime JournalReplay JsonParse SqliteStore SqliteJournal SqliteCodec SqliteInvariant SqliteRefinement SqliteSafety SqlitePort SqliteIntegrity JournalCache.

(** ** Programs that only read *)

(** The database and the files are as before, also when the program raises. *)
Definition untouched {A} (m : M Store pyexn A) : Prop :=
  ∀ s, st_db (m s).2 = st_db s ∧ st_files (m s).2 = st_files s.

Section untouched.
Lemma untouched_ret {A} (a : A) : untouched (mret a).
Proof. done. Qed.
Lemma untouched_raise {A} e : untouched (raise (A:=A) e).
Proof. done. Qed.
Lemma untouched_lift {A} (r : R A) : untouched (lift r).
Proof. done. Qed.
Lemma untouched_query {A} (f : Db → A) : untouched (query f).
Proof. done. Qed.

Lemma untouched_bind {A B} (m : M Store pyexn A) (f : A → M Store pyexn B) :
  untouched m → (∀ a, untouched (f a)) → untouched (m ≫= f).
Proof.
  intros Hm Hf s. rewrite bind_case. destruct (Hm s) as [H1 H2]. destruct (m s) as [[a|e] s']; [|done].
  destruct (Hf a s') as [H3 H4]. simpl in *. by rewrite H3, H4.
Qed.

Lemma untouched_transaction {A} (m : M Store pyexn A) : untouched m → untouched (_transaction m).
Proof.
  intros Hm s. unfold _transaction. set (start := mkStore _ _ _). destruct (Hm start) as [H1 H2].
  destruct (head (st_faults s)) as [[]|]; destruct (m start) as [[a|e] s']; done.
Qed.

Lemma untouched_errors {A} a b (m : M Store pyexn A) : untouched m → untouched (sqlite_errors a b m).
Proof.
  intros Hm s. destruct (Hm s). unfold sqlite_errors, try_except. by destruct (m s) as [[r|e] s'].
Qed.
End untouched.

Ltac only_reads :=
  repeat lazymatch goal with
  | |- untouched (mret _) => apply untouched_ret
  | |- untouched (raise _) => apply untouched_raise
  | |- untouched (lift _) => apply untouched_lift
  | |- untouched (query _) => apply untouched_query
  | |- untouched (_transaction _) => apply untouched_transaction
  | |- untouched (sqlite_errors _ _ _) => apply untouched_errors
  | |- untouched (_ ≫= _) => apply untouched_bind; [|intros ?]
  | |- untouched (match _ with _ => _ end) => case_match
  | |- untouched (if _ then _ else _) => case_match
  end.

Section readers.
Context `{U : Unicode} `{F : UnicodeFold}.
Context (x : pystr).

Lemma untouched_read after limit : untouched (read x after limit).
Proof. unfold read. only_reads. Qed.
Lemma untouched_revision : untouched (snapshot_integrity_revision x).
Proof. unfold snapshot_integrity_revision. only_reads. Qed.
Lemma untouched_prefix s revision : untouched (snapshot_prefix_is_current x s revision).
Proof. unfold snapshot_prefix_is_current. only_reads. apply untouched_revision. Qed.
Lemma untouched_capture me mb : untouched (capture_snapshot_with_integrity_revision x me mb).
Proof. unfold capture_snapshot_with_integrity_revision. only_reads. Qed.
End readers.

#[export] Hint Resolve untouched_read untouched_revision untouched_prefix untouched_capture : py.

(** ** The cache among others *)

Section cache.
Context `{U : Unicode} `{!UnicodeLaws U} `{F : UnicodeFold}.
Context (x : pystr) (me mb : Z).

Lemma integrity_row db row : executions db !! x = Some row → integrity_revision_of x db = ex_integrity_revision row.
Proof. unfold integrity_revision_of. by intros ->. Qed.

Lemma evolves_row db db' : evolves x db db' → is_Some (executions db !! x) → is_Some (executions db' !! x).
Proof. intros H [row Hr]. destruct (H row Hr) as (row' & Hr' & _). by eexists. Qed.

Lemma evolves_revision db db' :
  evolves x db db' → is_Some (executions db !! x) → (integrity_revision_of x db ≤ integrity_revision_of x db')%Z.
Proof.
  intros H [row Hr]. destruct (H row Hr) as (row' & Hr' & Hle & _).
  by rewrite (integrity_row _ _ Hr), (integrity_row _ _ Hr').
Qed.

Lemma evolves_extended db db' :
  evolves x db db' → is_Some (executions db !! x) → integrity_revision_of x db' = integrity_revision_of x db →
  extended x db db'.
Proof.
  intros H [row Hr]. destruct (H row Hr) as (row' & Hr' & _ & He).
  by rewrite (integrity_row _ _ Hr), (integrity_row _ _ Hr').
Qed.

(** The cache holds a view that was once read, with the revision it had. *)
Record cache_of (c : RunLocalJournalViewCache) (db : Db) : Prop := {
  co_journal : vc_journal c = Some x;
  co_events : vc_max_events c = me;
  co_bytes : vc_max_bytes c = mb;
  co_row : is_Some (executions db !! x);
  co_view snap : vc_snapshot c = Some snap →
    ∃ db0, full_view x me mb db0 = Ok snap ∧ vc_integrity_revision c = Some (integrity_revision_of x db0) ∧
           is_Some (executions db0 !! x) ∧ evolves x db0 db;
}.

Lemma cache_of_evolves c db db' : evolves x db db' → cache_of c db → cache_of c db'.
Proof.
  intros H [H1 H2 H3 H4 H5]. split; [done..|by eapply evolves_row|]. intros snap Hs.
  destruct (H5 snap Hs) as (db0 & ? & ? & ? & He). exists db0. split_and!; [done..|]. by etrans.
Qed.

(** Counting changes nothing that matters. *)
Lemma cache_of_count c db a b d e : cache_of (count a b d e c) db ↔ cache_of c db.
Proof. split; intros [H1 H2 H3 H4 H5]; by split. Qed.

Lemma cache_of_none c db : cache_of c db → cache_of (set_snapshot None c) db.
Proof. intros [H1 H2 H3 H4 H5]. by split. Qed.

(** How the store may change between two moments: any preorder under which the
    journal evolves, and which has the reads. *)
Context (Rel : relation Store) `{!PreOrder Rel}.
Hypothesis Rel_evolves : ∀ s s', Rel s s' → evolves x (st_db s) (st_db s').
Hypothesis Rel_reads : ∀ s s', st_db s' = st_db s → st_files s' = st_files s → Rel s s'.

Record around (s0 : Store) (w : World) : Prop := {
  ar_cache : cache_of (wd_cache w) (st_db (wd_store w));
  ar_since : Rel s0 (wd_store w);
  ar_others : Forall (λ ds, ∀ s, Rel s (foldl disturb s ds)) (wd_others w);
}.

(** A view of the journal at a moment between [s0] and now. *)
Definition seen (s0 : Store) (snap : JournalSnapshot) (w : World) : Prop :=
  ∃ t, Rel s0 t ∧ Rel t (wd_store w) ∧ full_view x me mb (st_db t) = Ok snap.

Lemma around_count s0 w a b c d : around s0 w → around s0 (with_cache (count a b c d (wd_cache w)) w).
Proof. intros [H1 H2 H3]. split; [|done..]. by apply cache_of_count. Qed.

(** A call of the journal. *)
Lemma call_spec {A} (m : M Store pyexn A) s0 w r w' :
  untouched m → around s0 w → call m w = (r, w') →
  ∃ s1, Rel s0 s1 ∧ Rel (wd_store w) s1 ∧ m s1 = (r, wd_store w') ∧ st_db (wd_store w') = st_db s1 ∧
        Rel s1 (wd_store w') ∧ wd_cache w' = wd_cache w ∧ around s0 w'.
Proof.
  intros Hm [Hc Hs Ho]. unfold call. set (s1 := foldl disturb _ _). destruct (Hm s1) as [Hdb Hfiles].
  destruct (m s1) as [r' s'] eqn:E. intros [= <- <-]. simpl in *.
  assert (Rel (wd_store w) s1) as H1.
  { unfold s1. destruct (wd_others w) as [|ds l]; [reflexivity|]. apply Forall_cons in Ho as [Hds _]. apply Hds. }
  assert (Rel s1 s') by by apply Rel_reads. exists s1. split_and!; try done; [by etrans|]. split; simpl.
  - eapply cache_of_evolves; [|exact Hc]. apply Rel_evolves. by etrans.
  - etrans; [exact Hs|]. by etrans.
  - destruct (wd_others w); [done|]. by apply Forall_cons in Ho as [_ ?].
Qed.

Lemma bind_update {B} f (k : unit → M World pyexn B) w :
  (update_cache f ≫= k) w = k tt (with_cache (f (wd_cache w)) w).
Proof. done. Qed.

Lemma bind_self {B} (k : RunLocalJournalViewCache → M World pyexn B) w : (self ≫= k) w = k (wd_cache w) w.
Proof. done. Qed.

Lemma bind_journal {B} s0 (k : pystr → M World pyexn B) w : around s0 w → (the_journal ≫= k) w = k x w.
Proof. intros [[Hj _ _ _ _] _ _]. unfold the_journal. rewrite bind_case, bind_self, Hj. done. Qed.

(** A view that has just been read, stored with its revision. *)
Lemma around_store s0 w t snap c :
  around s0 w → Rel t (wd_store w) → is_Some (executions (st_db t) !! x) → full_view x me mb (st_db t) = Ok snap →
  vc_journal c = Some x → vc_max_events c = me → vc_max_bytes c = mb →
  vc_snapshot c = Some snap → vc_integrity_revision c = Some (integrity_revision_of x (st_db t)) →
  around s0 (with_cache c w).
Proof.
  intros [[H1 H2 H3 H4 H5] Hs Ho] Ht Hrow Hv Hj Hme Hmb Hsn Hrev. split; [|done..]. simpl. split; [done..|].
  intros snap' E. rewrite Hsn in E. injection E as <-. exists (st_db t). split_and!; [done..|]. by apply Rel_evolves.
Qed.

Lemma row_at s0 w s : around s0 w → Rel (wd_store w) s → is_Some (executions (st_db s) !! x).
Proof. intros [Hc _ _] Hr. eapply evolves_row; [by apply Rel_evolves|apply Hc]. Qed.

Lemma capture_full_spec s0 w r w' :
  around s0 w → _capture_full w = (r, w') → around s0 w' ∧ ∀ snap, r = Ok snap → seen s0 snap w'.
Proof.
  intros Hw. unfold _capture_full. rewrite bind_update. apply (around_count s0 w 1 0 0 0) in Hw.
  set (w1 := with_cache _ w) in *. rewrite (bind_journal s0), bind_self, bind_case by done.
  rewrite (co_events _ _ (ar_cache _ _ Hw)), (co_bytes _ _ (ar_cache _ _ Hw)).
  destruct (call _ w1) as [r2 w2] eqn:E.
  apply (call_spec _ s0) in E as (s1 & H01 & Hw1 & Hm & Hdb & H12 & Hc & Hw2); [|auto with py|done].
  destruct r2 as [[captured revision]|e]; [|by intros [= <- <-]].
  apply run_capture in Hm as (Hsnap & -> & _). rewrite bind_case. unfold lift.
  destruct (_validated_snapshot (Inst captured) x me mb) as [snap|e] eqn:Ev; [|by intros [= <- <-]].
  assert (full_view x me mb (st_db s1) = Ok snap) as Hv by (unfold full_view; by rewrite Hsnap).
  rewrite !bind_update. intros [= <- <-]. split.
  - destruct (ar_cache _ _ Hw2) as [Hj He Hb _ _].
    apply (around_store s0 w2 s1 snap (set_revision (Some (integrity_revision_of x (st_db s1)))
                                         (set_snapshot (Some snap) (wd_cache w2)))); simpl; try done.
    exact (row_at s0 w1 s1 Hw Hw1).
  - intros ? [= <-]. by exists s1.
Qed.

Lemma fall_back_spec s0 w r w' :
  around s0 w → fall_back w = (r, w') → around s0 w' ∧ ∀ snap, r = Ok snap → seen s0 snap w'.
Proof.
  intros Hw. unfold fall_back. rewrite bind_update. apply capture_full_spec. by apply around_count.
Qed.

(** What the [try] leaves: a view already stored, or one still to be stored. *)
Definition settled (s0 : Store) (o : outcome) (w : World) : Prop :=
  match o with
  | Return snap => seen s0 snap w
  | Refreshed None => True
  | Refreshed (Some snap) =>
      ∃ t, Rel s0 t ∧ Rel t (wd_store w) ∧ is_Some (executions (st_db t) !! x) ∧ full_view x me mb (st_db t) = Ok snap ∧
           vc_integrity_revision (wd_cache w) = Some (integrity_revision_of x (st_db t))
  end.

Lemma run_read after limit s page s' :
  read x (cursor_arg after) (VInt limit) s = (Ok page, s') → read_page x after limit (st_db s) = Ok page.
Proof.
  unfold read. intros (limit' & s1 & Hl & H)%M_bind_ok. unfold lift in Hl. injection Hl as Hl <-.
  unfold _exact_positive_int in Hl. case_match; [done|]. injection Hl as <-.
  apply M_bind_ok in H as (a & s2 & Ha & H). unfold lift in Ha. injection Ha as Ha <-.
  assert (a = after) as -> by (destruct after; simpl in Ha; congruence).
  match type of H with sqlite_errors ?c ?f (_transaction ?m) s = _ =>
    destruct (guarded_cases c f m s) as [(e & He & _)|(a & s0 & Hrun & Heq)] end; [by rewrite H in He|].
  rewrite H in Heq. simplify_eq. rewrite bind_query in Hrun. by injection Hrun as ->.
Qed.

Lemma run_integrity s n s' : snapshot_integrity_revision x s = (Ok n, s') → n = integrity_revision_of x (st_db s).
Proof.
  unfold snapshot_integrity_revision. intros H.
  match type of H with sqlite_errors ?c ?f (_transaction ?m) s = _ =>
    destruct (guarded_cases c f m s) as [(e & He & _)|(a & s0 & Hrun & Heq)] end; [by rewrite H in He|].
  rewrite H in Heq. simplify_eq. by injection Hrun as ->.
Qed.

(** The refresh from the tail: the page it read, at the moment it read it. *)
Lemma refresh_from_tail_spec s0 w snap r w' :
  around s0 w → _refresh_from_tail snap x w = (r, w') →
  around s0 w' ∧ vc_integrity_revision (wd_cache w') = vc_integrity_revision (wd_cache w) ∧
  ∀ o, r = Ok o → ∃ t page, Rel s0 t ∧ Rel (wd_store w) t ∧ Rel t (wd_store w') ∧
    read_page x (sn_high_water snap) (Z.max 1 (me - Z.of_nat (event_count snap))) (st_db t) = Ok page ∧
    refreshed_view x me mb snap page = Ok o.
Proof.
  intros Hw. unfold _refresh_from_tail. rewrite bind_self, bind_update.
  rewrite (co_events _ _ (ar_cache _ _ Hw)), (co_bytes _ _ (ar_cache _ _ Hw)).
  apply (around_count s0 w 0 1 0 0) in Hw. set (w1 := with_cache _ w) in *. rewrite bind_case.
  destruct (call _ w1) as [r2 w2] eqn:E.
  apply (call_spec _ s0) in E as (s1 & H01 & Hw1 & Hm & Hdb & H12 & Hc & Hw2); [|auto with py|done].
  destruct r2 as [page|e]; [|intros [= <- <-]; by rewrite Hc].
  unfold lift. intros [= <- <-]. rewrite Hc. split_and!; [done..|]. intros o Ho. exists s1, page. split_and!; try done.
  by eapply run_read.
Qed.

(** A revision that is unchanged later was unchanged all along. *)
Lemma squeezed db0 db1 db2 :
  is_Some (executions db0 !! x) → evolves x db0 db1 → evolves x db1 db2 →
  integrity_revision_of x db2 = integrity_revision_of x db0 →
  integrity_revision_of x db1 = integrity_revision_of x db0 ∧ extended x db0 db1.
Proof.
  intros H0 H01 H12 Heq. assert (Hle := evolves_revision _ _ H01 H0).
  assert (Hle' := evolves_revision _ _ H12 (evolves_row _ _ H01 H0)).
  assert (integrity_revision_of x db1 = integrity_revision_of x db0) as H by lia.
  split; [done|]. by apply evolves_extended.
Qed.

Lemma returned_spec s0 w r w' :
  around s0 w → (s ← fall_back; mret (Return s)) w = (r, w') →
  around s0 w' ∧ ∀ o, r = Ok o → settled s0 o w'.
Proof.
  intros Hw. rewrite bind_case. destruct (fall_back w) as [r1 w1] eqn:E.
  destruct (fall_back_spec s0 w r1 w1 Hw E) as [Hw1 Hseen]. destruct r1 as [snap|e]; intros [= <- <-]; [|done].
  split; [done|]. intros o [= <-]. by apply Hseen.
Qed.

(** The [try]: when the revision is unchanged after the page was read, then it
    was unchanged when the page was read. *)
Lemma refresh_spec s0 w snap r w' :
  around s0 w → vc_snapshot (wd_cache w) = Some snap → refresh snap w = (r, w') →
  around s0 w' ∧ ∀ o, r = Ok o → settled s0 o w'.
Proof.
  intros Hw Hsn. destruct (co_view _ _ (ar_cache _ _ Hw) snap Hsn) as (db0 & Hv & Hrev & Hrow & Hev).
  unfold refresh. rewrite (bind_journal s0), bind_self, bind_case by done.
  destruct (call _ w) as [r1 w1] eqn:E1.
  apply (call_spec _ s0) in E1 as (s1 & H01 & Hws1 & _ & _ & H12 & Hc1 & Hw1); [|auto with py|done].
  destruct r1 as [current|e]; [|by intros [= <- <-]]. destruct (negb current); [by apply returned_spec|].
  rewrite bind_case. destruct (_refresh_from_tail snap x w1) as [r2 w2] eqn:E2.
  destruct (refresh_from_tail_spec s0 w1 snap r2 w2 Hw1 E2) as (Hw2 & Hrev2 & Htail).
  destruct r2 as [refreshed|e]; [|by intros [= <- <-]].
  destruct (Htail refreshed eq_refl) as (t & page & H0t & H1t & Ht2 & Hread & Hview).
  rewrite bind_self, Hrev2, Hc1, Hrev, bind_case. destruct (call _ w2) as [r3 w3] eqn:E3.
  apply (call_spec _ s0) in E3 as (s3 & _ & H23 & Hm & Hdb & Hs3 & Hc3 & Hw3); [|auto with py|done].
  destruct r3 as [now|e]; [|by intros [= <- <-]]. apply run_integrity in Hm as ->.
  destruct (Z.eqb_spec (integrity_revision_of x (st_db s3)) (integrity_revision_of x db0)) as [Heq|]; [|by apply returned_spec].
  intros [= <- <-]. split; [done|]. intros o [= <-]. destruct refreshed as [snap'|]; [|done]. simpl.
  assert (evolves x db0 (st_db t)) as H0 by (etrans; [exact Hev|apply Rel_evolves; etrans; [|exact H1t]; by etrans]).
  assert (evolves x (st_db t) (st_db s3)) as H3 by (apply Rel_evolves; by etrans).
  destruct (squeezed _ _ _ Hrow H0 H3 Heq) as [Hrt Hext]. exists t. split_and!; [done|by etrans; [|etrans]|by eapply evolves_row| |].
  - eapply refreshed_view_sound; [exact Hv|done|exact Hread|lia|done].
  - by rewrite Hc3, Hrev2, Hc1, Hrev, Hrt.
Qed.

Lemma try_refresh_spec s0 w snap r w' :
  around s0 w → vc_snapshot (wd_cache w) = Some snap →
  try_except (refresh snap)
    (λ e, if bool_decide (e = JournalScopeError) then s ← fall_back; mret (Return s) else raise e) w = (r, w') →
  around s0 w' ∧ ∀ o, r = Ok o → settled s0 o w'.
Proof.
  intros Hw Hsn. unfold try_except. destruct (refresh snap w) as [r1 w1] eqn:E.
  destruct (refresh_spec s0 w snap r1 w1 Hw Hsn E) as [Hw1 Hs]. destruct r1 as [o|e]; [by intros [= <- <-]|].
  case_bool_decide; [by apply returned_spec|]. by intros [= <- <-].
Qed.

(** A call of the cache, whatever it returns or raises. *)
Lemma cache_capture_spec s0 w r w' :
  around s0 w → cache_capture_snapshot w = (r, w') → around s0 w' ∧ ∀ snap, r = Ok snap → seen s0 snap w'.
Proof.
  intros Hw. unfold cache_capture_snapshot. rewrite bind_self.
  destruct (vc_snapshot (wd_cache w)) as [snap|] eqn:Hsn; [|by apply capture_full_spec].
  rewrite bind_case. destruct (try_except _ _ w) as [r1 w1] eqn:E.
  destruct (try_refresh_spec s0 w snap r1 w1 Hw Hsn E) as [Hw1 Hs]. destruct r1 as [o|e]; [|by intros [= <- <-]].
  specialize (Hs o eq_refl). destruct o as [s|[s|]]; simpl in Hs; [by intros [= <- <-]; split; [|intros ? [= <-]]| |by apply fall_back_spec].
  rewrite !bind_update. destruct Hs as (t & H0t & Ht1 & Hrow & Hv & Hrev). intros [= <- <-]. split.
  - destruct (ar_cache _ _ Hw1) as [Hj He Hb _ _].
    by apply (around_store s0 w1 t s (count 0 0 1 0 (set_snapshot (Some s) (wd_cache w1)))).
  - intros ? [= <-]. by exists t.
Qed.
End cache.

(** ** Nobody interferes *)

Section alone.
Context `{U : Unicode} `{!UnicodeLaws U} `{F : UnicodeFold}.
Context (x : pystr) (me mb : Z).

Lemma full_source_spec s snap :
  undisturbed s →
  (FullJournalSnapshotSource_capture_snapshot x me mb s).1 = Ok snap ↔ full_view x me mb (st_db s) = Ok snap.
Proof.
  intros Hs. unfold FullJournalSnapshotSource_capture_snapshot, capture_snapshot, full_view. rewrite bind_case.
  destruct s as [db files faults]. unfold undisturbed in Hs. simpl in Hs. subst faults.
  unfold sqlite_errors, try_except, _transaction. cbn [head tail st_faults st_db st_files]. rewrite bind_query. cbn [st_db].
  unfold lift. destruct (_snapshot_with_connection x (VInt me) (VInt mb) db) as [r|e]; [done|].
  cbn [mbind result_bind]. by repeat case_bool_decide.
Qed.

(** Nothing happens to the database. *)
Definition same_db (s s' : Store) : Prop := st_db s' = st_db s.

#[local] Instance same_db_preorder : PreOrder same_db.
Proof. split; [done|]. intros a b c H1 H2. unfold same_db in *. congruence. Qed.

Lemma same_db_evolves s s' : same_db s s' → evolves x (st_db s) (st_db s').
Proof. by intros ->. Qed.

(** The cache and the store of a world with nobody else. *)
Record alone (w : World) : Prop := {
  al_cache : cache_of x me mb (wd_cache w) (st_db (wd_store w));
  al_quiet : undisturbed (wd_store w);
  al_others : wd_others w = [];
}.

Lemma alone_around w : alone w → around x me mb same_db (wd_store w) w.
Proof. intros [H1 H2 H3]. split; [done..|]. by rewrite H3. Qed.

Lemma alone_cache w c : alone w → cache_of x me mb c (st_db (wd_store w)) → alone (with_cache c w).
Proof. intros [H1 H2 H3] Hc. by split. Qed.

Lemma call_alone {A} (m : M Store pyexn A) w r :
  alone w → m (wd_store w) = (r, wd_store w) → call m w = (r, w).
Proof.
  intros [_ _ Ho] Hm. destruct w as [s c others]. simpl in *. subst others. unfold call. simpl. by rewrite Hm.
Qed.

Lemma capture_full_alone w snap :
  alone w → full_view x me mb (st_db (wd_store w)) = Ok snap → (_capture_full w).1 = Ok snap.
Proof.
  intros Hw Hv. unfold _capture_full. rewrite bind_update.
  apply (alone_cache w (count 1 0 0 0 (wd_cache w))) in Hw; [|by apply cache_of_count, Hw].
  set (w1 := with_cache _ w) in *. change (wd_store w) with (wd_store w1) in Hv.
  rewrite (bind_journal x me mb _ (wd_store w1)) by (by apply alone_around). rewrite bind_self, bind_case.
  rewrite (co_events _ _ _ _ _ (al_cache _ Hw)), (co_bytes _ _ _ _ _ (al_cache _ Hw)).
  apply result_bind_ok in Hv as (captured & Hcap & Hval).
  rewrite (call_alone _ w1 (Ok (captured, integrity_revision_of x (st_db (wd_store w1)))) Hw).
  - rewrite bind_case. unfold lift. by rewrite Hval.
  - destruct Hw as [_ Hq _]. destruct (wd_store w1) as [db files faults]. unfold undisturbed in Hq. simpl in *. subst faults.
    unfold capture_snapshot_with_integrity_revision, sqlite_errors, try_except, _transaction.
    cbn [head tail st_faults st_db st_files]. rewrite bind_query. cbn [st_db]. by rewrite Hcap, bind_lift_ok, bind_query.
Qed.

Lemma fall_back_alone w snap :
  alone w → full_view x me mb (st_db (wd_store w)) = Ok snap → (fall_back w).1 = Ok snap.
Proof.
  intros Hw Hv. unfold fall_back. rewrite bind_update. apply capture_full_alone; [|done].
  apply alone_cache; [done|]. by apply cache_of_count, Hw.
Qed.

(** The refresh of a cached view, in a journal that can be viewed. *)
Lemma refresh_alone w snap0 snap :
  alone w → vc_snapshot (wd_cache w) = Some snap0 → full_view x me mb (st_db (wd_store w)) = Ok snap →
  (refresh snap0 w).1 = Ok (Return snap) ∨ (refresh snap0 w).1 = Ok (Refreshed (Some snap)).
Proof.
  intros Hw Hsn Hv. destruct (co_view _ _ _ _ _ (al_cache _ Hw) snap0 Hsn) as (db0 & Hv0 & Hrev & Hrow & Hev).
  destruct (full_view_captured _ _ _ _ _ Hv0) as [Hc Hid]. assert (Hq := al_quiet _ Hw).
  unfold refresh. rewrite (bind_journal x me mb _ (wd_store w)) by (by apply alone_around). rewrite bind_self, Hrev, bind_case.
  rewrite (call_alone _ w (Ok (bool_decide (integrity_revision_of x (st_db (wd_store w)) = integrity_revision_of x db0))) Hw).
  2: { apply (prefix_answer x snap0 db0); [done..|]. by apply evolves_extended. }
  case_bool_decide as Heq; cbn [negb].
  2: { left. rewrite bind_case. assert (H := fall_back_alone w snap Hw Hv). destruct (fall_back w) as [r w']. simpl in H.
       by subst r. }
  assert (extended x db0 (st_db (wd_store w))) as Hext by by apply evolves_extended.
  destruct (refreshed_view_complete x me mb snap0 db0 _ Hv0 Hext snap Hv) as (page & Hpage & Hview).
  right. rewrite bind_case. unfold _refresh_from_tail. rewrite bind_self, bind_update.
  rewrite (co_events _ _ _ _ _ (al_cache _ Hw)), (co_bytes _ _ _ _ _ (al_cache _ Hw)).
  apply (alone_cache w (count 0 1 0 0 (wd_cache w))) in Hw; [|by apply cache_of_count, Hw].
  set (w1 := with_cache _ w) in *. change (wd_store w) with (wd_store w1) in *. rewrite bind_case, (call_alone _ w1 (Ok page) Hw).
  2: { unfold read, _exact_positive_int. rewrite (proj2 (Z.leb_gt _ _)) by lia. rewrite bind_lift_ok.
       assert (cursor_or_none (cursor_arg (sn_high_water snap0)) = Ok (sn_high_water snap0)) as -> by by destruct (sn_high_water snap0).
       rewrite bind_lift_ok, run_quiet; [by rewrite Hpage|done|]. by rewrite Hpage. }
  unfold lift. rewrite Hview, bind_self. change (vc_integrity_revision (wd_cache w1)) with (vc_integrity_revision (wd_cache w)).
  rewrite Hrev, bind_case, (call_alone _ w1 (Ok (integrity_revision_of x (st_db (wd_store w1)))) Hw) by by apply run_revision.
  by rewrite Heq, Z.eqb_refl.
Qed.

Lemma cache_capture_returns w snap :
  alone w → (cache_capture_snapshot w).1 = Ok snap → full_view x me mb (st_db (wd_store w)) = Ok snap.
Proof.
  intros Hw. destruct (cache_capture_snapshot w) as [r w'] eqn:E. simpl. intros ->.
  destruct (cache_capture_spec x me mb same_db same_db_evolves (λ s s' H _, H) (wd_store w) w (Ok snap) w') as [_ Hs];
    [by apply alone_around|done|]. destruct (Hs snap eq_refl) as (t & H1 & _ & Hv). by rewrite H1 in Hv.
Qed.

Lemma cache_capture_alone w snap :
  alone w → full_view x me mb (st_db (wd_store w)) = Ok snap → (cache_capture_snapshot w).1 = Ok snap.
Proof.
  intros Hw Hv. unfold cache_capture_snapshot. rewrite bind_self.
  destruct (vc_snapshot (wd_cache w)) as [snap0|] eqn:Hsn; [|by apply capture_full_alone].
  rewrite bind_case. unfold try_except. assert (H := refresh_alone w snap0 snap Hw Hsn Hv).
  destruct (refresh snap0 w) as [r w']. simpl in H. by destruct H as [->| ->].
Qed.
End alone.

(** ** Histories of a cache *)

Section histories.
Context `{U : Unicode} `{!UnicodeLaws U} `{F : UnicodeFold}.

(** The cache is used, its view is discarded, anything happens to the store, and
    others choose when they will act. *)
Inductive cache_step (w : World) : World → Prop :=
| cs_capture : cache_step w (cache_capture_snapshot w).2
| cs_invalidate : cache_step w (invalidate w).2
| cs_disturbed s : disturbed_step (wd_store w) s → cache_step w (mkWorld s (wd_cache w) (wd_others w))
| cs_others others : cache_step w (mkWorld (wd_store w) (wd_cache w) others).

Lemma disturb_steps s ds : rtc disturbed_step s (foldl disturb s ds).
Proof.
  revert s. induction ds as [|d ds IH]; intros s; [done|]. simpl. etrans; [|apply IH].
  destruct d as [c|faults|w]; cbn [disturb].
  - apply rtc_once, ds_command.
  - apply rtc_once, ds_faults.
  - destruct (run_write w (st_db s)) as [db|] eqn:E; [|done]. by eapply rtc_once, ds_write.
Qed.

Lemma reads_steps s s' : st_db s' = st_db s → st_files s' = st_files s → rtc disturbed_step s s'.
Proof.
  intros Hdb Hf. assert (s' = mkStore (st_db s) (st_files s) (st_faults s')) as ->.
  { destruct s'. simpl in *. by subst. }
  apply rtc_once, ds_faults.
Qed.

Context (journal : JournalObject) (me mb : Z).
Abbreviation x := (jb_execution_id journal).

Lemma around_history w : cache_of x me mb (wd_cache w) (st_db (wd_store w)) → around x me mb (rtc disturbed_step) (wd_store w) w.
Proof.
  intros Hc. split; [done..|]. apply Forall_forall. intros ds _ s. apply disturb_steps.
Qed.

Lemma capture_history w r w' :
  cache_of x me mb (wd_cache w) (st_db (wd_store w)) → cache_capture_snapshot w = (r, w') →
  cache_of x me mb (wd_cache w') (st_db (wd_store w')) ∧
  ∀ snap, r = Ok snap → seen x me mb (rtc disturbed_step) (wd_store w) snap w'.
Proof.
  intros Hc H.
  destruct (cache_capture_spec x me mb (rtc disturbed_step) (disturbed_evolves x) reads_steps (wd_store w) w r w') as [Hw Hs];
    [by apply around_history|done|]. split; [apply Hw|done].
Qed.

Lemma init_cache c db :
  cache_init (Inst journal) (VInt me) (VInt mb) = Ok c → is_Some (executions db !! x) → cache_of x me mb c db.
Proof.
  intros (_ & _ & (e & He & (b & Hb & [= <-])%result_bind_ok)%result_bind_ok)%result_bind_ok Hr.
  unfold _positive_limit in He, Hb. repeat case_match; simplify_eq. by split.
Qed.

Lemma history_cache w w' :
  rtc cache_step w w' → cache_of x me mb (wd_cache w) (st_db (wd_store w)) →
  cache_of x me mb (wd_cache w') (st_db (wd_store w')).
Proof.
  induction 1 as [|w w1 w2 Hstep _ IH]; [done|]. intros Hc. apply IH. destruct Hstep as [| |s Hs|others]; simpl.
  - destruct (cache_capture_snapshot w) as [r w1] eqn:E. by eapply capture_history.
  - by apply cache_of_none.
  - eapply cache_of_evolves; [|exact Hc]. by apply disturbed_evolves, rtc_once.
  - done.
Qed.

(** The store with every coming transaction succeeding. *)
Definition calm (s : Store) : Store := mkStore (st_db s) (st_files s) [].

Context (c : RunLocalJournalViewCache) (s : Store) (others : list (list disturbance)) (w : World).
Hypothesis Hinit : cache_init (Inst journal) (VInt me) (VInt mb) = Ok c.
Hypothesis Hbound : is_Some (executions (st_db s) !! x).
Hypothesis Hpast : rtc cache_step (mkWorld s c others) w.

(** C13. A view read through the cache is the journal at a moment of the call.
    Whatever happened to the store and the cache before, and whatever others do
    between the transactions of the call (commands of the store, failing
    transactions, and any inserts, replacements, updates and deletions of journal
    rows by other programs): a snapshot that the cache returns is exactly the one
    that the reader without a cache returns in a state that the store went
    through after the call began and before it ended. *)
Theorem cached_view_is_a_moment_of_the_journal snap w' :
  cache_capture_snapshot w = (Ok snap, w') →
  ∃ t, rtc disturbed_step (wd_store w) t ∧ rtc disturbed_step t (wd_store w') ∧
       (FullJournalSnapshotSource_capture_snapshot x me mb (calm t)).1 = Ok snap.
Proof.
  intros H. destruct (capture_history w (Ok snap) w') as [_ Hs]; [|done|].
  - eapply history_cache; [exact Hpast|]. by apply init_cache.
  - destruct (Hs snap eq_refl) as (t & H1 & H2 & Hv). exists t. split_and!; [done..|]. by apply full_source_spec.
Qed.

(** C14. The cache is transparent: after any history, while nobody else acts and no
    transaction fails, the cache returns a snapshot just when the reader without
    a cache does, and the same one; in particular it never returns a view that
    others have made stale, and is never stuck with one. *)
Theorem cache_is_transparent snap :
  undisturbed (wd_store w) → wd_others w = [] →
  (cache_capture_snapshot w).1 = Ok snap ↔
  (FullJournalSnapshotSource_capture_snapshot x me mb (wd_store w)).1 = Ok snap.
Proof.
  intros Hq Ho. assert (Hc : cache_of x me mb (wd_cache w) (st_db (wd_store w))).
  { eapply history_cache; [exact Hpast|]. by apply init_cache. }
  assert (Hw : alone x me mb w) by by split. rewrite full_source_spec by done. split.
  - by apply cache_capture_returns.
  - by apply cache_capture_alone.
Qed.
End histories.

(** ** Caches are shared by journal and limits *)

Section registry.
Context `{U : Unicode} `{F : UnicodeFold}.

Definition registered (g : CacheRegistry) (i : nat) (limits : Z * Z) : option nat :=
  cr_entries g !! i ≫= (.!! limits).

(** Entries name caches with their limits, each its own. *)
Record registry_ok (g : CacheRegistry) : Prop := {
  ro_object i l a : registered g i l = Some a →
    ∃ c, cr_objects g !! a = Some c ∧ (vc_max_events c, vc_max_bytes c) = l;
  ro_distinct i l j l' a : registered g i l = Some a → registered g j l' = Some a → i = j ∧ l = l';
}.

Lemma registered_new g i by_limits l a objects j l' :
  cr_entries g !! i = Some by_limits ∨ (cr_entries g !! i = None ∧ by_limits = ∅) →
  registered (mkRegistry (<[i := <[l := a]> by_limits]> (cr_entries g)) objects) j l' =
  if decide (j = i ∧ l' = l) then Some a else registered g j l'.
Proof.
  intros Hi. unfold registered. simpl. destruct (decide (j = i)) as [->|Hj].
  - rewrite lookup_insert_eq. simpl. destruct (decide (l' = l)) as [->|Hl].
    + by rewrite lookup_insert_eq, decide_True.
    + rewrite lookup_insert_ne, decide_False by naive_solver. destruct Hi as [->|[-> ->]]; [done|]. simpl. by rewrite lookup_empty.
  - rewrite lookup_insert_ne, decide_False by naive_solver. done.
Qed.

Lemma registry_ok_new g i by_limits l c :
  cr_entries g !! i = Some by_limits ∨ (cr_entries g !! i = None ∧ by_limits = ∅) → by_limits !! l = None →
  (vc_max_events c, vc_max_bytes c) = l → registry_ok g →
  registry_ok (mkRegistry (<[i := <[l := length (cr_objects g)]> by_limits]> (cr_entries g)) (cr_objects g ++ [c])).
Proof.
  intros Hi Hl Hc [Ho Hd].
  assert (Hold : ∀ j l' a, registered g j l' = Some a → a < length (cr_objects g)).
  { intros j l' a H. destruct (Ho j l' a H) as (c' & Hc' & _). by eapply lookup_lt_Some. }
  split; intros j l'; repeat setoid_rewrite registered_new; try done; simpl.
  - intros a. case_decide as E; [destruct E as [-> ->]; intros [= <-]|intros H].
    + exists c. by rewrite list_lookup_middle.
    + destruct (Ho j l' a H) as (c' & Hc' & ?). exists c'. split; [|done]. by apply lookup_app_l_Some.
  - intros j' l'' a. repeat case_decide; intros H1 H2; simplify_eq; naive_solver (try (exfalso; by apply Hold in H1 || apply Hold in H2; lia)).
Qed.

Lemma positive_limit_stable v z : _positive_limit v = Ok z → _positive_limit (VInt z) = Ok z.
Proof. unfold _positive_limit. destruct v; try done. case_match eqn:E; [done|]. intros [= <-]. by rewrite E. Qed.

(** Asking for a registered cache changes nothing. *)
Lemma for_journal_again j me mb e b a g :
  jb_weak j = true → jb_hashable j = true → _positive_limit me = Ok e → _positive_limit mb = Ok b →
  registered g (jb_identity j) (e, b) = Some a → for_journal (Inst j) me mb g = (Ok a, g).
Proof.
  intros Hw Hh He Hb Ha. unfold for_journal. rewrite He, bind_lift_ok, Hb, bind_lift_ok, Hw, Hh. cbn [andb negb].
  unfold registered in Ha. apply bind_Some in Ha as (by_limits & Hi & Ha).
  rewrite bind_case. unfold gets. rewrite Hi. rewrite bind_case. simpl. by rewrite Ha.
Qed.

(** One journal with the same limits has one cache, and other journals and other
    limits have others. *)
Lemma for_journal_shares j me mb g a g' :
  registry_ok g → jb_weak j = true → jb_hashable j = true → for_journal (Inst j) me mb g = (Ok a, g') →
  registry_ok g' ∧ cr_objects g `prefix_of` cr_objects g' ∧ for_journal (Inst j) me mb g' = (Ok a, g').
Proof.
  intros Hg Hw Hh. unfold for_journal at 1.
  destruct (_positive_limit me) as [e|] eqn:He; [|done]. rewrite bind_lift_ok.
  destruct (_positive_limit mb) as [b|] eqn:Hb; [|done]. rewrite bind_lift_ok, Hw, Hh. cbn [andb negb].
  assert (∃ c, cache_init (Inst j) (VInt e) (VInt b) = Ok c ∧ (vc_max_events c, vc_max_bytes c) = (e, b)) as (c & Hc & Hlim).
  { unfold cache_init. rewrite Hw. cbn [mbind result_bind ensure].
    rewrite (positive_limit_stable _ _ He), (positive_limit_stable _ _ Hb). by eexists. }
  rewrite bind_case. unfold gets. destruct (cr_entries g !! jb_identity j) as [m|] eqn:Ei; rewrite bind_case; simpl.
  - destruct (m !! (e, b)) as [a'|] eqn:Ea.
    + intros [= <- <-]. split_and!; [done..|]. eapply for_journal_again; [done..|]. unfold registered. by rewrite Ei.
    + rewrite bind_case. unfold lift. rewrite Hc. intros [= <- <-]. simpl. split_and!.
      * apply registry_ok_new; [by left|done..].
      * by apply prefix_app_r.
      * eapply for_journal_again; [done..|]. rewrite registered_new by by left. by rewrite decide_True.
  - rewrite lookup_empty, bind_case. unfold lift. rewrite Hc. intros [= <- <-]. simpl. rewrite insert_insert_eq. split_and!.
    + apply registry_ok_new; [by right|by rewrite lookup_empty|done..].
    + by apply prefix_app_r.
    + eapply for_journal_again; [done..|]. rewrite registered_new by by right. by rewrite decide_True.
Qed.

(** The branch for a journal that no dictionary of weak keys takes: an
    unhashable one gets a cache of its own, but one without weak references is
    refused by the constructor as well. *)
Example no_cache_without_weak_references :
  (for_journal (Inst (mkJournalObject 0 (u "x") false true)) (VInt 1) (VInt 1) (mkRegistry ∅ [])).1 = Err TypeError ∧
  (for_journal (Inst (mkJournalObject 0 (u "x") true false)) (VInt 1) (VInt 1) (mkRegistry ∅ [])).1 = Ok 0.
Proof. done. Qed.
End registry.
