(* ===== verification/CacheDemo.v ===== *)
(** * The journal view cache at work

    Concrete calls of the cache, evaluated, with another writer between its
    transactions: they show that the hypotheses of the theorems on the cache can
    be met, and how the cache fails at its limit. *)

From S2P Require Import Prelude PyVal Json Models JournalPayload ResourceLimits JournalRecords JournalSnapshot JournalRuntime JournalReplay JournalDemo JsonParse SqliteStore SqliteJournal SqliteCodec SqliteInvariant SqliteRefinement SqliteSafety SqlitePort SqliteIntegrity SqliteDemo JournalCache JournalCacheSafety.

Module CacheDemo.
Import JournalDemo.JournalDemo.
Import SqliteDemo.SqliteDemo.

Definition journal : JournalObject := mkJournalObject 0 x true true.

Definition cache (max_events : Z) : RunLocalJournalViewCache :=
  mkCache (Some x) max_events 100000 None None 0 0 0 0.

(** Two events are written and viewed; while the cache refreshes its view, the
    third is appended before it reads the tail. *)
Definition two_events : Store := Eval vm_compute in after_commands (take 3 commands) fresh_store.

Definition third : disturbance := Runs (CAppend x (Inst (req "e3" "tool.started" call_payload))).

Definition viewed (max_events : Z) : World := (cache_capture_snapshot (mkWorld two_events (cache max_events) [])).2.

Definition viewed_100 : World := Eval vm_compute in viewed 100.
Definition busy : World := mkWorld (wd_store viewed_100) (wd_cache viewed_100) [[]; [third]].
Definition busy_answer : R JournalSnapshot * World := Eval vm_compute in cache_capture_snapshot busy.
Definition busy_view : JournalSnapshot := Eval vm_compute in
  match busy_answer.1 with Ok s => s | Err _ => snapshot end.

Lemma viewed_reached others :
  rtc cache_step (mkWorld two_events (cache 100) []) (mkWorld (wd_store viewed_100) (wd_cache viewed_100) others).
Proof.
  eapply rtc_l; [apply cs_capture|]. assert ((cache_capture_snapshot (mkWorld two_events (cache 100) [])).2 = viewed_100) as ->.
  { vm_compute. reflexivity. }
  apply rtc_once, (cs_others viewed_100).
Qed.

Lemma busy_returns : cache_capture_snapshot busy = (Ok busy_view, busy_answer.2).
Proof. vm_compute. reflexivity. Qed.

Lemma bound : is_Some (executions (st_db two_events) !! x).
Proof. vm_compute. eexists. reflexivity. Qed.

(** The view has the third event, and it was a hit. *)
Lemma cached_view_is_a_moment_of_the_journal_witness :
  event_count busy_view = 3 ∧ vc_cache_hits (wd_cache busy_answer.2) = 1 ∧
  ∃ t, rtc disturbed_step (wd_store busy) t ∧ rtc disturbed_step t (wd_store busy_answer.2) ∧
       (FullJournalSnapshotSource_capture_snapshot x 100 100000 (calm t)).1 = Ok busy_view.
Proof.
  split; [vm_compute; reflexivity|]. split; [vm_compute; reflexivity|].
  apply (cached_view_is_a_moment_of_the_journal journal 100 100000 (cache 100) two_events [] busy).
  - vm_compute. reflexivity.
  - exact bound.
  - apply viewed_reached.
  - exact busy_returns.
Defined.

(** The third event is appended and another program deletes it again: its
    deletion was counted, and the cache reads everything. *)
Definition appended : Store := Eval vm_compute in disturb (wd_store viewed_100) third.
Definition without_third : write := DeleteEvents (λ r, (ew_store_seq r =? 3)%Z).
Definition deleted : Store := Eval vm_compute in disturb appended (Writes without_third).
Definition tampered : World := mkWorld deleted (wd_cache viewed_100) [].
Definition old_view : JournalSnapshot := Eval vm_compute in
  match (cache_capture_snapshot tampered).1 with Ok s => s | Err _ => snapshot end.

Lemma tampered_reached : rtc cache_step (mkWorld two_events (cache 100) []) tampered.
Proof.
  etrans; [apply (viewed_reached [])|]. eapply rtc_l; [apply (cs_disturbed _ appended)|].
  - assert (appended = (run_command (CAppend x (Inst (req "e3" "tool.started" call_payload))) (wd_store viewed_100)).2) as ->.
    { vm_compute. reflexivity. }
    apply ds_command.
  - apply rtc_once. apply (cs_disturbed (mkWorld appended (wd_cache viewed_100) []) deleted). cbn [wd_store].
    change deleted with (with_db (st_db deleted) appended). apply (ds_write appended without_third). vm_compute. reflexivity.
Qed.

Lemma tampered_full : (FullJournalSnapshotSource_capture_snapshot x 100 100000 deleted).1 = Ok old_view.
Proof. vm_compute. reflexivity. Qed.

Lemma cache_is_transparent_witness :
  event_count old_view = 2 ∧ (cache_capture_snapshot tampered).1 = Ok old_view.
Proof.
  split; [vm_compute; reflexivity|].
  apply (cache_is_transparent journal 100 100000 (cache 100) two_events [] tampered); [vm_compute; reflexivity|exact bound| | | |].
  - exact tampered_reached.
  - reflexivity.
  - reflexivity.
  - exact tampered_full.
Defined.

(** At the limit of two events a third one is refused with a [RuntimeError] of the
    cache, where the reader without a cache fails with the journal's own error. *)
Example failure_at_the_limit_differs :
  let w := mkWorld (disturb (wd_store (viewed 2)) third) (wd_cache (viewed 2)) [] in
  (cache_capture_snapshot w).1 = Err JournalViewCacheError ∧
  (FullJournalSnapshotSource_capture_snapshot x 2 100000 (wd_store w)).1 = Err JournalRepositoryError.
Proof. vm_compute. done. Qed.
End CacheDemo.
