(* ===== verification/Utf8Stream.v ===== *)
(** * Incremental UTF-8 decoding

    [codecs.getincrementaldecoder("utf-8")] with the error handlers ["replace"]
    and ["ignore"], as CPython decodes: an ill-formed sequence is cut after its
    longest valid beginning, a sequence that may still become complete waits in
    the buffer unless the call is final, and a surrogate cut after its second
    byte waits too.  The main results: feeding the bytes in pieces gives the
    text of one call, an encoded text is decoded as itself, and a cut encoding
    as the characters that are complete. *)

From S2P Require Import Prelude PyVal Json Models JsonParse.

(** ** Decoding *)

(** What the bytes at hand begin with: a character and its length, an
    ill-formed sequence and its length, or a sequence that is too short. *)
Inductive utf8_unit : Type :=
| UChar (c : N) (n : nat)
| UBad (n : nat)
| UShort.

(** The second byte of a sequence of three, and of four. *)
Definition second_of_three (a b : N) : bool :=
  continuation b && negb (if (b <? 160)%N then (a =? 224)%N else (a =? 237)%N).
Definition second_of_four (a b : N) : bool :=
  continuation b && negb (if (b <? 144)%N then (a =? 240)%N else (a =? 244)%N).

Definition scan_unit (s : list N) : utf8_unit :=
  match s with
  | [] => UShort
  | a :: t =>
      if (a <? 128)%N then UChar a 1
      else if (a <? 194)%N then UBad 1
      else if (a <? 224)%N then
        match t with
        | [] => UShort
        | b :: _ => if continuation b then UChar ((a - 192) * 64 + (b - 128)) 2 else UBad 1
        end
      else if (a <? 240)%N then
        match t with
        | [] => UShort
        | b :: t2 =>
            if negb (second_of_three a b) then UBad 1
            else match t2 with
                 | [] => UShort
                 | c :: _ =>
                     if continuation c then UChar ((a - 224) * 4096 + (b - 128) * 64 + (c - 128)) 3
                     else UBad 2
                 end
        end
      else if (a <? 245)%N then
        match t with
        | [] => UShort
        | b :: t2 =>
            if negb (second_of_four a b) then UBad 1
            else match t2 with
                 | [] => UShort
                 | c :: t3 =>
                     if negb (continuation c) then UBad 2
                     else match t3 with
                          | [] => UShort
                          | d :: _ =>
                              if continuation d
                              then UChar ((a - 240) * 262144 + (b - 128) * 4096 + (c - 128) * 64 + (d - 128)) 4
                              else UBad 3
                          end
                 end
        end
      else UBad 1
  end.

(** A surrogate cut after its second byte. *)
Definition cut_surrogate (s : list N) : bool :=
  match s with [237%N; b] => ((160 <=? b) && (b <? 192))%N | _ => false end.

(** What an ill-formed sequence becomes. *)
Inductive error_handler : Type := replace | ignore.
Definition replacement (h : error_handler) : pystr := match h with replace => [65533%N] | ignore => [] end.

(** [codecs.utf_8_decode(data, errors, final)]: the text and the bytes that are
    left.  [skip] bytes belong to the sequence before. *)
Fixpoint decode_from (h : error_handler) (final : bool) (skip : nat) (s : list N) : pystr * list N :=
  match s with
  | [] => ([], [])
  | _ :: s' =>
      match skip with
      | S k => decode_from h final k s'
      | 0 =>
          match scan_unit s with
          | UChar c n => let '(t, r) := decode_from h final (pred n) s' in (c :: t, r)
          | UBad n =>
              if negb final && cut_surrogate s then ([], s)
              else let '(t, r) := decode_from h final (pred n) s' in (replacement h ++ t, r)
          | UShort => if final then (replacement h, []) else ([], s)
          end
      end
  end.
Definition utf_8_decode (h : error_handler) (final : bool) (s : list N) : pystr * list N :=
  decode_from h final 0 s.

(** [decoder.decode(input, final)] on the bytes it has kept. *)
Definition decoder_decode (h : error_handler) (buffer input : list N) (final : bool) : pystr * list N :=
  utf_8_decode h final (buffer ++ input).

(** [s.encode("utf-8")] of a text without surrogates. *)
Definition encode (t : pystr) : list N := t ≫= utf8_char.

(** ** Characters and their encoding *)

(** A Unicode scalar value. *)
Definition scalar (c : N) : Prop := is_surrogate c = false ∧ code_point c.
Definition scalars (t : pystr) : Prop := Forall scalar t.

Lemma encode_app t t' : encode (t ++ t') = encode t ++ encode t'.
Proof. apply bind_app. Qed.
Lemma encode_cons c t : encode (c :: t) = utf8_char c ++ encode t.
Proof. apply bind_cons. Qed.

Lemma utf8_encode t : scalars t → utf8 t = Some (encode t).
Proof.
  intros H. unfold utf8, encodable. rewrite (proj2 (forallb_forall _ _)); [done|].
  intros c Hc%list_elem_of_In. unfold scalars in H. rewrite Forall_forall in H. by rewrite (proj1 (H c Hc)).
Qed.

Lemma utf8_char_length c : 1 ≤ length (utf8_char c) ≤ 4.
Proof. unfold utf8_char. repeat case_match; simpl; lia. Qed.

Lemma encode_length t : length t ≤ length (encode t) ≤ 4 * length t.
Proof.
  induction t as [|c t IH]; [done|]. rewrite encode_cons, length_app. simpl length.
  pose proof (utf8_char_length c). lia.
Qed.

Lemma scalar_replacement h : scalars (replacement h).
Proof. destruct h; repeat constructor. Qed.

(** A unit is found whatever follows it. *)
Lemma scan_unit_app s x : scan_unit s ≠ UShort → scan_unit (s ++ x) = scan_unit s.
Proof.
  destruct s as [|a [|b [|c [|d s]]]]; simpl; [done|..]; repeat case_match; done.
Qed.

(** The length of a unit. *)
Lemma scan_unit_length s :
  match scan_unit s with
  | UChar _ n | UBad n => 1 ≤ n ≤ length s
  | UShort => length s ≤ 3
  end.
Proof. destruct s as [|a [|b [|c [|d s]]]]; simpl; repeat case_match; simplify_eq/=; lia. Qed.

Local Ltac div_lia := zify; Z.to_euclidean_division_equations; lia.

Lemma utf8_char_2 a b : (2 ≤ a < 32)%N → (b < 64)%N → utf8_char (a * 64 + b) = [192 + a; 128 + b]%N.
Proof. intros. unfold utf8_char. decide_N. repeat (apply (f_equal2 cons); [div_lia|]). done. Qed.

Lemma utf8_char_3 a b c :
  (a < 16)%N → (b < 64)%N → (c < 64)%N → (2048 ≤ a * 4096 + b * 64 + c)%N →
  utf8_char (a * 4096 + b * 64 + c) = [224 + a; 128 + b; 128 + c]%N.
Proof. intros. unfold utf8_char. decide_N. repeat (apply (f_equal2 cons); [div_lia|]). done. Qed.

Lemma utf8_char_4 a b c d :
  (b < 64)%N → (c < 64)%N → (d < 64)%N → (65536 ≤ a * 262144 + b * 4096 + c * 64 + d)%N →
  utf8_char (a * 262144 + b * 4096 + c * 64 + d) = [240 + a; 128 + b; 128 + c; 128 + d]%N.
Proof. intros. unfold utf8_char. decide_N. repeat (apply (f_equal2 cons); [div_lia|]). done. Qed.

(** Turn the tests on bytes into propositions. *)
Ltac byte_tests :=
  unfold second_of_three, second_of_four, continuation, is_surrogate in *;
  repeat match goal with
  | H : context [(?x <? ?y)%N] |- _ => destruct (N.ltb_spec x y); cbn in H; try done; try lia
  | H : context [(?x <=? ?y)%N] |- _ => destruct (N.leb_spec x y); cbn in H; try done; try lia
  | H : context [(?x =? ?y)%N] |- _ => destruct (N.eqb_spec x y); cbn in H; try done; try lia
  end.

(** A character that is found is a scalar value and the bytes are its encoding. *)
Lemma scan_unit_char s c n :
  scan_unit s = UChar c n → scalar c ∧ utf8_char c = take n s.
Proof.
  intros H. destruct s as [|a s]; [done|]. cbn [scan_unit] in H.
  destruct (N.ltb_spec a 128); [|destruct (N.ltb_spec a 194); [done|]; destruct (N.ltb_spec a 224);
    [|destruct (N.ltb_spec a 240); [|destruct (N.ltb_spec a 245); [|done]]]].
  - simplify_eq. split; [split; [unfold is_surrogate; decide_N; done|unfold code_point; lia]|].
    unfold utf8_char. by rewrite (proj2 (N.ltb_lt _ _)).
  - destruct s as [|b s]; [done|]. byte_tests. simplify_eq.
    split; [split; [unfold is_surrogate; decide_N; done|unfold code_point; lia]|].
    rewrite utf8_char_2 by lia. repeat (apply (f_equal2 cons); [lia|]). done.
  - destruct s as [|b [|c' s]]; [done|by case_match|].
    destruct (second_of_three a b) eqn:E2; [|done]. cbn [negb] in H.
    destruct (continuation c') eqn:E3; [|done]. injection H as <- <-. byte_tests.
    all: split; [split; [unfold is_surrogate; decide_N; done|unfold code_point; lia]|].
    all: rewrite utf8_char_3 by lia; repeat (apply (f_equal2 cons); [lia|]); done.
  - destruct s as [|b [|c' [|d s]]]; [done|by case_match|by repeat case_match|].
    destruct (second_of_four a b) eqn:E2; [|done]. cbn [negb] in H.
    destruct (continuation c') eqn:E3; [|done]. cbn [negb] in H.
    destruct (continuation d) eqn:E4; [|done]. injection H as <- <-. byte_tests.
    all: split; [split; [unfold is_surrogate; decide_N; done|unfold code_point; lia]|].
    all: rewrite utf8_char_4 by lia; repeat (apply (f_equal2 cons); [lia|]); done.
Qed.

(** The parts of a character of more than one byte. *)
Lemma scalar_parts c :
  scalar c →
  (c < 128 ∧ utf8_char c = [c])%N ∨
  (∃ a b, (2 ≤ a < 32 ∧ b < 64)%N ∧ c = a * 64 + b ∧ utf8_char c = [192 + a; 128 + b])%N ∨
  (∃ a b d, (a < 16 ∧ b < 64 ∧ d < 64 ∧ (a = 0 → 32 ≤ b) ∧ (a = 13 → b < 32))%N ∧
     c = a * 4096 + b * 64 + d ∧ utf8_char c = [224 + a; 128 + b; 128 + d])%N ∨
  (∃ a b d e, (a < 5 ∧ b < 64 ∧ d < 64 ∧ e < 64 ∧ (a = 0 → 16 ≤ b) ∧ (a = 4 → b < 16))%N ∧
     c = a * 262144 + b * 4096 + d * 64 + e ∧ utf8_char c = [240 + a; 128 + b; 128 + d; 128 + e])%N.
Proof.
  intros [Hs Hc]. unfold code_point, is_surrogate in *. unfold utf8_char.
  destruct (N.ltb_spec c 128); [by left|]. right.
  destruct (N.ltb_spec c 2048); [left|right; destruct (N.ltb_spec c 65536); [left|right]].
  - exists (c / 64)%N, (c mod 64)%N. split_and!; try done; div_lia.
  - exists (c / 4096)%N, (c / 64 mod 64)%N, (c mod 64)%N.
    assert (c < 55296 ∨ 57343 < c)%N
      by (destruct (N.leb_spec 55296 c), (N.leb_spec c 57343); try done; lia).
    split_and!; try done; div_lia.
  - exists (c / 262144)%N, (c / 4096 mod 64)%N, (c / 64 mod 64)%N, (c mod 64)%N.
    split_and!; try done; div_lia.
Qed.

Ltac test_bytes :=
  unfold second_of_three, second_of_four, continuation;
  repeat match goal with
  | |- context [(?x <? ?y)%N] => destruct (N.ltb_spec x y); try lia
  | |- context [(?x <=? ?y)%N] => destruct (N.leb_spec x y); try lia
  | |- context [(?x =? ?y)%N] => destruct (N.eqb_spec x y); try lia
  end; cbn [negb andb orb].

Lemma scan_unit_encoded c s : scalar c → scan_unit (utf8_char c ++ s) = UChar c (length (utf8_char c)).
Proof.
  intros [[? ->]|[(a & b & ? & -> & ->)|[(a & b & d & ? & -> & ->)|(a & b & d & e & ? & -> & ->)]]]%scalar_parts;
    cbn [app scan_unit length]; test_bytes; try done; f_equal; lia.
Qed.

(** A cut character may still become complete. *)
Lemma scan_unit_cut c n : scalar c → n < length (utf8_char c) → scan_unit (take n (utf8_char c)) = UShort.
Proof.
  intros [[? ->]|[(a & b & ? & -> & ->)|[(a & b & d & ? & -> & ->)|(a & b & d & e & ? & -> & ->)]]]%scalar_parts Hn;
    cbn [length] in Hn; do 4 (destruct n as [|n]; [cbn [take scan_unit]; test_bytes; done|]); lia.
Qed.

(** ** Decoding in pieces *)

Section decoding.
Context (h : error_handler).

Lemma decode_from_skip final k s : decode_from h final k s = utf_8_decode h final (drop k s).
Proof.
  revert k. induction s as [|b s IH]; intros [|k]; try done. cbn [decode_from drop]. apply IH.
Qed.

Lemma utf_8_decode_eq final s :
  s ≠ [] →
  utf_8_decode h final s =
  match scan_unit s with
  | UChar c n => let '(t, r) := utf_8_decode h final (drop n s) in (c :: t, r)
  | UBad n =>
      if negb final && cut_surrogate s then ([], s)
      else let '(t, r) := utf_8_decode h final (drop n s) in (replacement h ++ t, r)
  | UShort => if final then (replacement h, []) else ([], s)
  end.
Proof.
  intros Hs. destruct s as [|b s]; [done|]. pose proof (scan_unit_length (b :: s)) as Hn.
  unfold utf_8_decode at 1. cbn [decode_from].
  destruct (scan_unit (b :: s)) as [c n|n|]; try done; rewrite decode_from_skip; by destruct n; [lia|].
Qed.

(** Induction over the units of the bytes. *)
Lemma unit_induction (P : list N → Prop) :
  P [] →
  (∀ s, s ≠ [] → (∀ n, 1 ≤ n ≤ length s → P (drop n s)) → P s) →
  ∀ s, P s.
Proof.
  intros H0 HS s. remember (length s) as k eqn:E. revert s E.
  induction (lt_wf k) as [k _ IH]. intros s ->. destruct (decide (s = [])) as [->|Hs]; [done|].
  apply HS; [done|]. intros n Hn. apply (IH (length (drop n s))); [|done]. rewrite length_drop. lia.
Qed.

Lemma cut_surrogate_length s : cut_surrogate s = true → length s = 2.
Proof. unfold cut_surrogate. repeat case_match; done. Qed.

(** Decoding more bytes goes on from what was left. *)
Lemma decode_app final s x :
  utf_8_decode h final (s ++ x) =
  let '(t, r) := utf_8_decode h false s in
  let '(t', r') := utf_8_decode h final (r ++ x) in (t ++ t', r').
Proof.
  induction s as [|s Hs IH] using unit_induction.
  { change (utf_8_decode h false []) with (@nil N, @nil N). cbn [app]. by destruct (utf_8_decode h final x). }
  assert (s ++ x ≠ []) as Hsx by (by destruct s).
  rewrite (utf_8_decode_eq false s) by done.
  pose proof (scan_unit_length s) as Hn. pose proof (scan_unit_app s x) as Hx.
  destruct (scan_unit s) as [c n|n|] eqn:E.
  - rewrite utf_8_decode_eq, Hx, drop_app_le, IH by (done || lia).
    by destruct (utf_8_decode h false (drop n s)) as [t r], (utf_8_decode h final (r ++ x)).
  - destruct (negb false && cut_surrogate s) eqn:Ecut; [by destruct (utf_8_decode h final (s ++ x))|].
    rewrite utf_8_decode_eq, Hx by done.
    assert (negb final && cut_surrogate (s ++ x) = false) as ->.
    { destruct final; [done|]. cbn [negb andb] in *. destruct (cut_surrogate (s ++ x)) eqn:Ex; [|done].
      destruct s as [|b [|b' [|]]]; [done| |destruct x; [rewrite app_nil_r in Ex; congruence|]..].
      - destruct x as [|b' [|]]; [by apply cut_surrogate_length in Ex| |by apply cut_surrogate_length in Ex].
        cbn in Ex. repeat case_match; simplify_eq; done.
      - by apply cut_surrogate_length in Ex.
      - by apply cut_surrogate_length in Ex. }
    rewrite drop_app_le, IH by lia.
    destruct (utf_8_decode h false (drop n s)) as [t r], (utf_8_decode h final (r ++ x)).
    by rewrite (assoc_L (++)).
  - by destruct (utf_8_decode h final (s ++ x)).
Qed.

(** An encoded text is decoded as itself. *)
Lemma decode_encode final t s :
  scalars t →
  utf_8_decode h final (encode t ++ s) = let '(t', r) := utf_8_decode h final s in (t ++ t', r).
Proof.
  induction 1 as [|c t Hc Ht IH]; [cbn [encode mbind list_bind app]; by destruct (utf_8_decode h final s)|].
  pose proof (utf8_char_length c) as Hl.
  rewrite encode_cons, <-(assoc_L (++)), utf_8_decode_eq by (destruct (utf8_char c); [simpl in Hl; lia|done]).
  rewrite scan_unit_encoded, drop_app_length, IH by done. by destruct (utf_8_decode h final s).
Qed.

(** A cut encoding is decoded as its complete characters. *)
Lemma decode_cut final c n :
  scalar c → n < length (utf8_char c) →
  utf_8_decode h final (take n (utf8_char c)) =
  if decide (n = 0) then ([], []) else if final then (replacement h, []) else ([], take n (utf8_char c)).
Proof.
  intros Hc Hn. destruct n as [|n]; [done|].
  rewrite utf_8_decode_eq, (scan_unit_cut c (S n)) by (done || (destruct (utf8_char c); [simpl in Hn; lia|done])). done.
Qed.

(** What is decoded can be encoded. *)
Lemma decode_scalars final s : scalars (utf_8_decode h final s).1.
Proof.
  induction s as [|s Hs IH] using unit_induction; [constructor|].
  rewrite utf_8_decode_eq by done. pose proof (scan_unit_length s) as Hn.
  destruct (scan_unit s) as [c n|n|] eqn:E.
  - specialize (IH n Hn). destruct (utf_8_decode h final (drop n s)) as [t r]. constructor; [|done].
    by apply scan_unit_char in E as [? _].
  - case_match; [constructor|]. specialize (IH n Hn).
    destruct (utf_8_decode h final (drop n s)) as [t r].
    apply Forall_app; split; [apply scalar_replacement|done].
  - destruct final; [apply scalar_replacement|constructor].
Qed.

End decoding.

(** *** Cuts *)

(** The bytes of a text cut anywhere: whole characters and the beginning of the
    next one. *)
Lemma take_encode t n :
  n ≤ length (encode t) →
  ∃ t1 t2 k, t = t1 ++ t2 ∧ take n (encode t) = encode t1 ++ take k (encode t2) ∧ n = length (encode t1) + k ∧
             match t2 with [] => k = 0 | c :: _ => k < length (utf8_char c) end.
Proof.
  revert n. induction t as [|c t IH]; intros n Hn.
  - assert (n = 0) as -> by (simpl in Hn; lia). by exists [], [], 0.
  - rewrite encode_cons, length_app in Hn. destruct (decide (n < length (utf8_char c))) as [Hc|Hc].
    + exists [], (c :: t), n. done.
    + destruct (IH (n - length (utf8_char c))) as (t1 & t2 & k & -> & E & Hk & H2); [lia|].
      exists (c :: t1), t2, k. rewrite !encode_cons, length_app. split_and!; [done| |lia|done].
      rewrite take_app_ge by lia. by rewrite E, (assoc_L (++)).
Qed.

Lemma take_encode_cut c t k : k < length (utf8_char c) → take k (encode (c :: t)) = take k (utf8_char c).
Proof. intros. rewrite encode_cons, take_app_le by lia. done. Qed.
