(* ===== verification/JobStore.v ===== *)
(** * The durable job store (src/unchain/jobs/models.py, jobs/store.py)

    Detached jobs live in files: an immutable launch specification, a state with
    a revision, the claim and the heartbeat of the worker, a cancel marker, two
    append-only logs and the cursor of their reader.  A file is its bytes; what
    is written is canonical JSON and what is read is parsed and checked.

    A method takes the lock of its job, so it runs without interruption.  The
    process may die at any change of a file: [j_writes] says after how many
    changes it does, and the method then ends with [Crashed].  The clock and
    [uuid4] are streams of readings.  Temporary files, permissions and
    [fsync] are not modelled: a replacement of a file happens or does not. *)

From S2P Require Import Prelude PyVal Json Models RequestLease ResourceLimits JsonParse Utf8Stream.

(** ** Errors and statuses *)

Definition DurableJobNotFoundError : pyexn := OtherError (u "DurableJobNotFoundError").
Definition DurableJobOwnershipError : pyexn := OtherError (u "DurableJobOwnershipError").
Definition DurableJobConflictError : pyexn := OtherError (u "DurableJobConflictError").
Definition DurableJobStoreCorruptionError : pyexn := OtherError (u "DurableJobStoreCorruptionError").
Definition FileNotFoundError : pyexn := OtherError (u "FileNotFoundError").
(** The process died. *)
Definition Crashed : pyexn := OtherError (u "Crashed").

Definition JOB_SCHEMA_VERSION : Z := 1.
Definition STORE_MANIFEST_SCHEMA_VERSION : Z := 1.

Definition TERMINAL_JOB_STATUSES : list pystr :=
  [u "completed"; u "failed"; u "timed_out"; u "cancelled"; u "outcome_unknown"].
Definition JOB_STATUSES : list pystr :=
  [u "queued"; u "starting"; u "running"] ++ TERMINAL_JOB_STATUSES.

(** ** Text forms *)

Definition hex_text (n : nat) (s : pystr) : bool :=
  forallb (λ c, is_digit c || in_range 97 102 c) s && (length s =? n).
Definition _JOB_ID_RE (s : pystr) : bool := bool_decide (take 4 s = u "job_") && hex_text 32 (drop 4 s).
Definition _STORE_ID_RE (s : pystr) : bool := hex_text 32 s.

(** [json.dumps(v, ensure_ascii=False, sort_keys=True, separators=(",", ":"))]:
    as [dumps], but non-finite floats are written by name. *)
Fixpoint dumps_named (v : pyval) : option pystr :=
  match v with
  | VFloat f => Some (float_text f)
  | VList l =>
      items ← (fix go l :=
         match l with
         | [] => Some []
         | x :: l' => r ← dumps_named x; rs ← go l'; Some (r :: rs)
         end) l;
      Some (u "[" ++ join (u ",") items ++ u "]")
  | VDict d =>
      items ← (fix go d :=
         match d with
         | [] => Some []
         | (k, x) :: d' => r ← dumps_named x; rs ← go d'; Some ((key_str k, r) :: rs)
         end) d;
      Some (u "{" ++ join (u ",") ((λ p, json_str p.1 ++ u ":" ++ p.2) <$> merge_sort key_le items)
            ++ u "}")
  | _ => dumps v
  end.

(** [_canonical_json(value).encode("utf-8")]; the value may not be
    serialisable, and a lone surrogate has no encoding. *)
Definition _canonical_json (value : pyval) : R pystr :=
  match dumps_named value with Some t => Ok t | None => Err ValueError end.
Definition encode_utf8 (t : pystr) : R (list N) :=
  match utf8 t with Some bs => Ok bs | None => Err ValueError end.
Definition _digest (value : pyval) : R pystr :=
  text ← _canonical_json value; bs ← encode_utf8 text; Ok (sha256_hex bs).

(** [str(Path(text))] and [is_absolute] on POSIX: repeated slashes and single
    dots go, two leading slashes stay. *)
Definition path_root (s : pystr) : pystr :=
  match s with
  | 47%N :: 47%N :: 47%N :: _ => u "/"
  | 47%N :: 47%N :: _ => u "//"
  | 47%N :: _ => u "/"
  | _ => []
  end.
Definition path_str (s : pystr) : pystr :=
  let parts := List.filter (λ p, nonempty p && negb (bool_decide (p = u "."))) (split_on 47 s) in
  match path_root s ++ join (u "/") parts with [] => u "." | t => t end.
Definition is_absolute (s : pystr) : bool := nonempty (path_root s).

(** [isinstance(v, int) and not isinstance(v, bool) and v >= minimum] *)
Definition int_at_least (minimum : Z) (v : pyval) : bool :=
  match v with VInt z => (minimum <=? z)%Z | _ => false end.

Definition _required_text (v : pyval) : R pystr :=
  match v with
  | VStr s => if nonempty (strip s) then Ok (strip s) else Err ValueError
  | _ => Err ValueError
  end.

(** ** Files *)

(** The files of a job directory by name. *)
Abbreviation job_dir := (gmap string (list N)).

Record Jobs : Type := mkJobs {
  j_manifest : option (list N);
  j_stores : gmap pystr (gmap pystr job_dir);   (** stores/<store id>/jobs/<job id>/ *)
  j_legacy : bool;                              (** something is in <base>/jobs *)
  j_clock : nat → pyval;
  j_uuids : nat → pystr;
  j_writes : option nat;
}.

Definition with_manifest (m : option (list N)) (s : Jobs) : Jobs :=
  mkJobs m (j_stores s) (j_legacy s) (j_clock s) (j_uuids s) (j_writes s).
Definition with_stores (t : gmap pystr (gmap pystr job_dir)) (s : Jobs) : Jobs :=
  mkJobs (j_manifest s) t (j_legacy s) (j_clock s) (j_uuids s) (j_writes s).
Definition with_writes (n : option nat) (s : Jobs) : Jobs :=
  mkJobs (j_manifest s) (j_stores s) (j_legacy s) (j_clock s) (j_uuids s) n.

(** A change of the file system, unless the process dies. *)
Definition mutate (f : Jobs → Jobs) : M Jobs pyexn unit := λ s,
  match j_writes s with
  | None => (Ok tt, f s)
  | Some (S n) => (Ok tt, with_writes (Some n) (f s))
  | Some 0 => (Err Crashed, s)
  end.

Definition uuid4_hex : M Jobs pyexn pystr := λ s,
  (Ok (j_uuids s 0),
   mkJobs (j_manifest s) (j_stores s) (j_legacy s) (j_clock s) (λ n, j_uuids s (S n)) (j_writes s)).

Definition now_ms : M Jobs pyexn Z := λ s,
  let s' := mkJobs (j_manifest s) (j_stores s) (j_legacy s) (λ n, j_clock s (S n)) (j_uuids s) (j_writes s) in
  match j_clock s 0 with
  | VInt z => if (z <? 0)%Z then (Err TypeError, s') else (Ok z, s')
  | _ => (Err TypeError, s')
  end.

(** [raw = json.loads(path.read_text()); a JSON object].  (An integer of more
    than 4300 digits counts as undecodable.) *)
Definition parse_json (file : option (list N)) : R pydict :=
  match file with
  | None => Err DurableJobNotFoundError
  | Some bs =>
      match decode_json bs with
      | Some (VDict d) => Ok d
      | _ => Err DurableJobStoreCorruptionError
      end
  end.

Definition file_bytes (payload : pydict) : R (list N) :=
  text ← _canonical_json (VDict payload); encode_utf8 (text ++ [10%N]).

(** ** Records *)

Definition corrupt (b : bool) : R unit := ensure b DurableJobStoreCorruptionError.

Definition has_all (raw : pydict) (names : list string) : bool := forallb (has_key raw) names.

Definition validate_manifest (raw : pydict) : R pystr :=
  _ ← corrupt (py_eq (get raw "schema_version") (VInt STORE_MANIFEST_SCHEMA_VERSION));
  match get raw "store_id" with
  | VStr store_id =>
      _ ← corrupt (_STORE_ID_RE store_id);
      _ ← corrupt (int_at_least 0 (get raw "created_at_ms"));
      Ok store_id
  | _ => Err DurableJobStoreCorruptionError
  end.

Definition spec_required : list string :=
  ["schema_version"; "job_id"; "store_id"; "execution_id"; "adapter"; "argv"; "cwd"; "timeout_ms";
   "idempotency_digest"; "intent_digest"; "environment_digest"; "max_log_bytes"; "request_digest";
   "worker_token"; "created_at_ms"].

Definition request_fields : list string :=
  ["store_id"; "execution_id"; "adapter"; "argv"; "cwd"; "timeout_ms"; "idempotency_digest";
   "intent_digest"; "environment_digest"; "max_log_bytes"].

(** The request a specification was made from. *)
Definition request_of (raw : pydict) : pydict := (λ f, field f (get raw f)) <$> request_fields.

Definition is_text (v : pyval) : bool := match v with VStr s => nonempty s | _ => false end.
Definition text_of (v : pyval) : pystr := match v with VStr s => s | _ => [] end.
Definition int_of (v : pyval) : Z := match v with VInt z => z | _ => 0 end.
Definition bool_of (v : pyval) : bool := match v with VBool b => b | _ => false end.
Definition opt_int_of (v : pyval) : option Z := match v with VInt z => Some z | _ => None end.

Definition valid_argv (v : pyval) : bool :=
  match v with VList (x :: l) => forallb is_str (x :: l) | _ => false end.

Section specs.
Variable store_id : pystr.

Definition validate_spec (job_id : pystr) (raw : pydict) : R unit :=
  _ ← corrupt (has_all raw spec_required);
  _ ← corrupt (py_eq (get raw "schema_version") (VInt JOB_SCHEMA_VERSION));
  _ ← corrupt (py_eq (get raw "store_id") (VStr store_id));
  _ ← corrupt (py_eq (get raw "job_id") (VStr job_id) && _JOB_ID_RE job_id);
  _ ← corrupt (valid_argv (get raw "argv"));
  _ ← corrupt (forallb (λ f, is_text (get raw f))
        ["execution_id"; "adapter"; "cwd"; "idempotency_digest"; "intent_digest";
         "environment_digest"; "request_digest"; "worker_token"]);
  _ ← corrupt (forallb (λ f, int_at_least 0 (get raw f)) ["timeout_ms"; "max_log_bytes"; "created_at_ms"]);
  _ ← corrupt (int_at_least 1 (get raw "timeout_ms") && int_at_least 1 (get raw "max_log_bytes"));
  _ ← corrupt (is_absolute (text_of (get raw "cwd")));
  _ ← corrupt (forallb (λ f, _SHA256_RE (text_of (get raw f)))
        ["idempotency_digest"; "intent_digest"; "environment_digest"; "request_digest"]);
  _ ← corrupt (hex_text 32 (text_of (get raw "worker_token")));
  digest ← _digest (VDict (request_of raw));
  corrupt (py_eq (VStr digest) (get raw "request_digest")).
End specs.

Definition state_required : list string :=
  ["schema_version"; "job_id"; "status"; "created_at_ms"; "updated_at_ms"; "revision"; "worker_token";
   "worker_pid"; "child_pid"; "returncode"; "timed_out"; "cancelled"; "outcome_unknown_reason";
   "error"; "stdout_truncated"; "stderr_truncated"].

Definition none_or (p : pyval → bool) (v : pyval) : bool := is_none v || p v.
Definition is_int (v : pyval) : bool := match v with VInt _ => true | _ => false end.
Definition is_bool (v : pyval) : bool := match v with VBool _ => true | _ => false end.

Definition _validate_state (job_id : pystr) (raw : pydict) : R unit :=
  _ ← corrupt (has_all raw state_required);
  _ ← corrupt (py_eq (get raw "schema_version") (VInt JOB_SCHEMA_VERSION)
               && py_eq (get raw "job_id") (VStr job_id));
  known ← in_set (get raw "status") JOB_STATUSES;
  _ ← corrupt known;
  _ ← corrupt (forallb (λ f, int_at_least 0 (get raw f)) ["created_at_ms"; "updated_at_ms"; "revision"]);
  _ ← corrupt (int_of (get raw "created_at_ms") <=? int_of (get raw "updated_at_ms"))%Z;
  _ ← corrupt (none_or (int_at_least 1) (get raw "worker_pid")
               && none_or (int_at_least 1) (get raw "child_pid")
               && none_or is_int (get raw "returncode"));
  _ ← corrupt (forallb (λ f, is_bool (get raw f))
        ["timed_out"; "cancelled"; "stdout_truncated"; "stderr_truncated"]);
  corrupt (forallb (λ f, is_str (get raw f)) ["worker_token"; "outcome_unknown_reason"; "error"]).

Definition validate_cursor (job_id : pystr) (raw : pydict) : R unit :=
  _ ← corrupt (py_eq (get raw "schema_version") (VInt JOB_SCHEMA_VERSION));
  _ ← corrupt (py_eq (get raw "job_id") (VStr job_id));
  corrupt (forallb (λ f, int_at_least 0 (get raw f)) ["stdout_offset"; "stderr_offset"; "revision"]).

Definition _validate_claim (job_id : pystr) (raw : pydict) : R unit :=
  _ ← corrupt (py_eq (get raw "schema_version") (VInt JOB_SCHEMA_VERSION)
               && py_eq (get raw "job_id") (VStr job_id));
  _ ← corrupt (is_text (get raw "worker_token"));
  _ ← corrupt (match get raw "claim_id" with VStr s => hex_text 32 s | _ => false end);
  _ ← corrupt (int_at_least 1 (get raw "worker_pid"));
  corrupt (int_at_least 0 (get raw "claimed_at_ms")).

Definition heartbeat_required : list string :=
  ["schema_version"; "job_id"; "worker_token"; "worker_pid"; "heartbeat_seq"; "updated_at_ms"].

Definition _validate_heartbeat (job_id : pystr) (spec raw : pydict) : R unit :=
  _ ← corrupt (has_all raw heartbeat_required);
  _ ← corrupt (py_eq (get raw "schema_version") (VInt JOB_SCHEMA_VERSION)
               && py_eq (get raw "job_id") (VStr job_id));
  _ ← corrupt (is_text (get raw "worker_token"));
  _ ← corrupt (forallb (λ f, int_at_least 0 (get raw f)) ["worker_pid"; "heartbeat_seq"; "updated_at_ms"]);
  _ ← corrupt (int_at_least 1 (get raw "worker_pid") && int_at_least 1 (get raw "heartbeat_seq"));
  corrupt (py_eq (get raw "worker_token") (get spec "worker_token")).

(** The statuses that may follow one that is not terminal. *)
Definition allowed_transitions (current : pystr) : list pystr :=
  if bool_decide (current = u "queued") then
    [u "queued"; u "starting"; u "cancelled"; u "failed"; u "outcome_unknown"]
  else if bool_decide (current = u "starting") then
    [u "starting"; u "running"; u "cancelled"; u "failed"; u "timed_out"; u "outcome_unknown"]
  else if bool_decide (current = u "running") then
    [u "running"; u "completed"; u "failed"; u "timed_out"; u "cancelled"; u "outcome_unknown"]
  else [].

Definition _validate_transition (current next : pystr) : R unit :=
  if bool_decide (current ∈ TERMINAL_JOB_STATUSES) then
    ensure (bool_decide (next = current)) DurableJobConflictError
  else ensure (bool_decide (next ∈ allowed_transitions current)) DurableJobConflictError.

Record DurableJobSnapshot : Type := mkJobSnapshot {
  sj_job_id : pystr;
  sj_execution_id : pystr;
  sj_adapter : pystr;
  sj_status : pystr;
  sj_intent_digest : pystr;
  sj_environment_digest : pystr;
  sj_created_at_ms : Z;
  sj_updated_at_ms : Z;
  sj_revision : Z;
  sj_worker_token : pystr;
  sj_worker_pid : option Z;
  sj_child_pid : option Z;
  sj_returncode : option Z;
  sj_timed_out : bool;
  sj_cancelled : bool;
  sj_outcome_unknown_reason : pystr;
  sj_error : pystr;
  sj_stdout_truncated : bool;
  sj_stderr_truncated : bool;
}.

Definition completed (s : DurableJobSnapshot) : bool := bool_decide (sj_status s ∈ TERMINAL_JOB_STATUSES).

(** Of a validated specification and a validated state. *)
Definition _snapshot (spec state : pydict) : DurableJobSnapshot :=
  mkJobSnapshot (text_of (get spec "job_id")) (text_of (get spec "execution_id"))
    (text_of (get spec "adapter")) (text_of (get state "status")) (text_of (get spec "intent_digest"))
    (text_of (get spec "environment_digest")) (int_of (get state "created_at_ms"))
    (int_of (get state "updated_at_ms")) (int_of (get state "revision"))
    (text_of (get state "worker_token")) (opt_int_of (get state "worker_pid"))
    (opt_int_of (get state "child_pid")) (opt_int_of (get state "returncode"))
    (bool_of (get state "timed_out")) (bool_of (get state "cancelled"))
    (text_of (get state "outcome_unknown_reason")) (text_of (get state "error"))
    (bool_of (get state "stdout_truncated")) (bool_of (get state "stderr_truncated")).

(** ** Methods *)

Section store.
(** [self.store_id] *)
Variable store_id : pystr.

Definition dir_of (s : Jobs) (job_id : pystr) : option job_dir := j_stores s !! store_id ≫= λ ns, ns !! job_id.
Definition file_of (s : Jobs) (job_id : pystr) (name : string) : option (list N) :=
  dir_of s job_id ≫= λ d, d !! name.

(** Set the directory of a job, making the directories above it. *)
Definition put_dir (job_id : pystr) (d : job_dir) (s : Jobs) : Jobs :=
  with_stores (<[store_id := <[job_id := d]> (default ∅ (j_stores s !! store_id))]> (j_stores s)) s.

Definition exists_file (job_id : pystr) (name : string) : M Jobs pyexn bool :=
  gets (λ s, bool_decide (is_Some (file_of s job_id name))).

Definition write_file (job_id : pystr) (name : string) (bs : list N) : M Jobs pyexn unit :=
  mutate (λ s, put_dir job_id (<[name := bs]> (default ∅ (dir_of s job_id))) s).

Definition unlink (job_id : pystr) (name : string) : M Jobs pyexn unit :=
  mutate (λ s, put_dir job_id (delete name (default ∅ (dir_of s job_id))) s).

Definition _write_json_atomic (job_id : pystr) (name : string) (payload : pydict) : M Jobs pyexn unit :=
  bs ← lift (file_bytes payload); write_file job_id name bs.

Definition _read_json (job_id : pystr) (name : string) : M Jobs pyexn pydict :=
  file ← gets (λ s, file_of s job_id name); lift (parse_json file).

Definition _read_optional_json (job_id : pystr) (name : string) : M Jobs pyexn (option pydict) :=
  file ← gets (λ s, file_of s job_id name);
  match file with
  | None => mret None
  | Some _ => raw ← lift (parse_json file); mret (Some raw)
  end.

Definition _read_store_manifest : M Jobs pyexn pystr :=
  file ← gets j_manifest;
  raw ← lift (parse_json file);
  lift (validate_manifest raw).

Definition _assert_store_identity : M Jobs pyexn unit :=
  manifest ← try_except _read_store_manifest
    (λ e, raise (if bool_decide (e = DurableJobNotFoundError) then DurableJobStoreCorruptionError else e));
  lift (corrupt (bool_decide (manifest = store_id))).

Definition _paths (job_id : pystr) : M Jobs pyexn unit :=
  _ ← _assert_store_identity;
  lift (ensure (_JOB_ID_RE job_id) DurableJobNotFoundError).

(** [job_dir.mkdir(parents=False, exist_ok=True)] *)
Definition make_job_dir (job_id : pystr) : M Jobs pyexn unit :=
  s ← gets id;
  match j_stores s !! store_id, dir_of s job_id with
  | None, _ => raise FileNotFoundError
  | Some _, Some _ => mret tt
  | Some _, None => mutate (put_dir job_id ∅)
  end.

(** [with _exclusive_lock(paths["lock"])]: opening the lock file makes the
    directory of the job. *)
Definition _exclusive_lock {A} (job_id : pystr) (m : M Jobs pyexn A) : M Jobs pyexn A :=
  s ← gets id;
  _ ← match dir_of s job_id with Some _ => mret tt | None => mutate (put_dir job_id ∅) end;
  m.

Definition _read_spec (job_id : pystr) : M Jobs pyexn pydict :=
  raw ← _read_json job_id "spec.json"; _ ← lift (validate_spec store_id job_id raw); mret raw.

Definition _read_state (job_id : pystr) : M Jobs pyexn pydict :=
  raw ← _read_json job_id "state.json"; _ ← lift (_validate_state job_id raw); mret raw.

Definition _read_cursor (job_id : pystr) : M Jobs pyexn pydict :=
  raw ← _read_json job_id "cursor.json"; _ ← lift (validate_cursor job_id raw); mret raw.

Definition _ensure_owner (spec : pydict) (execution_id : pystr) : R unit :=
  ensure (bool_decide (text_of (get spec "execution_id") = execution_id)) DurableJobOwnershipError.

Definition _ensure_worker_token_matches (spec state : pydict) : R unit :=
  _ ← corrupt (py_eq (get state "worker_token") (get spec "worker_token"));
  corrupt (py_eq (get state "created_at_ms") (get spec "created_at_ms")).

Definition launch_artifacts : list string :=
  ["worker-claim.json"; "heartbeat.json"; "cancel-request.json"; "stdout.log"; "stderr.log"].

Definition any_artifact (job_id : pystr) : M Jobs pyexn bool :=
  gets (λ s, existsb (λ name, bool_decide (is_Some (file_of s job_id name))) launch_artifacts).

Definition initial_state (job_id : pystr) (spec : pydict) : pydict :=
  let created := VInt (int_of (get spec "created_at_ms")) in
  [field "schema_version" (VInt JOB_SCHEMA_VERSION); field "job_id" (VStr job_id);
   field "status" (VStr (u "queued")); field "created_at_ms" created; field "updated_at_ms" created;
   field "revision" (VInt 0); field "worker_token" (VStr (text_of (get spec "worker_token")));
   field "worker_pid" VNone; field "child_pid" VNone; field "returncode" VNone;
   field "timed_out" (VBool false); field "cancelled" (VBool false);
   field "outcome_unknown_reason" (VStr []); field "error" (VStr []);
   field "stdout_truncated" (VBool false); field "stderr_truncated" (VBool false)].

Definition cursor_dict (job_id : pystr) (stdout_offset stderr_offset revision : Z) : pydict :=
  [field "schema_version" (VInt JOB_SCHEMA_VERSION); field "job_id" (VStr job_id);
   field "stdout_offset" (VInt stdout_offset); field "stderr_offset" (VInt stderr_offset);
   field "revision" (VInt revision)].

Definition _ensure_initial_files (spec : pydict) : M Jobs pyexn unit :=
  let job_id := text_of (get spec "job_id") in
  has_state ← exists_file job_id "state.json";
  _ ← (if (has_state : bool) then mret tt
       else
         launched ← any_artifact job_id;
         _ ← lift (corrupt (negb launched));
         _write_json_atomic job_id "state.json" (initial_state job_id spec));
  has_cursor ← exists_file job_id "cursor.json";
  if (has_cursor : bool) then mret tt
  else
    state ← _read_state job_id;
    launched ← any_artifact job_id;
    _ ← lift (corrupt (py_eq (get state "status") (VStr (u "queued"))
                       && (int_of (get state "revision") =? 0)%Z && negb launched));
    _write_json_atomic job_id "cursor.json" (cursor_dict job_id 0 0 0).

Definition load (job_id execution_id : pystr) : M Jobs pyexn DurableJobSnapshot :=
  _ ← _paths job_id;
  has_spec ← exists_file job_id "spec.json";
  has_state ← exists_file job_id "state.json";
  _ ← lift (ensure (has_spec && has_state) DurableJobNotFoundError);
  _exclusive_lock job_id (
    _ ← _assert_store_identity;
    spec ← _read_spec job_id;
    _ ← lift (_ensure_owner spec execution_id);
    state ← _read_state job_id;
    _ ← lift (_ensure_worker_token_matches spec state);
    mret (_snapshot spec state)).

Definition load_spec (job_id : pystr) : M Jobs pyexn pydict :=
  _ ← _paths job_id;
  has_spec ← exists_file job_id "spec.json";
  _ ← lift (ensure has_spec DurableJobNotFoundError);
  _exclusive_lock job_id (_ ← _assert_store_identity; _read_spec job_id).

Definition contains (job_id : pystr) : M Jobs pyexn bool :=
  found ← try_except (_ ← _paths job_id; mret true)
    (λ e, if bool_decide (e = DurableJobNotFoundError) then mret false else raise e);
  if (found : bool) then
    has_spec ← exists_file job_id "spec.json";
    _ ← _assert_store_identity;
    mret has_spec
  else mret false.

(** *** Reserving *)

Definition durable_job_id (execution_id idempotency_key : pystr) : R pystr :=
  bs ← encode_utf8 (u "durable-process-job-v1" ++ [0%N] ++ execution_id ++ [0%N] ++ idempotency_key);
  Ok (u "job_" ++ take 32 (sha256_hex bs)).

Record reservation : Type := mkReservation {
  rv_execution_id : pyval;
  rv_adapter : pyval;
  rv_argv : pyval;
  rv_cwd : pyval;
  rv_timeout_ms : pyval;
  rv_idempotency_key : pyval;
  rv_intent_digest : pyval;
  rv_max_log_bytes : pyval;
  rv_environment_digest : option pystr;
}.

(** The checked arguments: the execution, the job, and the request.
    [captured] is [JobEnvironmentProfile.capture().digest]. *)
Definition check_reservation (captured : pystr) (r : reservation) : R (pystr * pystr * pydict) :=
  execution_id ← _required_text (rv_execution_id r);
  adapter ← _required_text (rv_adapter r);
  idempotency_key ← _required_text (rv_idempotency_key r);
  intent_digest ← _required_text (rv_intent_digest r);
  _ ← ensure (_SHA256_RE intent_digest) ValueError;
  let given := strip (default [] (rv_environment_digest r)) in
  let environment_digest := if nonempty given then given else captured in
  _ ← ensure (_SHA256_RE environment_digest) ValueError;
  _ ← ensure (valid_argv (rv_argv r)) ValueError;
  cwd ← _required_text (rv_cwd r);
  _ ← ensure (is_absolute cwd) ValueError;
  _ ← ensure (int_at_least 1 (rv_timeout_ms r)) ValueError;
  _ ← ensure (int_at_least 1 (rv_max_log_bytes r)) ValueError;
  job_id ← durable_job_id execution_id idempotency_key;
  key_digest ← _digest (VStr idempotency_key);
  Ok (execution_id, job_id,
    [field "store_id" (VStr store_id); field "execution_id" (VStr execution_id);
     field "adapter" (VStr adapter); field "argv" (rv_argv r); field "cwd" (VStr (path_str cwd));
     field "timeout_ms" (rv_timeout_ms r); field "idempotency_digest" (VStr key_digest);
     field "intent_digest" (VStr intent_digest); field "environment_digest" (VStr environment_digest);
     field "max_log_bytes" (rv_max_log_bytes r)]).

Definition spec_dict (job_id request_digest worker_token : pystr) (created_at_ms : Z) (request : pydict) : pydict :=
  [field "schema_version" (VInt JOB_SCHEMA_VERSION); field "job_id" (VStr job_id)] ++ request ++
  [field "request_digest" (VStr request_digest); field "worker_token" (VStr worker_token);
   field "created_at_ms" (VInt created_at_ms)].

(** Under the lock: the specification, written when there is none, and whether
    it was. *)
Definition bind_spec (job_id request_digest : pystr) (request : pydict) : M Jobs pyexn (pydict * bool) :=
  has_spec ← exists_file job_id "spec.json";
  if (has_spec : bool) then
    spec ← _read_spec job_id;
    _ ← lift (ensure (py_eq (get spec "request_digest") (VStr request_digest)) DurableJobConflictError);
    mret (spec, false)
  else
    created_at_ms ← now_ms;
    worker_token ← uuid4_hex;
    let spec := spec_dict job_id request_digest worker_token created_at_ms request in
    _ ← _write_json_atomic job_id "spec.json" spec;
    mret (spec, true).

Definition reserve_process_job (captured : pystr) (r : reservation) : M Jobs pyexn (DurableJobSnapshot * bool) :=
  '(execution_id, job_id, request) ← lift (check_reservation captured r);
  _ ← _paths job_id;
  _ ← make_job_dir job_id;
  request_digest ← lift (_digest (VDict request));
  created ← _exclusive_lock job_id (
    _ ← _assert_store_identity;
    '(spec, created) ← bind_spec job_id request_digest request;
    _ ← _ensure_initial_files spec;
    mret created);
  snapshot ← load job_id execution_id;
  mret (snapshot, created).

(** *** State *)

Definition allowed_updates : list string :=
  ["worker_pid"; "child_pid"; "returncode"; "timed_out"; "cancelled"; "outcome_unknown_reason"; "error";
   "stdout_truncated"; "stderr_truncated"].

(** [{**d, **e}] *)
Definition merged (d e : pydict) : pydict := foldl (λ d kv, dict_set d kv.1 kv.2) d e.

Definition update_state (job_id worker_token : pystr) (status : option pystr) (updates : pydict)
    : M Jobs pyexn DurableJobSnapshot :=
  _ ← _paths job_id;
  _exclusive_lock job_id (
    _ ← _assert_store_identity;
    spec ← _read_spec job_id;
    _ ← lift (ensure (bool_decide (text_of (get spec "worker_token") = worker_token)) DurableJobConflictError);
    state ← _read_state job_id;
    _ ← lift (_ensure_worker_token_matches spec state);
    let current := text_of (get state "status") in
    let next_status := match status with Some s => if nonempty s then s else current | None => current end in
    _ ← lift (_validate_transition current next_status);
    _ ← lift (ensure (forallb (λ k, bool_decide (k ∈ (λ f, KStr (u f)) <$> allowed_updates)) (keys updates))
                ValueError);
    now ← now_ms;
    let next_state := merged (merged state updates)
      [field "status" (VStr next_status); field "updated_at_ms" (VInt now);
       field "revision" (VInt (int_of (get state "revision") + 1))] in
    _ ← lift (_validate_state job_id next_state);
    _ ← _write_json_atomic job_id "state.json" next_state;
    mret (_snapshot spec next_state)).

Definition valid_pid (worker_pid : pyval) : R Z :=
  match worker_pid with
  | VInt pid => if (0 <? pid)%Z then Ok pid else Err ValueError
  | _ => Err ValueError
  end.

(** *** Claims and heartbeats *)

Definition claim_dict (job_id worker_token claim_id : pystr) (worker_pid claimed_at_ms : Z) : pydict :=
  [field "schema_version" (VInt JOB_SCHEMA_VERSION); field "job_id" (VStr job_id);
   field "worker_token" (VStr worker_token); field "claim_id" (VStr claim_id);
   field "worker_pid" (VInt worker_pid); field "claimed_at_ms" (VInt claimed_at_ms)].

Definition claim_worker (job_id worker_token : pystr) (worker_pid : pyval) : M Jobs pyexn bool :=
  pid ← lift (valid_pid worker_pid);
  _ ← _paths job_id;
  _exclusive_lock job_id (
    _ ← _assert_store_identity;
    spec ← _read_spec job_id;
    _ ← lift (ensure (bool_decide (text_of (get spec "worker_token") = worker_token)) DurableJobConflictError);
    state ← _read_state job_id;
    _ ← lift (_ensure_worker_token_matches spec state);
    if negb (py_eq (get state "status") (VStr (u "queued"))) then mret false
    else
      has_claim ← exists_file job_id "worker-claim.json";
      if (has_claim : bool) then mret false
      else
        claim_id ← uuid4_hex;
        now ← now_ms;
        _ ← _write_json_atomic job_id "worker-claim.json" (claim_dict job_id worker_token claim_id pid now);
        mret true).

Definition clear_stale_claim (job_id worker_token : pystr) (expected_claim : pydict) : M Jobs pyexn bool :=
  _ ← lift (_validate_claim job_id expected_claim);
  if negb (py_eq (get expected_claim "worker_token") (VStr worker_token)) then mret false
  else
    _ ← _paths job_id;
    _exclusive_lock job_id (
      _ ← _assert_store_identity;
      spec ← _read_spec job_id;
      if negb (py_eq (get spec "worker_token") (VStr worker_token)) then mret false
      else
        state ← _read_state job_id;
        _ ← lift (_ensure_worker_token_matches spec state);
        if negb (py_eq (get state "status") (VStr (u "queued"))) then mret false
        else
          claim ← _read_optional_json job_id "worker-claim.json";
          match claim with
          | None => mret false
          | Some claim =>
              _ ← lift (_validate_claim job_id claim);
              if negb (py_eq (get claim "worker_token") (VStr worker_token)) then mret false
              else if negb (py_eq (VDict claim) (VDict expected_claim)) then mret false
              else _ ← unlink job_id "worker-claim.json"; mret true
          end).

Definition read_claim (job_id : pystr) : M Jobs pyexn (option pydict) :=
  _ ← _paths job_id;
  _exclusive_lock job_id (
    _ ← _assert_store_identity;
    spec ← _read_spec job_id;
    claim ← _read_optional_json job_id "worker-claim.json";
    match claim with
    | None => mret None
    | Some claim =>
        _ ← lift (_validate_claim job_id claim);
        _ ← lift (corrupt (py_eq (get claim "worker_token") (get spec "worker_token")));
        mret (Some claim)
    end).

Definition worker_claim_is_current (job_id worker_token : pystr) (worker_pid : pyval) : M Jobs pyexn bool :=
  claim ← read_claim job_id;
  mret (match claim with
        | None => false
        | Some claim => py_eq (get claim "worker_token") (VStr worker_token)
                        && py_eq (get claim "worker_pid") worker_pid
        end).

Definition heartbeat_dict (job_id worker_token : pystr) (worker_pid heartbeat_seq updated_at_ms : Z) : pydict :=
  [field "schema_version" (VInt JOB_SCHEMA_VERSION); field "job_id" (VStr job_id);
   field "worker_token" (VStr worker_token); field "worker_pid" (VInt worker_pid);
   field "heartbeat_seq" (VInt heartbeat_seq); field "updated_at_ms" (VInt updated_at_ms)].

Definition write_heartbeat (job_id worker_token : pystr) (worker_pid : pyval) : M Jobs pyexn bool :=
  pid ← lift (valid_pid worker_pid);
  _ ← _paths job_id;
  _exclusive_lock job_id (
    _ ← _assert_store_identity;
    spec ← _read_spec job_id;
    _ ← lift (ensure (py_eq (get spec "worker_token") (VStr worker_token)) DurableJobConflictError);
    state ← _read_state job_id;
    _ ← lift (_ensure_worker_token_matches spec state);
    if bool_decide (text_of (get state "status") ∈ TERMINAL_JOB_STATUSES) then mret false
    else
      claim ← _read_optional_json job_id "worker-claim.json";
      match claim with
      | None => raise DurableJobConflictError
      | Some claim =>
          _ ← lift (_validate_claim job_id claim);
          _ ← lift (ensure (py_eq (get claim "worker_token") (VStr worker_token)
                            && py_eq (get claim "worker_pid") worker_pid) DurableJobConflictError);
          _ ← lift (ensure (is_none (get state "worker_pid")
                            || py_eq (get state "worker_pid") worker_pid) DurableJobConflictError);
          previous ← _read_optional_json job_id "heartbeat.json";
          previous_seq ← match previous with
                         | None => mret 0%Z
                         | Some raw => _ ← lift (_validate_heartbeat job_id spec raw);
                                       mret (int_of (get raw "heartbeat_seq"))
                         end;
          now ← now_ms;
          _ ← _write_json_atomic job_id "heartbeat.json"
                (heartbeat_dict job_id worker_token pid (previous_seq + 1) now);
          mret true
      end).

Definition read_heartbeat (job_id : pystr) : M Jobs pyexn (option pydict) :=
  _ ← _paths job_id;
  _exclusive_lock job_id (
    _ ← _assert_store_identity;
    spec ← _read_spec job_id;
    heartbeat ← _read_optional_json job_id "heartbeat.json";
    match heartbeat with
    | None => mret None
    | Some raw => _ ← lift (_validate_heartbeat job_id spec raw); mret (Some raw)
    end).

(** *** Unknown outcomes *)

(** The claim still has the expected generation; [None] when the transition is
    off, and the claim that was read otherwise. *)
Definition expected_claim_holds (job_id : pystr) (expected_claim_id : option pystr)
    : M Jobs pyexn (option (option pydict)) :=
  match expected_claim_id with
  | None => mret (Some None)
  | Some expected =>
      claim ← _read_optional_json job_id "worker-claim.json";
      match claim with
      | None => mret None
      | Some claim =>
          _ ← lift (_validate_claim job_id claim);
          mret (if py_eq (get claim "claim_id") (VStr expected) then Some (Some claim) else None)
      end
  end.

(** The heartbeat is the expected one and is not fresh. *)
Definition expected_heartbeat_holds (job_id : pystr) (spec state : pydict) (claim : option pydict)
    (stale_before expected_seq : option Z) : M Jobs pyexn bool :=
  if bool_decide (stale_before = None ∧ expected_seq = None) then mret true
  else
    heartbeat ← _read_optional_json job_id "heartbeat.json";
    current_seq ← match heartbeat with
                  | None => mret 0%Z
                  | Some raw => _ ← lift (_validate_heartbeat job_id spec raw);
                                mret (int_of (get raw "heartbeat_seq"))
                  end;
    if match expected_seq with Some n => negb (current_seq =? n)%Z | None => false end then mret false
    else
      match heartbeat, stale_before with
      | Some raw, Some cutoff =>
          let expected_pid :=
            match get state "worker_pid", claim with
            | VNone, Some claim => get claim "worker_pid"
            | pid, _ => pid
            end in
          mret (negb (py_eq (get raw "worker_pid") expected_pid
                      && (cutoff <=? int_of (get raw "updated_at_ms"))%Z))
      | _, _ => mret true
      end.

Record expectation : Type := mkExpectation {
  x_revision : pyval;
  x_status : pystr;
  x_reason : pyval;
  x_error : pyval;
  x_heartbeat_stale_before_ms : option pyval;
  x_heartbeat_seq : option pyval;
  x_claim_id : option pystr;
}.

(** [value is not None and (isinstance(value, bool) or ... or value < 0)] *)
Definition optional_natural (v : option pyval) : R (option Z) :=
  match v with
  | None => Ok None
  | Some v => _ ← ensure (int_at_least 0 v) ValueError; Ok (Some (int_of v))
  end.

Definition transition_to_outcome_unknown (job_id execution_id : pystr) (x : expectation)
    : M Jobs pyexn DurableJobSnapshot :=
  _ ← lift (ensure (int_at_least 0 (x_revision x)) ValueError);
  _ ← lift (ensure (bool_decide (x_status x ∈ JOB_STATUSES)) ValueError);
  reason ← lift (_required_text (x_reason x));
  error ← lift (_required_text (x_error x));
  stale_before ← lift (optional_natural (x_heartbeat_stale_before_ms x));
  expected_seq ← lift (optional_natural (x_heartbeat_seq x));
  _ ← lift (ensure (match x_claim_id x with Some c => hex_text 32 c | None => true end) ValueError);
  _ ← _paths job_id;
  _exclusive_lock job_id (
    _ ← _assert_store_identity;
    spec ← _read_spec job_id;
    _ ← lift (_ensure_owner spec execution_id);
    state ← _read_state job_id;
    _ ← lift (_ensure_worker_token_matches spec state);
    let unchanged := mret (_snapshot spec state) in
    if bool_decide (text_of (get state "status") ∈ TERMINAL_JOB_STATUSES) then unchanged
    else if negb (int_of (get state "revision") =? int_of (x_revision x))%Z
            || negb (bool_decide (text_of (get state "status") = x_status x)) then unchanged
    else
      claim ← expected_claim_holds job_id (x_claim_id x);
      match claim with
      | None => unchanged
      | Some current_claim =>
          holds ← expected_heartbeat_holds job_id spec state current_claim stale_before expected_seq;
          if negb holds then unchanged
          else
            _ ← lift (_validate_transition (text_of (get state "status")) (u "outcome_unknown"));
            now ← now_ms;
            let next_state := merged state
              [field "status" (VStr (u "outcome_unknown")); field "outcome_unknown_reason" (VStr reason);
               field "error" (VStr error); field "returncode" VNone;
               field "updated_at_ms" (VInt (Z.max (int_of (get state "updated_at_ms")) now));
               field "revision" (VInt (int_of (get state "revision") + 1))] in
            _ ← lift (_validate_state job_id next_state);
            _ ← _write_json_atomic job_id "state.json" next_state;
            mret (_snapshot spec next_state)
      end).

(** *** Cancelling *)

Definition cancel_dict (job_id execution_id : pystr) (requested_at_ms : Z) : pydict :=
  [field "schema_version" (VInt JOB_SCHEMA_VERSION); field "job_id" (VStr job_id);
   field "execution_id" (VStr execution_id); field "requested_at_ms" (VInt requested_at_ms)].

Definition request_cancel (job_id execution_id : pystr) : M Jobs pyexn unit :=
  _ ← _paths job_id;
  _exclusive_lock job_id (
    _ ← _assert_store_identity;
    spec ← _read_spec job_id;
    _ ← lift (_ensure_owner spec execution_id);
    now ← now_ms;
    _write_json_atomic job_id "cancel-request.json" (cancel_dict job_id execution_id now)).

Definition cancel_requested (job_id : pystr) : M Jobs pyexn bool :=
  _ ← _paths job_id;
  _exclusive_lock job_id (
    _ ← _assert_store_identity;
    spec ← _read_spec job_id;
    marker ← _read_optional_json job_id "cancel-request.json";
    match marker with
    | None => mret false
    | Some marker =>
        _ ← lift (corrupt (py_eq (get marker "schema_version") (VInt JOB_SCHEMA_VERSION)
                           && py_eq (get marker "job_id") (VStr job_id)
                           && py_eq (get marker "execution_id") (get spec "execution_id")));
        _ ← lift (corrupt (int_at_least 0 (get marker "requested_at_ms")));
        mret true
    end).

(** *** Logs *)

(** The pump of the worker appends to a log without the lock of the job. *)
Definition append_log (job_id : pystr) (name : string) (bs : list N) (s : Jobs) : Jobs :=
  match bs with
  | [] => s
  | _ => let d := default ∅ (dir_of s job_id) in
         put_dir job_id (<[name := default [] (d !! name) ++ bs]> d) s
  end.

Record log_chunk : Type := mkChunk {
  lc_text : pystr;
  lc_start_offset : Z;
  lc_next_offset : Z;
  lc_available : Z;
  lc_has_more : bool;
}.

(** [at_stat] is the log when its size is taken and [at_open] when it is read.
    Decoded text can always be encoded again. *)
Definition _read_log_chunk (at_stat at_open : option (list N)) (offset max_chars : Z) (final : bool)
    : R log_chunk :=
  let available := Z.of_nat (length (default [] at_stat)) in
  if (available <? offset)%Z then Err DurableJobStoreCorruptionError
  else
    let start_offset := Z.max 0 offset in
    if (max_chars <=? 0)%Z || (available <=? start_offset)%Z then
      Ok (mkChunk [] start_offset start_offset available (start_offset <? available)%Z)
    else
      match at_open with
      | None => Ok (mkChunk [] 0 0 0 false)
      | Some bs =>
          let read_limit := Z.max 4 (max_chars * 4) in
          let payload := take (Z.to_nat read_limit) (drop (Z.to_nat start_offset) bs) in
          let reached_snapshot_end := (available <=? start_offset + Z.of_nat (length payload))%Z in
          let '(decoded, buffered) := decoder_decode replace [] payload (final && reached_snapshot_end) in
          let text := take (Z.to_nat max_chars) decoded in
          let consumed :=
            if (max_chars <? Z.of_nat (length decoded))%Z then length (encode text)
            else length payload - length buffered in
          let next_offset := (start_offset + Z.of_nat consumed)%Z in
          Ok (mkChunk text start_offset next_offset available (next_offset <? available)%Z)
      end.

(** One chunk of a log that grows by [grown] while it is read. *)
Definition read_log (job_id : pystr) (name : string) (offset max_chars : Z) (final : bool) (grown : list N)
    : M Jobs pyexn log_chunk :=
  at_stat ← gets (λ s, file_of s job_id name);
  _ ← modify (append_log job_id name grown);
  at_open ← gets (λ s, file_of s job_id name);
  lift (_read_log_chunk at_stat at_open offset max_chars final).

Definition consume_logs (job_id execution_id : pystr) (max_output_chars : pyval) (final : bool)
    (grown : list N * list N) : M Jobs pyexn (log_chunk * log_chunk) :=
  limit ← lift (match max_output_chars with VInt z => Ok (Z.max 0 z) | _ => Err TypeError end);
  _ ← _paths job_id;
  _exclusive_lock job_id (
    _ ← _assert_store_identity;
    spec ← _read_spec job_id;
    _ ← lift (_ensure_owner spec execution_id);
    cursor ← _read_cursor job_id;
    stdout ← read_log job_id "stdout.log" (int_of (get cursor "stdout_offset")) limit final grown.1;
    stderr ← read_log job_id "stderr.log" (int_of (get cursor "stderr_offset")) limit final grown.2;
    _ ← _write_json_atomic job_id "cursor.json"
          (cursor_dict job_id (lc_next_offset stdout) (lc_next_offset stderr)
             (int_of (get cursor "revision") + 1));
    mret (stdout, stderr)).

(** *** The jobs of an execution *)

Definition str_le (s t : pystr) : Prop := str_leb s t = true.
#[local] Instance str_le_dec : RelDecision str_le := λ s t, decide (str_leb s t = true).

(** [sorted(self.jobs_dir.glob("job_*"))] *)
Definition job_names (s : Jobs) : list pystr :=
  List.filter _JOB_ID_RE (merge_sort str_le (map_to_list (default ∅ (j_stores s !! store_id))).*1).

(** The job of one directory, when it is one of the execution. *)
Definition list_job (execution_id job_id : pystr) : M Jobs pyexn (option DurableJobSnapshot) :=
  _ ← _paths job_id;
  _exclusive_lock job_id (
    _ ← _assert_store_identity;
    has_spec ← exists_file job_id "spec.json";
    if negb has_spec then mret None
    else
      spec ← _read_spec job_id;
      if negb (is_ok (_ensure_owner spec execution_id)) then mret None
      else
        _ ← _ensure_initial_files spec;
        state ← _read_state job_id;
        _ ← lift (_ensure_worker_token_matches spec state);
        mret (Some (_snapshot spec state))).

Fixpoint list_jobs (execution_id : pystr) (names : list pystr) : M Jobs pyexn (list DurableJobSnapshot) :=
  match names with
  | [] => mret []
  | job_id :: names =>
      found ← list_job execution_id job_id;
      rest ← list_jobs execution_id names;
      mret (match found with Some snapshot => snapshot :: rest | None => rest end)
  end.

Definition list_execution (execution_id : pyval) : M Jobs pyexn (list DurableJobSnapshot) :=
  execution_id ← lift (_required_text execution_id);
  _ ← _assert_store_identity;
  names ← gets job_names;
  list_jobs execution_id names.

End store.

(** ** Opening a store *)

(** A job directory or a file below [stores], or anything in [jobs]. *)
Definition _has_unbound_job_data (s : Jobs) : bool :=
  j_legacy s ||
  existsb (λ ns : pystr * gmap pystr job_dir,
      existsb (λ d : pystr * job_dir, _JOB_ID_RE d.1 || negb (bool_decide (d.2 = ∅))) (map_to_list ns.2))
    (map_to_list (j_stores s)).

Definition FileExistsError : pyexn := OtherError (u "FileExistsError").

Definition manifest_dict (store_id : pystr) (created_at_ms : Z) : pydict :=
  [field "schema_version" (VInt STORE_MANIFEST_SCHEMA_VERSION); field "store_id" (VStr store_id);
   field "created_at_ms" (VInt created_at_ms)].

(** [JsonFileJobStore(base_dir)]: the identity of the store. *)
Definition open_store : M Jobs pyexn pystr :=
  file ← gets j_manifest;
  store_id ← match file with
    | Some _ => _read_store_manifest
    | None =>
        s ← gets id;
        _ ← lift (corrupt (negb (_has_unbound_job_data s)));
        store_id ← uuid4_hex;
        _ ← lift (ensure (bool_decide (j_stores s !! store_id = None)) FileExistsError);
        _ ← mutate (λ s, with_stores (<[store_id := ∅]> (j_stores s)) s);
        now ← now_ms;
        bs ← lift (file_bytes (manifest_dict store_id now));
        _ ← mutate (with_manifest (Some bs));
        mret store_id
    end;
  s ← gets id;
  _ ← lift (corrupt (bool_decide (is_Some (j_stores s !! store_id))));
  mret store_id.
