(* ===== verification/JobLogs.v ===== *)
(** * The logs of a job (src/unchain/jobs/_worker.py [_LogPump], store.py
    [_read_log_chunk])

    A pump copies a pipe of the command into a bounded log, as valid UTF-8; a
    reader takes the log in bounded pieces from a byte offset.  The pump keeps
    exactly the longest beginning of the decoded output that fits, however the
    bytes arrive, and the pieces a reader gets put together are that text. *)

From S2P Require Import Prelude PyVal Json Models JsonParse Utf8Stream JobStore.

(** ** The pump *)

Definition _bounded_utf8_prefix (payload : list N) (limit : Z) : list N :=
  if (limit <=? 0)%Z then []
  else if (Z.of_nat (length payload) <=? limit)%Z then payload
  else encode (utf_8_decode ignore true (take (Z.to_nat limit) payload)).1.

Record LogPump : Type := mkPump {
  pm_max_bytes : Z;
  pm_log : list N;            (** the destination *)
  pm_written : Z;
  pm_buffer : list N;         (** of the decoder *)
  pm_accepting : bool;
  pm_truncated : bool;
  pm_error : bool;            (** [self.error] is set *)
}.

(** Write what fits of a decoded text; [stop] when a text that did not fit is
    the last one accepted. *)
Definition put_text (text : pystr) (buffer : list N) (stop : bool) (p : LogPump) : LogPump :=
  let normalized := encode text in
  let accepted :=
    if pm_accepting p then _bounded_utf8_prefix normalized (Z.max 0 (pm_max_bytes p - pm_written p)) else [] in
  let cut := length accepted <? length normalized in
  mkPump (pm_max_bytes p) (pm_log p ++ accepted) (pm_written p + Z.of_nat (length accepted)) buffer
    (pm_accepting p && negb (stop && cut)) (pm_truncated p || cut) (pm_error p).

(** One turn of the loop, and the end of the pipe. *)
Definition pump_chunk (chunk : list N) (p : LogPump) : LogPump :=
  let '(text, buffer) := decoder_decode replace (pm_buffer p) chunk false in put_text text buffer true p.
Definition pump_flush (p : LogPump) : LogPump :=
  let '(text, buffer) := decoder_decode replace (pm_buffer p) [] true in put_text text buffer false p.

(** What [os.read] on the pipe gives next. *)
Inductive pipe_read : Type :=
| Bytes (chunk : list N)     (** empty at the end of the pipe *)
| ReadError.

Definition pump_failed (p : LogPump) : LogPump :=
  mkPump (pm_max_bytes p) (pm_log p) (pm_written p) (pm_buffer p) (pm_accepting p) true true.

(** The loop over the reads; a pipe with no more reads is at its end. *)
Fixpoint copy_loop (reads : list pipe_read) (p : LogPump) : LogPump :=
  match reads with
  | [] | Bytes [] :: _ => pump_flush p
  | Bytes chunk :: reads => copy_loop reads (pump_chunk chunk p)
  | ReadError :: _ => pump_failed p
  end.

Definition _copy (max_bytes : Z) (log : list N) (reads : list pipe_read) : LogPump :=
  let written := Z.of_nat (length log) in
  copy_loop reads (mkPump max_bytes log written [] (written <? max_bytes)%Z false false).

(** ** What fits *)

(** The longest beginning of a text whose encoding has at most [n] bytes. *)
Fixpoint fit (n : nat) (t : pystr) : pystr :=
  match t with
  | [] => []
  | c :: t' => if length (utf8_char c) <=? n then c :: fit (n - length (utf8_char c)) t' else []
  end.

Lemma fit_prefix n t : fit n t `prefix_of` t.
Proof.
  revert n. induction t as [|c t IH]; intros n; [done|]. simpl. case_match; [|by apply prefix_nil].
  by apply prefix_cons.
Qed.

Lemma fit_scalars n t : scalars t → scalars (fit n t).
Proof. intros H. destruct (fit_prefix n t) as [t' E]. rewrite E in H. by apply Forall_app in H as [? _]. Qed.

Lemma fit_length n t : length (encode (fit n t)) ≤ n.
Proof.
  revert n. induction t as [|c t IH]; intros n; [cbn; lia|]. cbn [fit]. destruct (Nat.leb_spec (length (utf8_char c)) n); [|cbn; lia].
  rewrite encode_cons, length_app. specialize (IH (n - length (utf8_char c))). lia.
Qed.

Lemma fit_all n t : length (encode t) ≤ n ↔ fit n t = t.
Proof.
  split; [|intros <-; apply fit_length]. revert n. induction t as [|c t IH]; intros n; [done|].
  rewrite encode_cons, length_app. intros Hn. simpl. destruct (Nat.leb_spec (length (utf8_char c)) n); [|lia].
  rewrite IH by lia. done.
Qed.

Lemma fit_app n t t' :
  fit n (t ++ t') = if decide (fit n t = t) then t ++ fit (n - length (encode t)) t' else fit n t.
Proof.
  revert n. induction t as [|c t IH]; intros n.
  { cbn. by rewrite Nat.sub_0_r. }
  cbn [fit app]. destruct (Nat.leb_spec (length (utf8_char c)) n); [|by rewrite decide_False].
  rewrite IH, encode_cons, length_app. destruct (decide (fit (n - length (utf8_char c)) t = t)) as [E|E].
  - rewrite decide_True by (by rewrite E). by rewrite Nat.sub_add_distr.
  - rewrite decide_False by (by intros [= ?]). done.
Qed.

(** No longer beginning fits. *)
Lemma fit_longest n t t' : t' `prefix_of` t → length (encode t') ≤ n → t' `prefix_of` fit n t.
Proof.
  intros [t2 ->] Hn. rewrite fit_app, decide_True by (by apply fit_all). by apply prefix_app_r.
Qed.

Lemma bounded_prefix t limit : scalars t → _bounded_utf8_prefix (encode t) limit = encode (fit (Z.to_nat limit) t).
Proof.
  intros Ht. unfold _bounded_utf8_prefix. destruct (Z.leb_spec limit 0).
  { pose proof (fit_length (Z.to_nat limit) t). destruct (encode (fit _ t)); [done|simpl in *; lia]. }
  destruct (Z.leb_spec (Z.of_nat (length (encode t))) limit).
  { rewrite (proj1 (fit_all _ t)); [done|lia]. }
  destruct (take_encode t (Z.to_nat limit)) as (t1 & t2 & k & -> & -> & Hk & H2); [lia|].
  apply Forall_app in Ht as [Ht1 Ht2]. rewrite decode_encode by done.
  rewrite fit_app, decide_True by (apply fit_all; lia). rewrite encode_app.
  destruct t2 as [|c t2].
  - subst k. rewrite app_nil_r in *. lia.
  - apply Forall_cons in Ht2 as [Hc _]. rewrite take_encode_cut, decode_cut by done.
    assert (fit (Z.to_nat limit - length (encode t1)) (c :: t2) = []) as ->.
    { simpl. by rewrite (proj2 (Nat.leb_gt _ _)) by lia. }
    by destruct (decide (k = 0)); rewrite !app_nil_r.
Qed.

(** ** The pump keeps what fits *)

(** What a pipe delivers until its end or an error, and whether it ended. *)
Fixpoint delivered (reads : list pipe_read) : list N * bool :=
  match reads with
  | [] | Bytes [] :: _ => ([], true)
  | Bytes chunk :: reads => let '(bs, eof) := delivered reads in (chunk ++ bs, eof)
  | ReadError :: _ => ([], false)
  end.

Section pump.
Context (max : Z) (log : list N).

Let room : nat := Z.to_nat (max - Z.of_nat (length log)).

(** The pump has written what fits of [text]. *)
Record holds_text (text : pystr) (p : LogPump) : Prop := {
  ht_max : pm_max_bytes p = max;
  ht_log : pm_log p = log ++ encode (fit room text);
  ht_written : pm_written p = Z.of_nat (length (pm_log p));
  ht_truncated : pm_truncated p = bool_decide (fit room text ≠ text);
  ht_error : pm_error p = false;
}.

(** It goes on exactly when everything has fitted so far. *)
Definition accepts (text : pystr) (p : LogPump) : Prop :=
  if pm_accepting p then fit room text = text else ∀ more, fit room (text ++ more) = fit room text.

Lemma encode_cut n t : (length (encode (fit n t)) <? length (encode t)) = bool_decide (fit n t ≠ t).
Proof.
  destruct (decide (fit n t = t)) as [E|E].
  - rewrite bool_decide_eq_false_2 by (by intros []). rewrite E. apply Nat.ltb_irrefl.
  - rewrite bool_decide_eq_true_2 by done. apply Nat.ltb_lt. rewrite <-fit_all in E. pose proof (fit_length n t). lia.
Qed.

Lemma put_text_ok text more buffer stop p :
  holds_text text p → accepts text p → scalars more →
  holds_text (text ++ more) (put_text more buffer stop p) ∧
  (stop = true → accepts (text ++ more) (put_text more buffer stop p)).
Proof.
  intros [Hm Hl Hw Ht He] Ha Hs. unfold accepts, put_text in *. rewrite Hm, Hw, Hl, He, Ht. clear Ht He.
  destruct (pm_accepting p); cbn [andb].
  - rewrite bounded_prefix by done. rewrite encode_cut, Ha.
    replace (Z.to_nat _) with (room - length (encode text)) by (rewrite length_app; lia).
    set (kept := fit (room - length (encode text)) more).
    assert (fit room (text ++ more) = text ++ kept) as E by (by rewrite fit_app, decide_True).
    split; [split; cbn [pm_max_bytes pm_log pm_written pm_truncated pm_error]|]; rewrite ?E; try done.
    + by rewrite encode_app, (assoc_L (++)).
    + rewrite !length_app, Nat2Z.inj_add. lia.
    + rewrite bool_decide_eq_false_2 by (by intros []). cbn. apply bool_decide_ext. split.
      * intros ? ?%(inj (app text)). done.
      * by intros ? ->.
    + intros ->. cbn [pm_accepting andb]. case_bool_decide as Hk; cbn [negb].
      * intros x. rewrite <-(assoc_L (++)), fit_app, decide_True by done. f_equal. rewrite fit_app.
        by rewrite decide_False.
      * destruct (decide (kept = more)) as [->|]; [done|tauto].
  - specialize (Ha more) as Hmore. cbn [length]. rewrite app_nil_r, Z.add_0_r.
    split; [split; cbn [pm_max_bytes pm_log pm_written pm_truncated pm_error]|]; rewrite ?Hmore; try done.
    + destruct (fit_prefix room text) as [t' E]. destruct more as [|c more].
      * by rewrite app_nil_r, orb_false_r.
      * pose proof (encode_length (c :: more)) as [Hpos _]. cbn [length] in Hpos.
        rewrite (proj2 (Nat.ltb_lt _ _)), orb_true_r by lia. symmetry. apply bool_decide_eq_true_2.
        intros Ef. apply (f_equal length) in E, Ef. rewrite ?length_app in *. simpl in *. lia.
    + intros _ x. by rewrite <-(assoc_L (++)), Ha.
Qed.

Lemma copy_loop_ok reads text p seen :
  holds_text text p → accepts text p → utf_8_decode replace false seen = (text, pm_buffer p) →
  let '(bs, eof) := delivered reads in
  let text' := (utf_8_decode replace eof (seen ++ bs)).1 in
  let p' := copy_loop reads p in
  pm_log p' = log ++ encode (fit room text') ∧
  pm_truncated p' = negb eof || bool_decide (fit room text' ≠ text') ∧ pm_error p' = negb eof.
Proof.
  assert (∀ text p seen, holds_text text p → accepts text p → utf_8_decode replace false seen = (text, pm_buffer p) →
    let text' := (utf_8_decode replace true (seen ++ [])).1 in
    pm_log (pump_flush p) = log ++ encode (fit room text') ∧
    pm_truncated (pump_flush p) = bool_decide (fit room text' ≠ text') ∧ pm_error (pump_flush p) = false) as Hflush.
  { clear. intros text p seen Hp Ha Hd. rewrite decode_app, Hd. unfold pump_flush, decoder_decode.
    pose proof (decode_scalars replace true (pm_buffer p ++ [])) as Hs.
    destruct (utf_8_decode replace true (pm_buffer p ++ [])) as [more rest]. cbn [fst] in *.
    destruct (put_text_ok text more rest false p Hp Ha Hs) as [[? ? ? ? ?] _]. done. }
  revert text p seen. induction reads as [|[chunk|] reads IH]; intros text p seen Hp Ha Hd.
  - by apply (Hflush text p seen).
  - destruct chunk as [|b chunk]; [by apply (Hflush text p seen)|]. cbn [delivered copy_loop].
    pose proof (decode_app replace false seen (b :: chunk)) as Hd'. rewrite Hd in Hd'.
    pose proof (decode_scalars replace false (pm_buffer p ++ b :: chunk)) as Hs.
    assert (∃ more rest, utf_8_decode replace false (pm_buffer p ++ b :: chunk) = (more, rest)) as (more & rest & Em)
      by (destruct (utf_8_decode _ _ (pm_buffer p ++ b :: chunk)); eauto).
    rewrite Em in Hd', Hs. destruct (put_text_ok text more rest true p Hp Ha Hs) as [Hp' Ha'].
    specialize (IH (text ++ more) (pump_chunk (b :: chunk) p) (seen ++ b :: chunk)).
    unfold pump_chunk, decoder_decode in *. rewrite Em in *. specialize (IH Hp' (Ha' eq_refl) Hd').
    destruct (delivered reads) as [bs eof]. by rewrite (assoc_L (++)).
  - cbn [delivered copy_loop]. rewrite app_nil_r, Hd. destruct Hp. done.
Qed.

End pump.

(** The log holds exactly the longest beginning of the output, decoded
    as a whole, that fits in the limit; the flag says whether anything is missing. *)
Theorem pump_keeps_what_fits max log reads :
  let '(bs, eof) := delivered reads in
  let text := (utf_8_decode replace eof bs).1 in
  let kept := fit (Z.to_nat (max - Z.of_nat (length log))) text in
  let p := _copy max log reads in
  pm_log p = log ++ encode kept ∧
  pm_truncated p = negb eof || bool_decide (kept ≠ text) ∧
  pm_error p = negb eof.
Proof.
  apply (copy_loop_ok max log reads [] _ []); [by split; rewrite ?app_nil_r|unfold accepts; cbn [pm_accepting]|done].
  destruct (Z.ltb_spec (Z.of_nat (length log)) max); [done|]. intros more.
  replace (Z.to_nat _) with 0 by lia. cbn [app]. destruct more as [|c more]; [done|]. cbn [fit].
  pose proof (utf8_char_length c). by rewrite (proj2 (Nat.leb_gt _ _)) by lia.
Qed.

(** ** Reading in pieces *)

(** What one look at a log of [L] sees: its length at [stat] and at [open], the
    characters asked for, and whether the job says the log is complete. *)
Record look : Type := mkLook { lk_stat : nat; lk_open : nat; lk_max : Z; lk_final : bool }.

Definition read_look (L : list N) (offset : Z) (l : look) : R log_chunk :=
  _read_log_chunk (Some (take (lk_stat l) L)) (Some (take (lk_open l) L)) offset (lk_max l) (lk_final l).

(** One look after the other, each from where the one before stopped. *)
Fixpoint read_looks (L : list N) (offset : Z) (looks : list look) : R (pystr * Z) :=
  match looks with
  | [] => Ok ([], offset)
  | l :: looks =>
      chunk ← read_look L offset l;
      '(text, offset) ← read_looks L (lc_next_offset chunk) looks;
      Ok (lc_text chunk ++ text, offset)
  end.

(** The log grows from look to look, and is complete when a look is final. *)
Fixpoint growing (size : nat) (from : nat) (looks : list look) : Prop :=
  match looks with
  | [] => True
  | l :: looks => from ≤ lk_stat l ≤ lk_open l ∧ lk_open l ≤ size ∧ (lk_final l = true → lk_stat l = size) ∧
                  growing size (lk_open l) looks
  end.

(** The part of a text that is complete in its first [n] bytes. *)
Lemma decode_part final t n :
  scalars t → n ≤ length (encode t) → (final = true → n = length (encode t)) →
  ∃ t1 t2, t = t1 ++ t2 ∧ length (encode t1) ≤ n ∧
    (∀ c t', t2 = c :: t' → n < length (encode t1) + length (utf8_char c)) ∧
    ∃ rest, decoder_decode replace [] (take n (encode t)) final = (t1, rest) ∧
            n - length rest = length (encode t1).
Proof.
  intros Ht Hn Hf. destruct (take_encode t n Hn) as (t1 & t2 & k & -> & E & Hk & H2).
  apply Forall_app in Ht as [Ht1 Ht2]. exists t1, t2. split_and!; [done|lia| |].
  { intros c t' ->. lia. }
  unfold decoder_decode. cbn [app]. rewrite E, decode_encode by done.
  destruct t2 as [|c t2]; [exists []; subst k; cbn; rewrite app_nil_r; split; [done|lia]|].
  apply Forall_cons in Ht2 as [Hc _]. rewrite take_encode_cut, decode_cut by done.
  destruct (decide (k = 0)) as [->|Hk0]; [exists []; rewrite app_nil_r; split; [done|simpl; lia]|].
  destruct final; [|exists (take k (utf8_char c)); rewrite app_nil_r, length_take; split; [done|lia]].
  rewrite encode_app, encode_cons, !length_app in Hf. lia.
Qed.

(** One look gives the next characters of the text. *)
Lemma read_look_ok t1 t2 l :
  let L := encode (t1 ++ t2) in
  scalars (t1 ++ t2) → length (encode t1) ≤ lk_stat l ≤ lk_open l → lk_open l ≤ length L →
  (lk_final l = true → lk_stat l = length L) →
  ∃ chunk t3, read_look L (Z.of_nat (length (encode t1))) l = Ok chunk ∧ t2 = lc_text chunk ++ t3 ∧
    lc_next_offset chunk = Z.of_nat (length (encode (t1 ++ lc_text chunk))) ∧
    length (encode (t1 ++ lc_text chunk)) ≤ lk_open l ∧
    (Z.of_nat (length (lc_text chunk)) ≤ Z.max 0 (lk_max l))%Z ∧
    (t2 ≠ [] → (0 < lk_max l)%Z → lk_stat l = length L ∨ length (encode t1) + 4 ≤ lk_stat l → lc_text chunk ≠ []).
Proof.
  intros L Ht Ho HL Hf. unfold read_look, _read_log_chunk. cbn [default from_option id].
  set (o := length (encode t1)) in *. rewrite (length_take_le L (lk_stat l)) by lia.
  rewrite (proj2 (Z.ltb_ge _ _)) by lia. rewrite (Z.max_r 0 (Z.of_nat o)) by lia.
  destruct (Z.leb_spec (lk_max l) 0); cbn [orb]; [|destruct (Z.leb_spec (Z.of_nat (lk_stat l)) (Z.of_nat o))].
  1,2: eexists (mkChunk _ _ _ _ _), t2; split_and!; [done..| | | |]; cbn [lc_text lc_next_offset length];
    rewrite ?app_nil_r; [done|unfold o in *; lia|lia|].
  - lia.
  - intros H2 _ Hs. assert (lk_stat l = length L) as HsL by lia. unfold L, o in *.
    rewrite encode_app, length_app in HsL. destruct t2 as [|c t2]; [done|].
    rewrite encode_cons, length_app in HsL. pose proof (utf8_char_length c). lia.
  - set (m := Z.max 4 (lk_max l * 4)). set (n := Z.to_nat m `min` (lk_open l - o)).
    assert (take (Z.to_nat m) (drop (Z.to_nat (Z.of_nat o)) (take (lk_open l) L)) = take n (encode t2)) as ->.
    { rewrite Nat2Z.id, List.skipn_firstn_comm.
      unfold L, o, n. rewrite encode_app, drop_app_length, take_take. done. }
    assert (length L = o + length (encode t2)) as HLen by (unfold L, o; by rewrite encode_app, length_app).
    apply Forall_app in Ht as [Ht1 Ht2]. rewrite length_take_le by lia.
    destruct (decode_part (lk_final l && (Z.of_nat (lk_stat l) <=? Z.of_nat o + Z.of_nat n)%Z) t2 n)
      as (ta & tb & Eab & Hta & Htb & rest & -> & Hrest); [done|lia| |].
    { intros [H1 H2%Z.leb_le]%andb_true_iff. specialize (Hf H1). lia. }
    set (text := take (Z.to_nat (lk_max l)) ta).
    assert ((if (lk_max l <? Z.of_nat (length ta))%Z then length (encode text) else n - length rest)
            = length (encode text)) as ->.
    { destruct (Z.ltb_spec (lk_max l) (Z.of_nat (length ta))); [done|].
      unfold text. by rewrite take_ge by lia. }
    assert (ta = text ++ drop (Z.to_nat (lk_max l)) ta) as Eta by (symmetry; apply take_drop).
    assert (length (encode ta) = length (encode text) + length (encode (drop (Z.to_nat (lk_max l)) ta))) as Hlta
      by (by rewrite Eta at 1; rewrite encode_app, length_app).
    eexists (mkChunk _ _ _ _ _), (drop (Z.to_nat (lk_max l)) ta ++ tb). cbn [lc_text lc_next_offset].
    rewrite encode_app, length_app. fold o. split_and!; [reflexivity| |lia|lia| |].
    + by rewrite (assoc_L (++)), <-Eta.
    + unfold text. rewrite length_take. lia.
    + intros Hne _ Hprog Htext. assert (ta = []) as ->.
      { unfold text in Htext. destruct ta; [done|]. destruct (Z.to_nat (lk_max l)) eqn:Em; [lia|done]. }
      destruct t2 as [|c t2]; [done|]. specialize (Htb c t2 (eq_sym Eab)). cbn [encode mbind list_bind length] in Htb.
      pose proof (utf8_char_length c). rewrite encode_cons, length_app in HLen. lia.
Qed.

(** A look that finds the whole log and may take something. *)
Definition complete_look (size : nat) (l : look) : bool :=
  bool_decide (lk_stat l = size ∧ (0 < lk_max l)%Z).

Lemma read_looks_ok L t1 t2 looks from :
  L = encode (t1 ++ t2) → scalars (t1 ++ t2) → length (encode t1) ≤ from → growing (length L) from looks →
  ∃ text rest, read_looks L (Z.of_nat (length (encode t1))) looks =
                 Ok (text, Z.of_nat (length (encode (t1 ++ text)))) ∧ t2 = text ++ rest ∧
               (length t2 ≤ length (List.filter (complete_look (length L)) looks) → rest = []).
Proof.
  revert t1 t2 from. induction looks as [|l looks IH]; intros t1 t2 from EL Ht Ho Hg.
  { exists [], t2. rewrite app_nil_r. split_and!; [done..|]. simpl. by destruct t2; [|simpl; lia]. }
  destruct Hg as (Hs & HL & Hf & Hg). pose proof (read_look_ok t1 t2 l) as Hl. cbv zeta in Hl. rewrite <-EL in Hl.
  destruct Hl as (chunk & t3 & Hr & -> & Hn & Hb & _ & Hp); [done|lia..|done|].
  rewrite (assoc_L (++)) in EL, Ht.
  destruct (IH (t1 ++ lc_text chunk) t3 (lk_open l)) as (text & rest & E & -> & Hrest); [done..|].
  exists (lc_text chunk ++ text), rest. cbn [read_looks]. rewrite Hr. cbn. rewrite Hn, E. cbn.
  rewrite (assoc_L (++) t1), (assoc_L (++) (lc_text chunk)). split_and!; [done..|]. intros Hlen. apply Hrest. clear Hrest IH E Hr.
  cbn [List.filter] in Hlen. rewrite <-(assoc_L (++)), (length_app (lc_text chunk)) in Hlen.
  destruct (complete_look (length L) l) eqn:Hc; [|lia]. apply bool_decide_eq_true in Hc as [Hc1 Hc2].
  cbn [length] in Hlen. destruct (decide (text ++ rest = [])) as [->|E0]; [cbn; lia|].
  assert (lc_text chunk ≠ []) as Hne by (apply Hp; [by destruct (lc_text chunk)|done|by left]).
  destruct (lc_text chunk); [done|]. cbn [length] in *. lia.
Qed.

(** C29. End to end: however the output of a command arrives and however the
    growing log is looked at, the pieces a reader gets are, put together, a
    beginning of the text the log keeps, which is the longest beginning of the
    decoded output that fits the limit; nothing is lost, repeated or cut inside a
    character, and the offset is where the pieces end.  Once the log is
    complete, as many looks as there are characters give all of it. *)
Theorem reader_gets_what_the_pump_kept max reads looks :
  let '(bs, eof) := delivered reads in
  let kept := fit (Z.to_nat max) (utf_8_decode replace eof bs).1 in
  let L := pm_log (_copy max [] reads) in
  growing (length L) 0 looks →
  ∃ text rest, read_looks L 0 looks = Ok (text, Z.of_nat (length (encode text))) ∧ kept = text ++ rest ∧
               (length kept ≤ length (List.filter (complete_look (length L)) looks) → rest = []).
Proof.
  pose proof (pump_keeps_what_fits max [] reads) as H. destruct (delivered reads) as [bs eof].
  destruct H as [-> _]. cbn [length app Z.of_nat]. rewrite Z.sub_0_r.
  apply (read_looks_ok _ [] _ looks 0); [done| |done]. apply fit_scalars, decode_scalars.
Qed.

(** "h" and the first byte of "é", then the rest of "é", a stray byte and "i":
    three bytes fit, and three looks read them. *)
Lemma reader_gets_what_the_pump_kept_witness :
  let reads := [Bytes [104; 195]%N; Bytes [169; 255; 105]%N] in
  let looks := [mkLook 0 2 9 false; mkLook 2 3 9 false; mkLook 3 3 9 true] in
  let L := pm_log (_copy 4 [] reads) in
  growing (length L) 0 looks ∧ read_looks L 0 looks = Ok ([104; 233]%N, 3%Z) ∧
  pm_truncated (_copy 4 [] reads) = true ∧
  ∃ text rest, read_looks L 0 looks = Ok (text, Z.of_nat (length (encode text))) ∧ [104; 233]%N = text ++ rest.
Proof.
  cbv zeta. split; [vm_compute; repeat split; lia|]. split; [vm_compute; reflexivity|].
  split; [vm_compute; reflexivity|].
  destruct (reader_gets_what_the_pump_kept 4 [Bytes [104; 195]%N; Bytes [169; 255; 105]%N]
    [mkLook 0 2 9 false; mkLook 2 3 9 false; mkLook 3 3 9 true]) as (text & rest & H1 & H2 & _).
  - vm_compute. repeat split; lia.
  - exists text, rest. split; [exact H1|]. rewrite <-H2. vm_compute. reflexivity.
Defined.
