(* ===== verification/JobCodec.v ===== *)
(** * The files of a job read back (src/unchain/jobs/store.py
    [_write_json_atomic], [_read_json])

    What a method writes is what a later one reads: the document of a file, with
    its keys in order. *)

From S2P Require Import Prelude PyVal Json Models JournalPayload JournalSnapshot RequestLease ResourceLimits JsonParse Utf8Stream JobStore.

(** ** The text of a document *)

Lemma reads_back_finite f : reads_back f → is_finite f = true.
Proof. intros [H _]. by destruct f as [|[]| |]. Qed.

(** Without non-finite floats, the two serialisers agree. *)
Lemma dumps_named_printable v : printable v → dumps_named v = dumps v.
Proof.
  induction v as [| | |f| |l IH|d IH|] using pyval_nested_ind; intros Hv; try done.
  - inversion_clear Hv as [| | |? Hf| | |]. apply reads_back_finite in Hf. simpl. rewrite Hf. by destruct f.
  - apply printable_list_inv in Hv. cbn [dumps_named dumps]. f_equal.
    induction IH as [|x l Hx _ IHl]; [done|]. apply Forall_cons in Hv as [? ?]. by rewrite Hx, IHl.
  - apply printable_dict_inv in Hv as [_ Hv]. cbn [dumps_named dumps]. f_equal.
    induction IH as [|[k x] d Hx _ IHd]; [done|]. apply Forall_cons in Hv as [[_ ?] ?]. cbn [snd] in *.
    by rewrite Hx, IHd.
Qed.

(** ** Documents *)

Abbreviation printable_doc d := (printable (VDict d)).

(** The items in key order. *)
Definition canon_dict (d : pydict) : pydict :=
  (λ p, (KStr p.1, p.2)) <$> merge_sort item_le ((λ kv, (key_str kv.1, canon kv.2)) <$> d).

Lemma elem_canon_dict d k v : (KStr k, v) ∈ canon_dict d ↔ ∃ kv, kv ∈ d ∧ k = key_str kv.1 ∧ v = canon kv.2.
Proof.
  unfold canon_dict. rewrite list_elem_of_fmap. setoid_rewrite merge_sort_Permutation.
  setoid_rewrite list_elem_of_fmap. split.
  - intros (p & [= -> ->] & kv & -> & Hkv). by exists kv.
  - intros (kv & Hkv & -> & ->). exists (key_str kv.1, canon kv.2). eauto.
Qed.

Lemma canon_dict_keys d :
  printable_doc d → keys (canon_dict d) ≡ₚ keys d.
Proof.
  intros [_ Hd]%printable_dict_inv. unfold canon_dict, keys. rewrite <-list_fmap_compose.
  rewrite merge_sort_Permutation, <-list_fmap_compose. apply reflexive_eq, list_fmap_ext.
  intros i [k v] Hk%list_elem_of_lookup_2. rewrite Forall_forall in Hd. destruct (Hd _ Hk) as [(s & E & _) _].
  cbn in *. by subst k.
Qed.

Lemma printable_canon v : printable v → printable (canon v).
Proof.
  induction v as [| | |f| |l IH|d IH|] using pyval_nested_ind; intros Hv; try done.
  - apply printable_list_inv in Hv. cbn [canon]. constructor.
    induction IH as [|x l Hx _ IHl]; [constructor|]. apply Forall_cons in Hv as [? ?]. constructor; auto.
  - pose proof (printable_dict_inv _ Hv) as [Hnd Hd]. cbn [canon]. fold (canon_dict d). constructor.
    + by rewrite (canon_dict_keys d Hv).
    + apply Forall_forall. intros [k v] Hkv.
      assert (∃ s, k = KStr s) as [s ->] by (by apply list_elem_of_fmap in Hkv as ([s w] & [= -> ->] & _); eauto).
      apply elem_canon_dict in Hkv as ([k' v'] & Hin & -> & ->). rewrite Forall_forall in Hd, IH.
      destruct (Hd _ Hin) as [(s' & Hs' & Hc) Hp]. cbn [fst snd] in *. subst k'. split; [by exists s'|by apply (IH _ Hin)].
Qed.

Lemma get_canon_dict d k : printable_doc d → get (canon_dict d) k = canon (get d k).
Proof.
  intros Hd. pose proof (printable_dict_inv _ Hd) as [Hnd _]. unfold get.
  assert (dict_get (canon_dict d) (KStr (u k)) = canon <$> dict_get d (KStr (u k))) as ->; [|by destruct (dict_get d _)].
  destruct (dict_get d (KStr (u k))) as [v|] eqn:E.
  - apply dict_get_Some_elem in E. apply elem_dict_get; [by rewrite canon_dict_keys|].
    apply elem_canon_dict. by exists (KStr (u k), v).
  - apply dict_get_None in E. apply dict_get_None. by rewrite canon_dict_keys.
Qed.

Lemma has_key_canon_dict d k : printable_doc d → has_key (canon_dict d) k = has_key d k.
Proof.
  intros Hd. unfold has_key.
  destruct (dict_get (canon_dict d) _) eqn:E, (dict_get d (KStr (u k))) eqn:E'; try done.
  - apply dict_get_None in E'. apply dict_get_Some_elem, (list_elem_of_fmap_2 fst) in E.
    fold (keys (canon_dict d)) in E. by rewrite canon_dict_keys in E.
  - apply dict_get_None in E. rewrite canon_dict_keys in E by done.
    by apply dict_get_Some_elem, (list_elem_of_fmap_2 fst) in E'.
Qed.

(** A document that was written is read back. *)
Lemma parse_file d bs : printable_doc d → file_bytes d = Ok bs → parse_json (Some bs) = Ok (canon_dict d).
Proof.
  intros Hd H. unfold file_bytes, _canonical_json, encode_utf8 in H. rewrite dumps_named_printable in H by done.
  destruct (dumps (VDict d)) as [t|] eqn:Et; [|done]. cbn in H.
  destruct (utf8 (t ++ [10%N])) as [bs'|] eqn:Eb; [|done]. injection H as ->.
  unfold parse_json, decode_json.
  assert (code_points (t ++ [10%N])) as Hc.
  { apply code_points_app. split; [by eapply code_points_dumps|]. apply code_points_ascii. by repeat constructor. }
  rewrite (utf8_decode_encode _ bs Hc Eb). cbn. destruct (dumps_scans _ Hd t Et) as [Hh Hs]. unfold loads. rewrite skip_ws_head by done.
  rewrite Hs; [done|rewrite length_app; lia|by left].
Qed.

(** ** Updating documents *)

Lemma get_dict_set d k k' v :
  get (dict_set d (KStr (u k)) v) k' = if decide (u k = u k') then v else get d k'.
Proof.
  unfold get. destruct (decide (u k = u k')) as [E|E]; [by rewrite E, dict_get_set_eq|].
  by rewrite dict_get_set_ne by congruence.
Qed.

Lemma printable_dict_set d k v : printable_doc d → code_points k → printable v → printable_doc (dict_set d (KStr k) v).
Proof.
  intros [Hnd Hd]%printable_dict_inv Hk Hv. constructor; [by apply keys_dict_set_NoDup|].
  clear Hnd. induction Hd as [|[k' v'] d H Ht IH]; simpl; [constructor; [split; [by exists k|done]|constructor]|].
  destruct (decide (k' = KStr k)); (constructor; [|done]); [|done]. split; [apply H|done].
Qed.

Lemma dict_get_merged d e k : k ∉ keys e → dict_get (merged d e) k = dict_get d k.
Proof.
  unfold merged. revert d. induction e as [|[k' v] e IH]; intros d Hk; [done|]. cbn in Hk. cbn [foldl].
  rewrite IH by set_solver. apply dict_get_set_ne. set_solver.
Qed.

Lemma get_merged_ne d e k : KStr (u k) ∉ keys e → get (merged d e) k = get d k.
Proof. intros. unfold get. by rewrite dict_get_merged. Qed.

Lemma merged_field d name v e : merged d (field name v :: e) = merged (dict_set d (KStr (u name)) v) e.
Proof. done. Qed.
Lemma merged_nil d : merged d [] = d.
Proof. done. Qed.

(** The value of a key of an updated document. *)
Ltac get_simpl :=
  rewrite ?merged_field, ?merged_nil;
  repeat (rewrite get_dict_set; first [rewrite decide_True by done|rewrite decide_False by done]).

(** A key and a value that can be stored. *)
Definition storable_item (kv : pykey * pyval) : Prop := (∃ k, kv.1 = KStr k ∧ code_points k) ∧ printable kv.2.

Lemma printable_merged d e : printable_doc d → Forall storable_item e → printable_doc (merged d e).
Proof.
  intros Hd He. revert d Hd. induction He as [|[k v] e [(s & Hs & Hc) Hv] _ IH]; intros d Hd; [done|].
  cbn [fst snd] in *. subst k. apply IH. by apply printable_dict_set.
Qed.

Lemma storable_field name v : printable v → storable_item (field name v).
Proof. apply printable_key. Qed.

(** A document made of fields. *)
Ltac printable_fields :=
  constructor; [apply (bool_decide_unpack (NoDup _)); vm_compute; exact I|];
  repeat (apply Forall_cons; split; [apply storable_field|]); try apply Forall_nil; try done.

Lemma hex_code_points n s : hex_text n s = true → code_points s.
Proof.
  unfold hex_text. intros [H _]%andb_true_iff. apply code_points_ascii. apply Forall_forall. intros c Hc.
  rewrite forallb_forall in H. specialize (H c). rewrite <-list_elem_of_In in H. specialize (H Hc).
  unfold is_digit, in_range in H. apply orb_true_iff in H as [H|H];
    apply andb_true_iff in H as [H1%N.leb_le H2%N.leb_le]; lia.
Qed.

(** ** Texts *)

Lemma code_points_elem s t : (∀ c, c ∈ t → c ∈ s) → code_points s → code_points t.
Proof. intros H Hs. apply Forall_forall. intros c Hc%H. unfold code_points in Hs. by rewrite Forall_forall in Hs; apply Hs. Qed.

Lemma elem_lstrip c s : c ∈ lstrip s → c ∈ s.
Proof.
  induction s as [|a s IH]; [done|]. cbn [lstrip]. case_match; [|done]. intros Hin. right. by apply IH.
Qed.

Lemma code_points_strip s : code_points s → code_points (strip s).
Proof.
  apply code_points_elem. intros c. unfold strip, rstrip. rewrite elem_of_reverse. intros H%elem_lstrip.
  rewrite elem_of_reverse in H. by apply elem_lstrip.
Qed.

Lemma code_points_split sep s : code_points s → Forall code_points (split_on sep s).
Proof.
  induction 1 as [|c s Hc Hs IH]; [by repeat constructor|]. cbn [split_on]. case_match; [by constructor; [constructor|]|].
  destruct (split_on sep s); [by repeat constructor|]. apply Forall_cons in IH as [? ?]. by repeat constructor.
Qed.

Lemma code_points_join_sep sep l : code_points sep → Forall code_points l → code_points (join sep l).
Proof.
  intros Hsep Hl. induction Hl as [|x l Hx Hl IH]; [constructor|]. destruct l as [|y l]; [done|].
  rewrite join_cons. by rewrite !code_points_app.
Qed.

Lemma code_points_path s : code_points s → code_points (path_str s).
Proof.
  intros Hs. unfold path_str. set (t := path_root s ++ _).
  assert (code_points t) as Ht; [|destruct t; [apply code_points_u|done]].
  apply code_points_app. split; [unfold path_root; repeat case_match; try apply code_points_u; constructor|].
  apply code_points_join_sep; [apply code_points_u|]. apply Forall_forall. intros p Hp%list_elem_of_In.
  apply filter_In in Hp as [Hp _]. apply list_elem_of_In in Hp.
  pose proof (code_points_split 47 s Hs) as H. rewrite Forall_forall in H. by apply H.
Qed.

Lemma code_points_sha t : _SHA256_RE t = true → code_points t.
Proof. apply (hex_code_points 64). Qed.

Lemma code_points_hexdigest bs : code_points (sha256_hex bs).
Proof. apply code_points_sha, sha256_hex_digest. Qed.

Lemma code_points_job_id t : _JOB_ID_RE t = true → code_points t.
Proof.
  unfold _JOB_ID_RE. intros [H1%bool_decide_eq_true H2]%andb_true_iff. rewrite <-(take_drop 4 t), H1.
  apply code_points_app. split; [apply code_points_u|by eapply hex_code_points].
Qed.
