(* ===== verification/JobSafety.v ===== *)
(** * Histories of a job store (src/unchain/jobs/store.py)

    Whatever methods run, in any order and with crashes between any two changes
    of files, a launch specification never changes, a status follows the allowed
    transitions with a growing revision, logs only grow, and the claim of a job
    that has left [queued] is frozen. *)

From S2P Require Import Prelude PyVal Json Models JournalPayload RequestLease ResourceLimits JsonParse Utf8Stream JobStore JobCodec.

(** ** Transitions *)

(** One allowed transition after the other. *)
Definition follows : relation pystr := rtc (λ a b, b ∈ allowed_transitions a).

Lemma follows_terminal a b : a ∈ TERMINAL_JOB_STATUSES → follows a b → b = a.
Proof.
  intros Ha Hb. inversion Hb as [|? c ? Hc]; subst; [done|]. exfalso.
  unfold TERMINAL_JOB_STATUSES in Ha. rewrite !elem_of_cons, elem_of_nil in Ha.
  destruct Ha as [->|[->|[->|[->|[->|[]]]]]]; by apply elem_of_nil in Hc.
Qed.

Lemma queued_is_first a : u "queued" ∈ allowed_transitions a → a = u "queued".
Proof.
  unfold allowed_transitions. repeat case_bool_decide; try done; intros Hin;
    rewrite ?elem_of_cons, ?elem_of_nil in Hin; destruct_or? Hin; done.
Qed.

(** Nothing returns to [queued]. *)
Lemma follows_queued a b : follows a b → b = u "queued" → a = u "queued".
Proof. induction 1 as [|a c b Hac _ IH]; [done|]. intros Hb. specialize (IH Hb). subst c. by apply queued_is_first. Qed.

Lemma validate_transition_follows a b x : _validate_transition a b = Ok x → follows a b.
Proof.
  unfold _validate_transition, ensure. repeat case_bool_decide; intros Hok; simplify_eq; [done|].
  by apply rtc_once.
Qed.

Definition status_of (d : pydict) : pystr := text_of (get d "status").
Definition revision_of (d : pydict) : Z := int_of (get d "revision").

(** What may become of a state. *)
Record state_step (d d' : pydict) : Prop := {
  ss_status : follows (status_of d) (status_of d');
  ss_revision : d' = d ∨ (revision_of d < revision_of d')%Z;
  ss_token : get d' "worker_token" = get d "worker_token";
  ss_created : get d' "created_at_ms" = get d "created_at_ms";
}.

#[export] Instance state_step_preorder : PreOrder state_step.
Proof.
  split; [intros d; by split; try left|]. intros d1 d2 d3 [] []. split; try congruence; [by etrans|].
  destruct ss_revision0 as [->|?], ss_revision1 as [->|?]; auto. right. lia.
Qed.

(** ** Stores *)

Definition json_files : list string :=
  ["spec.json"; "state.json"; "cursor.json"; "worker-claim.json"; "heartbeat.json"; "cancel-request.json"].
Definition log_files : list string := ["stdout.log"; "stderr.log"].

Create HintDb jobs discriminated.

Section safety.
Context (store_id : pystr).

Abbreviation file := (file_of store_id).

(** The document of a file. *)
Definition doc (s : Jobs) (job_id : pystr) (name : string) : option pydict :=
  match parse_json (file s job_id name) with Ok d => Some d | Err _ => None end.

(** Every file of a store holds a document, and [uuid4().hex] is 32 hex digits. *)
Record sound (s : Jobs) : Prop := {
  so_docs job name bs : name ∈ json_files → file s job name = Some bs →
                        ∃ d, parse_json (Some bs) = Ok d ∧ printable_doc d;
  so_uuids n : hex_text 32 (j_uuids s n) = true;
}.

(** What may become of a store. *)
Record evolves (s s' : Jobs) : Prop := {
  ev_spec job bs : file s job "spec.json" = Some bs → file s' job "spec.json" = Some bs;
  ev_state job d : doc s job "state.json" = Some d →
                   ∃ d', doc s' job "state.json" = Some d' ∧ state_step d d';
  ev_claim job d : doc s job "state.json" = Some d → status_of d ≠ u "queued" →
                   file s' job "worker-claim.json" = file s job "worker-claim.json";
  ev_log job name bs : name ∈ log_files → file s job name = Some bs →
                       ∃ more, file s' job name = Some (bs ++ more);
  ev_cancel job : is_Some (file s job "cancel-request.json") → is_Some (file s' job "cancel-request.json");
}.

#[export] Instance evolves_preorder : PreOrder evolves.
Proof.
  split.
  - intros s. split; [done| |done| |done].
    + intros job d Hd. exists d. by split.
    + intros job name bs _ Hl. exists []. by rewrite app_nil_r.
  - intros s1 s2 s3 [A1 A2 A3 A4 A5] [B1 B2 B3 B4 B5]. split; [by eauto|..|by eauto].
    + intros job d (d2 & H2 & ?)%A2. destruct (B2 _ _ H2) as (d3 & ? & ?). exists d3. split; [done|by etrans].
    + intros job d Hd Hs. destruct (A2 _ _ Hd) as (d2 & H2 & Hstep). rewrite <-(A3 _ _ Hd Hs). apply (B3 _ d2); [done|].
      intros Hq. destruct Hs. eapply follows_queued; [apply Hstep|done].
    + intros job name bs Hn (m1 & H1)%A4; [|done]. destruct (B4 _ _ _ Hn H1) as (m2 & H2). exists (m1 ++ m2).
      by rewrite (assoc_L (++)).
Qed.

(** The files are the same. *)
Definition same (s s' : Jobs) : Prop := ∀ job name, file s' job name = file s job name.

Lemma same_doc s s' job name : same s s' → doc s' job name = doc s job name.
Proof. intros H. unfold doc. by rewrite H. Qed.

Lemma same_evolves s s' : same s s' → evolves s s'.
Proof.
  intros H. split.
  - intros job bs. by rewrite H.
  - intros job d Hd. exists d. rewrite (same_doc s s'); [|done]. split; [done|reflexivity].
  - by intros.
  - intros job name bs _ Hl. exists []. by rewrite H, app_nil_r.
  - intros job. by rewrite H.
Qed.

Lemma same_sound s s' : same s s' → (∀ n, hex_text 32 (j_uuids s' n) = true) → sound s → sound s'.
Proof. intros H Hu [Hd _]. split; [|done]. intros job name bs Hn. rewrite H. by apply Hd. Qed.

(** ** Methods keep the store *)

(** A run leaves a sound store that has evolved. *)
Definition good {A} (m : M Jobs pyexn A) (s : Jobs) : Prop := sound (m s).2 ∧ evolves s (m s).2.

Definition keeps {A} (m : M Jobs pyexn A) : Prop := ∀ s, sound s → good m s.

Lemma good_seq {A B} (m : M Jobs pyexn A) (f : A → M Jobs pyexn B) s :
  good m s → (∀ a, (m s).1 = Ok a → sound (m s).2 → good (f a) (m s).2) → good (m ≫= f) s.
Proof.
  intros [Hs He] Hf. unfold good. cbv [mbind M_bind]. destruct (m s) as [[a|e] s1]; [|done]. cbn [fst snd] in *.
  destruct (Hf a eq_refl Hs) as [? ?]. split; [done|by etrans].
Qed.

Lemma good_done {A} (m : M Jobs pyexn A) s : (m s).2 = s → sound s → good m s.
Proof. intros E Hs. unfold good. rewrite E. by split. Qed.

(** A method that changes nothing. *)
Definition pure {A} (m : M Jobs pyexn A) : Prop := ∀ s, (m s).2 = s.

Lemma good_pure {A B} (m : M Jobs pyexn A) (f : A → M Jobs pyexn B) s :
  pure m → sound s → (∀ a, m s = (Ok a, s) → good (f a) s) → good (m ≫= f) s.
Proof.
  intros Hp Hs Hf. apply good_seq; [by apply good_done|]. intros a Ha _. rewrite Hp. apply Hf.
  specialize (Hp s). destruct (m s) as [r s1]. cbn in *. by subst.
Qed.

Lemma pure_bind {A B} (m : M Jobs pyexn A) (f : A → M Jobs pyexn B) : pure m → (∀ a, pure (f a)) → pure (m ≫= f).
Proof.
  intros Hm Hf s. specialize (Hm s). cbv [mbind M_bind]. destruct (m s) as [[a|e] s1]; cbn in *; subst; [apply Hf|done].
Qed.
Lemma pure_ret {A} (a : A) : pure (mret a : M Jobs pyexn A).
Proof. done. Qed.
Lemma pure_raise {A} e : pure (raise e : M Jobs pyexn A).
Proof. done. Qed.
Lemma pure_gets {A} (f : Jobs → A) : pure (gets f).
Proof. done. Qed.
Lemma pure_lift {A} (r : R A) : pure (lift r).
Proof. done. Qed.
Lemma pure_try {A} (m : M Jobs pyexn A) h : pure m → (∀ e, pure (h e)) → pure (try_except m h).
Proof.
  intros Hm Hh s. specialize (Hm s). unfold try_except. destruct (m s) as [[a|e] s1]; cbn in *; subst; [done|apply Hh].
Qed.

(** Follow the structure of a method that only reads. *)
Ltac pure :=
  repeat first
    [ apply pure_ret | apply pure_raise | apply pure_gets | apply pure_lift
    | apply pure_bind; [|intros ?] | apply pure_try; [|intros ?]
    | match goal with |- pure (match ?x with _ => _ end) => destruct x end ].

Lemma pure_read_json job name : pure (_read_json store_id job name).
Proof. unfold _read_json. pure. Qed.
Lemma pure_read_optional job name : pure (_read_optional_json store_id job name).
Proof. unfold _read_optional_json. pure. Qed.
Lemma pure_identity : pure (_assert_store_identity store_id).
Proof. unfold _assert_store_identity, _read_store_manifest. pure. Qed.
Lemma pure_paths job : pure (_paths store_id job).
Proof. unfold _paths. apply pure_bind; [apply pure_identity|intros ?; pure]. Qed.
Lemma pure_read_spec job : pure (_read_spec store_id job).
Proof. unfold _read_spec. apply pure_bind; [apply pure_read_json|intros ?; pure]. Qed.
Lemma pure_read_state job : pure (_read_state store_id job).
Proof. unfold _read_state. apply pure_bind; [apply pure_read_json|intros ?; pure]. Qed.
Lemma pure_read_cursor job : pure (_read_cursor store_id job).
Proof. unfold _read_cursor. apply pure_bind; [apply pure_read_json|intros ?; pure]. Qed.
Lemma pure_exists job name : pure (exists_file store_id job name).
Proof. apply pure_gets. Qed.
Lemma pure_any_artifact job : pure (any_artifact store_id job).
Proof. apply pure_gets. Qed.
Lemma pure_expected_claim job c : pure (expected_claim_holds store_id job c).
Proof. unfold expected_claim_holds. destruct c; [|pure]. apply pure_bind; [apply pure_read_optional|intros ?; pure]. Qed.
Lemma pure_expected_heartbeat job spec state c a b : pure (expected_heartbeat_holds store_id job spec state c a b).
Proof.
  unfold expected_heartbeat_holds. case_match; [pure|]. apply pure_bind; [apply pure_read_optional|intros ?; pure].
Qed.

#[local] Hint Resolve pure_read_json pure_read_optional pure_identity pure_paths pure_read_spec pure_read_state
  pure_read_cursor pure_exists pure_any_artifact pure_expected_claim pure_expected_heartbeat pure_ret pure_raise
  pure_gets pure_lift : jobs.

(** *** What reading says *)

Lemma read_json_ok s job name d s' : _read_json store_id job name s = (Ok d, s') → doc s job name = Some d.
Proof. unfold _read_json, doc. cbn. intros [= E _]. by rewrite E. Qed.

Lemma read_spec_ok s job d s' :
  _read_spec store_id job s = (Ok d, s') → doc s job "spec.json" = Some d ∧ validate_spec store_id job d = Ok tt.
Proof.
  unfold _read_spec. intros (raw & s1 & Hr & (x & s2 & Hv & [= -> _])%M_bind_ok)%M_bind_ok.
  apply read_json_ok in Hr as Hd. split; [done|]. injection Hv as Hv _. by destruct x.
Qed.

Lemma read_state_ok s job d s' :
  _read_state store_id job s = (Ok d, s') → doc s job "state.json" = Some d ∧ _validate_state job d = Ok tt.
Proof.
  unfold _read_state. intros (raw & s1 & Hr & (x & s2 & Hv & [= -> _])%M_bind_ok)%M_bind_ok.
  apply read_json_ok in Hr as Hd. split; [done|]. injection Hv as Hv _. by destruct x.
Qed.

Lemma sound_doc s job name d : sound s → name ∈ json_files → doc s job name = Some d → printable_doc d.
Proof.
  intros Hs Hn. unfold doc. destruct (file s job name) as [bs|] eqn:E; [|done].
  destruct (so_docs s Hs _ _ _ Hn E) as (d' & -> & ?). by intros [= <-].
Qed.

(** Turn a check that passed into its tests. *)
Ltac checks H :=
  repeat match type of H with
  | (_ ≫= _) = Ok _ => let x := fresh "x" in let Hx := fresh "Hx" in
      apply result_bind_ok in H as (x & Hx & H); try (apply ensure_ok in Hx)
  end; try (apply ensure_ok in H).

Record valid_state (d : pydict) : Prop := {
  vs_status : ∃ t, get d "status" = VStr t ∧ t ∈ JOB_STATUSES;
  vs_revision : ∃ z, get d "revision" = VInt z ∧ (0 ≤ z)%Z;
  vs_created : ∃ z, get d "created_at_ms" = VInt z ∧ (0 ≤ z)%Z;
  vs_token : ∃ t, get d "worker_token" = VStr t;
}.

Lemma int_at_least_ok n v : int_at_least n v = true → ∃ z, v = VInt z ∧ (n ≤ z)%Z.
Proof. destruct v; try done. cbn. intros ?%Z.leb_le. eauto. Qed.

Lemma validate_state_ok job d : _validate_state job d = Ok tt → valid_state d.
Proof.
  unfold _validate_state, corrupt. intros H. checks H.
  match goal with H : in_set _ _ = Ok _ |- _ => rename H into Hset end.
  repeat match goal with H : forallb _ _ = true |- _ => cbn [forallb] in H end. bsimpl.
  split; eauto using int_at_least_ok.
  - destruct (get d "status"); cbn in Hset; simplify_eq. bsimpl. eauto.
  - destruct (get d "worker_token"); eauto; done.
Qed.

(** *** What writing does *)

Lemma dir_put s job job' d : dir_of store_id (put_dir store_id job d s) job' =
  if decide (job = job') then Some d else dir_of store_id s job'.
Proof.
  unfold dir_of, put_dir, with_stores. cbn [j_stores]. rewrite lookup_insert_eq. cbn.
  destruct (decide (job = job')) as [->|Hne]; [by rewrite lookup_insert_eq|].
  rewrite lookup_insert_ne by done. by destruct (j_stores s !! store_id).
Qed.

Lemma file_put s job job' name d : file (put_dir store_id job d s) job' name =
  if decide (job = job') then d !! name else file s job' name.
Proof. unfold file_of. rewrite dir_put. by case_decide. Qed.

(** The store after a change of one file. *)
Definition changed (s : Jobs) (job : pystr) (name : string) (o : option (list N)) (s' : Jobs) : Prop :=
  ∀ job' name', file s' job' name' = if decide (job' = job ∧ name' = name) then o else file s job' name'.

Lemma changed_insert s job name bs :
  changed s job name (Some bs) (put_dir store_id job (<[name := bs]> (default ∅ (dir_of store_id s job))) s).
Proof.
  intros job' name'. rewrite file_put. destruct (decide (job = job')) as [<-|Hj]; [|by rewrite decide_False by naive_solver].
  destruct (decide (name' = name)) as [->|Hn]; [by rewrite lookup_insert_eq, decide_True|].
  rewrite lookup_insert_ne, decide_False by naive_solver. unfold file_of. by destruct (dir_of store_id s job).
Qed.

Lemma changed_delete s job name :
  changed s job name None (put_dir store_id job (delete name (default ∅ (dir_of store_id s job))) s).
Proof.
  intros job' name'. rewrite file_put. destruct (decide (job = job')) as [<-|Hj]; [|by rewrite decide_False by naive_solver].
  destruct (decide (name' = name)) as [->|Hn]; [by rewrite lookup_delete_eq, decide_True|].
  rewrite lookup_delete_ne, decide_False by naive_solver. unfold file_of. by destruct (dir_of store_id s job).
Qed.

(** A change of a file that the rules of the store allow. *)
Record may_write (s : Jobs) (job : pystr) (name : string) (d : pydict) : Prop := {
  mw_spec : name = "spec.json" → file s job name = None;
  mw_state : name = "state.json" → ∀ d0, doc s job name = Some d0 → state_step d0 d;
  mw_claim : name = "worker-claim.json" → ∀ d0, doc s job "state.json" = Some d0 → status_of d0 = u "queued";
}.

Lemma changed_evolves s s' job name bs d :
  changed s job name (Some bs) s' → name ∈ json_files → parse_json (Some bs) = Ok d → may_write s job name d →
  evolves s s'.
Proof.
  intros Hc Hn Hp [H1 H2 H3].
  assert (∀ job' name', (job' = job ∧ name' = name → False) → file s' job' name' = file s job' name') as Hother.
  { intros job' name' Hne. by rewrite Hc, decide_False. }
  split.
  - intros job' b Hb. rewrite Hother; [done|]. intros [-> <-]. rewrite H1 in Hb; done.
  - intros job' d0 Hd. destruct (decide (job' = job ∧ "state.json" = name)) as [[-> <-]|Hne].
    + exists d. unfold doc. rewrite Hc, decide_True, Hp by done. split; [done|by apply H2].
    + exists d0. unfold doc in *. rewrite Hother by done. by split.
  - intros job' d0 Hd Hq. apply Hother. intros [-> <-]. by destruct Hq; eapply H3.
  - intros job' name' b Hl Hb. exists []. rewrite Hother, app_nil_r; [done|]. intros [_ ->].
    unfold json_files, log_files in *. set_solver.
  - intros job' Hb. rewrite Hc. case_decide; [done|exact Hb].
Qed.

Lemma changed_sound s s' job name bs d :
  changed s job name (Some bs) s' → parse_json (Some bs) = Ok d → printable_doc d →
  (∀ n, hex_text 32 (j_uuids s' n) = true) → sound s → sound s'.
Proof.
  intros Hc Hp Hd Hu [Hdocs _]. split; [|done]. intros job' name' b Hn. rewrite Hc.
  case_decide; [intros [= <-]; eauto|by apply Hdocs].
Qed.

(** Writing a document: it is there, or the call has failed and nothing has
    changed. *)
Lemma write_json_spec s job name d :
  sound s → name ∈ json_files → printable_doc d → may_write s job name (canon_dict d) →
  let '(r, s') := _write_json_atomic store_id job name d s in
  sound s' ∧ evolves s s' ∧
  match r with
  | Ok _ => ∃ bs, file_bytes d = Ok bs ∧ changed s job name (Some bs) s'
  | Err _ => s' = s
  end.
Proof.
  intros Hs Hn Hd Hw. unfold _write_json_atomic. cbv [mbind M_bind lift]. destruct (file_bytes d) as [bs|e] eqn:E; [|done].
  pose proof (parse_file d bs Hd E) as Hp. unfold write_file, mutate.
  pose proof (changed_insert s job name bs) as Hc. set (s1 := put_dir _ _ _ s) in *.
  assert (sound s1 ∧ evolves s s1) as [Hs1 He1].
  { split; [|by eapply changed_evolves]. eapply changed_sound; [done..| | |done]; [by apply printable_canon in Hd|].
    apply Hs. }
  destruct (j_writes s) as [[|n]|]; [done| |by eauto 6].
  split_and!; [by split; apply Hs1|by split; apply He1|eauto].
Qed.

Lemma good_json {A} s job name d (f : unit → M Jobs pyexn A) :
  sound s → name ∈ json_files → printable_doc d → may_write s job name (canon_dict d) →
  (∀ s1 bs, sound s1 → file_bytes d = Ok bs → changed s job name (Some bs) s1 → good (f tt) s1) →
  good (_write_json_atomic store_id job name d ≫= f) s.
Proof.
  intros Hs Hn Hd Hw Hf. pose proof (write_json_spec s job name d Hs Hn Hd Hw) as H.
  apply good_seq; unfold good; destruct (_write_json_atomic store_id job name d s) as [r s1]; cbn [fst snd] in *.
  - naive_solver.
  - intros [] -> Hs1. destruct H as (_ & _ & bs & Hb & Hc). by eapply Hf.
Qed.

Lemma good_json_last s job name d :
  sound s → name ∈ json_files → printable_doc d → may_write s job name (canon_dict d) →
  good (_write_json_atomic store_id job name d) s.
Proof.
  intros Hs Hn Hd Hw. pose proof (write_json_spec s job name d Hs Hn Hd Hw) as H. unfold good.
  destruct (_write_json_atomic store_id job name d s) as [r s1]. naive_solver.
Qed.

Lemma good_clock {A} s (f : Z → M Jobs pyexn A) :
  sound s → (∀ z s1, sound s1 → same s s1 → good (f z) s1) → good (now_ms ≫= f) s.
Proof.
  intros Hs Hf. set (s1 := (now_ms s).2).
  assert (same s s1 ∧ sound s1) as [Hsame Hs1].
  { unfold s1, now_ms. repeat case_match; (split; [done|]); (apply (same_sound s); [done|apply Hs|done]). }
  apply good_seq; [by split; [|apply same_evolves]|]. intros z _ _. by apply Hf.
Qed.

Lemma good_uuid {A} s (f : pystr → M Jobs pyexn A) :
  sound s → (∀ t s1, sound s1 → same s s1 → hex_text 32 t = true → good (f t) s1) → good (uuid4_hex ≫= f) s.
Proof.
  intros Hs Hf. set (s1 := (uuid4_hex s).2).
  assert (same s s1 ∧ sound s1) as [Hsame Hs1].
  { unfold s1, uuid4_hex. split; [done|]. apply (same_sound s); [done| |done]. intros n. apply Hs. }
  apply good_seq; [by split; [|apply same_evolves]|]. intros t [= <-] _. apply Hf; [done..|]. apply Hs.
Qed.

(** Taking the lock makes at most the directory. *)
Lemma good_lock {A} s job (m : M Jobs pyexn A) :
  sound s → (∀ s1, sound s1 → same s s1 → good m s1) → good (_exclusive_lock store_id job m) s.
Proof.
  intros Hs Hm. unfold _exclusive_lock.
  assert (same s (put_dir store_id job ∅ s) ∨ is_Some (dir_of store_id s job)) as Hdir.
  { destruct (dir_of store_id s job) eqn:E; [by right|left]. intros job' name. rewrite file_put.
    case_decide as Hj; [|done]. subst. unfold file_of. by rewrite E. }
  cbv [mbind M_bind gets]. unfold good. cbn.
  destruct (dir_of store_id s job) eqn:E; cbn; [by apply Hm|]. destruct Hdir as [Hdir|[? ?]]; [|done].
  set (s0 := put_dir store_id job ∅ s) in *.
  assert (∀ w, same s (with_writes w s0) ∧ sound (with_writes w s0)) as Hw.
  { intros w. split; [done|]. by apply (same_sound s); [|apply Hs|]. }
  assert (same s s0 ∧ sound s0) as [Hs0 Hss0] by (split; [done|]; by apply (same_sound s); [|apply Hs|]).
  unfold mutate. destruct (j_writes s) as [[|n]|]; cbn; [by split| |].
  - destruct (Hm (with_writes (Some n) s0)) as [? ?]; [apply Hw..|]. split; [done|].
    etrans; [apply same_evolves, (Hw (Some n))|done].
  - destruct (Hm s0) as [? ?]; [done..|]. split; [done|]. etrans; [by apply same_evolves|done].
Qed.

(** ** The methods *)

Lemma lift_ok {A} (r : R A) (s s' : Jobs) a : lift r s = (Ok a, s') → r = Ok a.
Proof. by intros [= ->]. Qed.

(** The next read of a method. *)
Ltac read x H := apply good_pure; [solve [auto with jobs]|assumption|intros x H; cbv beta iota].
(** The next check of a method. *)
Ltac check H := let x := fresh "x" in read x H; apply lift_ok in H; try destruct x.
(** A test of a method. *)
Ltac branch := lazymatch goal with |- good (if ?b then _ else _) _ => let E := fresh "E" in destruct b eqn:E end.
(** The end of a method. *)
Ltac finish := apply good_done; [done|assumption].

(** A new state that continues the old one. *)
Lemma next_state_step d n t :
  valid_state d → printable_doc n → follows (status_of d) t → get n "status" = VStr t →
  get n "revision" = VInt (revision_of d + 1) → get n "worker_token" = get d "worker_token" →
  get n "created_at_ms" = get d "created_at_ms" → state_step d (canon_dict n).
Proof.
  intros [_ (z & Hz & _) (c & Hc & _) (w & Hw)] Hn Hf Hst Hr Ht Hcr.
  unfold status_of, revision_of in *. split.
  - unfold status_of. by rewrite get_canon_dict, Hst.
  - right. unfold revision_of. rewrite get_canon_dict, Hr by done. cbn. rewrite Hz. cbn. lia.
  - rewrite get_canon_dict, Ht, Hw by done. done.
  - rewrite get_canon_dict, Hcr, Hc by done. done.
Qed.

Lemma may_write_state s s1 job d n t :
  doc s job "state.json" = Some d → same s s1 → _validate_state job d = Ok tt →
  printable_doc n → follows (status_of d) t → get n "status" = VStr t →
  get n "revision" = VInt (revision_of d + 1) → get n "worker_token" = get d "worker_token" →
  get n "created_at_ms" = get d "created_at_ms" → may_write s1 job "state.json" (canon_dict n).
Proof.
  intros Hd Hsame Hv%validate_state_ok Hn Hf Hst Hr Ht Hc. split; [done| |done].
  intros _ d0. rewrite (same_doc s s1), Hd by done. intros [= <-]. by eapply next_state_step.
Qed.

Lemma allowed_updates_storable updates :
  forallb (λ k, bool_decide (k ∈ (λ f, KStr (u f)) <$> allowed_updates)) (keys updates) = true →
  Forall (λ kv, printable kv.2) updates → Forall storable_item updates.
Proof.
  intros Hk Hp. rewrite forallb_forall in Hk. rewrite Forall_forall in *. intros [k v] Hkv. split; [|by apply Hp].
  assert (k ∈ keys updates) as Hin by (by apply (list_elem_of_fmap_2 fst) in Hkv).
  apply list_elem_of_In, Hk, bool_decide_eq_true, list_elem_of_fmap in Hin as (f & -> & _).
  exists (u f). split; [done|apply code_points_u].
Qed.

Lemma get_merged_updates d updates k :
  forallb (λ k, bool_decide (k ∈ (λ f, KStr (u f)) <$> allowed_updates)) (keys updates) = true →
  bool_decide (u k ∈ u <$> allowed_updates) = false → get (merged d updates) k = get d k.
Proof.
  intros Hk Hn%bool_decide_eq_false. apply get_merged_ne. intros Hin. destruct Hn. rewrite forallb_forall in Hk.
  apply list_elem_of_In, Hk, bool_decide_eq_true, list_elem_of_fmap in Hin as (f & [= ->] & Hf).
  by apply list_elem_of_fmap_2.
Qed.

Lemma status_code_points t : t ∈ JOB_STATUSES → code_points t.
Proof.
  unfold JOB_STATUSES, TERMINAL_JOB_STATUSES. cbn [app]. rewrite !elem_of_cons, elem_of_nil. intros H.
  destruct_or? H; subst; try done; apply code_points_u.
Qed.

Lemma next_state_printable job d updates next now :
  printable_doc d →
  forallb (λ k, bool_decide (k ∈ (λ f, KStr (u f)) <$> allowed_updates)) (keys updates) = true →
  Forall (λ kv, printable kv.2) updates →
  let n := merged (merged d updates)
    [field "status" (VStr next); field "updated_at_ms" (VInt now);
     field "revision" (VInt (int_of (get d "revision") + 1))] in
  _validate_state job n = Ok tt → printable_doc n.
Proof.
  intros Hpd Hk Hup n Hv. apply printable_merged; [apply printable_merged; [done|by apply allowed_updates_storable]|].
  destruct (vs_status _ (validate_state_ok _ _ Hv)) as (t & Et & Hin). unfold n in Et.
  repeat (apply Forall_cons; split; [apply storable_field; try constructor|]); [|constructor].
  revert Et. get_simpl. intros [= ->]. by apply status_code_points.
Qed.

Lemma keeps_update_state job token status updates :
  Forall (λ kv, printable kv.2) updates → keeps (update_state store_id job token status updates).
Proof.
  intros Hup s Hs. unfold update_state. read x1 H1. apply good_lock; [done|]. intros s1 Hs1 _.
  read x2 H2. read spec Hspec. check H3. read d Hd. apply read_state_ok in Hd as [Hd Hv]. check H4.
  set (next := match status with Some _ => _ | None => _ end). check Ht.
  check Hk. apply ensure_ok in Hk. apply good_clock; [done|]. intros now s2 Hs2 Hsame. check H7.
  assert (printable_doc d) as Hpd by (by eapply sound_doc; [..|exact Hd]; [|right; left]).
  pose proof (next_state_printable job d updates next now Hpd Hk Hup H7) as Hpn.
  apply good_json; [done|right; left|done| |].
  - eapply (may_write_state s1 s2 job d _ next); [done..|by eapply validate_transition_follows| | | |].
    + by get_simpl.
    + by get_simpl.
    + get_simpl. by apply get_merged_updates.
    + get_simpl. by apply get_merged_updates.
  - intros s3 bs Hs3 _ _. finish.
Qed.

Lemma paths_ok s job x s' : _paths store_id job s = (Ok x, s') → _JOB_ID_RE job = true.
Proof.
  unfold _paths. intros (y & s1 & _ & H)%M_bind_ok. apply lift_ok in H. by apply ensure_ok in H.
Qed.

Lemma required_text_ok v t : _required_text v = Ok t → printable v → code_points t.
Proof.
  unfold _required_text. destruct v as [| | | |s| | |]; try done. case_match; [|done]. intros [= <-] Hv.
  inversion_clear Hv. by apply code_points_strip.
Qed.

Lemma may_write_other s job name d :
  name ≠ "spec.json" → name ≠ "state.json" → name ≠ "worker-claim.json" → may_write s job name d.
Proof. intros. by split. Qed.

Lemma keeps_outcome_unknown job execution x :
  printable (x_reason x) → printable (x_error x) → keeps (transition_to_outcome_unknown store_id job execution x).
Proof.
  intros Hpr Hpe s Hs. unfold transition_to_outcome_unknown. check H1. check H2. read reason Hreason. read err Herror.
  apply lift_ok in Hreason, Herror. read stale H3. read seq0 H4. check H5. read x1 H6.
  apply good_lock; [done|]. intros s1 Hs1 _. read x2 H7. read spec Hspec. check H8. read d Hd.
  apply read_state_ok in Hd as [Hd Hv]. check H9. cbv zeta. branch; [finish|]. branch; [finish|].
  read claim Hclaim. destruct claim as [claim|]; [|finish]. read holds Hholds. destruct holds; cbn [negb]; [|finish].
  check Ht. apply good_clock; [done|]. intros now s2 Hs2 Hsame. cbv zeta. check H10.
  assert (printable_doc d) as Hpd by (by eapply sound_doc; [..|exact Hd]; [|right; left]).
  set (n := merged d _). assert (printable_doc n) as Hpn.
  { apply printable_merged; [done|].
    repeat (apply Forall_cons; split; [apply storable_field; try constructor|]); [apply code_points_u|..|constructor].
    - by eapply required_text_ok.
    - by eapply required_text_ok. }
  apply good_json; [done|right; left|done| |intros s3 bs Hs3 _ _; finish]. unfold n in *.
  eapply (may_write_state s1 s2 job d _ (u "outcome_unknown"));
    [done|done|done|done|by eapply validate_transition_follows|by get_simpl..].
Qed.

Lemma py_eq_text v t : py_eq v (VStr t) = true → v = VStr t.
Proof. destruct v; try done. cbn. by intros ->%bool_decide_eq_true. Qed.

Lemma spec_token job d : validate_spec store_id job d = Ok tt → ∃ t, get d "worker_token" = VStr t ∧ hex_text 32 t = true.
Proof.
  unfold validate_spec, corrupt. intros H. checks H.
  repeat match goal with H : forallb _ _ = true |- _ => cbn [forallb] in H end. bsimpl.
  destruct (get d "worker_token"); try done. eauto.
Qed.

Lemma keeps_claim_worker job token pid : code_points token → keeps (claim_worker store_id job token pid).
Proof.
  intros Htok s Hs. unfold claim_worker. read p Hp. read x1 Hj. apply paths_ok in Hj.
  apply good_lock; [done|]. intros s1 Hs1 _. read x2 H2. read spec Hspec. check H3. read d Hd.
  apply read_state_ok in Hd as [Hd Hv]. check H4. destruct (py_eq (get d "status") (VStr (u "queued"))) eqn:Eq; cbn [negb]; [|finish].
  read has H5. destruct has; [finish|]. apply good_uuid; [done|]. intros claim_id s2 Hs2 Hsame Hhex.
  apply good_clock; [done|]. intros now s3 Hs3 Hsame'.
  apply good_json; [done|by do 3 right; left| | |intros s4 bs Hs4 _ _; finish].
  - printable_fields; constructor; try done; [by apply code_points_job_id|by eapply hex_code_points].
  - split; [done..|]. intros _ d0. rewrite (same_doc s2 s3), (same_doc s1 s2), Hd by done. intros [= <-].
    unfold status_of. destruct (get d "status") as [| | | |t| | |]; try done. cbn in Eq. by apply bool_decide_eq_true in Eq.
Qed.

(** Removing a claim while the job is queued. *)
Lemma good_unlink {A} s job d (f : unit → M Jobs pyexn A) :
  sound s → doc s job "state.json" = Some d → status_of d = u "queued" →
  (∀ s1, sound s1 → good (f tt) s1) → good (unlink store_id job "worker-claim.json" ≫= f) s.
Proof.
  intros Hs Hd Hq Hf. pose proof (changed_delete s job "worker-claim.json") as Hc. unfold unlink.
  set (s1 := put_dir _ _ _ s) in *.
  assert (∀ job' name', name' ≠ "worker-claim.json" → file s1 job' name' = file s job' name') as Ho.
  { intros job' name' Hn. by rewrite Hc, decide_False by naive_solver. }
  assert (sound s1) as Hs1.
  { split; [|apply Hs]. intros job' name' bs Hn. rewrite Hc. case_decide; [done|]. by apply Hs. }
  assert (evolves s s1) as He1.
  { split.
    - intros job' bs. by rewrite Ho.
    - intros job' d0 Hd0. exists d0. unfold doc in *. by rewrite Ho.
    - intros job' d0 Hd0 Hq0. rewrite Hc, decide_False; [done|]. intros [-> _]. congruence.
    - intros job' name' bs Hn Hl. exists []. rewrite Ho, app_nil_r; [done|]. intros ->. unfold log_files in Hn. set_solver.
    - intros job'. by rewrite Ho. }
  assert (good (mutate (λ s, put_dir store_id job (delete "worker-claim.json" (default ∅ (dir_of store_id s job))) s)) s) as Hm.
  { unfold good, mutate. destruct (j_writes s) as [[|n]|]; cbn; [by split| |by split].
    split; [by split; apply Hs1|by split; apply He1]. }
  apply good_seq; [done|]. intros [] _ H. by apply Hf.
Qed.

Lemma keeps_clear_stale_claim job token claim : keeps (clear_stale_claim store_id job token claim).
Proof.
  intros s Hs. unfold clear_stale_claim. check H1. branch; [finish|]. read x1 Hj. apply good_lock; [done|].
  intros s1 Hs1 _. read x2 H2. read spec Hspec. branch; [finish|]. read d Hd. apply read_state_ok in Hd as [Hd Hv].
  check H4. destruct (py_eq (get d "status") (VStr (u "queued"))) eqn:Eq; cbn [negb]; [|finish].
  read found Hfound. destruct found as [found|]; [|finish]. check H5. branch; [finish|]. branch; [finish|].
  eapply good_unlink; [done|exact Hd| |intros s2 Hs2; finish].
  unfold status_of. destruct (get d "status") as [| | | |t| | |]; try done. cbn in Eq. by apply bool_decide_eq_true in Eq.
Qed.

Lemma keeps_write_heartbeat job token pid : code_points token → keeps (write_heartbeat store_id job token pid).
Proof.
  intros Htok s Hs. unfold write_heartbeat. read p Hp. read x1 Hj. apply paths_ok in Hj. apply good_lock; [done|].
  intros s1 Hs1 _. read x2 H2. read spec Hspec. check H3. read d Hd. check H4. branch; [finish|].
  read claim Hclaim. destruct claim as [claim|]; [|finish]. check H5. check H6. check H7. read previous H8.
  apply good_pure; [destruct previous; [apply pure_bind; [apply pure_lift|intros ?; apply pure_ret]|apply pure_ret]|done|].
  intros n Hn. apply good_clock; [done|]. intros now s2 Hs2 Hsame.
  apply good_json; [done|by do 4 right; left| |by apply may_write_other|intros s3 bs Hs3 _ _; finish].
  printable_fields; constructor; try done. by apply code_points_job_id.
Qed.

Lemma keeps_request_cancel job execution : code_points execution → keeps (request_cancel store_id job execution).
Proof.
  intros He s Hs. unfold request_cancel. read x1 Hj. apply paths_ok in Hj. apply good_lock; [done|].
  intros s1 Hs1 _. read x2 H2. read spec Hspec. check H3. apply good_clock; [done|]. intros now s2 Hs2 Hsame.
  apply good_json_last; [done|by do 5 right; left| |by apply may_write_other].
  printable_fields; constructor; try done. by apply code_points_job_id.
Qed.

(** The methods that only read, under the lock. *)
Lemma keeps_load job execution : keeps (load store_id job execution).
Proof.
  intros s Hs. unfold load. read x1 H1. read a Ha. read b Hb. check H2. apply good_lock; [done|]. intros s1 Hs1 _.
  read x2 H3. read spec Hspec. check H4. read d Hd. check H5. finish.
Qed.

Lemma keeps_load_spec job : keeps (load_spec store_id job).
Proof.
  intros s Hs. unfold load_spec. read x1 H1. read a Ha. check H2. apply good_lock; [done|]. intros s1 Hs1 _.
  read x2 H3. apply good_done; [apply pure_read_spec|done].
Qed.

Lemma keeps_contains job : keeps (contains store_id job).
Proof.
  intros s Hs. apply good_done; [|done]. revert s Hs. cut (pure (contains store_id job)); [done|]. unfold contains.
  apply pure_bind.
  - apply pure_try; [apply pure_bind; [apply pure_paths|intros ?; apply pure_ret]|]. intros e. case_match; pure.
  - intros []; [|apply pure_ret]. apply pure_bind; [apply pure_exists|]. intros ?.
    apply pure_bind; [apply pure_identity|intros ?; apply pure_ret].
Qed.

Lemma keeps_read_claim job : keeps (read_claim store_id job).
Proof.
  intros s Hs. unfold read_claim. read x1 H1. apply good_lock; [done|]. intros s1 Hs1 _. read x2 H3. read spec Hspec.
  read claim Hc. destruct claim as [claim|]; [|finish]. check H4. check H5. finish.
Qed.

Lemma keeps_claim_is_current job token pid : keeps (worker_claim_is_current store_id job token pid).
Proof.
  intros s Hs. unfold worker_claim_is_current. apply good_seq; [by apply keeps_read_claim|].
  intros c _ Hs1. by apply good_done.
Qed.

Lemma keeps_read_heartbeat job : keeps (read_heartbeat store_id job).
Proof.
  intros s Hs. unfold read_heartbeat. read x1 H1. apply good_lock; [done|]. intros s1 Hs1 _. read x2 H3. read spec Hspec.
  read beat Hb. destruct beat as [beat|]; [|finish]. check H4. finish.
Qed.

Lemma keeps_cancel_requested job : keeps (cancel_requested store_id job).
Proof.
  intros s Hs. unfold cancel_requested. read x1 H1. apply good_lock; [done|]. intros s1 Hs1 _. read x2 H3.
  read spec Hspec. read marker Hm. destruct marker as [marker|]; [|finish]. check H4. check H5. finish.
Qed.

(** *** Logs *)

Lemma append_log_ok s job name bs :
  sound s → name ∈ log_files →
  sound (append_log store_id job name bs s) ∧ evolves s (append_log store_id job name bs s).
Proof.
  intros Hs Hn. destruct bs as [|b bs]; [by split|]. unfold append_log. set (d := default ∅ (dir_of store_id s job)).
  assert (default [] (d !! name) = default [] (file s job name)) as ->.
  { unfold d, file_of. by destruct (dir_of store_id s job). }
  pose proof (changed_insert s job name (default [] (file s job name) ++ b :: bs)) as Hc. fold d in Hc.
  set (s1 := put_dir _ _ _ s) in *.
  assert (∀ job' name', name' ∉ log_files → file s1 job' name' = file s job' name') as Ho.
  { intros job' name' Hl. rewrite Hc, decide_False; [done|]. by intros [_ ->]. }
  split.
  - split; [|apply Hs]. intros job' name' bs' Hj. rewrite Ho; [by apply Hs|]. unfold json_files, log_files in *. set_solver.
  - split.
    + intros job' bs'. by rewrite Ho by (unfold log_files; set_solver).
    + intros job' d0 Hd0. exists d0. unfold doc in *. by rewrite Ho by (unfold log_files; set_solver).
    + intros job' d0 _ _. apply Ho. unfold log_files; set_solver.
    + intros job' name' bs' _ Hb. rewrite Hc. case_decide as Hj; [|exists []; by rewrite app_nil_r].
      destruct Hj as [-> ->]. exists (b :: bs). by rewrite Hb.
    + intros job'. by rewrite Ho by (unfold log_files; set_solver).
Qed.

Lemma keeps_read_log job name offset limit final grown :
  name ∈ log_files → keeps (read_log store_id job name offset limit final grown).
Proof.
  intros Hn s Hs. unfold read_log. read before Hb. pose proof (append_log_ok s job name grown Hs Hn) as [H1 H2].
  apply good_seq; [by split|]. intros [] _ _. cbn [modify snd]. read after Ha. by apply good_done.
Qed.

Lemma keeps_consume_logs job execution limit final grown : keeps (consume_logs store_id job execution limit final grown).
Proof.
  intros s Hs. unfold consume_logs. read n Hn. read x1 Hj. apply paths_ok in Hj. apply good_lock; [done|].
  intros s1 Hs1 _. read x2 H2. read spec Hspec. check H3. read cursor Hc.
  apply good_seq; [by apply keeps_read_log; [left|]|]. intros out _ Hs2.
  apply good_seq; [by apply keeps_read_log; [right; left|]|]. intros err _ Hs3.
  apply good_json; [done|by do 2 right; left| |by apply may_write_other|intros s4 bs Hs4 _ _; finish].
  printable_fields; constructor; try done. by apply code_points_job_id.
Qed.

(** *** Reservations *)

Lemma exists_file_ok s job name b s' :
  exists_file store_id job name s = (Ok b, s') → b = false → file s job name = None.
Proof. intros [= <- _] Hb. apply bool_decide_eq_false in Hb. by rewrite <-eq_None_not_Some in Hb. Qed.

Lemma keeps_ensure_state spec :
  code_points (text_of (get spec "job_id")) → code_points (text_of (get spec "worker_token")) →
  keeps (_ensure_initial_files store_id spec).
Proof.
  intros Hj Ht s Hs. unfold _ensure_initial_files. cbv zeta. set (job := text_of (get spec "job_id")) in *.
  read has Hhas. apply good_seq.
  - destruct has; [finish|]. read launched Hl. check H1. apply good_json_last; [done|by right; left| |].
    + printable_fields; constructor; try done; by apply code_points_u.
    + split; [done| |done]. intros _ d0. unfold doc. by rewrite (exists_file_ok _ _ _ _ _ Hhas).
  - intros [] _ Hs1. read cur Hcur. destruct cur; [finish|]. read d Hd. read launched Hl. check H1.
    apply good_json_last; [done|by do 2 right; left| |by apply may_write_other].
    printable_fields; constructor; done.
Qed.

Definition printable_reservation (captured : pystr) (r : reservation) : Prop :=
  code_points captured ∧ code_points (default [] (rv_environment_digest r)) ∧
  Forall printable [rv_execution_id r; rv_adapter r; rv_argv r; rv_cwd r; rv_timeout_ms r; rv_idempotency_key r;
                    rv_intent_digest r; rv_max_log_bytes r].

Lemma check_reservation_ok captured r execution job request :
  code_points store_id → printable_reservation captured r →
  check_reservation store_id captured r = Ok (execution, job, request) →
  Forall storable_item request ∧ keys request = (λ f, KStr (u f)) <$> request_fields.
Proof.
  intros Hst (Hcap & Henv & Hp) H. rewrite !Forall_cons in Hp. destruct Hp as (P1 & P2 & P3 & P4 & P5 & P6 & P7 & P8 & _).
  unfold check_reservation in H.
  apply result_bind_ok in H as (ex & H1 & H). apply result_bind_ok in H as (ad & H2 & H).
  apply result_bind_ok in H as (key & H3 & H). apply result_bind_ok in H as (intent & H4 & H).
  apply result_bind_ok in H as ([] & H5%ensure_ok & H). cbv zeta in H.
  apply result_bind_ok in H as ([] & H6%ensure_ok & H). apply result_bind_ok in H as ([] & _ & H).
  apply result_bind_ok in H as (cwd & H7 & H). apply result_bind_ok in H as ([] & _ & H).
  apply result_bind_ok in H as ([] & _ & H). apply result_bind_ok in H as ([] & _ & H).
  apply result_bind_ok in H as (j & _ & H). apply result_bind_ok in H as (kd & H8 & H). injection H as <- <- <-.
  split; [|done]. unfold _digest in H8. apply result_bind_ok in H8 as (t & _ & H8).
  apply result_bind_ok in H8 as (bs & _ & [= <-]).
  repeat (apply Forall_cons; split; [apply storable_field; try done; constructor|]); [..|constructor].
  - done.
  - by eapply required_text_ok.
  - by eapply required_text_ok.
  - by eapply code_points_path, required_text_ok.
  - apply code_points_hexdigest.
  - by apply code_points_sha.
  - by apply code_points_sha.
Qed.

Lemma printable_spec_dict job digest token created request :
  Forall storable_item request → keys request = (λ f, KStr (u f)) <$> request_fields →
  code_points job → code_points digest → code_points token →
  printable_doc (spec_dict job digest token created request).
Proof.
  intros Hr Hk Hj Hd Ht. unfold spec_dict. constructor.
  - unfold keys in *. rewrite !fmap_app, Hk. apply (bool_decide_unpack (NoDup _)). vm_compute. exact I.
  - rewrite !Forall_app. split_and!; [|exact Hr|];
      repeat (apply Forall_cons; split; [apply storable_field; by constructor|]); constructor.
Qed.

Lemma get_app (name : string) (d e : pydict) :
  has_key d name = true → get (d ++ e) name = get d name.
Proof.
  unfold get, has_key. destruct (dict_get d (KStr (u name))) as [v|] eqn:E; [|done]. intros _.
  assert (dict_get (d ++ e) (KStr (u name)) = Some v) as ->; [|done].
  revert E. induction d as [|[k w] d IH]; [done|]. cbn [dict_get app]. by case_decide.
Qed.

Lemma get_app_r (name : string) (d e : pydict) : has_key d name = false → get (d ++ e) name = get e name.
Proof.
  unfold get, has_key. destruct (dict_get d (KStr (u name))) as [v|] eqn:E; [done|]. intros _. f_equal.
  revert E. induction d as [|[k w] d IH]; [done|]. cbn [dict_get app]. by case_decide.
Qed.

Lemma request_no_key request name :
  keys request = (λ f, KStr (u f)) <$> request_fields → bool_decide (u name ∈ u <$> request_fields) = false →
  has_key request name = false.
Proof.
  intros Hk Hn%bool_decide_eq_false. unfold has_key. destruct (dict_get request _) as [v|] eqn:E; [|done].
  destruct Hn. apply dict_get_Some_elem, (list_elem_of_fmap_2 fst) in E. fold (keys request) in E. rewrite Hk in E.
  apply list_elem_of_fmap in E as (f & [= ->] & Hf). by apply list_elem_of_fmap_2.
Qed.

Lemma get_spec_token job digest token created request :
  keys request = (λ f, KStr (u f)) <$> request_fields →
  get (spec_dict job digest token created request) "worker_token" = VStr token.
Proof.
  intros Hk. unfold spec_dict. rewrite get_app_r by done. rewrite get_app_r by (by apply request_no_key). done.
Qed.

Lemma digest_code_points v t : _digest v = Ok t → code_points t.
Proof.
  unfold _digest. intros (x & _ & (bs & _ & [= <-])%result_bind_ok)%result_bind_ok. apply code_points_hexdigest.
Qed.

Lemma spec_job job d : validate_spec store_id job d = Ok tt → get d "job_id" = VStr job ∧ _JOB_ID_RE job = true.
Proof.
  unfold validate_spec, corrupt. intros H. checks H. bsimpl. split; [|done]. by apply py_eq_text.
Qed.

(** The texts of a specification that has been read. *)
Lemma spec_texts s job spec s' :
  _read_spec store_id job s = (Ok spec, s') →
  text_of (get spec "job_id") = job ∧ code_points job ∧ code_points (text_of (get spec "worker_token")).
Proof.
  intros [Hd Hv]%read_spec_ok. destruct (spec_token _ _ Hv) as (t & -> & Ht%hex_code_points).
  destruct (spec_job _ _ Hv) as [-> Hj]. split_and!; [done|by apply code_points_job_id|done].
Qed.

Lemma bind_spec_good s job digest request :
  sound s → _JOB_ID_RE job = true → code_points digest → Forall storable_item request →
  keys request = (λ f, KStr (u f)) <$> request_fields →
  good (bind_spec store_id job digest request) s ∧
  ∀ p, (bind_spec store_id job digest request s).1 = Ok p →
       text_of (get p.1 "job_id") = job ∧ code_points (text_of (get p.1 "worker_token")).
Proof.
  intros Hs Hj%code_points_job_id Hd Hr Hk. split.
  - unfold bind_spec. read has Hhas. destruct has; [read spec Hspec; check H1; finish|].
    apply good_clock; [done|]. intros now s1 Hs1 Hsame. apply good_uuid; [done|]. intros token s2 Hs2 Hsame2 Htok.
    cbv zeta. apply good_json; [done|by left| | |intros s3 bs Hs3 _ _; finish].
    + apply printable_spec_dict; try done. by eapply hex_code_points.
    + split; [|done..]. intros _. rewrite Hsame2, Hsame. by eapply exists_file_ok.
  - intros [spec created] Hok. unfold bind_spec in Hok. cbv [mbind M_bind exists_file gets] in Hok.
    destruct (bool_decide _) in Hok.
    + destruct (_read_spec store_id job s) as [[spec'|e] s1] eqn:Hspec; [|done]. cbn in Hok. unfold ensure in Hok.
      destruct (py_eq _ _); [|done]. injection Hok as <- <-. destruct (spec_texts _ _ _ _ Hspec) as (? & _ & ?). done.
    + destruct (now_ms s) as [[now|e] s1] eqn:En; [|done].
      unfold uuid4_hex in Hok. cbv beta iota zeta in Hok.
      destruct (_write_json_atomic store_id job "spec.json" _ _) as [[]]; [|done]. injection Hok as <- <-. cbn [fst].
      rewrite get_spec_token by done. split; [done|]. cbn [text_of]. apply (hex_code_points 32).
      assert (s1 = (now_ms s).2) as -> by (by rewrite En). unfold now_ms. repeat case_match; apply Hs.
Qed.

Lemma keeps_make_job_dir job : keeps (make_job_dir store_id job).
Proof.
  intros s Hs. unfold make_job_dir. cbv [mbind M_bind gets]. cbn. unfold good.
  destruct (j_stores s !! store_id); [|done]. destruct (dir_of store_id s job) eqn:E; [done|].
  assert (same s (put_dir store_id job ∅ s)) as Hsame.
  { intros job' name. rewrite file_put. case_decide as Hj; [|done]. subst. unfold file_of. by rewrite E. }
  unfold mutate. destruct (j_writes s) as [[|n]|]; cbn; [by split| |].
  all: split; [by apply (same_sound s); [|apply Hs|]|by apply same_evolves].
Qed.

Lemma keeps_reserve captured r :
  code_points store_id → printable_reservation captured r → keeps (reserve_process_job store_id captured r).
Proof.
  intros Hst Hp s Hs. unfold reserve_process_job. read checked Hc. destruct checked as [[execution job] request].
  apply lift_ok in Hc. destruct (check_reservation_ok _ _ _ _ _ Hst Hp Hc) as [Hr Hk].
  read x1 Hj. apply paths_ok in Hj. apply good_seq; [by apply keeps_make_job_dir|]. intros [] _ Hs1.
  read digest Hd. apply lift_ok, digest_code_points in Hd. apply good_seq.
  - apply good_lock; [done|]. intros s2 Hs2 _. read x2 H2. destruct (bind_spec_good s2 job digest request) as [Hg Ht]; [done..|].
    apply good_seq; [done|]. intros [spec created] Hok Hs3. destruct (Ht _ Hok) as [Hsj Hst3].
    apply good_seq; [|intros ? ? ?; finish]. apply keeps_ensure_state; [|done..]. cbn [fst] in Hsj. rewrite Hsj. by apply code_points_job_id.
  - intros created _ Hs2. apply good_seq; [by apply keeps_load|]. intros snapshot _ Hs3. finish.
Qed.

Lemma keeps_list_jobs execution names : keeps (list_jobs store_id execution names).
Proof.
  induction names as [|job names IH]; intros s Hs; [finish|]. cbn [list_jobs]. apply good_seq.
  - unfold list_job. read x1 Hj. apply good_lock; [done|]. intros s1 Hs1 _. read x2 H2. read has Hhas.
    branch; [finish|]. read spec Hspec. branch; [finish|]. apply good_seq.
    + destruct (spec_texts _ _ _ _ Hspec) as (Hsj & Hcj & Hct). apply keeps_ensure_state; [by rewrite Hsj|done..].
    + intros [] _ Hs2. read d Hd. check H3. finish.
  - intros found _ Hs1. apply good_seq; [by apply IH|]. intros rest _ Hs2. finish.
Qed.

Lemma keeps_list_execution execution : keeps (list_execution store_id execution).
Proof.
  intros s Hs. unfold list_execution. read name Hname. read x1 H1. read names Hn. by apply keeps_list_jobs.
Qed.

(** *** Opening *)

Lemma good_mutate {A} s f (k : unit → M Jobs pyexn A) :
  sound s → same s (f s) → j_uuids (f s) = j_uuids s → (∀ s1, sound s1 → same s s1 → good (k tt) s1) →
  good (mutate f ≫= k) s.
Proof.
  intros Hs Hf Hu Hk. assert (sound (f s)) as Hfs by (apply (same_sound s); [done|rewrite Hu; apply Hs|done]).
  assert (∀ w, sound (with_writes w (f s))) as Hw by (intros w; by split; apply Hfs).
  cut (good (mutate f) s ∧ ∀ x, (mutate f s).1 = Ok x → same s (mutate f s).2).
  { intros [Hg Hsame]. apply good_seq; [done|]. intros [] Hx Hs1. by apply Hk; [|apply (Hsame ())]. }
  unfold good, mutate. destruct (j_writes s) as [[|n]|]; cbn; [done| |].
  - split; [|done]. split; [done|by apply same_evolves].
  - split; [|done]. split; [done|by apply same_evolves].
Qed.

Lemma keeps_open : keeps open_store.
Proof.
  intros s Hs. unfold open_store. read manifest Hm. apply good_seq.
  - destruct manifest as [bs|].
    { apply good_done; [|done]. revert s Hs Hm. cut (pure _read_store_manifest); [done|]. unfold _read_store_manifest. pure. }
    read before Hb. injection Hb as Hb. unfold id in Hb. subst before. check H1.
    set (name := j_uuids s 0). assert (Hnew : ensure (bool_decide (j_stores s !! name = None)) FileExistsError = Ok tt → 
      ∀ s1, j_stores s1 = j_stores s → same s1 (with_stores (<[name := ∅]> (j_stores s1)) s1)).
    { intros H%ensure_ok%bool_decide_eq_true s1 E job f. unfold file_of, dir_of, with_stores. cbn [j_stores]. rewrite E.
      destruct (decide (name = store_id)) as [<-|Hne]; [|by rewrite lookup_insert_ne].
      rewrite lookup_insert_eq, H. done. }
    unfold good. cbv [mbind M_bind uuid4_hex lift]. fold name.
    destruct (ensure _ FileExistsError) as [[]|e] eqn:E; [|split; [split; [apply Hs|intros n; apply Hs]|by apply same_evolves]].
    set (s1 := mkJobs _ _ _ _ (λ n, j_uuids s (S n)) _).
    cut (good (mutate (λ s, with_stores (<[name := ∅]> (j_stores s)) s) ≫= λ _, now ← now_ms;
      bs ← lift (file_bytes (manifest_dict name now)); _ ← mutate (with_manifest (Some bs)); mret name) s1).
    { intros [Hg1 Hg2]. split; [exact Hg1|]. etrans; [by apply (same_evolves s s1)|exact Hg2]. }
    assert (sound s1) as Hs1 by (split; [apply Hs|intros n; apply Hs]).
    apply good_mutate; [done|by apply Hnew|done|]. intros s2 Hs2 Hsame2. apply good_clock; [done|].
    intros now s3 Hs3 Hsame3. read bs Hbs. apply good_mutate; [done..|]. intros s4 Hs4 _. finish.
  - intros name _ Hs1. read after Ha. check H3. finish.
Qed.

(** ** Histories *)

(** The methods of a store. *)
Inductive method : ∀ A, M Jobs pyexn A → Prop :=
| m_reserve captured r : printable_reservation captured r → method _ (reserve_process_job store_id captured r)
| m_load job execution : method _ (load store_id job execution)
| m_load_spec job : method _ (load_spec store_id job)
| m_contains job : method _ (contains store_id job)
| m_update job token status updates :
    Forall (λ kv, printable kv.2) updates → method _ (update_state store_id job token status updates)
| m_claim job token pid : code_points token → method _ (claim_worker store_id job token pid)
| m_clear_claim job token claim : method _ (clear_stale_claim store_id job token claim)
| m_read_claim job : method _ (read_claim store_id job)
| m_claim_is_current job token pid : method _ (worker_claim_is_current store_id job token pid)
| m_write_heartbeat job token pid : code_points token → method _ (write_heartbeat store_id job token pid)
| m_read_heartbeat job : method _ (read_heartbeat store_id job)
| m_outcome_unknown job execution x :
    printable (x_reason x) → printable (x_error x) → method _ (transition_to_outcome_unknown store_id job execution x)
| m_request_cancel job execution : code_points execution → method _ (request_cancel store_id job execution)
| m_cancel_requested job : method _ (cancel_requested store_id job)
| m_consume_logs job execution limit final grown : method _ (consume_logs store_id job execution limit final grown)
| m_list_execution execution : method _ (list_execution store_id execution).

Lemma method_keeps A (m : M Jobs pyexn A) : code_points store_id → method A m → keeps m.
Proof.
  intros Hst [].
  - by apply keeps_reserve.
  - apply keeps_load.
  - apply keeps_load_spec.
  - apply keeps_contains.
  - by apply keeps_update_state.
  - by apply keeps_claim_worker.
  - apply keeps_clear_stale_claim.
  - apply keeps_read_claim.
  - apply keeps_claim_is_current.
  - by apply keeps_write_heartbeat.
  - apply keeps_read_heartbeat.
  - by apply keeps_outcome_unknown.
  - by apply keeps_request_cancel.
  - apply keeps_cancel_requested.
  - apply keeps_consume_logs.
  - apply keeps_list_execution.
Qed.

(** What happens to a store: a process calls a method, and may die in it; time
    passes and another process takes its turn; a process opens the store; a pump
    writes to a log. *)
Inductive store_step : relation Jobs :=
| st_call A (m : M Jobs pyexn A) s : method A m → store_step s (m s).2
| st_world s clock uuids writes :
    (∀ n, hex_text 32 (uuids n) = true) →
    store_step s (mkJobs (j_manifest s) (j_stores s) (j_legacy s) clock uuids writes)
| st_open s : store_step s (open_store s).2
| st_pump job name bs s : name ∈ log_files → store_step s (append_log store_id job name bs s).

Lemma step_keeps s s' : code_points store_id → store_step s s' → sound s → sound s' ∧ evolves s s'.
Proof.
  intros Hst [A m s0 Hm|s0 clock uuids writes Hu|s0|job name bs s0 Hn] Hs.
  - by apply (method_keeps A m).
  - split; [by apply (same_sound s0)|by apply same_evolves].
  - by apply keeps_open.
  - by apply append_log_ok.
Qed.

Lemma history_evolves s s' : code_points store_id → rtc store_step s s' → sound s → sound s' ∧ evolves s s'.
Proof.
  intros Hst H. induction H as [s|s1 s2 s3 H12 _ IH]; intros Hs; [by split|].
  destruct (step_keeps s1 s2 Hst H12 Hs) as [Hs2 He]. destruct (IH Hs2) as [Hs3 He']. split; [done|by etrans].
Qed.

(** C27. Whatever the methods, the crashes and the interleaving, a launch
    specification never changes, a status follows the allowed transitions (so a
    terminal one is final and nothing is queued twice) with a revision that grows
    and the token of its job, a log only grows, and once a job has left [queued]
    its worker claim is frozen; and a request to cancel stays. *)
Theorem job_store_history s s' job :
  code_points store_id → sound s → rtc store_step s s' →
  (∀ bs, file s job "spec.json" = Some bs → file s' job "spec.json" = Some bs) ∧
  (∀ d, doc s job "state.json" = Some d →
     ∃ d', doc s' job "state.json" = Some d' ∧ follows (status_of d) (status_of d') ∧
           (status_of d ∈ TERMINAL_JOB_STATUSES → status_of d' = status_of d) ∧
           (d' = d ∨ (revision_of d < revision_of d')%Z) ∧
           get d' "worker_token" = get d "worker_token" ∧
           (status_of d ≠ u "queued" → file s' job "worker-claim.json" = file s job "worker-claim.json")) ∧
  (∀ name bs, name ∈ log_files → file s job name = Some bs → ∃ more, file s' job name = Some (bs ++ more)) ∧
  (is_Some (file s job "cancel-request.json") → is_Some (file s' job "cancel-request.json")).
Proof.
  intros Hst Hs H. destruct (history_evolves s s' Hst H Hs) as [_ [Hspec Hstate Hclaim Hlog Hcancel]].
  split_and!; [apply Hspec| |apply Hlog|apply Hcancel]. intros d Hd. destruct (Hstate _ _ Hd) as (d' & Hd' & [Hf Hr Ht Hc]).
  exists d'. split_and!; [done..| |done|done|by apply Hclaim]. intros Hterm. by apply follows_terminal.
Qed.

(** ** Reserving again *)

Lemma pure_bind_ok {A B} (m : M Jobs pyexn A) (f : A → M Jobs pyexn B) s b s' :
  pure m → (m ≫= f) s = (Ok b, s') → ∃ a, m s = (Ok a, s) ∧ f a s = (Ok b, s').
Proof.
  intros Hp (a & s1 & Ha & Hf)%M_bind_ok. specialize (Hp s). rewrite Ha in Hp. cbn in Hp. subst s1. eauto.
Qed.

Lemma lock_ok {A} job (m : M Jobs pyexn A) s a s' :
  _exclusive_lock store_id job m s = (Ok a, s') → ∃ s1, same s s1 ∧ j_uuids s1 = j_uuids s ∧ m s1 = (Ok a, s').
Proof.
  unfold _exclusive_lock. intros (s0 & Hg & (x & s1 & Hm & H)%M_bind_ok)%pure_bind_ok; [|apply pure_gets].
  injection Hg as <-. exists s1. unfold id in Hm. destruct (dir_of store_id s job) eqn:E.
  { injection Hm as _ <-. done. }
  assert (same s (put_dir store_id job ∅ s)) as Hsame.
  { intros job' name. rewrite file_put. case_decide as Hj; [|done]. subst. unfold file_of. by rewrite E. }
  unfold mutate in Hm. destruct (j_writes s) as [[|n]|]; simplify_eq; done.
Qed.

(** Follow a method that has returned through its reads. *)
Ltac run_read H x Hx := apply pure_bind_ok in H as (x & Hx & H); [|solve [auto with jobs]].

Lemma load_ok s job execution snap s' :
  load store_id job execution s = (Ok snap, s') →
  ∃ spec d, doc s' job "spec.json" = Some spec ∧ validate_spec store_id job spec = Ok tt ∧
            text_of (get d "worker_token") = text_of (get spec "worker_token") ∧ snap = _snapshot spec d ∧ same s s'.
Proof.
  unfold load. intros H. run_read H x1 H1. run_read H a Ha. run_read H b Hb. run_read H x2 H2.
  apply lock_ok in H as (s1 & Hsame & _ & H). run_read H x3 H3. run_read H spec Hspec. run_read H x4 H4.
  run_read H d Hd. run_read H x5 H5. injection H as <- <-. apply read_spec_ok in Hspec as [Hspec Hv].
  exists spec, d. split_and!; try done. apply lift_ok in H5. unfold _ensure_worker_token_matches in H5.
  apply result_bind_ok in H5 as (x & Hx%ensure_ok & _). destruct (spec_token _ _ Hv) as (t & Et & _).
  rewrite Et in *. by apply py_eq_text in Hx as ->.
Qed.

Lemma bind_spec_ok s job digest request spec created s' :
  sound s → _JOB_ID_RE job = true → code_points digest → Forall storable_item request →
  keys request = (λ f, KStr (u f)) <$> request_fields →
  bind_spec store_id job digest request s = (Ok (spec, created), s') →
  created = bool_decide (file s job "spec.json" = None) ∧
  ∃ bs d, file s' job "spec.json" = Some bs ∧ parse_json (Some bs) = Ok d ∧ get d "request_digest" = VStr digest.
Proof.
  intros Hs Hj%code_points_job_id Hd Hr Hk H. unfold bind_spec in H. run_read H has Hhas.
  injection Hhas as Hhas. destruct (file s job "spec.json") as [bs|] eqn:E; subst has.
  - rewrite bool_decide_eq_true_2 in H by done. run_read H spec' Hspec. run_read H x Hx. apply lift_ok, ensure_ok in Hx.
    injection H as <- <- <-. split; [done|]. apply read_spec_ok in Hspec as [Hdoc _]. unfold doc in Hdoc. rewrite E in Hdoc.
    destruct (parse_json (Some bs)) as [d|] eqn:Ep; [|done]. injection Hdoc as <-. exists bs, d.
    split_and!; [done..|]. by apply py_eq_text.
  - rewrite bool_decide_eq_false_2 in H by (by intros []). apply M_bind_ok in H as (now & s1 & Hnow & H).
    apply M_bind_ok in H as (token & s2 & Htok & H). apply M_bind_ok in H as (x & s3 & Hw & H). injection H as <- <- <-.
    split; [done|].
    assert (same s s1 ∧ sound s1) as [Hsame1 Hs1].
    { unfold now_ms in Hnow. destruct (j_clock s 0); simplify_eq. case_match; simplify_eq. split; [done|].
      by apply (same_sound s); [|apply Hs|]. }
    assert (same s s2 ∧ sound s2 ∧ hex_text 32 token = true) as (Hsame2 & Hs2 & Hh).
    { unfold uuid4_hex in Htok. injection Htok as <- <-. split_and!; [done| |apply Hs1].
      apply (same_sound s1); [done|intros n; apply Hs1|done]. }
    assert (printable_doc (spec_dict job digest token now request)) as Hp.
    { apply printable_spec_dict; try done. by eapply hex_code_points. }
    pose proof (write_json_spec s2 job "spec.json" _ Hs2 ltac:(by left) Hp) as Hspec.
    rewrite Hw in Hspec. destruct Hspec as (_ & _ & bs & Hb & Hc).
    { split; [|done..]. intros _. by rewrite Hsame2. }
    exists bs, (canon_dict (spec_dict job digest token now request)). split_and!.
    + by rewrite Hc, decide_True.
    + by apply parse_file.
    + rewrite get_canon_dict by done. unfold spec_dict. rewrite get_app_r by done.
      rewrite get_app_r by (by apply request_no_key). done.
Qed.

Lemma make_job_dir_ok s job x s' : make_job_dir store_id job s = (Ok x, s') → same s s' ∧ j_uuids s' = j_uuids s.
Proof.
  unfold make_job_dir. intros (s0 & Hg & H)%pure_bind_ok; [|apply pure_gets]. injection Hg as <-. unfold id in H.
  destruct (j_stores s !! store_id); [|done]. destruct (dir_of store_id s job) eqn:E; [by injection H as _ <-|].
  assert (same s (put_dir store_id job ∅ s)) as Hsame.
  { intros job' name. rewrite file_put. case_decide as Hj; [|done]. subst. unfold file_of. by rewrite E. }
  unfold mutate in H. destruct (j_writes s) as [[|n]|]; simplify_eq; done.
Qed.

(** What a reservation that has returned says: the job of its request is bound
    to a specification with the digest of the request. *)
Lemma reserve_ok s captured r snap created s' execution job request digest :
  code_points store_id → sound s → printable_reservation captured r →
  check_reservation store_id captured r = Ok (execution, job, request) → _digest (VDict request) = Ok digest →
  reserve_process_job store_id captured r s = (Ok (snap, created), s') →
  created = bool_decide (file s job "spec.json" = None) ∧
  ∃ bs spec, file s' job "spec.json" = Some bs ∧ parse_json (Some bs) = Ok spec ∧
    get spec "request_digest" = VStr digest ∧ sj_job_id snap = job ∧
    sj_worker_token snap = text_of (get spec "worker_token").
Proof.
  intros Hst Hs Hp Hc Hdig H. destruct (check_reservation_ok _ _ _ _ _ Hst Hp Hc) as [Hr Hk].
  unfold reserve_process_job in H. rewrite Hc in H. run_read H checked Hchk. injection Hchk as <-. cbv beta iota in H.
  run_read H x1 Hj. apply paths_ok in Hj. apply M_bind_ok in H as ([] & s1 & Hmk & H).
  apply make_job_dir_ok in Hmk as [Hsame1 Hu1]. run_read H dig Hd. apply lift_ok in Hd. rewrite Hdig in Hd. injection Hd as <-.
  apply M_bind_ok in H as (created' & s2 & Hlock & H). apply M_bind_ok in H as (snap' & s3 & Hload & H).
  injection H as <- <- <-. apply lock_ok in Hlock as (s4 & Hsame4 & Hu4 & Hbody).
  assert (sound s4) as Hs4.
  { apply (same_sound s); [|rewrite Hu4, Hu1; apply Hs|done]. intros job' name. by rewrite Hsame4, Hsame1. }
  run_read Hbody x2 Hid. apply M_bind_ok in Hbody as ([spec created] & s5 & Hb & Hbody). cbv beta iota in Hbody.
  apply M_bind_ok in Hbody as ([] & s6 & Hinit & Hbody). injection Hbody as -> ->.
  assert (code_points digest) as Hcd by (by eapply digest_code_points).
  destruct (bind_spec_good s4 job digest request Hs4 Hj Hcd Hr Hk) as [[Hs5 _] Ht].
  rewrite Hb in Hs5, Ht. cbn [snd] in Hs5. destruct (Ht _ eq_refl) as [Hsj Hct]. cbn [fst] in Hsj, Hct.
  destruct (bind_spec_ok s4 _ _ _ _ _ _ Hs4 Hj Hcd Hr Hk Hb) as (Hcr & bs & d & Hfile & Hparse & Hdg).
  split; [by rewrite Hcr, Hsame4, Hsame1|].
  destruct (keeps_ensure_state spec) with (s := s5) as [_ He]; [by rewrite Hsj; apply code_points_job_id|done..|].
  rewrite Hinit in He. cbn [snd] in He. apply load_ok in Hload as (spec' & d' & Hdoc & Hv & Htok & -> & Hsame3).
  assert (file s3 job "spec.json" = Some bs) as Hf3 by (rewrite Hsame3; by apply He).
  unfold doc in Hdoc. rewrite Hf3, Hparse in Hdoc. injection Hdoc as ->.
  exists bs, spec'. split_and!; [done..| |done]. cbn [_snapshot sj_job_id].
  by destruct (spec_job _ _ Hv) as [-> _].
Qed.

(** C28. Reserving is idempotent across crashes: after a reservation has
    returned and whatever happened since, a reservation with the same execution
    and idempotency key that returns finds the same job and worker token, with
    the flag that nothing was created, and it returns only when it asks for the same
    thing: another launch under that key is never accepted. *)
Theorem reservation_is_idempotent s1 captured r snap created s2 s3 captured' r' snap' created' s4
    execution job request digest request' digest' :
  code_points store_id → sound s1 → printable_reservation captured r → printable_reservation captured' r' →
  check_reservation store_id captured r = Ok (execution, job, request) → _digest (VDict request) = Ok digest →
  reserve_process_job store_id captured r s1 = (Ok (snap, created), s2) →
  rtc store_step s2 s3 →
  check_reservation store_id captured' r' = Ok (execution, job, request') → _digest (VDict request') = Ok digest' →
  reserve_process_job store_id captured' r' s3 = (Ok (snap', created'), s4) →
  created' = false ∧ digest' = digest ∧ sj_job_id snap' = sj_job_id snap ∧
  sj_worker_token snap' = sj_worker_token snap.
Proof.
  intros Hst Hs1 Hp Hp' Hc Hd Hr Hh Hc' Hd' Hr'.
  destruct (reserve_ok _ _ _ _ _ _ _ _ _ _ Hst Hs1 Hp Hc Hd Hr) as (_ & bs & spec & Hf & Hparse & Hdg & Hj & Ht).
  assert (sound s2) as Hs2 by (pose proof (keeps_reserve captured r Hst Hp s1 Hs1) as [H _]; by rewrite Hr in H).
  destruct (history_evolves s2 s3 Hst Hh Hs2) as [Hs3 He]. pose proof (ev_spec _ _ He _ _ Hf) as Hf3.
  destruct (reserve_ok _ _ _ _ _ _ _ _ _ _ Hst Hs3 Hp' Hc' Hd' Hr') as (Hcr & bs' & spec' & Hf' & Hparse' & Hdg' & Hj' & Ht').
  pose proof (keeps_reserve captured' r' Hst Hp' s3 Hs3) as [_ He4]. rewrite Hr' in He4.
  pose proof (ev_spec _ _ He4 _ _ Hf3) as Hf4. cbn [snd] in Hf4. rewrite Hf' in Hf4. injection Hf4 as ->.
  rewrite Hparse in Hparse'. injection Hparse' as <-. rewrite Hdg in Hdg'. injection Hdg' as <-.
  rewrite Hf3 in Hcr. split_and!; [by rewrite Hcr|done|congruence|congruence].
Qed.

(** ** What methods that have returned say *)

Lemma load_spec_ok s job spec s' : load_spec store_id job s = (Ok spec, s') → doc s' job "spec.json" = Some spec.
Proof.
  unfold load_spec. intros H. run_read H x1 H1. run_read H a Ha. run_read H x2 H2.
  apply lock_ok in H as (s1 & _ & _ & H). run_read H x3 H3. apply read_spec_ok in H as Hs.
  pose proof (pure_read_spec job s1) as Hp. rewrite H in Hp. cbn in Hp. subst s'. apply Hs.
Qed.

Lemma claim_worker_ok s job token pid s' :
  claim_worker store_id job token pid s = (Ok true, s') →
  ∃ d, doc s job "state.json" = Some d ∧ status_of d = u "queued".
Proof.
  unfold claim_worker. intros H. run_read H p Hp. run_read H x1 H1. apply lock_ok in H as (s1 & Hsame & _ & H).
  run_read H x2 H2. run_read H spec Hspec. run_read H x3 H3. run_read H d Hd. run_read H x4 H4.
  exists d. apply read_state_ok in Hd as [Hd _]. rewrite (same_doc s s1) in Hd by done. split; [done|].
  destruct (py_eq (get d "status") (VStr (u "queued"))) eqn:E; [|done]. apply py_eq_text in E. unfold status_of. by rewrite E.
Qed.

Lemma claim_is_current_ok s job token pid s' :
  worker_claim_is_current store_id job token (VInt pid) s = (Ok true, s') →
  ∃ c, doc s' job "worker-claim.json" = Some c ∧ get c "worker_pid" = VInt pid.
Proof.
  unfold worker_claim_is_current. intros (claim & s1 & Hr & H)%M_bind_ok. injection H as H <-.
  unfold read_claim in Hr. run_read Hr x1 H1. apply lock_ok in Hr as (s2 & Hsame & _ & Hr).
  run_read Hr x2 H2. run_read Hr spec Hspec. run_read Hr found Hf. destruct found as [c|]; [|by injection Hr as <- _].
  run_read Hr x3 H3. run_read Hr x4 H4. injection Hr as <- <-. exists c. split.
  - unfold _read_optional_json in Hf. run_read Hf bs Hbs. injection Hbs as <-. unfold doc.
    destruct (file s2 job "worker-claim.json"); [|done]. run_read Hf raw Hraw. apply lift_ok in Hraw. injection Hf as <-.
    by rewrite Hraw.
  - apply andb_true_iff in H as [_ H]. apply lift_ok in H3. unfold _validate_claim, corrupt in H3. checks H3.
    apply int_at_least_ok in Hx2 as (z & Ez & _). rewrite Ez in *. cbn in H. unfold num_eq in H.
    apply Z.eqb_eq in H. by subst.
Qed.

Lemma clock_ok s z s' : now_ms s = (Ok z, s') → sound s → same s s' ∧ sound s'.
Proof.
  unfold now_ms. intros H Hs. destruct (j_clock s 0); simplify_eq. case_match; simplify_eq. split; [done|].
  by apply (same_sound s); [|apply Hs|].
Qed.

Lemma update_state_ok s job token t updates snap s' :
  sound s → Forall (λ kv, printable kv.2) updates → nonempty t = true →
  update_state store_id job token (Some t) updates s = (Ok snap, s') →
  ∃ d, doc s' job "state.json" = Some d ∧ status_of d = t.
Proof.
  intros Hs Hup Hne H. unfold update_state in H. run_read H x1 H1. apply lock_ok in H as (s1 & Hsame & Hu & H).
  assert (sound s1) as Hs1 by (apply (same_sound s); [done|rewrite Hu; apply Hs|done]).
  run_read H x2 H2. run_read H spec Hspec. run_read H x3 H3. run_read H d Hd. apply read_state_ok in Hd as [Hd Hv].
  run_read H x4 H4. rewrite Hne in H. cbv zeta in H. run_read H x5 Ht. apply lift_ok in Ht. run_read H x6 Hk.
  apply lift_ok, ensure_ok in Hk. apply M_bind_ok in H as (now & s2 & Hnow & H).
  destruct (clock_ok _ _ _ Hnow Hs1) as [Hsame2 Hs2]. run_read H x7 H7. apply lift_ok in H7. destruct x7.
  apply M_bind_ok in H as (x8 & s3 & Hw & H). injection H as <- <-.
  assert (printable_doc d) as Hpd by (by eapply sound_doc; [..|exact Hd]; [|right; left]).
  pose proof (next_state_printable job d updates t now Hpd Hk Hup H7) as Hpn.
  pose proof (write_json_spec s2 job "state.json" _ Hs2 ltac:(by right; left) Hpn) as Hspec'. rewrite Hw in Hspec'.
  destruct Hspec' as (_ & _ & bs & Hb & Hc).
  - eapply (may_write_state s1 s2 job d _ t); [done..|by eapply validate_transition_follows| | | |].
    1,2: by get_simpl.
    all: get_simpl; by apply get_merged_updates.
  - exists (canon_dict (merged (merged d updates)
      [field "status" (VStr t); field "updated_at_ms" (VInt now);
       field "revision" (VInt (int_of (get d "revision") + 1))])).
    unfold doc. rewrite Hc, decide_True by done. rewrite (parse_file _ bs Hpn Hb). split; [done|].
    unfold status_of. rewrite get_canon_dict by done. get_simpl. done.
Qed.

(** A request that has returned is in the store. *)
Lemma request_cancel_ok s job execution x s' :
  request_cancel store_id job execution s = (Ok x, s') → is_Some (file s' job "cancel-request.json").
Proof.
  unfold request_cancel. intros H. run_read H x1 H1. apply lock_ok in H as (s1 & _ & _ & H).
  run_read H x2 H2. run_read H spec Hspec. run_read H x3 H3. apply M_bind_ok in H as (now & s2 & _ & H).
  unfold _write_json_atomic in H. run_read H bs Hbs. unfold write_file, mutate in H.
  pose proof (changed_insert s2 job "cancel-request.json" bs job "cancel-request.json") as Hc.
  rewrite decide_True in Hc by done. destruct (j_writes s2) as [[|n]|]; [done|..]; injection H as _ <-; exists bs; exact Hc.
Qed.

(** A worker that sees no request has looked at a store without one. *)
Lemma cancel_requested_ok s job s' :
  cancel_requested store_id job s = (Ok false, s') → file s' job "cancel-request.json" = None.
Proof.
  unfold cancel_requested. intros H. run_read H x1 H1. apply lock_ok in H as (s1 & _ & _ & H).
  run_read H x2 H2. run_read H spec Hspec. run_read H m Hm. destruct m as [m|]; [by run_read H x3 H3; run_read H x4 H4|].
  injection H as <-. unfold _read_optional_json in Hm. run_read Hm bs Hbs. injection Hbs as <-.
  destruct (file s1 job "cancel-request.json"); [|done]. by run_read Hm raw Hraw.
Qed.

(** ** Methods that leave the files as they are *)

Definition reader {A} (m : M Jobs pyexn A) : Prop := ∀ s, same s (m s).2.

Lemma pure_reader {A} (m : M Jobs pyexn A) : pure m → reader m.
Proof. intros H s. by rewrite H. Qed.

Lemma reader_bind {A B} (m : M Jobs pyexn A) (f : A → M Jobs pyexn B) : reader m → (∀ a, reader (f a)) → reader (m ≫= f).
Proof.
  intros Hm Hf s. specialize (Hm s). cbv [mbind M_bind]. destruct (m s) as [[a|e] s1]; [|done]. cbn in Hm.
  intros job name. by rewrite Hf, Hm.
Qed.

Lemma reader_clock : reader now_ms.
Proof. intros s. unfold now_ms. repeat case_match; done. Qed.

Lemma reader_lock {A} job (m : M Jobs pyexn A) : reader m → reader (_exclusive_lock store_id job m).
Proof.
  intros Hm s. unfold _exclusive_lock. cbv [mbind M_bind gets]. cbn.
  assert (dir_of store_id s job = None → same s (put_dir store_id job ∅ s)) as Hdir.
  { intros E job' name. rewrite file_put. case_decide as Hj; [|done]. subst. unfold file_of. by rewrite E. }
  destruct (dir_of store_id s job) eqn:E; cbn; [apply Hm|]. specialize (Hdir eq_refl). unfold mutate.
  destruct (j_writes s) as [[|n]|]; cbn; [done| |]; intros job' name; by rewrite Hm, <-Hdir.
Qed.

(** The next read of a reader. *)
Ltac reads := apply reader_bind; [apply pure_reader; solve [auto with jobs]|intros ?; cbv beta iota].

Lemma reader_read_heartbeat job : reader (read_heartbeat store_id job).
Proof.
  unfold read_heartbeat. reads. apply reader_lock. reads. reads. reads.
  match goal with |- reader (match ?x with _ => _ end) => destruct x end; [reads|]; by apply pure_reader.
Qed.

Lemma reader_read_claim job : reader (read_claim store_id job).
Proof.
  unfold read_claim. reads. apply reader_lock. reads. reads. reads.
  match goal with |- reader (match ?x with _ => _ end) => destruct x end; [reads; reads|]; by apply pure_reader.
Qed.

Lemma reader_load job execution : reader (load store_id job execution).
Proof.
  unfold load. reads. reads. reads. reads. apply reader_lock. do 5 reads. by apply pure_reader.
Qed.

(** ** Declaring an outcome unknown *)

(** The pid whose heartbeat counts: that of the state, or of the claim before it is in
    the state. *)
Definition expected_pid (d : pydict) (claim : option pydict) : pyval :=
  match get d "worker_pid", claim with
  | VNone, Some claim => get claim "worker_pid"
  | pid, _ => pid
  end.

(** What the transition checks under the lock. *)
Record unknown_is_due (s : Jobs) (job : pystr) (x : expectation) (d : pydict) : Prop := {
  ud_state : doc s job "state.json" = Some d;
  ud_open : status_of d ∉ TERMINAL_JOB_STATUSES;
  ud_revision : revision_of d = int_of (x_revision x);
  ud_status : status_of d = x_status x;
  ud_claim c : x_claim_id x = Some c → ∃ claim, doc s job "worker-claim.json" = Some claim ∧ get claim "claim_id" = VStr c;
  ud_seq v : x_heartbeat_seq x = Some v →
    match doc s job "heartbeat.json" with Some h => int_of (get h "heartbeat_seq") | None => 0%Z end = int_of v;
  ud_stale v h : x_heartbeat_stale_before_ms x = Some v → doc s job "heartbeat.json" = Some h →
    get h "worker_pid" = expected_pid d (match x_claim_id x with Some _ => doc s job "worker-claim.json" | None => None end) →
    (int_of (get h "updated_at_ms") < int_of v)%Z;
}.

(** [n] is the state [d] with an unknown outcome, and nothing else changed. *)
Definition unknown_fields : list string :=
  ["status"; "outcome_unknown_reason"; "error"; "returncode"; "updated_at_ms"; "revision"].

Record unknown_state (d n : pydict) (reason error : pystr) : Prop := {
  us_status : status_of n = u "outcome_unknown";
  us_reason : get n "outcome_unknown_reason" = VStr reason;
  us_error : get n "error" = VStr error;
  us_returncode : get n "returncode" = VNone;
  us_revision : revision_of n = (revision_of d + 1)%Z;
  us_updated : (int_of (get d "updated_at_ms") ≤ int_of (get n "updated_at_ms"))%Z;
  us_others k : u k ∉ u <$> unknown_fields → get n k = get d k;
}.

(** That state is written to the state file, and no other file changes. *)
Definition declares_unknown (s : Jobs) (job : pystr) (d : pydict) (reason error : pystr) (s' : Jobs) : Prop :=
  ∃ n bs, unknown_state d n reason error ∧ file_bytes n = Ok bs ∧ changed s job "state.json" (Some bs) s'.

Lemma read_optional_ok s job name o s' :
  _read_optional_json store_id job name s = (Ok o, s') → doc s job name = o.
Proof.
  unfold _read_optional_json, doc. intros H. run_read H bs Hbs. injection Hbs as <-.
  destruct (file s job name) as [b|]; [|by injection H as <- _]. run_read H raw Hraw. apply lift_ok in Hraw.
  injection H as <- _. by rewrite Hraw.
Qed.

Lemma expected_claim_ok s job c r s' :
  expected_claim_holds store_id job c s = (Ok (Some r), s') →
  match c with
  | Some id => ∃ claim, r = Some claim ∧ doc s job "worker-claim.json" = Some claim ∧ get claim "claim_id" = VStr id
  | None => r = None
  end.
Proof.
  destruct c as [id|]; [|by intros [= <- _]]. unfold expected_claim_holds. intros H. run_read H claim Hc.
  apply read_optional_ok in Hc. destruct claim as [claim|]; [|done]. run_read H x Hx. injection H as H _.
  destruct (py_eq _ _) eqn:E; [|done]. injection H as <-. exists claim. split_and!; [done|done|]. by apply py_eq_text.
Qed.

Lemma expected_heartbeat_ok s job spec state claim stale seq s' :
  expected_heartbeat_holds store_id job spec state claim stale seq s = (Ok true, s') →
  (∀ n, seq = Some n →
     match doc s job "heartbeat.json" with Some h => int_of (get h "heartbeat_seq") | None => 0%Z end = n) ∧
  (∀ cutoff h, stale = Some cutoff → doc s job "heartbeat.json" = Some h →
     (∃ z, get h "worker_pid" = VInt z) ∧
     (get h "worker_pid" = expected_pid state claim → (int_of (get h "updated_at_ms") < cutoff)%Z)).
Proof.
  intros H. unfold expected_heartbeat_holds in H. case_bool_decide as E; [destruct E as [-> ->]; done|].
  run_read H heartbeat Hh. apply read_optional_ok in Hh. rewrite Hh.
  apply pure_bind_ok in H as (n & Hn & H); [|destruct heartbeat; [apply pure_bind; [apply pure_lift|intros ?; apply pure_ret]|apply pure_ret]].
  assert (n = match heartbeat with Some h => int_of (get h "heartbeat_seq") | None => 0%Z end ∧
          ∀ h, heartbeat = Some h → ∃ z, get h "worker_pid" = VInt z) as [-> Hpid].
  { destruct heartbeat as [h|]; [|injection Hn as <-; done]. run_read Hn x Hx. apply lift_ok in Hx. injection Hn as <-.
    split; [done|]. intros h0 [= <-]. unfold _validate_heartbeat, corrupt in Hx. checks Hx. bsimpl.
    match goal with H : int_at_least 1 (get h "worker_pid") = true |- _ => apply int_at_least_ok in H as (z & -> & _) end.
    eauto. }
  split.
  - intros n ->. destruct (_ =? n)%Z eqn:En; [by apply Z.eqb_eq|done].
  - intros cutoff h -> [= ->]. destruct (Hpid h eq_refl) as [z Ez]. split; [eauto|]. intros Epid.
    destruct (match seq with Some _ => _ | None => _ end); [done|]. injection H as H _.
    apply negb_true_iff, andb_false_iff in H. fold (expected_pid state claim) in H. rewrite Ez in *. rewrite <-Epid in H.
    cbn in H. unfold num_eq in H.
    rewrite Z.eqb_refl in H. destruct H as [H|H]; [done|]. apply Z.leb_gt in H. done.
Qed.

Lemma pure_bind_any {A B} (m : M Jobs pyexn A) (f : A → M Jobs pyexn B) s r s' :
  pure m → (m ≫= f) s = (r, s') → s' = s ∨ ∃ a, m s = (Ok a, s) ∧ f a s = (r, s').
Proof.
  intros Hp. specialize (Hp s). cbv [mbind M_bind]. destruct (m s) as [[a|e] s1]; cbn in Hp; subst; [eauto|].
  intros [= _ <-]. by left.
Qed.

(** Follow a method through its reads; it may stop at any of them. *)
Ltac run_any H x Hx :=
  apply pure_bind_any in H as [->|(x & Hx & H)]; [by left| |solve [auto with jobs]].

Lemma lock_any {A} job (m : M Jobs pyexn A) s r s' :
  _exclusive_lock store_id job m s = (r, s') → same s s' ∨ ∃ s1, same s s1 ∧ m s1 = (r, s').
Proof.
  unfold _exclusive_lock. cbv [mbind M_bind gets]. cbn.
  assert (dir_of store_id s job = None → same s (put_dir store_id job ∅ s)) as Hdir.
  { intros E job' name. rewrite file_put. case_decide as Hj; [|done]. subst. unfold file_of. by rewrite E. }
  destruct (dir_of store_id s job) eqn:E; cbn; [by right; exists s|]. specialize (Hdir eq_refl). unfold mutate.
  destruct (j_writes s) as [[|n]|]; cbn; [intros [= _ <-]; by left|..]; intros H; right; (eexists; split; [|exact H]);
    intros job' name; by rewrite <-Hdir.
Qed.

Lemma due_same s s' job x d : same s s' → unknown_is_due s' job x d → unknown_is_due s job x d.
Proof. intros H [H1 H2 H3 H4 H5 H6 H7]. constructor; try done; rewrite <-!(same_doc s s' _ _ H); done. Qed.

Lemma declares_same s s1 job d reason err s' :
  same s s1 → declares_unknown s1 job d reason err s' → declares_unknown s job d reason err s'.
Proof.
  intros H (n & bs & Hn & Hbs & Hc). exists n, bs. split_and!; [done|done|]. intros job' name. rewrite Hc. by rewrite H.
Qed.

Lemma merged_unknown d reason err now :
  unknown_state d (merged d
    [field "status" (VStr (u "outcome_unknown")); field "outcome_unknown_reason" (VStr reason);
     field "error" (VStr err); field "returncode" VNone;
     field "updated_at_ms" (VInt (Z.max (int_of (get d "updated_at_ms")) now));
     field "revision" (VInt (int_of (get d "revision") + 1))]) reason err.
Proof.
  constructor; [unfold status_of, revision_of; by get_simpl..|get_simpl; cbn; lia|].
  intros k Hk. apply get_merged_ne. intros Hin. apply Hk. change (keys _) with (KStr <$> (u <$> unknown_fields)) in Hin.
  by apply list_elem_of_fmap in Hin as (f & [= ->] & Hin).
Qed.

(** A transition that changes the state of the job was due, and declares its outcome
    unknown. *)
Lemma transition_due s job execution x r s' :
  transition_to_outcome_unknown store_id job execution x s = (r, s') →
  doc s' job "state.json" = doc s job "state.json" ∨
  ∃ d reason err, unknown_is_due s job x d ∧ _required_text (x_reason x) = Ok reason ∧ _required_text (x_error x) = Ok err ∧
    declares_unknown s job d reason err s'.
Proof.
  unfold transition_to_outcome_unknown. intros H. run_any H x1 H1. run_any H x2 H2. run_any H reason H3. run_any H err H4.
  apply lift_ok in H3, H4.
  run_any H stale Hstale. apply lift_ok in Hstale. run_any H seq0 Hseq. apply lift_ok in Hseq. run_any H x5 H5. run_any H x6 H6.
  apply lock_any in H as [H|(s1 & Hsame & H)]; [by left; apply same_doc|].
  cut (doc s' job "state.json" = doc s1 job "state.json" ∨
       ∃ d, unknown_is_due s1 job x d ∧ declares_unknown s1 job d reason err s').
  { intros [E|(d & Hd & Hw)]; [left; by rewrite E; apply same_doc|right]. exists d, reason, err.
    split_and!; [by eapply due_same|done|done|by eapply declares_same]. }
  run_any H x7 H7. run_any H spec Hspec. run_any H x8 H8. run_any H d Hd. apply read_state_ok in Hd as [Hd Hv].
  run_any H x9 H9. cbv zeta in H. destruct (bool_decide (text_of (get d "status") ∈ TERMINAL_JOB_STATUSES)) eqn:Eopen.
  { injection H as _ <-. by left. }
  destruct (negb _ || negb _) eqn:Esame; [injection H as _ <-; by left|].
  run_any H claim Hc. destruct claim as [claim|]; [|injection H as _ <-; by left].
  run_any H holds Hh. destruct holds; [|injection H as _ <-; by left]. cbn [negb] in H.
  assert (unknown_is_due s1 job x d) as Hdue.
  { apply bool_decide_eq_false in Eopen. apply orb_false_iff in Esame as [Er Es].
    apply negb_false_iff, Z.eqb_eq in Er. apply negb_false_iff, bool_decide_eq_true in Es.
    apply expected_claim_ok in Hc. apply expected_heartbeat_ok in Hh as [Hs Hst].
    constructor; [done..| | |].
    - intros c Ec. rewrite Ec in Hc. destruct Hc as (cl & _ & Hcl). eauto.
    - intros v Ev. rewrite Ev in Hseq. cbn in Hseq. apply result_bind_ok in Hseq as (y & _ & Hy). injection Hy as <-. by apply Hs.
    - intros v h Ev Hdoc. rewrite Ev in Hstale. cbn in Hstale. apply result_bind_ok in Hstale as (y & _ & Hy). injection Hy as <-.
      destruct (x_claim_id x); [destruct Hc as (cl & -> & -> & _)|subst claim]; by eapply Hst. }
  run_any H x10 H10. cbv [mbind M_bind] in H. pose proof (reader_clock s1) as Hck.
  destruct (now_ms s1) as [[now|e] s2]; cbn [snd] in Hck; [|injection H as _ <-; left; by apply same_doc].
  set (n := merged d _) in H. unfold lift in H at 1. destruct (_validate_state job n); [|injection H as _ <-; left; by apply same_doc].
  unfold _write_json_atomic in H. cbv [mbind M_bind lift] in H. destruct (file_bytes n) as [bs|e] eqn:Ebs;
    [|injection H as _ <-; left; by apply same_doc].
  unfold write_file, mutate in H. pose proof (changed_insert s2 job "state.json" bs) as Hch.
  assert (∀ s3, changed s2 job "state.json" (Some bs) s3 →
    ∃ d, unknown_is_due s1 job x d ∧ declares_unknown s1 job d reason err s3) as Hdone.
  { intros s3 Hs3. exists d. split; [done|]. eapply declares_same; [exact Hck|]. exists n, bs. split; [apply merged_unknown|done]. }
  destruct (j_writes s2) as [[|k]|]; injection H as _ <-; [left; by apply same_doc|right; by apply Hdone..].
Qed.

(** A claim that the store returns has been validated. *)
Lemma read_claim_valid job s claim s' :
  read_claim store_id job s = (Ok (Some claim), s') →
  get claim "job_id" = VStr job ∧ (∃ at_ms, get claim "claimed_at_ms" = VInt at_ms) ∧
  int_at_least 1 (get claim "worker_pid") = true.
Proof.
  unfold read_claim. intros H. run_read H x1 H1. apply lock_ok in H as (s1 & _ & _ & H). run_read H x2 H2.
  run_read H spec H3. run_read H c H4. destruct c as [c|]; [|done]. run_read H x5 H5. apply lift_ok in H5.
  run_read H x6 H6. injection H as <- _. unfold _validate_claim, corrupt in H5. checks H5. bsimpl.
  split_and!; [by apply py_eq_text| |done].
  match goal with H : int_at_least 0 _ = true |- _ => apply int_at_least_ok in H as (z & Hz & _) end. eauto.
Qed.

(** Clearing a claim touches no other file. *)
Lemma clear_stale_claim_state job token claim s :
  doc (clear_stale_claim store_id job token claim s).2 job "state.json" = doc s job "state.json".
Proof.
  destruct (clear_stale_claim store_id job token claim s) as [r s'] eqn:H. cbn [snd]. revert H.
  unfold clear_stale_claim. intros H. cut (doc s' job "state.json" = doc s job "state.json" ∨ False); [by intros [?|?]|].
  run_any H x1 H1. destruct (negb _); [injection H as _ <-; by left|]. run_any H x2 H2.
  apply lock_any in H as [H|(s1 & Hsame & H)]; [by left; apply same_doc|]. left. rewrite <-(same_doc s s1) by done.
  cut (doc s' job "state.json" = doc s1 job "state.json" ∨ False); [by intros [?|?]|]. clear Hsame.
  run_any H x3 H3. run_any H spec Hspec. destruct (negb _); [injection H as _ <-; by left|].
  run_any H d Hd. run_any H x4 H4. destruct (negb _); [injection H as _ <-; by left|].
  run_any H c Hc. destruct c as [c|]; [|injection H as _ <-; by left]. run_any H x5 H5.
  destruct (negb _); [injection H as _ <-; by left|]. destruct (negb _); [injection H as _ <-; by left|]. left.
  pose proof (changed_delete s1 job "worker-claim.json" job "state.json") as Hch.
  rewrite decide_False in Hch by naive_solver. unfold doc. unfold unlink, mutate in H. cbv [mbind M_bind] in H.
  destruct (j_writes s1) as [[|n]|]; injection H as _ <-; [done| |]; by rewrite <-Hch.
Qed.

End safety.
