(* ===== verification/JobWorkers.v ===== *)
(** * Detached workers (src/unchain/jobs/_worker.py)

    [run_worker] as a program whose steps are the calls it makes: of the store,
    of [Popen] and of the child it watches.  Any number of workers of a job run
    at once, with supervisors and heartbeats in between; each may die at any
    step, and the pid of a dead one may be given to another.  The command of a
    job is launched at most once, and as it was reserved. *)

From S2P Require Import Prelude PyVal Json Models JournalPayload RequestLease ResourceLimits JsonParse Utf8Stream JobStore JobCodec JobSafety.

(** ** The program *)

(** What the operating system and the pumps answer to a step. *)
Record answers : Type := mkAnswers {
  an_popen : option Z;          (** the pid of the child, or an exception *)
  an_poll : option Z;           (** [process.poll()] *)
  an_deadline : bool;           (** [time.monotonic() >= deadline] *)
  an_wait : option Z;           (** the return code once the child has been waited for or terminated *)
  an_stdout_truncated : bool;
  an_stderr_truncated : bool;
  an_capture_errors : list pystr;
  an_message : pystr;           (** the text of an exception *)
}.

Record receipt : Type := mkReceipt {
  rc_status : pystr;
  rc_error : pystr;
  rc_returncode : Z;
  rc_timed_out : bool;
  rc_cancelled : bool;
  rc_stdout_truncated : bool;
  rc_stderr_truncated : bool;
}.

(** Where a worker is: before the call that the name says. *)
Inductive pc : Type :=
| WSpec
| WClaim (spec : pydict)
| WLease (spec : pydict)
| WLoad (spec : pydict)
| WStarting (spec : pydict) (snapshot : DurableJobSnapshot)
| WCancel (spec : pydict) (snapshot : DurableJobSnapshot)
| WCancelled (spec : pydict) (snapshot : DurableJobSnapshot)
| WFence (spec : pydict) (snapshot : DurableJobSnapshot)
| WLost (spec : pydict) (snapshot : DurableJobSnapshot)
| WLaunch (spec : pydict) (snapshot : DurableJobSnapshot)
| WRunning (spec : pydict) (snapshot : DurableJobSnapshot) (child : Z)
| WWatch (spec : pydict) (snapshot : DurableJobSnapshot) (child : Z)
| WDrain (spec : pydict) (snapshot : DurableJobSnapshot) (child : Z) (cancelled timed_out : bool)
| WReceipt (spec : pydict) (snapshot : DurableJobSnapshot) (child : Z) (r : receipt)
| WRecord (snapshot : DurableJobSnapshot) (child : option Z)        (** [_record_orchestration_failure] *)
| WFailure (snapshot : DurableJobSnapshot) (child : option Z) (returncode : option Z)
| WDone (code : Z)
| WDead.

Record Worker : Type := mkWorker {
  w_job : pystr;
  w_token : pystr;
  w_pid : Z;
  w_environment : pystr;        (** [JobEnvironmentProfile.capture(os.environ).digest] *)
  w_pc : pc;
}.

Definition with_pc (p : pc) (w : Worker) : Worker :=
  mkWorker (w_job w) (w_token w) (w_pid w) (w_environment w) p.

(** What [Popen] was called with. *)
Record launch : Type := mkLaunch { l_job : pystr; l_argv : pyval; l_cwd : pyval }.

Definition int_text (z : Z) : pystr := default [] (int_repr z).
Definition opt_int (o : option Z) : pyval := match o with Some z => VInt z | None => VNone end.

(** The receipt of a command that has ended. *)
Definition receipt_of (spec : pydict) (returncode : Z) (cancelled timed_out : bool) (a : answers) : receipt :=
  let '(status, error) :=
    if cancelled then (u "cancelled", u "command cancelled")
    else if timed_out then
      (u "timed_out", u "command timed out after " ++ int_text (int_of (get spec "timeout_ms")) ++ u " ms")
    else match an_capture_errors a with
         | (_ :: _) as errors => (u "failed", join (u "; ") errors)
         | [] =>
             if (returncode =? 0)%Z then (u "completed", [])
             else (u "failed", u "command exited with return code " ++ int_text returncode)
         end in
  mkReceipt status error returncode timed_out cancelled (an_stdout_truncated a) (an_stderr_truncated a).

Section workers.
Context (store_id : pystr).

(** [try: m ... except BaseException: ...]: where an exception leads.  Dying is
    not an exception. *)
Definition attempt {A} (m : M Jobs pyexn A) (k : A → pc) (failed : pc) : M Jobs pyexn pc :=
  try_except (a ← m; mret (k a)) (λ e, if bool_decide (e = Crashed) then raise e else mret failed).

(** [store.update_state(job_id, worker_token=..., status=..., worker_pid=..., **updates)] *)
Definition put_state (w : Worker) (status : string) (updates : pydict) : M Jobs pyexn DurableJobSnapshot :=
  update_state store_id (w_job w) (w_token w) (Some (u status))
    (field "worker_pid" (VInt (w_pid w)) :: updates).

Definition put_receipt (w : Worker) (child : Z) (r : receipt) : M Jobs pyexn DurableJobSnapshot :=
  update_state store_id (w_job w) (w_token w) (Some (rc_status r))
    [field "worker_pid" (VInt (w_pid w)); field "child_pid" (VInt child);
     field "returncode" (VInt (rc_returncode r)); field "timed_out" (VBool (rc_timed_out r));
     field "cancelled" (VBool (rc_cancelled r)); field "error" (VStr (rc_error r));
     field "stdout_truncated" (VBool (rc_stdout_truncated r));
     field "stderr_truncated" (VBool (rc_stderr_truncated r))].

Definition claim_lost (snapshot : DurableJobSnapshot) : expectation :=
  mkExpectation (VInt (sj_revision snapshot)) (sj_status snapshot)
    (VStr (u "worker_claim_lost_before_launch")) (VStr (u "worker claim changed before command launch"))
    None None None.

(** [_record_orchestration_failure]: look at the job, stop the child, and record
    the failure unless the child may still run. *)
Definition record_failure (a : answers) (snapshot : DurableJobSnapshot) (child : option Z) : M Jobs pyexn pc :=
  attempt (load store_id (sj_job_id snapshot) (sj_execution_id snapshot))
    (λ current,
      if completed current then WDone 1
      else match child with
           | None => WFailure snapshot (sj_child_pid current) None
           | Some pid =>
               match an_wait a with
               | None => WDone 1
               | Some returncode => WFailure snapshot (Some pid) (Some returncode)
               end
           end) (WDone 1).

Definition put_failure (a : answers) (w : Worker) (snapshot : DurableJobSnapshot) (child returncode : option Z)
    : M Jobs pyexn pc :=
  attempt
    (update_state store_id (sj_job_id snapshot) (w_token w) (Some (u "failed"))
       [field "worker_pid" (VInt (w_pid w)); field "child_pid" (opt_int child);
        field "returncode" (opt_int returncode);
        field "error" (VStr (u "durable worker failed: " ++ an_message a))])
    (λ _, WDone 1) (WDone 1).

(** The next step of a worker, and what it launches. *)
Definition worker_step (a : answers) (w : Worker) : M Jobs pyexn (pc * option launch) :=
  let quietly (m : M Jobs pyexn pc) := p ← m; mret (p, None) in
  match w_pc w with
  | WSpec =>
      quietly (attempt (load_spec store_id (w_job w))
        (λ spec,
          if negb (py_eq (VStr (w_environment w)) (get spec "environment_digest")) then WDone 4
          else if negb (bool_decide (text_of (get spec "worker_token") = w_token w)) then WDone 2
          else WClaim spec) (WDone 1))
  | WClaim spec =>
      quietly (attempt (claim_worker store_id (w_job w) (w_token w) (VInt (w_pid w)))
        (λ claimed : bool, if claimed then WLease spec else WDone 0) (WDone 1))
  | WLease spec =>
      quietly (attempt (write_heartbeat store_id (w_job w) (w_token w) (VInt (w_pid w)))
        (λ alive : bool, if alive then WLoad spec else WDone 1) (WDone 1))
  | WLoad spec =>
      quietly (attempt (load store_id (w_job w) (text_of (get spec "execution_id"))) (WStarting spec) (WDone 1))
  | WStarting spec snapshot =>
      quietly (attempt (put_state w "starting" []) (WCancel spec) (WRecord snapshot None))
  | WCancel spec snapshot =>
      quietly (attempt (cancel_requested store_id (w_job w))
        (λ asked : bool, if asked then WCancelled spec snapshot else WFence spec snapshot) (WRecord snapshot None))
  | WCancelled spec snapshot =>
      quietly (attempt
        (put_state w "cancelled" [field "cancelled" (VBool true);
                                  field "error" (VStr (u "cancelled before command launch"))])
        (λ _, WDone 0) (WRecord snapshot None))
  | WFence spec snapshot =>
      quietly (attempt (worker_claim_is_current store_id (w_job w) (w_token w) (VInt (w_pid w)))
        (λ current : bool, if current then WLaunch spec snapshot else WLost spec snapshot) (WRecord snapshot None))
  | WLost spec snapshot =>
      quietly (attempt
        (transition_to_outcome_unknown store_id (w_job w) (sj_execution_id snapshot) (claim_lost snapshot))
        (λ _, WDone 3) (WRecord snapshot None))
  | WLaunch spec snapshot =>
      mret (match an_popen a with
            | Some child => (WRunning spec snapshot child,
                             Some (mkLaunch (w_job w) (get spec "argv") (get spec "cwd")))
            | None => (WRecord snapshot None, None)
            end)
  | WRunning spec snapshot child =>
      quietly (attempt (put_state w "running" [field "child_pid" (VInt child)])
        (λ snapshot, WWatch spec snapshot child) (WRecord snapshot (Some child)))
  | WWatch spec snapshot child =>
      match an_poll a with
      | Some _ => mret (WDrain spec snapshot child false false, None)
      | None =>
          quietly (attempt (cancel_requested store_id (w_job w))
            (λ asked : bool,
              if asked then WDrain spec snapshot child true false
              else if an_deadline a then WDrain spec snapshot child false true
              else WWatch spec snapshot child) (WRecord snapshot (Some child)))
      end
  | WDrain spec snapshot child cancelled timed_out =>
      mret (match an_wait a with
            | None => (WDone 3, None)
            | Some returncode =>
                (WReceipt spec snapshot child (receipt_of spec returncode cancelled timed_out a), None)
            end)
  | WReceipt spec snapshot child r =>
      quietly (attempt (put_receipt w child r) (λ _, WDone 0) (WRecord snapshot (Some child)))
  | WRecord snapshot child => quietly (record_failure a snapshot child)
  | WFailure snapshot child returncode => quietly (put_failure a w snapshot child returncode)
  | WDone code => mret (WDone code, None)
  | WDead => mret (WDead, None)
  end.

(** ** Workers together *)

Record World : Type := mkWorld {
  wd_jobs : Jobs;
  wd_workers : gmap nat Worker;
  wd_launches : list (nat * launch);     (** who launched what *)
}.

(** A process that exists. *)
Definition alive (w : Worker) : bool := match w_pc w with WDone _ | WDead => false | _ => true end.

(** A worker and the text of an exception are made of Unicode text. *)
Definition text_worker (w : Worker) : Prop := code_points (w_token w).
Definition text_answers (a : answers) : Prop :=
  Forall code_points (an_capture_errors a) ∧ code_points (an_message a).

Inductive world_step : relation World :=
(** supervisors, heartbeats and readers call the store, and pumps write *)
| ws_store s s' ws ls : store_step store_id s s' → world_step (mkWorld s ws ls) (mkWorld s' ws ls)
(** a worker is started, with a pid that no process has *)
| ws_spawn s ws ls i job token pid environment :
    ws !! i = None → code_points token →
    (∀ j w, ws !! j = Some w → alive w = true → w_pid w ≠ pid) →
    world_step (mkWorld s ws ls) (mkWorld s (<[i := mkWorker job token pid environment WSpec]> ws) ls)
(** a worker takes a step *)
| ws_step s ws ls i w a p o s' :
    ws !! i = Some w → text_answers a → worker_step a w s = (Ok (p, o), s') →
    world_step (mkWorld s ws ls)
      (mkWorld s' (<[i := with_pc p w]> ws) (ls ++ match o with Some l => [(i, l)] | None => [] end))
(** or dies in it *)
| ws_crash s ws ls i w a e s' :
    ws !! i = Some w → text_answers a → worker_step a w s = (Err e, s') →
    world_step (mkWorld s ws ls) (mkWorld s' (<[i := with_pc WDead w]> ws) ls)
| ws_die s ws ls i w :
    ws !! i = Some w → world_step (mkWorld s ws ls) (mkWorld s (<[i := with_pc WDead w]> ws) ls).

(** ** Where a worker can be *)

(** The specification it has read. *)
Definition spec_of (p : pc) : option pydict :=
  match p with
  | WClaim spec | WLease spec | WLoad spec | WStarting spec _ | WCancel spec _ | WCancelled spec _ | WFence spec _
  | WLost spec _ | WLaunch spec _ | WRunning spec _ _ | WWatch spec _ _ | WDrain spec _ _ _ _ | WReceipt spec _ _ _ =>
      Some spec
  | _ => None
  end.

(** It has claimed its job. *)
Definition claimed (p : pc) : bool :=
  match p with WSpec | WClaim _ | WDone _ | WDead => false | _ => true end.

(** It has written that the job is starting. *)
Definition started (p : pc) : bool :=
  match p with
  | WCancel _ _ | WCancelled _ _ | WFence _ _ | WLost _ _ | WLaunch _ _ | WRunning _ _ _ | WWatch _ _ _
  | WDrain _ _ _ _ _ | WReceipt _ _ _ _ => true
  | _ => false
  end.

(** It may still launch the command. *)
Definition may_launch (p : pc) : bool :=
  match p with
  | WSpec | WClaim _ | WLease _ | WLoad _ | WStarting _ _ | WCancel _ _ | WFence _ _ | WLaunch _ _ => true
  | _ => false
  end.

Definition at_launch (p : pc) : bool := match p with WLaunch _ _ => true | _ => false end.

(** It has found that nobody asked to cancel. *)
Definition unasked (p : pc) : bool := match p with WFence _ _ | WLaunch _ _ => true | _ => false end.

Definition text_pc (p : pc) : Prop := match p with WReceipt _ _ _ r => code_points (rc_error r) | _ => True end.

(** The job is no longer queued, and its claim is that of a pid. *)
Definition left_queue (s : Jobs) (job : pystr) : Prop :=
  ∃ d, doc store_id s job "state.json" = Some d ∧ status_of d ≠ u "queued".
Definition claim_of (s : Jobs) (job : pystr) (pid : Z) : Prop :=
  ∃ c, doc store_id s job "worker-claim.json" = Some c ∧ get c "worker_pid" = VInt pid.

Lemma left_queue_evolves s s' job : evolves store_id s s' → left_queue s job → left_queue s' job.
Proof.
  intros He (d & Hd & Hq). destruct (ev_state _ _ _ He _ _ Hd) as (d' & Hd' & Hstep). exists d'. split; [done|].
  intros H. destruct Hq. eapply follows_queued; [apply Hstep|done].
Qed.

Lemma claim_of_evolves s s' job pid :
  evolves store_id s s' → left_queue s job → claim_of s job pid → claim_of s' job pid.
Proof.
  intros He (d & Hd & Hq) (c & Hc & Hpid). exists c. split; [|done]. unfold doc in *.
  by rewrite (ev_claim _ _ _ He _ _ Hd Hq).
Qed.

Lemma doc_spec_evolves s s' job spec :
  evolves store_id s s' → doc store_id s job "spec.json" = Some spec → doc store_id s' job "spec.json" = Some spec.
Proof.
  intros He. unfold doc. destruct (file_of store_id s job "spec.json") as [bs|] eqn:E; [|done].
  by rewrite (ev_spec _ _ _ He _ _ E).
Qed.

(** ** One step *)

Lemma attempt_ok {A} (m : M Jobs pyexn A) k failed s p s' :
  attempt m k failed s = (Ok p, s') →
  (∃ a, m s = (Ok a, s') ∧ p = k a) ∨ p = failed.
Proof.
  unfold attempt, try_except. cbv [mbind M_bind mret M_ret]. destruct (m s) as [[a|e] s1].
  - intros [= <- <-]. left. eauto.
  - case_bool_decide; [done|]. intros [= <- <-]. by right.
Qed.

Lemma attempt_state {A} (m : M Jobs pyexn A) k failed s : (attempt m k failed s).2 = (m s).2.
Proof.
  unfold attempt, try_except. cbv [mbind M_bind mret M_ret]. destruct (m s) as [[a|e] s1]; [done|]. by case_bool_decide.
Qed.

Lemma text_receipt spec returncode cancelled timed_out a :
  text_answers a → code_points (rc_error (receipt_of spec returncode cancelled timed_out a)).
Proof.
  intros [Hc Hm]. unfold receipt_of. assert (∀ z, code_points (int_text z)) as Hint.
  { intros z. unfold int_text. destruct (int_repr z) eqn:E; [|constructor].
    by eapply code_points_ascii, int_repr_ascii. }
  destruct cancelled; [apply code_points_u|]. destruct timed_out.
  { cbn [rc_error]. rewrite !code_points_app. split_and!; [apply code_points_u|apply Hint|apply code_points_u]. }
  revert Hc. destruct (an_capture_errors a) as [|e es]; intros Hc.
  - destruct (returncode =? 0)%Z; cbn [rc_error]; [constructor|]. rewrite code_points_app.
    split; [apply code_points_u|apply Hint].
  - cbn [rc_error]. by apply code_points_join_sep; [apply code_points_u|].
Qed.

Local Ltac printables :=
  repeat (apply Forall_cons; split; [cbn [snd]; try constructor; try apply code_points_u|]); try apply Forall_nil_2.

(** Whatever a worker does, it does it by methods of the store. *)
Lemma worker_step_keeps a w s :
  code_points store_id → text_worker w → text_answers a → text_pc (w_pc w) → sound store_id s →
  sound store_id (worker_step a w s).2 ∧ evolves store_id s (worker_step a w s).2.
Proof.
  intros Hst Hw Ha Hp Hs.
  assert (∀ A (m : M Jobs pyexn A) k failed, keeps store_id m →
    let s' := (p ← attempt m k failed; mret (p, @None launch)) s in sound store_id s'.2 ∧ evolves store_id s s'.2) as Hq.
  { intros A m k failed Hm. cbv zeta. specialize (Hm s Hs). unfold good in Hm. rewrite <-(attempt_state m k failed) in Hm.
    cbv [mbind M_bind mret M_ret]. destruct (attempt m k failed s) as [[] ?]; exact Hm. }
  assert (∀ r : pc * option launch, let s' := (mret r : M Jobs pyexn _) s in
    sound store_id s'.2 ∧ evolves store_id s s'.2) as Hr by (intros r; by split).
  unfold worker_step, record_failure, put_failure. cbv zeta. destruct (w_pc w) eqn:E; try apply Hr; try apply Hq.
  - apply keeps_load_spec.
  - by apply keeps_claim_worker.
  - by apply keeps_write_heartbeat.
  - apply keeps_load.
  - apply keeps_update_state. printables.
  - apply keeps_cancel_requested.
  - apply keeps_update_state. printables.
  - apply keeps_claim_is_current.
  - apply keeps_outcome_unknown; constructor; apply code_points_u.
  - apply keeps_update_state. printables.
  - destruct (an_poll a); [apply Hr|]. apply Hq, keeps_cancel_requested.
  - apply keeps_update_state. cbn in Hp. printables. done.
  - apply keeps_load.
  - apply keeps_update_state. printables; [by destruct child; constructor|by destruct returncode; constructor|].
    apply Ha.
Qed.

(** What a step may lead to. *)
Record step_facts (w : Worker) (s s' : Jobs) (p : pc) (o : option launch) : Prop := {
  sf_text : text_pc p;
  sf_spec spec : spec_of p = Some spec → doc store_id s' (w_job w) "spec.json" = Some spec;
  sf_started : started p = true → left_queue s' (w_job w);
  sf_fence : at_launch p = true → claim_of s' (w_job w) (w_pid w);
  sf_claimed : claimed p = true → claimed (w_pc w) = true ∨
               ∃ d, doc store_id s (w_job w) "state.json" = Some d ∧ status_of d = u "queued";
  sf_may : may_launch p = true → may_launch (w_pc w) = true;
  sf_unasked : unasked p = true → unasked (w_pc w) = true ∨ file_of store_id s' (w_job w) "cancel-request.json" = None;
  sf_alive : match p with WDone _ | WDead => True | _ => alive w = true end;
  sf_launch l : o = Some l → at_launch (w_pc w) = true ∧ may_launch p = false ∧
     l_job l = w_job w ∧ ∃ spec, spec_of (w_pc w) = Some spec ∧ l_argv l = get spec "argv" ∧ l_cwd l = get spec "cwd";
}.

(** What holds of a worker in a store. *)
Record worker_ok (s : Jobs) (w : Worker) : Prop := {
  wo_token : text_worker w;
  wo_text : text_pc (w_pc w);
  wo_spec spec : spec_of (w_pc w) = Some spec → doc store_id s (w_job w) "spec.json" = Some spec;
  wo_started : started (w_pc w) = true → left_queue s (w_job w);
  wo_fence : at_launch (w_pc w) = true → claim_of s (w_job w) (w_pid w);
}.

Lemma worker_ok_evolves s s' w : evolves store_id s s' → worker_ok s w → worker_ok s' w.
Proof.
  intros He [H1 H2 H3 H4 H5]. split; [done..| | |].
  - intros spec Hspec. by eapply doc_spec_evolves, H3.
  - intros Hst. by eapply left_queue_evolves, H4.
  - intros Hl. eapply claim_of_evolves; [done| |by apply H5]. apply H4. by destruct (w_pc w).
Qed.

(** A step within what the worker has already established. *)
Lemma facts_next w s s' p :
  worker_ok s' w → alive w = true → text_pc p → (spec_of p = None ∨ spec_of p = spec_of (w_pc w)) →
  (started p = true → started (w_pc w) = true) → at_launch p = false →
  (claimed p = true → claimed (w_pc w) = true) → (may_launch p = true → may_launch (w_pc w) = true) →
  unasked p = false → step_facts w s s' p None.
Proof.
  intros [_ _ H3 H4 H5] Ha Ht Hspec Hst Hl Hc Hm Hu. split; try done; auto.
  - intros spec E. apply H3. destruct Hspec as [E'|E']; congruence.
  - congruence.
  - congruence.
  - by destruct p.
Qed.

(** Split a step into the call that it makes and where the call leads. *)
Ltac call H x Hx :=
  apply M_bind_ok in H as (? & ? & H & [= <- <- <-]);
  apply attempt_ok in H as [(x & Hx & ->)| ->].

Lemma worker_step_facts a w s p o s' :
  code_points store_id → text_answers a → sound store_id s → worker_ok s w →
  worker_step a w s = (Ok (p, o), s') → alive w = true → step_facts w s s' p o.
Proof.
  intros Hst Ha Hs Hw H Hal. pose proof Hw as [Htok Htext _ _ _].
  destruct (worker_step_keeps a w s Hst Htok Ha Htext Hs) as [Hs' He]. rewrite H in Hs', He. cbn [snd] in *.
  pose proof (worker_ok_evolves s s' w He Hw) as Hw'. pose proof Hw' as [_ _ Hspec Hleft Hclaim].
  unfold worker_step, record_failure, put_failure in H. cbv zeta in H.
  assert (∀ p, text_pc p → (spec_of p = None ∨ spec_of p = spec_of (w_pc w)) →
    (started p = true → started (w_pc w) = true) → at_launch p = false →
    (claimed p = true → claimed (w_pc w) = true) → (may_launch p = true → may_launch (w_pc w) = true) →
    unasked p = false → step_facts w s s' p None) as Hnext by (intros; by apply facts_next).
  destruct (w_pc w) as [|spec|spec|spec|spec sn|spec sn|spec sn|spec sn|spec sn|spec sn|spec sn ch|spec sn ch
    |spec sn ch c t|spec sn ch r|sn ch|sn ch rc|code|] eqn:E.
  - call H spec Hx; [|by apply Hnext; auto].
    destruct (py_eq _ _); cbn [negb]; [|by apply Hnext; auto].
    destruct (bool_decide _); cbn [negb]; [|by apply Hnext; auto].
    apply load_spec_ok in Hx. split; rewrite ?E; try done; try (left; done). by intros ? [= <-].
  - call H ok Hx; [|by apply Hnext; auto]. destruct ok; [|by apply Hnext; auto].
    apply claim_worker_ok in Hx. split; rewrite ?E; try done; auto.
  - call H ok Hx; [|by apply Hnext; auto]. destruct ok; by apply Hnext; auto.
  - call H snap Hx; by apply Hnext; auto.
  - call H snap Hx; [|by apply Hnext; auto]. apply update_state_ok in Hx as (d & Hd & Hq); [|done|printables|done].
    split; rewrite ?E; try done; auto. intros _. exists d. rewrite Hq. done.
  - call H ok Hx; [|by apply Hnext; auto]. destruct ok; [by apply Hnext; auto|].
    apply cancel_requested_ok in Hx. rewrite <-E in Hspec, Hleft. split; rewrite ?E; try done; auto; intros; (apply Hleft || apply Hspec); by rewrite E.
  - call H snap Hx; by apply Hnext; auto.
  - call H ok Hx; [|by apply Hnext; auto]. destruct ok; [|by apply Hnext; auto].
    apply claim_is_current_ok in Hx. split; rewrite ?E; try done; auto.
  - call H snap Hx; by apply Hnext; auto.
  - destruct (an_popen a) as [child|]; injection H as <- <- <-; [|by apply Hnext; auto].
    split; rewrite ?E; try done; auto. intros l [= <-]. split_and!; try done. by exists spec.
  - call H snap Hx; by apply Hnext; auto.
  - destruct (an_poll a); [injection H as <- <- <-; by apply Hnext; auto|].
    call H ok Hx; [|by apply Hnext; auto]. destruct ok; [by apply Hnext; auto|]. destruct (an_deadline a); by apply Hnext; auto.
  - destruct (an_wait a); injection H as <- <- <-; [|by apply Hnext; auto].
    apply Hnext; auto. by apply text_receipt.
  - call H snap Hx; by apply Hnext; auto.
  - call H snap Hx; [|by apply Hnext; auto]. destruct (completed snap); [by apply Hnext; auto|].
    destruct ch; [destruct (an_wait a)|]; by apply Hnext; auto.
  - call H snap Hx; by apply Hnext; auto.
  - unfold alive in Hal. by rewrite E in Hal.
  - unfold alive in Hal. by rewrite E in Hal.
Qed.

(** ** All of them *)

(** What holds of a launch by worker [i]: the job has left the queue, its claim
    is that of the worker, which will not launch again, and no other worker that
    has claimed the job has that pid. *)
Record launch_ok (s : Jobs) (ws : gmap nat Worker) (i : nat) (l : launch) : Prop := {
  lo_left : left_queue s (l_job l);
  lo_spec : ∃ spec, doc store_id s (l_job l) "spec.json" = Some spec ∧
                    l_argv l = get spec "argv" ∧ l_cwd l = get spec "cwd";
  lo_worker : ∃ w, ws !! i = Some w ∧ may_launch (w_pc w) = false ∧ claim_of s (l_job l) (w_pid w) ∧
    ∀ j w', j ≠ i → ws !! j = Some w' → w_job w' = l_job l → claimed (w_pc w') = true → w_pid w' ≠ w_pid w;
}.

Record world_ok (x : World) : Prop := {
  wk_sound : sound store_id (wd_jobs x);
  wk_workers i w : wd_workers x !! i = Some w → worker_ok (wd_jobs x) w;
  wk_pids i j w w' : wd_workers x !! i = Some w → wd_workers x !! j = Some w' →
                     alive w = true → alive w' = true → w_pid w = w_pid w' → i = j;
  wk_launches i l : (i, l) ∈ wd_launches x → launch_ok (wd_jobs x) (wd_workers x) i l;
  wk_once : NoDup ((λ p, l_job p.2) <$> wd_launches x);
}.

Lemma launch_ok_evolves s s' ws i l : evolves store_id s s' → launch_ok s ws i l → launch_ok s' ws i l.
Proof.
  intros He [H1 (spec & H2 & H3) (w & H4 & H5 & H6 & H7)]. split.
  - by eapply left_queue_evolves.
  - exists spec. split; [by eapply doc_spec_evolves|done].
  - exists w. split_and!; try done. by eapply claim_of_evolves.
Qed.

Lemma claimed_alive p w : claimed p = true → alive (with_pc p w) = true.
Proof. by destruct p. Qed.

(** A worker moves on: to a place where it has claimed nothing new and may not
    launch more. *)
Lemma launch_ok_move s ws i l j w p :
  launch_ok s ws i l → ws !! j = Some w → (may_launch p = true → may_launch (w_pc w) = true) →
  (claimed p = true → claimed (w_pc w) = true ∨ w_job w ≠ l_job l) →
  launch_ok s (<[j := with_pc p w]> ws) i l.
Proof.
  intros [H1 H2 (wi & H4 & H5 & H6 & H7)] Hj Hm Hc. split; [done..|]. destruct (decide (i = j)) as [->|Hij].
  - assert (w = wi) as -> by congruence. exists (with_pc p wi). rewrite lookup_insert_eq. split_and!; [done| |done|].
    + cbn. destruct (may_launch p); [|done]. by rewrite <-H5, Hm.
    + intros k w' Hk. rewrite lookup_insert_ne by done. by apply H7.
  - exists wi. rewrite lookup_insert_ne by done. split_and!; try done. intros k w' Hk.
    destruct (decide (k = j)) as [->|Hkj]; [|rewrite lookup_insert_ne by done; by apply H7].
    rewrite lookup_insert_eq. intros [= <-]. cbn. intros Hjob Hcl. destruct (Hc Hcl) as [Hcw|Hne]; [|done].
    by apply (H7 j w).
Qed.

(** A move of one worker in a store that evolves. *)
Lemma world_ok_move s ws ls i w p s' :
  world_ok (mkWorld s ws ls) → ws !! i = Some w → sound store_id s' → evolves store_id s s' →
  worker_ok s' (with_pc p w) → (alive (with_pc p w) = true → alive w = true) →
  (may_launch p = true → may_launch (w_pc w) = true) →
  (claimed p = true → claimed (w_pc w) = true ∨
     ∃ d, doc store_id s (w_job w) "state.json" = Some d ∧ status_of d = u "queued") →
  world_ok (mkWorld s' (<[i := with_pc p w]> ws) ls).
Proof.
  intros [K1 K2 K3 K4 K5] Hi Hs' He Hw Hal Hm Hc. cbn in *. split; cbn; [done| | |intros k l Hl|done].
  - intros j w' [[<- <-]|[Hj Hw']]%lookup_insert_Some; [done|]. by eapply worker_ok_evolves, K2.
  - intros j k w1 w2 H1 H2 A1 A2 Hpid.
    assert (∀ j w1, <[i := with_pc p w]> ws !! j = Some w1 → alive w1 = true →
      ∃ w0, ws !! j = Some w0 ∧ alive w0 = true ∧ w_pid w0 = w_pid w1) as Hold.
    { intros j0 w0 [[<- <-]|[_ ?]]%lookup_insert_Some Ha0; [by exists w; auto|eauto]. }
    destruct (Hold _ _ H1 A1) as (v1 & ? & ? & ?), (Hold _ _ H2 A2) as (v2 & ? & ? & ?).
    apply (K3 j k v1 v2); congruence || done.
  - apply launch_ok_move; [by eapply launch_ok_evolves, K4|done..|].
    intros Hcl. destruct (Hc Hcl) as [?|(d & Hd & Hq)]; [by left|]. right. intros Hjob.
    destruct (K4 _ _ Hl) as [(d' & Hd' & Hq') _ _]. rewrite Hjob in Hd. congruence.
Qed.

Lemma stopped_ok s w : worker_ok s w → worker_ok s (with_pc WDead w).
Proof. intros [H _ _ _ _]. by split. Qed.

Lemma with_pc_same w : with_pc (w_pc w) w = w.
Proof. by destruct w. Qed.

Lemma stopped_step s ws ls i w a p o s' :
  world_ok (mkWorld s ws ls) → ws !! i = Some w → alive w = false → worker_step a w s = (Ok (p, o), s') →
  world_ok (mkWorld s' (<[i := with_pc p w]> ws) (ls ++ match o with Some l => [(i, l)] | None => [] end)).
Proof.
  intros Hx Hi Hal H. unfold worker_step, alive in *. cbv zeta in H.
  assert (p = w_pc w ∧ o = None ∧ s' = s) as (-> & -> & ->).
  { destruct (w_pc w); try done; by injection H as <- <- <-. }
  rewrite app_nil_r, with_pc_same, insert_id by done. done.
Qed.

Lemma claim_of_pid s job p p' : claim_of s job p → claim_of s job p' → p = p'.
Proof. intros (c & Hc & Hp) (c' & Hc' & Hp'). congruence. Qed.

(** At most one launch: the launcher is at the fence with the claim of its job,
    so nobody has launched before. *)
Lemma launch_is_new s ws ls i w :
  world_ok (mkWorld s ws ls) → ws !! i = Some w → at_launch (w_pc w) = true → w_job w ∉ (λ p, l_job p.2) <$> ls.
Proof.
  intros [K1 K2 K3 K4 K5] Hi Hl ([k l] & Hjob & Hin)%list_elem_of_fmap. cbn in *.
  destruct (K4 _ _ Hin) as [_ _ (v & Hv & Hm & Hc & Ho)]. destruct (K2 _ _ Hi) as [_ _ _ _ Hcl].
  specialize (Hcl Hl). rewrite Hjob in Hcl. destruct (decide (i = k)) as [<-|Hne].
  - assert (v = w) as -> by congruence. by destruct (w_pc w).
  - apply (Ho i w); [done..|by destruct (w_pc w)|]. by eapply claim_of_pid.
Qed.

Lemma launch_ok_new s ws ls i w p l s' :
  world_ok (mkWorld s ws ls) → ws !! i = Some w → alive w = true → evolves store_id s s' →
  step_facts w s s' p (Some l) → launch_ok s' (<[i := with_pc p w]> ws) i l.
Proof.
  intros [K1 K2 K3 K4 K5] Hi Hal He Hf. destruct (sf_launch _ _ _ _ _ Hf l eq_refl) as (Hl & Hm & Hjob & spec & Hspec & Hargv).
  cbn in *. pose proof (worker_ok_evolves _ _ _ He (K2 _ _ Hi)) as [_ _ H3 H4 H5]. rewrite <-Hjob in *. split.
  - apply H4. by destruct (w_pc w).
  - exists spec. split; [by apply H3|done].
  - exists (with_pc p w). rewrite lookup_insert_eq. split_and!; [done..|by apply H5|].
    intros j w' Hj. rewrite lookup_insert_ne by done. intros Hw' _ Hc Hpid. destruct Hj.
    apply (K3 j i w' w); try done. by apply (claimed_alive _ w') in Hc; destruct w'.
Qed.

Lemma world_started_ok s : sound store_id s → world_ok (mkWorld s ∅ []).
Proof.
  intros Hs. split; cbn; [done| | |by intros i l ?%elem_of_nil|constructor].
  - intros i w. by rewrite lookup_empty.
  - intros i j w w'. by rewrite lookup_empty.
Qed.

Lemma world_store_ok s s' ws ls :
  world_ok (mkWorld s ws ls) → sound store_id s' → evolves store_id s s' → world_ok (mkWorld s' ws ls).
Proof.
  intros [K1 K2 K3 K4 K5] Hs' He. cbn in *. split; cbn; [done| |done| |done].
  - intros j w Hw. by eapply worker_ok_evolves, K2.
  - intros j l Hl. by eapply launch_ok_evolves, K4.
Qed.

Lemma world_step_ok x x' : code_points store_id → world_ok x → world_step x x' → world_ok x'.
Proof.
  intros Hst Hx Hstep.
  destruct Hstep as [s s' ws ls Hs|s ws ls i job token pid environment Hi Ht Hpid|s ws ls i w a p o s' Hi Ha H
    |s ws ls i w a e s' Hi Ha H|s ws ls i w Hi].
  - destruct (step_keeps _ _ _ Hst Hs (wk_sound _ Hx)) as [Hs' He]. by eapply world_store_ok.
  - destruct Hx as [K1 K2 K3 K4 K5]. cbn in *. split; cbn; [done| | | |done].
    + intros j w [[<- <-]|[_ ?]]%lookup_insert_Some; [by split|by eapply K2].
    + intros j k w w' [[<- <-]|[Hj H1]]%lookup_insert_Some [[<- <-]|[Hk H2]]%lookup_insert_Some A1 A2 E; [done| | |].
      * by destruct (Hpid _ _ H2 A2).
      * by destruct (Hpid _ _ H1 A1).
      * by apply (K3 j k w w').
    + intros j l Hl. destruct (K4 _ _ Hl) as [H1 H2 (w & H3 & H4 & H5 & H6)]. split; [done..|]. exists w.
      rewrite lookup_insert_ne by congruence. split_and!; try done. intros k w'.
      destruct (decide (k = i)) as [->|Hk]; [rewrite lookup_insert_eq; by intros _ [= <-]|].
      rewrite lookup_insert_ne by done. apply H6.
  - pose proof Hx as [K1 K2 K3 K4 K5]. cbn in *. destruct (K2 _ _ Hi) as [Htok Htext _ _ _].
    destruct (worker_step_keeps a w s Hst Htok Ha Htext K1) as [Hs' He]. rewrite H in Hs', He. cbn [snd] in *.
    destruct (alive w) eqn:Hal; [|by eapply stopped_step].
    pose proof (worker_step_facts _ _ _ _ _ _ Hst Ha K1 (K2 _ _ Hi) H Hal) as Hf.
    assert (world_ok (mkWorld s' (<[i := with_pc p w]> ws) ls)) as Hmove.
    { destruct Hf. apply (world_ok_move s); try done. }
    destruct o as [l|]; [|by rewrite app_nil_r]. destruct (sf_launch _ _ _ _ _ Hf l eq_refl) as (Hl & _ & Hjob & _).
    destruct Hmove as [M1 M2 M3 M4 M5]. split; cbn in *; try done.
    + intros j l' [?|[= -> ->]%list_elem_of_singleton]%elem_of_app; [by apply M4|]. by eapply launch_ok_new.
    + rewrite fmap_app. apply NoDup_app. split_and!; [done| |apply NoDup_singleton].
      intros job Hj ->%list_elem_of_singleton. cbn in Hj. rewrite Hjob in Hj. by eapply launch_is_new.
  - pose proof Hx as [K1 K2 K3 K4 K5]. cbn in *. destruct (K2 _ _ Hi) as [Htok Htext _ _ _].
    destruct (worker_step_keeps a w s Hst Htok Ha Htext K1) as [Hs' He]. rewrite H in Hs', He. cbn [snd] in *.
    apply (world_ok_move s); try done.
  - pose proof Hx as [K1 K2 K3 K4 K5]. cbn in *. apply (world_ok_move s); try done. by eapply stopped_ok, K2.
Qed.

Lemma world_history_ok x x' : code_points store_id → world_ok x → rtc world_step x x' → world_ok x'.
Proof. intros Hst Hx H. induction H as [|x1 x2 x3 H12 _ IH]; [done|]. by eapply IH, world_step_ok. Qed.

(** C22. The command of a job runs at most once: with any number of detached
    workers, supervisors and readers interleaved in any way, with crashes at any
    point and pids reused after death, no job has two launches; and what is
    launched is the command and the directory of its immutable specification. *)
Theorem command_runs_at_most_once s x' :
  code_points store_id → sound store_id s → rtc world_step (mkWorld s ∅ []) x' →
  NoDup ((λ p, l_job p.2) <$> wd_launches x') ∧
  ∀ i l, (i, l) ∈ wd_launches x' →
    ∃ spec, doc store_id (wd_jobs x') (l_job l) "spec.json" = Some spec ∧
            l_argv l = get spec "argv" ∧ l_cwd l = get spec "cwd".
Proof.
  intros Hst Hs H. destruct (world_history_ok _ _ Hst (world_started_ok s Hs) H) as [K1 K2 K3 K4 K5].
  split; [done|]. intros i l Hl. by destruct (K4 _ _ Hl).
Qed.

(** ** Cancelling a job that waits in the queue *)

(** Somebody asked to cancel a job, no worker of it is past that question, and
    it was never launched. *)
Record called_off (job : pystr) (x : World) : Prop := {
  co_asked : is_Some (file_of store_id (wd_jobs x) job "cancel-request.json");
  co_workers i w : wd_workers x !! i = Some w → w_job w = job → unasked (w_pc w) = false;
  co_launches i l : (i, l) ∈ wd_launches x → l_job l ≠ job;
}.

Lemma called_off_move job s ws ls i w p s' :
  called_off job (mkWorld s ws ls) → ws !! i = Some w → evolves store_id s s' →
  (w_job w = job → unasked p = true → unasked (w_pc w) = true ∨ file_of store_id s' job "cancel-request.json" = None) →
  called_off job (mkWorld s' (<[i := with_pc p w]> ws) ls).
Proof.
  intros [C1 C2 C3] Hi He Hp. cbn in *. pose proof (ev_cancel _ _ _ He _ C1) as C1'. split; cbn; [done| |done].
  intros j w' [[<- <-]|[_ Hw]]%lookup_insert_Some Hjob; [|by eapply C2]. cbn in *. destruct (unasked p); [|done].
  destruct (Hp Hjob eq_refl) as [H|H]; [by rewrite (C2 _ _ Hi Hjob) in H|]. rewrite H in C1'. by destruct C1'.
Qed.

Lemma called_off_step job x x' :
  code_points store_id → world_ok x → called_off job x → world_step x x' → called_off job x'.
Proof.
  intros Hst [K1 K2 _ _ _] Hc Hstep.
  destruct Hstep as [s s' ws ls Hs|s ws ls i job' token pid environment Hi Ht Hpid|s ws ls i w a p o s' Hi Ha H
    |s ws ls i w a e s' Hi Ha H|s ws ls i w Hi]; cbn in *.
  - destruct Hc as [C1 C2 C3]. destruct (step_keeps _ _ _ Hst Hs K1) as [_ He]. split; [by eapply ev_cancel|done..].
  - destruct Hc as [C1 C2 C3]. split; cbn; [done| |done]. intros j w [[<- <-]|[_ ?]]%lookup_insert_Some; [done|by eapply C2].
  - destruct (K2 _ _ Hi) as [Htok Htext _ _ _].
    destruct (worker_step_keeps a w s Hst Htok Ha Htext K1) as [_ He]. rewrite H in He. cbn [snd] in He.
    destruct (alive w) eqn:Hal.
    + pose proof (worker_step_facts _ _ _ _ _ _ Hst Ha K1 (K2 _ _ Hi) H Hal) as Hf.
      destruct (called_off_move job s ws ls i w p s' Hc Hi He) as [C1 C2 C3].
      { intros <-. apply Hf. }
      split; [done..|]. cbn in *. intros j l [Hl|Hl]%elem_of_app; [by eapply C3|]. destruct o as [l'|]; [|by apply elem_of_nil in Hl].
      apply list_elem_of_singleton in Hl as [= -> ->]. intros Hjob.
      destruct (sf_launch _ _ _ _ _ Hf l' eq_refl) as (Hl & _ & Hj & _). destruct Hc as [_ C2' _].
      pose proof (C2' _ _ Hi ltac:(congruence)) as Hu. by destruct (w_pc w).
    + assert (p = w_pc w ∧ o = None) as [-> ->].
      { unfold worker_step, alive in *. cbv zeta in H. destruct (w_pc w); try done; by injection H as <- <- <-. }
      rewrite app_nil_r. apply (called_off_move job s); auto.
  - destruct (K2 _ _ Hi) as [Htok Htext _ _ _].
    destruct (worker_step_keeps a w s Hst Htok Ha Htext K1) as [_ He]. rewrite H in He. by apply (called_off_move job s).
  - by apply (called_off_move job s).
Qed.

(** In the queue nobody has launched the job or is about to. *)
Lemma queued_called_off job s ws ls s' d :
  world_ok (mkWorld s ws ls) → doc store_id s job "state.json" = Some d → status_of d = u "queued" →
  is_Some (file_of store_id s' job "cancel-request.json") → called_off job (mkWorld s' ws ls).
Proof.
  intros [K1 K2 K3 K4 K5] Hd Hq Ha. cbn in *. split; cbn; [done|..].
  - intros i w Hw <-. destruct (unasked (w_pc w)) eqn:E; [|done].
    destruct (wo_started _ _ (K2 _ _ Hw)) as (d' & Hd' & Hq'); [by destruct (w_pc w)|congruence].
  - intros i l Hl <-. destruct (lo_left _ _ _ _ (K4 _ _ Hl)) as (d' & Hd' & Hq'). congruence.
Qed.

(** C23. A job that is cancelled in the queue never runs: when a request to cancel
    has returned while the job was still queued, then whatever workers were
    already on their way to it, whatever is started later and whoever crashes, its
    command is not launched. *)
Theorem cancelled_in_queue_never_runs s x job execution d y s1 x' i l :
  code_points store_id → sound store_id s → rtc world_step (mkWorld s ∅ []) x →
  doc store_id (wd_jobs x) job "state.json" = Some d → status_of d = u "queued" →
  code_points execution → request_cancel store_id job execution (wd_jobs x) = (Ok y, s1) →
  rtc world_step (mkWorld s1 (wd_workers x) (wd_launches x)) x' →
  (i, l) ∈ wd_launches x' → l_job l ≠ job.
Proof.
  intros Hst Hs H Hd Hq Hex Hr H' Hl. destruct x as [s0 ws ls]. cbn in *.
  pose proof (world_history_ok _ _ Hst (world_started_ok s Hs) H) as Hx.
  destruct (keeps_request_cancel store_id job execution) with (s := s0) as [Hs1 He]; [by try done..|by apply Hx|].
  rewrite Hr in Hs1, He. cbn [snd] in *. pose proof (world_store_ok _ _ _ _ Hx Hs1 He) as Hx1.
  pose proof (queued_called_off job s0 ws ls s1 d Hx Hd Hq (request_cancel_ok _ _ _ _ _ _ Hr)) as Hc.
  clear -Hst H' Hx1 Hc Hl. induction H' as [x|x1 x2 x3 H12 H23 IH]; [by eapply co_launches|].
  apply IH; [done|by eapply world_step_ok|by eapply called_off_step].
Qed.

End workers.
