(* ===== verification/JobSupervisor.v ===== *)
(** * The supervisor of jobs (src/unchain/jobs/process.py)

    A [ProcessJobSupervisor] reserves jobs, starts detached workers and judges
    from heartbeats and claims whether a worker is lost.  It shares the store with
    workers and other supervisors: before each of its calls anything may have
    happened to the store.  Clocks, the liveness of pids and of its own wrappers are
    answers of the operating system. *)

From S2P Require Import Prelude PyVal Json Models JournalPayload RequestLease ResourceLimits JsonParse Utf8Stream JobStore JobCodec JobSafety.

(** ** State *)

(** What was seen of a worker that may be lost: [signature]. *)
Record signature : Type := mkSignature {
  sg_status : pystr;
  sg_revision : Z;
  sg_worker_token : pystr;
  sg_worker_pid : option Z;
  sg_reason : pystr;
  sg_claim_id : pystr;
  sg_heartbeat : option (Z * Z * Z);      (** pid, sequence number, time *)
}.

#[export] Instance signature_eq_dec : EqDecision signature.
Proof. solve_decision. Defined.

Record SuspectObservation : Type := mkObservation { ob_signature : signature; ob_first_seen : spec_float }.

(** A worker that was started, and the store as the supervisor knew it then. *)
Record spawn : Type := mkSpawn { sp_job : pystr; sp_token : pystr; sp_jobs : Jobs }.

Record config : Type := mkConfig {
  cf_heartbeat_stale_ms : Z;
  cf_launch_grace_ms : Z;
  cf_suspect_grace_ms : Z;
  cf_heartbeat_interval_ms : Z;
  cf_cancel_grace_ms : Z;
  cf_poll_interval_s : spec_float;
  cf_default_max_log_bytes : Z;
  cf_environment_digest : pystr;      (** [self.environment_profile.digest] *)
}.

(** What the operating system answers next. *)
Record Host : Type := mkHost {
  ho_others : nat → Jobs → Jobs;           (** what others do before the next calls *)
  ho_monotonic : nat → pyval;              (** readings of [monotonic_clock] *)
  ho_time : nat → spec_float;              (** readings of [time.monotonic] *)
  ho_alive : nat → bool;                   (** answers on pids and wrappers *)
  ho_popen : nat → bool;                   (** whether [Popen] starts a worker *)
}.

Record Supervisor : Type := mkSupervisor {
  sv_jobs : Jobs;
  sv_host : Host;
  sv_closed : bool;
  sv_suspects : gmap pystr SuspectObservation;
  sv_last_spawn : gmap pystr spec_float;
  sv_wrappers : gset pystr;                (** jobs that have a wrapper *)
  sv_spawned : list spawn;                 (** the workers started so far *)
  sv_calls : list (Jobs * Jobs);           (** the store before and after each call so far *)
}.

Definition upd_host (w : Host) (v : Supervisor) : Supervisor :=
  mkSupervisor (sv_jobs v) w (sv_closed v) (sv_suspects v) (sv_last_spawn v) (sv_wrappers v) (sv_spawned v) (sv_calls v).
Definition upd_closed (b : bool) (v : Supervisor) : Supervisor :=
  mkSupervisor (sv_jobs v) (sv_host v) b (sv_suspects v) (sv_last_spawn v) (sv_wrappers v) (sv_spawned v) (sv_calls v).
Definition upd_suspects (m : gmap pystr SuspectObservation) (v : Supervisor) : Supervisor :=
  mkSupervisor (sv_jobs v) (sv_host v) (sv_closed v) m (sv_last_spawn v) (sv_wrappers v) (sv_spawned v) (sv_calls v).
Definition upd_spawn (last : gmap pystr spec_float) (ws : gset pystr) (sp : list spawn) (v : Supervisor) : Supervisor :=
  mkSupervisor (sv_jobs v) (sv_host v) (sv_closed v) (sv_suspects v) last ws sp (sv_calls v).

(** The next answers. *)
Definition next_monotonic : M Supervisor pyexn pyval := λ v,
  let w := sv_host v in
  (Ok (ho_monotonic w 0), upd_host (mkHost (ho_others w) (λ n, ho_monotonic w (S n)) (ho_time w) (ho_alive w) (ho_popen w)) v).
Definition next_time : M Supervisor pyexn spec_float := λ v,
  let w := sv_host v in
  (Ok (ho_time w 0), upd_host (mkHost (ho_others w) (ho_monotonic w) (λ n, ho_time w (S n)) (ho_alive w) (ho_popen w)) v).
Definition next_alive : M Supervisor pyexn bool := λ v,
  let w := sv_host v in
  (Ok (ho_alive w 0), upd_host (mkHost (ho_others w) (ho_monotonic w) (ho_time w) (λ n, ho_alive w (S n)) (ho_popen w)) v).
Definition next_popen : M Supervisor pyexn bool := λ v,
  let w := sv_host v in
  (Ok (ho_popen w 0), upd_host (mkHost (ho_others w) (ho_monotonic w) (ho_time w) (ho_alive w) (λ n, ho_popen w (S n))) v).

(** A call of the store, after whatever others have done. *)
Definition on_store {A} (m : M Jobs pyexn A) : M Supervisor pyexn A := λ v,
  let w := sv_host v in
  let s := ho_others w 0 (sv_jobs v) in
  let '(r, s') := m s in
  (r, mkSupervisor s' (mkHost (λ n, ho_others w (S n)) (ho_monotonic w) (ho_time w) (ho_alive w) (ho_popen w))
        (sv_closed v) (sv_suspects v) (sv_last_spawn v) (sv_wrappers v) (sv_spawned v) (sv_calls v ++ [(s, s')])).

(** ** Numbers *)

(** [f >= z] for a float that is not a NaN, by value. *)
Definition float_ge_Z (f : spec_float) (z : Z) : bool :=
  match f with
  | S754_zero _ => (z <=? 0)%Z
  | S754_infinity s => negb s
  | S754_nan => false
  | S754_finite s m e =>
      let x := if s then Zneg m else Zpos m in
      if (0 <=? e)%Z then (z <=? x * 2 ^ e)%Z else (z * 2 ^ (- e) <=? x)%Z
  end.

Definition float_max0 (f : spec_float) : spec_float := if SFltb (S754_zero false) f then f else S754_zero false.

(** [max(0.0, now - first) * 1_000.0] *)
Definition elapsed_ms (now first : spec_float) : spec_float :=
  SFmul prec emax (float_max0 (SFsub prec emax now first)) (float_of_Z 1000).

Definition _positive_int (v : pyval) : R Z :=
  match v with
  | VInt z => if (z <=? 0)%Z then Err ValueError else Ok z
  | _ => Err TypeError
  end.
Definition _non_negative_int (v : pyval) : R Z :=
  match v with
  | VInt z => if (z <? 0)%Z then Err ValueError else Ok z
  | _ => Err TypeError
  end.

Definition as_monotonic (value : pyval) : R spec_float :=
  match value with
  | VInt z => if (z <? 0)%Z then Err ValueError else Ok (float_of_Z z)
  | VFloat f => if SFltb f (S754_zero false) then Err ValueError else Ok f
  | _ => Err TypeError
  end.
Definition _monotonic_now : M Supervisor pyexn spec_float := value ← next_monotonic; lift (as_monotonic value).

(** ** Construction *)

(** The options of [__init__] that concern time and logs; [poll_interval_s] is
    already a float. *)
Record options : Type := mkOptions {
  op_heartbeat_stale_ms : option pyval;
  op_launch_grace_ms : option pyval;
  op_poll_interval_s : option spec_float;
  op_default_max_log_bytes : pyval;
  op_poll_interval_ms : option pyval;
  op_heartbeat_interval_ms : option pyval;
  op_heartbeat_stale_after_ms : option pyval;
  op_cancel_grace_ms : pyval;
  op_startup_timeout_ms : option pyval;
  op_suspect_grace_ms : option pyval;
}.

(** One of two names for the same option. *)
Definition only_one {A B} (a : option A) (b : option B) : R unit :=
  ensure (negb (bool_decide (is_Some a) && bool_decide (is_Some b))) ValueError.
Definition first_given (a b : option pyval) (default_ : Z) : pyval :=
  match a, b with Some v, _ => v | None, Some v => v | None, None => VInt default_ end.

Definition init (o : options) (environment_digest : pystr) : R config :=
  _ ← only_one (op_heartbeat_stale_ms o) (op_heartbeat_stale_after_ms o);
  stale ← _positive_int (first_given (op_heartbeat_stale_ms o) (op_heartbeat_stale_after_ms o) 5000);
  _ ← only_one (op_launch_grace_ms o) (op_startup_timeout_ms o);
  grace ← _positive_int (first_given (op_launch_grace_ms o) (op_startup_timeout_ms o) 2000);
  _ ← only_one (op_poll_interval_s o) (op_poll_interval_ms o);
  interval_s ← match op_poll_interval_s o, op_poll_interval_ms o with
               | Some f, _ => Ok f
               | None, Some v => ms ← _positive_int v; Ok (SFdiv prec emax (float_of_Z ms) (float_of_Z 1000))
               | None, None => Ok (SFdiv prec emax (float_of_Z 1) (float_of_Z 20))
               end;
  _ ← ensure (negb (SFleb interval_s (S754_zero false))) ValueError;
  interval_ms ← _positive_int (default (VInt (Z.min 1000 (Z.max 1 (stale / 3)))) (op_heartbeat_interval_ms o));
  _ ← ensure (negb (stale <=? interval_ms)%Z) ValueError;
  suspect ← _positive_int (default (VInt stale) (op_suspect_grace_ms o));
  cancel_grace ← _positive_int (op_cancel_grace_ms o);
  max_log ← _positive_int (op_default_max_log_bytes o);
  Ok (mkConfig stale grace suspect interval_ms cancel_grace interval_s max_log environment_digest).

Definition OSError : pyexn := OtherError (u "OSError").

Section supervisor.
Variable store_id : pystr.
Variable cf : config.

(** ** Suspicion *)

Definition _clear_suspicion (job_id : pystr) : M Supervisor pyexn unit :=
  modify (λ v, upd_suspects (delete job_id (sv_suspects v)) v).

(** Heartbeats that the store returns are validated. *)
Definition heartbeat_seen (heartbeat : option pydict) : option (Z * Z * Z) :=
  match heartbeat with
  | Some h => Some (int_of (get h "worker_pid"), int_of (get h "heartbeat_seq"), int_of (get h "updated_at_ms"))
  | None => None
  end.

Definition signature_of (snapshot : DurableJobSnapshot) (heartbeat : option pydict) (reason claim_id : pystr)
    : signature :=
  mkSignature (sj_status snapshot) (sj_revision snapshot) (sj_worker_token snapshot) (sj_worker_pid snapshot)
    reason claim_id (heartbeat_seen heartbeat).

Definition _suspect_grace_elapsed (snapshot : DurableJobSnapshot) (heartbeat : option pydict)
    (reason claim_id : pystr) : M Supervisor pyexn bool :=
  let seen := signature_of snapshot heartbeat reason claim_id in
  now ← _monotonic_now;
  suspects ← gets sv_suspects;
  let observe := modify (λ v, upd_suspects (<[sj_job_id snapshot := mkObservation seen now]> (sv_suspects v)) v) in
  match suspects !! sj_job_id snapshot with
  | Some current =>
      if bool_decide (ob_signature current = seen)
      then mret (float_ge_Z (elapsed_ms now (ob_first_seen current)) (cf_suspect_grace_ms cf))
      else _ ← observe; mret false
  | None => _ ← observe; mret false
  end.

Definition _heartbeat_is_fresh (snapshot : DurableJobSnapshot) (heartbeat : option pydict)
    : M Supervisor pyexn bool :=
  match heartbeat with
  | None => mret false
  | Some h =>
      if negb (py_eq (get h "worker_token") (VStr (sj_worker_token snapshot))) then mret false
      else match get h "updated_at_ms", get h "worker_pid" with
      | VInt updated, VInt pid =>
          if (pid <=? 0)%Z then mret false
          else if match sj_worker_pid snapshot with Some expected => negb (pid =? expected)%Z | None => false end
          then mret false
          else
            now ← on_store now_ms;
            mret (Z.max 0 (now - updated) <=? cf_heartbeat_stale_ms cf)%Z
      | _, _ => mret false
      end
  end.

Definition unknown_expectation (snapshot : DurableJobSnapshot) (reason : pystr) (stale_before : option Z)
    (seq : option Z) (claim_id : option pystr) : expectation :=
  mkExpectation (VInt (sj_revision snapshot)) (sj_status snapshot) (VStr reason)
    (VStr (u "cannot safely prove the detached worker state"))
    (VInt <$> stale_before) (VInt <$> seq) claim_id.

Definition _persist_outcome_unknown (snapshot : DurableJobSnapshot) (reason : pystr) (recheck_heartbeat : bool)
    (heartbeat : option pydict) (expected_claim_id : option pystr) : M Supervisor pyexn DurableJobSnapshot :=
  '(stale_before, seq) ← (if recheck_heartbeat then
      now ← on_store now_ms;
      mret (Some (Z.max 0 (now - cf_heartbeat_stale_ms cf)),
            Some (match heartbeat with Some h => int_of (get h "heartbeat_seq") | None => 0%Z end))
    else mret (None, None));
  result ← on_store (transition_to_outcome_unknown store_id (sj_job_id snapshot) (sj_execution_id snapshot)
                       (unknown_expectation snapshot reason stale_before seq expected_claim_id));
  _ ← _clear_suspicion (sj_job_id snapshot);
  mret result.

(** ** Workers *)

(** [max(0.1, min(1.0, self.launch_grace_ms / 1000.0))] is below one second:
    the cooldown in seconds as a float. *)
Definition retry_cooldown_s : spec_float :=
  let grace := SFdiv prec emax (float_of_Z (cf_launch_grace_ms cf)) (float_of_Z 1000) in
  let capped := if SFltb grace (float_of_Z 1) then grace else float_of_Z 1 in
  let tenth := SFdiv prec emax (float_of_Z 1) (float_of_Z 10) in
  if SFltb tenth capped then capped else tenth.

Definition _spawn_worker (snapshot : DurableJobSnapshot) : M Supervisor pyexn unit :=
  closed ← gets sv_closed;
  if (closed : bool) then mret tt
  else
    let job_id := sj_job_id snapshot in
    _ ← lift (ensure (bool_decide (sj_environment_digest snapshot = cf_environment_digest cf)) DurableJobConflictError);
    wrappers ← gets sv_wrappers;
    running ← (if bool_decide (job_id ∈ wrappers) then next_alive else mret false);
    if (running : bool) then mret tt
    else
      now ← next_time;
      last ← gets sv_last_spawn;
      let last_spawn_at := default (S754_zero false) (last !! job_id) in
      if SFltb (SFsub prec emax now last_spawn_at) retry_cooldown_s then mret tt
      else
        _ ← modify (λ v, upd_spawn (<[job_id := now]> (sv_last_spawn v)) (sv_wrappers v) (sv_spawned v) v);
        started ← next_popen;
        _ ← lift (ensure started OSError);
        modify (λ v, upd_spawn (sv_last_spawn v) ({[job_id]} ∪ sv_wrappers v)
                       (sv_spawned v ++ [mkSpawn job_id (sj_worker_token snapshot) (sv_jobs v)]) v).

Definition _claim_matches (snapshot : DurableJobSnapshot) (claim : pydict) : bool :=
  py_eq (get claim "job_id") (VStr (sj_job_id snapshot))
  && py_eq (get claim "worker_token") (VStr (sj_worker_token snapshot)).

Definition reload (snapshot : DurableJobSnapshot) : M Supervisor pyexn DurableJobSnapshot :=
  on_store (load store_id (sj_job_id snapshot) (sj_execution_id snapshot)).

(** *** A job whose worker has started *)
Definition reconcile_started (snapshot : DurableJobSnapshot) (heartbeat : option pydict) (fresh : bool)
    : M Supervisor pyexn DurableJobSnapshot :=
  if fresh then _ ← _clear_suspicion (sj_job_id snapshot); mret snapshot
  else
    now ← on_store now_ms;
    if (now - sj_updated_at_ms snapshot <=? cf_launch_grace_ms cf)%Z then
      _ ← _clear_suspicion (sj_job_id snapshot); mret snapshot
    else
      elapsed ← _suspect_grace_elapsed snapshot heartbeat (u "worker_heartbeat_lost") [];
      if negb elapsed then mret snapshot
      else _persist_outcome_unknown snapshot (u "worker_heartbeat_lost") true heartbeat None.

(** *** A queued job with a claim *)
Definition reconcile_claimed (snapshot : DurableJobSnapshot) (heartbeat : option pydict) (fresh : bool)
    (claim : pydict) (allow_launch : bool) : M Supervisor pyexn DurableJobSnapshot :=
  let invalid := _persist_outcome_unknown snapshot (u "worker_claim_invalid") false heartbeat None in
  if negb (_claim_matches snapshot claim) then invalid
  else if fresh then _ ← _clear_suspicion (sj_job_id snapshot); mret snapshot
  else match get claim "claimed_at_ms" with
  | VInt claimed_at_ms =>
      now ← on_store now_ms;
      if (now - claimed_at_ms <=? cf_launch_grace_ms cf)%Z then
        _ ← _clear_suspicion (sj_job_id snapshot); mret snapshot
      else if negb (int_at_least 1 (get claim "worker_pid")) then invalid
      else
        may_be_alive ← next_alive;
        if (may_be_alive : bool) then
          let claim_id := text_of (get claim "claim_id") in
          elapsed ← _suspect_grace_elapsed snapshot heartbeat (u "worker_heartbeat_lost_before_launch") claim_id;
          if negb elapsed then mret snapshot
          else _persist_outcome_unknown snapshot (u "worker_heartbeat_lost_before_launch") true heartbeat (Some claim_id)
        else
          _ ← _clear_suspicion (sj_job_id snapshot);
          if (allow_launch : bool) then
            cleared ← on_store (clear_stale_claim store_id (sj_job_id snapshot) (sj_worker_token snapshot) claim);
            if (cleared : bool) then _ ← _spawn_worker snapshot; reload snapshot
            else mret snapshot
          else mret snapshot
  | _ => invalid
  end.

Definition _reconcile (snapshot : DurableJobSnapshot) (allow_launch : bool) : M Supervisor pyexn DurableJobSnapshot :=
  if completed snapshot then _ ← _clear_suspicion (sj_job_id snapshot); mret snapshot
  else
    heartbeat ← on_store (read_heartbeat store_id (sj_job_id snapshot));
    fresh ← _heartbeat_is_fresh snapshot heartbeat;
    if bool_decide (sj_status snapshot ∈ [u "starting"; u "running"]) then
      reconcile_started snapshot heartbeat fresh
    else if negb (bool_decide (sj_status snapshot = u "queued")) then mret snapshot
    else
      claim ← on_store (read_claim store_id (sj_job_id snapshot));
      match claim with
      | None =>
          _ ← _clear_suspicion (sj_job_id snapshot);
          if (allow_launch : bool) then _ ← _spawn_worker snapshot; reload snapshot
          else mret snapshot
      | Some claim => reconcile_claimed snapshot heartbeat fresh claim allow_launch
      end.

(** ** Public methods *)

Definition inspect (job_id execution_id : pystr) : M Supervisor pyexn DurableJobSnapshot :=
  snapshot ← on_store (load store_id job_id execution_id);
  closed ← gets sv_closed;
  _reconcile snapshot (negb closed).

Definition RuntimeError : pyexn := OtherError (u "RuntimeError").

Record start_request : Type := mkStart {
  sr_execution_id : pyval;
  sr_idempotency_key : pyval;
  sr_argv : pyval;
  sr_cwd : pystr;
  sr_timeout_ms : pyval;
  sr_intent_digest : option pystr;
  sr_adapter : pyval;
  sr_max_log_bytes : option pyval;
}.

(** The digest of what is asked for, when the caller gives none; [resolve] is
    [str(Path(cwd).resolve())]. *)
Definition intent_of (resolve : pystr → pystr) (r : start_request) : R pystr :=
  _digest (VDict [field "adapter" (sr_adapter r); field "argv" (sr_argv r); field "cwd" (VStr (resolve (sr_cwd r)));
                  field "timeout_ms" (sr_timeout_ms r);
                  field "environment_digest" (VStr (cf_environment_digest cf))]).

Definition start (resolve : pystr → pystr) (r : start_request) : M Supervisor pyexn DurableJobSnapshot :=
  closed ← gets sv_closed;
  _ ← lift (ensure (negb closed) RuntimeError);
  max_log_bytes ← lift (match sr_max_log_bytes r with
                        | None => Ok (cf_default_max_log_bytes cf)
                        | Some v => _positive_int v
                        end);
  let given := strip (default [] (sr_intent_digest r)) in
  intent ← lift (if nonempty given then Ok given else intent_of resolve r);
  '(snapshot, _) ← on_store (reserve_process_job store_id [] (mkReservation (sr_execution_id r) (sr_adapter r)
      (sr_argv r) (VStr (sr_cwd r)) (sr_timeout_ms r) (sr_idempotency_key r) (VStr intent) (VInt max_log_bytes)
      (Some (cf_environment_digest cf))));
  _reconcile snapshot true.

Definition _logs_are_final (snapshot : DurableJobSnapshot) : bool :=
  completed snapshot && negb (bool_decide (sj_status snapshot = u "outcome_unknown")).

Definition opt_int (o : option Z) : pyval := match o with Some z => VInt z | None => VNone end.

(** [snapshot.ok] *)
Definition succeeded (snapshot : DurableJobSnapshot) : bool :=
  bool_decide (sj_status snapshot = u "completed") && bool_decide (sj_returncode snapshot = Some 0%Z).

Definition _result (snapshot : DurableJobSnapshot) (action : string) (logs : log_chunk * log_chunk) : pydict :=
  let '(out, err) := logs in
  [field "ok" (VBool (succeeded snapshot)); field "action" (VStr (u action));
   field "status" (VStr (sj_status snapshot)); field "task_id" (VStr (sj_job_id snapshot));
   field "job_id" (VStr (sj_job_id snapshot)); field "execution_id" (VStr (sj_execution_id snapshot));
   field "adapter" (VStr (sj_adapter snapshot)); field "durable" (VBool true); field "background" (VBool true);
   field "stdout" (VStr (lc_text out)); field "stderr" (VStr (lc_text err));
   field "completed" (VBool (completed snapshot)); field "returncode" (opt_int (sj_returncode snapshot));
   field "timed_out" (VBool (sj_timed_out snapshot)); field "cancelled" (VBool (sj_cancelled snapshot));
   field "outcome_unknown" (VBool (bool_decide (sj_status snapshot = u "outcome_unknown")));
   field "outcome_unknown_reason" (VStr (sj_outcome_unknown_reason snapshot));
   field "error" (VStr (sj_error snapshot));
   field "stdout_truncated" (VBool (sj_stdout_truncated snapshot));
   field "stderr_truncated" (VBool (sj_stderr_truncated snapshot));
   field "truncated" (VBool ((lc_has_more out || lc_has_more err) || sj_stdout_truncated snapshot
                             || sj_stderr_truncated snapshot));
   field "stdout_offset" (VInt (lc_start_offset out)); field "stderr_offset" (VInt (lc_start_offset err));
   field "next_stdout_offset" (VInt (lc_next_offset out)); field "next_stderr_offset" (VInt (lc_next_offset err));
   field "offset_unit" (VStr (u "utf8_bytes")); field "stdout_available" (VInt (lc_available out));
   field "stderr_available" (VInt (lc_available err))].

(** [store.consume_logs(..., final=self._logs_are_final(snapshot))] *)
Definition consume (snapshot : DurableJobSnapshot) (job_id execution_id : pystr) (max_output_chars : pyval)
    (grown : list N * list N) : M Supervisor pyexn (log_chunk * log_chunk) :=
  on_store (consume_logs store_id job_id execution_id max_output_chars (_logs_are_final snapshot) grown).

Definition poll (job_id execution_id : pystr) (max_output_chars : pyval) (grown : list N * list N)
    : M Supervisor pyexn pydict :=
  snapshot ← inspect job_id execution_id;
  logs ← consume snapshot job_id execution_id max_output_chars grown;
  mret (_result snapshot "poll" logs).

(** [while not snapshot.completed and time.monotonic() < deadline: ...]; [None]
    when the fuel runs out. *)
Fixpoint wait_loop (fuel : nat) (job_id execution_id : pystr) (deadline : spec_float) (snapshot : DurableJobSnapshot)
    : M Supervisor pyexn (option DurableJobSnapshot) :=
  if completed snapshot then mret (Some snapshot)
  else
    now ← next_time;
    if negb (SFltb now deadline) then mret (Some snapshot)
    else
      match fuel with
      | 0 => mret None
      | S fuel =>
          _ ← next_time;
          snapshot ← inspect job_id execution_id;
          wait_loop fuel job_id execution_id deadline snapshot
      end.

(** [time.monotonic() + ms / 1000.0] *)
Definition deadline_after (ms : Z) : M Supervisor pyexn spec_float :=
  now ← next_time;
  mret (SFadd prec emax now (SFdiv prec emax (float_of_Z ms) (float_of_Z 1000))).

Definition wait (fuel : nat) (job_id execution_id : pystr) (timeout_ms max_output_chars : pyval)
    (grown : list N * list N) : M Supervisor pyexn (option pydict) :=
  ms ← lift (_non_negative_int timeout_ms);
  deadline ← deadline_after ms;
  first ← inspect job_id execution_id;
  last ← wait_loop fuel job_id execution_id deadline first;
  match last with
  | None => mret None
  | Some snapshot =>
      logs ← consume snapshot job_id execution_id max_output_chars grown;
      mret (Some (_result snapshot "wait" logs ++
        [field "wait_timeout_ms" (VInt ms); field "wait_timed_out" (VBool (negb (completed snapshot)))]))
  end.

Definition cancel (fuel : nat) (job_id execution_id : pystr) (wait_timeout_ms timeout_ms : option pyval)
    (max_output_chars : pyval) (grown : list N * list N)
    : M Supervisor pyexn (option pydict) :=
  _ ← lift (only_one wait_timeout_ms timeout_ms);
  ms ← lift (_non_negative_int (first_given wait_timeout_ms timeout_ms 2000));
  loaded ← on_store (load store_id job_id execution_id);
  snapshot ← _reconcile loaded false;
  '(snapshot, requested) ← (if completed snapshot then mret (snapshot, false)
     else
       _ ← on_store (request_cancel store_id job_id execution_id);
       closed ← gets sv_closed;
       snapshot ← _reconcile snapshot (negb closed);
       mret (snapshot, true));
  deadline ← deadline_after ms;
  last ← wait_loop fuel job_id execution_id deadline snapshot;
  match last with
  | None => mret None
  | Some snapshot =>
      logs ← consume snapshot job_id execution_id max_output_chars grown;
      mret (Some (_result snapshot "cancel" logs ++
        [field "cancel_requested" (VBool requested); field "cancel_wait_timeout_ms" (VInt ms);
         field "cancel_wait_timed_out" (VBool (negb (completed snapshot)))]))
  end.

Fixpoint reconcile_all (snapshots : list DurableJobSnapshot) : M Supervisor pyexn (list DurableJobSnapshot) :=
  match snapshots with
  | [] => mret []
  | snapshot :: snapshots =>
      closed ← gets sv_closed;
      now ← _reconcile snapshot (negb closed);
      rest ← reconcile_all snapshots;
      mret (now :: rest)
  end.

Definition reattach (execution_id : pyval) : M Supervisor pyexn (list DurableJobSnapshot) :=
  snapshots ← on_store (list_execution store_id execution_id);
  reconcile_all snapshots.

Definition close : M Supervisor pyexn unit :=
  _ ← modify (upd_closed true);
  modify (upd_suspects ∅).

(** ** Following a run *)

(** A run goes from [v] along [Rel], and ends in [post] when it returns. *)
Definition goes {A} (Rel : relation Supervisor) (v : Supervisor) (m : M Supervisor pyexn A)
    (post : A → Supervisor → Prop) : Prop :=
  Rel v (m v).2 ∧ ∀ a v', m v = (Ok a, v') → post a v'.

Section goes.
Context {Rel : relation Supervisor} `{!PreOrder Rel}.

Lemma goes_bind {A B} v (m : M Supervisor pyexn A) (f : A → M Supervisor pyexn B) mid post :
  goes Rel v m mid → (∀ a v1, Rel v v1 → mid a v1 → goes Rel v1 (f a) post) → goes Rel v (m ≫= f) post.
Proof.
  intros [Hm Hmid] Hf. unfold goes. cbv [mbind M_bind]. destruct (m v) as [[a|e] v1]; [|done]. cbn in Hm.
  destruct (Hf a v1 Hm (Hmid a v1 eq_refl)) as [H1 H2]. split; [by etrans|done].
Qed.

Lemma goes_ret {A} v (a : A) (post : A → Supervisor → Prop) : post a v → goes Rel v (mret a) post.
Proof. intros H. split; [done|]. by intros ?? [= <- <-]. Qed.

Lemma goes_lift {A} v (r : R A) (post : A → Supervisor → Prop) : (∀ a, r = Ok a → post a v) → goes Rel v (lift r) post.
Proof. intros H. split; [done|]. intros a v' [= Hr <-]. by apply H. Qed.

Lemma goes_gets {A} v (f : Supervisor → A) (post : A → Supervisor → Prop) : post (f v) v → goes Rel v (gets f) post.
Proof. intros H. split; [done|]. by intros ?? [= <- <-]. Qed.

Lemma goes_weaken {A} v (m : M Supervisor pyexn A) (p q : A → Supervisor → Prop) :
  goes Rel v m p → (∀ a v', p a v' → q a v') → goes Rel v m q.
Proof. intros [H1 H2] H. split; [done|]. intros a v' E. by apply H, H2. Qed.

End goes.

(** Every run goes along [Rel]. *)
Definition along {A} (Rel : relation Supervisor) (m : M Supervisor pyexn A) : Prop := ∀ v, Rel v (m v).2.

Lemma along_goes {A} Rel (m : M Supervisor pyexn A) v : along Rel m → goes Rel v m (λ _ _, True).
Proof. intros H. split; [apply H|done]. Qed.

Section along.
Context {Rel : relation Supervisor} `{!PreOrder Rel}.

Lemma along_bind {A B} (m : M Supervisor pyexn A) (f : A → M Supervisor pyexn B) :
  along Rel m → (∀ a, along Rel (f a)) → along Rel (m ≫= f).
Proof.
  intros Hm Hf v. specialize (Hm v). cbv [mbind M_bind]. destruct (m v) as [[a|e] v1]; [|done]. cbn in Hm.
  etrans; [exact Hm|apply Hf].
Qed.
Lemma along_ret {A} (a : A) : along Rel (mret a : M Supervisor pyexn A).
Proof. by intros v. Qed.
Lemma along_lift {A} (r : R A) : along Rel (lift r).
Proof. by intros v. Qed.
Lemma along_gets {A} (f : Supervisor → A) : along Rel (gets f).
Proof. by intros v. Qed.
End along.

(** Follow the structure of a method down to its primitive steps. *)
Ltac walk :=
  repeat first
    [ apply along_ret | apply along_lift | apply along_gets
    | match goal with |- along _ (mbind _ _) => apply along_bind; [|intros ?; cbv beta iota zeta] end
    | match goal with |- along _ (match ?x with _ => _ end) => destruct x end
    | match goal with |- along _ (let _ := _ in _) => cbv zeta end ].

(** ** Waiting *)

(** Readings of the clock are consumed in their order. *)
Definition time_passes (v v' : Supervisor) : Prop :=
  ∃ k, ∀ n, ho_time (sv_host v') n = ho_time (sv_host v) (k + n).

#[local] Instance time_passes_preorder : PreOrder time_passes.
Proof.
  split; [by exists 0|]. intros v1 v2 v3 [k1 H1] [k2 H2]. exists (k1 + k2). intros n. rewrite H2, H1. f_equal. lia.
Qed.

Lemma time_kept v v' : ho_time (sv_host v') = ho_time (sv_host v) → time_passes v v'.
Proof. intros H. exists 0. intros n. by rewrite H. Qed.

Lemma along_time_next_time : along time_passes next_time.
Proof. intros v. by exists 1. Qed.
Lemma along_time_next_alive : along time_passes next_alive.
Proof. intros v. by apply time_kept. Qed.
Lemma along_time_next_popen : along time_passes next_popen.
Proof. intros v. by apply time_kept. Qed.
Lemma along_time_next_monotonic : along time_passes next_monotonic.
Proof. intros v. by apply time_kept. Qed.
Lemma along_time_suspects f : along time_passes (modify (λ v, upd_suspects (f v) v)).
Proof. intros v. by apply time_kept. Qed.
Lemma along_time_spawn f g h : along time_passes (modify (λ v, upd_spawn (f v) (g v) (h v) v)).
Proof. intros v. by apply time_kept. Qed.
Lemma along_time_store {A} (m : M Jobs pyexn A) : along time_passes (on_store m).
Proof. intros v. unfold on_store. destruct (m _). by apply time_kept. Qed.

Ltac in_time :=
  repeat first
    [ progress walk | apply along_time_next_time | apply along_time_next_alive | apply along_time_next_popen
    | apply along_time_next_monotonic | apply along_time_suspects | apply along_time_spawn | apply along_time_store ].

Lemma reconcile_in_time snapshot allow : along time_passes (_reconcile snapshot allow).
Proof.
  unfold _reconcile, reconcile_started, reconcile_claimed, _persist_outcome_unknown, _suspect_grace_elapsed,
    _heartbeat_is_fresh, _spawn_worker, reload, _clear_suspicion, _monotonic_now. in_time.
Qed.

Lemma inspect_in_time job execution : along time_passes (inspect job execution).
Proof. unfold inspect. in_time. apply reconcile_in_time. Qed.

Definition over (deadline : spec_float) (v : Supervisor) (n : nat) : Prop :=
  SFltb (ho_time (sv_host v) n) deadline = false.

Lemma wait_loop_returns fuel job execution deadline snapshot v K :
  (∀ n, K ≤ n → over deadline v n) → K ≤ fuel →
  match wait_loop fuel job execution deadline snapshot v with
  | (Ok None, _) => False
  | (Ok (Some last), _) => completed last = true ∨ ∃ n, over deadline v n
  | _ => True
  end.
Proof.
  unfold over. revert snapshot v K. induction fuel as [|fuel IH]; intros snapshot v K Hover Hle; cbn [wait_loop].
  all: destruct (completed snapshot) eqn:Ec; [by left|].
  all: cbv [mbind M_bind next_time]; cbv beta iota zeta.
  all: destruct (SFltb (ho_time (sv_host v) 0) deadline) eqn:E; cbn [negb]; [|right; eauto].
  - rewrite Hover in E by lia. done.
  - set (v1 := upd_host _ (upd_host _ v)). assert (time_passes v v1) as Hv1 by (by exists 2).
    pose proof (inspect_in_time job execution v1) as Hi. destruct (inspect job execution v1) as [[snap|e] v2]; [|done].
    cbn [snd] in Hi. destruct Hi as [k Hk].
    assert (∀ n, ho_time (sv_host v2) n = ho_time (sv_host v) (2 + (k + n))) as Ht by (intros n; by rewrite Hk).
    assert (K ≠ 0) as HK by (intros ->; by rewrite Hover in E by lia).
    specialize (IH snap v2 (pred K)). destruct (wait_loop fuel job execution deadline snap v2) as [[[last|]|e] v3]; [|apply IH|done].
    + destruct IH as [?|[n Hn]]; [|lia|by left|right; eexists; by rewrite <-Ht].
      intros n Hn. rewrite Ht. apply Hover. lia.
    + intros n Hn. rewrite Ht. apply Hover. lia.
    + lia.
Qed.

(** [deadline] of [wait]. *)
Definition deadline_of (v : Supervisor) (ms : Z) : spec_float :=
  SFadd prec emax (ho_time (sv_host v) 0) (SFdiv prec emax (float_of_Z ms) (float_of_Z 1000)).

(** C26. Waiting ends: once every reading of the clock from the [K]-th on has
    passed the deadline, [K] rounds are enough for [wait] to come to an end, and
    a result that says that the time was up says so only because the job is not
    in a terminal status and the clock was read past the deadline. *)
Theorem wait_returns fuel job execution ms max_output_chars grown v K :
  (0 ≤ ms)%Z → (∀ n, K ≤ n → over (deadline_of v ms) v n) → K ≤ fuel →
  match (wait fuel job execution (VInt ms) max_output_chars grown v).1 with
  | Ok None => False
  | Ok (Some result) =>
      get result "wait_timed_out" = VBool (negb (truthy (get result "completed"))) ∧
      (get result "wait_timed_out" = VBool true → ∃ n, over (deadline_of v ms) v (S n))
  | Err _ => True
  end.
Proof.
  intros Hms Hover Hle. unfold wait. cbv [mbind M_bind lift _non_negative_int].
  assert ((ms <? 0)%Z = false) as -> by (by apply Z.ltb_ge). unfold deadline_after. cbv [mbind M_bind next_time mret M_ret].
  set (v1 := upd_host _ v). pose proof (inspect_in_time job execution v1) as Hi.
  destruct (inspect job execution v1) as [[snap|e] v2]; [|done]. cbn [snd] in Hi. destruct Hi as [k Hk].
  assert (∀ n, ho_time (sv_host v2) n = ho_time (sv_host v) (S (k + n))) as Ht by (intros n; by rewrite Hk).
  fold (deadline_of v ms).
  pose proof (wait_loop_returns fuel job execution (deadline_of v ms) snap v2 K) as Hloop.
  destruct (wait_loop fuel job execution (deadline_of v ms) snap v2) as [[[last|]|e] v3]; [|apply Hloop|done].
  - destruct (consume last job execution max_output_chars grown v3) as [[[out err]|e] v4]; [|done]. cbn [fst].
    split; [done|]. intros Hto. destruct Hloop as [Hc|[n Hn]]; [|lia| |].
    + intros n Hn. unfold over. rewrite Ht. apply Hover. lia.
    + change (VBool (negb (completed last)) = VBool true) in Hto. by rewrite Hc in Hto.
    + exists (k + n). unfold over in *. by rewrite <-Ht.
  - intros n Hn. unfold over. rewrite Ht. apply Hover. lia.
  - lia.
Qed.

(** ** Verdicts *)

(** A call that leaves the state of a job as it is. *)
Definition quiet (job : pystr) (c : Jobs * Jobs) : Prop :=
  doc store_id c.2 job "state.json" = doc store_id c.1 job "state.json".

Definition quietly (job : pystr) (v v' : Supervisor) : Prop :=
  ∃ cs, sv_calls v' = sv_calls v ++ cs ∧ Forall (quiet job) cs.

#[local] Instance quietly_preorder job : PreOrder (quietly job).
Proof.
  split; [intros v; exists []; by rewrite app_nil_r|]. intros v1 v2 v3 (c1 & H1 & Q1) (c2 & H2 & Q2).
  exists (c1 ++ c2). split; [by rewrite H2, H1, (assoc_L (++))|by apply Forall_app].
Qed.

Lemma quietly_kept job v v' : sv_calls v' = sv_calls v → quietly job v v'.
Proof. intros H. exists []. by rewrite app_nil_r. Qed.

(** What the supervisor remembers, and what the next reading of its clock says. *)
Definition remembers (v v' : Supervisor) : Prop :=
  sv_suspects v' = sv_suspects v ∧ ho_monotonic (sv_host v') = ho_monotonic (sv_host v).

#[local] Instance remembers_preorder : PreOrder remembers.
Proof. split; [done|]. intros v1 v2 v3 [A1 A2] [B1 B2]. split; congruence. Qed.

(** The store that the next call finds. *)
Definition next_store (v : Supervisor) : Jobs := ho_others (sv_host v) 0 (sv_jobs v).

Lemma goes_store {A} job v (m : M Jobs pyexn A) :
  quiet job (next_store v, (m (next_store v)).2) → goes (quietly job) v (on_store m) (λ _ v', remembers v v').
Proof.
  unfold on_store, goes. cbv beta zeta. fold (next_store v). destruct (m (next_store v)) as [r s]. cbn [snd]. intros H. split.
  - exists [(next_store v, s)]. split; [done|by constructor].
  - intros a v' [= _ <-]. done.
Qed.

Lemma goes_reader {A} job v (m : M Jobs pyexn A) :
  reader store_id m → goes (quietly job) v (on_store m) (λ _ v', remembers v v').
Proof. intros H. apply goes_store. apply same_doc, H. Qed.

Lemma along_quiet_reader {A} job (m : M Jobs pyexn A) : reader store_id m → along (quietly job) (on_store m).
Proof. intros H v. by apply (goes_reader job v m). Qed.

Lemma along_quiet_clear job job' : along (quietly job) (_clear_suspicion job').
Proof. intros v. by apply quietly_kept. Qed.

Lemma along_quiet_next job :
  along (quietly job) next_time ∧ along (quietly job) next_alive ∧ along (quietly job) next_popen ∧
  ∀ f g h, along (quietly job) (modify (λ v, upd_spawn (f v) (g v) (h v) v)).
Proof. split_and!; intros; intros v; by apply quietly_kept. Qed.

Lemma along_quiet_spawn job snapshot : along (quietly job) (_spawn_worker snapshot).
Proof.
  destruct (along_quiet_next job) as (H1 & H2 & H3 & H4). unfold _spawn_worker.
  repeat first [progress walk | apply H1 | apply H2 | apply H3 | apply H4].
Qed.

Lemma along_quiet_reload job snapshot : along (quietly job) (reload snapshot).
Proof. apply along_quiet_reader, reader_load. Qed.

(** *** Why a job is given up *)

(** One of these calls returned [a]. *)
Definition read_in {A} (calls : list (Jobs * Jobs)) (m : M Jobs pyexn A) (a : A) : Prop :=
  ∃ c, c ∈ calls ∧ m c.1 = (Ok a, c.2).

Lemma read_in_mono {A} calls calls' (m : M Jobs pyexn A) a : calls ⊆ calls' → read_in calls m a → read_in calls' m a.
Proof. intros Hs (c & Hc & H). exists c. split; [by apply Hs|done]. Qed.

(** The occasion of a suspicion: the worker of a started job has not been heard of, or
    that of the claim of a queued job; either is past the time that a launch may take. *)
Definition occasion (snapshot : DurableJobSnapshot) (calls : list (Jobs * Jobs)) (reason claim_id : pystr) : Prop :=
  (sj_status snapshot ∈ [u "starting"; u "running"] ∧ reason = u "worker_heartbeat_lost" ∧ claim_id = [] ∧
   ∃ clock, read_in calls now_ms clock ∧ (cf_launch_grace_ms cf < clock - sj_updated_at_ms snapshot)%Z) ∨
  (sj_status snapshot = u "queued" ∧ reason = u "worker_heartbeat_lost_before_launch" ∧
   ∃ claim claimed_at clock, read_in calls (read_claim store_id (sj_job_id snapshot)) (Some claim) ∧
     claim_id = text_of (get claim "claim_id") ∧ get claim "claimed_at_ms" = VInt claimed_at ∧
     read_in calls now_ms clock ∧ (cf_launch_grace_ms cf < clock - claimed_at)%Z).

(** The claim that a transition of the job looks at. *)
Definition claim_now (snapshot : DurableJobSnapshot) (s : Jobs) : option pydict :=
  if bool_decide (sj_status snapshot = u "queued") then doc store_id s (sj_job_id snapshot) "worker-claim.json" else None.

Definition seq_of (heartbeat : option pydict) : Z :=
  match heartbeat with Some h => int_of (get h "heartbeat_seq") | None => 0%Z end.

(** A worker is held to be lost: the heartbeat that was read is the one it was already
    suspected with, for as long as the grace period by the monotonic clock; and in the
    store that the transition finds no heartbeat has come since, the claim of a queued
    job is the one that was read, and the last heartbeat of the worker is stale by the
    clock that was read last. *)
Record confirmed_lost (v : Supervisor) (snapshot : DurableJobSnapshot) (calls : list (Jobs * Jobs)) (reason : pystr)
    (d : pydict) (s : Jobs) (claim_id : pystr) (heartbeat : option pydict) (clock : Z) : Prop := {
  cl_occasion : occasion snapshot calls reason claim_id;
  cl_heartbeat : read_in calls (read_heartbeat store_id (sj_job_id snapshot)) heartbeat;
  cl_suspected : ∃ ob now, sv_suspects v !! sj_job_id snapshot = Some ob ∧
    ob_signature ob = signature_of snapshot heartbeat reason claim_id ∧
    as_monotonic (ho_monotonic (sv_host v) 0) = Ok now ∧
    float_ge_Z (elapsed_ms now (ob_first_seen ob)) (cf_suspect_grace_ms cf) = true;
  cl_claim : sj_status snapshot = u "queued" →
    ∃ claim, claim_now snapshot s = Some claim ∧ get claim "claim_id" = VStr claim_id;
  cl_seq : seq_of (doc store_id s (sj_job_id snapshot) "heartbeat.json") = seq_of heartbeat;
  cl_clock : ∃ c, last calls = Some c ∧ now_ms c.1 = (Ok clock, c.2);
  cl_stale h : doc store_id s (sj_job_id snapshot) "heartbeat.json" = Some h →
    get h "worker_pid" = expected_pid d (claim_now snapshot s) →
    (int_of (get h "updated_at_ms") < Z.max 0 (clock - cf_heartbeat_stale_ms cf))%Z;
}.

(** A claim was read that carries the token of another worker. *)
Definition foreign_claim (snapshot : DurableJobSnapshot) (calls : list (Jobs * Jobs)) : Prop :=
  ∃ claim, read_in calls (read_claim store_id (sj_job_id snapshot)) (Some claim) ∧
    get claim "worker_token" ≠ VStr (sj_worker_token snapshot).

Definition unknown_error : pystr := u "cannot safely prove the detached worker state".

(** After [calls] the call [(s, s')] declares the outcome of the job unknown: it finds the
    state that was judged and writes the unknown outcome with its reason, which is a
    confirmed loss or a claim that is not the worker's. *)
Definition given_up (v : Supervisor) (snapshot : DurableJobSnapshot) (calls : list (Jobs * Jobs)) (s s' : Jobs) : Prop :=
  ∃ d reason, doc store_id s (sj_job_id snapshot) "state.json" = Some d ∧
    status_of d = sj_status snapshot ∧ (status_of d ∉ TERMINAL_JOB_STATUSES) ∧ revision_of d = sj_revision snapshot ∧
    declares_unknown store_id s (sj_job_id snapshot) d reason unknown_error s' ∧
    ((∃ claim_id heartbeat clock, confirmed_lost v snapshot calls reason d s claim_id heartbeat clock) ∨
     (sj_status snapshot = u "queued" ∧ reason = u "worker_claim_invalid" ∧ foreign_claim snapshot calls)).

(** What a run from [v] to [v'] has done to the job, when [seen] are the calls before it:
    nothing, or the last call has given it up. *)
Definition verdict (v0 : Supervisor) (seen : list (Jobs * Jobs)) (snapshot : DurableJobSnapshot) (v v' : Supervisor)
    : Prop :=
  ∃ calls, sv_calls v' = sv_calls v ++ calls ∧
    (Forall (quiet (sj_job_id snapshot)) calls ∨
     ∃ before s s', calls = before ++ [(s, s')] ∧ Forall (quiet (sj_job_id snapshot)) before ∧
       given_up v0 snapshot (seen ++ before) s s').

Lemma verdict_quiet v0 seen snapshot v v' : quietly (sj_job_id snapshot) v v' → verdict v0 seen snapshot v v'.
Proof. intros (cs & H & Q). exists cs. auto. Qed.

Lemma verdict_after v0 seen c1 snapshot v v1 v' :
  sv_calls v1 = sv_calls v ++ c1 → Forall (quiet (sj_job_id snapshot)) c1 →
  verdict v0 (seen ++ c1) snapshot v1 v' → verdict v0 seen snapshot v v'.
Proof.
  intros H1 Q1 (c2 & H2 & Q2). exists (c1 ++ c2). split; [by rewrite H2, H1, (assoc_L (++))|].
  destruct Q2 as [Q2|(b & s & s' & -> & Qb & Hg)]; [left; by apply Forall_app|]. right. exists (c1 ++ b), s, s'.
  split_and!; [by rewrite (assoc_L (++))|by apply Forall_app|by rewrite (assoc_L (++))].
Qed.

Definition judged {A} (v0 : Supervisor) (seen : list (Jobs * Jobs)) (snapshot : DurableJobSnapshot) (v : Supervisor)
    (m : M Supervisor pyexn A) : Prop :=
  verdict v0 seen snapshot v (m v).2.

Lemma judged_bind {A B} v0 seen snapshot v (m : M Supervisor pyexn A) (f : A → M Supervisor pyexn B) mid :
  goes (quietly (sj_job_id snapshot)) v m mid →
  (∀ a v1 seen', seen ⊆ seen' → mid a v1 → judged v0 seen' snapshot v1 (f a)) →
  judged v0 seen snapshot v (m ≫= f).
Proof.
  intros [Hm Hmid] Hf. unfold judged. cbv [mbind M_bind]. destruct (m v) as [[a|e] v1]; [|by apply verdict_quiet].
  destruct Hm as (c1 & H1 & Q1). eapply verdict_after; [exact H1|exact Q1|]. apply Hf; [set_solver|by apply Hmid].
Qed.

(** A reading of the store, which is on record afterwards. *)
Lemma judged_read {A B} v0 seen snapshot v (m : M Jobs pyexn A) (f : A → M Supervisor pyexn B) :
  reader store_id m →
  (∀ a v1 seen', seen ⊆ seen' → remembers v v1 → read_in seen' m a → judged v0 seen' snapshot v1 (f a)) →
  judged v0 seen snapshot v (on_store m ≫= f).
Proof.
  intros Hr Hf. unfold judged. cbv [mbind M_bind]. unfold on_store. cbv zeta. fold (next_store v).
  pose proof (Hr (next_store v)) as Hq. destruct (m (next_store v)) as [[a|e] s1] eqn:Em; cbn [snd] in Hq.
  - eapply (verdict_after _ _ [(next_store v, s1)]).
    3: apply Hf; [set_solver|done|exists (next_store v, s1); split; [set_solver|done]].
    all: done || (constructor; [by apply same_doc|done]).
  - apply verdict_quiet. exists [(next_store v, s1)]. split; [done|]. constructor; [by apply same_doc|done].
Qed.

Lemma judged_quiet {A} v0 seen snapshot v (m : M Supervisor pyexn A) :
  along (quietly (sj_job_id snapshot)) m → judged v0 seen snapshot v m.
Proof. intros H. apply verdict_quiet, H. Qed.

(** What a suspicion that has lasted says. *)
Definition suspected (v : Supervisor) (snapshot : DurableJobSnapshot) (heartbeat : option pydict)
    (reason claim_id : pystr) : Prop :=
  ∃ ob now, sv_suspects v !! sj_job_id snapshot = Some ob ∧
    ob_signature ob = signature_of snapshot heartbeat reason claim_id ∧
    as_monotonic (ho_monotonic (sv_host v) 0) = Ok now ∧
    float_ge_Z (elapsed_ms now (ob_first_seen ob)) (cf_suspect_grace_ms cf) = true.

Lemma suspected_before v0 v snapshot heartbeat reason claim_id :
  remembers v0 v → suspected v snapshot heartbeat reason claim_id → suspected v0 snapshot heartbeat reason claim_id.
Proof. intros [H1 H2]. unfold suspected. by rewrite H1, H2. Qed.

Lemma goes_suspect v snapshot heartbeat reason claim_id :
  goes (quietly (sj_job_id snapshot)) v (_suspect_grace_elapsed snapshot heartbeat reason claim_id)
    (λ b _, b = true → suspected v snapshot heartbeat reason claim_id).
Proof.
  unfold _suspect_grace_elapsed, _monotonic_now, goes. cbv [mbind M_bind next_monotonic lift gets modify mret M_ret].
  cbn [sv_suspects upd_host]. destruct (as_monotonic (ho_monotonic (sv_host v) 0)) as [now|e] eqn:En.
  2: { split; [by apply quietly_kept|done]. }
  destruct (sv_suspects v !! sj_job_id snapshot) as [ob|] eqn:Eob.
  2: { split; [by apply quietly_kept|]. by intros a v' [= <- _]. }
  case_bool_decide as Hs; (split; [by apply quietly_kept|]); intros a v' [= <- _]; [|done]. intros He. by exists ob, now.
Qed.

Lemma occasion_mono snapshot calls calls' reason claim_id :
  calls ⊆ calls' → occasion snapshot calls reason claim_id → occasion snapshot calls' reason claim_id.
Proof. intros Hs. pose proof (λ A, @read_in_mono A calls calls') as Hm. unfold occasion. naive_solver. Qed.

Lemma occasion_reason snapshot calls reason claim_id :
  occasion snapshot calls reason claim_id → _required_text (VStr reason) = Ok reason.
Proof. by intros [(_ & -> & _)|(_ & -> & _)]. Qed.

(** The claim that is compared *)
Definition compared_claim (snapshot : DurableJobSnapshot) (claim_id : pystr) : option pystr :=
  if bool_decide (sj_status snapshot = u "queued") then Some claim_id else None.

(** One transition, in a store that others may have changed. *)
Lemma transition_verdict v0 seen snapshot v reason stale seq c :
  _required_text (VStr reason) = Ok reason →
  (∀ d s, unknown_is_due store_id s (sj_job_id snapshot) (unknown_expectation snapshot reason stale seq c) d →
     (∃ claim_id heartbeat clock, confirmed_lost v0 snapshot seen reason d s claim_id heartbeat clock) ∨
     (sj_status snapshot = u "queued" ∧ reason = u "worker_claim_invalid" ∧ foreign_claim snapshot seen)) →
  judged v0 seen snapshot v
    (result ← on_store (transition_to_outcome_unknown store_id (sj_job_id snapshot) (sj_execution_id snapshot)
                          (unknown_expectation snapshot reason stale seq c));
     _ ← _clear_suspicion (sj_job_id snapshot); mret result).
Proof.
  intros Hreason Hwhy. unfold judged. cbv [mbind M_bind mret M_ret]. unfold on_store. cbv zeta. fold (next_store v).
  set (s := next_store v). set (x := unknown_expectation _ _ _ _ _).
  destruct (transition_to_outcome_unknown store_id (sj_job_id snapshot) (sj_execution_id snapshot) x s) as [r s'] eqn:Et.
  assert (∀ v', sv_calls v' = sv_calls v ++ [(s, s')] → verdict v0 seen snapshot v v') as Hv.
  { intros v' Hc. exists [(s, s')]. split; [done|]. apply transition_due in Et as [Et|(d & reason' & err & Hd & Hr & He & Hw)].
    - left. by repeat constructor.
    - right. exists [], s, s'. split_and!; [done|constructor|]. rewrite app_nil_r. exists d, reason.
      cbn [x x_reason x_error unknown_expectation] in Hr, He. rewrite Hreason in Hr. injection Hr as <-.
      assert (err = unknown_error) as -> by (injection He as <-; by vm_compute).
      split_and!; [apply Hd|apply Hd|apply Hd|apply Hd|done|by apply Hwhy]. }
  destruct r as [result|e]; by apply Hv.
Qed.

(** Declaring the outcome of a suspect unknown. *)
Lemma judged_persist v0 seen v snapshot heartbeat reason claim_id :
  occasion snapshot seen reason claim_id → read_in seen (read_heartbeat store_id (sj_job_id snapshot)) heartbeat →
  suspected v0 snapshot heartbeat reason claim_id →
  judged v0 seen snapshot v
    (_persist_outcome_unknown snapshot reason true heartbeat (compared_claim snapshot claim_id)).
Proof.
  intros Hocc Hhb Hsus. unfold judged, _persist_outcome_unknown. cbv [mbind M_bind mret M_ret]. unfold on_store at 1. cbv zeta.
  fold (next_store v). set (s0 := next_store v). pose proof (reader_clock store_id s0) as Hq.
  destruct (now_ms s0) as [[clock|e] s1] eqn:Eclock; cbn [snd] in *.
  2: { apply verdict_quiet. exists [(s0, s1)]. split; [done|]. constructor; [|done]. by apply same_doc. }
  set (v1 := mkSupervisor s1 _ _ _ _ _ _ _).
  eapply (verdict_after _ _ [(s0, s1)] _ v v1); [done|constructor; [by apply same_doc|done]|].
  apply (transition_verdict v0 (seen ++ [(s0, s1)]) snapshot v1); [by eapply occasion_reason|].
  intros d s [D1 D2 D3 D4 D5 D6 D7]. left. exists claim_id, heartbeat, clock.
  assert (match compared_claim snapshot claim_id with Some _ => doc store_id s (sj_job_id snapshot) "worker-claim.json"
          | None => None end = claim_now snapshot s) as Hcl by (unfold compared_claim, claim_now; by case_bool_decide).
  constructor.
  - eapply occasion_mono, Hocc. set_solver.
  - eapply read_in_mono, Hhb. set_solver.
  - done.
  - intros Hq'. destruct (D5 claim_id) as (claim & Hc & Hid); [cbn; unfold compared_claim; by rewrite bool_decide_eq_true_2|].
    exists claim. split; [|done]. unfold claim_now. by rewrite bool_decide_eq_true_2.
  - etrans; [by apply (D6 _ eq_refl)|]. by destruct heartbeat.
  - exists (s0, s1). split; [apply last_snoc|done].
  - intros h Hh Hpid. apply (D7 _ _ eq_refl Hh). cbn [x_claim_id unknown_expectation]. by rewrite Hcl.
Qed.

(** A claim of another worker settles a queued job. *)
Lemma judged_invalid v0 seen v snapshot heartbeat :
  sj_status snapshot = u "queued" → foreign_claim snapshot seen →
  judged v0 seen snapshot v (_persist_outcome_unknown snapshot (u "worker_claim_invalid") false heartbeat None).
Proof. intros Hq Hf. apply (transition_verdict v0 seen snapshot v (u "worker_claim_invalid") None None None); [done|]. auto. Qed.

(** The next quiet step of a run. *)
Ltac quiet_read :=
  eapply judged_read; [first [apply reader_read_heartbeat|apply reader_read_claim|apply reader_clock]|].

Lemma goes_fresh job v snapshot heartbeat :
  goes (quietly job) v (_heartbeat_is_fresh snapshot heartbeat) (λ _ v', remembers v v').
Proof.
  unfold _heartbeat_is_fresh.
  repeat match goal with |- goes _ _ (match ?x with _ => _ end) _ => destruct x end; try by apply goes_ret.
  all: eapply goes_bind; [apply goes_reader, reader_clock|]; intros a v1 _ H; by apply goes_ret.
Qed.

Lemma judged_clear v0 seen v snapshot job : judged v0 seen snapshot v (_ ← _clear_suspicion job; mret snapshot).
Proof. apply judged_quiet, along_bind; [apply along_quiet_clear|intros ?; apply along_ret]. Qed.

Lemma judged_ret {A} v0 seen v snapshot (a : A) : judged v0 seen snapshot v (mret a).
Proof. apply judged_quiet, along_ret. Qed.

Lemma judged_suspect v0 seen v snapshot heartbeat reason claim_id :
  remembers v0 v → occasion snapshot seen reason claim_id →
  read_in seen (read_heartbeat store_id (sj_job_id snapshot)) heartbeat →
  judged v0 seen snapshot v
    (elapsed ← _suspect_grace_elapsed snapshot heartbeat reason claim_id;
     if negb elapsed then mret snapshot
     else _persist_outcome_unknown snapshot reason true heartbeat (compared_claim snapshot claim_id)).
Proof.
  intros Hr Ho Hh. eapply judged_bind; [apply goes_suspect|]. intros b v1 seen' Hs Hb. destruct b; cbn [negb]; [|apply judged_ret].
  apply judged_persist; [by eapply occasion_mono|by eapply read_in_mono|]. by eapply suspected_before, Hb.
Qed.

Lemma judged_started v0 seen v snapshot heartbeat fresh :
  remembers v0 v → sj_status snapshot ∈ [u "starting"; u "running"] →
  read_in seen (read_heartbeat store_id (sj_job_id snapshot)) heartbeat →
  judged v0 seen snapshot v (reconcile_started snapshot heartbeat fresh).
Proof.
  intros Hr Hst Hh. unfold reconcile_started. destruct fresh; [apply judged_clear|]. quiet_read. intros now v1 seen' Hs Hr1 Hnow.
  destruct (_ <=? _)%Z eqn:Eg; [apply judged_clear|]. apply Z.leb_gt in Eg.
  assert (compared_claim snapshot [] = None) as <-.
  { unfold compared_claim. rewrite bool_decide_eq_false_2; [done|]. intros Hq. rewrite Hq in Hst.
    apply (bool_decide_eq_true_2 _) in Hst. by vm_compute in Hst. }
  apply judged_suspect; [by etrans| |by eapply read_in_mono]. left. eauto 10.
Qed.

Lemma judged_claimed v0 seen v snapshot heartbeat fresh claim allow :
  remembers v0 v → sj_status snapshot = u "queued" →
  read_in seen (read_heartbeat store_id (sj_job_id snapshot)) heartbeat →
  read_in seen (read_claim store_id (sj_job_id snapshot)) (Some claim) →
  judged v0 seen snapshot v (reconcile_claimed snapshot heartbeat fresh claim allow).
Proof.
  intros Hr Hq Hh Hcl. unfold reconcile_claimed. cbv zeta. pose proof Hcl as (c0 & _ & Hread).
  destruct (read_claim_valid _ _ _ _ _ Hread) as (Hjob & [at_ms Ec] & Ep).
  destruct (_claim_matches snapshot claim) eqn:Em; cbn [negb].
  2: { apply judged_invalid; [done|]. exists claim. split; [done|]. intros Ht. unfold _claim_matches in Em.
       rewrite Hjob, Ht in Em. cbn in Em. by rewrite !bool_decide_eq_true_2 in Em. }
  destruct fresh; [apply judged_clear|]. rewrite Ec, Ep. cbn [negb].
  quiet_read. intros now v1 seen1 Hs1 Hr1 Hnow. destruct (_ <=? _)%Z eqn:Eg; [apply judged_clear|]. apply Z.leb_gt in Eg.
  eapply (judged_bind _ _ _ _ _ _ (λ _ v2, remembers v1 v2)).
  { split; [by apply quietly_kept|]. by intros a v2 [= _ <-]. }
  intros alive v2 seen2 Hs2 Hr2. destruct alive.
  { assert (compared_claim snapshot (text_of (get claim "claim_id")) = Some (text_of (get claim "claim_id"))) as <-
      by (unfold compared_claim; by rewrite bool_decide_eq_true_2).
    apply judged_suspect; [etrans; [exact Hr|by transitivity v1]| |eapply read_in_mono, Hh; set_solver].
    right. split_and!; [done|done|]. exists claim, at_ms, now.
    split_and!; [eapply read_in_mono, Hcl; set_solver|done|done|by eapply read_in_mono|done]. }
  eapply judged_bind; [apply along_goes, along_quiet_clear|]. intros _ v3 seen3 _ _.
  destruct allow; [|apply judged_ret].
  eapply judged_bind; [apply goes_store, clear_stale_claim_state|]. intros cleared v4 seen4 _ _.
  destruct cleared; [|apply judged_ret]. apply judged_quiet, along_bind; [apply along_quiet_spawn|].
  intros _. apply along_quiet_reload.
Qed.

(** C24. A worker is given up only when its loss is confirmed.  Whatever other workers and
    supervisors do between the calls, looking at a job leaves its state alone or changes
    it once, in the last call.  That call finds the state that was judged, not terminal
    and with the same revision, and writes to the state file that state with the status
    [outcome_unknown], the reason, the error and the next revision, and changes nothing
    else.  The reason is one of two.  Either the worker of a started job, or that of the
    claim of a queued one, is past the time of a launch, was already suspected with the
    very heartbeat and claim that were read, for as long as the grace period, and in the
    store that the transition finds no heartbeat came since, the claim is the same, and
    the last heartbeat of the worker is stale.  Or the job is queued and the claim that
    was read from the store carries the token of another worker.  A late heartbeat or
    transition of the worker wins. *)
Theorem lost_worker_is_confirmed snapshot allow v :
  ∃ calls, sv_calls (_reconcile snapshot allow v).2 = sv_calls v ++ calls ∧
    (Forall (quiet (sj_job_id snapshot)) calls ∨
     ∃ before s s', calls = before ++ [(s, s')] ∧ Forall (quiet (sj_job_id snapshot)) before ∧
       given_up v snapshot before s s').
Proof.
  change (judged v [] snapshot v (_reconcile snapshot allow)). unfold _reconcile.
  destruct (completed snapshot); [apply judged_clear|]. quiet_read. intros heartbeat v1 seen1 _ Hr1 Hh.
  eapply judged_bind; [apply goes_fresh|]. intros fresh v2 seen2 Hs2 Hr2. assert (remembers v v2) as Hr by (by transitivity v1).
  apply (read_in_mono _ _ _ _ Hs2) in Hh.
  case_bool_decide as Hst; [by apply judged_started|]. case_bool_decide as Hq; cbn [negb]; [|apply judged_ret].
  quiet_read. intros claim v3 seen3 Hs3 Hr3 Hcl.
  destruct claim as [claim|]; [apply judged_claimed; [by transitivity v2|done|by eapply read_in_mono|done]|].
  eapply judged_bind; [apply along_goes, along_quiet_clear|]. intros _ v4 seen4 _ _.
  destruct allow; [|apply judged_ret]. apply judged_quiet, along_bind; [apply along_quiet_spawn|].
  intros _. apply along_quiet_reload.
Qed.

(** ** Launching *)

(** The store is sound and stays so whatever the others do. *)
Definition healthy (v : Supervisor) : Prop :=
  sound store_id (sv_jobs v) ∧
  ∀ n s, sound store_id s → sound store_id (ho_others (sv_host v) n s) ∧ evolves store_id s (ho_others (sv_host v) n s).

Definition asked (job : pystr) (s : Jobs) : Prop := is_Some (file_of store_id s job "cancel-request.json").

(** Without a launch. *)
Definition idles (v v' : Supervisor) : Prop :=
  healthy v → healthy v' ∧ evolves store_id (sv_jobs v) (sv_jobs v') ∧ sv_spawned v' = sv_spawned v.

(** With launches only of a job that was asked to stop. *)
Definition launches_asked (job : pystr) (v v' : Supervisor) : Prop :=
  healthy v → asked job (sv_jobs v) →
  healthy v' ∧ asked job (sv_jobs v') ∧
  ∃ sps, sv_spawned v' = sv_spawned v ++ sps ∧ Forall (λ sp, asked job (sp_jobs sp)) sps.

#[local] Instance idles_preorder : PreOrder idles.
Proof.
  split; [intros v H; split_and!; [done|reflexivity|done]|]. intros v1 v2 v3 H12 H23 H1.
  destruct (H12 H1) as (H2 & ? & ?). destruct (H23 H2) as (H3 & ? & ?). split_and!; [done|by etrans|congruence].
Qed.

#[local] Instance launches_asked_preorder job : PreOrder (launches_asked job).
Proof.
  split; [intros v H Ha; split_and!; [done..|]; exists []; by rewrite app_nil_r|].
  intros v1 v2 v3 H12 H23 H1 A1. destruct (H12 H1 A1) as (H2 & A2 & sp2 & E2 & F2).
  destruct (H23 H2 A2) as (H3 & A3 & sp3 & E3 & F3). split_and!; [done..|]. exists (sp2 ++ sp3).
  by rewrite E3, E2, (assoc_L (++)), Forall_app.
Qed.

Lemma idles_asked job v v' : idles v v' → launches_asked job v v'.
Proof.
  intros H Hh Ha. destruct (H Hh) as (Hh' & He & Hsp). split_and!; [done|by eapply ev_cancel|].
  exists []. by rewrite app_nil_r, Hsp.
Qed.

Lemma idles_same v v' :
  sv_jobs v' = sv_jobs v → ho_others (sv_host v') = ho_others (sv_host v) → sv_spawned v' = sv_spawned v → idles v v'.
Proof. intros E1 E2 E3 [H1 H2]. unfold healthy. rewrite E1, E2. split_and!; [done|done|reflexivity|done]. Qed.

Lemma idles_store {A} (m : M Jobs pyexn A) : keeps store_id m → along idles (on_store m).
Proof.
  intros Hm v [Hs Ho]. unfold on_store. destruct (Ho 0 _ Hs) as [Hs0 He0]. destruct (Hm _ Hs0) as [Hs1 He1].
  destruct (m (ho_others (sv_host v) 0 (sv_jobs v))) as [r s1]. cbn [snd] in *. split_and!; [split|by etrans|done].
  - done.
  - intros n s. cbn. apply Ho.
Qed.

Lemma along_weaken {A} (P Q : relation Supervisor) (m : M Supervisor pyexn A) :
  (∀ v v', P v v' → Q v v') → along P m → along Q m.
Proof. intros H Hm v. apply H, Hm. Qed.

Lemma keeps_clock : keeps store_id now_ms.
Proof.
  intros s Hs. pose proof (reader_clock store_id s) as Hr. split; [|by apply same_evolves].
  apply (same_sound _ s); [done| |done]. unfold now_ms. repeat case_match; apply Hs.
Qed.

Lemma along_idles_next :
  along idles next_time ∧ along idles next_alive ∧ along idles next_popen ∧ along idles next_monotonic ∧
  (∀ f, along idles (modify (λ v, upd_suspects (f v) v))) ∧
  (∀ f g, along idles (modify (λ v, upd_spawn (f v) (g v) (sv_spawned v) v))).
Proof. split_and!; intros; intros v; by apply idles_same. Qed.

(** Methods that launch nothing. *)
Ltac idle :=
  let H1 := fresh in let H2 := fresh in let H3 := fresh in let H4 := fresh in let H5 := fresh in let H6 := fresh in
  destruct along_idles_next as (H1 & H2 & H3 & H4 & H5 & H6);
  repeat first
    [ progress walk | apply H1 | apply H2 | apply H3 | apply H4 | apply H5 | apply H6
    | apply idles_store; first
        [ apply keeps_read_heartbeat | apply keeps_read_claim | apply keeps_clock | apply keeps_load
        | apply keeps_clear_stale_claim | apply keeps_outcome_unknown; constructor; apply code_points_u ] ].

Lemma idles_persist snapshot reason recheck heartbeat c :
  code_points reason → along idles (_persist_outcome_unknown snapshot reason recheck heartbeat c).
Proof.
  intros Hr. unfold _persist_outcome_unknown, _clear_suspicion. idle.
  apply idles_store, keeps_outcome_unknown; constructor; [done|apply code_points_u].
Qed.

Lemma idles_fresh snapshot heartbeat : along idles (_heartbeat_is_fresh snapshot heartbeat).
Proof. unfold _heartbeat_is_fresh. idle. Qed.

Lemma idles_suspect snapshot heartbeat reason claim_id :
  along idles (_suspect_grace_elapsed snapshot heartbeat reason claim_id).
Proof. unfold _suspect_grace_elapsed, _monotonic_now. idle. Qed.

Lemma idles_started snapshot heartbeat fresh : along idles (reconcile_started snapshot heartbeat fresh).
Proof.
  unfold reconcile_started, _clear_suspicion. idle; first [apply idles_suspect|apply idles_persist, code_points_u].
Qed.

Lemma idles_reconcile snapshot : along idles (_reconcile snapshot false).
Proof.
  unfold _reconcile, reconcile_claimed, _clear_suspicion.
  idle; first [apply idles_fresh|apply idles_started|apply idles_suspect|apply idles_persist, code_points_u].
Qed.

Lemma asked_spawn job snapshot : along (launches_asked job) (_spawn_worker snapshot).
Proof.
  destruct along_idles_next as (H1 & H2 & H3 & H4 & H5 & H6).
  assert (∀ A (m : M Supervisor pyexn A), along idles m → along (launches_asked job) m) as Hi
    by (intros A m; apply along_weaken, idles_asked).
  unfold _spawn_worker. repeat first [progress walk|apply Hi, H1|apply Hi, H2|apply Hi, H3|apply Hi, H6].
  intros v Hh Ha. split_and!; [done..|]. eexists. split; [done|]. by constructor.
Qed.

Lemma asked_reconcile job snapshot allow : along (launches_asked job) (_reconcile snapshot allow).
Proof.
  assert (∀ A (m : M Supervisor pyexn A), along idles m → along (launches_asked job) m) as Hi
    by (intros A m; apply along_weaken, idles_asked).
  assert (along idles (reload snapshot)) as Hload by (apply idles_store, keeps_load).
  destruct along_idles_next as (H1 & H2 & H3 & H4 & H5 & H6).
  unfold _reconcile, reconcile_claimed, _clear_suspicion.
  repeat first [progress walk|apply asked_spawn|apply Hi, Hload|apply Hi, idles_fresh|apply Hi, idles_started
    |apply Hi, idles_suspect|apply Hi, idles_persist, code_points_u|apply Hi, H2|apply Hi, H5
    |apply Hi, idles_store; first [apply keeps_read_heartbeat|apply keeps_read_claim|apply keeps_clock|apply keeps_clear_stale_claim
      |apply keeps_outcome_unknown; constructor; apply code_points_u]].
Qed.

Lemma asked_wait job fuel job' execution deadline snapshot :
  along (launches_asked job) (wait_loop fuel job' execution deadline snapshot).
Proof.
  assert (∀ A (m : M Supervisor pyexn A), along idles m → along (launches_asked job) m) as Hi
    by (intros A m; apply along_weaken, idles_asked).
  destruct along_idles_next as (H1 & _). revert snapshot. induction fuel as [|fuel IH]; intros snapshot; cbn [wait_loop];
    unfold inspect;
    repeat first [progress walk|apply Hi, H1|apply IH|apply asked_reconcile|apply Hi, idles_store, keeps_load].
Qed.

Lemma asked_marks job execution v :
  code_points execution →
  goes idles v (on_store (request_cancel store_id job execution)) (λ _ v', asked job (sv_jobs v')).
Proof.
  intros He. split; [apply idles_store; by apply keeps_request_cancel|]. intros a v'. unfold on_store.
  destruct (request_cancel store_id job execution _) as [r s] eqn:E. intros [= -> <-]. by eapply request_cancel_ok.
Qed.

(** Launches only once the job was asked to stop. *)
Definition launches_late (job : pystr) (v v' : Supervisor) : Prop :=
  healthy v → healthy v' ∧
  ∃ sps, sv_spawned v' = sv_spawned v ++ sps ∧ Forall (λ sp, asked job (sp_jobs sp)) sps.

#[local] Instance launches_late_preorder job : PreOrder (launches_late job).
Proof.
  split; [intros x H; split; [done|]; exists []; by rewrite app_nil_r|]. intros v1 v2 v3 H12 H23 H1.
  destruct (H12 H1) as (H2 & sp2 & E2 & F2). destruct (H23 H2) as (H3 & sp3 & E3 & F3). split; [done|].
  exists (sp2 ++ sp3). by rewrite E3, E2, (assoc_L (++)), Forall_app.
Qed.

Lemma idles_late job v v' : idles v v' → launches_late job v v'.
Proof. intros H Hx. destruct (H Hx) as (? & _ & E). split; [done|]. exists []. by rewrite E, app_nil_r. Qed.

Lemma late_idles {A} job v (m : M Supervisor pyexn A) : along idles m → goes (launches_late job) v m (λ _ _, True).
Proof. intros H. apply along_goes. by eapply along_weaken, H; apply idles_late. Qed.

(** Once the job was asked to stop, everything may launch. *)
Lemma late_asked {A} job v (m : M Supervisor pyexn A) :
  healthy v → asked job (sv_jobs v) → along (launches_asked job) m →
  goes (launches_late job) v m (λ _ v', healthy v' ∧ asked job (sv_jobs v')).
Proof.
  intros Hh Ha H. destruct (H v Hh Ha) as (Hh' & Ha' & Hsp). split; [done|]. intros a v' E. by rewrite E in Hh', Ha'.
Qed.

(** Ask, and look again. *)
Lemma late_request job execution v (snapshot : DurableJobSnapshot) :
  code_points execution → healthy v →
  goes (launches_late job) v
    (_ ← on_store (request_cancel store_id job execution); closed ← gets sv_closed;
     snapshot ← _reconcile snapshot (negb closed); mret (snapshot, true))
    (λ p v', healthy v' ∧ (completed p.1 = true ∨ asked job (sv_jobs v'))).
Proof.
  intros He Hh. destruct (asked_marks job execution v He) as [Hi Ha].
  eapply (goes_bind _ _ _ (λ _ v', healthy v' ∧ asked job (sv_jobs v'))).
  { split; [by apply idles_late|]. intros a v' E. split; [|by eapply Ha]. rewrite E in Hi. by destruct (Hi Hh). }
  intros _ v1 _ H1. eapply (goes_bind _ _ _ (λ _ v', healthy v' ∧ asked job (sv_jobs v'))); [apply goes_gets; exact H1|].
  intros closed v2 _ [Hh2 Ha2]. eapply goes_bind; [apply late_asked; [done..|apply asked_reconcile]|].
  intros snapshot' v3 _ [Hh3 Ha3]. apply goes_ret. auto.
Qed.

(** Wait for the job, unless it is settled. *)
Lemma late_tail {A} fuel job execution ms snapshot v (k : option DurableJobSnapshot → M Supervisor pyexn A) :
  healthy v → completed snapshot = true ∨ asked job (sv_jobs v) → (∀ o, along idles (k o)) →
  goes (launches_late job) v
    (deadline ← deadline_after ms; last ← wait_loop fuel job execution deadline snapshot; k last) (λ _ _, True).
Proof.
  intros Hh Hc Hk. destruct along_idles_next as (H1 & _).
  assert (along idles (deadline_after ms)) as Hd by (unfold deadline_after; apply along_bind; [done|intros ?; apply along_ret]).
  destruct Hc as [Hc|Ha].
  - apply late_idles, along_bind; [done|]. intros d. apply along_bind; [|done].
    destruct fuel; cbn [wait_loop]; rewrite Hc; apply along_ret.
  - eapply goes_bind; [apply late_asked; [done..|by eapply along_weaken, Hd; apply idles_asked]|]. intros d v1 _ [Hh1 Ha1].
    eapply goes_bind; [apply late_asked; [done..|apply asked_wait]|]. intros last v2 _ _. by apply late_idles.
Qed.

(** C25. Cancelling never races with its own launch: when [cancel] starts a
    worker, for a queued job that needs one to record the cancellation, the request
    is already in the store by then, whatever others do to the store meanwhile; the
    job is looked at before that, but nothing is started. *)
Theorem cancel_marks_before_launch fuel job execution wait_timeout_ms timeout_ms max_output_chars grown v :
  code_points execution → healthy v →
  ∃ sps, sv_spawned (cancel fuel job execution wait_timeout_ms timeout_ms max_output_chars grown v).2 = sv_spawned v ++ sps ∧
         Forall (λ sp, asked job (sp_jobs sp)) sps.
Proof.
  intros He Hh. cut (goes (launches_late job) v
    (cancel fuel job execution wait_timeout_ms timeout_ms max_output_chars grown) (λ _ _, True)).
  { intros [H _]. by destruct (H Hh). }
  unfold cancel. eapply (goes_bind _ _ _ (λ _ _, True)); [by apply goes_lift|]. intros _ v1 L1 _.
  eapply (goes_bind _ _ _ (λ _ _, True)); [by apply goes_lift|]. intros ms v2 L2 _.
  eapply goes_bind; [apply late_idles, idles_store, keeps_load|]. intros loaded v3 L3 _.
  eapply goes_bind; [apply late_idles, idles_reconcile|]. intros snapshot v4 L4 _.
  assert (healthy v4) as Hh4 by (by apply L4, L3, L2, L1).
  eapply (goes_bind _ _ _ (λ p v', healthy v' ∧ (completed p.1 = true ∨ asked job (sv_jobs v')))).
  { destruct (completed snapshot) eqn:Ec; [apply goes_ret; auto|]. by apply late_request. }
  intros [snapshot' requested] v5 _ [Hh5 Hc]. apply late_tail; [done..|]. intros last. unfold consume. walk.
  apply idles_store, keeps_consume_logs.
Qed.

End supervisor.
