(* ===== verification/JobDemo.v ===== *)
(** * A job from its reservation to its receipt

    A concrete store, run by evaluation, at which the theorems on jobs apply. *)

From S2P Require Import Prelude PyVal Json Models JournalPayload RequestLease ResourceLimits JsonParse Utf8Stream JobStore JobCodec JobSafety JobWorkers.

Module JobDemo.

(** Readings: identifiers and a clock that goes on. *)
Definition ids (n : nat) : pystr := replicate 31 48%N ++ [(48 + N.of_nat n mod 10)%N].
Definition clock (n : nat) : pyval := VInt (1000 + Z.of_nat n).

Lemma ids_hex n : hex_text 32 (ids n) = true.
Proof.
  unfold hex_text, ids. rewrite length_app, length_replicate. cbn [length]. rewrite andb_true_r.
  rewrite forallb_app. cbn [forallb]. rewrite andb_true_r. apply andb_true_iff. split; [done|].
  apply orb_true_iff. left. unfold is_digit, in_range. apply andb_true_iff. rewrite !N.leb_le.
  pose proof (N.mod_lt (N.of_nat n) 10 ltac:(lia)) as H. revert H. generalize (N.of_nat n mod 10)%N. lia.
Qed.

Definition nothing : Jobs := mkJobs None ∅ false clock ids None.
Definition store_id : pystr := ids 0.
Definition opened : Jobs := Eval vm_compute in (open_store nothing).2.

Definition digest : pystr := Eval vm_compute in sha256_hex (u "intent").
Definition environment : pystr := Eval vm_compute in sha256_hex (u "environment").

Definition request : reservation :=
  mkReservation (VStr (u "run")) (VStr (u "local_process")) (VList [VStr (u "echo"); VStr (u "hi")])
    (VStr (u "/tmp/work")) (VInt 1000) (VStr (u "key")) (VStr digest) (VInt 4096) None.

Definition reserved : Jobs := Eval vm_compute in (reserve_process_job store_id environment request opened).2.
Definition job : pystr := Eval vm_compute in match durable_job_id (u "run") (u "key") with Ok j => j | Err _ => [] end.
Definition token : pystr := Eval vm_compute in
  match doc store_id reserved job "spec.json" with Some d => text_of (get d "worker_token") | None => [] end.

Definition snapshot_of (r : R (DurableJobSnapshot * bool)) : option DurableJobSnapshot :=
  match r with Ok (snapshot, _) => Some snapshot | Err _ => None end.
Definition first : DurableJobSnapshot :=
  Eval vm_compute in default (_snapshot [] []) (snapshot_of (reserve_process_job store_id environment request opened).1).

Lemma first_reserved : reserve_process_job store_id environment request opened = (Ok (first, true), reserved).
Proof. vm_compute. reflexivity. Qed.

(** A clock that is set back to before the reservation makes the next change of
    the state fail as corruption, although the files are sound: [update_state]
    takes the reading as it is, where declaring an outcome unknown takes the
    maximum with the last time. *)
Definition clock_set_back : Jobs :=
  mkJobs (j_manifest reserved) (j_stores reserved) (j_legacy reserved) (λ _, VInt 0) (j_uuids reserved) (j_writes reserved).
Example clock_set_back_reads_as_corruption :
  (update_state store_id job token (Some (u "starting")) [field "worker_pid" (VInt 7)] clock_set_back).1
  = Err DurableJobStoreCorruptionError.
Proof. vm_compute. reflexivity. Qed.

(** ** A history of the store *)

Lemma store_id_text : code_points store_id.
Proof. eapply hex_code_points, (ids_hex 0). Qed.

Lemma nothing_sound : sound store_id nothing.
Proof. split; [|apply ids_hex]. intros job name bs _. unfold file_of, dir_of. cbn. by rewrite lookup_empty. Qed.

Lemma request_printable : printable_reservation environment request.
Proof.
  assert (code_points environment ∧ code_points digest) as [He Hd]
    by (split; apply (hex_code_points 64); vm_compute; reflexivity).
  split_and!; [done|constructor|].
  repeat (apply Forall_cons; split); try apply Forall_nil_2; repeat constructor; try apply code_points_u; done.
Qed.

Lemma open_step : store_step store_id nothing opened.
Proof. replace opened with (open_store nothing).2 by (vm_compute; reflexivity). apply st_open. Qed.

Lemma reserve_step : store_step store_id opened reserved.
Proof.
  replace reserved with (reserve_process_job store_id environment request opened).2 by (by rewrite first_reserved).
  eapply st_call, m_reserve, request_printable.
Qed.

Lemma reserved_history : rtc (store_step store_id) nothing reserved.
Proof. eapply rtc_l; [apply open_step|]. eapply rtc_once, reserve_step. Qed.

Lemma reserved_sound : sound store_id reserved.
Proof. by apply (history_evolves store_id nothing reserved store_id_text reserved_history nothing_sound). Qed.

(** ** Two workers *)

Definition quiet : answers := mkAnswers (Some 42%Z) (Some 0%Z) false (Some 0%Z) false false [] [].

Lemma quiet_text : text_answers quiet.
Proof. split; constructor. Qed.

(** Let a worker take [n] steps. *)
Fixpoint drive (n : nat) (i : nat) (x : World) : World :=
  match n, wd_workers x !! i with
  | S n, Some w =>
      match worker_step store_id quiet w (wd_jobs x) with
      | (Ok (p, o), s') =>
          drive n i (mkWorld s' (<[i := with_pc p w]> (wd_workers x))
                       (wd_launches x ++ match o with Some l => [(i, l)] | None => [] end))
      | _ => x
      end
  | _, _ => x
  end.

Lemma drive_steps n i x : rtc (world_step store_id) x (drive n i x).
Proof.
  revert x. induction n as [|n IH]; intros [s ws ls]; [done|]. cbn [drive wd_workers wd_jobs wd_launches].
  destruct (ws !! i) as [w|] eqn:Hi; [|done].
  destruct (worker_step store_id quiet w s) as [[[p o]|e] s'] eqn:H; [|done].
  eapply rtc_l; [|apply IH]. eapply ws_step; [exact Hi|exact quiet_text|exact H].
Qed.

(** Two workers are started; the first claims the job, the second finds it
    claimed, and the first goes on. *)
Definition two_workers : World :=
  mkWorld reserved {[0 := mkWorker job token 7 environment WSpec; 1 := mkWorker job token 8 environment WSpec]} [].
Definition finished : World := drive 12 0 (drive 12 1 (drive 3 0 two_workers)).

Lemma two_workers_reached : rtc (world_step store_id) (mkWorld reserved ∅ []) two_workers.
Proof.
  assert (code_points token) as Ht by (apply (hex_code_points 32); vm_compute; reflexivity).
  eapply rtc_l.
  { apply (ws_spawn store_id reserved ∅ [] 1 job token 8 environment); [by rewrite lookup_empty|done|].
    intros j w. by rewrite lookup_empty. }
  eapply rtc_once, (ws_spawn store_id reserved _ [] 0 job token 7 environment); [done|done|].
  intros j w Hj _. destruct (decide (j = 1)) as [->|Hne]; [|by rewrite lookup_insert_ne in Hj].
  rewrite lookup_insert_eq in Hj. by injection Hj as <-.
Qed.

Lemma finished_reached : rtc (world_step store_id) (mkWorld reserved ∅ []) finished.
Proof.
  etrans; [apply two_workers_reached|]. unfold finished. etrans; [|apply drive_steps].
  etrans; [|apply drive_steps]. apply drive_steps.
Qed.

(** The first worker has claimed the job when it is cancelled. *)
Definition claiming : World := drive 3 0 two_workers.
Definition cancelled_store : Jobs := (request_cancel store_id job (u "run") (wd_jobs claiming)).2.
Definition called_off_world : World :=
  drive 12 0 (drive 12 1 (mkWorld cancelled_store (wd_workers claiming) (wd_launches claiming))).


Lemma returned {A} (p : R A * Jobs) a : p.1 = Ok a → p = (Ok a, p.2).
Proof. destruct p. cbn. by intros ->. Qed.

Lemma cancelled_store_ok : request_cancel store_id job (u "run") (wd_jobs claiming) = (Ok tt, cancelled_store).
Proof.
  assert ((request_cancel store_id job (u "run") (wd_jobs claiming)).1 = Ok tt) as H by (vm_compute; reflexivity).
  exact (returned _ _ H).
Qed.

Definition status_in (s : Jobs) : option pystr := status_of <$> doc store_id s job "state.json".

(** The job is claimed and started by hand. *)
Definition claimed_store : Jobs := (claim_worker store_id job token (VInt 7) reserved).2.
Definition started_store : Jobs :=
  Eval vm_compute in
  (update_state store_id job token (Some (u "starting")) [field "worker_pid" (VInt 7)] claimed_store).2.

Definition second : DurableJobSnapshot :=
  Eval vm_compute in default (_snapshot [] []) (snapshot_of (reserve_process_job store_id environment request started_store).1).
Definition reserved_again : Jobs := Eval vm_compute in (reserve_process_job store_id environment request started_store).2.

Lemma second_reserved :
  reserve_process_job store_id environment request started_store = (Ok (second, false), reserved_again).
Proof. vm_compute. reflexivity. Qed.

Lemma started_history : rtc (store_step store_id) reserved started_store.
Proof.
  assert (code_points token) as Ht by (apply (hex_code_points 32); vm_compute; reflexivity).
  apply (rtc_l _ _ claimed_store); [by eapply st_call, m_claim|]. apply rtc_once.
  replace started_store
    with (update_state store_id job token (Some (u "starting")) [field "worker_pid" (VInt 7)] claimed_store).2
    by (vm_compute; reflexivity).
  eapply st_call, m_update. by repeat constructor.
Qed.

Definition queued_state : pydict := Eval vm_compute in default [] (doc store_id reserved job "state.json").

Lemma job_store_history_witness :
  sound store_id reserved ∧ rtc (store_step store_id) reserved started_store ∧
  (status_in reserved, status_in started_store) = (Some (u "queued"), Some (u "starting")) ∧
  ∃ d', doc store_id started_store job "state.json" = Some d' ∧ follows (status_of queued_state) (status_of d') ∧
        (revision_of queued_state < revision_of d')%Z.
Proof.
  split; [exact reserved_sound|]. split; [exact started_history|]. split; [vm_compute; reflexivity|].
  destruct (job_store_history store_id reserved started_store job store_id_text reserved_sound started_history)
    as (_ & H & _).
  destruct (H queued_state) as (d' & Hd & Hf & _ & Hr & _); [vm_compute; reflexivity|].
  exists d'. split; [exact Hd|]. split; [exact Hf|]. destruct Hr as [->|Hr]; [|exact Hr].
  vm_compute in Hd. discriminate Hd.
Defined.

Definition checked := Eval vm_compute in check_reservation store_id environment request.
Definition demo_request : pydict := Eval vm_compute in match checked with Ok (_, _, d) => d | Err _ => [] end.
Definition request_digest : pystr := Eval vm_compute in match _digest (VDict demo_request) with Ok d => d | Err _ => [] end.

Lemma request_checked : check_reservation store_id environment request = Ok (u "run", job, demo_request).
Proof. vm_compute. reflexivity. Qed.
Lemma request_digest_ok : _digest (VDict demo_request) = Ok request_digest.
Proof. vm_compute. reflexivity. Qed.

Lemma reservation_is_idempotent_witness :
  reserve_process_job store_id environment request opened = (Ok (first, true), reserved) ∧
  reserve_process_job store_id environment request started_store = (Ok (second, false), reserved_again) ∧
  sj_status second = u "starting" ∧ sj_job_id second = sj_job_id first ∧ sj_worker_token second = sj_worker_token first.
Proof.
  split; [exact first_reserved|]. split; [exact second_reserved|]. split; [reflexivity|].
  refine (proj2 (proj2 (reservation_is_idempotent store_id opened environment request first true reserved started_store
    environment request second false reserved_again (u "run") job demo_request request_digest demo_request request_digest
    store_id_text _ request_printable request_printable request_checked request_digest_ok first_reserved started_history
    request_checked request_digest_ok second_reserved))).
  exact (proj1 (step_keeps store_id nothing opened store_id_text open_step nothing_sound)).
Defined.

Lemma finished_run :
  (length (wd_launches finished), w_pc <$> wd_workers finished !! 0, w_pc <$> wd_workers finished !! 1,
   status_in (wd_jobs finished))
  = (1, Some (WDone 0), Some (WDone 0), Some (u "completed")).
Proof. vm_compute. reflexivity. Qed.

Lemma called_off_run :
  (w_pc <$> wd_workers called_off_world !! 0, status_in (wd_jobs called_off_world))
  = (Some (WDone 0), Some (u "cancelled")).
Proof. vm_compute. reflexivity. Qed.

Lemma claiming_queued : doc store_id (wd_jobs claiming) job "state.json" = Some queued_state.
Proof. vm_compute. reflexivity. Qed.

Lemma command_runs_at_most_once_witness :
  (length (wd_launches finished), w_pc <$> wd_workers finished !! 0, w_pc <$> wd_workers finished !! 1,
   status_in (wd_jobs finished))
  = (1, Some (WDone 0), Some (WDone 0), Some (u "completed")) ∧
  NoDup ((λ p, l_job p.2) <$> wd_launches finished).
Proof.
  split; [exact finished_run|].
  apply (command_runs_at_most_once store_id reserved finished store_id_text reserved_sound finished_reached).
Defined.

Lemma cancelled_in_queue_never_runs_witness :
  (w_pc <$> wd_workers called_off_world !! 0, status_in (wd_jobs called_off_world))
  = (Some (WDone 0), Some (u "cancelled")) ∧
  ∀ i l, (i, l) ∈ wd_launches called_off_world → l_job l ≠ job.
Proof.
  split; [exact called_off_run|]. intros i l.
  assert (rtc (world_step store_id) (mkWorld reserved ∅ []) claiming) as H
    by (etrans; [apply two_workers_reached|apply drive_steps]).
  apply (cancelled_in_queue_never_runs store_id reserved claiming job (u "run") queued_state tt cancelled_store
    called_off_world i l store_id_text reserved_sound H).
  - exact claiming_queued.
  - vm_compute. reflexivity.
  - apply code_points_u.
  - exact cancelled_store_ok.
  - etrans; apply drive_steps.
Defined.

End JobDemo.
