(* ===== verification/SupervisorDemo.v ===== *)
(** * A supervisor at work

    Concrete runs of [ProcessJobSupervisor] on the store of [JobDemo], at which
    the theorems on supervisors apply. *)

From S2P Require Import Prelude PyVal Json Models JournalPayload RequestLease ResourceLimits JsonParse Utf8Stream JobStore JobCodec JobSafety JobWorkers JobSupervisor JobDemo.

Module SupervisorDemo.
Import JobDemo.

(** ** Construction *)

Definition defaults : options :=
  mkOptions None None None (VInt (50 * 1024 * 1024)) None None None (VInt 1000) None None.

Definition demo_config : config := Eval vm_compute in
  match init defaults environment with Ok c => c | Err _ => mkConfig 0 0 0 0 0 (S754_zero false) 0 [] end.

Example defaults_ok :
  (cf_heartbeat_stale_ms demo_config, cf_launch_grace_ms demo_config, cf_suspect_grace_ms demo_config,
   cf_heartbeat_interval_ms demo_config) = (5000, 2000, 5000, 1000)%Z.
Proof. vm_compute. reflexivity. Qed.

(** With the smallest window the default interval between heartbeats is refused. *)
Example smallest_window :
  init (mkOptions (Some (VInt 1)) None None (VInt 1) None None None (VInt 1) None None) environment = Err ValueError.
Proof. vm_compute. reflexivity. Qed.

(** ** Time *)

(** The clock of the store goes on between calls. *)
Definition later (n : nat) (s : Jobs) : Jobs :=
  mkJobs (j_manifest s) (j_stores s) (j_legacy s) (λ n, VInt (100000 + Z.of_nat n)) (j_uuids s) (j_writes s).

(** The first reading is 100 s, the others are 200 s. *)
Definition readings (n : nat) : spec_float := float_of_Z (match n with 0 => 100 | _ => 200 end).
Definition minutes (n : nat) : pyval := VInt (60 * Z.of_nat n).
Definition host : Host := mkHost later minutes readings (λ _, false) (λ _, true).

Definition attached (s : Jobs) : Supervisor := mkSupervisor s host false ∅ ∅ ∅ [] [].

Lemma attached_healthy : healthy store_id (attached reserved).
Proof.
  split; [exact reserved_sound|]. intros n s Hs. split; [|by apply same_evolves].
  by apply (same_sound store_id s); [|apply Hs|].
Qed.

(** ** A worker that is lost *)

Definition look (v : Supervisor) : Supervisor := (inspect store_id demo_config job (u "run") v).2.

Example suspicion_then_verdict :
  (let v1 := look (attached started_store) in
   let v2 := look v1 in
   (status_in (sv_jobs v1), bool_decide (is_Some (sv_suspects v1 !! job)), status_in (sv_jobs v2), length (sv_spawned v2)))
  = (Some (u "starting"), true, Some (u "outcome_unknown"), 0).
Proof. vm_compute. reflexivity. Qed.

(** ** Waiting and cancelling *)

Definition waited : R (option pydict) :=
  (wait store_id demo_config 1 job (u "run") (VInt 1000) (VInt 100) ([], []) (attached reserved)).1.

Definition shown (r : R (option pydict)) : pyval * pyval :=
  match r with
  | Ok (Some result) => (get result "wait_timed_out", get result "status")
  | _ => (VNone, VNone)
  end.

(** What waiting on [attached reserved] promises of a result. *)
Definition kept_promise (r : R (option pydict)) : Prop :=
  match r with
  | Ok None => False
  | Ok (Some result) =>
      get result "wait_timed_out" = VBool (negb (truthy (get result "completed"))) ∧
      (get result "wait_timed_out" = VBool true →
       ∃ n, over (deadline_of (attached reserved) 1000) (attached reserved) (S n))
  | Err _ => True
  end.

Lemma waited_shows : shown waited = (VBool true, VStr (u "queued")).
Proof. vm_compute. reflexivity. Qed.

Lemma wait_returns_witness : shown waited = (VBool true, VStr (u "queued")) ∧ kept_promise waited.
Proof.
  split; [exact waited_shows|].
  apply (wait_returns store_id demo_config 1 job (u "run") 1000 (VInt 100) ([], []) (attached reserved) 1); [lia| |lia].
  intros n Hn. destruct n as [|n]; [lia|]. vm_compute. reflexivity.
Defined.

Definition after_cancel : Supervisor :=
  (cancel store_id demo_config 1 job (u "run") None None (VInt 100) ([], []) (attached reserved)).2.

Lemma after_cancel_spawned : sp_job <$> sv_spawned after_cancel = [job; job].
Proof. vm_compute. reflexivity. Qed.

Lemma cancel_marks_before_launch_witness :
  sp_job <$> sv_spawned after_cancel = [job; job] ∧
  ∃ sps, sv_spawned after_cancel = [] ++ sps ∧ Forall (λ sp, asked store_id job (sp_jobs sp)) sps.
Proof.
  split; [exact after_cancel_spawned|].
  apply (cancel_marks_before_launch store_id demo_config 1 job (u "run") None None (VInt 100) ([], []) (attached reserved)).
  - apply code_points_u.
  - exact attached_healthy.
Defined.

End SupervisorDemo.
