(* ===== verification/ToolResults.v ===== *)
(** * The budget of tool results (src/unchain/tools/result_budget.py)

    Before the results of a batch of tool calls are shown to the model, results
    that are too long are replaced by a description of themselves with a preview,
    until the batch fits its budget.  Sizes are characters of canonical JSON.

    A tool may bring an optimizer of its own; it is a parameter that returns a
    value, raises an error of the execution lease, which ends the call, or raises
    anything else, which is counted.  [obj_repr] is [repr] of an object of a class
    that JSON does not know and [py_str] is [str] of a value that is not a string.
    Messages share no objects. *)

From S2P Require Import Prelude PyVal Json JsonParse Models.

(** ** SHA-1 *)

Definition rotl (n k : N) : N := rotr n (32 - k).

(** The message schedule, latest word first. *)
Fixpoint sha1_extend (todo : nat) (w : list N) : list N :=
  match todo with
  | 0 => w
  | S todo =>
      let at_ i := nth i w 0%N in
      sha1_extend todo (rotl (N.lxor (N.lxor (at_ 2) (at_ 7)) (N.lxor (at_ 13) (at_ 15))) 1 :: w)
  end.

Definition sha1_round (st : list N) (iw : nat * N) : list N :=
  match st with
  | [a; b; c; d; e] =>
      let '(f, k) :=
        if iw.1 <? 20 then (N.lor (N.land b c) (N.land (4294967295 - b)%N d), 1518500249%N)
        else if iw.1 <? 40 then (N.lxor (N.lxor b c) d, 1859775393%N)
        else if iw.1 <? 60 then (N.lor (N.lor (N.land b c) (N.land b d)) (N.land c d), 2400959708%N)
        else (N.lxor (N.lxor b c) d, 3395469782%N) in
      [word (rotl a 5 + f + e + k + iw.2)%N; a; rotl b 30; c; d]
  | _ => st
  end.

Definition sha1_block (h : list N) (block : list N) : list N :=
  let w := reverse (sha1_extend 64 (reverse (be_words block))) in
  zip_with (λ x y, word (x + y)%N) h (fold_left sha1_round (zip (seq 0 80) w) h).

Fixpoint sha1_blocks (fuel : nat) (h bs : list N) : list N :=
  match fuel with
  | 0 => h
  | S fuel => match bs with
              | [] => h
              | _ => sha1_blocks fuel (sha1_block h (take 64 bs)) (drop 64 bs)
              end
  end.

Definition sha1_h0 : list N := [1732584193; 4023233417; 2562383102; 271733878; 3285377520]%N.

(** [hashlib.sha1(bs).hexdigest()]; one turn per block of 64 bytes. *)
Definition sha1_hex (bs : list N) : pystr :=
  let p := sha_pad bs in sha1_blocks (S (length p)) sha1_h0 p ≫= hex_word.

Example sha1_abc : sha1_hex (u "abc") = u "a9993e364706816aba3e25717850c26c9cd0d89d".
Proof. vm_compute. reflexivity. Qed.

(** ** Canonical JSON *)

Definition key_text_le (p q : pystr * pyval) : Prop := str_leb p.1 q.1 = true.
#[export] Instance key_text_le_dec p q : Decision (key_text_le p q).
Proof. unfold key_text_le. apply _. Defined.

(** [json.dumps(v, ensure_ascii=False, sort_keys=True, separators=(",", ":"))] of
    a value whose dictionaries have string keys; [None] when it raises. *)
Fixpoint dumps_stable (v : pyval) : option pystr :=
  match v with
  | VNone => Some (u "null")
  | VBool b => Some (if b then u "true" else u "false")
  | VInt z => int_repr z
  | VFloat f => Some (float_text f)
  | VStr s => Some (json_str s)
  | VList l =>
      items ← (fix go l :=
         match l with
         | [] => Some []
         | x :: l' => r ← dumps_stable x; rs ← go l'; Some (r :: rs)
         end) l;
      Some (u "[" ++ join (u ",") items ++ u "]")
  | VDict d =>
      items ← (fix go d :=
         match d with
         | [] => Some []
         | (k, x) :: d' => r ← dumps_stable x; rs ← go d'; Some ((key_str k, r) :: rs)
         end) d;
      Some (u "{" ++ join (u ",") ((λ p, json_str p.1 ++ u ":" ++ p.2) <$> merge_sort key_le items)
            ++ u "}")
  | VObj _ _ => None
  end.

(** [f"{type(v).__module__}.{type(v).__qualname__}"]; the class of a [VObj] is its
    full name. *)
Definition type_name (v : pyval) : pystr :=
  match v with
  | VNone => u "builtins.NoneType"
  | VBool _ => u "builtins.bool"
  | VInt _ => u "builtins.int"
  | VFloat _ => u "builtins.float"
  | VStr _ => u "builtins.str"
  | VList _ => u "builtins.list"
  | VDict _ => u "builtins.dict"
  | VObj cls _ => cls
  end.

(** A key that occurs again gets its number. *)
Definition numbered (key : pystr) (count : nat) : pystr :=
  if count =? 1 then key else key ++ u "#" ++ decimal (N.of_nat count).

Fixpoint number_keys (seen : gmap pystr nat) (pairs : list (pystr * pyval)) (canonical : pydict) : pydict :=
  match pairs with
  | [] => canonical
  | (key, item) :: pairs =>
      let count := S (default 0 (seen !! key)) in
      number_keys (<[key := count]> seen) pairs (dict_set canonical (KStr (numbered key count)) item)
  end.

Section results.
Variable obj_repr : pystr → N → pystr.
Variable py_str : pyval → pystr.

Definition described (cls : pystr) (id : N) : pystr := cls ++ u ":" ++ obj_repr cls id.

Definition _canonical_key (k : pykey) : pystr :=
  match k with
  | KStr s => s
  | KObj cls id => cls ++ u ":" ++ json_str (described cls id)
  end.

Fixpoint _canonicalize (v : pyval) : pyval :=
  match v with
  | VDict d =>
      let pairs := (fix go d :=
         match d with
         | [] => []
         | (k, x) :: d' => (_canonical_key k, _canonicalize x) :: go d'
         end) d in
      VDict (number_keys ∅ (merge_sort key_text_le pairs) [])
  | VList l => VList ((fix go l := match l with [] => [] | x :: l' => _canonicalize x :: go l' end) l)
  | VObj cls id => VStr (described cls id)
  | v => v
  end.

(** The encoder fails only on an integer that Python does not print, and then
    [repr] of the value fails too. *)
Definition _stable_json_dumps (v : pyval) : pystr :=
  match dumps_stable (_canonicalize v) with
  | Some text => text
  | None => json_str (type_name v ++ u ":<" ++ type_name v ++ u ">")
  end.

(** ** Payloads *)

Inductive payload_format : Type := native | json_string | raw_string.
#[export] Instance payload_format_eq_dec : EqDecision payload_format.
Proof. solve_decision. Defined.

Definition _normalize_payload (v : pyval) : pyval * payload_format :=
  match v with
  | VStr s =>
      match strip s with
      | (91%N :: _ | 123%N :: _) as stripped =>
          match loads stripped with
          | Some (VDict _ as parsed) | Some (VList _ as parsed) => (parsed, json_string)
          | _ => (v, raw_string)
          end
      | _ => (v, raw_string)
      end
  | _ => (v, native)
  end.

Definition _serialize_payload (payload : pyval) (format : payload_format) : pyval :=
  match format with
  | json_string => VStr (_stable_json_dumps payload)
  | raw_string => match payload with VStr s => VStr s | _ => VStr (_stable_json_dumps payload) end
  | native => match payload with VDict d => VDict d | _ => VDict [field "value" payload] end
  end.

Definition _payload_chars (payload : pyval) (format : payload_format) : nat :=
  match _serialize_payload payload format with
  | VStr s => length s
  | v => length (_stable_json_dumps v)
  end.

Definition _preview_text (text : pystr) (preview_chars : Z) : pystr :=
  if (preview_chars <=? 0)%Z then []
  else
    let limit := Z.to_nat preview_chars in
    if length text <=? limit * 2 then text
    else
      let head := take limit text in
      let tail := drop (length text - limit) text in
      let omitted := length text - length head - length tail in
      head ++ u "
... <omitted " ++ decimal (N.of_nat omitted) ++ u " chars> ...
" ++ tail.

(** [text.encode("utf-8", errors="replace")] *)
Definition encode_replace (text : pystr) : list N :=
  text ≫= λ c, if is_surrogate c then [63%N] else utf8_char c.
Definition _sha1_text (text : pystr) : pystr := sha1_hex (encode_replace text).

Definition _budgeted_chars (payload : pyval) : nat := length (_stable_json_dumps payload).

(** ** Describing a payload *)

Definition is_scalar (v : pyval) : bool :=
  match v with VNone | VBool _ | VInt _ | VFloat _ | VStr _ => true | _ => false end.

(** The scalar fields, with their sizes. *)
Fixpoint scalar_fields (seen : gmap pystr nat) (d : pydict) : list (nat * pystr * pyval) :=
  match d with
  | [] => []
  | (raw_key, value) :: d =>
      if is_scalar value then
        let key := _canonical_key raw_key in
        let count := S (default 0 (seen !! key)) in
        let key' := numbered key count in
        (_budgeted_chars (VDict [(KStr key', value)]), key', value) :: scalar_fields (<[key := count]> seen) d
      else scalar_fields seen d
  end.

Definition smaller_first (p q : nat * pystr * pyval) : Prop :=
  p.1.1 < q.1.1 ∨ (p.1.1 = q.1.1 ∧ str_leb p.1.2 q.1.2 = true).
#[export] Instance smaller_first_dec p q : Decision (smaller_first p q).
Proof. unfold smaller_first. apply _. Defined.

Definition _retained_scalar_fields (payload : pyval) (max_chars : Z) : pydict :=
  match payload with
  | VDict d =>
      if (max_chars <=? 0)%Z then []
      else
        fold_left (λ retained '(_, key, value),
          let candidate := dict_set retained (KStr key) value in
          if (Z.of_nat (_budgeted_chars (VDict candidate)) <=? max_chars)%Z then candidate else retained)
          (merge_sort smaller_first (scalar_fields ∅ d)) []
  | _ => []
  end.

(** [while True: ...]: write the size into the description until it is right;
    [None] when the fuel runs out. *)
Fixpoint settle (fuel : nat) (compacted : Z → pydict) (written previous : Z) : option pydict :=
  let current_size := Z.of_nat (_budgeted_chars (VDict (compacted written))) in
  if (current_size =? previous)%Z then Some (compacted written)
  else match fuel with
       | 0 => None
       | S fuel => settle fuel compacted current_size current_size
       end.

Definition compacted_with (payload : pyval) (reason tool_name call_id : pystr) (preview_chars budgeted : Z) : pydict :=
  let original_json := _stable_json_dumps payload in
  let retained_fields := _retained_scalar_fields payload (Z.max 0 preview_chars) in
  [field "compacted" (VBool true); field "reason" (VStr reason); field "tool_name" (VStr tool_name);
   field "call_id" (VStr call_id); field "original_chars" (VInt (Z.of_nat (length original_json)));
   field "budgeted_chars" (VInt budgeted); field "preview" (VStr (_preview_text original_json preview_chars));
   field "original_sha1" (VStr (_sha1_text original_json))]
  ++ match retained_fields with [] => [] | _ => [field "retained_fields" (VDict retained_fields)] end.

(** Why a call ends without a result: an optimizer has lost the execution lease,
    or the model has run out of fuel. *)
Inductive stop : Type := LeaseLost | OutOfFuel.
Definition enough {A} (o : option A) : result stop A := match o with Some a => Ok a | None => Err OutOfFuel end.

Definition _compact_payload (payload : pyval) (reason tool_name call_id : pystr) (preview_chars : Z)
    : result stop pyval :=
  d ← enough (settle 4 (compacted_with payload reason tool_name call_id preview_chars) 0 (-1));
  Ok (VDict d).

(** ** Results in messages *)

Inductive location_type : Type :=
| openai_function_call_output
| content_block_tool_result (block_index : nat) (rich_preserved_blocks : option (list pyval))
| role_tool_content
| parts_function_response (part_index : nat).

Record ResultRecord : Type := mkResult {
  rr_message_index : nat;
  rr_location_type : location_type;
  rr_tool_name : pystr;
  rr_call_id : pystr;
  rr_payload : pyval;
  rr_payload_format : payload_format;
  rr_original_chars : nat;
}.

(** [while low <= high: ...]: the longest preview that a bisection finds to fit. *)
Fixpoint bisect (fuel : nat) (candidate : Z → result stop pyval) (fits : pyval → bool) (low high : Z) (best : pyval)
    : result stop pyval :=
  if (high <? low)%Z then Ok best
  else match fuel with
       | 0 => Err OutOfFuel
       | S fuel =>
           let middle := ((low + high) / 2)%Z in
           c ← candidate middle;
           if fits c then bisect fuel candidate fits (middle + 1) high c
           else bisect fuel candidate fits low (middle - 1) best
       end.

Definition _compact_payload_for_target (r : ResultRecord) (reason : pystr) (preview_chars : Z)
    (target_chars : option nat) : result stop pyval :=
  let max_preview_chars := Z.max 0 preview_chars in
  let compact := _compact_payload (rr_payload r) reason (rr_tool_name r) (rr_call_id r) in
  match target_chars with
  | None => compact max_preview_chars
  | Some target =>
      minimal ← compact 0%Z;
      let fits c := _payload_chars c (rr_payload_format r) <=? target in
      if negb (fits minimal) then Ok minimal
      else bisect (S (Z.to_nat max_preview_chars)) compact fits 0 max_preview_chars minimal
  end.

(** *** Which call a result belongs to *)

Record ToolCall : Type := mkToolCall { tc_call_id : pystr; tc_name : pystr; tc_arguments : pyval }.

Definition call_maps : Type := gmap pystr ToolCall * gmap pystr (list ToolCall).

Definition _tool_call_maps (tool_calls : list ToolCall) : call_maps :=
  fold_left (λ '(by_id, by_name) call,
    (if nonempty (tc_call_id call) then <[tc_call_id call := call]> by_id else by_id,
     <[tc_name call := default [] (by_name !! tc_name call) ++ [call]]> by_name)) tool_calls (∅, ∅).

Definition _resolve_call (maps : call_maps) (call_id tool_name : pystr)
    (used : gset pystr) : pystr * pystr * gset pystr :=
  let '(by_id, by_name) := maps in
  match (if nonempty call_id then by_id !! call_id else None) with
  | Some call => (tc_name call, tc_call_id call, {[tc_call_id call]} ∪ used)
  | None =>
      let calls := if nonempty tool_name then default [] (by_name !! tool_name) else [] in
      match List.find (λ call, negb (bool_decide (tc_call_id call ∈ used))) calls, calls with
      | Some call, _ => (tc_name call, tc_call_id call, {[tc_call_id call]} ∪ used)
      | None, call :: _ => (tc_name call, tc_call_id call, used)
      | None, [] => (tool_name, call_id, used)
      end
  end.

(** [str(v or "")] *)
Definition text_or_empty (v : pyval) : pystr :=
  if truthy v then match v with VStr s => s | _ => py_str v end else [].

Definition get_or (d : pydict) (k : string) (default_ : pyval) : pyval := if has_key d k then get d k else default_.

Definition text_is (v : pyval) (s : string) : bool := py_eq v (VStr (u s)).

(** One record, and the calls that are used up. *)
Definition record_of (maps : call_maps) (message_index : nat)
    (location : location_type) (call_id tool_name : pystr) (payload : pyval * payload_format) (used : gset pystr)
    : ResultRecord * gset pystr :=
  let '(name, id, used) := _resolve_call maps call_id tool_name used in
  (mkResult message_index location name id payload.1 payload.2 (_payload_chars payload.1 payload.2), used).

(** The text of a block array, and its other blocks. *)
Definition text_of_blocks (blocks : list pyval) : pystr :=
  join [10%N] (blocks ≫= λ b, match b with
                              | VDict d => if text_is (get d "type") "text" then [text_or_empty (get d "text")] else []
                              | _ => []
                              end).
Definition other_blocks (blocks : list pyval) : list pyval :=
  List.filter (λ b, match b with VDict d => negb (text_is (get d "type") "text") | _ => true end) blocks.

Definition block_record (maps : call_maps) (message_index block_index : nat) (block : pyval) (used : gset pystr)
    : list ResultRecord * gset pystr :=
  match block with
  | VDict d =>
      if negb (text_is (get d "type") "tool_result") then ([], used)
      else
        let call_id := text_or_empty (get d "tool_use_id") in
        let '(r, used) :=
          match get_or d "content" (VStr []) with
          | VList blocks =>
              record_of maps message_index (content_block_tool_result block_index (Some (other_blocks blocks)))
                call_id [] (VStr (text_of_blocks blocks), raw_string) used
          | raw_content =>
              record_of maps message_index (content_block_tool_result block_index None)
                call_id [] (_normalize_payload raw_content) used
          end in
        ([r], used)
  | _ => ([], used)
  end.

Definition part_record (maps : call_maps) (message_index part_index : nat) (part : pyval) (used : gset pystr)
    : list ResultRecord * gset pystr :=
  match part with
  | VDict p =>
      match get p "function_response" with
      | VDict f =>
          let id := if truthy (get f "id") then get f "id" else get p "id" in
          let '(r, used) := record_of maps message_index (parts_function_response part_index) (text_or_empty id)
                              (text_or_empty (get f "name")) (_normalize_payload (get_or f "response" (VDict []))) used in
          ([r], used)
      | _ => ([], used)
      end
  | _ => ([], used)
  end.

(** [for index, item in enumerate(items): ...] *)
Fixpoint collect_items {A} (one : nat → A → gset pystr → list ResultRecord * gset pystr) (index : nat) (items : list A)
    (used : gset pystr) : list ResultRecord * gset pystr :=
  match items with
  | [] => ([], used)
  | item :: items =>
      let '(rs, used) := one index item used in
      let '(rest, used) := collect_items one (S index) items used in
      (rs ++ rest, used)
  end.

Definition items_of (v : pyval) : list pyval := match v with VList l => l | _ => [] end.

Definition message_records (maps : call_maps) (message_index : nat) (message : pyval) (used : gset pystr)
    : list ResultRecord * gset pystr :=
  match message with
  | VDict m =>
      let '(r1, used) :=
        if text_is (get m "type") "function_call_output" then
          let '(r, used) := record_of maps message_index openai_function_call_output (text_or_empty (get m "call_id")) []
                              (_normalize_payload (get_or m "output" (VStr []))) used in
          ([r], used)
        else ([], used) in
      let '(r2, used) := collect_items (block_record maps message_index) 0 (items_of (get m "content")) used in
      let '(r3, used) :=
        if text_is (get m "role") "tool" && has_key m "content" then
          let '(r, used) := record_of maps message_index role_tool_content (text_or_empty (get m "tool_call_id")) []
                              (_normalize_payload (get m "content")) used in
          ([r], used)
        else ([], used) in
      let '(r4, used) := collect_items (part_record maps message_index) 0 (items_of (get m "parts")) used in
      (r1 ++ r2 ++ r3 ++ r4, used)
  | _ => ([], used)
  end.

Definition _collect_result_records (messages : list pyval) (tool_calls : list ToolCall) : list ResultRecord :=
  (collect_items (message_records (_tool_call_maps tool_calls)) 0 messages ∅).1.

(** *** Writing a payload back *)

Definition set_key (d : pydict) (k : string) (v : pyval) : pydict := dict_set d (KStr (u k)) v.

Definition write_in_message (m : pydict) (r : ResultRecord) (serialized : pyval) : pydict :=
  match rr_location_type r with
  | openai_function_call_output => set_key m "output" serialized
  | role_tool_content => set_key m "content" serialized
  | content_block_tool_result block_index rich =>
      match get m "content" with
      | VList content =>
          match content !! block_index with
          | Some (VDict block) =>
              let new :=
                match rich with
                | Some preserved =>
                    let text := match serialized with VStr s => s | v => _stable_json_dumps v end in
                    VList ((if nonempty text then [VDict [field "type" (VStr (u "text")); field "text" (VStr text)]] else [])
                           ++ preserved)
                | None => serialized
                end in
              set_key m "content" (VList (<[block_index := VDict (set_key block "content" new)]> content))
          | _ => m
          end
      | _ => m
      end
  | parts_function_response part_index =>
      match get m "parts" with
      | VList parts =>
          match parts !! part_index with
          | Some (VDict part) =>
              match get part "function_response" with
              | VDict f =>
                  set_key m "parts" (VList (<[part_index := VDict (set_key part "function_response"
                    (VDict (set_key f "response" serialized)))]> parts))
              | _ => m
              end
          | _ => m
          end
      | _ => m
      end
  end.

Definition _write_record_payload (messages : list pyval) (r : ResultRecord) (payload : pyval) : list pyval :=
  match messages !! rr_message_index r with
  | Some (VDict m) =>
      <[rr_message_index r := VDict (write_in_message m r (_serialize_payload payload (rr_payload_format r)))]> messages
  | _ => messages
  end.

(** ** The size of a dictionary *)

(** The number of decimal digits. *)
Definition digits (z : Z) : Z := Z.of_nat (length (decimal (Z.to_N z))).

Fixpoint dump_items (d : pydict) : option (list (pystr * pystr)) :=
  match d with
  | [] => Some []
  | (k, x) :: d' => r ← dumps_stable x; rs ← dump_items d'; Some ((key_str k, r) :: rs)
  end.

Lemma dumps_dict d :
  dumps_stable (VDict d) =
    items ← dump_items d;
    Some (u "{" ++ join (u ",") ((λ p, json_str p.1 ++ u ":" ++ p.2) <$> merge_sort key_le items) ++ u "}").
Proof. reflexivity. Qed.

(** The characters of one item, and of all without their separators. *)
Definition item_chars (kv : pykey * pyval) : option nat :=
  r ← dumps_stable kv.2; Some (length (json_str (key_str kv.1)) + 1 + length r).
Fixpoint items_chars (d : pydict) : option nat :=
  match d with
  | [] => Some 0
  | kv :: d => n ← item_chars kv; m ← items_chars d; Some (n + m)
  end.

Lemma items_chars_perm d d' : d ≡ₚ d' → items_chars d = items_chars d'.
Proof.
  induction 1 as [|x d d' _ IH|x y d|d1 d2 d3 _ IH1 _ IH2]; cbn; [done|by rewrite IH| |congruence].
  destruct (item_chars x), (item_chars y), (items_chars d); cbn; try done. f_equal. lia.
Qed.

Definition total (l : list pystr) : nat := sum_list (length <$> l).

Lemma length_join sep l : length (join sep l) = total l + pred (length l) * length sep.
Proof.
  unfold total. induction l as [|x [|y l] IH]; [done|cbn; lia|].
  change (join sep (x :: y :: l)) with (x ++ sep ++ join sep (y :: l)). rewrite !length_app, IH. cbn. lia.
Qed.

Lemma total_perm l l' : l ≡ₚ l' → total l = total l'.
Proof. unfold total. induction 1; cbn in *; lia. Qed.

Lemma dump_items_chars d :
  items_chars d = (λ items, total ((λ p, json_str p.1 ++ u ":" ++ p.2) <$> items)) <$> dump_items d ∧
  ∀ items, dump_items d = Some items → length items = length d.
Proof.
  induction d as [|[k x] d [IH IH']]; cbn [items_chars dump_items]; [split; [done|]; by intros ? [= <-]|].
  rewrite IH. unfold item_chars. cbn [fst snd]. destruct (dumps_stable x) as [r|]; cbn; [|split; done].
  destruct (dump_items d) as [rs|]; cbn; [|split; done]. split.
  - f_equal. unfold total. cbn. rewrite !length_app. change (length (u ":")) with 1. lia.
  - intros items [= <-]. cbn. f_equal. by apply IH'.
Qed.

Lemma length_dumps_dict d :
  length <$> dumps_stable (VDict d) = (λ n, 2 + n + pred (length d)) <$> items_chars d.
Proof.
  rewrite dumps_dict. destruct (dump_items_chars d) as [-> Hlen]. destruct (dump_items d) as [items|]; [|done].
  specialize (Hlen _ eq_refl). cbn [fmap option_fmap option_map mbind option_bind]. f_equal.
  rewrite !length_app, length_join, length_fmap. change (length (u "{")) with 1.
  rewrite (total_perm _ ((λ p, json_str p.1 ++ u ":" ++ p.2) <$> items)) by (by rewrite merge_sort_Permutation).
  rewrite (Permutation_length (merge_sort_Permutation key_le items)), Hlen. change (length (u ",")) with 1. change (length (u "}")) with 1. lia.
Qed.

(** Canonical form keeps distinct string keys. *)
Fixpoint canonical_pairs (d : pydict) : list (pystr * pyval) :=
  match d with
  | [] => []
  | (k, x) :: d' => (_canonical_key k, _canonicalize x) :: canonical_pairs d'
  end.

Lemma canonicalize_dict d :
  _canonicalize (VDict d) = VDict (number_keys ∅ (merge_sort key_text_le (canonical_pairs d)) []).
Proof. reflexivity. Qed.

Lemma dict_set_fresh (d : pydict) k v : k ∉ keys d → dict_set d k v = d ++ [(k, v)].
Proof.
  induction d as [|[k' v'] d IH]; [done|]. unfold keys in *. cbn. intros [Hne Hin]%not_elem_of_cons.
  rewrite decide_False by done. by rewrite IH.
Qed.

Lemma number_keys_fresh seen pairs acc :
  NoDup pairs.*1 → (∀ k, k ∈ pairs.*1 → seen !! k = None ∧ KStr k ∉ keys acc) →
  number_keys seen pairs acc = acc ++ ((λ p, (KStr p.1, p.2)) <$> pairs).
Proof.
  revert seen acc. induction pairs as [|[k v] pairs IH]; intros seen acc Hnd Hs; [by rewrite app_nil_r|].
  cbn [fmap list_fmap] in *. apply NoDup_cons in Hnd as [Hk Hnd]. cbn [number_keys].
  destruct (Hs k ltac:(by left)) as [Hseen Hacc]. rewrite Hseen. cbn [default numbered Nat.eqb fst snd].
  rewrite dict_set_fresh by done. rewrite IH; [by rewrite <-app_assoc|done|].
  intros k' Hk'. destruct (Hs k' ltac:(by right)) as [Hs' Ha']. assert (k' ≠ k) by (intros ->; done).
  rewrite lookup_insert_ne by done. split; [done|]. unfold keys in *. rewrite fmap_app, elem_of_app. cbn.
  intros [?|?%list_elem_of_singleton]; congruence.
Qed.

Lemma canonical_chars d :
  NoDup (canonical_pairs d).*1 →
  items_chars (number_keys ∅ (merge_sort key_text_le (canonical_pairs d)) []) =
  items_chars ((λ p, (KStr p.1, p.2)) <$> canonical_pairs d) ∧
  length (number_keys ∅ (merge_sort key_text_le (canonical_pairs d)) []) = length d.
Proof.
  intros Hnd. pose proof (merge_sort_Permutation key_text_le (canonical_pairs d)) as Hp.
  rewrite number_keys_fresh; [|by rewrite Hp|intros k _; split; [done|apply not_elem_of_nil]]. cbn [app]. split.
  - apply items_chars_perm. by rewrite Hp.
  - rewrite length_fmap, (Permutation_length Hp). clear. induction d as [|[k x] d IH]; cbn; [done|by rewrite IH].
Qed.

(** ** Decimal digits *)

Lemma decimal_loop_length fuel n acc :
  (n < 2 ^ N.of_nat fuel)%N →
  ∃ k, length (decimal_loop (S fuel) n acc) = S k + length acc ∧ (n < 10 ^ N.of_nat (S k))%N ∧
       (k = 0 ∨ (10 ^ N.of_nat k ≤ n)%N).
Proof.
  revert n acc. induction fuel as [|fuel IH]; intros n acc Hn.
  - change (2 ^ N.of_nat 0)%N with 1%N in Hn. exists 0. assert (n = 0)%N as -> by lia. split; [done|]. split; [done|by left].
  - remember (S fuel) as fuel'. cbn [decimal_loop]. subst fuel'. destruct (N.ltb_spec n 10) as [Hs|Hs].
    + exists 0. split; [done|]. split; [done|by left].
    + destruct (IH (n / 10)%N (digit (n mod 10) :: acc)) as (k & -> & Hlt & Hle).
      { rewrite Nat2N.inj_succ, N.pow_succ_r' in Hn. apply N.Div0.div_lt_upper_bound. lia. }
      exists (S k). pose proof (N.div_mod n 10 ltac:(lia)) as Hd. pose proof (N.mod_lt n 10 ltac:(lia)) as Hm.
      revert Hd Hm Hlt Hle. generalize (n / 10)%N (n mod 10)%N. intros q m Hd Hm Hlt Hle. split; [cbn; lia|].
      rewrite (Nat2N.inj_succ (S k)), N.pow_succ_r'. split.
      * revert Hlt. generalize (10 ^ N.of_nat (S k))%N. lia.
      * right. rewrite Nat2N.inj_succ, N.pow_succ_r'. destruct Hle as [->|Hle].
        -- change (10 ^ N.of_nat 0)%N with 1%N. lia.
        -- revert Hle. generalize (10 ^ N.of_nat k)%N. lia.
Qed.

Lemma digits_spec z :
  (0 ≤ z → 1 ≤ digits z ∧ z < 10 ^ digits z ∧ (digits z = 1 ∨ 10 ^ (digits z - 1) ≤ z))%Z.
Proof.
  intros Hz. unfold digits, decimal.
  destruct (decimal_loop_length (N.to_nat (N.size (Z.to_N z))) (Z.to_N z) []) as (k & -> & Hlt & Hle).
  { rewrite N2Nat.id. apply N.size_gt. }
  cbn [length]. rewrite Nat.add_0_r. split; [lia|]. apply N2Z.inj_lt in Hlt.
  rewrite N2Z.inj_pow, nat_N_Z, Z2N.id in Hlt by done. split; [done|].
  destruct Hle as [->|Hle]; [by left|]. right. apply N2Z.inj_le in Hle.
  rewrite N2Z.inj_pow, nat_N_Z, Z2N.id in Hle by done. by replace (Z.of_nat (S k) - 1)%Z with (Z.of_nat k) by lia.
Qed.

Lemma digits_unique z d : (0 < z → 1 ≤ d → 10 ^ (d - 1) ≤ z < 10 ^ d → digits z = d)%Z.
Proof.
  intros Hz Hd [Hl Hu]. destruct (digits_spec z ltac:(lia)) as (D1 & D2 & D3).
  assert (10 ^ (digits z - 1) ≤ z)%Z as D4 by (destruct D3 as [->|D3]; [cbn; lia|done]).
  destruct (Z.lt_trichotomy (digits z) d) as [Hlt|[?|Hgt]]; [|done|]; exfalso.
  - assert (10 ^ digits z ≤ 10 ^ (d - 1))%Z by (apply Z.pow_le_mono_r; lia). lia.
  - assert (10 ^ d ≤ 10 ^ (digits z - 1))%Z by (apply Z.pow_le_mono_r; lia). lia.
Qed.

Lemma digits_small b : (0 ≤ b → digits b ≤ b + 1)%Z.
Proof.
  intros Hb. destruct (digits_spec b Hb) as (D1 & _ & [->|D3]); [lia|].
  assert (digits b - 1 < 10 ^ (digits b - 1))%Z by (apply Z.pow_gt_lin_r; lia). lia.
Qed.

(** Adding the number of digits of a size to it settles within three rounds. *)
Lemma digits_settle b :
  (0 ≤ b → let s0 := b + 1 in let s1 := b + digits s0 in let s2 := b + digits s1 in
   s1 = s0 ∨ s2 = s1 ∨ b + digits s2 = s2)%Z.
Proof.
  intros Hb s0 s1 s2. destruct (digits_spec s0 ltac:(lia)) as (A1 & A2 & A3).
  pose proof (digits_small s0 ltac:(lia)) as Asmall.
  set (d0 := digits s0) in *. assert (10 ^ (d0 - 1) ≤ s0)%Z as A4 by (destruct A3 as [->|?]; [cbn; lia|done]).
  destruct (decide (d0 = 1%Z)) as [E|Hne]; [left; lia|]. right.
  assert (10 ^ d0 = 10 * 10 ^ (d0 - 1))%Z as P1 by (rewrite <-Z.pow_succ_r by lia; f_equal; lia).
  assert (10 ^ (d0 + 1) = 10 * 10 ^ d0)%Z as P2 by (rewrite <-Z.pow_succ_r by lia; f_equal; lia).
  assert (d0 - 1 < 10 ^ (d0 - 1))%Z as P3 by (apply Z.pow_gt_lin_r; lia).
  destruct (Z.lt_ge_cases s1 (10 ^ d0)) as [Hlt|Hge].
  - left. unfold s2. rewrite (digits_unique s1 d0); [done|lia..].
  - right. assert (digits s1 = d0 + 1)%Z as E1.
    { apply digits_unique; [lia..|]. replace (d0 + 1 - 1)%Z with d0 by lia. lia. }
    unfold s2. rewrite E1. rewrite (digits_unique (b + (d0 + 1)) (d0 + 1)); [done|lia..|].
    replace (d0 + 1 - 1)%Z with d0 by lia. lia.
Qed.

Lemma digits_le z k : (0 ≤ z < 10 ^ k → 1 ≤ k → digits z ≤ k)%Z.
Proof.
  intros [Hz Hlt] Hk. destruct (digits_spec z Hz) as (_ & _ & [->|D]); [done|].
  destruct (Z.le_gt_cases (digits z) k) as [?|Hgt]; [done|]. exfalso.
  assert (10 ^ k ≤ 10 ^ (digits z - 1))%Z by (apply Z.pow_le_mono_r; lia). lia.
Qed.

Lemma int_repr_small z : (0 ≤ z → digits z ≤ 4300 → int_repr z = Some (decimal (Z.to_N z)))%Z.
Proof.
  intros Hz Hd. unfold int_repr, digits in *. rewrite Z.abs_eq by done.
  destruct (Nat.ltb_spec 4300 (length (decimal (Z.to_N z)))); [lia|]. by destruct (Z.ltb_spec z 0); [lia|].
Qed.

(** None of the sizes that come up has more than 4300 digits. *)
Lemma digits_bounded b k :
  (4 ≤ k ≤ 4000 → 0 ≤ b → b + 1 < 10 ^ k → let s0 := b + 1 in let s1 := b + digits s0 in
   (0 ≤ s0 ∧ digits s0 ≤ 4300) ∧ (0 ≤ s1 ∧ digits s1 ≤ 4300) ∧ (0 ≤ b + digits s1 ∧ digits (b + digits s1) ≤ 4300))%Z.
Proof.
  intros Hk Hb Hlt s0 s1. assert (10 ^ 4 ≤ 10 ^ k)%Z as H4 by (apply Z.pow_le_mono_r; lia).
  assert (10 ^ (k + 1) = 10 * 10 ^ k)%Z as P by (rewrite <-Z.pow_succ_r by lia; f_equal; lia).
  change (10 ^ 4)%Z with 10000%Z in H4.
  assert (digits s0 ≤ k)%Z by (apply digits_le; lia). assert (1 ≤ digits s0)%Z by (apply digits_spec; lia).
  assert (digits s1 ≤ k + 1)%Z by (apply digits_le; lia). assert (1 ≤ digits s1)%Z by (apply digits_spec; lia).
  assert (digits (b + digits s1) ≤ k + 1)%Z by (apply digits_le; lia). lia.
Qed.

(** ** The description states its own size *)

(** A dictionary with one number that varies. *)
Definition with_number (a : pydict) (key : pystr) (b : pydict) (n : Z) : pydict := a ++ (KStr key, VInt n) :: b.

Lemma canonical_pairs_app a b : canonical_pairs (a ++ b) = canonical_pairs a ++ canonical_pairs b.
Proof. induction a as [|[k x] a IH]; cbn; [done|by rewrite IH]. Qed.

(** Its size is that of the rest and the digits of the number, or it is not
    printed at all. *)
Lemma size_with_number a key b :
  NoDup (canonical_pairs (with_number a key b 0)).*1 →
  ∃ base, (0 ≤ base)%Z ∧ ∃ counts : bool, ∀ n, (0 ≤ n)%Z → (digits n ≤ 4300)%Z →
    Z.of_nat (_budgeted_chars (VDict (with_number a key b n))) = (if counts then base + digits n else base)%Z.
Proof.
  intros Hnd. set (rest := (λ p, (KStr p.1, p.2)) <$> (canonical_pairs a ++ canonical_pairs b)).
  set (one := length (json_str key) + 1).
  assert (∀ n, (0 ≤ n)%Z → (digits n ≤ 4300)%Z →
    length <$> dumps_stable (_canonicalize (VDict (with_number a key b n))) =
    (λ t, 2 + (one + length (decimal (Z.to_N n)) + t) + length (a ++ b)) <$> items_chars rest) as Hsize.
  { intros n Hn Hd. rewrite canonicalize_dict, length_dumps_dict.
    destruct (canonical_chars (with_number a key b n)) as [-> ->].
    { revert Hnd. unfold with_number. rewrite !canonical_pairs_app. cbn. by rewrite !fmap_app. }
    rewrite (items_chars_perm _ ((KStr key, VInt n) :: rest)).
    2: { unfold rest, with_number. rewrite canonical_pairs_app. cbn. rewrite !fmap_app. cbn. by rewrite Permutation_middle. }
    cbn [items_chars item_chars]. unfold item_chars. cbn [snd fst dumps_stable key_str]. rewrite int_repr_small by done.
    cbn [mbind option_bind]. destruct (items_chars rest) as [t|]; [|done]. cbn. f_equal. unfold with_number, one.
    rewrite !length_app. cbn [length]. lia. }
  clearbody one. destruct (items_chars rest) as [t|].
  - exists (Z.of_nat (2 + (one + t) + length (a ++ b))). split; [lia|]. exists true. intros n Hn Hd. specialize (Hsize n Hn Hd).
    unfold _budgeted_chars, _stable_json_dumps. destruct (dumps_stable _); [|done].
    cbn [fmap option_fmap option_map] in Hsize. apply (inj Some) in Hsize. rewrite Hsize. unfold digits. lia.
  - exists (Z.of_nat (length (json_str (type_name (VDict []) ++ u ":<" ++ type_name (VDict []) ++ u ">")))).
    split; [lia|]. exists false. intros n Hn Hd. specialize (Hsize n Hn Hd).
    unfold _budgeted_chars, _stable_json_dumps. by destruct (dumps_stable _).
Qed.

(** Any such description settles. *)
Lemma settle_ends a key b k :
  (4 ≤ k ≤ 4000)%Z → NoDup (canonical_pairs (with_number a key b 0)).*1 →
  (Z.of_nat (_budgeted_chars (VDict (with_number a key b 0))) < 10 ^ k)%Z →
  ∃ n, settle 4 (with_number a key b) 0 (-1) = Some (with_number a key b n) ∧
       n = Z.of_nat (_budgeted_chars (VDict (with_number a key b n))).
Proof.
  intros Hk Hnd. destruct (size_with_number a key b Hnd) as (base & Hb & counts & Hsize).
  set (size n := Z.of_nat (_budgeted_chars (VDict (with_number a key b n)))). intros Hlt. change (size 0 < 10 ^ k)%Z in Hlt.
  assert (∀ n, (0 ≤ n)%Z → (digits n ≤ 4300)%Z → size n = if counts then (base + digits n)%Z else base) as Hsize' by exact Hsize.
  clear Hsize. rename Hsize' into Hsize.
  assert (digits 0 = 1)%Z as D0 by done. assert (size 0 = if counts then base + 1 else base)%Z as S0 by (by rewrite Hsize, D0).
  assert (∀ fuel n p, settle (S fuel) (with_number a key b) n p =
    if (size n =? p)%Z then Some (with_number a key b n) else settle fuel (with_number a key b) (size n) (size n)) as Hstep by done.
  destruct counts.
  2: { exists base. rewrite Hstep, S0. destruct (Z.eqb_spec base (-1)); [lia|].
       assert (size base = base) as Sb.
       { apply Hsize; [done|]. rewrite <-S0. etrans; [apply (digits_le _ k); [split; [lia|done]|lia]|lia]. }
       rewrite Hstep, Sb, Z.eqb_refl. done. }
  set (s0 := (base + 1)%Z) in *. set (s1 := (base + digits s0)%Z). set (s2 := (base + digits s1)%Z).
  assert (s0 < 10 ^ k)%Z as Hs0 by (by rewrite <-S0).
  destruct (digits_bounded base k Hk Hb Hs0) as (B0 & B1 & B2). fold s0 in B0, B1, B2. fold s1 in B1, B2. fold s2 in B2.
  assert (size s0 = s1) as S1 by (apply Hsize; lia). assert (size s1 = s2) as S2 by (apply Hsize; lia).
  assert (size s2 = base + digits s2)%Z as S3 by (apply Hsize; lia).
  rewrite Hstep, S0. destruct (Z.eqb_spec s0 (-1)); [lia|]. rewrite Hstep, S1.
  destruct (Z.eqb_spec s1 s0) as [E|N1]; [exists s0; split; [done|]; change (s0 = size s0); congruence|]. rewrite Hstep, S2.
  destruct (Z.eqb_spec s2 s1) as [E|N2]; [exists s1; split; [done|]; change (s1 = size s1); congruence|]. rewrite Hstep.
  destruct (digits_settle base Hb) as [E|[E|E]]; fold s0 in E; fold s1 in E; fold s2 in E; [done..|].
  rewrite S3, E, Z.eqb_refl. exists s2. split; [done|]. change (s2 = size s2). congruence.
Qed.

(** *** The descriptions of the code *)

Definition fields_before (payload : pyval) (reason tool_name call_id : pystr) : pydict :=
  [field "compacted" (VBool true); field "reason" (VStr reason); field "tool_name" (VStr tool_name);
   field "call_id" (VStr call_id); field "original_chars" (VInt (Z.of_nat (length (_stable_json_dumps payload))))].
Definition fields_after (payload : pyval) (preview_chars : Z) : pydict :=
  [field "preview" (VStr (_preview_text (_stable_json_dumps payload) preview_chars));
   field "original_sha1" (VStr (_sha1_text (_stable_json_dumps payload)))]
  ++ let retained := _retained_scalar_fields payload (Z.max 0 preview_chars) in
     match retained with [] => [] | _ => [field "retained_fields" (VDict retained)] end.

Lemma compacted_with_number payload reason tool_name call_id preview_chars n :
  compacted_with payload reason tool_name call_id preview_chars n =
  with_number (fields_before payload reason tool_name call_id) (u "budgeted_chars") (fields_after payload preview_chars) n.
Proof. reflexivity. Qed.

Lemma compacted_keys payload reason tool_name call_id preview_chars n :
  NoDup (canonical_pairs (compacted_with payload reason tool_name call_id preview_chars n)).*1.
Proof.
  assert (NoDup ([u "compacted"; u "reason"; u "tool_name"; u "call_id"; u "original_chars"; u "budgeted_chars";
    u "preview"; u "original_sha1"] ++ [u "retained_fields"])) as Hnd by (apply (bool_decide_unpack _); vm_compute; exact I).
  unfold compacted_with. rewrite canonical_pairs_app, fmap_app.
  destruct (_retained_scalar_fields payload (Z.max 0 preview_chars)) as [|f fs]; [|exact Hnd].
  apply NoDup_app in Hnd as (Hnd & _ & _). rewrite app_nil_r. exact Hnd.
Qed.

(** Unless a size has four thousand digits, a description is found. *)
Definition printable_sizes (payload : pyval) (reason tool_name call_id : pystr) (preview_chars : Z) : Prop :=
  (Z.of_nat (_budgeted_chars (VDict (compacted_with payload reason tool_name call_id preview_chars 0))) < 10 ^ 4000)%Z.

Lemma compact_payload_ok payload reason tool_name call_id preview_chars :
  printable_sizes payload reason tool_name call_id preview_chars →
  ∃ n, _compact_payload payload reason tool_name call_id preview_chars
       = Ok (VDict (compacted_with payload reason tool_name call_id preview_chars n)) ∧
       n = Z.of_nat (_budgeted_chars (VDict (compacted_with payload reason tool_name call_id preview_chars n))).
Proof.
  intros Hsize. unfold printable_sizes in Hsize. rewrite compacted_with_number in Hsize.
  pose proof (compacted_keys payload reason tool_name call_id preview_chars 0) as Hnd. rewrite compacted_with_number in Hnd.
  destruct (settle_ends _ _ _ 4000 ltac:(lia) Hnd Hsize) as (n & Hs & Hn). exists n. rewrite compacted_with_number.
  split; [|exact Hn]. unfold _compact_payload.
  change (compacted_with payload reason tool_name call_id preview_chars) with
    (with_number (fields_before payload reason tool_name call_id) (u "budgeted_chars") (fields_after payload preview_chars)).
  by rewrite Hs.
Qed.

(** The description that replaces a tool result states its own size: the loop
    that writes the number of characters into the very text it counts ends, for
    any payload and texts whose sizes have fewer than 4000 digits, and the number
    in the result is the size of the result. *)
Theorem compaction_states_its_size payload reason tool_name call_id preview_chars :
  printable_sizes payload reason tool_name call_id preview_chars →
  ∃ d, _compact_payload payload reason tool_name call_id preview_chars = Ok (VDict d) ∧
       get d "budgeted_chars" = VInt (Z.of_nat (_payload_chars (VDict d) json_string)) ∧
       get d "original_chars" = VInt (Z.of_nat (_payload_chars payload json_string)).
Proof.
  intros H. destruct (compact_payload_ok _ _ _ _ _ H) as (n & Hc & Hn). eexists. split; [exact Hc|]. split; [|done].
  change (VInt n = VInt (Z.of_nat (_budgeted_chars (VDict (compacted_with payload reason tool_name call_id preview_chars n))))).
  by rewrite <-Hn.
Qed.

(** ** Bisection *)

(** It ends, with the best it was given or something that fits. *)
Lemma bisect_ok fuel candidate fits top low high best :
  (∀ z, (0 ≤ z ≤ top)%Z → ∃ c, candidate z = Ok c) → (0 ≤ low)%Z → (high ≤ top)%Z → (high - low < Z.of_nat fuel)%Z →
  ∃ c, bisect fuel candidate fits low high best = Ok c ∧ (c = best ∨ fits c = true).
Proof.
  intros Hc. revert low high best. induction fuel as [|fuel IH]; intros low high best Hl Hh Hf; cbn [bisect];
    destruct (Z.ltb_spec high low); try (by eauto); [lia|].
  assert (low ≤ (low + high) / 2 ≤ high)%Z as Hm.
  { split; [apply Z.div_le_lower_bound; lia|apply Z.div_le_upper_bound; lia]. }
  destruct (Hc ((low + high) / 2)%Z) as [c Ec]; [lia|]. cbv zeta. rewrite Ec. cbn [mbind result_bind].
  destruct (fits c) eqn:E.
  - destruct (IH ((low + high) / 2 + 1)%Z high c) as (c' & -> & [->|Hc']); [lia..|eauto|eauto].
  - destruct (IH low ((low + high) / 2 - 1)%Z best) as (c' & -> & Hc'); [lia..|eauto].
Qed.

End results.
