(* ===== verification/ToolBudget.v ===== *)
(** * The budget of a batch (src/unchain/tools/result_budget.py, controller)

    [ToolResultBudgetController.budget_messages]: results that are too long by
    themselves are described first; while the batch is too long, the longest
    results are cut to what is left for them. *)

From S2P Require Import Prelude PyVal Json JsonParse Models ToolResults.

Record ToolResultBudgetConfig : Type := mkBudgetConfig {
  bc_max_result_chars : Z;
  bc_max_batch_chars : Z;
  bc_preview_chars : Z;
  bc_min_chars_to_budget : Z;
}.

Record ToolResultBudgetStats : Type := mkStats {
  bs_result_count : nat;
  bs_compacted_count : nat;
  bs_optimizer_error_count : nat;
  bs_original_chars : nat;
  bs_budgeted_chars : nat;
  bs_saved_chars : nat;
}.

Record ToolHistoryOptimizationContext : Type := mkContext {
  oc_tool_name : pystr;
  oc_call_id : pystr;
  oc_kind : pystr;
  oc_provider : pystr;
  oc_session_id : pystr;
  oc_latest_messages : list pyval;
  oc_max_chars : Z;
  oc_preview_chars : Z;
  oc_include_hash : bool;
}.

(** What an optimizer does. *)
Inductive optimizer_answer : Type :=
| Returned (v : pyval)
| RaisedLeaseError
| RaisedOther.

(** The local variables of a call. *)
Record batch : Type := mkBatch {
  b_payloads : list (nat * pyval);      (** [compacted_payloads] *)
  b_chars : list nat;                   (** [current_chars] *)
  b_errors : nat;
  b_attempted : gset nat;
}.

Fixpoint put_payload {A} (i : nat) (v : A) (l : list (nat * A)) : list (nat * A) :=
  match l with
  | [] => [(i, v)]
  | (j, w) :: l => if i =? j then (i, v) :: l else (j, w) :: put_payload i v l
  end.

Fixpoint payload_at {A} (i : nat) (l : list (nat * A)) : option A :=
  match l with
  | [] => None
  | (j, w) :: l => if i =? j then Some w else payload_at i l
  end.

Section budget.
Variable obj_repr : pystr → N → pystr.
Variable py_str : pyval → pystr.
(** [toolkit.get(name).history_result_optimizer], where there is one *)
Variable optimizer_of : pystr → option (pyval → ToolHistoryOptimizationContext → optimizer_answer).
Variable cf : ToolResultBudgetConfig.
Variables provider session_id reason : pystr.
Variable latest_messages : list pyval.

Abbreviation payload_chars := (_payload_chars obj_repr).

Definition max_result_chars : Z := Z.max 1 (bc_max_result_chars cf).
Definition max_batch_chars : nat := Z.to_nat (Z.max 1 (bc_max_batch_chars cf)).
Definition min_chars_to_budget : Z := Z.max 0 (bc_min_chars_to_budget cf).

Definition context_of (r : ResultRecord) : ToolHistoryOptimizationContext :=
  mkContext (rr_tool_name r) (rr_call_id r) (u "result") provider session_id latest_messages max_result_chars
    (Z.max 1 (bc_preview_chars cf)) true.

(** The value of the optimizer, when there is one that returns. *)
Definition optimizer_payload (index : nat) (r : ResultRecord) : M batch stop (option pyval) :=
  attempted ← gets b_attempted;
  if bool_decide (index ∈ attempted) then mret None
  else
    _ ← modify (λ b, mkBatch (b_payloads b) (b_chars b) (b_errors b) ({[index]} ∪ b_attempted b));
    if negb (nonempty (rr_tool_name r)) then mret None
    else match optimizer_of (rr_tool_name r) with
    | None => mret None
    | Some optimizer =>
        match optimizer (rr_payload r) (context_of r) with
        | Returned v => mret (Some v)
        | RaisedLeaseError => raise LeaseLost
        | RaisedOther =>
            _ ← modify (λ b, mkBatch (b_payloads b) (b_chars b) (S (b_errors b)) (b_attempted b)); mret None
        end
    end.

Definition apply_payload (index : nat) (r : ResultRecord) (payload : pyval) : M batch stop bool :=
  chars ← gets b_chars;
  let size := payload_chars payload (rr_payload_format r) in
  if nth index chars 0 <=? size then mret false
  else
    _ ← modify (λ b, mkBatch (put_payload index payload (b_payloads b)) (<[index := size]> (b_chars b)) (b_errors b) (b_attempted b));
    mret true.

Definition describe (r : ResultRecord) (target_chars : option nat) : M batch stop pyval :=
  lift (_compact_payload_for_target obj_repr r reason (bc_preview_chars cf) target_chars).

Definition apply_soft_compaction (index : nat) (r : ResultRecord) : M batch stop unit :=
  optimized ← optimizer_payload index r;
  applied ← match optimized with
            | Some VNone | None => mret false
            | Some v => apply_payload index r v
            end;
  if (applied : bool) then mret tt
  else
    generic ← describe r None;
    _ ← apply_payload index r generic;
    mret tt.

Fixpoint apply_first (index : nat) (r : ResultRecord) (candidates : list pyval) : M batch stop bool :=
  match candidates with
  | [] => mret false
  | candidate :: candidates =>
      applied ← apply_payload index r candidate;
      if (applied : bool) then mret true else apply_first index r candidates
  end.

Definition shorter (r : ResultRecord) (v w : pyval) : Prop :=
  payload_chars v (rr_payload_format r) ≤ payload_chars w (rr_payload_format r).
#[local] Instance shorter_dec r v w : Decision (shorter r v w).
Proof. unfold shorter. apply _. Defined.

Definition apply_hard_compaction (index : nat) (r : ResultRecord) (target_chars : nat) : M batch stop bool :=
  optimized ← optimizer_payload index r;
  generic ← describe r (Some target_chars);
  let candidates := match optimized with Some VNone | None => [] | Some v => [v] end ++ [generic] in
  apply_first index r (merge_sort (shorter r) candidates).

Fixpoint soft_pass (index : nat) (records : list ResultRecord) : M batch stop unit :=
  match records with
  | [] => mret tt
  | r :: records =>
      let chars := Z.of_nat (rr_original_chars r) in
      _ ← (if (min_chars_to_budget <=? chars)%Z && (max_result_chars <? chars)%Z
           then apply_soft_compaction index r else mret tt);
      soft_pass (S index) records
  end.

(** [for index in sorted(...): ...] *)
Fixpoint hard_pass (records : list ResultRecord) (order : list nat) (changed : bool) : M batch stop bool :=
  match order with
  | [] => mret changed
  | index :: order =>
      chars ← gets b_chars;
      let total_chars := sum_list chars in
      if total_chars <=? max_batch_chars then mret changed
      else match records !! index with
      | None => mret changed
      | Some r =>
          let target_chars := max_batch_chars - (total_chars - nth index chars 0) in
          applied ← apply_hard_compaction index r target_chars;
          hard_pass records order (changed || applied)
      end
  end.

Definition longest_first (chars : list nat) (i j : nat) : Prop := nth j chars 0 ≤ nth i chars 0.
#[local] Instance longest_first_dec chars i j : Decision (longest_first chars i j).
Proof. unfold longest_first. apply _. Defined.

(** [while sum(current_chars.values()) > max_batch_chars: ...] *)
Fixpoint rounds (fuel : nat) (records : list ResultRecord) : M batch stop unit :=
  chars ← gets b_chars;
  if sum_list chars <=? max_batch_chars then mret tt
  else match fuel with
  | 0 => raise OutOfFuel
  | S fuel =>
      changed ← hard_pass records (merge_sort (longest_first chars) (seq 0 (length records))) false;
      if (changed : bool) then rounds fuel records else mret tt
  end.

Definition sum_original (records : list ResultRecord) : nat := sum_list (rr_original_chars <$> records).

Definition opening (records : list ResultRecord) : batch := mkBatch [] (rr_original_chars <$> records) 0 ∅.

(** Every round but the last makes the batch shorter. *)
Definition balance (records : list ResultRecord) : M batch stop unit :=
  _ ← soft_pass 0 records;
  rounds (S (sum_original records)) records.

(** The payload that a record ends with. *)
Definition final_payload (payloads : list (nat * pyval)) (index : nat) (r : ResultRecord) : pyval :=
  default (rr_payload r) (payload_at index payloads).

Fixpoint write_all (records : list ResultRecord) (payloads : list (nat * pyval)) (messages : list pyval) : list pyval :=
  match payloads with
  | [] => messages
  | (index, payload) :: payloads =>
      write_all records payloads
        (match records !! index with
         | Some r => _write_record_payload obj_repr messages r payload
         | None => messages
         end)
  end.

Definition was_compacted (payloads : list (nat * pyval)) (ir : nat * ResultRecord) : bool :=
  let '(index, r) := ir in
  let text p := _stable_json_dumps obj_repr (_serialize_payload obj_repr p (rr_payload_format r)) in
  negb (bool_decide (text (final_payload payloads index r) = text (rr_payload r))).

Definition budget_messages (tool_calls : list ToolCall) (result_messages : list pyval)
    : result stop (list pyval * ToolResultBudgetStats) :=
  let records := _collect_result_records obj_repr py_str result_messages tool_calls in
  match records with
  | [] => Ok (result_messages, mkStats 0 0 0 0 0 0)
  | _ =>
      match balance records (opening records) with
      | (Err e, _) => Err e
      | (Ok _, b) =>
          let final_chars := sum_list (b_chars b) in
          Ok (write_all records (b_payloads b) result_messages,
              mkStats (length records)
                (length (List.filter (was_compacted (b_payloads b)) (zip (seq 0 (length records)) records)))
                (b_errors b) (sum_original records) final_chars (sum_original records - final_chars))
      end
  end.

(** ** Collected records *)

(** A record knows the size of its payload. *)
Definition sized (r : ResultRecord) : Prop := rr_original_chars r = payload_chars (rr_payload r) (rr_payload_format r).

Lemma record_sized maps index location call_id name payload used :
  sized (record_of obj_repr maps index location call_id name payload used).1.
Proof. unfold record_of. by destruct (_resolve_call maps call_id name used) as [[??]?]. Qed.

Lemma collect_sized {A} (one : nat → A → gset pystr → list ResultRecord * gset pystr) index items used :
  (∀ i x used, Forall sized (one i x used).1) → Forall sized (collect_items one index items used).1.
Proof.
  intros H. revert index used. induction items as [|x items IH]; intros index used; [apply Forall_nil_2|]. cbn [collect_items].
  specialize (H index x used) as H1. destruct (one index x used) as [rs used1].
  specialize (IH (S index) used1). destruct (collect_items one (S index) items used1) as [rest used2]. cbn in *.
  by apply Forall_app.
Qed.

(** Take one record out of its definition. *)
Ltac one_record :=
  match goal with |- context [record_of ?f ?m ?i ?l ?c ?n ?p ?us] =>
    let H := fresh in pose proof (record_sized m i l c n p us) as H; destruct (record_of f m i l c n p us);
    cbn in H |- *; repeat constructor; exact H
  end.

Lemma block_sized maps i j block used : Forall sized (block_record obj_repr py_str maps i j block used).1.
Proof.
  unfold block_record. destruct block; try apply Forall_nil_2. destruct (negb _); [apply Forall_nil_2|].
  cbv zeta. destruct (get_or _ _ _); one_record.
Qed.

Lemma part_sized maps i j part used : Forall sized (part_record obj_repr py_str maps i j part used).1.
Proof.
  unfold part_record. destruct part; try apply Forall_nil_2. destruct (get _ _); try apply Forall_nil_2. cbv zeta. one_record.
Qed.

Lemma single_sized (b : bool) maps i l c n p used :
  Forall sized (if b then let '(r, used) := record_of obj_repr maps i l c n p used in ([r], used) else ([], used)).1.
Proof. destruct b; [one_record|apply Forall_nil_2]. Qed.

Lemma message_sized maps i message used : Forall sized (message_records obj_repr py_str maps i message used).1.
Proof.
  unfold message_records. destruct message as [| | | | | |m|]; try apply Forall_nil_2.
  pose proof (single_sized (text_is (get m "type") "function_call_output") maps i openai_function_call_output
    (text_or_empty py_str (get m "call_id")) [] (_normalize_payload (get_or m "output" (VStr []))) used) as H1.
  destruct (if text_is (get m "type") _ then _ else _) as [r1 used1].
  pose proof (collect_sized _ 0 (items_of (get m "content")) used1 (λ j, block_sized maps i j)) as H2.
  destruct (collect_items (block_record obj_repr py_str maps i) 0 _ used1) as [r2 used2].
  pose proof (single_sized (text_is (get m "role") "tool" && has_key m "content") maps i role_tool_content
    (text_or_empty py_str (get m "tool_call_id")) [] (_normalize_payload (get m "content")) used2) as H3.
  destruct (if text_is (get m "role") _ && _ then _ else _) as [r3 used3].
  pose proof (collect_sized _ 0 (items_of (get m "parts")) used3 (λ j, part_sized maps i j)) as H4.
  destruct (collect_items (part_record obj_repr py_str maps i) 0 _ used3) as [r4 used4]. cbn in *. by rewrite !Forall_app.
Qed.

Lemma records_sized messages calls : Forall sized (_collect_result_records obj_repr py_str messages calls).
Proof. apply collect_sized. intros i x used. apply message_sized. Qed.

(** ** The books of a batch *)

Section balance.
Variable records : list ResultRecord.
Hypothesis all_sized : Forall sized records.
(** Every description can be built. *)
Hypothesis describable : ∀ r z, r ∈ records → (0 ≤ z ≤ Z.max 0 (bc_preview_chars cf))%Z →
  printable_sizes obj_repr (rr_payload r) reason (rr_tool_name r) (rr_call_id r) z.

(** The size on the books is that of the payload, and at most the original. *)
Record books (b : batch) : Prop := {
  bk_length : length (b_chars b) = length records;
  bk_chars i r : records !! i = Some r →
    nth i (b_chars b) 0 = payload_chars (final_payload (b_payloads b) i r) (rr_payload_format r) ∧
    nth i (b_chars b) 0 ≤ rr_original_chars r;
}.

(** A run keeps the books, and sizes never grow. *)
Definition spends {A} (m : M batch stop A) (b : batch) (post : A → batch → Prop) : Prop :=
  match m b with
  | (Ok a, b') => books b' ∧ (sum_list (b_chars b') ≤ sum_list (b_chars b)) ∧ post a b'
  | (Err e, _) => e = LeaseLost
  end.

Lemma spends_bind {A B} (m : M batch stop A) (f : A → M batch stop B) b mid post :
  spends m b mid →
  (∀ a b', books b' → sum_list (b_chars b') ≤ sum_list (b_chars b) → mid a b' → spends (f a) b' post) →
  spends (m ≫= f) b post.
Proof.
  unfold spends. cbv [mbind M_bind]. destruct (m b) as [[a|e] b1]; [|done]. intros (H1 & H2 & H3) Hf.
  specialize (Hf a b1 H1 H2 H3). destruct (f a b1) as [[c|e] b2]; [|done]. destruct Hf as (? & ? & ?). split_and!; [done|lia|done].
Qed.

Lemma spends_ret {A} (a : A) b (post : A → batch → Prop) : books b → post a b → spends (mret a) b post.
Proof. intros H1 H2. unfold spends. by cbn. Qed.

Lemma spends_conseq {A} (m : M batch stop A) b (p q : A → batch → Prop) :
  spends m b p → (∀ a b', sum_list (b_chars b') ≤ sum_list (b_chars b) → p a b' → q a b') → spends m b q.
Proof. unfold spends. intros H Hpq. destruct (m b) as [[a|e] b']; [|done]. naive_solver. Qed.

Lemma spends_weaken {A} (m : M batch stop A) b (p q : A → batch → Prop) :
  spends m b p → (∀ a b', p a b' → q a b') → spends m b q.
Proof. intros H Hpq. eapply spends_conseq; [done|auto]. Qed.

Lemma opening_books : books (opening records).
Proof.
  split; cbn; [by rewrite length_fmap|]. intros i r Hr.
  assert (nth i (rr_original_chars <$> records) 0 = rr_original_chars r) as ->.
  { apply nth_lookup_Some. by rewrite list_lookup_fmap, Hr. }
  split; [|done]. unfold final_payload. cbn. rewrite Forall_lookup in all_sized. by apply (all_sized i).
Qed.

Lemma payload_at_put {A} i j (v : A) l : payload_at j (put_payload i v l) = if i =? j then Some v else payload_at j l.
Proof.
  induction l as [|[k w] l IH]; cbn [put_payload payload_at].
  - rewrite (Nat.eqb_sym j i). done.
  - destruct (Nat.eqb_spec i k) as [->|Hik]; cbn [payload_at].
    + rewrite (Nat.eqb_sym j k). by destruct (k =? j).
    + rewrite IH. destruct (Nat.eqb_spec j k) as [->|Hjk]; [|done]. by destruct (Nat.eqb_spec i k).
Qed.

Lemma sum_insert i n (l : list nat) : i < length l → n < nth i l 0 → sum_list (<[i := n]> l) < sum_list l.
Proof.
  revert i. induction l as [|x l IH]; intros [|i] Hi Hn; simpl in *; [lia..|]. specialize (IH i ltac:(lia) Hn). lia.
Qed.

(** Applying a payload: it is shorter, or nothing changes. *)
Lemma spends_apply i r payload b :
  books b → records !! i = Some r →
  spends (apply_payload i r payload) b (λ applied b',
    if applied then sum_list (b_chars b') < sum_list (b_chars b)
    else b' = b ∧ nth i (b_chars b) 0 ≤ payload_chars payload (rr_payload_format r)).
Proof.
  intros Hb Hr. unfold spends, apply_payload. cbv [mbind M_bind gets modify mret M_ret].
  destruct (Nat.leb_spec (nth i (b_chars b) 0) (payload_chars payload (rr_payload_format r))) as [Hle|Hlt]; cbn; [done|].
  pose proof Hb as [Hlen Hc]. apply lookup_lt_Some in Hr as Hi. rewrite <-Hlen in Hi.
  pose proof (sum_insert i _ (b_chars b) Hi Hlt) as Hsum. split_and!; [|lia|done]. split; cbn; [by rewrite length_insert|].
  intros j r' Hr'. unfold final_payload. cbn. rewrite payload_at_put. destruct (Nat.eqb_spec i j) as [<-|Hij].
  - assert (r' = r) as -> by congruence. rewrite (nth_lookup_Some _ _ _ (payload_chars payload (rr_payload_format r))).
    + split; [done|]. destruct (Hc _ _ Hr) as [_ ?]. lia.
    + by apply list_lookup_insert_eq.
  - assert (nth j (<[i:=payload_chars payload (rr_payload_format r)]> (b_chars b)) 0 = nth j (b_chars b) 0) as ->.
    { rewrite !nth_lookup. by rewrite list_lookup_insert_ne. }
    by apply Hc.
Qed.

Definition unmoved (b b' : batch) : Prop := b_chars b' = b_chars b ∧ b_payloads b' = b_payloads b.

Lemma unmoved_books b b' : unmoved b b' → books b → books b'.
Proof. intros [E1 E2] [H1 H2]. split; rewrite E1; [done|]. rewrite E2. done. Qed.

Lemma spends_optimizer i r b : books b → spends (optimizer_payload i r) b (λ _ b', unmoved b b').
Proof.
  intros Hb. unfold spends, optimizer_payload. cbv [mbind M_bind gets modify mret M_ret raise].
  destruct (bool_decide _); [done|]. set (b1 := mkBatch _ _ _ _).
  assert (books b1) as Hb1 by (by apply (unmoved_books b)). destruct (negb _); [done|].
  destruct (optimizer_of _) as [f|]; [|done]. destruct (f _ _); [done|done|].
  split; [|done]. by apply (unmoved_books b).
Qed.

(** The shortest description of a record. *)
Definition shortest_description (r : ResultRecord) : result stop pyval :=
  _compact_payload obj_repr (rr_payload r) reason (rr_tool_name r) (rr_call_id r) 0.

Lemma compact_total r z :
  r ∈ records → (0 ≤ z ≤ Z.max 0 (bc_preview_chars cf))%Z →
  ∃ c, _compact_payload obj_repr (rr_payload r) reason (rr_tool_name r) (rr_call_id r) z = Ok c.
Proof. intros Hr Hz. destruct (compact_payload_ok obj_repr _ _ _ _ _ (describable r z Hr Hz)) as (n & -> & _). eauto. Qed.

(** A description is found; one for a target is the shortest or fits. *)
Lemma describe_ok r target :
  r ∈ records →
  ∃ c, _compact_payload_for_target obj_repr r reason (bc_preview_chars cf) target = Ok c ∧
    ∀ n, target = Some n → shortest_description r = Ok c ∨ payload_chars c (rr_payload_format r) ≤ n.
Proof.
  intros Hr. unfold _compact_payload_for_target, shortest_description. destruct target as [n|].
  2: { destruct (compact_total r (Z.max 0 (bc_preview_chars cf)) Hr) as [c Hc]; [lia|]. exists c. by split. }
  destruct (compact_total r 0 Hr) as [c0 Hc0]; [lia|]. rewrite Hc0. cbn [mbind result_bind].
  destruct (payload_chars c0 (rr_payload_format r) <=? n) eqn:E; cbn [negb].
  2: { exists c0. split; [done|]. intros ? [= <-]. by left. }
  destruct (bisect_ok (S (Z.to_nat (Z.max 0 (bc_preview_chars cf))))
    (_compact_payload obj_repr (rr_payload r) reason (rr_tool_name r) (rr_call_id r))
    (λ c, payload_chars c (rr_payload_format r) <=? n) (Z.max 0 (bc_preview_chars cf)) 0
    (Z.max 0 (bc_preview_chars cf)) c0) as (c & -> & Hc).
  - intros z Hz. by apply compact_total.
  - lia.
  - lia.
  - lia.
  - exists c. split; [done|]. intros ? [= <-]. destruct Hc as [->|Hc]; [by left|]. right. by apply Nat.leb_le.
Qed.

Lemma spends_describe r target b :
  books b → r ∈ records →
  spends (describe r target) b (λ c b', b' = b ∧
    ∀ n, target = Some n → shortest_description r = Ok c ∨ payload_chars c (rr_payload_format r) ≤ n).
Proof.
  intros Hb Hr. unfold spends, describe, lift. destruct (describe_ok r target Hr) as (c & -> & Hc). done.
Qed.

Lemma spends_soft i r b : books b → records !! i = Some r → spends (apply_soft_compaction i r) b (λ _ _, True).
Proof.
  intros Hb Hr. assert (r ∈ records) as Hin by (by apply list_elem_of_lookup_2 in Hr). unfold apply_soft_compaction.
  eapply spends_bind; [by apply spends_optimizer|]. intros o b1 Hb1 _ _.
  assert (∀ p, spends (apply_payload i r p) b1 (λ _ _, True)) as Hap
    by (intros p; eapply spends_weaken; [by apply spends_apply|done]).
  eapply (spends_bind _ _ _ (λ _ _, True)).
  { destruct o as [[]|]; try apply Hap; by apply spends_ret. }
  intros applied b2 Hb2 _ _. destruct applied; [by apply spends_ret|].
  eapply spends_bind; [by apply spends_describe|]. intros c b3 Hb3 _ _.
  eapply spends_bind; [by apply spends_apply|]. intros applied b4 Hb4 _ _. by apply spends_ret.
Qed.

(** Nothing that is tried is shorter. *)
Lemma spends_first i r candidates b :
  books b → records !! i = Some r →
  spends (apply_first i r candidates) b (λ applied b',
    if applied then sum_list (b_chars b') < sum_list (b_chars b)
    else b' = b ∧ Forall (λ c, nth i (b_chars b) 0 ≤ payload_chars c (rr_payload_format r)) candidates).
Proof.
  intros Hb Hr. induction candidates as [|c candidates IH]; cbn [apply_first]; [apply spends_ret; [done|by split; [|apply Forall_nil_2]]|].
  eapply spends_bind; [by apply spends_apply|]. intros [] b1 Hb1 _ H1; [by apply spends_ret|].
  destruct H1 as [-> H1]. eapply spends_weaken; [exact IH|]. intros [] b2 H2; [done|]. destruct H2 as [-> H2].
  split; [done|]. by constructor.
Qed.

(** A record that cannot be described more briefly than it stands. *)
Definition stuck (i : nat) (b : batch) : Prop :=
  ∀ r, records !! i = Some r → ∃ c, shortest_description r = Ok c ∧ nth i (b_chars b) 0 ≤ payload_chars c (rr_payload_format r).

Lemma nth_le_sum i (l : list nat) : nth i l 0 ≤ sum_list l.
Proof. revert i. induction l as [|x l IH]; intros [|i]; cbn; [lia..|]. specialize (IH i). lia. Qed.

Lemma spends_hard i r b :
  books b → records !! i = Some r →
  let total := sum_list (b_chars b) in
  max_batch_chars < total →
  spends (apply_hard_compaction i r (max_batch_chars - (total - nth i (b_chars b) 0))) b (λ applied b',
    if applied then sum_list (b_chars b') < total else b_chars b' = b_chars b ∧ stuck i b).
Proof.
  intros Hb Hr total Hmax. assert (r ∈ records) as Hin by (by apply list_elem_of_lookup_2 in Hr). unfold apply_hard_compaction.
  eapply spends_bind; [by apply spends_optimizer|]. intros o b1 Hb1 _ [E1 _].
  eapply spends_bind; [by apply spends_describe|]. cbv beta. intros c b2 Hb2 _ [-> Hc]. specialize (Hc _ eq_refl).
  cbv zeta. eapply spends_weaken; [by apply spends_first|]. intros [] b3 H3; [by rewrite E1 in H3|].
  destruct H3 as [-> H3]. split; [done|]. rewrite E1 in H3.
  assert (nth i (b_chars b) 0 ≤ payload_chars c (rr_payload_format r)) as Hle.
  { rewrite Forall_forall in H3. apply H3. rewrite merge_sort_Permutation. apply elem_of_app. right. by left. }
  intros r' Hr'. assert (r' = r) as -> by congruence.
  destruct (compact_total r 0 Hin) as [c0 Hc0]; [lia|]. exists c0. split; [done|].
  destruct Hc as [Hc|Hc]; [unfold shortest_description in Hc; congruence|].
  pose proof (nth_le_sum i (b_chars b)). fold total in H. lia.
Qed.

Lemma stuck_chars i b b' : b_chars b' = b_chars b → stuck i b → stuck i b'.
Proof. intros E H. unfold stuck. by rewrite E. Qed.

(** What a pass leaves: it has shortened something, or the batch fits, or every
    record that was tried is stuck. *)
Definition pass_post (order : list nat) (changed : bool) (b : batch) (changed' : bool) (b' : batch) : Prop :=
  if changed' then changed = true ∨ sum_list (b_chars b') < sum_list (b_chars b)
  else changed = false ∧ b_chars b' = b_chars b ∧
       (sum_list (b_chars b) ≤ max_batch_chars ∨ Forall (λ i, stuck i b) order).

Lemma spends_hard_pass order changed b :
  books b → Forall (λ i, i < length records) order →
  spends (hard_pass records order changed) b (pass_post order changed b).
Proof.
  revert changed b. induction order as [|i order IH]; intros changed b Hb Ho; cbn [hard_pass].
  { apply spends_ret; [done|]. unfold pass_post. destruct changed; [by left|]. split_and!; [done..|]. right. apply Forall_nil_2. }
  apply Forall_cons in Ho as [Hi Ho].
  eapply (spends_bind _ _ _ (λ chars b', b' = b ∧ chars = b_chars b)); [done|]. intros chars b0 _ _ [-> ->]. cbv zeta.
  destruct (Nat.leb_spec (sum_list (b_chars b)) max_batch_chars) as [Hle|Hgt].
  { apply spends_ret; [done|]. unfold pass_post. destruct changed; auto. }
  destruct (lookup_lt_is_Some_2 records i Hi) as [r Hr]. rewrite Hr.
  eapply spends_bind; [by apply spends_hard|]. cbv beta. intros applied b1 Hb1 Hle1 H1.
  eapply spends_conseq; [by apply IH|]. unfold pass_post. intros ch b2 Hle2 Hp. destruct ch.
  - destruct Hp as [Hp|Hp]; [|right; lia]. apply orb_true_iff in Hp as [->| ->]; [by left|]. right. lia.
  - destruct Hp as (Hc & E2 & Hs). apply orb_false_iff in Hc as [-> ->]. destruct H1 as [E1 H1].
    split_and!; [done|congruence|]. rewrite E1 in Hs. destruct Hs as [Hs|Hs]; [by left|]. right. constructor; [done|].
    eapply Forall_impl; [exact Hs|]. intros j. by apply stuck_chars.
Qed.

Lemma spends_soft_pass i rs b :
  (∀ k r, rs !! k = Some r → records !! (i + k) = Some r) → books b → spends (soft_pass i rs) b (λ _ _, True).
Proof.
  revert i b. induction rs as [|r rs IH]; intros i b Hrs Hb; cbn [soft_pass]; [by apply spends_ret|]. cbv zeta.
  eapply (spends_bind _ _ _ (λ _ _, True)).
  { destruct (_ && _)%Z; [|by apply spends_ret]. apply spends_soft; [done|]. rewrite <-(Hrs 0 r eq_refl). f_equal. lia. }
  intros [] b1 Hb1 _ _. apply IH; [|done]. intros k r' Hk. rewrite <-(Hrs (S k) r' Hk). f_equal. lia.
Qed.

(** The batch fits, or nothing in it can be described more briefly. *)
Definition settled_batch (b : batch) : Prop :=
  sum_list (b_chars b) ≤ max_batch_chars ∨ ∀ i, i < length records → stuck i b.

Lemma spends_rounds fuel b :
  books b → sum_list (b_chars b) < fuel → spends (rounds fuel records) b (λ _ b', settled_batch b').
Proof.
  revert b. induction fuel as [|fuel IH]; intros b Hb Hf; [lia|]. cbn [rounds].
  eapply (spends_bind _ _ _ (λ chars b', b' = b ∧ chars = b_chars b)); [done|]. intros chars b0 _ _ [-> ->].
  destruct (Nat.leb_spec (sum_list (b_chars b)) max_batch_chars) as [Hle|Hgt]; [apply spends_ret; [done|by left]|].
  eapply spends_bind.
  { apply spends_hard_pass; [done|]. apply Forall_forall. intros i Hi. rewrite merge_sort_Permutation in Hi.
    apply elem_of_seq in Hi. lia. }
  intros changed b1 Hb1 _ Hp. unfold pass_post in Hp. destruct changed.
  - destruct Hp as [?|Hp]; [done|]. apply IH; [done|lia].
  - destruct Hp as (_ & E & [?|Hs]); [lia|]. apply spends_ret; [done|]. right. intros i Hi. apply (stuck_chars i b); [done|].
    rewrite Forall_forall in Hs. apply Hs. rewrite merge_sort_Permutation. apply elem_of_seq. lia.
Qed.

Lemma spends_balance : spends (balance records) (opening records) (λ _ b', settled_batch b').
Proof.
  unfold balance. eapply (spends_bind _ _ _ (λ _ _, True)).
  - apply spends_soft_pass; [done|]. apply opening_books.
  - intros [] b1 Hb1 Hle _. apply spends_rounds; [done|]. cbn in Hle. unfold sum_original. lia.
Qed.

End balance.

(** ** The theorem *)

Lemma length_write_all records payloads messages : length (write_all records payloads messages) = length messages.
Proof.
  revert messages. induction payloads as [|[i p] payloads IH]; intros messages; cbn [write_all]; [done|]. rewrite IH.
  destruct (records !! i) as [r|]; [|done]. unfold _write_record_payload.
  destruct (messages !! rr_message_index r) as [[]|]; try done. by rewrite length_insert.
Qed.

(** C30. The budget of a batch of tool results: the call comes to an end, or an
    optimizer has lost the execution lease; no message is added or lost, each
    result is replaced only by something shorter, the sizes that are reported are
    those of the payloads that are written, and the batch fits its budget unless
    the shortest description of every result is no shorter than what stands. *)
Theorem tool_results_fit_budget tool_calls messages :
  let records := _collect_result_records obj_repr py_str messages tool_calls in
  (∀ r z, r ∈ records → (0 ≤ z ≤ Z.max 0 (bc_preview_chars cf))%Z →
     printable_sizes obj_repr (rr_payload r) reason (rr_tool_name r) (rr_call_id r) z) →
  match budget_messages tool_calls messages with
  | Err e => e = LeaseLost
  | Ok (messages', stats) =>
      length messages' = length messages ∧ bs_result_count stats = length records ∧
      bs_original_chars stats = bs_budgeted_chars stats + bs_saved_chars stats ∧
      ∃ b, books records b ∧ messages' = write_all records (b_payloads b) messages ∧
           bs_budgeted_chars stats = sum_list (b_chars b) ∧ settled_batch records b
  end.
Proof.
  intros records Hd. unfold budget_messages. fold records. pose proof (records_sized messages tool_calls) as Hs. fold records in Hs.
  destruct records as [|r rs] eqn:E.
  - split_and!; [done..|]. exists (opening []). split_and!; [|done|done|].
    + by apply opening_books.
    + left. cbn. lia.
  - rewrite <-E in *. pose proof (spends_balance records Hs Hd) as H. unfold spends in H.
    destruct (balance records (opening records)) as [[[]|e] b]; [|done]. destruct H as (Hb & Hle & Hset).
    cbn [bs_result_count bs_original_chars bs_budgeted_chars bs_saved_chars].
    split_and!; [apply length_write_all|done| |by exists b].
    cbn in Hle. fold (sum_original records) in Hle. lia.
Qed.

End budget.
