(* ===== verification/ToolDemo.v ===== *)
(** * A long tool result

    A concrete batch at which the theorems on the budget of tool results apply. *)

From S2P Require Import Prelude PyVal Json JsonParse Models ToolResults ToolBudget.

Module ToolDemo.

Definition no_repr (cls : pystr) (id : N) : pystr := [].
Definition no_str (v : pyval) : pystr := [].
Definition no_optimizer (name : pystr) : option (pyval → ToolHistoryOptimizationContext → optimizer_answer) := None.
Definition demo_reason : pystr := u "tool_result_budget".

Definition small : ToolResultBudgetConfig := mkBudgetConfig 250 250 2 0.

Definition call : ToolCall := mkToolCall (u "c1") (u "read") VNone.
Definition long : pystr := replicate 300 97%N.
Definition message : pyval :=
  VDict [field "role" (VStr (u "tool")); field "tool_call_id" (VStr (u "c1")); field "content" (VStr long)].

Definition demo_record : ResultRecord := mkResult 0 role_tool_content (u "read") (u "c1") (VStr long) raw_string 300.

Lemma demo_records : _collect_result_records no_repr no_str [message] [call] = [demo_record].
Proof. vm_compute. reflexivity. Qed.

Lemma demo_printable z :
  (0 ≤ z ≤ 2)%Z → printable_sizes no_repr (VStr long) demo_reason (u "read") (u "c1") z.
Proof.
  intros Hz. assert (z = 0 ∨ z = 1 ∨ z = 2)%Z as [->|[->| ->]] by lia; unfold printable_sizes; vm_compute; reflexivity.
Qed.

Definition demo_result := budget_messages no_repr no_str no_optimizer small [] [] demo_reason [] [call] [message].

(** What is left of 300 characters. *)
Definition sizes (r : result stop (list pyval * ToolResultBudgetStats)) : option (nat * nat * nat) :=
  match r with
  | Ok (_, s) => Some (bs_compacted_count s, bs_original_chars s, bs_budgeted_chars s)
  | Err _ => None
  end.

Lemma demo_fits : sizes demo_result = Some (1, 300, 233).
Proof. vm_compute. reflexivity. Qed.

Lemma demo_describable r z :
  r ∈ _collect_result_records no_repr no_str [message] [call] → (0 ≤ z ≤ Z.max 0 (bc_preview_chars small))%Z →
  printable_sizes no_repr (rr_payload r) demo_reason (rr_tool_name r) (rr_call_id r) z.
Proof. rewrite demo_records. intros ->%list_elem_of_singleton Hz. by apply demo_printable. Qed.

Lemma compaction_states_its_size_witness :
  ∃ d, _compact_payload no_repr (VStr long) demo_reason (u "read") (u "c1") 2 = Ok (VDict d) ∧
       get d "budgeted_chars" = VInt (Z.of_nat (_payload_chars no_repr (VDict d) json_string)) ∧
       get d "original_chars" = VInt (Z.of_nat (_payload_chars no_repr (VStr long) json_string)).
Proof. apply (compaction_states_its_size no_repr (VStr long) demo_reason (u "read") (u "c1") 2), demo_printable. lia. Defined.

(** What the theorem says of the batch. *)
Definition within_budget (r : result stop (list pyval * ToolResultBudgetStats)) : Prop :=
  let records := _collect_result_records no_repr no_str [message] [call] in
  match r with
  | Err e => e = LeaseLost
  | Ok (messages', stats) =>
      length messages' = length [message] ∧ bs_result_count stats = length records ∧
      bs_original_chars stats = bs_budgeted_chars stats + bs_saved_chars stats ∧
      ∃ b, books no_repr records b ∧ messages' = write_all no_repr records (b_payloads b) [message] ∧
           bs_budgeted_chars stats = sum_list (b_chars b) ∧ settled_batch no_repr small demo_reason records b
  end.

Lemma tool_results_fit_budget_witness : sizes demo_result = Some (1, 300, 233) ∧ within_budget demo_result.
Proof.
  split; [exact demo_fits|].
  exact (tool_results_fit_budget no_repr no_str no_optimizer small [] [] demo_reason [] [call] [message] demo_describable).
Defined.

End ToolDemo.
