(* ===== verification/HumanInput.v ===== *)
(** * Questions to the user and their answers (src/unchain/input/human_input.py)

    A selector question that a model asks through a reserved tool, and the answer
    of the user.  Both are read from untrusted data; what is accepted is a normal
    form, so that reading it again gives the same record. *)

From S2P Require Import Prelude PyVal Json JsonParse.
Local Open Scope Z_scope.

(** A [ValueError]; a [TypeError] for several unknown keys that cannot be
    sorted. *)
Inductive human_error : Type := HumanInputError.

Abbreviation HI := (result human_error).

Definition HUMAN_INPUT_KIND_SELECTOR : pystr := u "selector".
Definition HUMAN_INPUT_OTHER_VALUE : pystr := u "__other__".

(** [d.get(k, default)] *)
Definition get_or (d : pydict) (k : string) (v : pyval) : pyval := default v (dict_get d (KStr (u k))).

(** [set(d) - names] is empty. *)
Definition known_keys (names : list string) (d : pydict) : bool :=
  forallb (λ k, bool_decide (k ∈ (λ s, KStr (u s)) <$> names)) (keys d).

Definition _clean_required_text (value : pyval) : HI pystr :=
  match value with
  | VStr s => if nonempty (strip s) then Ok (strip s) else Err HumanInputError
  | _ => Err HumanInputError
  end.

Definition _clean_optional_text (value : pyval) : HI pystr :=
  match value with
  | VNone => Ok []
  | VStr s => Ok s
  | _ => Err HumanInputError
  end.

Definition _clean_optional_int (value : pyval) : HI (option Z) :=
  match value with
  | VNone => Ok None
  | VInt z => Ok (Some z)
  | _ => Err HumanInputError
  end.

(** [s or t] *)
Definition or_text (s t : pystr) : pystr := if nonempty s then s else t.

(** ** Repairing the arguments of a tool call *)

(** [_escape_control_chars_inside_json_strings] from a position inside or outside
    of a string, after a backslash or not. *)
Fixpoint escape_controls (in_string escaped : bool) (raw : pystr) : pystr :=
  match raw with
  | [] => []
  | ch :: raw =>
      if in_string then
        if escaped then ch :: escape_controls true false raw
        else if (ch =? 92)%N then ch :: escape_controls true true raw
        else if (ch =? 34)%N then ch :: escape_controls false escaped raw
        else if (ch =? 10)%N then u "\n" ++ escape_controls true escaped raw
        else if (ch =? 13)%N then u "\r" ++ escape_controls true escaped raw
        else if (ch =? 9)%N then u "\t" ++ escape_controls true escaped raw
        else ch :: escape_controls true escaped raw
      else if (ch =? 34)%N then ch :: escape_controls true false raw
      else ch :: escape_controls false escaped raw
  end.

Definition _escape_control_chars_inside_json_strings (raw : pystr) : pystr :=
  escape_controls false false raw.

Definition _parse_tool_arguments (arguments : pyval) : HI pyval :=
  match arguments with
  | VNone => Ok (VDict [])
  | VDict d => Ok (VDict d)
  | VStr s =>
      let raw := strip s in
      if negb (nonempty raw) then Ok (VDict [])
      else match loads raw with
           | Some v => Ok v
           | None =>
               match loads (_escape_control_chars_inside_json_strings raw) with
               | Some v => Ok v
               | None => Err HumanInputError
               end
           end
  | _ => Err HumanInputError
  end.

(** ** Options *)

Record HumanInputOption : Type := mkOption {
  opt_label : pystr;
  opt_value : pystr;
  opt_description : pystr;
}.

Definition option_from_raw (raw : pyval) : HI HumanInputOption :=
  match raw with
  | VDict d =>
      _ ← ensure (known_keys ["label"; "value"; "description"] d) HumanInputError;
      label ← _clean_required_text (get d "label");
      value ← _clean_required_text (get d "value");
      description ← _clean_optional_text (get_or d "description" (VStr []));
      _ ← ensure (negb (bool_decide (value = HUMAN_INPUT_OTHER_VALUE))) HumanInputError;
      Ok (mkOption label value description)
  | _ => Err HumanInputError
  end.

Definition option_to_dict (o : HumanInputOption) : pyval :=
  VDict [(KStr (u "label"), VStr (opt_label o)); (KStr (u "value"), VStr (opt_value o));
         (KStr (u "description"), VStr (opt_description o))].

(** [[f(item) for item in items]] *)
Fixpoint mapH {A B} (f : A → HI B) (l : list A) : HI (list B) :=
  match l with
  | [] => Ok []
  | x :: l => y ← f x; ys ← mapH f l; Ok (y :: ys)
  end.

(** ** Requests *)

Record HumanInputRequest : Type := mkHumanRequest {
  hr_request_id : pystr;
  hr_title : pystr;
  hr_question : pystr;
  hr_selection_mode : pystr;
  hr_options : list HumanInputOption;
  hr_allow_other : bool;
  hr_other_label : pystr;
  hr_other_placeholder : pystr;
  hr_min_selected : Z;
  hr_max_selected : Z;
}.

Definition argument_keys : list string :=
  ["title"; "question"; "selection_mode"; "options"; "allow_other"; "other_label";
   "other_placeholder"; "min_selected"; "max_selected"]%string.

Definition single : pystr := u "single".

(** The two bounds after the defaults of the selection mode. *)
Definition selection_bounds (mode : pystr) (allowed_total : Z) (min_selected max_selected : option Z)
    : HI (Z * Z) :=
  if bool_decide (mode = single) then
    let lo := default 1 min_selected in
    let hi := default 1 max_selected in
    _ ← ensure ((lo =? 0) || (lo =? 1)) HumanInputError;
    _ ← ensure (hi =? 1) HumanInputError;
    Ok (lo, hi)
  else Ok (default 1 min_selected, default allowed_total max_selected).

Definition request_from_tool_arguments (arguments : pyval) (request_id : pystr) : HI HumanInputRequest :=
  raw ← _parse_tool_arguments arguments;
  match raw with
  | VDict raw =>
      _ ← ensure (known_keys argument_keys raw) HumanInputError;
      title ← _clean_required_text (get raw "title");
      question ← _clean_required_text (get raw "question");
      mode ← match get raw "selection_mode" with
             | VStr m => if bool_decide (m ∈ [single; u "multiple"]) then Ok m else Err HumanInputError
             | _ => Err HumanInputError
             end;
      allow_other ← match get_or raw "allow_other" (VBool false) with
                    | VBool b => Ok b
                    | _ => Err HumanInputError
                    end;
      raw_options ← match get raw "options" with VList l => Ok l | _ => Err HumanInputError end;
      _ ← ensure (match raw_options with [] => allow_other | _ => true end) HumanInputError;
      options ← mapH option_from_raw raw_options;
      _ ← ensure (bool_decide (NoDup (opt_value <$> options))) HumanInputError;
      other_label ← _clean_optional_text (get_or raw "other_label" (VStr (u "Other")));
      other_placeholder ← _clean_optional_text (get_or raw "other_placeholder" (VStr []));
      min_selected ← _clean_optional_int (get raw "min_selected");
      max_selected ← _clean_optional_int (get raw "max_selected");
      let allowed_total := Z.of_nat (length options) + (if (allow_other : bool) then 1 else 0) in
      '(lo, hi) ← selection_bounds mode allowed_total min_selected max_selected;
      _ ← ensure ((0 <=? lo) && (1 <=? hi) && (lo <=? hi) && (hi <=? allowed_total)) HumanInputError;
      Ok (mkHumanRequest request_id title question mode options allow_other
            (or_text other_label (u "Other")) other_placeholder lo hi)
  | _ => Err HumanInputError
  end.

(** [HumanInputRequest.from_dict] of data. *)
Definition human_request_from_dict (raw : pyval) : HI HumanInputRequest :=
  match raw with
  | VDict raw =>
      request_id ← _clean_required_text (get raw "request_id");
      _ ← ensure (py_eq (get raw "kind") (VStr HUMAN_INPUT_KIND_SELECTOR)) HumanInputError;
      request_from_tool_arguments (VDict
        [(KStr (u "title"), get raw "title"); (KStr (u "question"), get raw "question");
         (KStr (u "selection_mode"), get raw "selection_mode"); (KStr (u "options"), get raw "options");
         (KStr (u "allow_other"), get_or raw "allow_other" (VBool false));
         (KStr (u "other_label"), get_or raw "other_label" (VStr (u "Other")));
         (KStr (u "other_placeholder"), get_or raw "other_placeholder" (VStr []));
         (KStr (u "min_selected"), get raw "min_selected");
         (KStr (u "max_selected"), get raw "max_selected")]) request_id
  | _ => Err HumanInputError
  end.

Definition human_request_to_dict (r : HumanInputRequest) : pyval :=
  VDict [(KStr (u "request_id"), VStr (hr_request_id r)); (KStr (u "kind"), VStr HUMAN_INPUT_KIND_SELECTOR);
         (KStr (u "title"), VStr (hr_title r)); (KStr (u "question"), VStr (hr_question r));
         (KStr (u "selection_mode"), VStr (hr_selection_mode r));
         (KStr (u "options"), VList (option_to_dict <$> hr_options r));
         (KStr (u "allow_other"), VBool (hr_allow_other r));
         (KStr (u "other_label"), VStr (hr_other_label r));
         (KStr (u "other_placeholder"), VStr (hr_other_placeholder r));
         (KStr (u "min_selected"), VInt (hr_min_selected r));
         (KStr (u "max_selected"), VInt (hr_max_selected r))].

Definition allowed_values (r : HumanInputRequest) : list pystr :=
  (opt_value <$> hr_options r) ++ (if hr_allow_other r then [HUMAN_INPUT_OTHER_VALUE] else []).

(** ** Responses *)

Record HumanInputResponse : Type := mkHumanResponse {
  hs_request_id : pystr;
  hs_selected_values : list pystr;
  hs_other_text : option pystr;
}.

(** The loop over [selected_values]. *)
Fixpoint normalize_values (seen : list pystr) (values : list pyval) : HI (list pystr) :=
  match values with
  | [] => Ok []
  | v :: values =>
      normalized ← _clean_required_text v;
      _ ← ensure (negb (bool_decide (normalized ∈ seen))) HumanInputError;
      rest ← normalize_values (normalized :: seen) values;
      Ok (normalized :: rest)
  end.

Definition response_to_dict (r : HumanInputResponse) : pyval :=
  VDict [(KStr (u "request_id"), VStr (hs_request_id r));
         (KStr (u "selected_values"), VList (VStr <$> hs_selected_values r));
         (KStr (u "other_text"), match hs_other_text r with Some s => VStr s | None => VNone end)].

(** [HumanInputResponse.from_raw] of data; [request.max_selected or 0] is zero
    only for a record that was not read from data. *)
Definition response_from_raw (raw : pyval) (request : HumanInputRequest) : HI HumanInputResponse :=
  match raw with
  | VDict raw =>
      request_id ← _clean_required_text (get raw "request_id");
      _ ← ensure (bool_decide (request_id = hr_request_id request)) HumanInputError;
      selected_values ← match get raw "selected_values" with VList l => Ok l | _ => Err HumanInputError end;
      values ← normalize_values [] selected_values;
      let count := Z.of_nat (length values) in
      _ ← ensure (hr_min_selected request <=? count) HumanInputError;
      _ ← ensure ((hr_max_selected request =? 0) || (count <=? hr_max_selected request)) HumanInputError;
      _ ← ensure (forallb (λ v, bool_decide (v ∈ allowed_values request)) values) HumanInputError;
      other_text ← match get raw "other_text" with
                   | VNone => Ok None
                   | VStr s => Ok (if nonempty (strip s) then Some (strip s) else None)
                   | _ => Err HumanInputError
                   end;
      _ ← (if bool_decide (HUMAN_INPUT_OTHER_VALUE ∈ values) then
             _ ← ensure (hr_allow_other request) HumanInputError;
             ensure (bool_decide (other_text ≠ None)) HumanInputError
           else ensure (bool_decide (other_text = None)) HumanInputError);
      Ok (mkHumanResponse request_id values other_text)
  | _ => Err HumanInputError
  end.

(** ** What was accepted is accepted again *)

Lemma required_text_again v s : _clean_required_text v = Ok s → _clean_required_text (VStr s) = Ok s.
Proof.
  unfold _clean_required_text. destruct v; try done. case_match eqn:E; [|done]. intros [= <-].
  by rewrite strip_idemp, E.
Qed.

Lemma mapH_again {A} (f : pyval → HI A) (g : A → pyval) raw l :
  (∀ v a, f v = Ok a → f (g a) = Ok a) → mapH f raw = Ok l → mapH f (g <$> l) = Ok l.
Proof.
  intros Hf. revert l. induction raw as [|v raw IH]; intros l; simpl; [by intros [= <-]|].
  intros (a & Ha & (l' & Hl & [= <-])%result_bind_ok)%result_bind_ok.
  rewrite fmap_cons. cbn [mapH]. rewrite (Hf _ _ Ha). cbn [mbind result_bind].
  by rewrite (IH l' Hl).
Qed.

Lemma option_again raw o : option_from_raw raw = Ok o → option_from_raw (option_to_dict o) = Ok o.
Proof.
  unfold option_from_raw. destruct raw as [| | | | | |d|]; try done.
  intros ([] & _ & (l & Hl & (v & Hv & (ds & Hd & ([] & Hn & [= <-])%result_bind_ok)%result_bind_ok)%result_bind_ok)
    %result_bind_ok)%result_bind_ok.
  unfold option_to_dict. cbn [opt_label opt_value opt_description].
  change (get _ "label") with (VStr l). change (get _ "value") with (VStr v). change (get_or _ "description" _) with (VStr ds).
  change (known_keys _ _) with true. cbn [mbind result_bind ensure].
  rewrite (required_text_again _ _ Hl). cbn [mbind result_bind]. rewrite (required_text_again _ _ Hv). cbn [mbind result_bind].
  cbn [_clean_optional_text mbind result_bind]. by rewrite Hn.
Qed.

(** A response that was accepted is accepted again, unchanged. *)
Lemma values_again seen raw values :
  normalize_values seen raw = Ok values → normalize_values seen (VStr <$> values) = Ok values.
Proof.
  revert seen values. induction raw as [|v raw IH]; intros seen values; simpl; [by intros [= <-]|].
  intros (s & Hs & ([] & Hn & (rest & Hr & [= <-])%result_bind_ok)%result_bind_ok)%result_bind_ok.
  rewrite fmap_cons. cbn [normalize_values]. rewrite (required_text_again _ _ Hs). cbn [mbind result_bind]. rewrite Hn. cbn [mbind result_bind].
  by rewrite (IH _ _ Hr).
Qed.

Lemma response_again raw request r :
  response_from_raw raw request = Ok r → response_from_raw (response_to_dict r) request = Ok r.
Proof.
  unfold response_from_raw. destruct raw as [| | | | | |d|]; try done.
  intros (id & Hid & ([] & Hreq & (sel & _ & (values & Hvalues & H)%result_bind_ok)%result_bind_ok)%result_bind_ok)
    %result_bind_ok.
  apply result_bind_ok in H as ([] & H1 & ([] & H2 & ([] & H3 & (other & Ho & ([] & H4 & [= <-])%result_bind_ok)
    %result_bind_ok)%result_bind_ok)%result_bind_ok).
  unfold response_to_dict. cbn [hs_request_id hs_selected_values hs_other_text].
  change (get _ "request_id") with (VStr id). change (get _ "selected_values") with (VList (VStr <$> values)).
  rewrite (required_text_again _ _ Hid). cbn [mbind result_bind]. rewrite Hreq. cbn [mbind result_bind].
  rewrite (values_again _ _ _ Hvalues). cbn [mbind result_bind]. rewrite H1. cbn [mbind result_bind]. rewrite H2.
  cbn [mbind result_bind]. rewrite H3. cbn [mbind result_bind].
  change (get _ "other_text") with (match other with Some s => VStr s | None => VNone end).
  assert (match match other with Some s => VStr s | None => VNone end with
          | VNone => Ok None
          | VStr s => Ok (if nonempty (strip s) then Some (strip s) else None)
          | _ => Err HumanInputError
          end = Ok other) as ->.
  { destruct other as [s|]; [|done]. destruct (get d "other_text") as [| | | |t| | |]; try done.
    destruct (nonempty (strip t)) eqn:E; [|done]. injection Ho as <-. by rewrite strip_idemp, E. }
  cbn [mbind result_bind]. by rewrite H4.
Qed.

(** The bounds that were resolved resolve to themselves. *)
Lemma bounds_again mode total lo0 hi0 lo hi :
  selection_bounds mode total lo0 hi0 = Ok (lo, hi) → selection_bounds mode total (Some lo) (Some hi) = Ok (lo, hi).
Proof.
  unfold selection_bounds. case_bool_decide; [|by intros [= <- <-]].
  intros ([] & H1 & ([] & H2 & [= <- <-])%result_bind_ok)%result_bind_ok.
  set (lo := default 1 lo0) in *. set (hi := default 1 hi0) in *.
  change (default 1 (Some lo)) with lo. change (default 1 (Some hi)) with hi. rewrite H1. cbn [mbind result_bind].
  by rewrite H2.
Qed.

(** A question that was accepted is read back from its own dictionary. *)
Lemma human_request_again args id r :
  _clean_required_text (VStr id) = Ok id → request_from_tool_arguments args id = Ok r →
  human_request_from_dict (human_request_to_dict r) = Ok r.
Proof.
  intros Hid. unfold request_from_tool_arguments at 1. intros (raw & _ & H)%result_bind_ok. destruct raw as [| | | | | |raw|]; try done.
  apply result_bind_ok in H as ([] & _ & (title & Ht & (question & Hq & (mode & Hm & (allow & Ha & (opts & Hop & ([] & Hne & H)
    %result_bind_ok)%result_bind_ok)%result_bind_ok)%result_bind_ok)%result_bind_ok)%result_bind_ok).
  apply result_bind_ok in H as (options & Hopts & ([] & Hnd & (lbl & _ & (ph & _ & (mn & _ & (mx & _ & ([lo hi] & Hb & ([] & Hc & [= <-])
    %result_bind_ok)%result_bind_ok)%result_bind_ok)%result_bind_ok)%result_bind_ok)%result_bind_ok)%result_bind_ok).
  unfold human_request_from_dict, human_request_to_dict.
  cbn [hr_request_id hr_title hr_question hr_selection_mode hr_options hr_allow_other hr_other_label hr_other_placeholder
       hr_min_selected hr_max_selected].
  set (label := or_text lbl (u "Other")).
  change (get _ "request_id") with (VStr id). rewrite Hid. cbn [mbind result_bind].
  change (py_eq _ _) with true. cbn [mbind result_bind ensure].
  unfold request_from_tool_arguments. cbn [_parse_tool_arguments mbind result_bind].
  match goal with |- context [known_keys argument_keys ?d] => set (D := d) end.
  assert (known_keys argument_keys D = true) as -> by reflexivity. cbn [mbind result_bind ensure].
  change (get D "title") with (VStr title). rewrite (required_text_again _ _ Ht). cbn [mbind result_bind].
  change (get D "question") with (VStr question). rewrite (required_text_again _ _ Hq). cbn [mbind result_bind].
  change (get D "selection_mode") with (VStr mode). cbv match.
  assert ((if bool_decide (mode ∈ [single; u "multiple"]) then Ok mode else Err HumanInputError) = Ok mode) as ->.
  { destruct (get raw "selection_mode") as [| | | |m| | |]; try done.
    destruct (bool_decide (m ∈ _)) eqn:E; [|done]. injection Hm as <-. by rewrite E. }
  cbn [mbind result_bind]. change (get_or D "allow_other" _) with (VBool allow). cbv match. cbn [mbind result_bind].
  change (get D "options") with (VList (option_to_dict <$> options)). cbv match. cbn [mbind result_bind].
  assert (ensure match option_to_dict <$> options with [] => allow | _ => true end HumanInputError = Ok tt) as ->.
  { destruct options; [|done]. destruct opts; [exact Hne|].
    simpl in Hopts. apply result_bind_ok in Hopts as (? & _ & (? & _ & ?)%result_bind_ok). done. }
  cbn [mbind result_bind]. rewrite (mapH_again _ _ _ _ option_again Hopts). cbn [mbind result_bind]. rewrite Hnd. cbn [mbind result_bind].
  change (get_or D "other_label" _) with (VStr label). change (get_or D "other_placeholder" _) with (VStr ph).
  change (get D "min_selected") with (VInt lo). change (get D "max_selected") with (VInt hi).
  cbn [_clean_optional_text _clean_optional_int mbind result_bind]. rewrite (bounds_again _ _ _ _ _ _ Hb). cbn [mbind result_bind].
  rewrite Hc. cbn [mbind result_bind]. do 2 f_equal.
  unfold label, or_text. destruct (nonempty lbl) eqn:E; [by rewrite E|done].
Qed.
