(* ===== verification/Checkpoint.v ===== *)
(** * Execution checkpoints (src/unchain/memory/checkpoint_state.py)

    A checkpoint is the serialised state of a run that waits or has spent its
    budget, stored in the session document beside the interaction journal.  It
    carries the digest of its own payload and the reference of the interaction it
    waits for; replacing or clearing it closes that interaction in the same
    document. *)

From S2P Require Import Prelude PyVal Json JsonParse Execution Interaction ToolResults.
Local Open Scope Z_scope.

(** The subclasses of [ExecutionCheckpointError], by their code. *)
Inductive checkpoint_error : Type :=
| ExecutionCheckpointError
| ExecutionCheckpointIntegrityError
| ExecutionCheckpointCompatibilityError
| ExecutionCheckpointResumeRequiredError
| ExecutionCheckpointReplayUnavailableError
| ExecutionCheckpointPersistenceError.

Definition checkpoint_error_code (e : checkpoint_error) : pystr :=
  match e with
  | ExecutionCheckpointError => u "execution_checkpoint_error"
  | ExecutionCheckpointIntegrityError => u "execution_checkpoint_integrity_error"
  | ExecutionCheckpointCompatibilityError => u "execution_checkpoint_compatibility_error"
  | ExecutionCheckpointResumeRequiredError => u "execution_checkpoint_resume_required"
  | ExecutionCheckpointReplayUnavailableError => u "execution_checkpoint_replay_unavailable"
  | ExecutionCheckpointPersistenceError => u "execution_checkpoint_persistence_error"
  end.

(** What the checkpoint code raises: an error of its own, one of the interaction
    journal, one of the store (or a [TypeError] of the code itself), or what the JSON
    encoder or a conversion raises ([ValueError], [TypeError]); [RAttributeError] is a
    method called on a value of the wrong class, [RKeyError] a key that is not there. *)
Inductive rterror : Type :=
| RCheckpoint (e : checkpoint_error)
| RInteraction (e : ierror)
| RStore (e : exn)
| RHistoryOwnership
| RValueError
| RAttributeError
| RKeyError.

#[export] Instance checkpoint_error_eq_dec : EqDecision checkpoint_error.
Proof. solve_decision. Defined.
#[export] Instance rterror_eq_dec : EqDecision rterror.
Proof. solve_decision. Defined.

Abbreviation RT := (result rterror).

Definition integrity : rterror := RCheckpoint ExecutionCheckpointIntegrityError.
Definition incompatible : rterror := RCheckpoint ExecutionCheckpointCompatibilityError.
Definition resume_required : rterror := RCheckpoint ExecutionCheckpointResumeRequiredError.
Definition persistence : rterror := RCheckpoint ExecutionCheckpointPersistenceError.

Definition INTERACTION_JOURNAL_KEY : pykey := KStr (u "interaction_journal").
Definition EXECUTION_CHECKPOINT_KEY : pykey := KStr (u "execution_checkpoint").
Definition EXECUTION_CHECKPOINT_DOMAIN_KEY : pykey := KStr (u "execution_checkpoint_domain").
Definition _CHECKPOINT_STATUSES : list pystr :=
  [u "max_iterations"; u "awaiting_human_input"; u "awaiting_interaction"].

(** [d.get(k)] *)
Definition lookup (d : pydict) (k : pykey) : pyval := default VNone (dict_get d k).

(** [except InteractionError as exc: raise error from exc] *)
Definition on_interaction_error {A} (error : rterror) (r : R A) : RT A :=
  match r with
  | Ok a => Ok a
  | Err UnhashableTypeError => Err (RInteraction UnhashableTypeError)
  | Err _ => Err error
  end.

(** An interaction error that is not caught. *)
Definition raises {A} (r : R A) : RT A :=
  match r with Ok a => Ok a | Err e => Err (RInteraction e) end.

Lemma raises_ok {A} (r : R A) a : raises r = Ok a → r = Ok a.
Proof. destruct r; [by intros [= ->]|done]. Qed.

(** [isinstance(v, int)] and not a [bool], at least zero. *)
Definition natural_int (v : pyval) : bool :=
  match exact_int v with Some z => 0 <=? z | None => false end.

(** [isinstance(v, str) and v] *)
Definition text_present (v : pyval) : bool := match v with VStr s => nonempty s | _ => false end.

(** [set(d) == names] *)
Definition exact_keys (names : list string) (d : pydict) : bool :=
  let names := (λ s, KStr (u s)) <$> names in
  forallb (λ k, bool_decide (k ∈ names)) (keys d) && forallb (λ k, bool_decide (k ∈ keys d)) names.

(** [v in names] for a set of strings: a list or a dict has no hash. *)
Definition in_texts (v : pyval) (names : list pystr) : RT bool :=
  match v with
  | VStr s => Ok (bool_decide (s ∈ names))
  | VList _ | VDict _ => Err (RInteraction UnhashableTypeError)
  | _ => Ok false
  end.

Definition _token_keys : list string :=
  ["consumed_tokens"; "input_tokens"; "output_tokens"; "cache_read_input_tokens";
   "cache_creation_input_tokens"; "last_turn_tokens"; "last_turn_input_tokens";
   "last_turn_output_tokens"; "last_turn_cache_read_input_tokens";
   "last_turn_cache_creation_input_tokens"]%string.

Section checkpoints.
(** [str] of an object, and what the JSON encoder makes of a key that is not a
    string. *)
Variable py_str : pyval → pystr.
Variable other_key : pykey → option pystr.

Definition _json_safe (value : pyval) : RT pyval :=
  match dumps_default py_str other_key value ≫= loads with
  | Some v => Ok v
  | None => Err RValueError
  end.

Definition _canonical_json (value : pyval) : RT pystr :=
  v ← _json_safe value;
  match dumps_stable v with Some s => Ok s | None => Err RValueError end.

Definition stable_payload_digest (value : pyval) : RT pystr :=
  text ← _canonical_json value;
  match utf8 text with Some bytes => Ok (sha256_hex bytes) | None => Err RValueError end.

Definition transcript_digest (messages : list pyval) : RT pystr := stable_payload_digest (VList messages).

(** [str(v or "")] *)
Definition str_or_empty (v : pyval) : pystr := text_or_empty py_str v.

(** The checks of [validate_execution_checkpoint] on the shape of the document. *)
Definition check_pending_context (v : pyval) : bool :=
  match v with VNone => true | VList l => forallb is_dict l | _ => false end.

Definition check_replay_frame (v : pyval) : bool :=
  match v with
  | VDict frame => (match get frame "complete" with VBool _ => true | _ => false end) && is_list (get frame "items")
  | _ => false
  end.

Definition check_interaction_ref (v : pyval) : bool :=
  match v with
  | VNone => true
  | VDict ref =>
      exact_keys ["interaction_id"; "request_digest"] ref &&
      text_present (get ref "interaction_id") && text_present (get ref "request_digest")
  | _ => false
  end.

Definition check_base_revision (v : pyval) : bool := match v with VNone => true | _ => natural_int v end.

Definition shape_checks (c : pydict) : bool :=
  forallb (λ k, text_present (get c k)) ["session_id"; "provider"; "checkpoint_id"]%string &&
  is_list (get c "transcript") &&
  natural_int (get c "iteration") &&
  natural_int (get_or c "max_context_window_tokens" (VInt 0)) &&
  (match get c "token_state" with
   | VDict tokens => forallb (λ k, natural_int (get tokens k)) _token_keys
   | _ => false
   end) &&
  is_dict (get c "workspace_change_state") &&
  check_pending_context (get c "pending_model_context") &&
  check_replay_frame (get c "replay_frame") &&
  (if py_eq (get c "status") (VStr (u "awaiting_human_input"))
   then is_dict (get c "continuation") && is_dict (get c "human_input_request") else true) &&
  check_interaction_ref (get c "interaction_ref") &&
  (if py_eq (get c "status") (VStr (u "awaiting_interaction"))
   then negb (is_none (get c "interaction_ref")) && is_dict (get c "continuation") else true) &&
  check_base_revision (get c "base_session_revision").

(** The document without its identity and its digest. *)
Definition checkpoint_payload (c : pydict) : pydict :=
  dict_del (dict_del c (KStr (u "checkpoint_id"))) (KStr (u "integrity")).

Definition checkpoint_id_of (digest : pystr) : pystr := u "checkpoint_" ++ take 32 digest.

Definition validate_execution_checkpoint (raw : pyval) : RT pydict :=
  match raw with
  | VDict _ =>
      copied ← _json_safe raw;
      match copied with
      | VDict c =>
          _ ← ensure (py_eq (get c "schema_version") (VInt 1)) integrity;
          known ← in_texts (get c "status") _CHECKPOINT_STATUSES;
          _ ← ensure known integrity;
          _ ← ensure (shape_checks c) integrity;
          match get c "integrity" with
          | VDict i =>
              _ ← ensure (py_eq (get i "algorithm") (VStr (u "sha256"))) integrity;
              actual ← stable_payload_digest (VDict (checkpoint_payload c));
              _ ← ensure (py_eq (get i "payload_sha256") (VStr actual)) integrity;
              _ ← ensure (py_eq (get c "checkpoint_id") (VStr (checkpoint_id_of actual))) integrity;
              Ok c
          | _ => Err integrity
          end
      | _ => Err RAttributeError
      end
  | _ => Err integrity
  end.

Definition _validate_checkpoint_request_binding (checkpoint : pydict) (request : InteractionRequest)
    : RT unit :=
  match get checkpoint "interaction_ref" with
  | VDict ref =>
      _ ← ensure (py_eq (get ref "interaction_id") (VStr (interaction_id request)) &&
                  py_eq (get ref "request_digest") (VStr (request_digest request))) incompatible;
      _ ← ensure (py_eq (get checkpoint "session_id") (VStr (session_id request))) incompatible;
      _ ← ensure (py_eq (get checkpoint "source_run_id") (VStr (source_run_id request))) incompatible;
      ensure (match get checkpoint "base_session_revision" with
              | VNone => true
              | base => py_eq (VInt (created_revision request)) base
              end) incompatible
  | _ => Err incompatible
  end.

(** The active interaction of the journal is answered and belongs to the current
    checkpoint: it is applied to the checkpoint that replaces it. *)
Definition close_active (session_state checkpoint : pydict) (j : journal) (active : pystr) : RT journal :=
  current ← match lookup session_state EXECUTION_CHECKPOINT_KEY with
            | VDict raw => c ← validate_execution_checkpoint (VDict raw); Ok (Some c)
            | _ => Ok None
            end;
  match find_entry (entries j) active, current with
  | Some e, Some c =>
      match get c "interaction_ref" with
      | VDict ref =>
          _ ← ensure (py_eq (get ref "interaction_id") (VStr active) &&
                      py_eq (get c "checkpoint_id") (VStr (e_checkpoint_id e))) incompatible;
          match e_receipt e with
          | Some receipt =>
              on_interaction_error integrity
                (mark_interaction_applied (VDict (journal_dict j)) (VStr active)
                   (VStr (receipt_id receipt)) (VStr (str_or_empty (get checkpoint "checkpoint_id"))))
          | None => Err resume_required
          end
      | _ => Err incompatible
      end
  | _, _ => Err incompatible
  end.

(** The session document after the assignment that ends the function. *)
Definition register_checkpoint_interaction_request (session_state checkpoint : pydict)
    (interaction_request : bound InteractionRequest) : RT pydict :=
  request ← on_interaction_error integrity (request_from_dict interaction_request);
  _ ← _validate_checkpoint_request_binding checkpoint request;
  j ← on_interaction_error integrity
        (validate_interaction_journal (lookup session_state INTERACTION_JOURNAL_KEY));
  j ← match active_id j with
      | Some active =>
          if bool_decide (active = interaction_id request) then Ok j
          else close_active session_state checkpoint j active
      | None => Ok j
      end;
  _ ← ensure (match find_entry (entries j) (interaction_id request) with
              | Some existing => bool_decide (e_application existing = None)
              | None => true
              end) incompatible;
  j ← on_interaction_error incompatible
        (register_interaction_request (VDict (journal_dict j)) (BObject request)
           (VStr (str_or_empty (get checkpoint "checkpoint_id"))));
  Ok (dict_set session_state INTERACTION_JOURNAL_KEY (VDict (journal_dict j))).

(** Whether a receipt was applied, and the session document. *)
Definition apply_checkpoint_interaction_receipt (session_state checkpoint : pydict)
    (applied_checkpoint_id : pystr) : RT (bool * pydict) :=
  match get checkpoint "interaction_ref" with
  | VNone => Ok (false, session_state)
  | VDict ref =>
      j ← on_interaction_error integrity
            (validate_interaction_journal (lookup session_state INTERACTION_JOURNAL_KEY));
      let iid := str_or_empty (get ref "interaction_id") in
      match find_entry (entries j) iid with
      | None => Err integrity
      | Some e =>
          _ ← ensure (py_eq (get ref "request_digest") (VStr (request_digest (e_request e))) &&
                      py_eq (get checkpoint "session_id") (VStr (session_id (e_request e))) &&
                      py_eq (get checkpoint "checkpoint_id") (VStr (e_checkpoint_id e))) integrity;
          match e_receipt e with
          | None => Err resume_required
          | Some receipt =>
              j ← on_interaction_error integrity
                    (mark_interaction_applied (VDict (journal_dict j)) (VStr iid)
                       (VStr (receipt_id receipt)) (VStr applied_checkpoint_id));
              Ok (true, dict_set session_state INTERACTION_JOURNAL_KEY (VDict (journal_dict j)))
          end
      end
  | _ => Err RAttributeError
  end.

Definition ensure_checkpoint_compatible (checkpoint : pydict) (session_id : pystr) (provider model : pyval)
    : RT unit :=
  let matches key actual :=
    let expected := str_or_empty (get checkpoint key) in
    let actual := str_or_empty actual in
    negb (nonempty expected && nonempty actual && negb (bool_decide (expected = actual))) in
  _ ← ensure (py_eq (get checkpoint "session_id") (VStr session_id)) incompatible;
  _ ← ensure (matches "provider"%string provider) incompatible;
  ensure (matches "model"%string model) incompatible.

Definition ensure_checkpoint_replayable (checkpoint : pydict) : RT unit :=
  ensure (match get checkpoint "replay_frame" with
          | VDict frame => match get frame "complete" with VBool b => b | _ => false end
          | _ => false
          end) (RCheckpoint ExecutionCheckpointReplayUnavailableError).
End checkpoints.

(** ** Building a checkpoint *)

Record TokenState : Type := mkTokens {
  consumed_tokens : Z;
  input_tokens : Z;
  output_tokens : Z;
  cache_read_input_tokens : Z;
  cache_creation_input_tokens : Z;
  last_turn_tokens : Z;
  last_turn_input_tokens : Z;
  last_turn_output_tokens : Z;
  last_turn_cache_read_input_tokens : Z;
  last_turn_cache_creation_input_tokens : Z;
}.

Record ProviderState : Type := mkProvider {
  ps_provider : option pystr;
  ps_model : option pystr;
  ps_previous_response_id : option pystr;
  ps_use_previous_response_chain : bool;
  ps_max_context_window_tokens : Z;
}.

(** The part of a [RunState] that a checkpoint keeps.  [rs_interaction_request] is
    [suspend_state.payload["interaction_request"]] when there is one,
    [rs_reasoning_items] the reasoning items of the last model turn when there is
    one, and [rs_human_input_request] the dictionary of the pending question. *)
Record run_state : Type := mkRunState {
  rs_transcript : list pyval;
  rs_iteration : Z;
  rs_provider : ProviderState;
  rs_tokens : TokenState;
  rs_session_id : option pystr;
  rs_interaction_request : option (bound InteractionRequest);
  rs_reasoning_items : option (list pyval);
  rs_human_input_request : option pyval;
  rs_last_continuation : option pydict;
  rs_next_model_input : option (list pydict);
  rs_memory_state : pydict;
  rs_workspace_change_state : pydict;
  rs_component_state : pydict;
}.

(** [str(s or "")] *)
Definition text_or (s : option pystr) : pystr := default [] s.

(** [s or t] *)
Definition or_else (s t : pystr) : pystr := if nonempty s then s else t.

Definition _provider_replay_format (provider : pystr) : pystr :=
  if bool_decide (provider = u "openai") then u "openai.responses.v1"
  else if bool_decide (provider ∈ [u "anthropic"; u "hyperspace"]) then u "anthropic.messages.v1"
  else if bool_decide (provider = u "gemini") then u "gemini.contents.v1"
  else if bool_decide (provider = u "ollama") then u "ollama.chat.v1"
  else or_else provider (u "unknown") ++ u ".messages.v1".

Definition _fallback_replay_frame (state : run_state) : pydict :=
  let provider := text_or (ps_provider (rs_provider state)) in
  let complete := match default [] (rs_reasoning_items state) with [] => true | _ => false end in
  [field "format" (VStr (_provider_replay_format provider)); field "complete" (VBool complete);
   field "items" (VList (rs_transcript state)); field "source" (VStr (u "kernel_transcript"))] ++
  (if (complete : bool) then []
   else [field "incomplete_reason" (VStr (or_else provider (u "provider") ++
           u " reasoning output was not captured as an ordered, provider-ready replay frame"))]).

(** [d.setdefault(k, v)] *)
Definition setdefault (d : pydict) (k : string) (v : pyval) : pydict :=
  match dict_get d (KStr (u k)) with Some _ => d | None => dict_set d (KStr (u k)) v end.

(** The frame a provider left for its replay. *)
Definition recorded_frame (state : run_state) : option pydict :=
  match get (rs_component_state state) "provider_replay" with
  | VDict bucket => match get bucket "frame" with VDict frame => Some frame | _ => None end
  | _ => None
  end.

Definition replay_frame (state : run_state) : pydict :=
  match recorded_frame state with
  | Some frame =>
      setdefault (setdefault (setdefault frame "format"
        (VStr (_provider_replay_format (text_or (ps_provider (rs_provider state))))))
        "complete" (VBool false)) "items" (VList [])
  | None => _fallback_replay_frame state
  end.

Definition token_fields (t : TokenState) : pydict :=
  [field "consumed_tokens" (VInt (consumed_tokens t)); field "input_tokens" (VInt (input_tokens t));
   field "output_tokens" (VInt (output_tokens t));
   field "cache_read_input_tokens" (VInt (cache_read_input_tokens t));
   field "cache_creation_input_tokens" (VInt (cache_creation_input_tokens t));
   field "last_turn_tokens" (VInt (last_turn_tokens t));
   field "last_turn_input_tokens" (VInt (last_turn_input_tokens t));
   field "last_turn_output_tokens" (VInt (last_turn_output_tokens t));
   field "last_turn_cache_read_input_tokens" (VInt (last_turn_cache_read_input_tokens t));
   field "last_turn_cache_creation_input_tokens" (VInt (last_turn_cache_creation_input_tokens t))].

Definition base_revision (state : run_state) : option Z := exact_int (get (rs_memory_state state) "session_revision").

(** The kind of request that a status waits for. *)
Definition expected_kind (status : pystr) : option pystr :=
  if bool_decide (status = u "awaiting_human_input") then Some (u "human_input")
  else if bool_decide (status = u "max_iterations") then Some (u "max_budget")
  else None.

Definition _checkpoint_interaction_request (state : run_state) (status run_id session : pystr)
    (base_session_revision : option Z) : RT (option InteractionRequest) :=
  match rs_interaction_request state with
  | None =>
      if bool_decide (status = u "awaiting_interaction") then Err (RCheckpoint ExecutionCheckpointError)
      else Ok None
  | Some raw =>
      request ← on_interaction_error integrity (request_from_dict raw);
      _ ← ensure (bool_decide (session_id request = session)) incompatible;
      _ ← ensure (bool_decide (source_run_id request = or_else run_id (u "kernel"))) incompatible;
      _ ← ensure (match base_session_revision with
                  | Some base => bool_decide (created_revision request = base)
                  | None => true
                  end) incompatible;
      _ ← ensure (match expected_kind status with
                  | Some kind' => bool_decide (kind request = kind')
                  | None => true
                  end) incompatible;
      Ok (Some request)
  end.

(** The dictionary that is written. *)
Definition checkpoint_fields (state : run_state) (status session run_id : pystr) (frame human_input : pyval)
    (request : option InteractionRequest) : pydict :=
  let provider := rs_provider state in
  [field "schema_version" (VInt 1); field "status" (VStr status); field "session_id" (VStr session);
   field "source_run_id" (VStr (or_else run_id (u "kernel")));
   field "provider" (VStr (text_or (ps_provider provider))); field "model" (VStr (text_or (ps_model provider)));
   field "iteration" (VInt (rs_iteration state)); field "base_session_revision" (opt VInt (base_revision state));
   field "transcript" (VList (rs_transcript state));
   field "pending_model_context" (opt (λ l, VList (VDict <$> l)) (rs_next_model_input state));
   field "replay_frame" frame; field "continuation" (opt VDict (rs_last_continuation state));
   field "human_input_request" human_input;
   field "previous_response_id" (opt VStr (ps_previous_response_id provider));
   field "use_previous_response_chain" (VBool (ps_use_previous_response_chain provider));
   field "max_context_window_tokens" (VInt (ps_max_context_window_tokens provider));
   field "token_state" (VDict (token_fields (rs_tokens state)));
   field "workspace_change_state" (VDict (rs_workspace_change_state state))] ++
  match request with
  | Some r => [field "interaction_ref" (VDict [field "interaction_id" (VStr (interaction_id r));
                                              field "request_digest" (VStr (request_digest r))])]
  | None => []
  end.

Section building.
Variable py_str : pyval → pystr.
Variable other_key : pykey → option pystr.

Definition replay_frame_from_state (state : run_state) : RT pyval :=
  _json_safe py_str other_key (VDict (replay_frame state)).

Definition _human_input_request (state : run_state) : RT pyval :=
  match rs_human_input_request state with
  | None => Ok VNone
  | Some request => _json_safe py_str other_key request
  end.

Definition build_execution_checkpoint (state : run_state) (status run_id : pystr) : RT pydict :=
  _ ← ensure (bool_decide (status ∈ _CHECKPOINT_STATUSES)) (RCheckpoint ExecutionCheckpointError);
  let session := text_or (rs_session_id state) in
  _ ← ensure (nonempty session) (RCheckpoint ExecutionCheckpointError);
  request ← _checkpoint_interaction_request state status run_id session (base_revision state);
  frame ← replay_frame_from_state state;
  human_input ← _human_input_request state;
  safe ← _json_safe py_str other_key (VDict (checkpoint_fields state status session run_id frame human_input request));
  match safe with
  | VDict payload =>
      digest ← stable_payload_digest py_str other_key (VDict payload);
      Ok (dict_set (dict_set payload (KStr (u "checkpoint_id")) (VStr (checkpoint_id_of digest)))
            (KStr (u "integrity"))
            (VDict [field "algorithm" (VStr (u "sha256")); field "payload_sha256" (VStr digest)]))
  | _ => Err RAttributeError
  end.
End building.

(** ** Who owns the history (src/unchain/memory/ownership.py) *)

Definition _non_system_messages (messages : list pyval) : list pydict :=
  omap (λ m, match m with
             | VDict d => if py_eq (get d "role") (VStr (u "system")) then None else Some d
             | _ => None
             end) messages.

Fixpoint any_tool_block (content : list pyval) : RT bool :=
  match content with
  | [] => Ok false
  | VDict block :: content =>
      b ← in_texts (get block "type") [u "tool_use"; u "tool_result"];
      if (b : bool) then Ok true else any_tool_block content
  | _ :: content => any_tool_block content
  end.

Definition _is_runtime_generated_message (message : pydict) : RT bool :=
  by_role ← in_texts (get message "role") [u "assistant"; u "tool"];
  if (by_role : bool) then Ok true
  else
    by_type ← in_texts (get message "type")
                [u "function_call"; u "function_call_output"; u "tool_call"; u "tool_result"];
    if (by_type : bool) then Ok true
    else match get message "content" with VList content => any_tool_block content | _ => Ok false end.

(** The length of the prefix that ends with the last generated message; [n] messages
    were looked at and [best] is the answer for those. *)
Fixpoint runtime_prefix (n best : nat) (dialog : list pydict) : RT nat :=
  match dialog with
  | [] => Ok best
  | m :: dialog =>
      b ← _is_runtime_generated_message m;
      runtime_prefix (S n) (if (b : bool) then S n else best) dialog
  end.

Definition _stable_persisted_dialog_prefix (history : list pyval) : RT (list pydict) :=
  let dialog := _non_system_messages history in
  n ← runtime_prefix 0 0 dialog; Ok (take n dialog).

Definition py_eq_dicts (l l' : list pydict) : bool := py_eq (VList (VDict <$> l)) (VList (VDict <$> l')).

Definition ensure_session_delta_input (history incoming : list pyval) : RT unit :=
  persisted ← _stable_persisted_dialog_prefix history;
  let dialog := _non_system_messages incoming in
  if bool_decide (persisted = []) || (Nat.ltb (length dialog) (length persisted)) then Ok tt
  else if py_eq_dicts (take (length persisted) dialog) persisted then Err RHistoryOwnership
  else Ok tt.

(** ** Restoring a checkpoint *)

(** [checkpoint.get("transcript") or []] of a checkpoint that was validated. *)
Definition transcript_of (checkpoint : pydict) : list pyval :=
  match get checkpoint "transcript" with VList l => l | _ => [] end.

Definition restore_fresh_checkpoint_messages (checkpoint : pydict) (incoming_messages : list pyval)
    : RT (list pyval) :=
  waiting ← in_texts (get checkpoint "status") [u "awaiting_human_input"; u "awaiting_interaction"];
  _ ← ensure (negb (waiting || is_dict (get checkpoint "interaction_ref"))) resume_required;
  _ ← ensure_checkpoint_replayable checkpoint;
  _ ← ensure_session_delta_input (transcript_of checkpoint) incoming_messages;
  Ok (transcript_of checkpoint).

(** [split]: the instructions and the conversation, each in order. *)
Fixpoint split_instructions (messages : list pyval) : RT (list pydict * list pydict) :=
  match messages with
  | [] => Ok ([], [])
  | VDict m :: messages =>
      b ← in_texts (get m "role") [u "system"; u "developer"];
      '(systems, conversation) ← split_instructions messages;
      Ok (if (b : bool) then (m :: systems, conversation) else (systems, m :: conversation))
  | _ :: _ => Err RAttributeError
  end.

Definition prompt_projection (messages : list pydict) : list pydict :=
  (λ m, [field "role" (get m "role"); field "content" (get m "content")]) <$> messages.

(** The instructions of a new turn are those of the checkpoint, or its first. *)
Definition same_instructions (actual expected : list pydict) : bool :=
  py_eq_dicts actual expected ||
  match actual, expected with
  | [a], e :: _ => py_eq (VDict a) (VDict e)
  | _, _ => false
  end.

Definition merge_checkpoint_transcript_with_incoming (checkpoint_messages incoming_messages : list pyval)
    : RT (list pydict) :=
  '(checkpoint_systems, checkpoint_conversation) ← split_instructions checkpoint_messages;
  '(incoming_systems, incoming_conversation) ← split_instructions incoming_messages;
  _ ← ensure (match incoming_systems with
              | [] => true
              | _ => same_instructions (prompt_projection incoming_systems) (prompt_projection checkpoint_systems)
              end) incompatible;
  Ok (checkpoint_systems ++ checkpoint_conversation ++ incoming_conversation).

Definition restore_resume_checkpoint_messages (py_str : pyval → pystr) (other_key : pykey → option pystr)
    (checkpoint : pydict) (conversation : list pyval) (continuation : pyval) : RT (list pyval) :=
  resumable ← (if is_dict (get checkpoint "interaction_ref")
               then in_texts (get checkpoint "status") _CHECKPOINT_STATUSES else Ok false);
  _ ← ensure (py_eq (get checkpoint "status") (VStr (u "awaiting_human_input")) || resumable) incompatible;
  _ ← ensure_checkpoint_replayable checkpoint;
  let transcript := transcript_of checkpoint in
  a ← _json_safe py_str other_key (VList conversation);
  b ← _json_safe py_str other_key (VList transcript);
  _ ← ensure (py_eq a b) incompatible;
  match continuation with
  | VDict _ =>
      a ← _json_safe py_str other_key continuation;
      b ← _json_safe py_str other_key (get checkpoint "continuation");
      _ ← ensure (py_eq a b) incompatible;
      Ok transcript
  | _ => Err incompatible
  end.

(** ** Texts *)

Lemma py_eq_same s : py_eq (VStr s) (VStr s) = true.
Proof. simpl. by rewrite bool_decide_true. Qed.

Lemma py_eq_is_text v s : py_eq v (VStr s) = true → v = VStr s.
Proof. destruct v as [| |z|f|t|l|d|]; simpl; try done. intros H%bool_decide_eq_true. by subst. Qed.
