(* ===== verification/CheckpointCodec.v ===== *)
(** * Checkpoints are read back as they were built

    A checkpoint that [build_execution_checkpoint] makes of a complete run is accepted by
    [validate_execution_checkpoint] unchanged, and is bound to the request it waits for. *)

From S2P Require Import Prelude PyVal Json JsonParse JsonDefault Execution Interaction ToolResults JobCodec Checkpoint.
Local Open Scope Z_scope.

Section codec.
Variable py_str : pyval → pystr.
Variable other_key : pykey → option pystr.

Abbreviation safe := (_json_safe py_str other_key).
Abbreviation validate := (validate_execution_checkpoint py_str other_key).

Lemma safe_printable v w : printable v → safe v = Ok w → w = v ∧ is_Some (dumps_default py_str other_key v).
Proof.
  intros Hv. unfold _json_safe. destruct (dumps_default py_str other_key v) as [t|] eqn:Et; [|done].
  cbn [mbind option_bind]. rewrite (loads_to_text _ _ _ _ Hv Et). intros [= <-]. eauto.
Qed.

Lemma safe_of_text v : printable v → is_Some (dumps_default py_str other_key v) → safe v = Ok v.
Proof.
  intros Hv [t Ht]. unfold _json_safe. rewrite Ht. cbn [mbind option_bind]. by rewrite (loads_to_text _ _ _ _ Hv Ht).
Qed.

Lemma default_dict_app d d' :
  is_Some (default_dict py_str other_key d) → is_Some (default_dict py_str other_key d') →
  is_Some (default_dict py_str other_key (d ++ d')).
Proof.
  induction d as [|[k x] d IH]; intros Hd Hd'; [done|]. simpl in *. destruct (key_text other_key k) as [ks|]; [|by destruct Hd].
  simpl in *. destruct (dumps_default py_str other_key x) as [t|]; [|by destruct Hd]. simpl in *.
  fold (default_dict py_str other_key d) in Hd. fold (default_dict py_str other_key (d ++ d')).
  destruct (default_dict py_str other_key d) as [ts|]; [|by destruct Hd].
  destruct IH as [ts' ->]; [eauto|done|]. eauto.
Qed.

Lemma dict_text d :
  is_Some (dumps_default py_str other_key (VDict d)) ↔ is_Some (default_dict py_str other_key d).
Proof.
  simpl. match goal with |- is_Some (?m ≫= _) ↔ _ => change m with (default_dict py_str other_key d) end.
  destruct (default_dict py_str other_key d); simpl; split; intros [? H]; by try done; eauto.
Qed.

(** ** The fields of a complete run *)

(** The payload when every value is already a JSON value. *)
Definition run_fields (state : run_state) (status run_id : pystr) (request : option InteractionRequest) : pydict :=
  checkpoint_fields state status (text_or (rs_session_id state)) run_id (VDict (replay_frame state))
    (default VNone (rs_human_input_request state)) request.

Definition token_counts (t : TokenState) : list Z :=
  [consumed_tokens t; input_tokens t; output_tokens t; cache_read_input_tokens t; cache_creation_input_tokens t;
   last_turn_tokens t; last_turn_input_tokens t; last_turn_output_tokens t; last_turn_cache_read_input_tokens t;
   last_turn_cache_creation_input_tokens t].

(** What a run must have for its checkpoint to be readable: a provider, counts that are
    not negative, a frame with its two fields, and what the status waits with. *)
Definition complete_run (state : run_state) (status : pystr) : bool :=
  nonempty (text_or (ps_provider (rs_provider state))) &&
  (0 <=? rs_iteration state) && (0 <=? ps_max_context_window_tokens (rs_provider state)) &&
  forallb (λ z, 0 <=? z) (token_counts (rs_tokens state)) &&
  (match base_revision state with Some z => 0 <=? z | None => true end) &&
  check_replay_frame (VDict (replay_frame state)) &&
  (if bool_decide (status = u "max_iterations") then true
   else match rs_last_continuation state with Some _ => true | None => false end) &&
  (if bool_decide (status = u "awaiting_human_input")
   then match rs_human_input_request state with Some (VDict _) => true | _ => false end else true).

(** The document as it is returned. *)
Definition sealed (payload : pydict) (digest : pystr) : pydict :=
  payload ++ [field "checkpoint_id" (VStr (checkpoint_id_of digest));
    field "integrity" (VDict [field "algorithm" (VStr (u "sha256")); field "payload_sha256" (VStr digest)])].

Lemma printable_field d k v : printable (VDict d) → (KStr k, v) ∈ d → printable v.
Proof.
  inversion_clear 1 as [| | | | | |? _ Hd]. intros Hin. rewrite Forall_forall in Hd. by destruct (Hd _ Hin).
Qed.

Lemma run_fields_frame state status run_id request :
  printable (VDict (run_fields state status run_id request)) → printable (VDict (replay_frame state)).
Proof. intros H. eapply (printable_field _ (u "replay_frame")); [exact H|]. unfold run_fields, checkpoint_fields. set_solver. Qed.

Lemma run_fields_human state status run_id request :
  printable (VDict (run_fields state status run_id request)) → printable (default VNone (rs_human_input_request state)).
Proof.
  intros H. eapply (printable_field _ (u "human_input_request")); [exact H|]. unfold run_fields, checkpoint_fields. set_solver.
Qed.

(** What was built, when the values are JSON values. *)
Lemma build_inv state status run_id c :
  (∀ request, _checkpoint_interaction_request state status run_id (text_or (rs_session_id state)) (base_revision state)
                = Ok request → printable (VDict (run_fields state status run_id request))) →
  build_execution_checkpoint py_str other_key state status run_id = Ok c →
  ∃ request digest,
    status ∈ _CHECKPOINT_STATUSES ∧ nonempty (text_or (rs_session_id state)) = true ∧
    _checkpoint_interaction_request state status run_id (text_or (rs_session_id state)) (base_revision state) = Ok request ∧
    is_Some (dumps_default py_str other_key (VDict (run_fields state status run_id request))) ∧
    stable_payload_digest py_str other_key (VDict (run_fields state status run_id request)) = Ok digest ∧
    c = sealed (run_fields state status run_id request) digest.
Proof.
  intros Hp H. unfold build_execution_checkpoint in H.
  apply result_bind_ok in H as ([] & Hst & ([] & Hses & (request & Hreq & (frame & Hfr & (human & Hhu & H)
    %result_bind_ok)%result_bind_ok)%result_bind_ok)%result_bind_ok).
  specialize (Hp _ Hreq). exists request.
  assert (frame = VDict (replay_frame state)) as ->.
  { eapply safe_printable; [|exact Hfr]. by eapply run_fields_frame. }
  assert (human = default VNone (rs_human_input_request state)) as ->.
  { unfold _human_input_request in Hhu. assert (Hh := run_fields_human _ _ _ _ Hp).
    destruct (rs_human_input_request state); [by eapply safe_printable|by injection Hhu]. }
  apply result_bind_ok in H as (payload & Hpay & H).
  destruct (safe_printable _ _ Hp Hpay) as [-> Htext]. apply result_bind_ok in H as (digest & Hd & [= <-]).
  exists digest. apply ensure_ok in Hst, Hses. apply bool_decide_eq_true in Hst.
  split_and!; try done. by destruct request.
Qed.

(** ** The checks of the reader *)

Lemma sealed_payload state status run_id request digest :
  checkpoint_payload (sealed (run_fields state status run_id request) digest) = run_fields state status run_id request.
Proof. by destruct request. Qed.

Lemma wf_request_digest_nonempty r : wf_request r → nonempty (request_digest r) = true.
Proof.
  intros [H _]. rewrite request_of_request_dict in H. unfold make_InteractionRequest in H. binds H.
  match goal with H : _required_text (VStr (request_digest r)) = Ok _ |- _ => rename H into Ht end.
  unfold _required_text in Ht. destruct (request_digest r); [|done]. by vm_compute in Ht.
Qed.

Lemma request_ref_ok state status run_id session base r :
  _checkpoint_interaction_request state status run_id session base = Ok (Some r) →
  nonempty (interaction_id r) = true ∧ nonempty (request_digest r) = true ∧
  session_id r = session ∧ source_run_id r = or_else run_id (u "kernel") ∧
  (∀ b, base = Some b → created_revision r = b).
Proof.
  unfold _checkpoint_interaction_request. destruct (rs_interaction_request state) as [raw|]; [|by case_bool_decide].
  intros (r' & Hr & ([] & H1 & ([] & H2 & ([] & H3 & ([] & _ & [= <-])%result_bind_ok)%result_bind_ok)%result_bind_ok)
    %result_bind_ok)%result_bind_ok.
  assert (wf_request r') as Hwf.
  { destruct (request_from_dict raw) as [r0|[]] eqn:E; simpl in Hr; simplify_eq. by eapply request_from_dict_wf. }
  apply ensure_ok in H1, H2, H3. apply bool_decide_eq_true in H1, H2.
  split_and!; [by apply wf_request_nonempty|by apply wf_request_digest_nonempty|done|done|].
  intros b ->. by apply bool_decide_eq_true in H3.
Qed.

Lemma request_known state status run_id session base request raw r :
  _checkpoint_interaction_request state status run_id session base = Ok request →
  rs_interaction_request state = Some raw → request_from_dict raw = Ok r → request = Some r.
Proof.
  unfold _checkpoint_interaction_request. intros H Hraw Hr. rewrite Hraw, Hr in H. cbn [on_interaction_error] in H.
  by apply result_bind_ok in H as (? & [= <-] & (? & _ & (? & _ & (? & _ & (? & _ & [= <-])%result_bind_ok)%result_bind_ok)
    %result_bind_ok)%result_bind_ok).
Qed.

Lemma status_cases status :
  status ∈ _CHECKPOINT_STATUSES →
  status = u "max_iterations" ∨ status = u "awaiting_human_input" ∨ status = u "awaiting_interaction".
Proof. unfold _CHECKPOINT_STATUSES. set_solver. Qed.

Lemma waiting_has_request state status run_id session base :
  status = u "awaiting_interaction" →
  _checkpoint_interaction_request state status run_id session base ≠ Ok None.
Proof.
  intros -> H. unfold _checkpoint_interaction_request in H. destruct (rs_interaction_request state); [|by vm_compute in H].
  by apply result_bind_ok in H as (? & _ & (? & _ & (? & _ & (? & _ & (? & _ & ?)%result_bind_ok)%result_bind_ok)
    %result_bind_ok)%result_bind_ok).
Qed.

(** The reference of the request has its two texts. *)
Lemma sealed_ref state status run_id request digest session base :
  _checkpoint_interaction_request state status run_id session base = Ok request →
  check_interaction_ref (get (sealed (run_fields state status run_id request) digest) "interaction_ref") = true.
Proof.
  intros Hreq. destruct request as [r|]; [|done]. destruct (request_ref_ok _ _ _ _ _ _ Hreq) as (Hi & Hd & _).
  change (exact_keys ["interaction_id"; "request_digest"] [field "interaction_id" (VStr (interaction_id r));
    field "request_digest" (VStr (request_digest r))] && nonempty (interaction_id r) && nonempty (request_digest r) = true).
  by rewrite Hi, Hd.
Qed.

(** The conditions that depend on the status. *)
Lemma sealed_status state status run_id request digest session base :
  status ∈ _CHECKPOINT_STATUSES →
  _checkpoint_interaction_request state status run_id session base = Ok request →
  complete_run state status = true →
  let c := sealed (run_fields state status run_id request) digest in
  (if py_eq (get c "status") (VStr (u "awaiting_human_input"))
   then is_dict (get c "continuation") && is_dict (get c "human_input_request") else true) = true ∧
  (if py_eq (get c "status") (VStr (u "awaiting_interaction"))
   then negb (is_none (get c "interaction_ref")) && is_dict (get c "continuation") else true) = true.
Proof.
  intros Hst Hreq Hrun c. unfold complete_run in Hrun. apply andb_true_iff in Hrun as [Hrun Hh].
  apply andb_true_iff in Hrun as [_ Hc].
  destruct (status_cases _ Hst) as [-> | [-> | ->]].
  - split; reflexivity.
  - assert (∃ d, rs_last_continuation state = Some d) as [d Hd].
    { rewrite bool_decide_eq_false_2 in Hc by done. destruct (rs_last_continuation state); eauto; done. }
    assert (∃ h, rs_human_input_request state = Some (VDict h)) as [h Hh'].
    { rewrite bool_decide_eq_true_2 in Hh by done. destruct (rs_human_input_request state) as [[]|]; eauto; done. }
    split; [|reflexivity].
    change (is_dict (opt VDict (rs_last_continuation state)) && is_dict (default VNone (rs_human_input_request state)) = true).
    by rewrite Hd, Hh'.
  - assert (∃ d, rs_last_continuation state = Some d) as [d Hd].
    { rewrite bool_decide_eq_false_2 in Hc by done. destruct (rs_last_continuation state); eauto; done. }
    split; [reflexivity|]. destruct request as [r|]; [|by apply waiting_has_request in Hreq].
    change (true && is_dict (opt VDict (rs_last_continuation state)) = true). by rewrite Hd.
Qed.

Lemma sealed_shape state status run_id request digest :
  status ∈ _CHECKPOINT_STATUSES → nonempty (text_or (rs_session_id state)) = true →
  _checkpoint_interaction_request state status run_id (text_or (rs_session_id state)) (base_revision state) = Ok request →
  complete_run state status = true →
  shape_checks (sealed (run_fields state status run_id request) digest) = true.
Proof.
  intros Hst Hses Hreq Hrun. destruct (sealed_status _ _ _ _ digest _ _ Hst Hreq Hrun) as [Hs1 Hs2].
  unfold complete_run in Hrun. rewrite !andb_true_iff in Hrun. destruct Hrun as [[[[[[[Hp Hi] Hm] Ht] Hb] Hf] _] _].
  unfold shape_checks. rewrite Hs1, Hs2, (sealed_ref _ _ _ _ digest _ _ Hreq).
  rewrite !andb_true_iff. split_and!; try reflexivity.
  - destruct request;
      change (nonempty (text_or (rs_session_id state)) && (nonempty (text_or (ps_provider (rs_provider state))) && true) = true);
      by rewrite Hses, Hp.
  - exact Hi.
  - exact Hm.
  - exact Ht.
  - change (check_pending_context (opt (λ l, VList (VDict <$> l)) (rs_next_model_input state)) = true).
    destruct (rs_next_model_input state) as [l|]; [|done]. simpl. by induction l.
  - exact Hf.
  - change (check_base_revision (opt VInt (base_revision state)) = true). by destruct (base_revision state).
Qed.

Lemma sealed_text state status run_id request digest :
  is_Some (dumps_default py_str other_key (VDict (run_fields state status run_id request))) →
  is_Some (dumps_default py_str other_key (VDict (sealed (run_fields state status run_id request) digest))).
Proof.
  rewrite !dict_text. intros Hd. apply default_dict_app; [done|]. simpl. eauto.
Qed.

Lemma payload_digest_code_points v digest :
  stable_payload_digest py_str other_key v = Ok digest → code_points digest ∧ code_points (checkpoint_id_of digest).
Proof.
  unfold stable_payload_digest. intros (text & _ & H)%result_bind_ok. destruct (utf8 text); [|done].
  injection H as <-. split; [apply code_points_hexdigest|]. apply code_points_app.
  split; [apply code_points_u|]. apply Forall_take, code_points_hexdigest.
Qed.

Lemma sealed_printable state status run_id request digest :
  printable (VDict (run_fields state status run_id request)) →
  code_points digest → code_points (checkpoint_id_of digest) →
  printable (VDict (sealed (run_fields state status run_id request) digest)).
Proof.
  inversion_clear 1 as [| | | | | |? Hnd Hd]. intros Hc Hi. constructor.
  - destruct request; apply (bool_decide_unpack _); exact I.
  - apply Forall_app. split; [done|].
    assert (∀ name v, printable v → (∃ k, (field name v).1 = KStr k ∧ Forall code_point k) ∧ printable (field name v).2) as Hfield.
    { intros name v Hv. split; [|done]. exists (u name). split; [done|apply code_points_u]. }
    repeat apply Forall_cons_2; try apply Hfield; try by constructor.
    constructor; [apply (bool_decide_unpack _); exact I|].
    repeat apply Forall_cons_2; try apply Hfield; try by constructor. constructor. apply code_points_u.
Qed.

(** C19. Checkpoints survive storage: what is built of a complete run whose values are
    JSON values (doubles that print back, distinct keys) is accepted by the reader
    unchanged, whatever the status, and is bound to the very request it waits for, so
    that the request can be registered with it. *)
Theorem built_checkpoint_is_accepted (state : run_state) (status run_id : pystr) (c : pydict) :
  (∀ request, _checkpoint_interaction_request state status run_id (text_or (rs_session_id state)) (base_revision state)
                = Ok request → printable (VDict (run_fields state status run_id request))) →
  complete_run state status = true →
  build_execution_checkpoint py_str other_key state status run_id = Ok c →
  validate (VDict c) = Ok c ∧
  ∀ raw r, rs_interaction_request state = Some raw → request_from_dict raw = Ok r →
    _validate_checkpoint_request_binding c r = Ok tt.
Proof.
  intros Hp Hrun Hbuild.
  destruct (build_inv _ _ _ _ Hp Hbuild) as (request & digest & Hst & Hses & Hreq & Htext & Hd & ->).
  destruct (payload_digest_code_points _ _ Hd) as [Hc1 Hc2]. split.
  - unfold validate_execution_checkpoint.
    rewrite (safe_of_text (VDict (sealed _ digest))); [|by apply sealed_printable; auto|by apply sealed_text].
    cbn [mbind result_bind].
    assert (in_texts (get (sealed (run_fields state status run_id request) digest) "status") _CHECKPOINT_STATUSES = Ok true) as ->.
    { change (Ok (bool_decide (status ∈ _CHECKPOINT_STATUSES)) = Ok (E := rterror) true). by rewrite bool_decide_eq_true_2. }
    rewrite sealed_shape by done. rewrite sealed_payload, Hd. unfold ensure.
    assert (get (sealed (run_fields state status run_id request) digest) "integrity" =
      VDict [field "algorithm" (VStr (u "sha256")); field "payload_sha256" (VStr digest)]) as -> by (by destruct request).
    assert (get (sealed (run_fields state status run_id request) digest) "checkpoint_id" = VStr (checkpoint_id_of digest))
      as -> by (by destruct request).
    change (get [field "algorithm" (VStr (u "sha256")); field "payload_sha256" (VStr digest)] "payload_sha256") with (VStr digest).
    cbn [mbind result_bind]. by rewrite !py_eq_same.
  - intros raw r Hraw Hr. assert (request = Some r) as -> by by eapply request_known.
    destruct (request_ref_ok _ _ _ _ _ _ Hreq) as (_ & _ & Hs & Hrun' & Hb).
    unfold _validate_checkpoint_request_binding.
    change (get (sealed _ digest) "interaction_ref") with
      (VDict [field "interaction_id" (VStr (interaction_id r)); field "request_digest" (VStr (request_digest r))]).
    cbv match.
    change (get (sealed _ digest) "session_id") with (VStr (text_or (rs_session_id state))).
    change (get (sealed _ digest) "source_run_id") with (VStr (or_else run_id (u "kernel"))).
    change (get (sealed _ digest) "base_session_revision") with (opt VInt (base_revision state)).
    change (get [_; _] "interaction_id") with (VStr (interaction_id r)).
    change (get [_; _] "request_digest") with (VStr (request_digest r)).
    rewrite <-Hs, <-Hrun', !py_eq_same. unfold ensure. cbn [mbind result_bind andb].
    destruct (base_revision state) as [b|]; [|done]. cbn [opt]. rewrite (Hb b eq_refl). simpl. unfold num_eq. by rewrite Z.eqb_refl.
Qed.
End codec.
