(* ===== verification/CheckpointRuntime.v ===== *)
(** * The session document at run time (src/unchain/memory/runtime.py)

    How the kernel reads and writes the session document: checkpoints are saved and
    cleared, and the wait of a cancelled execution is closed, with one conditional write
    each.  Other workers may write between two calls, so an operation is a program of
    store calls, each of which is atomic. *)

From S2P Require Import Prelude PyVal Execution SessionStore Revision Interaction Checkpoint.
Local Open Scope Z_scope.

(** ** Programs of store calls *)

(** A finished run, or a call of the store and what is done with its answer. *)
Inductive prog (S A : Type) : Type :=
| Done (r : RT A)
| Call {B : Type} (m : M S exn B) (k : result exn B → prog S A).
Arguments Done {S A} r.
Arguments Call {S A B} m k.

Fixpoint prog_bind {S A B} (f : A → prog S B) (p : prog S A) : prog S B :=
  match p with
  | Done (Ok a) => f a
  | Done (Err e) => Done (Err e)
  | Call m k => Call m (λ r, prog_bind f (k r))
  end.

#[export] Instance prog_mret S : MRet (prog S) := λ A a, Done (Ok a).
#[export] Instance prog_mbind S : MBind (prog S) := λ A B f p, prog_bind f p.

(** [try: p  except ... as e: h e] *)
Fixpoint prog_catch {S A} (p : prog S A) (h : rterror → prog S A) : prog S A :=
  match p with
  | Done (Ok a) => Done (Ok a)
  | Done (Err e) => h e
  | Call m k => Call m (λ r, prog_catch (k r) h)
  end.

Definition throw {S A} (e : rterror) : prog S A := Done (Err e).

Definition of_store {A} (r : result exn A) : RT A :=
  match r with Ok a => Ok a | Err e => Err (RStore e) end.

Definition call {S A} (m : M S exn A) : prog S A := Call m (λ r, Done (of_store r)).

(** Run alone, every call on the state the one before left. *)
Fixpoint run {S A} (p : prog S A) (s : S) : RT A * S :=
  match p with
  | Done r => (r, s)
  | Call m k => let '(r, s') := m s in run (k r) s'
  end.

(** ** Stores *)

(** What the run time finds on a store object besides its session methods; a
    cancellation that is not an [ExecutionCancellation] is [None]. *)
Record durable_store (S : Type) : Type := mkDurable {
  ds_session : session_store S;
  ds_verify_lease : option (pystr → pystr → Z → M S exn unit);
  ds_load_cancellation : option (pystr → pystr → M S exn (option (option ExecutionCancellation)));
  ds_save_not_cancelled : option (pystr → pydict → Z → pystr → pystr → M S exn pyval);
  ds_save_cancelled : option (pystr → pydict → Z → pystr → pystr → M S exn pyval);
}.
Arguments ds_session {S}.
Arguments ds_verify_lease {S}.
Arguments ds_load_cancellation {S}.
Arguments ds_save_not_cancelled {S}.
Arguments ds_save_cancelled {S}.

(** ** The owner of a checkpoint *)

Record _ExecutionCheckpointDomain : Type := mkDomain {
  dom_checkpoint_id : pystr;
  dom_execution_id : pystr;
  dom_owner_id : pystr;
  dom_fencing_token : Z;
}.

Definition domain_from_fence (py_str : pyval → pystr) (checkpoint : pydict) (fence : ExecutionFence)
    : _ExecutionCheckpointDomain :=
  mkDomain (str_or_empty py_str (get checkpoint "checkpoint_id")) (fence_execution_id fence)
    (fence_owner_id fence) (fence_token fence).

Definition domain_keys : list string :=
  ["schema_version"; "checkpoint_id"; "execution_id"; "owner_id"; "fencing_token"]%string.

Definition domain_from_state (state checkpoint : pydict) (sid : pystr) : RT (option _ExecutionCheckpointDomain) :=
  match lookup state EXECUTION_CHECKPOINT_DOMAIN_KEY with
  | VNone => Ok None
  | VDict raw =>
      _ ← ensure (exact_keys domain_keys raw) integrity;
      _ ← ensure (py_eq (get raw "schema_version") (VInt 1)) integrity;
      match get raw "checkpoint_id", get raw "execution_id", get raw "owner_id", exact_int (get raw "fencing_token") with
      | VStr checkpoint_id, VStr execution_id, VStr owner_id, Some token =>
          _ ← ensure (nonempty checkpoint_id && py_eq (get checkpoint "checkpoint_id") (VStr checkpoint_id)) integrity;
          _ ← ensure (nonempty execution_id && nonempty owner_id && (0 <? token)) integrity;
          _ ← ensure (bool_decide (sid = execution_id) || startswith sid (execution_id ++ u ":")) integrity;
          Ok (Some (mkDomain checkpoint_id execution_id owner_id token))
      | _, _, _, _ => Err integrity
      end
  | _ => Err integrity
  end.

Definition domain_to_dict (d : _ExecutionCheckpointDomain) : pydict :=
  [field "schema_version" (VInt 1); field "checkpoint_id" (VStr (dom_checkpoint_id d));
   field "execution_id" (VStr (dom_execution_id d)); field "owner_id" (VStr (dom_owner_id d));
   field "fencing_token" (VInt (dom_fencing_token d))].

(** ** Helpers *)

Definition _ensure_expected_revision (snapshot : SessionSnapshot) (sid : pystr) (expected_revision : option Z)
    : RT unit :=
  match expected_revision, snap_revision snapshot with
  | Some expected, Some actual =>
      ensure (actual =? expected) (RStore (ERevisionConflict sid (Some expected) actual))
  | _, _ => Ok tt
  end.

(** [expected if expected is not None else snapshot.revision] *)
Definition expected_or (expected : option Z) (snapshot : SessionSnapshot) : option Z :=
  match expected with Some e => Some e | None => snap_revision snapshot end.

(** [isinstance(v, int)] (no [bool]) and above the expected revision. *)
Definition advanced_revision (next : pyval) (expected : Z) : RT Z :=
  match exact_int next with
  | Some r => if r <=? expected then Err persistence else Ok r
  | None => Err persistence
  end.

Definition type_error (msg : string) : rterror := RStore (ETypeError (u msg)).

(** [except Exception] catches everything but what is no [Exception]. *)
Definition is_exception (e : rterror) : bool :=
  match e with RStore e => derives_from_Exception e | _ => true end.

(** Conflicts and lease errors are raised as they are, any other as a failure to persist. *)
Definition persist_error (e : rterror) : rterror :=
  match e with
  | RStore (ERevisionConflict _ _ _) | RStore (ELease _ _ _ _ _) => e
  | _ => if is_exception e then persistence else e
  end.

Definition verify_error (e : rterror) : rterror := if is_exception e then persistence else e.

(** [str(v)] of a value that may be a string *)
Definition text_of_value (py_str : pyval → pystr) (v : pyval) : pystr :=
  match v with VStr s => s | _ => py_str v end.

Definition cancelled_id (checkpoint_id : pystr) : pystr := u "cancelled:" ++ checkpoint_id.

(** The answer that closes a cancelled interaction. *)
Definition cancelled_response (reason : pystr) : pyval :=
  VDict [field "cancelled" (VBool true);
         field "reason" (VStr (or_else reason (u "execution_cancelled")))].

Definition empty_snapshot : SessionSnapshot := mkSnapshot [] None.

Section runtime.
Context {S : Type}.
Variable py_str : pyval → pystr.
Variable other_key : pykey → option pystr.
Variable store : durable_store S.

Abbreviation P := (prog S).
Abbreviation validate_checkpoint := (validate_execution_checkpoint py_str other_key).

Definition rt (A : Type) (r : RT A) : P A := Done r.
Arguments rt {A} r.

Definition _verify_execution_fence (fence : option ExecutionFence) : P unit :=
  match fence with
  | None => mret tt
  | Some f =>
      match ds_verify_lease store with
      | None => throw (type_error "execution fence requires a lease-aware session store")
      | Some verify_lease => call (verify_lease (fence_execution_id f) (fence_owner_id f) (fence_token f))
      end
  end.

(** [KernelMemoryRuntime.load_session_snapshot] *)
Definition runtime_load (sid : pystr) : P SessionSnapshot :=
  if negb (nonempty sid) then mret empty_snapshot else call (load_session_snapshot (ds_session store) sid).

Definition load_session_state (sid : pystr) : P pydict :=
  if negb (nonempty sid) then mret [] else snapshot ← runtime_load sid; mret (snap_state snapshot).

(** [save_session_snapshot] of this store *)
Definition runtime_save (sid : pystr) (state : pydict) (expected : option Z) (fence : option ExecutionFence)
    : P SessionSnapshot :=
  call (save_session_snapshot (ds_session store) sid (VDict state) (VInt <$> expected) fence).

Definition save_session_state (sid : pystr) (state : pydict) (expected_revision : option Z)
    (fence : option ExecutionFence) : P SessionSnapshot :=
  if negb (nonempty sid) then mret empty_snapshot
  else
    current ← runtime_load sid;
    _ ← rt (_ensure_expected_revision current sid expected_revision);
    runtime_save sid state (expected_or expected_revision current) fence.

Definition _checkpoint_domain (sid : pystr) (snapshot : SessionSnapshot)
    : RT (option (pydict * _ExecutionCheckpointDomain)) :=
  match lookup (snap_state snapshot) EXECUTION_CHECKPOINT_KEY with
  | VDict raw =>
      checkpoint ← validate_checkpoint (VDict raw);
      domain ← domain_from_state (snap_state snapshot) checkpoint sid;
      Ok (match domain with Some d => Some (checkpoint, d) | None => None end)
  | _ => Ok None
  end.

(** ** Closing the wait of a cancelled execution *)

(** [state.pop(KEY, None)] for the checkpoint and its owner *)
Definition without_checkpoint (state : pydict) : pydict :=
  dict_del (dict_del state EXECUTION_CHECKPOINT_KEY) EXECUTION_CHECKPOINT_DOMAIN_KEY.

(** The document in which the interaction of the checkpoint is answered by its
    cancellation, unless it has an answer, and applied. *)
Definition close_cancelled (state checkpoint ref : pydict) (c : ExecutionCancellation) (submitted_by : pystr)
    : RT pydict :=
  j ← raises (validate_interaction_journal (lookup state INTERACTION_JOURNAL_KEY));
  let iid := str_or_empty py_str (get ref "interaction_id") in
  match find_entry (entries j) iid with
  | None => Err integrity
  | Some e =>
      _ ← ensure (py_eq (get checkpoint "checkpoint_id") (VStr (e_checkpoint_id e))) integrity;
      state ← match e_receipt e with
              | Some _ => Ok state
              | None =>
                  request ← raises (request_from_dict (BRaw (VDict (request_dict (e_request e)))));
                  receipt ← raises (build_interaction_receipt (BObject request) (cancelled_response (reason c))
                                      (VStr submitted_by) (VInt (requested_at_ms c)));
                  j ← raises (record_interaction_receipt (VDict (journal_dict j)) (BObject receipt));
                  Ok (dict_set state INTERACTION_JOURNAL_KEY (VDict (journal_dict j)))
              end;
      '(_, state) ← apply_checkpoint_interaction_receipt py_str state checkpoint
                      (cancelled_id (text_of_value py_str (get checkpoint "checkpoint_id")));
      Ok state
  end.

Definition cancelled_state (state checkpoint : pydict) (c : ExecutionCancellation) (submitted_by : pystr)
    : RT pydict :=
  state ← match get checkpoint "interaction_ref" with
          | VDict ref => close_cancelled state checkpoint ref c submitted_by
          | _ => Ok state
          end;
  Ok (without_checkpoint state).

Definition cancellation_mismatch (d : _ExecutionCheckpointDomain) (msg : string) : rterror :=
  RStore (ELease ExecutionLeaseError (u msg) (Some (dom_execution_id d)) (Some (dom_owner_id d))
            (Some (dom_fencing_token d))).

(** The attempts that are left, and the conflict the last one met. *)
Fixpoint reconcile_attempts (attempts : nat) (last_conflict : option exn) (sid submitted_by : pystr)
    : P (SessionSnapshot * option ExecutionCancellation) :=
  match attempts with
  | O => throw (match last_conflict with Some e => RStore e | None => persistence end)
  | Datatypes.S attempts =>
      snapshot ← runtime_load sid;
      bound ← rt (_checkpoint_domain sid snapshot);
      match bound with
      | None => mret (snapshot, None)
      | Some (checkpoint, domain) =>
          match ds_load_cancellation store, ds_save_cancelled store with
          | Some load_cancellation, Some save_cancelled =>
              answer ← call (load_cancellation (dom_execution_id domain) (dom_owner_id domain));
              match answer with
              | None => throw (cancellation_mismatch domain "execution cancellation store returned an invalid tombstone")
              | Some None => mret (snapshot, None)
              | Some (Some c) =>
                  if negb (bool_decide (cancel_execution_id c = dom_execution_id domain) &&
                           bool_decide (cancel_owner_id c = dom_owner_id domain))
                  then throw (cancellation_mismatch domain "execution cancellation store returned a different owner")
                  else
                    state ← rt (cancelled_state (snap_state snapshot) checkpoint c submitted_by);
                    match snap_revision snapshot with
                    | None => throw (type_error "execution checkpoint cancellation requires revisioned storage")
                    | Some expected =>
                        Call (save_cancelled sid state expected (dom_execution_id domain) (dom_owner_id domain)) (λ answer,
                          match answer with
                          | Ok next =>
                              revision ← rt (advanced_revision next expected);
                              mret (mkSnapshot state (Some revision), Some c)
                          | Err (ERevisionConflict a b c as conflict) =>
                              reconcile_attempts attempts (Some conflict) sid submitted_by
                          | Err e => throw (RStore e)
                          end)
                    end
              end
          | _, _ =>
              throw (type_error
                "execution checkpoint cancellation requires atomic cancellation-aware session storage")
          end
      end
  end.

Definition cancelled_tree : pystr := u "runtime:cancelled_execution_tree".

Definition reconcile_cancelled_execution_checkpoint (sid submitted_by : pystr)
    : P (SessionSnapshot * option ExecutionCancellation) :=
  if negb (nonempty sid) then mret (empty_snapshot, None) else reconcile_attempts 16 None sid submitted_by.

(** ** Receipts *)

Definition resolve_interaction_execution_fence (sid checkpoint_id : pystr) (snapshot : SessionSnapshot)
    (fence : option ExecutionFence) : RT (option ExecutionFence) :=
  bound ← _checkpoint_domain sid snapshot;
  match bound with
  | None => Ok fence
  | Some (checkpoint, domain) =>
      _ ← ensure (py_eq (get checkpoint "checkpoint_id") (VStr checkpoint_id)) incompatible;
      if bool_decide (dom_execution_id domain = sid) then Ok fence
      else match fence with
           | Some f =>
               _ ← ensure (bool_decide (fence_execution_id f = dom_execution_id domain) &&
                           bool_decide (fence_owner_id f = dom_owner_id domain)) incompatible;
               Ok fence
           | None => Ok None
           end
  end.

Definition save_interaction_session_state (sid : pystr) (state : pydict) (checkpoint_id : pystr)
    (snapshot : SessionSnapshot) (expected_revision : option Z) (fence : option ExecutionFence)
    : P SessionSnapshot :=
  effective ← rt (resolve_interaction_execution_fence sid checkpoint_id snapshot fence);
  bound ← rt (_checkpoint_domain sid snapshot);
  match bound, effective with
  | Some (_, domain), None =>
      match ds_save_not_cancelled store with
      | None =>
          throw (type_error "descendant interaction receipt requires atomic cancellation-aware session storage")
      | Some save_not_cancelled =>
          match expected_or expected_revision snapshot with
          | None => throw (type_error "descendant interaction receipt requires revisioned session storage")
          | Some revision =>
              next ← call (save_not_cancelled sid state revision (dom_execution_id domain) (dom_owner_id domain));
              r ← rt (advanced_revision next revision);
              mret (mkSnapshot state (Some r))
          end
      end
  | _, _ => save_session_state sid state expected_revision effective
  end.

Definition load_execution_checkpoint (sid : pystr) : P (option pydict) :=
  if negb (nonempty sid) then mret None
  else
    '(snapshot, cancellation) ← reconcile_cancelled_execution_checkpoint sid cancelled_tree;
    match cancellation with
    | Some _ => mret None
    | None =>
        match dict_get (snap_state snapshot) EXECUTION_CHECKPOINT_KEY with
        | None => mret None
        | Some raw => c ← rt (validate_checkpoint raw); mret (Some c)
        end
    end.

(** ** Saving a checkpoint *)

(** [validate_execution_checkpoint(raw) if isinstance(raw, dict) else None] *)
Definition current_checkpoint (state : pydict) : RT (option pydict) :=
  match lookup state EXECUTION_CHECKPOINT_KEY with
  | VDict raw => c ← validate_checkpoint (VDict raw); Ok (Some c)
  | _ => Ok None
  end.

(** The checkpoint is there already, at the expected revision or at the one that its own
    write made of it. *)
Definition retry_candidate (current : option pydict) (validated : pydict) (actual expected : option Z) : bool :=
  match current, expected with
  | Some c, Some e =>
      py_eq (get c "checkpoint_id") (get validated "checkpoint_id") &&
      (bool_decide (actual = Some e) ||
       (bool_decide (actual = Some (e + 1)) && py_eq (get c "base_session_revision") (VInt e)))
  | _, _ => false
  end.

(** The interaction journal of the new document: the request of the checkpoint is
    registered, or the interaction of the one it replaces is applied. *)
Definition journal_for (state validated : pydict) (current : option pydict)
    (interaction_request : option (bound InteractionRequest)) : RT pydict :=
  match interaction_request with
  | Some request => register_checkpoint_interaction_request py_str other_key state validated request
  | None =>
      match current with
      | Some c =>
          match get c "interaction_ref" with
          | VDict _ =>
              '(_, state) ← apply_checkpoint_interaction_receipt py_str state c
                              (str_or_empty py_str (get validated "checkpoint_id"));
              Ok state
          | _ => Ok state
          end
      | None => Ok state
      end
  end.

Definition cancellation_aware : bool :=
  callable (ds_load_cancellation store) && callable (ds_save_not_cancelled store) &&
  callable (ds_save_cancelled store).

(** The owner recorded with the checkpoint. *)
Definition with_domain (state before validated : pydict) (current : option pydict) (sid : pystr) (retry : bool)
    (fence : option ExecutionFence) : RT pydict :=
  match fence with
  | None => Ok (dict_del state EXECUTION_CHECKPOINT_DOMAIN_KEY)
  | Some f =>
      _ ← ensure (bool_decide (sid = fence_execution_id f) || cancellation_aware)
            (type_error "descendant execution checkpoint requires atomic cancellation-aware session storage");
      if negb cancellation_aware then Ok (dict_del state EXECUTION_CHECKPOINT_DOMAIN_KEY)
      else
        let next := domain_from_fence py_str validated f in
        existing ← match current with
                   | Some c => if retry then domain_from_state before c sid else Ok None
                   | None => Ok None
                   end;
        let fresh := if retry && bool_decide (dict_get before EXECUTION_CHECKPOINT_DOMAIN_KEY = None)
                     then dict_del state EXECUTION_CHECKPOINT_DOMAIN_KEY
                     else dict_set state EXECUTION_CHECKPOINT_DOMAIN_KEY (VDict (domain_to_dict next)) in
        Ok (match existing with
            | Some d =>
                if bool_decide (dom_execution_id d = dom_execution_id next) &&
                   bool_decide (dom_owner_id d = dom_owner_id next)
                then dict_set state EXECUTION_CHECKPOINT_DOMAIN_KEY (VDict (domain_to_dict d))
                else fresh
            | None => fresh
            end)
  end.

(** A write that cannot be seen afterwards: another one came in between, or it was lost. *)
Definition lost_write (lost : rterror) (sid : pystr) (persisted verified : SessionSnapshot) : rterror :=
  match snap_revision persisted, snap_revision verified with
  | Some p, Some v => if v =? p then lost else RStore (ERevisionConflict sid (Some p) v)
  | _, _ => lost
  end.

(** The journal that was read back has the request active with this checkpoint. *)
Definition verify_request (request : bound InteractionRequest) (state validated : pydict) : RT unit :=
  match (request ← request_from_dict request;
         j ← validate_interaction_journal (lookup state INTERACTION_JOURNAL_KEY);
         Ok (request, j)) with
  | Err _ => Err persistence
  | Ok (request, j) =>
      match find_entry (entries j) (interaction_id request) with
      | None => Err persistence
      | Some e =>
          ensure (bool_decide (active_id j = Some (interaction_id request)) &&
                  py_eq (VDict (request_dict (e_request e))) (VDict (request_dict request)) &&
                  py_eq (get validated "checkpoint_id") (VStr (e_checkpoint_id e)) &&
                  bool_decide (e_application e = None)) persistence
      end
  end.

Definition save_execution_checkpoint_snapshot (sid : pystr) (checkpoint : pyval)
    (interaction_request : option (bound InteractionRequest)) (expected_revision : option Z)
    (fence : option ExecutionFence) : P (pydict * SessionSnapshot) :=
  if negb (nonempty sid) then throw persistence
  else
    validated ← rt (validate_checkpoint checkpoint);
    _ ← rt (ensure (py_eq (get validated "session_id") (VStr sid)) incompatible);
    _ ← rt (ensure (bool_decide (is_dict (get validated "interaction_ref") = callable interaction_request)) incompatible);
    snapshot ← runtime_load sid;
    current ← rt (current_checkpoint (snap_state snapshot));
    let retry := retry_candidate current validated (snap_revision snapshot) expected_revision in
    _ ← rt (if retry then Ok tt else _ensure_expected_revision snapshot sid expected_revision);
    state ← rt (journal_for (snap_state snapshot) validated current interaction_request);
    state ← rt (with_domain (dict_set state EXECUTION_CHECKPOINT_KEY (VDict validated)) (snap_state snapshot)
                  validated current sid retry fence);
    match retry, current with
    | true, Some c =>
        _ ← rt (ensure (py_eq (VDict state) (VDict (snap_state snapshot))) integrity);
        _ ← _verify_execution_fence fence;
        mret (c, snapshot)
    | _, _ =>
        persisted_snapshot ← prog_catch (runtime_save sid state (expected_or expected_revision snapshot) fence)
                               (λ e, throw (persist_error e));
        '(verified, persisted) ←
          prog_catch (verified ← runtime_load sid; persisted ← rt (current_checkpoint (snap_state verified));
                      mret (verified, persisted))
            (λ e, throw (verify_error e));
        match persisted with
        | None => throw (lost_write persistence sid persisted_snapshot verified)
        | Some c =>
            if negb (py_eq (get c "checkpoint_id") (get validated "checkpoint_id"))
            then throw (lost_write persistence sid persisted_snapshot verified)
            else
              _ ← rt (match interaction_request with
                      | Some request => verify_request request (snap_state verified) validated
                      | None => Ok tt
                      end);
              mret (c, persisted_snapshot)
        end
    end.

Definition save_execution_checkpoint (sid : pystr) (checkpoint : pyval)
    (interaction_request : option (bound InteractionRequest)) (fence : option ExecutionFence) : P pydict :=
  '(persisted, _) ← save_execution_checkpoint_snapshot sid checkpoint interaction_request None fence;
  mret persisted.

(** ** Clearing a checkpoint *)

(** The journal that was read back has the interaction applied and nothing pending. *)
Definition verify_applied (iid : pystr) (state : pydict) : RT unit :=
  match validate_interaction_journal (lookup state INTERACTION_JOURNAL_KEY) with
  | Err _ => Err persistence
  | Ok j =>
      ensure (bool_decide (active_id j = None) &&
              match find_entry (entries j) iid with
              | Some e => match e_application e with Some _ => true | None => false end
              | None => false
              end) persistence
  end.

Definition clear_execution_checkpoint_snapshot (sid : pystr) (expected_checkpoint_id : option pystr)
    (expected_revision : option Z) (fence : option ExecutionFence) : P (bool * SessionSnapshot) :=
  if negb (nonempty sid) then mret (false, empty_snapshot)
  else
    snapshot ← runtime_load sid;
    _ ← rt (_ensure_expected_revision snapshot sid expected_revision);
    match dict_get (snap_state snapshot) EXECUTION_CHECKPOINT_KEY with
    | None => _ ← _verify_execution_fence fence; mret (false, snapshot)
    | Some raw =>
        current ← rt (validate_checkpoint raw);
        _ ← rt (ensure (match expected_checkpoint_id with
                        | Some id => negb (nonempty id) || py_eq (get current "checkpoint_id") (VStr id)
                        | None => true
                        end) incompatible);
        '(applied, state) ← rt (apply_checkpoint_interaction_receipt py_str (snap_state snapshot) current
                                  (str_or_empty py_str (get current "checkpoint_id")));
        let iid := match get current "interaction_ref" with
                   | VDict ref => str_or_empty py_str (get ref "interaction_id")
                   | _ => []
                   end in
        persisted ← prog_catch (runtime_save sid (without_checkpoint state) (expected_or expected_revision snapshot) fence)
                      (λ e, throw (persist_error e));
        verified ← runtime_load sid;
        match dict_get (snap_state verified) EXECUTION_CHECKPOINT_KEY with
        | Some _ => throw (lost_write persistence sid persisted verified)
        | None =>
            _ ← rt (if (applied : bool) then verify_applied iid (snap_state verified) else Ok tt);
            mret (true, persisted)
        end
    end.

Definition clear_execution_checkpoint (sid : pystr) (expected_checkpoint_id : option pystr)
    (fence : option ExecutionFence) : P bool :=
  '(cleared, _) ← clear_execution_checkpoint_snapshot sid expected_checkpoint_id None fence;
  mret cleared.
End runtime.
Arguments rt {S A} r.
