(* ===== verification/InteractionRuntime.v ===== *)
(** * Answers that survive (src/unchain/interaction/runtime.py)

    The request of a waiting run is in the session document; this facade records the one
    answer to it, cancels it, and hands the answer to the worker that resumes.  The
    operations are programs of store calls, as in [CheckpointRuntime]. *)

From S2P Require Import Prelude PyVal Execution SessionStore Revision Interaction Checkpoint CheckpointRuntime HumanInput.
Local Open Scope Z_scope.

(** ** What an answer looks like *)

Definition HUMAN_INPUT_RESPONSE_CONTRACT : pyval :=
  VDict [field "type" (VStr (u "object"));
    field "properties" (VDict [
      field "request_id" (VDict [field "type" (VStr (u "string"))]);
      field "selected_values" (VDict [field "type" (VStr (u "array"));
        field "items" (VDict [field "type" (VStr (u "string"))])]);
      field "other_text" (VDict [field "type" (VList [VStr (u "string"); VStr (u "null")])])]);
    field "required" (VList [VStr (u "request_id"); VStr (u "selected_values"); VStr (u "other_text")]);
    field "additionalProperties" (VBool false)].

Definition TOOL_APPROVAL_RESPONSE_CONTRACT : pyval :=
  VDict [field "type" (VStr (u "object"));
    field "properties" (VDict [
      field "approved" (VDict [field "type" (VStr (u "boolean"))]);
      field "modified_arguments" (VDict [field "type" (VList [VStr (u "object"); VStr (u "null")])]);
      field "reason" (VDict [field "type" (VStr (u "string"))])]);
    field "required" (VList [VStr (u "approved"); VStr (u "modified_arguments"); VStr (u "reason")]);
    field "additionalProperties" (VBool false)].

Definition MAX_BUDGET_RESPONSE_CONTRACT : pyval :=
  VDict [field "type" (VStr (u "object"));
    field "properties" (VDict [
      field "approved" (VDict [field "type" (VStr (u "boolean"))]);
      field "extra_iterations" (VDict [field "type" (VStr (u "integer")); field "minimum" (VInt 0)])]);
    field "required" (VList [VStr (u "approved"); VStr (u "extra_iterations")]);
    field "additionalProperties" (VBool false)].

Definition response_contract_for_kind (k : pystr) : RT pyval :=
  if bool_decide (k = u "human_input") then Ok HUMAN_INPUT_RESPONSE_CONTRACT
  else if bool_decide (k = u "tool_approval") then Ok TOOL_APPROVAL_RESPONSE_CONTRACT
  else if bool_decide (k = u "max_budget") then Ok MAX_BUDGET_RESPONSE_CONTRACT
  else Err (RInteraction InteractionIntegrityError).

(** [ToolConfirmationResponse]; the fields are not checked when it is made. *)
Record ToolConfirmationResponse : Type := mkConfirmation {
  tc_approved : pyval;
  tc_modified_arguments : pyval;
  tc_reason : pyval;
}.

(** An answer as it comes in: data, or an object of one of the two classes. *)
Inductive raw_answer : Type :=
| AnswerValue (v : pyval)
| AnswerConfirmation (c : ToolConfirmationResponse)
| AnswerHuman (r : HumanInputResponse).

(** [ToolConfirmationResponse.from_raw] of an answer that passed the class check. *)
Definition confirmation_from_raw (answer : raw_answer) : RT ToolConfirmationResponse :=
  match answer with
  | AnswerConfirmation c => Ok c
  | AnswerValue (VBool b) => Ok (mkConfirmation (VBool b) VNone (VStr []))
  | AnswerValue (VDict d) =>
      Ok (mkConfirmation (get_or d "approved" (VBool true)) (get d "modified_arguments") (get_or d "reason" (VStr [])))
  | _ => Err RValueError
  end.

Definition approval_dict (approved : bool) (modified_arguments : pyval) (reason_ : pystr) : pyval :=
  VDict [field "approved" (VBool approved); field "modified_arguments" modified_arguments;
         field "reason" (VStr reason_)].

Definition _normalize_tool_approval_response (answer : raw_answer) : RT pyval :=
  parsed ← confirmation_from_raw answer;
  match tc_approved parsed, tc_modified_arguments parsed, tc_reason parsed with
  | VBool approved, VNone as m, VStr reason_ | VBool approved, VDict _ as m, VStr reason_ =>
      Ok (approval_dict approved m reason_)
  | _, _, _ => Err RValueError
  end.

Definition of_human {A} (r : HI A) : RT A := match r with Ok a => Ok a | Err _ => Err RValueError end.

Definition _normalize_human_input_response (request : InteractionRequest) (answer : raw_answer) : RT pyval :=
  human_request ← of_human (human_request_from_dict (payload request));
  match answer with
  | AnswerConfirmation _ => Err RValueError
  | AnswerValue v => r ← of_human (response_from_raw v human_request); Ok (response_to_dict r)
  | AnswerHuman r => r ← of_human (response_from_raw (response_to_dict r) human_request); Ok (response_to_dict r)
  end.

Definition budget_dict (approved : bool) (extra : Z) : pyval :=
  VDict [field "approved" (VBool approved); field "extra_iterations" (VInt extra)].

Definition _normalize_max_budget_response (request : InteractionRequest) (answer : raw_answer) : RT pyval :=
  '(approved, raw_extra) ← match answer with
                           | AnswerValue (VBool b) => Ok (VBool b, VNone)
                           | AnswerValue (VDict d) => Ok (get_or d "approved" (VBool false), get d "extra_iterations")
                           | _ => Err RValueError
                           end;
  match approved with
  | VBool false => Ok (budget_dict false 0)
  | VBool true =>
      let default_extra := match payload request with
                           | VDict p => get_or p "suggested_extra_iterations" (VInt 1)
                           | _ => VInt 1
                           end in
      match exact_int (match raw_extra with VNone => default_extra | v => v end) with
      | Some extra => if extra <? 1 then Err RValueError else Ok (budget_dict true extra)
      | None => Err RValueError
      end
  | _ => Err RValueError
  end.

Definition normalize_interaction_response (request : bound InteractionRequest) (answer : raw_answer) : RT pyval :=
  r ← raises (request_from_dict request);
  contract ← response_contract_for_kind (kind r);
  digest ← raises (_digest contract);
  _ ← ensure (bool_decide (schema_digest r = digest)) (RInteraction InteractionIntegrityError);
  if bool_decide (kind r = u "human_input") then _normalize_human_input_response r answer
  else if bool_decide (kind r = u "tool_approval") then _normalize_tool_approval_response answer
  else if bool_decide (kind r = u "max_budget") then _normalize_max_budget_response r answer
  else Err (RInteraction InteractionIntegrityError).

(** ** What is known of one interaction *)

Record DurableInteractionSnapshot : Type := mkDurableInteraction {
  di_request : InteractionRequest;
  di_checkpoint_id : pystr;
  di_receipt : option InteractionReceipt;
  di_application : option application;
  di_session_snapshot : SessionSnapshot;
}.

Definition di_response (s : DurableInteractionSnapshot) : option pyval := response <$> di_receipt s.

Definition not_pending : rterror := RInteraction InteractionNotPendingError.

Definition require_unapplied_callback_receipt (s : DurableInteractionSnapshot) : RT DurableInteractionSnapshot :=
  match di_receipt s, di_application s with
  | Some _, None => Ok s
  | _, _ => Err not_pending
  end.

Definition is_cancelled (e : rterror) : bool :=
  match e with RStore (ELease ExecutionCancelledError _ _ _ _) => true | _ => false end.

Definition is_conflict (e : rterror) : bool :=
  match e with RStore (ERevisionConflict _ _ _) => true | _ => false end.

Definition cancelled (c : ExecutionCancellation) : rterror :=
  RStore (ELease ExecutionCancelledError (or_else (reason c) (u "execution was cancelled"))
            (Some (cancel_execution_id c)) (Some (cancel_owner_id c)) (cancel_fencing_token c)).

(** The interaction of a journal that [_load] looks at. *)
Definition resolve_id (wanted : option pystr) (j : journal) : option pystr :=
  match wanted with
  | Some ((_ :: _) as id) => Some id
  | _ => active_id j
  end.

(** What [_load] makes of a session document. *)
Definition interaction_of (snapshot : SessionSnapshot) (wanted : option pystr) (require_active : bool)
    : RT DurableInteractionSnapshot :=
  j ← raises (validate_interaction_journal (lookup (snap_state snapshot) INTERACTION_JOURNAL_KEY));
  match resolve_id wanted j with
  | None => Err not_pending
  | Some id =>
      _ ← ensure (nonempty id && (negb require_active || bool_decide (active_id j = Some id))) not_pending;
      match find_entry (entries j) id with
      | None => Err not_pending
      | Some e =>
          request ← raises (request_from_dict (BRaw (VDict (request_dict (e_request e)))));
          receipt ← match e_receipt e with
                    | Some c =>
                        r ← raises (receipt_from_dict (BRaw (VDict (receipt_dict c))) (Some (BObject request)));
                        Ok (Some r)
                    | None => Ok None
                    end;
          Ok (mkDurableInteraction request (e_checkpoint_id e) receipt (e_application e) snapshot)
      end
  end.

Section facade.
Context {S : Type}.
Variable py_str : pyval → pystr.
Variable other_key : pykey → option pystr.
Variable store : durable_store S.

Abbreviation P := (prog S).

(** The same code as [_verify_execution_fence]. *)
Definition _verify_fence (fence : option ExecutionFence) : P unit :=
  match fence with
  | None => mret tt
  | Some f =>
      match ds_verify_lease store with
      | None => throw (type_error "execution fence requires a lease-aware session store")
      | Some verify_lease => call (verify_lease (fence_execution_id f) (fence_owner_id f) (fence_token f))
      end
  end.

Definition reconcile (sid : pystr) : P (SessionSnapshot * option ExecutionCancellation) :=
  reconcile_cancelled_execution_checkpoint py_str other_key store sid cancelled_tree.

Definition _load (sid : pystr) (wanted : option pystr) (require_active reconcile_cancelled : bool)
    : P DurableInteractionSnapshot :=
  if negb (nonempty (strip sid)) then throw not_pending
  else
    snapshot ← (if reconcile_cancelled then
                  '(snapshot, cancellation) ← reconcile sid;
                  match cancellation with Some c => throw (cancelled c) | None => mret snapshot end
                else runtime_load store sid);
    rt (interaction_of snapshot wanted require_active).

Definition load (sid : pystr) (wanted : option pystr) (require_active : bool) : P DurableInteractionSnapshot :=
  _load sid wanted require_active true.

Definition load_active (sid : pystr) : P DurableInteractionSnapshot := load sid None true.

(** [except ExecutionCancelledError: reconcile; raise] *)
Definition on_cancel {A} (sid : pystr) (p : P A) : P A :=
  prog_catch p (λ e, if is_cancelled e then _ ← reconcile sid; throw e else throw e).

(** The answer is durable: check the fence and return what was read. *)
Definition accept (sid : pystr) (fence : option ExecutionFence) (s : DurableInteractionSnapshot)
    : P DurableInteractionSnapshot :=
  _ ← on_cancel sid (_verify_fence fence); mret s.

Definition answered_with (s : DurableInteractionSnapshot) (normalized : pyval) : bool :=
  match di_receipt s with Some c => py_eq (response c) normalized | None => false end.

(** The journal already has this very receipt. *)
Definition unchanged_snapshot (current : DurableInteractionSnapshot) (j : journal) (iid : pystr)
    : RT DurableInteractionSnapshot :=
  match find_entry (entries j) iid with
  | None => Err RKeyError
  | Some e =>
      match e_receipt e with
      | None => Err (RInteraction InteractionIntegrityError)
      | Some c =>
          r ← raises (receipt_from_dict (BRaw (VDict (receipt_dict c))) (Some (BObject (di_request current))));
          Ok (mkDurableInteraction (di_request current) (di_checkpoint_id current) (Some r) (e_application e)
                (di_session_snapshot current))
      end
  end.

(** After the write was refused: the answer counts when the winner wrote the same. *)
Definition after_conflict (sid iid : pystr) (normalized : pyval) (fence : option ExecutionFence) (e : rterror)
    : P DurableInteractionSnapshot :=
  winner ← load sid (Some iid) false;
  if answered_with winner normalized then accept sid fence winner else throw e.

(** [now] is the reading of the clock. *)
Definition record_receipt (sid iid : pystr) (answer : raw_answer) (submitted_by : pystr) (now : Z)
    (expected_revision : option Z) (fence : option ExecutionFence) : P DurableInteractionSnapshot :=
  current ← load sid (Some iid) false;
  let snapshot := di_session_snapshot current in
  effective ← rt (resolve_interaction_execution_fence py_str other_key sid (di_checkpoint_id current) snapshot fence);
  normalized ← rt (normalize_interaction_response (BObject (di_request current)) answer);
  if answered_with current normalized then accept sid effective current
  else
    receipt ← rt (raises (build_interaction_receipt (BObject (di_request current)) normalized (VStr submitted_by) (VInt now)));
    j ← rt (raises (validate_interaction_journal (lookup (snap_state snapshot) INTERACTION_JOURNAL_KEY)));
    updated ← rt (raises (record_interaction_receipt (VDict (journal_dict j)) (BObject receipt)));
    if py_eq (VDict (journal_dict updated)) (VDict (journal_dict j)) then
      _ ← on_cancel sid (_verify_fence effective);
      rt (unchanged_snapshot current j iid)
    else
      _ ← rt (_ensure_expected_revision snapshot sid expected_revision);
      outcome ← prog_catch
        (persisted ← save_interaction_session_state py_str other_key store sid
           (dict_set (snap_state snapshot) INTERACTION_JOURNAL_KEY (VDict (journal_dict updated)))
           (di_checkpoint_id current) snapshot (expected_or expected_revision snapshot) fence;
         mret (inl persisted))
        (λ e, if is_cancelled e then _ ← reconcile sid; throw e
              else if is_conflict e then winner ← after_conflict sid iid normalized effective e; mret (inr winner)
              else throw e);
      match outcome with
      | inr winner => mret winner
      | inl persisted =>
          verified ← load sid (Some iid) false;
          match di_receipt verified with
          | Some c =>
              if bool_decide (receipt_id c = receipt_id receipt) then mret verified
              else throw (lost_write (RInteraction InteractionIntegrityError) sid persisted (di_session_snapshot verified))
          | None =>
              throw (lost_write (RInteraction InteractionIntegrityError) sid persisted (di_session_snapshot verified))
          end
      end.

(** [expected_interaction_id] after its checks *)
Definition wanted_interaction (id : option pystr) : RT (option pystr) :=
  match id with
  | None => Ok None
  | Some s => if nonempty (strip s) then Ok (Some (strip s)) else Err RValueError
  end.

(** The document in which the active interaction is answered by its cancellation,
    unless it has an answer, and applied, without the checkpoint. *)
Definition cancel_state (current : DurableInteractionSnapshot) (source_run : pystr) (reason_ submitted_by : pystr)
    (now : Z) : RT pydict :=
  let state := snap_state (di_session_snapshot current) in
  match lookup state EXECUTION_CHECKPOINT_KEY with
  | VDict raw =>
      checkpoint ← validate_execution_checkpoint py_str other_key (VDict raw);
      _ ← ensure (py_eq (get checkpoint "source_run_id") (VStr source_run) &&
                  py_eq (get checkpoint "checkpoint_id") (VStr (di_checkpoint_id current)))
            (RInteraction InteractionIntegrityError);
      j ← raises (validate_interaction_journal (lookup state INTERACTION_JOURNAL_KEY));
      match find_entry (entries j) (interaction_id (di_request current)) with
      | None => Err (RInteraction InteractionIntegrityError)
      | Some e =>
          state ← match e_receipt e with
                  | Some _ => Ok state
                  | None =>
                      receipt ← raises (build_interaction_receipt (BObject (di_request current))
                                          (cancelled_response reason_) (VStr submitted_by) (VInt now));
                      j ← raises (record_interaction_receipt (VDict (journal_dict j)) (BObject receipt));
                      Ok (dict_set state INTERACTION_JOURNAL_KEY (VDict (journal_dict j)))
                  end;
          '(_, state) ← apply_checkpoint_interaction_receipt py_str state checkpoint
                          (cancelled_id (di_checkpoint_id current));
          Ok (without_checkpoint state)
      end
  | _ => Err (RInteraction InteractionIntegrityError)
  end.

(** The interaction was applied by this cancellation. *)
Definition cancelled_by (s : DurableInteractionSnapshot) (checkpoint_id : pystr) (otherwise foreign : rterror)
    : RT DurableInteractionSnapshot :=
  match di_application s with
  | None => Err otherwise
  | Some a => _ ← ensure (bool_decide (applied_checkpoint_id a = cancelled_id checkpoint_id)) foreign; Ok s
  end.

Definition cancel_pending (sid source_run : pystr) (expected_interaction : option pystr)
    (reason_ submitted_by : pystr) (now : Z) : P DurableInteractionSnapshot :=
  _ ← rt (ensure (nonempty (strip source_run)) RValueError);
  wanted ← rt (wanted_interaction expected_interaction);
  current ← _load sid None true false;
  let iid := interaction_id (di_request current) in
  let ckpt := di_checkpoint_id current in
  _ ← rt (ensure (bool_decide (source_run_id (di_request current) = strip source_run)) not_pending);
  _ ← rt (ensure (match wanted with Some w => bool_decide (iid = w) | None => true end) not_pending);
  state ← rt (cancel_state current (strip source_run) reason_ submitted_by now);
  outcome ← prog_catch
    (persisted ← save_interaction_session_state py_str other_key store sid state ckpt (di_session_snapshot current)
       (snap_revision (di_session_snapshot current)) None;
     mret (inl persisted))
    (λ e, if is_conflict e then
            winner ← _load sid (Some iid) false false;
            r ← rt (cancelled_by winner ckpt e not_pending);
            mret (inr r)
          else throw e);
  match outcome with
  | inr winner => mret winner
  | inl _ =>
      result ← _load sid (Some iid) false false;
      rt (cancelled_by result ckpt (RInteraction InteractionIntegrityError) (RInteraction InteractionIntegrityError))
  end.

Definition require_receipt (sid : pystr) (wanted : option pystr) : P DurableInteractionSnapshot :=
  current ← load sid wanted true;
  match di_receipt current with
  | None => throw not_pending
  | Some c =>
      normalized ← rt (normalize_interaction_response (BObject (di_request current)) (AnswerValue (response c)));
      _ ← rt (ensure (py_eq normalized (response c)) (RInteraction InteractionIntegrityError));
      mret current
  end.
End facade.

(** ** Normal forms *)

Lemma human_normal request answer n :
  _normalize_human_input_response request answer = Ok n →
  _normalize_human_input_response request (AnswerValue n) = Ok n.
Proof.
  unfold _normalize_human_input_response. intros (hr & Hhr & H)%result_bind_ok. rewrite Hhr. cbn [mbind result_bind].
  assert (∀ v, (r ← of_human (response_from_raw v hr); Ok (response_to_dict r)) = Ok n →
    (r ← of_human (response_from_raw n hr); Ok (response_to_dict r)) = Ok n) as Hagain; [|by destruct answer; eauto].
  intros v (r & Hr & [= <-])%result_bind_ok. destruct (response_from_raw v hr) as [r'|] eqn:E; [|done].
  injection Hr as <-. by rewrite (response_again _ _ _ E).
Qed.

Lemma approval_normal answer n :
  _normalize_tool_approval_response answer = Ok n → _normalize_tool_approval_response (AnswerValue n) = Ok n.
Proof.
  unfold _normalize_tool_approval_response at 1. intros (c & _ & H)%result_bind_ok.
  destruct (tc_approved c), (tc_modified_arguments c), (tc_reason c); simplify_eq/=; reflexivity.
Qed.

Lemma budget_normal request answer n :
  _normalize_max_budget_response request answer = Ok n → _normalize_max_budget_response request (AnswerValue n) = Ok n.
Proof.
  unfold _normalize_max_budget_response at 1. intros ([approved extra] & _ & H)%result_bind_ok.
  destruct approved as [|[]| | | | | |]; simplify_eq; [|reflexivity].
  destruct (exact_int _) as [z|]; [|done]. destruct (z <? 1) eqn:Hz; [done|]. injection H as <-.
  change (match (if z <? 1 then Err RValueError else Ok (budget_dict true z)) : RT pyval with r => r end = Ok (budget_dict true z)).
  by rewrite Hz.
Qed.

(** C20. Answers are kept in a normal form: what [normalize_interaction_response] makes of
    an answer to a request, whatever its kind and however the answer came in, is accepted
    again for the same request and unchanged, so that the check of [require_receipt] on
    a recorded answer passes as long as the response contract of the run time has not changed. *)
Theorem normalized_answer_is_canonical (request : InteractionRequest) (answer : raw_answer) (n : pyval) :
  normalize_interaction_response (BObject request) answer = Ok n →
  normalize_interaction_response (BObject request) (AnswerValue n) = Ok n.
Proof.
  unfold normalize_interaction_response.
  intros (r & -> & (k & Hk & (d & Hd & ([] & Hs & H)%result_bind_ok)%result_bind_ok)%result_bind_ok)%result_bind_ok.
  cbn [mbind result_bind]. rewrite Hk. cbn [mbind result_bind]. rewrite Hd. cbn [mbind result_bind]. rewrite Hs.
  cbn [mbind result_bind]. clear Hs. revert H. case_bool_decide; [apply human_normal|]. case_bool_decide; [apply approval_normal|].
  case_bool_decide; [apply budget_normal|done].
Qed.
