(* ===== verification/InteractionRequests.v ===== *)
(** * Requests of a running kernel (src/unchain/interaction/requests.py)

    A run that stops for a decision builds a request bound to its session, its run and
    what the model saw: provider, model, instructions and the schema of the tool.  When
    the run is resumed the request is built again and compared.  A toolkit is given by
    what its tools answer ([Toolkit]). *)

From S2P Require Import Prelude PyVal Json ToolResults Interaction Checkpoint HumanInput InteractionRuntime.
Local Open Scope Z_scope.

(** [toolkit.get(name)] and [to_provider_json(provider)] of what it returns *)
Record Toolkit : Type := mkToolkit {
  toolkit_get : pystr → option (option pystr → RT pyval);
}.

Record ToolConfirmationRequest : Type := mkConfirmationRequest {
  cq_tool_name : pystr;
  cq_call_id : pystr;
  cq_arguments : pyval;
  cq_description : pystr;
  cq_interact_type : pystr;
  cq_interact_config : option pyval;
  cq_render_component : option pyval;
}.

Definition optional_field (name : string) (v : option pyval) : pydict :=
  match v with Some v => [field name v] | None => [] end.

Definition confirmation_request_to_dict (c : ToolConfirmationRequest) : pyval :=
  VDict ([field "type" (VStr (u "tool_confirmation_request")); field "tool_name" (VStr (cq_tool_name c));
          field "call_id" (VStr (cq_call_id c)); field "arguments" (cq_arguments c);
          field "description" (VStr (cq_description c))] ++
         (if bool_decide (cq_interact_type c = u "confirmation") then []
          else [field "interact_type" (VStr (cq_interact_type c))]) ++
         optional_field "interact_config" (cq_interact_config c) ++
         optional_field "render_component" (cq_render_component c)).

(** ** Building *)

Definition strict_json_digest (v : pyval) : RT pystr := raises (_digest v).

(** [f"{int(z)}"] *)
Definition printed (z : Z) : RT pystr :=
  match int_repr z with Some s => Ok s | None => Err RValueError end.

Definition _created_revision (state : run_state) : Z :=
  match exact_int (get (rs_memory_state state) "session_revision") with
  | Some z => if z <? 0 then 0 else z
  | None => 0
  end.

Fixpoint prompt_manifest (messages : list pyval) : RT (list pyval) :=
  match messages with
  | [] => Ok []
  | VDict m :: messages =>
      b ← in_texts (get m "role") [u "system"; u "developer"];
      rest ← prompt_manifest messages;
      Ok (if (b : bool) then VDict [field "role" (get m "role"); field "content" (get m "content")] :: rest else rest)
  | _ :: messages => prompt_manifest messages
  end.

Definition _prompt_manifest (state : run_state) : RT (list pyval) := prompt_manifest (rs_transcript state).

(** What is said of the tool *)
Definition tool_subject (provider : option pystr) (toolkit : option Toolkit) (tool_name : option pystr) : RT pydict :=
  match toolkit, tool_name with
  | Some t, Some name =>
      if nonempty name then
        schema ← match toolkit_get t name with
                 | Some to_provider_json => to_provider_json provider
                 | None => Ok (VDict [field "missing_tool" (VStr name)])
                 end;
        digest ← strict_json_digest schema;
        Ok [field "tool_name" (VStr name); field "tool_schema_digest" (VStr digest)]
      else Ok []
  | _, _ => Ok []
  end.

Definition build_runtime_schema_subject (state : run_state) (toolkit : option Toolkit) (tool_name : option pystr)
    (extra : pyval) : RT pyval :=
  manifest ← _prompt_manifest state;
  digest ← strict_json_digest (VList manifest);
  tool ← tool_subject (ps_provider (rs_provider state)) toolkit tool_name;
  Ok (VDict ([field "binding_version" (VInt 1);
              field "provider" (VStr (text_or (ps_provider (rs_provider state))));
              field "model" (VStr (text_or (ps_model (rs_provider state))));
              field "prompt_digest" (VStr digest)] ++ tool ++
             match extra with VDict _ => [field "extra" extra] | _ => [] end)).

Definition kernel_run (run_id : pystr) : pystr := or_else run_id (u "kernel").

Definition build_human_interaction_request (state : run_state) (request : HumanInputRequest) (run_id : pystr)
    : RT InteractionRequest :=
  iteration ← printed (rs_iteration state);
  contract ← response_contract_for_kind (u "human_input");
  subject ← build_runtime_schema_subject state None None VNone;
  raises (build_interaction_request (VStr (text_or (rs_session_id state))) (VStr (u "human_input"))
    (VStr (kernel_run run_id)) (VStr (u "human:" ++ hr_request_id request ++ u ":" ++ iteration))
    (human_request_to_dict request) contract (VInt (_created_revision state)) subject).

Definition build_tool_approval_interaction_request (state : run_state) (toolkit : Toolkit) (tool_call : ToolCall)
    (confirmation_request : ToolConfirmationRequest) (run_id : pystr)
    (source_request : option (bound InteractionRequest)) (extra_subject : pyval) : RT InteractionRequest :=
  stored ← match source_request with
           | Some raw => r ← raises (request_from_dict raw); Ok (Some r)
           | None => Ok None
           end;
  occurrence' ← match stored with
                | Some r => Ok (occurrence r)
                | None => iteration ← printed (rs_iteration state);
                          Ok (u "tool:" ++ tc_call_id tool_call ++ u ":" ++ iteration)
                end;
  contract ← response_contract_for_kind (u "tool_approval");
  subject ← build_runtime_schema_subject state (Some toolkit) (Some (tc_name tool_call)) extra_subject;
  raises (build_interaction_request
    (VStr match stored with Some r => session_id r | None => text_or (rs_session_id state) end)
    (VStr (u "tool_approval"))
    (VStr match stored with Some r => source_run_id r | None => kernel_run run_id end)
    (VStr occurrence') (confirmation_request_to_dict confirmation_request) contract
    (VInt match stored with Some r => created_revision r | None => _created_revision state end) subject).

Definition build_max_budget_interaction_request (state : run_state) (run_id : pystr) (effective_max : Z)
    (decision_payload : pyval) : RT InteractionRequest :=
  let current_max := Z.max 1 effective_max in
  iteration ← printed (rs_iteration state);
  maximum ← printed current_max;
  contract ← response_contract_for_kind (u "max_budget");
  subject ← build_runtime_schema_subject state None None VNone;
  raises (build_interaction_request (VStr (text_or (rs_session_id state))) (VStr (u "max_budget"))
    (VStr (kernel_run run_id)) (VStr (u "max:" ++ iteration ++ u ":" ++ maximum))
    (VDict [field "decision" decision_payload; field "effective_max" (VInt current_max);
            field "suggested_extra_iterations" (VInt current_max)])
    contract (VInt (_created_revision state)) subject).

(** ** Comparing *)

Definition ensure_interaction_binding_matches (stored current : bound InteractionRequest) : RT unit :=
  stored ← raises (request_from_dict stored);
  current ← raises (request_from_dict current);
  ensure (bool_decide (interaction_id stored = interaction_id current) &&
          bool_decide (request_digest stored = request_digest current)) (RInteraction InteractionIntegrityError).

Section matching.
Variable py_str : pyval → pystr.

(** Provider and model that a document names *)
Definition binding_of (d : pyval) : list (pystr * pystr) :=
  match d with
  | VDict d => [(str_or_empty py_str (get d "provider"), str_or_empty py_str (get d "model"))]
  | _ => []
  end.

Definition ensure_interaction_runtime_matches (stored : bound InteractionRequest) (provider model : option pystr)
    (checkpoint continuation : pyval) : RT unit :=
  request ← raises (request_from_dict stored);
  let subject := match subject request with VDict d => d | _ => [] end in
  let expected := (str_or_empty py_str (get subject "provider"), str_or_empty py_str (get subject "model")) in
  let bindings := (text_or provider, text_or model) :: binding_of checkpoint ++ binding_of continuation in
  ensure (forallb (λ b, bool_decide (b = expected)) bindings) (RInteraction InteractionIntegrityError).
End matching.

(** ** What a built request says *)

Lemma make_request_fields sv iid sid k srid occ p rc sd rd cr sub r :
  make_InteractionRequest sv iid sid k srid occ p rc sd rd cr sub = Ok r →
  session_id r = strip (text_of sid) ∧ source_run_id r = strip (text_of srid) ∧ occurrence r = strip (text_of occ) ∧
  check_kind k = Ok (kind r) ∧ _non_negative_int cr = Ok (created_revision r).
Proof.
  intros H. unfold make_InteractionRequest in H. binds H. injection H as <-.
  cbn [session_id source_run_id occurrence kind created_revision]. split_and!; try done; by apply text_stripped.
Qed.

Lemma built_request_fields s k r occ p rc cr sub q :
  build_interaction_request (VStr s) (VStr k) (VStr r) (VStr occ) p rc (VInt cr) sub = Ok q →
  wf_request q ∧ session_id q = strip s ∧ kind q = k ∧ source_run_id q = strip r ∧ created_revision q = cr ∧
  occurrence q = strip occ.
Proof.
  intros H. pose proof (build_request_facts _ _ _ _ _ _ _ _ _ H) as [Hwf _]. split; [done|].
  unfold build_interaction_request, _request_core in H. binds H.
  repeat match goal with E : _ ≫= _ = Ok _ |- _ => progress binds E end. simplify_eq.
  apply make_request_fields in H as (Hs & Hr & Ho & Hk & Hc).
  repeat match goal with E : _required_text _ = Ok _ |- _ => apply text_stripped in E; cbn [text_of] in E; subst end.
  split_and!.
  - rewrite Hs. apply strip_idemp.
  - match goal with E : check_kind (VStr k) = Ok ?x |- _ =>
      assert (check_kind (VStr x) = Ok (kind q)) as Hk' by exact Hk; clear Hk; unfold check_kind in E, Hk' end.
    repeat case_bool_decide; by simplify_eq.
  - rewrite Hr. apply strip_idemp.
  - match goal with E : _non_negative_int (VInt cr) = Ok ?x |- _ =>
      assert (_non_negative_int (VInt x) = Ok (created_revision q)) as Hc' by exact Hc; clear Hc;
      unfold _non_negative_int in E, Hc'; cbn [exact_int] in E, Hc' end.
    repeat case_match; by simplify_eq.
  - rewrite Ho. apply strip_idemp.
Qed.

(** Building again from the fields of a request gives that request. *)
Lemma built_request_again s k r occ p rc cr sub q :
  build_interaction_request (VStr s) (VStr k) (VStr r) (VStr occ) p rc (VInt cr) sub = Ok q →
  build_interaction_request (VStr (session_id q)) (VStr k) (VStr (source_run_id q)) (VStr (occurrence q)) p rc
    (VInt (created_revision q)) sub = Ok q.
Proof.
  intros H. destruct (built_request_fields _ _ _ _ _ _ _ _ _ H) as (_ & -> & _ & -> & -> & ->).
  rewrite <-H. unfold build_interaction_request.
  assert (∀ t, _required_text (VStr (strip t)) = _required_text (VStr t)) as Htext
    by (intros t; unfold _required_text; by rewrite strip_idemp).
  by rewrite !Htext.
Qed.

(** ** A run that stops can be saved *)

(** [q] was built for [state]: a question, an approval or a decision on the budget. *)
Definition asks (state : run_state) (run_id : pystr) (q : InteractionRequest) : Prop :=
  (∃ request, build_human_interaction_request state request run_id = Ok q) ∨
  (∃ toolkit call c extra, build_tool_approval_interaction_request state toolkit call c run_id None extra = Ok q) ∨
  (∃ effective_max decision, build_max_budget_interaction_request state run_id effective_max decision = Ok q).

Lemma asks_fields state run_id q :
  asks state run_id q →
  wf_request q ∧ session_id q = strip (text_or (rs_session_id state)) ∧ source_run_id q = strip (kernel_run run_id) ∧
  created_revision q = _created_revision state.
Proof.
  intros [(request & H)|[(toolkit & call & c & extra & H)|(m & decision & H)]].
  - unfold build_human_interaction_request in H. binds H. apply raises_ok, built_request_fields in H. naive_solver.
  - unfold build_tool_approval_interaction_request in H. cbn [mbind result_bind] in H. binds H.
    apply raises_ok, built_request_fields in H. naive_solver.
  - unfold build_max_budget_interaction_request in H. binds H. apply raises_ok, built_request_fields in H. naive_solver.
Qed.

(** The run with the request in its suspend payload *)
Definition paused (state : run_state) (q : InteractionRequest) : run_state :=
  mkRunState (rs_transcript state) (rs_iteration state) (rs_provider state) (rs_tokens state) (rs_session_id state)
    (Some (BObject q)) (rs_reasoning_items state) (rs_human_input_request state) (rs_last_continuation state)
    (rs_next_model_input state) (rs_memory_state state) (rs_workspace_change_state state) (rs_component_state state).

(** The request of a run is accepted by the checkpoint of that run exactly when session
    and run have no space around their names and the revision of the session is not
    negative; the status must be one that waits for this kind. *)
Theorem asked_request_is_bound (state : run_state) (status run_id : pystr) (q : InteractionRequest) :
  asks state run_id q →
  match expected_kind status with Some k => kind q = k | None => True end →
  _checkpoint_interaction_request (paused state q) status run_id (text_or (rs_session_id state)) (base_revision state)
    = Ok (Some q) ↔
  strip (text_or (rs_session_id state)) = text_or (rs_session_id state) ∧
  strip (kernel_run run_id) = kernel_run run_id ∧
  match base_revision state with Some z => 0 ≤ z | None => True end.
Proof.
  intros (Hwf & Hs & Hr & Hc)%asks_fields Hk. unfold _checkpoint_interaction_request, paused.
  cbn [rs_interaction_request]. rewrite (request_from_dict_object q) by done. cbn [on_interaction_error mbind result_bind].
  rewrite Hs, Hr, Hc. fold (kernel_run run_id).
  assert (match base_revision state with Some base => bool_decide (_created_revision state = base) | None => true end = true
          ↔ match base_revision state with Some z => 0 ≤ z | None => True end) as Hrev.
  { unfold _created_revision, base_revision. destruct (exact_int _) as [z|]; [|done].
    rewrite bool_decide_eq_true. destruct (Z.ltb_spec z 0); lia. }
  assert (match expected_kind status with Some k => bool_decide (kind q = k) | None => true end = true) as ->
    by (destruct (expected_kind status); [by apply bool_decide_eq_true|done]).
  split.
  - intros ([] & H1%ensure_ok & ([] & H2%ensure_ok & ([] & H3%ensure_ok & _)%result_bind_ok)%result_bind_ok)%result_bind_ok.
    apply bool_decide_eq_true in H1, H2. split_and!; [done|done|by apply Hrev].
  - intros (H1 & H2 & H3%Hrev). rewrite H1, H2, H3, !bool_decide_eq_true_2 by done. done.
Qed.

(** ** A run that is resumed *)

(** An approval that is built again from the stored request, for any run and at any
    later iteration and revision, is the stored request as long as the confirmation and
    what the model sees are the same; it passes the comparison, which holds of two valid
    requests just when they have the same identity and digest. *)
Theorem approval_is_recognised (state state' : run_state) (toolkit toolkit' : Toolkit) (call call' : ToolCall)
    (c : ToolConfirmationRequest) (run_id run_id' : pystr) (extra extra' : pyval) (q : InteractionRequest) :
  build_tool_approval_interaction_request state toolkit call c run_id None extra = Ok q →
  build_runtime_schema_subject state' (Some toolkit') (Some (tc_name call')) extra' =
  build_runtime_schema_subject state (Some toolkit) (Some (tc_name call)) extra →
  build_tool_approval_interaction_request state' toolkit' call' c run_id' (Some (BObject q)) extra' = Ok q ∧
  ∀ q', wf_request q' →
    ensure_interaction_binding_matches (BObject q) (BObject q') = Ok tt ↔
    interaction_id q = interaction_id q' ∧ request_digest q = request_digest q'.
Proof.
  intros H Hsub.
  assert (wf_request q) as Hwf by (apply (asks_fields state run_id); right; left; eauto). split.
  - unfold build_tool_approval_interaction_request in *. rewrite (request_from_dict_object q) by done.
    cbn [raises mbind result_bind] in *. rewrite Hsub. binds H. apply raises_ok, built_request_again in H.
    match goal with E : build_runtime_schema_subject _ _ _ _ = _ |- _ => rewrite E end.
    match goal with E : response_contract_for_kind _ = _ |- _ => rewrite E end.
    cbn [mbind result_bind]. by rewrite H.
  - intros q' Hwf'. unfold ensure_interaction_binding_matches. rewrite !request_from_dict_object by done.
    cbn [raises mbind result_bind]. rewrite ensure_ok, andb_true_iff, !bool_decide_eq_true. done.
Qed.
