(* ===== verification/DurableSafety.v ===== *)
(** * Many workers on one session document

    The programs of [CheckpointRuntime] and [InteractionRuntime] run side by side, in
    several processes, with a store that makes each of its calls atomic.  Stores are known
    by the laws of a class.  The reasoning is rely and guarantee: whatever the other
    workers do keeps revisions growing and the interaction journal append-only, and so
    does every call of a program. *)

From S2P Require Import Prelude PyVal Execution SessionStore Revision Interaction Checkpoint CheckpointRuntime HumanInput InteractionRuntime.
Local Open Scope Z_scope.

(** ** Documents *)

Definition journal_raw (d : pydict) : pyval := lookup d INTERACTION_JOURNAL_KEY.

(** The journal of [d] lives on in [d']. *)
Definition doc_evolves (d d' : pydict) : Prop :=
  ∀ j, validate_interaction_journal (journal_raw d) = Ok j →
    ∃ j', validate_interaction_journal (journal_raw d') = Ok j' ∧ journal_evolves j j'.

#[export] Instance doc_evolves_preorder : PreOrder doc_evolves.
Proof.
  split.
  - intros d j Hj. exists j. split; [done|reflexivity].
  - intros d1 d2 d3 H1 H2 j (j2 & (j3 & Hj3 & Hev)%H2 & Hev')%H1. exists j3. split; [done|by etrans].
Qed.

(** What a store object must do with its documents: reading leaves them alone, a
    conditional write happens at the expected revision only and raises it, and a call that
    raises has written nothing. *)
Class DocumentStore {S : Type} (store : durable_store S) : Type := {
  doc : S → pystr → pydict;
  rev : S → pystr → Z;
  untouched (s s' : S) : Prop := ∀ sid, doc s' sid = doc s sid ∧ rev s' sid = rev s sid;
  written (sid : pystr) (st : pydict) (s s' : S) : Prop :=
    doc s' sid = st ∧ rev s sid < rev s' sid ∧
    ∀ sid', sid' ≠ sid → doc s' sid' = doc s sid' ∧ rev s' sid' = rev s sid';
  load_law sid s :
    match load_session_snapshot (ds_session store) sid s with
    | (r, s') => untouched s s' ∧ ∀ snap, r = Ok snap → snap = mkSnapshot (doc s sid) (Some (rev s sid))
    end;
  save_law sid st e f s :
    match save_session_snapshot (ds_session store) sid (VDict st) (VInt <$> e) f s with
    | (Ok snap, s') => e = Some (rev s sid) ∧ written sid st s s' ∧ snap = mkSnapshot st (Some (rev s' sid))
    | (Err _, s') => untouched s s'
    end;
  not_cancelled_law save sid st e eid owner s :
    ds_save_not_cancelled store = Some save →
    match save sid st e eid owner s with
    | (Ok next, s') => e = rev s sid ∧ written sid st s s' ∧ next = VInt (rev s' sid)
    | (Err _, s') => untouched s s'
    end;
  cancelled_law save sid st e eid owner s :
    ds_save_cancelled store = Some save →
    match save sid st e eid owner s with
    | (Ok next, s') => e = rev s sid ∧ written sid st s s' ∧ next = VInt (rev s' sid)
    | (Err _, s') => untouched s s'
    end;
  load_cancellation_law load eid owner s :
    ds_load_cancellation store = Some load → untouched s (load eid owner s).2;
  verify_law verify eid owner token s :
    ds_verify_lease store = Some verify → untouched s (verify eid owner token s).2;
}.

Section rely.
Context {S : Type} {store : durable_store S} `{!DocumentStore store}.
Implicit Types (s : S) (sid : pystr).

(** What may happen to the documents over time. *)
Definition later (s s' : S) : Prop :=
  ∀ sid, rev s sid ≤ rev s' sid ∧ (rev s sid = rev s' sid → doc s' sid = doc s sid) ∧
         doc_evolves (doc s sid) (doc s' sid).

#[export] Instance later_preorder : PreOrder later.
Proof.
  split.
  - intros s sid. split_and!; [lia|done|reflexivity].
  - intros s1 s2 s3 H1 H2 sid. destruct (H1 sid) as (? & Hd1 & He1), (H2 sid) as (? & Hd2 & He2).
    split_and!; [lia| |by etrans]. intros. rewrite Hd2 by lia. apply Hd1. lia.
Qed.

Lemma untouched_later s s' : untouched s s' → later s s'.
Proof. intros H sid. destruct (H sid) as [-> ->]. split_and!; [lia|done|reflexivity]. Qed.

Lemma written_later sid st s s' : written sid st s s' → doc_evolves (doc s sid) st → later s s'.
Proof.
  intros (Hd & Hr & Ho) Hev sid'. destruct (decide (sid' = sid)) as [->|Hne].
  - split_and!; [lia|lia|by rewrite Hd].
  - destruct (Ho _ Hne) as [-> ->]. split_and!; [lia|done|reflexivity].
Qed.

(** ** Programs among others *)

(** From any moment after [s0], others interfering before each call, every call of the
    program is such a change and its result satisfies [Q], then and later. *)
Fixpoint safe {A} (p : prog S A) (s0 : S) (Q : RT A → S → Prop) : Prop :=
  match p with
  | Done r => ∀ s, later s0 s → Q r s
  | Call m k => ∀ s, later s0 s → match m s with (r, s') => later s s' ∧ safe (k r) s' Q end
  end.

Lemma safe_later {A} (p : prog S A) Q s0 s : later s0 s → safe p s0 Q → safe p s Q.
Proof. intros Hs. destruct p; simpl; intros H s' Hs'; apply H; by etrans. Qed.

Lemma safe_mono {A} (p : prog S A) (Q Q' : RT A → S → Prop) s0 :
  (∀ r s, later s0 s → Q r s → Q' r s) → safe p s0 Q → safe p s0 Q'.
Proof.
  revert s0. induction p as [r|B m k IH]; simpl; intros s0 HQ Hp s Hs.
  - apply HQ; [done|by apply Hp].
  - specialize (Hp s Hs). destruct (m s) as [r s']. destruct Hp as [Hl Hp]. split; [done|].
    apply IH; [|done]. intros r' s'' Hs'. apply HQ. etrans; [done|]. by etrans.
Qed.

Lemma safe_bind {A B} (p : prog S A) (f : A → prog S B) s0 Q :
  safe p s0 (λ r s, match r with Ok a => safe (f a) s Q | Err e => Q (Err e) s end) → safe (p ≫= f) s0 Q.
Proof.
  cbv [mbind prog_mbind]. revert s0. induction p as [[a|e]|C m k IH]; simpl; intros s0 Hp.
  - by apply Hp.
  - exact Hp.
  - intros s Hs. specialize (Hp s Hs). destruct (m s) as [r s']. destruct Hp. split; [done|by apply IH].
Qed.

Lemma safe_catch {A} (p : prog S A) h s0 Q :
  safe p s0 (λ r s, match r with Ok a => Q (Ok a) s | Err e => safe (h e) s Q end) → safe (prog_catch p h) s0 Q.
Proof.
  revert s0. induction p as [[a|e]|C m k IH]; simpl; intros s0 Hp.
  - exact Hp.
  - by apply Hp.
  - intros s Hs. specialize (Hp s Hs). destruct (m s) as [r s']. destruct Hp. split; [done|by apply IH].
Qed.

Lemma safe_call {A} (m : M S exn A) s0 (Q : RT A → S → Prop) :
  (∀ s, later s0 s → match m s with (r, s') => later s s' ∧ ∀ s'', later s' s'' → Q (of_store r) s'' end) →
  safe (call m) s0 Q.
Proof. intros H s Hs. specialize (H s Hs). by destruct (m s). Qed.

Lemma safe_done {A} (r : RT A) s0 (Q : RT A → S → Prop) : (∀ s, later s0 s → Q r s) → safe (Done r) s0 Q.
Proof. done. Qed.

(** Results only: errors are always possible. *)
Definition ok_post {A} (Q : A → S → Prop) (r : RT A) (s : S) : Prop :=
  match r with Ok a => Q a s | Err _ => True end.

Lemma ok_bind {A B} (p : prog S A) (f : A → prog S B) s0 Q :
  safe p s0 (ok_post (λ a s, safe (f a) s (ok_post Q))) → safe (p ≫= f) s0 (ok_post Q).
Proof. intros H. apply safe_bind. eapply safe_mono; [|exact H]. by intros [a|e]. Qed.

Lemma ok_catch {A} (p : prog S A) h s0 Q :
  safe p s0 (ok_post Q) → (∀ e s, later s0 s → safe (h e) s (ok_post Q)) → safe (prog_catch p h) s0 (ok_post Q).
Proof. intros H Hh. apply safe_catch. eapply safe_mono; [|exact H]. intros [a|e] s Hs; [done|]. by intros _; apply Hh. Qed.

Lemma ok_rt {A B} (r : RT A) (f : A → prog S B) s0 Q :
  (∀ a, r = Ok a → safe (f a) s0 (ok_post Q)) → safe (rt r ≫= f) s0 (ok_post Q).
Proof.
  intros Hok. apply ok_bind. destruct r as [a|e]; intros s Hs; [|done]. eapply safe_later; [exact Hs|by apply Hok].
Qed.

Lemma ok_rt_end {A} (r : RT A) s0 Q : (∀ a s, r = Ok a → later s0 s → Q a s) → safe (rt r) s0 (ok_post Q).
Proof. intros Hok s Hs. destruct r; [by apply Hok|done]. Qed.

Lemma ok_ret {A} (a : A) s0 (Q : A → S → Prop) : (∀ s, later s0 s → Q a s) → safe (mret a) s0 (ok_post Q).
Proof. done. Qed.

Lemma ok_throw {A} e s0 (Q : A → S → Prop) : safe (throw e) s0 (ok_post Q).
Proof. done. Qed.

Lemma ok_mono {A} (p : prog S A) (Q Q' : A → S → Prop) s0 :
  (∀ a s, later s0 s → Q a s → Q' a s) → safe p s0 (ok_post Q) → safe p s0 (ok_post Q').
Proof. intros H. apply safe_mono. intros [a|e] s Hs; simpl; [by apply H|done]. Qed.

(** ** Moments of a document *)

(** What was read is what the document was at some moment. *)
Definition seen (sid : pystr) (snap : SessionSnapshot) (s : S) : Prop :=
  ∃ s1, later s1 s ∧ snap = mkSnapshot (doc s1 sid) (Some (rev s1 sid)).

Lemma seen_later sid snap s s' : later s s' → seen sid snap s → seen sid snap s'.
Proof. intros Hs (s1 & Hs1 & ->). exists s1. split; [by etrans|done]. Qed.

Lemma seen_now sid s : seen sid (mkSnapshot (doc s sid) (Some (rev s sid))) s.
Proof. exists s. split; [reflexivity|done]. Qed.

(** A document that is still at the revision it was read at is still what was read. *)
Lemma seen_current sid snap s :
  seen sid snap s → snap_revision snap = Some (rev s sid) → snap_state snap = doc s sid.
Proof. intros (s1 & Hs1 & ->) [= Heq]. destruct (Hs1 sid) as (_ & Hd & _). by rewrite Hd. Qed.

Lemma seen_evolves sid snap s : seen sid snap s → doc_evolves (snap_state snap) (doc s sid).
Proof. intros (s1 & Hs1 & ->). apply (Hs1 sid). Qed.

Lemma seen_revision sid snap s : seen sid snap s → ∃ e, snap_revision snap = Some e.
Proof. intros (s1 & _ & ->). eauto. Qed.

Lemma ensured_expected sid snap expected s :
  seen sid snap s → _ensure_expected_revision snap sid expected = Ok tt →
  expected_or expected snap = snap_revision snap.
Proof.
  intros (e & He)%seen_revision. unfold _ensure_expected_revision, expected_or. rewrite He.
  destruct expected as [x|]; [|done]. intros H%ensure_ok%Z.eqb_eq. congruence.
Qed.

(** A conditional write of a document that grew out of the one that was read. *)
Lemma cas_later sid snap st s s' :
  seen sid snap s → snap_revision snap = Some (rev s sid) → doc_evolves (snap_state snap) st →
  written sid st s s' → later s s' ∧ seen sid (mkSnapshot st (Some (rev s' sid))) s'.
Proof.
  intros Hseen Hr Hev Hw. split.
  - eapply written_later; [exact Hw|]. by rewrite <-(seen_current _ _ _ Hseen Hr).
  - destruct Hw as [<- _]. apply seen_now.
Qed.

(** What was read since the moment [s0]. *)
Definition fresh (s0 : S) (sid : pystr) (snap : SessionSnapshot) (s : S) : Prop :=
  seen sid snap s ∧ doc_evolves (doc s0 sid) (snap_state snap).

Lemma fresh_later s0 sid snap s s' : later s s' → fresh s0 sid snap s → fresh s0 sid snap s'.
Proof. intros Hs [H1 H2]. split; [by eapply seen_later|done]. Qed.

Lemma fresh_since s0 s1 sid snap s : later s0 s1 → fresh s1 sid snap s → fresh s0 sid snap s.
Proof. intros Hs [H1 H2]. split; [done|]. etrans; [apply Hs|done]. Qed.

(** ** Loading and saving *)

Lemma runtime_load_safe sid s0 :
  nonempty sid = true → safe (runtime_load store sid) s0 (ok_post (fresh s0 sid)).
Proof.
  intros Hsid. unfold runtime_load. rewrite Hsid. cbn [negb]. apply safe_call. intros s Hs.
  assert (Hl := load_law sid s). destruct (load_session_snapshot (ds_session store) sid s) as [r s'].
  destruct Hl as [Hu%untouched_later Hr]. split; [done|]. intros s'' Hs''.
  destruct r as [snap|e]; simpl; [|done]. rewrite (Hr _ eq_refl). split; [|apply (Hs sid)].
  exists s. split; [by etrans|done].
Qed.

(** The document that was written. *)
Definition stored (sid : pystr) (st : pydict) (p : SessionSnapshot) (s : S) : Prop := seen sid p s ∧ snap_state p = st.

Lemma runtime_save_safe sid st snap fence s0 :
  seen sid snap s0 → doc_evolves (snap_state snap) st →
  safe (runtime_save store sid st (snap_revision snap) fence) s0 (ok_post (stored sid st)).
Proof.
  intros Hseen Hev. apply safe_call. intros s Hs. apply (seen_later _ _ _ _ Hs) in Hseen.
  assert (Hl := save_law sid st (snap_revision snap) fence s).
  destruct (save_session_snapshot _ _ _ _ _ s) as [[p|e] s']; [|by apply untouched_later in Hl].
  destruct Hl as (Hr & Hw & ->). destruct (cas_later _ _ _ _ _ Hseen Hr Hev Hw) as [Hl Hp]. split; [done|].
  intros s'' Hs''. split; [by eapply seen_later|done].
Qed.

Lemma verify_fence_safe fence s0 : safe (_verify_execution_fence store fence) s0 (ok_post (λ _ _, True)).
Proof.
  unfold _verify_execution_fence. destruct fence as [f|]; [|done].
  destruct (ds_verify_lease store) as [verify|] eqn:Ev; [|done].
  apply safe_call. intros s Hs. assert (Hl := verify_law _ (fence_execution_id f) (fence_owner_id f) (fence_token f) s Ev).
  destruct (verify _ _ _ s) as [r s']. apply untouched_later in Hl. split; [done|]. by destruct r.
Qed.
End rely.

(** ** What the code does to a document *)

Lemma journal_raw_set d j : journal_raw (dict_set d INTERACTION_JOURNAL_KEY (VDict (journal_dict j))) = VDict (journal_dict j).
Proof. unfold journal_raw, lookup. by rewrite dict_get_set_eq. Qed.

Lemma on_interaction_error_ok {A} e (r : R A) a : on_interaction_error e r = Ok a → r = Ok a.
Proof. destruct r as [|[]]; simpl; congruence. Qed.

(** A successful journal operation, written back. *)
Lemma step_evolves d j j' :
  validate_interaction_journal (journal_raw d) = Ok j → journal_step j j' →
  doc_evolves d (dict_set d INTERACTION_JOURNAL_KEY (VDict (journal_dict j'))) ∧
  validate_interaction_journal
    (journal_raw (dict_set d INTERACTION_JOURNAL_KEY (VDict (journal_dict j')))) = Ok j'.
Proof.
  intros Hj Hs. destruct (journal_step_evolves _ _ (validate_journal_wf _ _ Hj) Hs) as [Hwf Hev].
  assert (validate_interaction_journal
    (journal_raw (dict_set d INTERACTION_JOURNAL_KEY (VDict (journal_dict j')))) = Ok j') as Hj'.
  { rewrite journal_raw_set. by apply validate_journal_again. }
  split; [|done]. intros j0 Hj0. assert (j0 = j) as -> by congruence. eauto.
Qed.

Lemma set_other_evolves d k v : k ≠ INTERACTION_JOURNAL_KEY → doc_evolves d (dict_set d k v).
Proof.
  intros Hk j Hj. exists j. split; [|reflexivity]. unfold journal_raw, lookup in *. by rewrite dict_get_set_ne.
Qed.

Lemma del_other_evolves d k : k ≠ INTERACTION_JOURNAL_KEY → doc_evolves d (dict_del d k).
Proof.
  intros Hk j Hj. exists j. split; [|reflexivity]. unfold journal_raw, lookup in *. by rewrite dict_get_del_ne.
Qed.

Lemma without_checkpoint_evolves d : doc_evolves d (without_checkpoint d).
Proof. unfold without_checkpoint. etrans; apply del_other_evolves; done. Qed.

Lemma apply_evolves py_str d c id b d' :
  apply_checkpoint_interaction_receipt py_str d c id = Ok (b, d') → doc_evolves d d'.
Proof.
  unfold apply_checkpoint_interaction_receipt. destruct (get c "interaction_ref") as [| | | | | |ref|]; try done.
  { intros [= _ <-]. reflexivity. }
  intros (j & Hj%on_interaction_error_ok & H)%result_bind_ok. destruct (find_entry _ _) as [e|]; [|done].
  apply result_bind_ok in H as ([] & _ & H). destruct (e_receipt e) as [rc|]; [|done].
  apply result_bind_ok in H as (j' & Hm%on_interaction_error_ok & [= _ <-]).
  eapply step_evolves; [exact Hj|by eapply step_mark].
Qed.

(** A receipt recorded first when there was none. *)
Lemma record_first_evolves d j (r : option InteractionReceipt) d1 (m : RT pydict) :
  validate_interaction_journal (journal_raw d) = Ok j →
  (m = Ok d1 → r = None → ∃ rc j', record_interaction_receipt (VDict (journal_dict j)) rc = Ok j' ∧
     d1 = dict_set d INTERACTION_JOURNAL_KEY (VDict (journal_dict j'))) →
  match r with Some _ => Ok d | None => m end = Ok d1 → doc_evolves d d1.
Proof.
  intros Hj Hm. destruct r; [intros [= <-]; reflexivity|]. intros Hd1.
  destruct (Hm Hd1 eq_refl) as (rc & j' & Hr & ->). eapply step_evolves; [exact Hj|by eapply step_record].
Qed.

Section documents.
Variable py_str : pyval → pystr.
Variable other_key : pykey → option pystr.

Lemma cancelled_state_evolves d c x by_ d' : cancelled_state py_str d c x by_ = Ok d' → doc_evolves d d'.
Proof.
  unfold cancelled_state. intros (d1 & Hd1 & [= <-])%result_bind_ok. etrans; [|apply without_checkpoint_evolves].
  destruct (get c "interaction_ref") as [| | | | | |ref|]; try by injection Hd1 as <-.
  unfold close_cancelled in Hd1. apply result_bind_ok in Hd1 as (j & Hj%raises_ok & H).
  destruct (find_entry _ _) as [e|]; [|done]. apply result_bind_ok in H as ([] & _ & H).
  apply result_bind_ok in H as (d2 & Hd2 & ([b d3] & Ha & [= <-])%result_bind_ok).
  etrans; [|by eapply apply_evolves]. eapply record_first_evolves; [exact Hj| |exact Hd2].
  intros (rq & _ & (rc & _ & (j' & Hr%raises_ok & [= <-])%result_bind_ok)%result_bind_ok)%result_bind_ok _. eauto.
Qed.

Lemma cancel_state_evolves current run reason_ by_ now d' :
  cancel_state py_str other_key current run reason_ by_ now = Ok d' →
  doc_evolves (snap_state (di_session_snapshot current)) d'.
Proof.
  unfold cancel_state. destruct (lookup _ EXECUTION_CHECKPOINT_KEY) as [| | | | | |raw|]; try done.
  intros (ck & _ & ([] & _ & (j & Hj%raises_ok & H)%result_bind_ok)%result_bind_ok)%result_bind_ok.
  destruct (find_entry _ _) as [e|]; [|done].
  apply result_bind_ok in H as (d2 & Hd2 & ([b d3] & Ha & [= <-])%result_bind_ok).
  etrans; [|apply without_checkpoint_evolves]. etrans; [|by eapply apply_evolves].
  eapply record_first_evolves; [exact Hj| |exact Hd2].
  intros (rc & _ & (j' & Hr%raises_ok & [= <-])%result_bind_ok)%result_bind_ok _. eauto.
Qed.

Lemma close_active_step d c j active j' :
  close_active py_str other_key d c j active = Ok j' → journal_step j j'.
Proof.
  unfold close_active. intros (cur & _ & H)%result_bind_ok. destruct (find_entry _ _) as [e|]; [|done].
  destruct cur as [cur|]; [|done]. destruct (get cur "interaction_ref") as [| | | | | |ref|]; try done.
  apply result_bind_ok in H as ([] & _ & H). destruct (e_receipt e) as [rc|]; [|done].
  apply on_interaction_error_ok in H. by eapply step_mark.
Qed.

Lemma register_evolves d c rq d' :
  register_checkpoint_interaction_request py_str other_key d c rq = Ok d' → doc_evolves d d'.
Proof.
  unfold register_checkpoint_interaction_request.
  intros (r & _ & ([] & _ & (j & Hj%on_interaction_error_ok & H)%result_bind_ok)%result_bind_ok)%result_bind_ok.
  apply result_bind_ok in H as (j1 & Hj1 & ([] & _ & (j2 & Hj2%on_interaction_error_ok & [= <-])%result_bind_ok)%result_bind_ok).
  assert (rtc journal_step j j1) as Hstep.
  { destruct (active_id j) as [a|]; [|by injection Hj1 as <-]. case_bool_decide; [by injection Hj1 as <-|].
    apply rtc_once. by eapply close_active_step. }
  apply step_register in Hj2.
  assert (rtc journal_step j j2) as Hsteps by by eapply rtc_r.
  clear -Hj Hsteps. intros j0 Hj0. assert (j0 = j) as -> by (unfold journal_raw in *; congruence).
  exists j2. rewrite journal_raw_set.
  assert (wf_journal j2 ∧ journal_evolves j j2) as [Hwf Hev]; [|split; [by apply validate_journal_again|done]].
  apply validate_journal_wf in Hj. clear Hj0. induction Hsteps as [|x y z Hs _ IH]; [split; [done|reflexivity]|].
  destruct (journal_step_evolves _ _ Hj Hs) as [Hy He]. destruct (IH Hy). split; [done|by etrans].
Qed.

Lemma journal_for_evolves d v cur rq d' : journal_for py_str other_key d v cur rq = Ok d' → doc_evolves d d'.
Proof.
  unfold journal_for. destruct rq as [rq|]; [apply register_evolves|]. destruct cur as [c|]; [|by intros [= <-]].
  destruct (get c "interaction_ref"); try by intros [= <-].
  intros ([b d1] & Ha & [= <-])%result_bind_ok. by eapply apply_evolves.
Qed.

Lemma with_domain_evolves {S} (store : durable_store S) d before v cur sid retry fence d' :
  with_domain py_str store d before v cur sid retry fence = Ok d' → doc_evolves d d'.
Proof.
  assert (∀ v, doc_evolves d (dict_set d EXECUTION_CHECKPOINT_DOMAIN_KEY v)) as Hset
    by (intros; by apply set_other_evolves).
  assert (doc_evolves d (dict_del d EXECUTION_CHECKPOINT_DOMAIN_KEY)) as Hdel by by apply del_other_evolves.
  unfold with_domain. destruct fence as [f|]; [|by intros [= <-]].
  intros ([] & _ & H)%result_bind_ok. destruct (negb _); [by injection H as <-|].
  apply result_bind_ok in H as (ex & _ & [= <-]). repeat case_match; apply Hset || apply Hdel.
Qed.
End documents.

(** ** The operations of the run time *)

Section operations.
Context {S : Type} {store : durable_store S} `{!DocumentStore store}.
Variable py_str : pyval → pystr.
Variable other_key : pykey → option pystr.
Implicit Types (s : S) (sid : pystr).

Lemma save_session_state_safe sid st snap fence s0 :
  nonempty sid = true → seen sid snap s0 → doc_evolves (snap_state snap) st →
  safe (save_session_state store sid st (snap_revision snap) fence) s0 (ok_post (stored sid st)).
Proof.
  intros Hsid Hseen Hev. unfold save_session_state. rewrite Hsid. cbn [negb].
  destruct (seen_revision _ _ _ Hseen) as [e He]. apply ok_bind.
  eapply ok_mono; [|by apply runtime_load_safe]. intros current s Hs _. apply ok_rt. intros [] _.
  rewrite He. change (expected_or (Some e) current) with (Some e). rewrite <-He.
  apply runtime_save_safe; [by eapply seen_later|done].
Qed.

(** The two writes that also check the cancellation of the owner. *)
Lemma guarded_save_safe (m : M S exn pyval) sid st snap e s0 {A} (f : Z → A) (Q : A → S → Prop) :
  seen sid snap s0 → snap_revision snap = Some e → doc_evolves (snap_state snap) st →
  (∀ s, match m s with
        | (Ok next, s') => e = rev s sid ∧ written sid st s s' ∧ next = VInt (rev s' sid)
        | (Err _, s') => untouched s s'
        end) →
  (∀ r s, later s0 s → stored sid st (mkSnapshot st (Some r)) s → Q (f r) s) →
  ∀ s, later s0 s → match m s with
    | (Ok next, s') => later s s' ∧ safe (revision ← rt (advanced_revision next e); mret (f revision)) s' (ok_post Q)
    | (Err _, s') => later s s'
    end.
Proof.
  intros Hseen He Hev Hlaw HQ s Hs. apply (seen_later _ _ _ _ Hs) in Hseen. specialize (Hlaw s).
  destruct (m s) as [[next|x] s']; [|by apply untouched_later]. destruct Hlaw as (-> & Hw & ->).
  destruct (cas_later _ _ _ _ _ Hseen He Hev Hw) as [Hl Hp]. split; [done|].
  apply ok_rt. intros r Hr. unfold advanced_revision in Hr. cbn [exact_int] in Hr. case_match; [done|]. injection Hr as <-.
  apply ok_ret. intros s'' Hs''. apply HQ; [etrans; [exact Hs|by etrans]|]. split; [by eapply seen_later|done].
Qed.

Lemma reconcile_attempts_safe n last sid by_ s0 :
  nonempty sid = true →
  safe (reconcile_attempts py_str other_key store n last sid by_) s0 (ok_post (λ r, fresh s0 sid r.1)).
Proof.
  intros Hsid. revert last s0. induction n as [|n IH]; intros last s0; [done|]. cbn [reconcile_attempts].
  apply ok_bind. eapply ok_mono; [|by apply runtime_load_safe]. intros snap s Hs Hfresh.
  apply ok_rt. intros bound _. destruct bound as [[c d]|]; [|by apply ok_ret; eauto using fresh_later].
  destruct (ds_load_cancellation store) as [lc|] eqn:El; [|done].
  destruct (ds_save_cancelled store) as [sc|] eqn:Es; [|done].
  apply ok_bind. eapply safe_call. intros s1 Hs1.
  assert (Hl := load_cancellation_law _ (dom_execution_id d) (dom_owner_id d) s1 El).
  destruct (lc _ _ s1) as [r s2]. apply untouched_later in Hl. split; [done|]. intros s3 Hs3.
  assert (fresh s0 sid snap s3) as Hf3 by (eapply fresh_later; [|exact Hfresh]; etrans; [exact Hs1|by etrans]).
  destruct (Hf3) as [Hseen3 Hdoc].
  destruct r as [[[x|]|]|e]; simpl; try done.
  2: { intros s4 Hs4. by eapply fresh_later. }
  destruct (negb _); [done|]. apply ok_rt. intros st Hst%cancelled_state_evolves.
  destruct (snap_revision snap) as [e|] eqn:Er; [|done]. intros s4 Hs4.
  assert (Hg := guarded_save_safe (sc sid st e (dom_execution_id d) (dom_owner_id d)) sid st snap e s3
    (λ r, (mkSnapshot st (Some r), Some x)) (λ r, fresh s0 sid r.1) Hseen3 Er Hst
    (λ s, cancelled_law _ _ _ _ _ _ s Es)).
  assert (Hq : ∀ r s, later s3 s → stored sid st (mkSnapshot st (Some r)) s → fresh s0 sid (mkSnapshot st (Some r)) s)
    by (intros r' s' _ [Hq _]; split; [done|by etrans]).
  specialize (Hg Hq s4 Hs4).
  destruct (sc sid st e (dom_execution_id d) (dom_owner_id d) s4) as [[next|y] s5]; [exact Hg|].
  split; [exact Hg|]. destruct y; try done. eapply ok_mono; [|apply IH]. intros [p q] s6 _. apply fresh_since.
  etrans; [exact Hs|]. etrans; [exact Hs1|]. etrans; [exact Hl|]. etrans; [exact Hs3|]. by etrans.
Qed.

Lemma reconcile_safe sid by_ s0 :
  nonempty sid = true →
  safe (reconcile_cancelled_execution_checkpoint py_str other_key store sid by_) s0 (ok_post (λ r, fresh s0 sid r.1)).
Proof. intros Hsid. unfold reconcile_cancelled_execution_checkpoint. rewrite Hsid. by apply reconcile_attempts_safe. Qed.

Lemma save_interaction_safe sid st ckpt snap fence s0 :
  nonempty sid = true → seen sid snap s0 → doc_evolves (snap_state snap) st →
  safe (save_interaction_session_state py_str other_key store sid st ckpt snap (snap_revision snap) fence) s0
    (ok_post (stored sid st)).
Proof.
  intros Hsid Hseen Hev. unfold save_interaction_session_state. apply ok_rt. intros effective _.
  apply ok_rt. intros bound _.
  assert (∀ f, safe (save_session_state store sid st (snap_revision snap) f) s0 (ok_post (stored sid st))) as Hsave
    by (intros; by apply save_session_state_safe).
  destruct bound as [[c d]|]; [|apply Hsave]. destruct effective; [apply Hsave|].
  destruct (ds_save_not_cancelled store) as [sn|] eqn:Es; [|done].
  destruct (seen_revision _ _ _ Hseen) as [e He]. rewrite He. cbn [expected_or]. apply ok_bind.
  assert (Hg := guarded_save_safe (sn sid st e (dom_execution_id d) (dom_owner_id d)) sid st snap e s0
    (λ r, mkSnapshot st (Some r)) (stored sid st) Hseen He Hev (λ s, not_cancelled_law _ _ _ _ _ _ s Es)
    (λ r s _ Hq, Hq)).
  eapply safe_call. intros s Hs. specialize (Hg s Hs).
  destruct (sn sid st e (dom_execution_id d) (dom_owner_id d) s) as [[next|x] s']; simpl.
  - destruct Hg as [Hl Hp]. split; [done|]. intros s'' Hs''. by eapply safe_later.
  - split; [exact Hg|done].
Qed.

Lemma save_checkpoint_safe sid raw rq expected fence s0 :
  safe (save_execution_checkpoint_snapshot py_str other_key store sid raw rq expected fence) s0
    (ok_post (λ r, seen sid r.2)).
Proof.
  unfold save_execution_checkpoint_snapshot. destruct (nonempty sid) eqn:Hsid; [|done]. cbn [negb].
  apply ok_rt. intros v _. apply ok_rt. intros [] _. apply ok_rt. intros [] _.
  apply ok_bind. eapply ok_mono; [|by apply runtime_load_safe]. intros snap s Hs [Hseen _].
  apply ok_rt. intros cur _. set (retry := retry_candidate _ _ _ _). apply ok_rt. intros [] Hexp.
  apply ok_rt. intros st1 Hst1%journal_for_evolves. apply ok_rt. intros st Hst%with_domain_evolves.
  assert (doc_evolves (snap_state snap) st) as Hev.
  { etrans; [exact Hst1|]. etrans; [|exact Hst]. by apply set_other_evolves. }
  destruct retry eqn:Hretry; [destruct cur as [c|]; [|by destruct expected]|].
  - apply ok_rt. intros [] _. apply ok_bind. eapply ok_mono; [|apply verify_fence_safe]. intros _ s1 Hs1 _.
    apply ok_ret. intros s2 Hs2. eapply seen_later; [|exact Hseen]. by etrans.
  - rewrite (ensured_expected _ _ _ _ Hseen Hexp). apply ok_bind. apply ok_catch; [|done].
    eapply ok_mono; [|by apply runtime_save_safe]. intros p s1 Hs1 [Hp _].
    apply ok_bind. apply ok_catch; [|done]. apply ok_bind. eapply ok_mono; [|by apply runtime_load_safe].
    intros verified s2 Hs2 _. apply ok_rt. intros persisted _. apply ok_ret. intros s3 Hs3.
    destruct persisted as [c|]; [|done]. case_match; [done|]. apply ok_rt. intros [] _. apply ok_ret. intros s4 Hs4.
    eapply seen_later; [|exact Hp]. etrans; [exact Hs2|by etrans].
Qed.

Lemma clear_checkpoint_safe sid id expected fence s0 :
  nonempty sid = true →
  safe (clear_execution_checkpoint_snapshot py_str other_key store sid id expected fence) s0
    (ok_post (λ r, seen sid r.2)).
Proof.
  intros Hsid. unfold clear_execution_checkpoint_snapshot. rewrite Hsid. cbn [negb].
  apply ok_bind. eapply ok_mono; [|by apply runtime_load_safe]. intros snap s Hs [Hseen _].
  apply ok_rt. intros [] Hexp. destruct (dict_get (snap_state snap) _) as [raw|].
  - apply ok_rt. intros cur _. apply ok_rt. intros [] _. apply ok_rt. intros [b st] Hst%apply_evolves.
    rewrite (ensured_expected _ _ _ _ Hseen Hexp). apply ok_bind. apply ok_catch; [|done].
    eapply ok_mono; [|apply runtime_save_safe; [exact Hseen|]]; [|by etrans; [exact Hst|apply without_checkpoint_evolves]].
    intros p s1 Hs1 [Hp _]. apply ok_bind. eapply ok_mono; [|by apply runtime_load_safe]. intros verified s2 Hs2 _.
    destruct (dict_get (snap_state verified) _); [done|]. apply ok_rt. intros [] _. apply ok_ret. intros s3 Hs3.
    eapply seen_later; [|exact Hp]. by etrans.
  - apply ok_bind. eapply ok_mono; [|apply verify_fence_safe]. intros _ s1 Hs1 _. apply ok_ret. intros s2 Hs2.
    eapply seen_later; [|exact Hseen]. by etrans.
Qed.
End operations.
