(* ===== verification/DurableMemory.v ===== *)
(** * The process-local store keeps the contract of session documents

    [InMemorySessionStore] as the store of [CheckpointRuntime], and its laws. *)

From S2P Require Import Prelude PyVal Execution SessionStore Revision Interaction Checkpoint CheckpointRuntime DurableSafety.
Local Open Scope Z_scope.

Definition memory_store (clock : nat → pyval) : durable_store store :=
  mkDurable store (in_memory clock)
    (Some (λ eid owner token, _ ← mem_verify_lease clock eid owner token; mret tt))
    (Some (λ eid owner, c ← mem_load_execution_cancellation eid owner; mret (Some c)))
    (Some (λ sid st e eid owner,
             r ← save_if_revision_and_execution_not_cancelled sid st (Some (VInt e)) eid owner; mret (VInt r)))
    (Some (λ sid st e eid owner,
             r ← save_if_revision_and_execution_cancelled sid st (Some (VInt e)) eid owner; mret (VInt r))).

Definition mem_doc (s : store) (sid : pystr) : pydict := default [] (sessions s !! sid).

(** A computation that leaves sessions and revisions alone. *)
Definition quiet {A} (m : M store exn A) : Prop :=
  ∀ s, sessions (m s).2 = sessions s ∧ revisions (m s).2 = revisions s.

Lemma quiet_bind {A B} (m : M store exn A) (f : A → M store exn B) : quiet m → (∀ a, quiet (f a)) → quiet (m ≫= f).
Proof.
  intros Hm Hf s. cbv [mbind M_bind]. specialize (Hm s). destruct (m s) as [[a|e] s1]; simpl in *; [|done].
  destruct (Hf a s1), Hm. split; congruence.
Qed.

Lemma quiet_const {A} (r : store → result exn A) : quiet (λ s, (r s, s)).
Proof. done. Qed.
Lemma quiet_ret {A} (a : A) : quiet (mret a).
Proof. done. Qed.
Lemma quiet_raise {A} (e : exn) : quiet (A := A) (raise e).
Proof. done. Qed.
Lemma quiet_lift {A} (r : result exn A) : quiet (lift r).
Proof. done. Qed.
Lemma quiet_gets {A} (f : store → A) : quiet (gets f).
Proof. done. Qed.
Lemma quiet_now clock : quiet (_now_ms clock).
Proof. intros s. unfold _now_ms. by case_match. Qed.
Lemma quiet_lease_record eid : quiet (_lease_record_unlocked eid).
Proof. intros s. unfold _lease_record_unlocked. by case_match. Qed.

Ltac quiet_auto :=
  repeat first
    [ match goal with |- ∀ _, _ => intros ? end
    | simple apply quiet_bind | simple apply quiet_ret | simple apply quiet_raise
    | simple apply quiet_lift | simple apply quiet_gets | simple apply quiet_now
    | simple apply quiet_lease_record | case_match ].

Lemma quiet_assert_active clock eid owner token : quiet (_assert_active_lease_unlocked clock eid owner token).
Proof. unfold _assert_active_lease_unlocked. quiet_auto. Qed.

Lemma quiet_unfenced clock sid : quiet (_ensure_unfenced_write_allowed_unlocked clock sid).
Proof. unfold _ensure_unfenced_write_allowed_unlocked. quiet_auto. Qed.

Definition mem_untouched (s s' : store) : Prop :=
  ∀ sid, mem_doc s' sid = mem_doc s sid ∧ revision_of s' sid = revision_of s sid.

Lemma quiet_untouched {A} (m : M store exn A) s : quiet m → mem_untouched s (m s).2.
Proof. intros Hm sid. destruct (Hm s) as [H1 H2]. unfold mem_doc, revision_of. by rewrite H1, H2. Qed.

Definition mem_written (sid : pystr) (st : pydict) (s s' : store) : Prop :=
  mem_doc s' sid = st ∧ revision_of s sid < revision_of s' sid ∧
  ∀ sid', sid' ≠ sid → mem_doc s' sid' = mem_doc s sid' ∧ revision_of s' sid' = revision_of s sid'.

(** A conditional write: it happens at the expected revision and raises it by one. *)
Definition conditional (sid : pystr) (st : pydict) (e : Z) (m : M store exn Z) : Prop :=
  ∀ s, match m s with
       | (Ok r, s') => e = revision_of s sid ∧ mem_written sid st s s' ∧ r = revision_of s' sid ∧ r = e + 1
       | (Err _, s') => mem_untouched s s'
       end.

Lemma conditional_cas sid st e : conditional sid st e (cas_session sid st (Some e)).
Proof.
  intros s. unfold cas_session. unfold_monad. case_bool_decide as He; [|by split]. injection He as <-.
  assert (revision_of (set_revisions (<[sid := revision_of s sid + 1]> (revisions s))
    (set_sessions (<[sid := st]> (sessions s)) s)) sid = revision_of s sid + 1) as Hr.
  { unfold revision_of at 1. simpl. by rewrite lookup_insert_eq. }
  split_and!; [done| |done|done]. split_and!.
  - unfold mem_doc. simpl. by rewrite lookup_insert_eq.
  - lia.
  - intros sid' Hne. unfold mem_doc, revision_of. simpl. by rewrite !lookup_insert_ne.
Qed.

Lemma conditional_after {A} sid st e (m : M store exn A) f :
  quiet m → (∀ a, conditional sid st e (f a)) → conditional sid st e (m ≫= f).
Proof.
  intros Hm Hf s. assert (Hq := quiet_untouched m s Hm). cbv [mbind M_bind]. destruct (m s) as [[a|x] s1]; [|done].
  simpl in Hq. specialize (Hf a s1). destruct (f a s1) as [[r|x] s2].
  - destruct (Hq sid) as [_ <-]. destruct Hf as (-> & (H1 & H2 & H3) & H4 & H5). split_and!; try done.
    split_and!; [done|destruct (Hq sid) as [_ <-]; lia|]. intros sid' Hne. destruct (H3 _ Hne) as [-> ->]. apply Hq.
  - intros sid'. destruct (Hf sid') as [-> ->]. apply Hq.
Qed.

Lemma conditional_raise sid st e x : conditional sid st e (raise x).
Proof. intros s. by split. Qed.

Lemma expected_revision e x : _validate_expected_revision (Some (VInt e)) = Ok x → x = Some e.
Proof. unfold _validate_expected_revision. simpl. case_match; congruence. Qed.

(** What was lifted is known afterwards. *)
Lemma conditional_lift {A} sid st e (r : result exn A) f :
  (∀ a, r = Ok a → conditional sid st e (f a)) → conditional sid st e (lift r ≫= f).
Proof. intros Hf. destruct r as [a|x]; [by apply (Hf a eq_refl)|apply conditional_raise]. Qed.

Section laws.
Variable clock : nat → pyval.

Lemma conditional_plain sid st e : conditional sid st e (save_if_revision clock sid st (VInt e)).
Proof.
  unfold save_if_revision. simpl. case_match; [apply conditional_raise|].
  apply conditional_after; [apply quiet_unfenced|]. intros _. apply conditional_cas.
Qed.

Lemma conditional_fenced sid st e eid owner token :
  conditional sid st e (save_if_revision_and_fence clock sid st (Some (VInt e)) eid owner token).
Proof.
  unfold save_if_revision_and_fence. apply conditional_lift. intros _ _.
  apply conditional_lift. intros x ->%expected_revision. apply conditional_lift. intros _ _.
  apply conditional_after; [apply quiet_assert_active|]. intros _. apply conditional_cas.
Qed.

Lemma conditional_not_cancelled sid st e eid owner :
  conditional sid st e (save_if_revision_and_execution_not_cancelled sid st (Some (VInt e)) eid owner).
Proof.
  unfold save_if_revision_and_execution_not_cancelled. apply conditional_lift. intros _ _.
  apply conditional_lift. intros x ->%expected_revision. apply conditional_lift. intros _ _.
  apply conditional_after; [apply quiet_gets|]. intros [c|]; [apply conditional_raise|apply conditional_cas].
Qed.

Lemma conditional_cancelled sid st e eid owner :
  conditional sid st e (save_if_revision_and_execution_cancelled sid st (Some (VInt e)) eid owner).
Proof.
  unfold save_if_revision_and_execution_cancelled. apply conditional_lift. intros _ _.
  apply conditional_lift. intros x ->%expected_revision. apply conditional_lift. intros _ _.
  apply conditional_after; [apply quiet_gets|]. intros [c|]; [apply conditional_cas|apply conditional_raise].
Qed.

(** The store's answer is the new revision. *)
Lemma conditional_answer sid st e m s :
  conditional sid st e m →
  match (r ← m; mret (VInt r)) s with
  | (Ok next, s') => e = revision_of s sid ∧ mem_written sid st s s' ∧ next = VInt (revision_of s' sid)
  | (Err _, s') => mem_untouched s s'
  end.
Proof.
  intros Hm. specialize (Hm s). cbv [mbind M_bind mret M_ret]. destruct (m s) as [[r|x] s']; [|done].
  destruct Hm as (? & ? & -> & _). done.
Qed.

Lemma conditional_save_law sid st e fence s :
  match conditional_save (in_memory clock) sid st e fence s with
  | (Ok next, s') => e = revision_of s sid ∧ mem_written sid st s s' ∧ next = VInt (e + 1) ∧ revision_of s' sid = e + 1
  | (Err _, s') => mem_untouched s s'
  end.
Proof.
  assert (∀ m, conditional sid st e m →
    match (r ← m; mret (VInt r)) s with
    | (Ok next, s') => e = revision_of s sid ∧ mem_written sid st s s' ∧ next = VInt (e + 1) ∧ revision_of s' sid = e + 1
    | (Err _, s') => mem_untouched s s'
    end) as Hm.
  { intros m Hm. specialize (Hm s). cbv [mbind M_bind mret M_ret]. destruct (m s) as [[r|x] s']; [|done].
    destruct Hm as (? & ? & <- & ->). done. }
  destruct fence as [f|]; [apply (Hm _ (conditional_fenced _ _ _ _ _ _))|apply (Hm _ (conditional_plain _ _ _))].
Qed.

Lemma mem_load_law sid s :
  match load_session_snapshot (in_memory clock) sid s with
  | (r, s') => mem_untouched s s' ∧ ∀ snap, r = Ok snap → snap = mkSnapshot (mem_doc s sid) (Some (revision_of s sid))
  end.
Proof.
  unfold load_session_snapshot. cbv [mbind M_bind lift]. simpl. unfold_monad. unfold _validate_snapshot, _validate_revision.
  simpl. split; [by intros ?|]. intros snap. destruct (revision_of s sid <? 0); [done|]. by intros [= <-].
Qed.

Lemma mem_save_law sid st e f s :
  match save_session_snapshot (in_memory clock) sid (VDict st) (VInt <$> e) f s with
  | (Ok snap, s') => e = Some (revision_of s sid) ∧ mem_written sid st s s' ∧ snap = mkSnapshot st (Some (revision_of s' sid))
  | (Err _, s') => mem_untouched s s'
  end.
Proof.
  unfold save_session_snapshot. cbv [mbind M_bind].
  assert (∃ r, match f with Some f => lift (_validate_execution_fence_target sid (fence_execution_id f)) | None => mret tt end s
    = (r, s)) as [[[]|x] ->] by (destruct f; eexists; reflexivity); [|done].
  change (lift (_has_revision_capability (in_memory clock)) s) with (Ok (E := exn) true, s). cbv beta iota.
  destruct e as [e|]; [|done]. cbn [fmap option_fmap option_map]. unfold lift at 1.
  destruct (_validate_revision (VInt e) sid) as [e'|x] eqn:He; [|done]. apply validate_revision_ok in He as [[= <-] He].
  assert (Hc := conditional_save_law sid st e f s).
  destruct (conditional_save (in_memory clock) sid st e f s) as [[next|x] s']; [|done].
  destruct Hc as (-> & Hw & -> & Hr). unfold lift.
  rewrite (proj2 (validate_revision_ok (VInt _) sid _) (conj eq_refl (ltac:(lia) : 0 ≤ revision_of s sid + 1))).
  rewrite (proj2 (Z.leb_gt _ _)) by lia. cbv [mret M_ret]. split_and!; [done|done|by rewrite Hr].
Qed.

#[export] Program Instance memory_documents : DocumentStore (memory_store clock) :=
  {| doc := mem_doc; rev := revision_of |}.
Next Obligation. intros sid s. apply mem_load_law. Qed.
Next Obligation. intros sid st e f s. apply mem_save_law. Qed.
Next Obligation.
  intros save sid st e eid owner s [= <-]. apply conditional_answer, conditional_not_cancelled.
Qed.
Next Obligation.
  intros save sid st e eid owner s [= <-]. apply conditional_answer, conditional_cancelled.
Qed.
Next Obligation.
  intros load eid owner s [= <-]. apply (quiet_untouched (c ← mem_load_execution_cancellation eid owner; mret (Some c))).
  unfold mem_load_execution_cancellation. quiet_auto.
Qed.
Next Obligation.
  intros verify eid owner token s [= <-]. apply (quiet_untouched (_ ← mem_verify_lease clock eid owner token; mret tt)).
  unfold mem_verify_lease. repeat (apply quiet_bind; intros); try apply quiet_assert_active; quiet_auto.
Qed.
End laws.
