(* ===== verification/InteractionSafety.v ===== *)
(** * One answer for every interaction

    What the operations on durable interactions return is in the session document, and
    stays there: under any interleaving of workers, two callers that were told that their
    answer to the same interaction counts were told the same answer. *)

From S2P Require Import Prelude PyVal Execution SessionStore Revision Interaction Checkpoint CheckpointRuntime HumanInput InteractionRuntime DurableSafety.
Local Open Scope Z_scope.

(** ** What is read of a document *)

(** The journal of the document has the interaction with what is known of it. *)
Definition holds (d : pydict) (i : DurableInteractionSnapshot) : Prop :=
  ∃ j e, validate_interaction_journal (journal_raw d) = Ok j ∧
    find_entry (entries j) (interaction_id (di_request i)) = Some e ∧
    e_request e = di_request i ∧ e_checkpoint_id e = di_checkpoint_id i ∧
    (∀ c, di_receipt i = Some c → e_receipt e = Some c) ∧
    (∀ a, di_application i = Some a → e_application e = Some a).

(** All that is known of it. *)
Definition reads (d : pydict) (i : DurableInteractionSnapshot) : Prop :=
  ∃ j e, validate_interaction_journal (journal_raw d) = Ok j ∧
    find_entry (entries j) (interaction_id (di_request i)) = Some e ∧
    e_request e = di_request i ∧ e_checkpoint_id e = di_checkpoint_id i ∧
    e_receipt e = di_receipt i ∧ e_application e = di_application i.

Lemma reads_holds d i : reads d i → holds d i.
Proof. intros (j & e & ? & ? & ? & ? & H5 & H6). exists j, e. rewrite H5, H6. done. Qed.

(** A closed interaction is read as closed. *)
Lemma reads_application d i i0 a :
  reads d i → holds d i0 → interaction_id (di_request i0) = interaction_id (di_request i) →
  di_application i0 = Some a → di_application i = Some a.
Proof.
  intros (j & e & Hj & Hf & _ & _ & _ & <-) (j' & e' & Hj' & Hf' & _ & _ & _ & H4) Hid Ha.
  rewrite Hj in Hj'. injection Hj' as <-. rewrite Hid, Hf in Hf'. injection Hf' as <-. by apply H4.
Qed.

Lemma holds_evolves d d' i : doc_evolves d d' → holds d i → holds d' i.
Proof.
  intros Hev (j & e & Hj & Hf & H1 & H2 & H3 & H4). destruct (Hev _ Hj) as (j' & Hj' & _ & Hall).
  destruct (Hall _ _ Hf) as (e' & Hf' & E1 & E2 & E3 & E4). exists j', e'.
  split_and!; [done|done|congruence|congruence| |]; naive_solver.
Qed.

(** Two things known of one interaction do not contradict each other. *)
Lemma holds_agree d i i' c c' :
  holds d i → holds d i' → interaction_id (di_request i) = interaction_id (di_request i') →
  di_receipt i = Some c → di_receipt i' = Some c' → c = c' ∧ di_request i = di_request i'.
Proof.
  intros (j & e & Hj & Hf & H1 & _ & H3 & _) (j' & e' & Hj' & Hf' & H1' & _ & H3' & _) Hid Hc Hc'.
  rewrite Hj in Hj'. injection Hj' as <-. rewrite Hid, Hf' in Hf. injection Hf as ->.
  apply H3 in Hc. apply H3' in Hc'. split; congruence.
Qed.

(** The receipt of an entry, read again. *)
Lemma entry_receipt_again e iid c :
  wf_entry iid e → e_receipt e = Some c →
  receipt_from_dict (BRaw (VDict (receipt_dict c))) (Some (BObject (e_request e))) = Ok c.
Proof.
  intros He Hc. destruct (we_receipt _ _ He c Hc) as [Hwc Ha].
  apply (receipt_from_dict_again false c); [done|]. intros b [= <-].
  exists (e_request e). split; [apply request_from_dict_object, He|done].
Qed.

Lemma interaction_of_reads snap wanted ra i :
  interaction_of snap wanted ra = Ok i →
  reads (snap_state snap) i ∧ di_session_snapshot i = snap ∧
  (∀ w, wanted = Some w → nonempty w = true → interaction_id (di_request i) = w).
Proof.
  unfold interaction_of. intros (j & Hj%raises_ok & H)%result_bind_ok.
  destruct (resolve_id wanted j) as [id|] eqn:Hid; [|done]. apply result_bind_ok in H as ([] & _ & H).
  destruct (find_entry (entries j) id) as [e|] eqn:Hf; [|done].
  pose proof (find_entry_wf _ _ _ (wj_entries _ (validate_journal_wf _ _ Hj)) Hf) as He.
  rewrite request_from_dict_raw in H by apply He. cbn [raises mbind result_bind] in H.
  apply result_bind_ok in H as (rc & Hrc & [= <-]).
  assert (rc = e_receipt e) as ->.
  { destruct (e_receipt e) as [c|] eqn:Ec; [|by injection Hrc].
    rewrite (entry_receipt_again _ _ _ He Ec) in Hrc. by injection Hrc. }
  split_and!; [|done|].
  - exists j, e. cbn. rewrite (we_id _ _ He). done.
  - intros w -> Hw. cbn. rewrite (we_id _ _ He). unfold resolve_id in Hid. destruct w; [done|]. by injection Hid.
Qed.

(** ** Two dictionaries that Python finds equal *)

Lemma py_eq_dict_get d d' k v :
  py_eq (VDict d) (VDict d') = true → (k, v) ∈ d → ∃ w, dict_get d' k = Some w ∧ py_eq v w = true.
Proof.
  cbn [py_eq]. intros [_ H]%andb_true_iff. induction d as [|[k0 v0] d IH]; [set_solver|].
  apply andb_true_iff in H as [H0 H]. intros [[= -> ->]|Hin]%elem_of_cons; [|by apply IH].
  destruct (dict_get d' k0) as [w|]; [|done]. eauto.
Qed.

Lemma dict_get_entries es iid :
  dict_get ((λ p, (KStr p.1, VDict (entry_dict p.2))) <$> es) (KStr iid) = (VDict ∘ entry_dict) <$> find_entry es iid.
Proof.
  induction es as [|[k e] es IH]; [done|]. rewrite fmap_cons. cbn [dict_get find_entry fst snd]. rewrite IH. destruct (decide (k = iid)) as [->|Hne].
  - by rewrite !decide_True.
  - rewrite !decide_False by congruence. done.
Qed.

(** Journals that compare equal have receipts for the same interactions. *)
Lemma equal_journals_receipt j j' iid e e' :
  py_eq (VDict (journal_dict j)) (VDict (journal_dict j')) = true →
  find_entry (entries j) iid = Some e → find_entry (entries j') iid = Some e' →
  e_receipt e ≠ None → e_receipt e' ≠ None.
Proof.
  intros Heq Hf Hf' He.
  destruct (py_eq_dict_get _ _ (KStr (u "entries")) (VDict ((λ p, (KStr p.1, VDict (entry_dict p.2))) <$> entries j)) Heq)
    as (w & Hw & Hes).
  { unfold journal_dict, field. set_solver. }
  change (dict_get (journal_dict j') (KStr (u "entries"))) with
    (Some (VDict ((λ p, (KStr p.1, VDict (entry_dict p.2))) <$> entries j'))) in Hw. injection Hw as <-.
  destruct (py_eq_dict_get _ _ (KStr iid) (VDict (entry_dict e)) Hes) as (w & Hw & Hent).
  { apply (list_elem_of_fmap_2 (λ p, (KStr p.1, VDict (entry_dict p.2))) _ (iid, e)). by apply find_entry_elem. }
  rewrite dict_get_entries, Hf' in Hw. injection Hw as <-.
  destruct (py_eq_dict_get _ _ (KStr (u "receipt")) (opt (λ r, VDict (receipt_dict r)) (e_receipt e)) Hent) as (w & Hw & Hr).
  { unfold entry_dict, field. set_solver. }
  change (dict_get (entry_dict e') (KStr (u "receipt"))) with (Some (opt (λ r, VDict (receipt_dict r)) (e_receipt e'))) in Hw.
  injection Hw as <-. destruct (e_receipt e); [|done]. by destruct (e_receipt e').
Qed.

(** A receipt that changes nothing is the one that is there. *)
Lemma unchanged_record j rc j' c e :
  wf_journal j → receipt_from_dict rc None = Ok c → find_entry (entries j) (rcp_interaction_id c) = Some e →
  answers c (e_request e) → record_interaction_receipt (VDict (journal_dict j)) rc = Ok j' →
  py_eq (VDict (journal_dict j')) (VDict (journal_dict j)) = true →
  ∃ c0, e_receipt e = Some c0 ∧ receipt_digest c0 = receipt_digest c.
Proof.
  intros Hwf Hc Hf Ha Hrec Heq. rewrite (record_on_entry j _ e rc c Hwf Hc eq_refl Hf Ha) in Hrec.
  destruct (e_receipt e) as [c0|] eqn:Hc0.
  - case_bool_decide; [by eauto|by case_match].
  - case_bool_decide; [|done]. injection Hrec as <-. exfalso.
    eapply (equal_journals_receipt _ _ _ _ _ Heq); [by eapply find_update_eq|exact Hf|done|done].
Qed.

Lemma built_receipt_id r rsp sb at_ c :
  wf_request r → build_interaction_receipt (BObject r) rsp sb at_ = Ok c →
  wf_receipt c ∧ rcp_interaction_id c = interaction_id r.
Proof.
  intros Hwr H. unfold build_interaction_receipt in H.
  rewrite request_from_dict_object in H by done. cbn [mbind result_bind] in H.
  do 6 (let x := fresh "x" in let E := fresh "E" in apply result_bind_ok in H as (x & E & H)).
  unfold _receipt_core in E3. apply result_bind_ok in E3 as (rsp' & _ & [= <-]).
  pose proof (make_receipt_wf _ _ _ _ _ _ _ _ _ _ H) as Hwc.
  apply make_receipt_ids in H as (H1 & _). split; [done|]. rewrite H1. by apply wf_request_id.
Qed.

(** A receipt is recorded only for the request it answers. *)
Lemma recorded_answers j c j' e :
  wf_journal j → wf_receipt c → find_entry (entries j) (rcp_interaction_id c) = Some e →
  record_interaction_receipt (VDict (journal_dict j)) (BObject c) = Ok j' → answers c (e_request e).
Proof.
  intros Hwf Hwc Hf Hrec. unfold record_interaction_receipt in Hrec. rewrite validate_journal_again in Hrec by done.
  cbn [mbind result_bind] in Hrec. rewrite (receipt_from_dict_again true c None) in Hrec by done.
  cbn [mbind result_bind] in Hrec. rewrite Hf in Hrec.
  pose proof (find_entry_wf _ _ _ (wj_entries _ Hwf) Hf) as He.
  rewrite request_from_dict_raw in Hrec by apply He. cbn [mbind result_bind] in Hrec.
  apply result_bind_ok in Hrec as (c1 & Hc1 & _).
  assert (c1 = c) as ->.
  { unfold receipt_from_dict in Hc1. destruct Hwc as [Hwc _]. rewrite Hwc in Hc1.
    cbn [mbind result_bind] in Hc1. by binds Hc1; injection Hc1. }
  eapply receipt_from_dict_wf; [exact Hc1|done|]. apply request_from_dict_object, He.
Qed.

Lemma strip_nonempty s : nonempty (strip s) = true → nonempty s = true.
Proof. by destruct s. Qed.

(** ** The operations *)

(** The recorded answer is the caller's: Python finds the two equal, or they have the
    same digest. *)
Definition answer_of (request : InteractionRequest) (answer : raw_answer) (by_ : pystr) (c : InteractionReceipt) : Prop :=
  ∃ n, normalize_interaction_response (BObject request) answer = Ok n ∧
    (py_eq (response c) n = true ∨
     ∃ now rc, build_interaction_receipt (BObject request) n (VStr by_) (VInt now) = Ok rc ∧
       (receipt_id c = receipt_id rc ∨ receipt_digest c = receipt_digest rc)).

Section facade.
Context {S : Type} {store : durable_store S} `{!DocumentStore store}.
Variable py_str : pyval → pystr.
Variable other_key : pykey → option pystr.
Implicit Types (s : S) (sid iid : pystr).

(** What was read of an interaction since [s0]. *)
Definition known (s0 : S) (sid : pystr) (i : DurableInteractionSnapshot) (s : S) : Prop :=
  reads (snap_state (di_session_snapshot i)) i ∧ fresh s0 sid (di_session_snapshot i) s.

Lemma known_later s0 sid i s s' : later s s' → known s0 sid i s → known s0 sid i s'.
Proof. intros Hs [H1 H2]. split; [done|by eapply fresh_later]. Qed.

Lemma known_since s0 s1 sid i s : later s0 s1 → known s1 sid i s → known s0 sid i s.
Proof. intros Hs [H1 H2]. split; [done|by eapply fresh_since]. Qed.

Lemma known_holds s0 sid i s : known s0 sid i s → holds (doc s sid) i.
Proof. intros [Hr%reads_holds [Hseen _]]. eapply holds_evolves; [by apply seen_evolves|done]. Qed.

(** What was closed before is read as closed. *)
Definition sees_closed (s0 : S) (sid : pystr) (i : DurableInteractionSnapshot) : Prop :=
  ∀ i0 a, holds (doc s0 sid) i0 → interaction_id (di_request i0) = interaction_id (di_request i) →
    di_application i0 = Some a → di_application i = Some a.

Lemma known_closed s0 sid i s : known s0 sid i s → sees_closed s0 sid i.
Proof.
  intros [Hr [_ Hev]] i0 a Hi0 Hid Ha. eapply reads_application; [exact Hr| |exact Hid|exact Ha].
  by eapply holds_evolves.
Qed.

Lemma load_safe sid wanted ra rc s0 :
  safe (_load py_str other_key store sid wanted ra rc) s0
    (ok_post (λ i s, known s0 sid i s ∧ ∀ w, wanted = Some w → nonempty w = true → interaction_id (di_request i) = w)).
Proof.
  unfold _load. destruct (nonempty (strip sid)) eqn:Hsid; [|done]. cbn [negb]. apply strip_nonempty in Hsid.
  apply ok_bind. apply (ok_mono _ (fresh s0 sid)).
  - intros snap s Hs Hfresh. apply ok_rt_end. intros i s1 (Hh & Heq & Hw)%interaction_of_reads Hs1.
    split; [|done]. unfold known. rewrite Heq. split; [done|by eapply fresh_later].
  - destruct rc; [|by apply runtime_load_safe]. apply ok_bind. eapply ok_mono; [|by apply reconcile_safe].
    intros [snap c] s Hs Hfresh. destruct c; [done|]. apply ok_ret. intros s1 Hs1. by eapply fresh_later.
Qed.

Lemma on_cancel_safe {A} sid (p : prog S A) s0 (Q : A → S → Prop) :
  nonempty sid = true → safe p s0 (ok_post Q) → safe (on_cancel py_str other_key store sid p) s0 (ok_post Q).
Proof.
  intros Hsid Hp. apply ok_catch; [done|]. intros e s Hs. destruct (is_cancelled e); [|done].
  apply ok_bind. eapply ok_mono; [|by apply reconcile_safe]. done.
Qed.

Lemma accept_safe sid fence i s0 (Q : DurableInteractionSnapshot → S → Prop) :
  nonempty sid = true → (∀ s, later s0 s → Q i s) → safe (accept py_str other_key store sid fence i) s0 (ok_post Q).
Proof.
  intros Hsid HQ. apply ok_bind. apply on_cancel_safe; [done|].
  eapply ok_mono; [|apply (verify_fence_safe (store := store))]. intros _ s Hs _. apply ok_ret. intros s1 Hs1. apply HQ. by etrans.
Qed.

(** What a caller of [record_receipt] is told. *)
Definition told (s0 : S) (sid iid : pystr) (answer : raw_answer) (by_ : pystr) (i : DurableInteractionSnapshot) (s : S)
    : Prop :=
  holds (doc s sid) i ∧ interaction_id (di_request i) = iid ∧ sees_closed s0 sid i ∧
  ∃ c, di_receipt i = Some c ∧ answer_of (di_request i) answer by_ c.

Lemma told_later s0 sid iid answer by_ i s s' :
  later s s' → told s0 sid iid answer by_ i s → told s0 sid iid answer by_ i s'.
Proof. intros Hs (H1 & H2). split; [|done]. eapply holds_evolves; [|exact H1]. apply Hs. Qed.

Lemma holds_request d i i' :
  holds d i → holds d i' → interaction_id (di_request i) = interaction_id (di_request i') →
  di_request i = di_request i' ∧ di_checkpoint_id i = di_checkpoint_id i'.
Proof.
  intros (j & e & Hj & Hf & H1 & H2 & _) (j' & e' & Hj' & Hf' & H1' & H2' & _) Hid.
  rewrite Hj in Hj'. injection Hj' as <-. rewrite Hid, Hf' in Hf. injection Hf as ->. split; congruence.
Qed.

Lemma holds_wf d i : holds d i → wf_request (di_request i).
Proof.
  intros (j & e & Hj & Hf & <- & _). eapply we_request, find_entry_wf; [|exact Hf].
  by eapply wj_entries, validate_journal_wf.
Qed.

(** Nothing was written because the receipt was there. *)
Lemma unchanged_told s0 sid iid answer by_ now current n receipt j j' i s :
  known s0 sid current s → interaction_id (di_request current) = iid →
  normalize_interaction_response (BObject (di_request current)) answer = Ok n →
  build_interaction_receipt (BObject (di_request current)) n (VStr by_) (VInt now) = Ok receipt →
  validate_interaction_journal (journal_raw (snap_state (di_session_snapshot current))) = Ok j →
  record_interaction_receipt (VDict (journal_dict j)) (BObject receipt) = Ok j' →
  py_eq (VDict (journal_dict j')) (VDict (journal_dict j)) = true →
  unchanged_snapshot current j iid = Ok i → told s0 sid iid answer by_ i s.
Proof.
  intros Hk Hid Hn Hb Hj Hrec Heq Hi. assert (Hdoc := known_holds _ _ _ _ Hk). assert (Hclosed := known_closed _ _ _ _ Hk).
  destruct Hk as [(j0 & e & Hj0 & Hf & H1 & H2 & _ & H4) [Hseen _]].
  rewrite Hj in Hj0. injection Hj0 as <-. rewrite Hid in Hf.
  destruct (built_receipt_id _ _ _ _ _ (holds_wf _ _ Hdoc) Hb) as [Hwc Hrid]. rewrite Hid in Hrid.
  pose proof (validate_journal_wf _ _ Hj) as Hwf. pose proof (find_entry_wf _ _ _ (wj_entries _ Hwf) Hf) as He.
  assert (answers receipt (e_request e)) as Ha by (eapply recorded_answers; [done|done|by rewrite Hrid|done]).
  destruct (unchanged_record j (BObject receipt) j' receipt e Hwf) as (c0 & Hc0 & Hd); try done.
  { by apply (receipt_from_dict_again true receipt None). }
  { by rewrite Hrid. }
  unfold unchanged_snapshot in Hi. rewrite Hf, Hc0, <-H1, (entry_receipt_again _ _ _ He Hc0) in Hi.
  cbn [raises mbind result_bind] in Hi. injection Hi as <-. split_and!; cbn.
  - eapply holds_evolves; [by apply seen_evolves|]. exists j, e. cbn. rewrite (we_id _ _ He).
    split_and!; try done. naive_solver.
  - apply He.
  - intros i0 a Hi0 Hii. cbn. rewrite H4. apply Hclosed; [done|]. cbn in Hii. congruence.
  - exists c0. split; [done|]. exists n. rewrite H1. split; [done|]. right. eauto 10.
Qed.

Lemma answered_told s0 sid iid answer by_ n current i s :
  known s0 sid i s → interaction_id (di_request i) = iid → di_request i = di_request current →
  normalize_interaction_response (BObject (di_request current)) answer = Ok n → answered_with i n = true →
  told s0 sid iid answer by_ i s.
Proof.
  intros Hk Hid Hreq Hn Ha. split_and!; [by eapply known_holds|done|by eapply known_closed|].
  unfold answered_with in Ha. destruct (di_receipt i) as [c|]; [|done]. exists c. split; [done|].
  exists n. rewrite Hreq. auto.
Qed.

(** The same interaction, read again later. *)
Lemma same_request s0 s1 sid current i s s' :
  later s s' → known s0 sid current s → known s1 sid i s' →
  interaction_id (di_request i) = interaction_id (di_request current) →
  di_request i = di_request current ∧ di_checkpoint_id i = di_checkpoint_id current.
Proof.
  intros Hs Hc Hi%known_holds Hid. eapply holds_request; [exact Hi| |done]. eapply known_holds, known_later; done.
Qed.

(** The result that counts, for a caller that names the interaction. *)
Definition told_if (s0 : S) (sid iid : pystr) (answer : raw_answer) (by_ : pystr) (i : DurableInteractionSnapshot) (s : S)
    : Prop := nonempty iid = true → told s0 sid iid answer by_ i s.

Lemma told_if_later s0 sid iid answer by_ i s s' :
  later s s' → told_if s0 sid iid answer by_ i s → told_if s0 sid iid answer by_ i s'.
Proof. intros Hs H Hiid. eapply told_later; [exact Hs|by apply H]. Qed.

(** After the write: the receipt that is read back, or the winner of the conflict. *)
Lemma record_outcome_safe s0 s sid iid answer by_ now n current receipt persisted s1 :
  later s0 s → known s0 sid current s → later s s1 →
  (nonempty iid = true → interaction_id (di_request current) = iid) →
  normalize_interaction_response (BObject (di_request current)) answer = Ok n →
  build_interaction_receipt (BObject (di_request current)) n (VStr by_) (VInt now) = Ok receipt →
  safe (verified ← load py_str other_key store sid (Some iid) false;
        match di_receipt verified with
        | Some c =>
            if bool_decide (receipt_id c = receipt_id receipt) then mret verified
            else throw (lost_write (RInteraction InteractionIntegrityError) sid persisted (di_session_snapshot verified))
        | None =>
            throw (lost_write (RInteraction InteractionIntegrityError) sid persisted (di_session_snapshot verified))
        end) s1 (ok_post (told_if s0 sid iid answer by_)).
Proof.
  intros Hs Hk Hs1 Hw Hn Hb. apply ok_bind. eapply ok_mono; [|apply load_safe]. intros v s2 Hs2 [Hv Hvid].
  destruct (di_receipt v) as [c|] eqn:Hc; [|done]. case_bool_decide as Hrid; [|done]. apply ok_ret. intros s3 Hs3 Hiid.
  specialize (Hvid iid eq_refl Hiid). apply (known_since s0) in Hv; [|by etrans; [exact Hs|]].
  split_and!; [by eapply known_holds, known_later|done|by eapply known_closed|]. exists c. split; [done|]. exists n.
  destruct (same_request s0 s0 sid current v s s2) as [-> _]; [by etrans|done|done|rewrite Hw by done; congruence|].
  split; [done|]. right. eauto.
Qed.

Lemma conflict_safe s0 s sid iid answer by_ n current fence e s1 :
  nonempty sid = true → later s0 s → known s0 sid current s → later s s1 →
  (nonempty iid = true → interaction_id (di_request current) = iid) →
  normalize_interaction_response (BObject (di_request current)) answer = Ok n →
  safe (after_conflict py_str other_key store sid iid n fence e) s1 (ok_post (told_if s0 sid iid answer by_)).
Proof.
  intros Hsid Hs Hk Hs1 Hw Hn. unfold after_conflict. apply ok_bind. eapply ok_mono; [|apply load_safe].
  intros v s2 Hs2 [Hv Hvid]. destruct (answered_with v n) eqn:Ha; [|done]. apply accept_safe; [done|].
  intros s3 Hs3 Hiid. specialize (Hvid iid eq_refl Hiid). apply (known_since s0) in Hv; [|by etrans; [exact Hs|]].
  eapply (answered_told _ _ _ _ _ n current); [by eapply known_later|done| |done|done].
  eapply (same_request s0 s0); [|exact Hk|exact Hv|rewrite Hw by done; congruence]. by etrans.
Qed.

Lemma record_receipt_safe sid iid answer by_ now expected fence s0 :
  safe (record_receipt py_str other_key store sid iid answer by_ now expected fence) s0
    (ok_post (told_if s0 sid iid answer by_)).
Proof.
  destruct (nonempty (strip sid)) eqn:Hstrip.
  2: { unfold record_receipt, load. apply ok_bind. unfold _load. by rewrite Hstrip. }
  assert (Hsid := strip_nonempty _ Hstrip).
  unfold record_receipt. apply ok_bind. eapply ok_mono; [|apply load_safe]. intros current s Hs [Hk Hw].
  specialize (Hw iid eq_refl). apply ok_rt. intros effective _. apply ok_rt. intros n Hn.
  destruct (answered_with current n) eqn:Hans.
  { apply accept_safe; [done|]. intros s1 Hs1 Hiid. eapply answered_told; try done; [by eapply known_later|by apply Hw]. }
  apply ok_rt. intros receipt Hb%raises_ok. apply ok_rt. intros j Hj%raises_ok. apply ok_rt. intros j' Hrec%raises_ok.
  destruct (py_eq _ _) eqn:Heq.
  - apply ok_bind. apply on_cancel_safe; [done|]. eapply ok_mono; [|apply (verify_fence_safe (store := store))].
    intros _ s1 Hs1 _. apply ok_rt_end. intros i s2 Hi Hs2 Hiid. eapply unchanged_told; try done; [|by apply Hw].
    eapply known_later; [|exact Hk]. by etrans.
  - apply ok_rt. intros [] Hexp. destruct (Hk) as (_ & Hseen & _). rewrite (ensured_expected _ _ _ _ Hseen Hexp).
    assert (Hev : doc_evolves (snap_state (di_session_snapshot current))
      (dict_set (snap_state (di_session_snapshot current)) INTERACTION_JOURNAL_KEY (VDict (journal_dict j'))))
      by (eapply step_evolves; [exact Hj|by eapply step_record]).
    apply ok_bind.
    apply (ok_mono _ (λ o s1, match o with inl _ => True | inr i => told_if s0 sid iid answer by_ i s1 end)).
    + intros [p|i] s1 Hs1 Ho; [by eapply record_outcome_safe|]. apply ok_ret. intros. by eapply told_if_later.
    + apply ok_catch.
      * apply ok_bind. eapply ok_mono; [|by apply save_interaction_safe]. done.
      * intros e s1 Hs1. destruct (is_cancelled e).
        { apply ok_bind. eapply ok_mono; [|by apply reconcile_safe]. done. }
        destruct (is_conflict e); [|done]. apply ok_bind. apply (ok_mono _ (told_if s0 sid iid answer by_)); [|by apply (conflict_safe s0 s _ _ _ _ _ current)].
        intros i s2 Hs2 Hi. apply ok_ret. intros. by eapply told_if_later.
Qed.

(** What a caller of [cancel_pending] is told: the interaction of its run is closed by
    the cancellation of its checkpoint. *)
Definition told_cancelled (sid run : pystr) (i : DurableInteractionSnapshot) (s : S) : Prop :=
  holds (doc s sid) i ∧ source_run_id (di_request i) = strip run ∧
  ∃ a, di_application i = Some a ∧ applied_checkpoint_id a = cancelled_id (di_checkpoint_id i).

Lemma told_cancelled_later sid run i s s' : later s s' → told_cancelled sid run i s → told_cancelled sid run i s'.
Proof. intros Hs (H1 & H2). split; [|done]. eapply holds_evolves; [|exact H1]. apply Hs. Qed.

(** The interaction read again, with its application. *)
Lemma cancelled_by_told sid run current v e1 e2 s0 s s1 s' i s2 :
  later s s1 → known s0 sid current s → known s' sid v s1 → later s1 s2 →
  interaction_id (di_request v) = interaction_id (di_request current) →
  source_run_id (di_request current) = strip run →
  cancelled_by v (di_checkpoint_id current) e1 e2 = Ok i → told_cancelled sid run i s2.
Proof.
  intros Hs Hk Hv Hs2 Hid Hrun Hi. destruct (same_request _ _ _ _ _ _ _ Hs Hk Hv Hid) as [Hr Hc].
  unfold cancelled_by in Hi. destruct (di_application v) as [a|] eqn:Ha; [|done].
  apply result_bind_ok in Hi as ([] & Hb%ensure_ok & [= <-]). apply bool_decide_eq_true in Hb.
  split_and!; [by eapply known_holds, known_later|congruence|]. exists a. split; [done|congruence].
Qed.

Lemma cancel_pending_safe sid run wanted reason_ by_ now s0 :
  safe (cancel_pending py_str other_key store sid run wanted reason_ by_ now) s0 (ok_post (told_cancelled sid run)).
Proof.
  unfold cancel_pending. apply ok_rt. intros [] _. apply ok_rt. intros w _.
  destruct (nonempty (strip sid)) eqn:Hstrip.
  2: { apply ok_bind. unfold _load. by rewrite Hstrip. }
  assert (Hsid := strip_nonempty _ Hstrip).
  apply ok_bind. eapply ok_mono; [|apply load_safe]. intros current s Hs [Hk _].
  apply ok_rt. intros [] Hrun%ensure_ok%bool_decide_eq_true. apply ok_rt. intros [] _.
  apply ok_rt. intros st Hst%cancel_state_evolves. destruct (Hk) as [Hh%reads_holds [Hseen _]].
  assert (Hid : nonempty (interaction_id (di_request current)) = true) by by eapply wf_request_nonempty, holds_wf.
  apply ok_bind.
  apply (ok_mono _ (λ o s1, match o with inl _ => True | inr i => told_cancelled sid run i s1 end)).
  - intros [p|i] s1 Hs1 Ho; [|by apply ok_ret; intros; eapply told_cancelled_later].
    apply ok_bind. eapply ok_mono; [|apply load_safe]. intros v s2 Hs2 [Hv Hvid].
    apply ok_rt_end. intros i s3 Hi Hs3. eapply (cancelled_by_told _ _ current v _ _ s0 s s2); try done; [by etrans|].
    by apply Hvid.
  - apply ok_catch.
    + apply ok_bind. eapply ok_mono; [|by apply save_interaction_safe]. done.
    + intros e s1 Hs1. destruct (is_conflict e); [|done].
      apply ok_bind. eapply ok_mono; [|apply load_safe]. intros v s2 Hs2 [Hv Hvid].
      apply ok_rt. intros i Hi. apply ok_ret. intros s3 Hs3.
      eapply (cancelled_by_told _ _ current v _ _ s0 s s2); try done; [by etrans|]. by apply Hvid.
Qed.

(** What a caller of [require_receipt] is told: a recorded answer in its normal form. *)
Definition told_answer (sid : pystr) (i : DurableInteractionSnapshot) (s : S) : Prop :=
  holds (doc s sid) i ∧
  ∃ c n, di_receipt i = Some c ∧ normalize_interaction_response (BObject (di_request i)) (AnswerValue (response c)) = Ok n ∧
    py_eq n (response c) = true.

Lemma require_receipt_safe sid wanted s0 :
  safe (require_receipt py_str other_key store sid wanted) s0 (ok_post (told_answer sid)).
Proof.
  unfold require_receipt. apply ok_bind. eapply ok_mono; [|apply load_safe]. intros i s Hs [Hk _].
  destruct (di_receipt i) as [c|] eqn:Hc; [|done]. apply ok_rt. intros n Hn. apply ok_rt. intros [] He%ensure_ok.
  apply ok_ret. intros s1 Hs1. split; [by eapply known_holds, known_later|]. eauto 10.
Qed.

Lemma load_checkpoint_safe sid s0 :
  safe (load_execution_checkpoint py_str other_key store sid) s0 (ok_post (λ _ _, True)).
Proof.
  unfold load_execution_checkpoint. destruct (nonempty sid) eqn:Hsid; [|done]. cbn [negb].
  apply ok_bind. eapply ok_mono; [|by apply reconcile_safe]. intros [snap c] s Hs _. destruct c; [done|].
  case_match; [|done]. by apply ok_rt.
Qed.
End facade.
