(* ===== verification/InteractionWorkers.v ===== *)
(** * Workers that answer, cancel and resume

    Any number of workers run the operations on durable interactions and checkpoints over
    one store, their calls interleaved in any order; other writers of the session
    documents, which only have to respect revisions and the journal, interfere at any
    time. *)

From S2P Require Import Prelude PyVal Execution SessionStore Revision Interaction Checkpoint CheckpointRuntime HumanInput InteractionRuntime DurableSafety InteractionSafety.
Local Open Scope Z_scope.

Inductive worker_op : Type :=
| WRecord (sid iid : pystr) (answer : raw_answer) (by_ : pystr) (now : Z) (expected : option Z)
    (fence : option ExecutionFence)
| WCancel (sid run : pystr) (wanted : option pystr) (reason_ by_ : pystr) (now : Z)
| WRequire (sid : pystr) (wanted : option pystr)
| WLoad (sid : pystr) (wanted : option pystr) (require_active : bool)
| WReconcile (sid by_ : pystr)
| WSaveCheckpoint (sid : pystr) (checkpoint : pyval) (request : option (bound InteractionRequest))
    (expected : option Z) (fence : option ExecutionFence)
| WClearCheckpoint (sid : pystr) (id : option pystr) (expected : option Z) (fence : option ExecutionFence)
| WLoadCheckpoint (sid : pystr).

Inductive worker_result : Type :=
| WInteraction (i : DurableInteractionSnapshot)
| WSession (snapshot : SessionSnapshot)
| WCheckpoint (c : option pydict).

Section workers.
Context {S : Type} (store : durable_store S) `{!DocumentStore store}.
Variable py_str : pyval → pystr.
Variable other_key : pykey → option pystr.

Definition start (o : worker_op) : prog S worker_result :=
  match o with
  | WRecord sid iid answer by_ now expected fence =>
      i ← record_receipt py_str other_key store sid iid answer by_ now expected fence; mret (WInteraction i)
  | WCancel sid run wanted reason_ by_ now =>
      i ← cancel_pending py_str other_key store sid run wanted reason_ by_ now; mret (WInteraction i)
  | WRequire sid wanted => i ← require_receipt py_str other_key store sid wanted; mret (WInteraction i)
  | WLoad sid wanted active => i ← load py_str other_key store sid wanted active; mret (WInteraction i)
  | WReconcile sid by_ =>
      '(s, _) ← reconcile_cancelled_execution_checkpoint py_str other_key store sid by_; mret (WSession s)
  | WSaveCheckpoint sid c rq expected fence =>
      '(_, s) ← save_execution_checkpoint_snapshot py_str other_key store sid c rq expected fence; mret (WSession s)
  | WClearCheckpoint sid id expected fence =>
      '(_, s) ← clear_execution_checkpoint_snapshot py_str other_key store sid id expected fence; mret (WSession s)
  | WLoadCheckpoint sid => c ← load_execution_checkpoint py_str other_key store sid; mret (WCheckpoint c)
  end.

(** The store, and each worker with what is left of its program. *)
Definition pool : Type := S * list (worker_op * prog S worker_result).

Inductive pool_step : pool → pool → Prop :=
| pool_spawn s ts o : pool_step (s, ts) (s, ts ++ [(o, start o)])
| pool_call s s' ts i o {B} (m : M S exn B) k r :
    ts !! i = Some (o, Call m k) → m s = (r, s') → pool_step (s, ts) (s', <[i := (o, k r)]> ts)
| pool_other s s' ts : later s s' → pool_step (s, ts) (s', ts).

(** What a worker that started in [s0] and was answered knows. *)
Definition worker_post (s0 : S) (o : worker_op) (r : worker_result) (s : S) : Prop :=
  match o, r with
  | WRecord sid iid answer by_ _ _ _, WInteraction i => told_if s0 sid iid answer by_ i s
  | WCancel sid run _ _ _ _, WInteraction i => told_cancelled sid run i s
  | WRequire sid _, WInteraction i => told_answer sid i s
  | WLoad sid _ _, WInteraction i => holds (doc s sid) i ∧ sees_closed s0 sid i
  | _, _ => True
  end.

Lemma wrap_safe {A} (p : prog S A) (f : A → worker_result) (Q : A → S → Prop) (Q' : worker_result → S → Prop) s0 :
  safe p s0 (ok_post Q) → (∀ a s s', Q a s → later s s' → Q' (f a) s') → safe (a ← p; mret (f a)) s0 (ok_post Q').
Proof. intros Hp HQ. apply ok_bind. eapply ok_mono; [|exact Hp]. intros a s _ Ha. apply ok_ret. eauto. Qed.

Lemma start_safe o s0 : safe (start o) s0 (ok_post (worker_post s0 o)).
Proof.
  destruct o as [sid iid answer by_ now ex f|sid run w rs by_ now|sid w|sid w ra|sid by_|sid c rq ex f|sid id ex f|sid]; cbn [start].
  - eapply wrap_safe; [apply record_receipt_safe|]. intros i s s' Hi Hs. by eapply told_if_later.
  - eapply wrap_safe; [apply cancel_pending_safe|]. intros i s s' Hi Hs. by eapply told_cancelled_later.
  - eapply wrap_safe; [apply require_receipt_safe|]. intros i s s' [Hi ?] Hs. split; [|done].
    eapply holds_evolves; [apply Hs|done].
  - eapply wrap_safe; [apply load_safe|]. intros i s s' [Hi _] Hs. split; [by eapply known_holds, known_later|by eapply known_closed].
  - destruct (nonempty sid) eqn:Hsid; [|unfold reconcile_cancelled_execution_checkpoint; by rewrite Hsid].
    apply ok_bind. eapply ok_mono; [|by apply reconcile_safe]. by intros [].
  - apply ok_bind. eapply ok_mono; [|apply save_checkpoint_safe]. by intros [].
  - destruct (nonempty sid) eqn:Hsid; [|unfold clear_execution_checkpoint_snapshot; by rewrite Hsid].
    apply ok_bind. eapply ok_mono; [|by apply clear_checkpoint_safe]. by intros [].
  - by eapply wrap_safe; [apply load_checkpoint_safe|].
Qed.

(** ** What holds of every pool *)

(** Every call of every worker keeps the documents and its own promise. *)
Lemma pool_inv (post : nat → worker_op → worker_result → S → Prop) s0 ts0 p :
  (∀ i o s, length ts0 ≤ i → later s0 s → safe (start o) s (ok_post (post i o)))%nat →
  (∀ i o pr, ts0 !! i = Some (o, pr) → safe pr s0 (ok_post (post i o))) →
  rtc pool_step (s0, ts0) p →
  later s0 p.1 ∧ (length ts0 ≤ length p.2)%nat ∧ ∀ i o pr, p.2 !! i = Some (o, pr) → safe pr p.1 (ok_post (post i o)).
Proof.
  intros Hstart Hts0 Hsteps.
  assert (∀ p p', pool_step p p' →
    later s0 p.1 ∧ (length ts0 ≤ length p.2)%nat ∧ (∀ i o pr, p.2 !! i = Some (o, pr) → safe pr p.1 (ok_post (post i o))) →
    later s0 p'.1 ∧ (length ts0 ≤ length p'.2)%nat ∧ (∀ i o pr, p'.2 !! i = Some (o, pr) → safe pr p'.1 (ok_post (post i o))))
    as Hpres.
  { clear -Hstart. intros p p' [s ts o|s s' ts i o B m k r Hi Hm|s s' ts Hs] (Hl & Hlen & Hsafe); simpl in *.
    - split_and!; [done|rewrite length_app; lia|]. intros i o' pr [Hi|[Hi Ho]]%lookup_app_Some; [by apply Hsafe|].
      apply list_lookup_singleton_Some in Ho as [Hi0 [= <- <-]]. apply Hstart; [lia|done].
    - assert (Hc := Hsafe _ _ _ Hi s ltac:(reflexivity)). simpl in Hc. rewrite Hm in Hc. destruct Hc as [Hs Hk].
      split_and!; [by etrans|by rewrite length_insert|]. intros i' o' pr Hi'.
      destruct (decide (i' = i)) as [->|Hne].
      + rewrite list_lookup_insert_eq in Hi' by by eapply lookup_lt_Some. by injection Hi' as <- <-.
      + rewrite list_lookup_insert_ne in Hi' by done. eapply safe_later; [exact Hs|]. by apply Hsafe.
    - split_and!; [by etrans|done|]. intros i o pr Hi. eapply safe_later; [exact Hs|]. by apply Hsafe. }
  assert (∀ p p', rtc pool_step p p' →
    later s0 p.1 ∧ (length ts0 ≤ length p.2)%nat ∧ (∀ i o pr, p.2 !! i = Some (o, pr) → safe pr p.1 (ok_post (post i o))) →
    later s0 p'.1 ∧ (length ts0 ≤ length p'.2)%nat ∧ (∀ i o pr, p'.2 !! i = Some (o, pr) → safe pr p'.1 (ok_post (post i o))))
    as Hall by (induction 1; eauto).
  eapply Hall; [exact Hsteps|]. split_and!; [reflexivity|done|exact Hts0].
Qed.

(** A worker that starts later knows what is closed now. *)
Lemma start_since o s0 s : later s0 s → safe (start o) s (ok_post (worker_post s0 o)).
Proof.
  intros Hs. eapply ok_mono; [|apply start_safe]. intros r s' _.
  assert (∀ sid i, sees_closed s sid i → sees_closed s0 sid i) as Hc.
  { intros sid i Hi i0 a Hh. apply Hi. eapply holds_evolves; [apply Hs|done]. }
  destruct o, r; try done; simpl.
  - intros H Hiid. destruct (H Hiid) as (H1 & H2 & H3 & H4). split_and!; auto.
  - intros [H1 H2]. auto.
Qed.

Lemma reachable_workers s0 p :
  rtc pool_step (s0, []) p → ∀ i o pr, p.2 !! i = Some (o, pr) → safe pr p.1 (ok_post (worker_post s0 o)).
Proof.
  intros Hp. apply (pool_inv (λ _ o, worker_post s0 o) s0 []) in Hp as (_ & _ & H); [exact H| |done].
  intros _ o s _. apply start_since.
Qed.

(** From a pool that can be reached, later pools are reached by steps that keep the
    documents, and workers that start later are answered in view of the documents of now. *)
Lemma future_inv s0 p p' :
  rtc pool_step (s0, []) p → rtc pool_step p p' →
  later p.1 p'.1 ∧ ∀ i o pr, p'.2 !! i = Some (o, pr) → (length p.2 ≤ i)%nat → safe pr p'.1 (ok_post (worker_post p.1 o)).
Proof.
  destruct p as [s ts]. intros Hp Hp'.
  apply (pool_inv (λ i o r s', length ts ≤ i → worker_post s o r s')%nat s ts) in Hp' as (Hl & _ & H).
  - split; [exact Hl|]. intros i o pr Hi Hlen. eapply ok_mono; [|by apply H]. intros r s' _ Hr. by apply Hr.
  - intros i o s' _ Hs. eapply ok_mono; [|by apply start_since]. done.
  - intros i o pr Hi. eapply ok_mono; [|by eapply (reachable_workers s0 (s, ts))].
    intros r s' _ _ Hlen. apply lookup_lt_Some in Hi. lia.
Qed.

(** What a worker that has finished knows, now. *)
Lemma finished s0 p i o r :
  rtc pool_step (s0, []) p → p.2 !! i = Some (o, Done (Ok r)) → worker_post s0 o r p.1.
Proof. intros Hp Hi. apply (reachable_workers _ _ Hp _ _ _ Hi). reflexivity. Qed.

(** C17. Answers are final.  Whatever any number of workers do (record answers, cancel,
    save and clear checkpoints, reconcile cancelled executions), in any interleaving of
    their store calls and among other writers that respect the same contract, the
    revision of a session never goes back, a document changes only with its revision, and
    its interaction journal stays valid: no request disappears, no recorded answer is
    replaced and no application is undone. *)
Theorem interaction_answers_are_final (s0 : S) (p p' : pool) :
  rtc pool_step (s0, []) p → rtc pool_step p p' →
  ∀ sid, rev p.1 sid ≤ rev p'.1 sid ∧ (rev p.1 sid = rev p'.1 sid → doc p'.1 sid = doc p.1 sid) ∧
    ∀ j, validate_interaction_journal (journal_raw (doc p.1 sid)) = Ok j →
      ∃ j', validate_interaction_journal (journal_raw (doc p'.1 sid)) = Ok j' ∧ journal_evolves j j'.
Proof. intros Hp Hp'. apply (future_inv _ _ _ Hp Hp'). Qed.

(** C15. One answer counts.  Two workers that were both told that their answer to the same
    interaction is recorded hold the same receipt, which is the one in the session
    document; it is the answer that each of them gave (equal for Python, or of the same
    digest), so two workers with different answers cannot both succeed. *)
Theorem one_answer_counts (s0 : S) (p : pool) (n n' : nat) (sid iid by_ by_' : pystr) (answer answer' : raw_answer)
    (now now' : Z) (ex ex' : option Z) (f f' : option ExecutionFence) (i i' : DurableInteractionSnapshot) :
  rtc pool_step (s0, []) p → nonempty iid = true →
  p.2 !! n = Some (WRecord sid iid answer by_ now ex f, Done (Ok (WInteraction i))) →
  p.2 !! n' = Some (WRecord sid iid answer' by_' now' ex' f', Done (Ok (WInteraction i'))) →
  ∃ c j e, di_receipt i = Some c ∧ di_receipt i' = Some c ∧ di_request i = di_request i' ∧
    validate_interaction_journal (journal_raw (doc p.1 sid)) = Ok j ∧
    find_entry (entries j) iid = Some e ∧ e_receipt e = Some c ∧
    answer_of (di_request i) answer by_ c ∧ answer_of (di_request i) answer' by_' c.
Proof.
  intros Hp Hiid Hn Hn'. destruct (finished _ _ _ _ _ Hp Hn Hiid) as (Hh & Hid & _ & c & Hc & Ha).
  destruct (finished _ _ _ _ _ Hp Hn' Hiid) as (Hh' & Hid' & _ & c' & Hc' & Ha').
  destruct (holds_agree _ _ _ c c' Hh Hh') as [<- Hreq]; [congruence|done|done|].
  destruct Hh as (j & e & Hj & Hf & _ & _ & Hrc & _). rewrite Hid in Hf.
  exists c, j, e. split_and!; try done; [by apply Hrc|by rewrite Hreq].
Qed.

(** C16. A cancelled wait is not resumed.  Once [cancel_pending] has returned for an
    interaction, a worker that starts afterwards to record an answer to it either fails or
    is told that the interaction is closed: its snapshot has the application of the
    cancellation, and the check before the answer is used refuses it. *)
Theorem cancelled_wait_is_not_resumed (s0 : S) (p p' : pool) (n n' : nat) (sid run iid reason_ by_ by_' : pystr)
    (wanted : option pystr) (now now' : Z) (answer : raw_answer) (ex : option Z) (f : option ExecutionFence)
    (i i' : DurableInteractionSnapshot) :
  rtc pool_step (s0, []) p → rtc pool_step p p' →
  p.2 !! n = Some (WCancel sid run wanted reason_ by_ now, Done (Ok (WInteraction i))) →
  interaction_id (di_request i) = iid → (length p.2 ≤ n')%nat →
  p'.2 !! n' = Some (WRecord sid iid answer by_' now' ex f, Done (Ok (WInteraction i'))) →
  (∃ a, di_application i' = Some a ∧ applied_checkpoint_id a = cancelled_id (di_checkpoint_id i)) ∧
  require_unapplied_callback_receipt i' = Err (RInteraction InteractionNotPendingError).
Proof.
  intros Hp Hp' Hn Hid Hlen Hn'. destruct (finished _ _ _ _ _ Hp Hn) as (Hh & _ & a & Ha & Hck).
  assert (nonempty iid = true) as Hiid by (rewrite <-Hid; by eapply wf_request_nonempty, holds_wf).
  destruct (future_inv _ _ _ Hp Hp') as [_ H]. specialize (H _ _ _ Hn' Hlen p'.1 ltac:(reflexivity) Hiid).
  destruct H as (_ & Hid' & Hclosed & _). assert (di_application i' = Some a) as Ha'
    by (apply (Hclosed i); [done|congruence|done]).
  split; [by exists a|]. unfold require_unapplied_callback_receipt. rewrite Ha'. by destruct (di_receipt i').
Qed.
End workers.
