(* ===== verification/InteractionProgress.v ===== *)
(** * An answer that meets nobody is recorded

    [record_receipt] on the process-local store, run alone: it returns, with the receipt
    it built, and the session document has exactly that receipt more. *)

From S2P Require Import Prelude PyVal Execution SessionStore Revision Interaction Checkpoint CheckpointRuntime HumanInput InteractionRuntime DurableSafety DurableMemory InteractionSafety.
Local Open Scope Z_scope.

(** ** Running programs *)

Lemma run_prog_bind {S A B} (p : prog S A) (f : A → prog S B) s :
  run (p ≫= f) s = match run p s with (Ok a, s') => run (f a) s' | (Err e, s') => (Err e, s') end.
Proof.
  cbv [mbind prog_mbind]. revert s. induction p as [[a|e]|C m k IH]; intros s; simpl; [done|done|].
  destruct (m s). apply IH.
Qed.

Lemma run_bind_ok {S A B} (p : prog S A) (f : A → prog S B) s a s' :
  run p s = (Ok a, s') → run (p ≫= f) s = run (f a) s'.
Proof. intros H. by rewrite run_prog_bind, H. Qed.

Lemma run_rt_ok {S A B} (r : RT A) (f : A → prog S B) s a : r = Ok a → run (rt r ≫= f) s = run (f a) s.
Proof. intros ->. done. Qed.

Lemma run_catch_ok {S A} (p : prog S A) h s a s' : run p s = (Ok a, s') → run (prog_catch p h) s = (Ok a, s').
Proof.
  revert s. induction p as [[x|e]|C m k IH]; intros s; simpl; [done|done|]. destruct (m s). apply IH.
Qed.

(** ** The process-local store at rest *)

Section rest.
Variable clock : nat → pyval.
Abbreviation mem := (memory_store clock).

(** Nobody holds a lease on the session. *)
Record at_rest (sid : pystr) (s : store) : Prop := {
  ar_revision : 0 ≤ revision_of s sid;
  ar_lease : active_of s sid = None;
}.

Definition current (sid : pystr) (s : store) : SessionSnapshot :=
  mkSnapshot (mem_doc s sid) (Some (revision_of s sid)).

Lemma load_at_rest sid s :
  nonempty sid = true → at_rest sid s → run (runtime_load mem sid) s = (Ok (current sid s), s).
Proof.
  intros Hsid [Hr _]. unfold runtime_load. rewrite Hsid. cbn [negb run call].
  assert (load_session_snapshot (ds_session mem) sid s = (Ok (current sid s), s)) as ->; [|done].
  unfold load_session_snapshot. cbv [mbind M_bind lift]. simpl. unfold_monad. unfold _validate_snapshot, _validate_revision.
  simpl. destruct (revision_of s sid <? 0) eqn:E; [|done]. apply Z.ltb_lt in E. lia.
Qed.

(** The state after a write. *)
Definition put_doc (sid : pystr) (d : pydict) (s : store) : store :=
  set_revisions (<[sid := revision_of s sid + 1]> (revisions s)) (set_sessions (<[sid := d]> (sessions s)) s).

Lemma put_doc_current sid d s : current sid (put_doc sid d s) = mkSnapshot d (Some (revision_of s sid + 1)).
Proof.
  unfold current, put_doc, mem_doc. simpl. rewrite lookup_insert_eq. unfold revision_of at 1. simpl.
  by rewrite lookup_insert_eq.
Qed.

Lemma put_doc_at_rest sid d s : at_rest sid s → at_rest sid (put_doc sid d s).
Proof.
  intros [Hr Ha]. split; [|done]. assert (Hc := put_doc_current sid d s). injection Hc as _ ->. lia.
Qed.

Lemma save_at_rest sid d s :
  nonempty sid = true → at_rest sid s →
  run (save_session_state mem sid d (Some (revision_of s sid)) None) s
  = (Ok (current sid (put_doc sid d s)), put_doc sid d s).
Proof.
  intros Hsid Hs. unfold save_session_state. rewrite Hsid. cbn [negb].
  rewrite (run_bind_ok _ _ _ _ _ (load_at_rest _ _ Hsid Hs)).
  rewrite (run_rt_ok _ _ _ tt) by (unfold _ensure_expected_revision; simpl; by rewrite Z.eqb_refl).
  rewrite put_doc_current. destruct Hs as [Hr Ha].
  unfold runtime_save. cbn [run call expected_or]. unfold save_session_snapshot. cbv [mbind M_bind lift mret M_ret].
  simpl. unfold _validate_revision. simpl. rewrite (proj2 (Z.ltb_ge _ _)) by done.
  unfold save_if_revision. simpl. rewrite (proj2 (Z.ltb_ge _ _)) by done.
  unfold _ensure_unfenced_write_allowed_unlocked, cas_session. unfold_monad. rewrite Ha. simpl.
  rewrite bool_decide_true by done. simpl. rewrite (proj2 (Z.ltb_ge (revision_of s sid + 1) 0)) by lia.
  rewrite (proj2 (Z.leb_gt _ _)) by lia. done.
Qed.
End rest.

(** ** Recording alone *)

Lemma interaction_of_entry snap iid j e :
  validate_interaction_journal (journal_raw (snap_state snap)) = Ok j → find_entry (entries j) iid = Some e →
  interaction_of snap (Some iid) false =
  Ok (mkDurableInteraction (e_request e) (e_checkpoint_id e) (e_receipt e) (e_application e) snap).
Proof.
  intros Hj Hf. pose proof (find_entry_wf _ _ _ (wj_entries _ (validate_journal_wf _ _ Hj)) Hf) as He.
  unfold interaction_of. fold (journal_raw (snap_state snap)). rewrite Hj. cbn [raises mbind result_bind].
  assert (Hn := we_nonempty _ _ He). destruct iid as [|x iid]; [done|]. cbn [resolve_id nonempty negb andb orb ensure].
  cbn [mbind result_bind]. rewrite Hf, request_from_dict_raw by apply He. cbn [raises mbind result_bind].
  destruct (e_receipt e) as [c|] eqn:Hc; [|done]. by rewrite (entry_receipt_again _ _ _ He Hc).
Qed.

Section alone.
Variable py_str : pyval → pystr.
Variable other_key : pykey → option pystr.
Variable clock : nat → pyval.
Abbreviation mem := (memory_store clock).
Abbreviation domain := (_checkpoint_domain py_str other_key).

Lemma load_interaction_at_rest sid iid s j e :
  nonempty (strip sid) = true → at_rest sid s → domain sid (current sid s) = Ok None →
  validate_interaction_journal (journal_raw (mem_doc s sid)) = Ok j → find_entry (entries j) iid = Some e →
  run (load py_str other_key mem sid (Some iid) false) s =
  (Ok (mkDurableInteraction (e_request e) (e_checkpoint_id e) (e_receipt e) (e_application e) (current sid s)), s).
Proof.
  intros Hstrip Hs Hd Hj Hf. assert (Hsid := strip_nonempty _ Hstrip). unfold load, _load. rewrite Hstrip. cbn [negb].
  assert (run (reconcile py_str other_key mem sid) s = (Ok (current sid s, None), s)) as Hrec.
  { unfold reconcile, reconcile_cancelled_execution_checkpoint. rewrite Hsid. cbn [negb reconcile_attempts].
    rewrite (run_bind_ok _ _ _ _ _ (load_at_rest _ _ _ Hsid Hs)). by rewrite (run_rt_ok _ _ _ None). }
  rewrite (run_bind_ok _ _ _ (current sid s) s) by by rewrite (run_bind_ok _ _ _ _ _ Hrec).
  cbn [run rt]. by rewrite (interaction_of_entry _ _ j e).
Qed.

(** The owner of the checkpoint does not depend on the journal. *)
Lemma domain_of_journal sid d j r r' :
  domain sid (mkSnapshot (dict_set d INTERACTION_JOURNAL_KEY j) r) = domain sid (mkSnapshot d r').
Proof.
  unfold _checkpoint_domain, domain_from_state, lookup. cbn [snap_state].
  rewrite !dict_get_set_ne by done. done.
Qed.

Lemma recorded_differs j iid e c :
  find_entry (entries j) iid = Some e → e_receipt e = None →
  py_eq (VDict (journal_dict (recorded j iid e c))) (VDict (journal_dict j)) = false.
Proof.
  intros Hf Hn. apply not_true_is_false. intros Heq.
  eapply (equal_journals_receipt _ _ _ _ _ Heq); [by eapply find_update_eq|exact Hf|done|done].
Qed.

Lemma save_interaction_at_rest sid d ckpt s :
  nonempty sid = true → at_rest sid s → domain sid (current sid s) = Ok None →
  run (save_interaction_session_state py_str other_key mem sid d ckpt (current sid s) (Some (revision_of s sid)) None) s
  = (Ok (current sid (put_doc sid d s)), put_doc sid d s).
Proof.
  intros Hsid Hs Hd. unfold save_interaction_session_state. rewrite (run_rt_ok _ _ _ None)
    by (unfold resolve_interaction_execution_fence; by rewrite Hd).
  rewrite (run_rt_ok _ _ _ None) by done. by apply save_at_rest.
Qed.

(** C18. An answer is recorded when nobody interferes: for the pending, unanswered
    interaction of a session that no lease protects and whose checkpoint has no owner,
    [record_receipt] returns (it takes four store calls and never waits), the receipt is
    the one built of the normal form of the answer, and the session document has that
    receipt in its journal and nothing else changed, one revision later. *)
Theorem uncontended_answer_is_recorded (s : store) (sid iid by_ : pystr) (answer : raw_answer) (now : Z)
    (j : journal) (e : entry) (n : pyval) (c : InteractionReceipt) :
  at_rest sid s → nonempty (strip sid) = true → domain sid (current sid s) = Ok None →
  validate_interaction_journal (journal_raw (mem_doc s sid)) = Ok j → active_id j = Some iid →
  find_entry (entries j) iid = Some e → e_receipt e = None → e_application e = None →
  strip (request_digest (e_request e)) = request_digest (e_request e) →
  normalize_interaction_response (BObject (e_request e)) answer = Ok n →
  build_interaction_receipt (BObject (e_request e)) n (VStr by_) (VInt now) = Ok c →
  let d := dict_set (mem_doc s sid) INTERACTION_JOURNAL_KEY (VDict (journal_dict (recorded j iid e c))) in
  run (record_receipt py_str other_key mem sid iid answer by_ now None None) s =
  (Ok (mkDurableInteraction (e_request e) (e_checkpoint_id e) (Some c) None
         (mkSnapshot d (Some (revision_of s sid + 1)))), put_doc sid d s).
Proof.
  intros Hs Hstrip Hd Hj Hact Hf Hr Ha Hdig Hn Hc d. assert (Hsid := strip_nonempty _ Hstrip).
  pose proof (validate_journal_wf _ _ Hj) as Hwf. pose proof (find_entry_wf _ _ _ (wj_entries _ Hwf) Hf) as He.
  destruct (build_receipt_facts _ _ _ _ _ (we_request _ _ He) Hdig Hc) as (Hwc & Hans & _).
  assert (rcp_interaction_id c = iid) as Hiid by (destruct Hans as [-> _]; apply He).
  assert (record_interaction_receipt (VDict (journal_dict j)) (BObject c) = Ok (recorded j iid e c)) as Hrec.
  { rewrite (record_on_entry j iid e _ c Hwf); [|by apply (receipt_from_dict_again true c None)|done|done|done].
    by rewrite Hr, bool_decide_true. }
  assert (wf_journal (recorded j iid e c)) as Hwf' by by apply recorded_wf.
  unfold record_receipt. rewrite (run_bind_ok _ _ _ _ _ (load_interaction_at_rest _ _ _ _ _ Hstrip Hs Hd Hj Hf)).
  cbv zeta. cbn [di_session_snapshot di_checkpoint_id di_request].
  rewrite (run_rt_ok _ _ _ None) by (unfold resolve_interaction_execution_fence; by rewrite Hd).
  rewrite (run_rt_ok _ _ _ _ Hn). unfold answered_with at 1. cbn [di_receipt]. rewrite Hr.
  rewrite (run_rt_ok _ _ _ c) by by rewrite Hc.
  rewrite (run_rt_ok _ _ _ _ (f_equal raises Hj)).
  rewrite (run_rt_ok _ _ _ _ (f_equal raises Hrec)). rewrite recorded_differs by done.
  rewrite (run_rt_ok _ _ _ tt) by done.
  assert (domain sid (current sid (put_doc sid d s)) = Ok None) as Hd'.
  { rewrite put_doc_current. unfold d. by rewrite (domain_of_journal _ _ _ _ (Some (revision_of s sid))). }
  rewrite (run_bind_ok _ _ _ (inl (current sid (put_doc sid d s))) (put_doc sid d s)).
  2: { apply run_catch_ok. by rewrite (run_bind_ok _ _ _ _ _ (save_interaction_at_rest _ _ _ _ Hsid Hs Hd)). }
  assert (validate_interaction_journal (journal_raw (mem_doc (put_doc sid d s) sid)) = Ok (recorded j iid e c)) as Hj'.
  { assert (Hcur := put_doc_current sid d s). injection Hcur as -> _. unfold d. rewrite journal_raw_set.
    by apply validate_journal_again. }
  rewrite (run_bind_ok _ _ _ _ _ (load_interaction_at_rest sid iid (put_doc sid d s) (recorded j iid e c)
    (mkEntry (e_request e) (e_checkpoint_id e) (Some c) None) Hstrip ltac:(by apply put_doc_at_rest) Hd' Hj'
    ltac:(by eapply find_update_eq))).
  cbn [di_receipt e_receipt e_request e_checkpoint_id e_application]. rewrite bool_decide_true by done.
  by rewrite put_doc_current.
Qed.
End alone.
