(* ===== verification/SessionBootstrap.v ===== *)
(** * The messages of a new turn (src/unchain/memory/runtime.py, [bootstrap_session])

    A turn starts from the session document: from the checkpoint of a run that was
    interrupted, or from the stored history, with the incoming messages after it.  The
    instructions come first and are not repeated. *)

From S2P Require Import Prelude PyVal Execution SessionStore Revision Interaction Checkpoint CheckpointRuntime DurableSafety.
Local Open Scope Z_scope.

Definition _deepcopy_messages (messages : list pyval) : list pydict :=
  omap (λ m, match m with VDict d => Some d | _ => None end) messages.

Definition is_system (m : pydict) : bool := py_eq (get m "role") (VStr (u "system")).

Definition _split_system_and_non_system (messages : list pydict) : list pydict * list pydict :=
  (filter (λ m, is_system m = true) messages, filter (λ m, is_system m = false) messages).

(** [contribution in systems] *)
Definition in_messages (m : pydict) (messages : list pydict) : bool :=
  existsb (λ m', py_eq (VDict m') (VDict m)) messages.

Definition add_systems (systems incoming : list pydict) : list pydict :=
  foldl (λ systems m, if in_messages m systems then systems else systems ++ [m]) systems incoming.

Definition _merge_history_and_incoming (history incoming : list pyval) : list pydict :=
  match _deepcopy_messages history, _deepcopy_messages incoming with
  | [], clean_incoming => clean_incoming
  | clean_history, [] => clean_history
  | clean_history, clean_incoming =>
      let '(incoming_systems, incoming_non_system) := _split_system_and_non_system clean_incoming in
      let '(history_systems, history_non_system) := _split_system_and_non_system clean_history in
      add_systems history_systems incoming_systems ++ history_non_system ++ incoming_non_system
  end.

Definition _resolve_memory_namespace (sid : pystr) (memory_namespace : pyval) : pystr :=
  match memory_namespace with
  | VStr s => if nonempty (strip s) then strip s else strip sid
  | _ => strip sid
  end.

Definition _ensure_checkpoint_extends_semantic_history (history : list pyval) (checkpoint : pydict) : RT unit :=
  match history with
  | [] => Ok tt
  | _ =>
      match get checkpoint "transcript" with
      | VList transcript => ensure (py_eq (VList (take (length history) transcript)) (VList history)) incompatible
      | _ => Err incompatible
      end
  end.

(** The stored history *)
Definition history_of (state : pydict) : list pyval :=
  match get state "messages" with VList l => l | _ => [] end.

Section bootstrap.
Context {S : Type}.
Variable py_str : pyval → pystr.
Variable other_key : pykey → option pystr.
Variable store : durable_store S.

(** What a document gives a turn: its messages, or why it cannot start. *)
Definition turn_messages (sid : pystr) (state : pydict) (incoming : list pyval) (resume_mode : bool)
    (provider model continuation : pyval) : RT (list pydict) :=
  let history := history_of state in
  checkpoint ← match dict_get state EXECUTION_CHECKPOINT_KEY with
               | Some raw => c ← validate_execution_checkpoint py_str other_key raw; Ok (Some c)
               | None => Ok None
               end;
  match checkpoint with
  | Some c =>
      _ ← _ensure_checkpoint_extends_semantic_history history c;
      _ ← ensure_checkpoint_compatible py_str c sid provider model;
      if resume_mode then
        messages ← restore_resume_checkpoint_messages py_str other_key c incoming continuation;
        Ok (_deepcopy_messages messages)
      else
        messages ← restore_fresh_checkpoint_messages c incoming;
        merge_checkpoint_transcript_with_incoming messages incoming
  | None =>
      if resume_mode then Ok (_deepcopy_messages incoming)
      else
        _ ← ensure_session_delta_input history incoming;
        Ok (_merge_history_and_incoming history incoming)
  end.

(** The session document and the messages of the turn; the long-term memory and the
    summary of what was loaded are left out. *)
Definition bootstrap_messages (sid : pystr) (incoming : list pyval) (resume_mode : bool)
    (provider model continuation : pyval) : prog S (list pydict * pydict) :=
  if negb (nonempty sid) then mret (_deepcopy_messages incoming, [])
  else
    '(snapshot, _) ← reconcile_cancelled_execution_checkpoint py_str other_key store sid cancelled_tree;
    messages ← rt (turn_messages sid (snap_state snapshot) incoming resume_mode provider model continuation);
    mret (messages, snap_state snapshot).
End bootstrap.

(** ** Nothing is lost *)

Definition conversation (messages : list pydict) : list pydict := filter (λ m, is_system m = false) messages.
Definition instructions (messages : list pydict) : list pydict := filter (λ m, is_system m = true) messages.

Lemma conversation_systems l : Forall (λ m, is_system m = true) l → conversation l = [].
Proof.
  unfold conversation. induction 1 as [|m l Hm _ IH]; [done|]. rewrite filter_cons_False; [done|]. by rewrite Hm.
Qed.

Lemma instructions_all l : Forall (λ m, is_system m = true) (instructions l).
Proof. unfold instructions. apply Forall_forall. intros m Hm%list_elem_of_filter. naive_solver. Qed.

Lemma conversation_idemp l : conversation (conversation l) = conversation l.
Proof.
  unfold conversation. induction l as [|m l IH]; [done|]. rewrite filter_cons. case_decide as Hm; [|done].
  rewrite filter_cons, IH. by rewrite decide_True.
Qed.

Lemma add_systems_all systems incoming :
  Forall (λ m, is_system m = true) systems → Forall (λ m, is_system m = true) incoming →
  Forall (λ m, is_system m = true) (add_systems systems incoming).
Proof.
  unfold add_systems. intros Hs Hi. revert systems Hs. induction Hi as [|m l Hm _ IH]; intros systems Hs; [done|].
  cbn [foldl]. apply IH. destruct (in_messages m systems); [done|]. apply Forall_app. split; [done|by constructor].
Qed.

Lemma add_systems_prefix systems incoming : systems `prefix_of` add_systems systems incoming.
Proof.
  unfold add_systems. revert systems. induction incoming as [|m l IH]; intros systems; cbn [foldl]; [done|].
  destruct (in_messages m systems); [apply IH|]. etrans; [|apply IH]. by eexists.
Qed.

(** A turn that starts from the stored history: the conversation is the stored one with
    the incoming one after it, and the stored instructions come first. *)
Lemma merge_extends_history history incoming :
  conversation (_merge_history_and_incoming history incoming) =
  conversation (_deepcopy_messages history) ++ conversation (_deepcopy_messages incoming) ∧
  (_deepcopy_messages history ≠ [] → _deepcopy_messages incoming ≠ [] →
   instructions (_deepcopy_messages history) `prefix_of` _merge_history_and_incoming history incoming).
Proof.
  unfold _merge_history_and_incoming. destruct (_deepcopy_messages history) as [|h hs] eqn:Eh; [done|].
  destruct (_deepcopy_messages incoming) as [|i is_] eqn:Ei.
  { split; [by rewrite app_nil_r|done]. }
  unfold _split_system_and_non_system. fold (conversation (h :: hs)) (conversation (i :: is_)).
  fold (instructions (h :: hs)) (instructions (i :: is_)). split.
  - assert (∀ l l', conversation (l ++ l') = conversation l ++ conversation l') as Happ
      by (intros; apply filter_app).
    rewrite !Happ, !conversation_idemp, conversation_systems; [done|]. apply add_systems_all; apply instructions_all.
  - intros _ _. etrans; [apply add_systems_prefix|]. by eexists.
Qed.

(** The checkpoint's transcript comes first, in its order up to the instructions, and
    then the new conversation. *)
Lemma split_conversation messages systems conv :
  split_instructions messages = Ok (systems, conv) →
  (VDict <$> systems) ++ (VDict <$> conv) ≡ₚ messages.
Proof.
  revert systems conv. induction messages as [|m messages IH]; intros systems conv; [by intros [= <- <-]|].
  destruct m as [| | | | | |d|]; try done. cbn [split_instructions].
  intros (b & _ & ([s c] & Hs & [= Heq])%result_bind_ok)%result_bind_ok. specialize (IH _ _ Hs).
  destruct b; injection Heq as <- <-; rewrite fmap_cons; cbn [app].
  - by rewrite IH.
  - by rewrite <-Permutation_middle, IH.
Qed.

(** C21. A fresh turn loses no message and repeats none: without a checkpoint its conversation
    is the stored one with the incoming one after it; with a checkpoint it has exactly the
    messages of the transcript and the new conversation, after the stored history was
    found at the start of the transcript. *)
Theorem fresh_turn_loses_nothing (py_str : pyval → pystr) (other_key : pykey → option pystr) (sid : pystr)
    (state : pydict) (incoming : list pyval) (provider model continuation : pyval) (messages : list pydict) :
  turn_messages py_str other_key sid state incoming false provider model continuation = Ok messages →
  match dict_get state EXECUTION_CHECKPOINT_KEY with
  | None =>
      conversation messages =
      conversation (_deepcopy_messages (history_of state)) ++ conversation (_deepcopy_messages incoming)
  | Some raw =>
      ∃ c systems conv, validate_execution_checkpoint py_str other_key raw = Ok c ∧
        split_instructions incoming = Ok (systems, conv) ∧
        VDict <$> messages ≡ₚ transcript_of c ++ (VDict <$> conv) ∧
        (history_of state ≠ [] →
         py_eq (VList (take (length (history_of state)) (transcript_of c))) (VList (history_of state)) = true)
  end.
Proof.
  unfold turn_messages. destruct (dict_get state EXECUTION_CHECKPOINT_KEY) as [raw|].
  - intros (oc & (c & Hc & [= <-])%result_bind_ok & ([] & Hext & ([] & _ & (old & Hold & H)%result_bind_ok)%result_bind_ok)
      %result_bind_ok)%result_bind_ok.
    unfold restore_fresh_checkpoint_messages in Hold.
    apply result_bind_ok in Hold as (? & _ & ([] & _ & ([] & _ & ([] & _ & [= <-])%result_bind_ok)%result_bind_ok)%result_bind_ok).
    unfold merge_checkpoint_transcript_with_incoming in H.
    apply result_bind_ok in H as ([s0 c0] & H0 & ([s1 c1] & H1 & ([] & _ & [= <-])%result_bind_ok)%result_bind_ok).
    exists c, s1, c1. split_and!; [done|done| |].
    + rewrite !fmap_app, app_assoc. by rewrite (split_conversation _ _ _ H0).
    + intros Hne. unfold _ensure_checkpoint_extends_semantic_history, transcript_of in *.
      destruct (history_of state) as [|h hs]; [done|]. destruct (get c "transcript"); try done. by apply ensure_ok in Hext.
  - intros (oc & [= <-] & ([] & _ & [= <-])%result_bind_ok)%result_bind_ok. apply merge_extends_history.
Qed.

Section fresh_turn.
Let said (role text : string) : pyval := VDict [(KStr (u "role"), VStr (u role)); (KStr (u "content"), VStr (u text))].
Let history : list pyval := [said "system" "be brief"; said "user" "hello"; said "assistant" "hi"].
Let incoming : list pyval := [said "system" "be brief"; said "user" "go on"].
Let state : pydict := [(KStr (u "messages"), VList history)].

Lemma fresh_turn_loses_nothing_witness :
  ∃ messages, length messages = 4%nat ∧
    conversation messages = conversation (_deepcopy_messages history) ++ conversation (_deepcopy_messages incoming).
Proof.
  eexists. split; [shelve|].
  apply (fresh_turn_loses_nothing (λ _, []) (λ _, None) (u "s1") state incoming VNone VNone VNone).
  vm_compute. reflexivity. Unshelve. reflexivity.
Defined.
End fresh_turn.
