(* ===== verification/InteractionDemo.v ===== *)
(** * Answers at work

    A run that waits for an approval, evaluated on the process-local store: the request is
    saved with its checkpoint, two workers answer at the same time, and another run is
    cancelled while it waits. *)

From S2P Require Import Prelude PyVal Json JsonParse JsonDefault Execution SessionStore Revision Interaction Checkpoint CheckpointCodec CheckpointRuntime HumanInput InteractionRuntime DurableSafety DurableMemory InteractionSafety InteractionWorkers InteractionProgress.
Local Open Scope Z_scope.

(** ** Schedules *)

Section schedules.
Context {S : Type} (store : durable_store S) `{!DocumentStore store}.
Variable py_str : pyval → pystr.
Variable other_key : pykey → option pystr.

(** A new worker, or the next call of a worker. *)
Definition turn : Type := worker_op + nat.

Definition take_turn (t : turn) (p : pool) : pool (S := S) :=
  match t with
  | inl o => (p.1, p.2 ++ [(o, start store py_str other_key o)])
  | inr i =>
      match p.2 !! i with
      | Some (o, Call m k) => let '(r, s') := m p.1 in (s', <[i := (o, k r)]> p.2)
      | _ => p
      end
  end.

Definition take_turns (ts : list turn) (p : pool) : pool (S := S) := foldl (λ p t, take_turn t p) p ts.

Lemma take_turns_steps ts p : rtc (pool_step store py_str other_key) p (take_turns ts p).
Proof.
  revert p. induction ts as [|t ts IH]; intros [s l]; [done|].
  cbn [take_turns foldl]. etrans; [|apply IH]. destruct t as [o|i]; cbn [take_turn fst snd].
  - apply rtc_once. constructor.
  - destruct (l !! i) as [[o [r|B m k]]|] eqn:Hi; [done| |done].
    destruct (m s) as [r s'] eqn:Hm. apply rtc_once. by eapply pool_call.
Qed.
End schedules.

(** ** A run that waits *)

(** No object occurs in the data. *)
Definition no_str (v : pyval) : pystr := [].
Definition no_key (k : pykey) : option pystr := None.

Definition ask : R InteractionRequest :=
  build_interaction_request (VStr (u "s1")) (VStr (u "tool_approval")) (VStr (u "run")) (VStr (u "1"))
    (VDict [field "tool" (VStr (u "rm"))]) TOOL_APPROVAL_RESPONSE_CONTRACT (VInt 0) VNone.
Definition asked : InteractionRequest := Eval vm_compute in from_ok empty_request ask.
Definition asked_id : pystr := Eval vm_compute in interaction_id asked.

Definition waiting : run_state :=
  mkRunState [VDict [field "role" (VStr (u "user")); field "content" (VStr (u "clean up"))]] 2
    (mkProvider (Some (u "openai")) (Some (u "gpt")) None false 1000) (mkTokens 7 5 2 0 0 7 5 2 0 0)
    (Some (u "s1")) (Some (BObject asked)) None None (Some [field "step" (VInt 2)]) None
    [field "session_revision" (VInt 0)] [] [].

Definition await : pystr := u "awaiting_interaction".

Definition built : RT pydict := build_execution_checkpoint no_str no_key waiting await (u "run").
Definition checkpoint : pydict := Eval vm_compute in match built with Ok c => c | Err _ => [] end.

Lemma built_ok : built = Ok checkpoint.
Proof. vm_compute. reflexivity. Qed.

Lemma asked_request request :
  _checkpoint_interaction_request waiting await (u "run") (u "s1") (Some 0) = Ok request → request = Some asked.
Proof. intros H. vm_compute in H. by injection H as <-. Qed.

Lemma built_checkpoint_is_accepted_witness :
  validate_execution_checkpoint no_str no_key (VDict checkpoint) = Ok checkpoint.
Proof.
  refine (proj1 (built_checkpoint_is_accepted no_str no_key waiting await (u "run") checkpoint _ eq_refl built_ok)).
  intros request ->%asked_request. apply printableb_ok. vm_compute. reflexivity.
Defined.

(** ** Workers on the process-local store *)

Abbreviation mem := (memory_store demo_clock).
Abbreviation turns ts := (take_turns mem no_str no_key ts (empty_store, [])).

Definition saved : list turn :=
  [inl (WSaveCheckpoint (u "s1") (VDict checkpoint) (Some (BObject asked)) (Some 0) None);
   inr 0%nat; inr 0%nat; inr 0%nat].

(** Two workers read the open request and answer it; the second finds the answer of the
    first.  Then the wait is cancelled, and the answer comes once more. *)
Definition yes : raw_answer := AnswerValue (VBool true).
Definition confirm : raw_answer := AnswerConfirmation (mkConfirmation (VBool true) VNone (VStr [])).

Definition race : list turn :=
  saved ++ [inl (WRecord (u "s1") asked_id yes (u "user") 5 None None);
            inl (WRecord (u "s1") asked_id confirm (u "app") 6 None None);
            inr 1%nat; inr 2%nat; inr 1%nat; inr 1%nat; inr 2%nat; inr 2%nat; inr 1%nat;
            inl (WCancel (u "s1") (u "run") None [] (u "host") 7); inr 3%nat; inr 3%nat; inr 3%nat; inr 3%nat].
Definition late : list turn := [inl (WRecord (u "s1") asked_id yes (u "user") 8 None None); inr 4%nat].
Abbreviation later_pool p := (take_turns mem no_str no_key late p).

Definition worker (n : nat) (p : pool (S := store)) : option (worker_op * prog store worker_result) := p.2 !! n.

(** The workers after the race, and the one that comes late. *)
Definition answered (p : pool (S := store)) :=
  (worker 1 p, worker 2 p, worker 3 p, length p.2, worker 4 (later_pool p)).

Definition no_interaction : DurableInteractionSnapshot :=
  mkDurableInteraction empty_request [] None None (mkSnapshot [] None).
Definition told_by (w : option (worker_op * prog store worker_result)) : DurableInteractionSnapshot :=
  match w with Some (_, Done (Ok (WInteraction i))) => i | _ => no_interaction end.

Definition all_told : DurableInteractionSnapshot * DurableInteractionSnapshot * DurableInteractionSnapshot *
    DurableInteractionSnapshot :=
  Eval vm_compute in let '(a, b, c, _, d) := answered (turns race) in (told_by a, told_by b, told_by c, told_by d).
Definition first_told : DurableInteractionSnapshot := Eval cbv [all_told fst snd] in all_told.1.1.1.
Definition second_told : DurableInteractionSnapshot := Eval cbv [all_told fst snd] in all_told.1.1.2.
Definition cancel_told : DurableInteractionSnapshot := Eval cbv [all_told fst snd] in all_told.1.2.
Definition late_told : DurableInteractionSnapshot := Eval cbv [all_told fst snd] in all_told.2.

Lemma race_answered :
  answered (turns race) =
  (Some (WRecord (u "s1") asked_id yes (u "user") 5 None None, Done (Ok (WInteraction first_told))),
   Some (WRecord (u "s1") asked_id confirm (u "app") 6 None None, Done (Ok (WInteraction second_told))),
   Some (WCancel (u "s1") (u "run") None [] (u "host") 7, Done (Ok (WInteraction cancel_told))), 4%nat,
   Some (WRecord (u "s1") asked_id yes (u "user") 8 None None, Done (Ok (WInteraction late_told)))).
Proof. vm_compute. reflexivity. Qed.

Lemma answered_inv p a b c n d :
  answered p = (a, b, c, n, d) →
  (p.2 !! 1%nat = a ∧ p.2 !! 2%nat = b) ∧ p.2 !! 3%nat = c ∧ length p.2 = n ∧ (later_pool p).2 !! 4%nat = d.
Proof. unfold answered, worker. intros H. injection H as H1 H2 H3 H4 H5. tauto. Qed.

Lemma race_told :
  ((turns race).2 !! 1%nat = Some (WRecord (u "s1") asked_id yes (u "user") 5 None None, Done (Ok (WInteraction first_told))) ∧
   (turns race).2 !! 2%nat =
     Some (WRecord (u "s1") asked_id confirm (u "app") 6 None None, Done (Ok (WInteraction second_told)))) ∧
  (turns race).2 !! 3%nat =
    Some (WCancel (u "s1") (u "run") None [] (u "host") 7, Done (Ok (WInteraction cancel_told))) ∧
  length (turns race).2 = 4%nat ∧
  (later_pool (turns race)).2 !! 4%nat =
    Some (WRecord (u "s1") asked_id yes (u "user") 8 None None, Done (Ok (WInteraction late_told))).
Proof. exact (answered_inv _ _ _ _ _ _ race_answered). Qed.

Lemma cancelled_id_of : interaction_id (di_request cancel_told) = asked_id.
Proof. vm_compute. reflexivity. Qed.

Lemma one_answer_counts_witness : ∃ c, di_receipt first_told = Some c ∧ di_receipt second_told = Some c.
Proof.
  destruct (one_answer_counts mem no_str no_key empty_store (turns race) 1 2 (u "s1") asked_id (u "user") (u "app")
    yes confirm 5 6 None None None None first_told second_told (take_turns_steps _ _ _ _ _) eq_refl
    (proj1 (proj1 race_told)) (proj2 (proj1 race_told))) as (c & j & e & H1 & H2 & _).
  exists c. exact (conj H1 H2).
Defined.

Lemma late_worker : (length (turns race).2 ≤ 4)%nat.
Proof. exact (Nat.eq_le_incl _ _ (proj1 (proj2 (proj2 race_told)))). Qed.

Lemma cancelled_wait_is_not_resumed_witness :
  require_unapplied_callback_receipt late_told = Err (RInteraction InteractionNotPendingError).
Proof.
  exact (proj2 (cancelled_wait_is_not_resumed mem no_str no_key empty_store (turns race)
    (later_pool (turns race)) 3 4 (u "s1") (u "run") asked_id [] (u "host") (u "user")
    None 7 8 yes None None cancel_told late_told (take_turns_steps _ _ _ _ _) (take_turns_steps _ _ _ _ _)
    (proj1 (proj2 race_told)) cancelled_id_of late_worker (proj2 (proj2 (proj2 race_told))))).
Defined.

Lemma interaction_answers_are_final_witness :
  @rev _ mem (memory_documents demo_clock) (turns race).1 (u "s1")
  ≤ @rev _ mem (memory_documents demo_clock) (later_pool (turns race)).1 (u "s1").
Proof.
  exact (proj1 (interaction_answers_are_final mem no_str no_key empty_store (turns race) (later_pool (turns race))
    (take_turns_steps _ _ _ _ _) (take_turns_steps _ _ _ _ _) (u "s1"))).
Defined.

Lemma normalized_answer_is_canonical_witness :
  normalize_interaction_response (BObject asked) (AnswerValue (approval_dict true VNone [])) =
  Ok (approval_dict true VNone []).
Proof. apply (normalized_answer_is_canonical asked yes). vm_compute. reflexivity. Defined.

(** ** Nobody else *)

Definition open_journal : journal := registered new_interaction_journal asked (u "cp1").
Definition open_entry : entry := mkEntry asked (u "cp1") None None.
Definition open_doc : pydict := [(INTERACTION_JOURNAL_KEY, VDict (journal_dict open_journal))].
Definition quiet_store : store := put_doc (u "s1") open_doc empty_store.

Definition approved : pyval := approval_dict true VNone [].
Definition approval : InteractionReceipt :=
  Eval vm_compute in from_ok empty_receipt (build_interaction_receipt (BObject asked) approved (VStr (u "user")) (VInt 5)).

Lemma quiet_doc : mem_doc quiet_store (u "s1") = open_doc.
Proof. reflexivity. Qed.

Lemma uncontended_answer_is_recorded_witness :
  (run (record_receipt no_str no_key mem (u "s1") asked_id yes (u "user") 5 None None) quiet_store).1 =
  Ok (mkDurableInteraction asked (u "cp1") (Some approval) None
        (mkSnapshot (dict_set open_doc INTERACTION_JOURNAL_KEY
           (VDict (journal_dict (recorded open_journal asked_id open_entry approval)))) (Some 2))).
Proof.
  refine (f_equal fst (uncontended_answer_is_recorded no_str no_key demo_clock quiet_store (u "s1") asked_id (u "user") yes 5
    open_journal open_entry approved approval _ eq_refl eq_refl _ eq_refl _ eq_refl eq_refl _ _ _)).
  - split; vm_compute; [discriminate|reflexivity].
  - rewrite quiet_doc. vm_compute. reflexivity.
  - vm_compute. reflexivity.
  - vm_compute. reflexivity.
  - vm_compute. reflexivity.
  - vm_compute. reflexivity.
Defined.
